(* ===== verification/_CoqProject ===== *)
-Q . S2P
Prelude.v
Text.v
F64.v
Errors.v
Model.v
Pg.v
Toid.v
CursorExpiry.v
SseRing.v
Bloom.v
Xdr.v
EventStore.v
Indexer.v
Backfill.v
RpcEndpoints.v
RetryPolicy.v
CircuitBreaker.v
FilterDsl.v
Limits.v
CallbackUrl.v
Subscriptions.v
Signing.v
Webhook.v
ApiParams.v
EventsQuery.v
Pagination.v
PriorityQueue.v
RateLimiter.v
SseStream.v
Idempotency.v
ApiKeys.v
Tenancy.v
EventsRead.v
EventsExport.v
EventsAdmin.v
EventRouter.v
Notifications.v
NotificationAdmin.v
ZeroTrust.v
FeatureFlags.v
JobScheduler.v
SloTracker.v
PoolTuner.v
Anomaly.v
SchemaRegistry.v
QueryBuilder.v
Config.v
ConfigBuild.v
ConfigDocs.v
Leader.v
WebhookContent.v
SubscriptionCheck.v
ContractsApi.v
LuaReplay.v
Routes.v
Encryption.v
Caches.v
Retention.v
Partitions.v
