(* ===== verification/Prelude.v ===== *)
(** * SorobanPulse: a verification development

    SorobanPulse (src/src/, Rust) indexes the events of Soroban smart contracts:
    it polls an RPC server, stores the events in PostgreSQL, and serves them
    over HTTP, server-sent events, WebSockets and webhooks.  This library models
    its core as executable Rocq definitions, one file per component, and proves
    what makes each component, and some compositions of them, correct.  Where
    the code does something else than what it is written for, the theorem says
    what it does.

    ** How the program is put together, and where it is modelled

    Ingestion.  [run_loop] of indexer.rs (Indexer) asks the RPC for pages of
    events through a list of endpoints with failover (RpcEndpoints, with the
    backoffs of RetryPolicy), deals with expired cursors (CursorExpiry), and
    stores every page in one transaction (EventStore: the insert path with its
    savepoint, filters, validators and side tables).  The insert path uses the
    bloom filters of bloom_filter.rs (Bloom) and the checks of
    xdr_validation.rs and scval_format.rs (Xdr).  Event ids are decoded by
    toid.rs (Toid).  backfill.rs (Backfill) feeds the same path
    ([EventSink::store_events]) from a data lake, in ranges with checkpoints.
    Which process indexes a network is decided by advisory locks (Leader).

    Delivery.  Stored events are pushed into a ring (SseRing) and a broadcast
    channel, from which the streaming endpoints of handlers/events.rs serve
    their clients (SseStream); subscriptions.rs keeps registrations and a
    delivery queue (Subscriptions, with the address filter of CallbackUrl and
    the limiters of Limits); webhook.rs sends webhooks (Webhook, with
    RetryPolicy, signed as in Signing, guarded by CircuitBreaker, ordered by
    PriorityQueue); their payloads come from templates and are logged with
    their secrets masked (WebhookContent).  SubscriptionCheck checks the
    configuration of subscriptions.

    Queries.  routes.rs (Routes) has the table of routes with their gates and
    layers.  A request passes the middlewares: API keys (ApiKeys), rate limits
    (RateLimiter), idempotency keys (Idempotency).  The read API of
    handlers/events.rs validates its parameters and cursors (ApiParams), builds
    SQL with numbered placeholders and separately ordered binds (EventsQuery,
    EventsRead, EventsExport) and pages through the result (Pagination);
    EventsAdmin has the handlers that change events, ContractsApi those about
    contracts, their labels and ABIs, LuaReplay those that apply scripts.
    filter_dsl.rs (FilterDsl) compiles an expression language to SQL,
    query_builder.rs (QueryBuilder) builds queries clause by clause, and
    schema_validator.rs (SchemaRegistry) keeps the schemas of contracts with
    their versions.  Caches has the caches of payloads, results and plans.

    Services around these.  event_router.rs (EventRouter) sends events to
    destinations by rules; Notifications has the dispatcher, receipts, batching
    and channel limits of the notification_*.rs files, NotificationAdmin their
    administration; zero_trust.rs (ZeroTrust), feature_flags.rs (FeatureFlags),
    job_scheduler.rs (JobScheduler), slo_tracker.rs (SloTracker),
    db_pool/adaptive.rs (PoolTuner) and anomaly_detection.rs (Anomaly) are a file
    each.  encryption.rs, integration_secrets.rs and reencrypt.rs (Encryption)
    seal what is stored and rotate its keys.  archiver.rs, pruner.rs and
    retention_tiers.rs (Retention) remove old events, partition_manager.rs
    (Partitions) keeps the table's partitions.  error.rs (Errors) is the error
    every handler answers with.

    Configuration.  config/mod.rs reads the settings from the environment
    (Config); config/builder.rs and config_validation.rs check them
    (ConfigBuild); config/reference.rs documents them (ConfigDocs).

    ** The layers of the library

    - Prelude: results, association lists, list and sorting lemmas, automation.
      Text: decimal text.  F64: binary64.  Model: JSON values and RPC events.
      Pg: programs over a database pool, in which every statement has a number
      and may fail, calls to the outside leave a trace, and time is read from a
      clock; [preserves R] and the hint database [pg] carry invariants through
      compound programs.
    - One file per component, its Module named like the file.  Records are the
      structs and tables, inductive types the enums; an operation of the code is
      a definition of the same name, with the conditions and early returns of
      the code.  A table is a list of rows in insertion order.  A transaction
      (EventStore) is a copy of the tables that COMMIT installs; a statement
      that fails poisons it as PostgreSQL does.
    - Interfaces are classes with their laws, and instances that satisfy them:
      BloomFilter and BloomLaws (Bloom), MaxHeap (PriorityQueue),
      IdempotencyStore (Idempotency), Crypto (Signing), PathRouter (Routes),
      Codec and CodecLaws (Encryption), Moka and MokaLaws (Caches).  Clients are proved
      against the laws.
    - Code outside src/ is an argument: the HTTP client, hashes, base64, the url
      and stellar-xdr crates, serde's derived serializers, brotli and gzip.  What
      a proof needs of it is a named hypothesis, and the witness of the theorem
      applies it to a concrete function.
    - Machine integers are integers with their bounds: wrapping, saturating or
      checked as in the source.

    ** What the theorems show

    - Ingestion.  [fetch_and_store_spec]: whatever the RPC answers and whichever
      statements fail, a cycle only appends valid rows with unique keys, and its
      next ledger is one past the latest, or the start when nothing is newer.
      [store_event_in_tx_stores_iff]: when an event is stored, the constraints
      of the table included.  [store_events_atomic], [run_range_checkpoint_sound]:
      a batch is stored as a whole, and a checkpoint never runs ahead.
      [leader_unique]: one leader per network, and when.
      [failed_statement_discards_page]: an event that the table refuses takes its
      page with it, unreported.  [fetch_terminates], [fetch_never_returns]: when
      a cycle ends.
    - Streams.  [events_since_refines_log]; [session_delivers]: what a client
      gets for every interleaving of its connection with the publisher;
      [admission_counts_the_gone]: what the counters of connections count in
      every reachable state, WebSockets included.
    - Delivery.  [deliver_pending_spec]; [subscriptions_lifecycle], which ranges
      over what other components do to the tables too;
      [webhook_delivery_accounted], [sign_verify_roundtrip],
      [queue_refines_arrivals], [metrics_at_rest], [validate_callback_url_spec];
      [route_accounts] for the router, [batcher_refines] for notifications.
      [replay_with_transform_spec]: what a replay with a script sends.
    - Queries.  [get_events_selects]: placeholders and binds agree and select
      what the request asks for; [get_events_well_typed]: their types too;
      [pagination_complete]: the cursors enumerate the matching events;
      [cursor_roundtrip]; [compile_dsl_filter_correct]: the filter language
      means the same in SQL.  [related_events_spec], [batch_query_bounded],
      [export_reads_back]: the other reads against reference definitions.
      [registry_invariant]: the cache and the history of the schema registry
      while requests interleave; [checked_registration].
    - Access and privacy.  [auth_sound], [served_is_authorised],
      [revocation_final], [tenant_isolation]; [ip_rules_spec];
      [log_hides_secrets]; [rotation_keeps_credentials], for builds with and
      without the feature encryption, and [rewriting_keeps_secrets]: no rotation
      of keys loses what it rotates.
    - Operation.  [build_in_bounds]: a configuration that builds is in bounds.

    Lemmas that are not listed as properties record further behaviour, such as
    [build_accepts_valid], [unset_is_default], [settings_taken],
    [documented_defaults], [recommendations_bounded], [any_key_administers],
    [event_job_keeps_events], [resumed_with_another_key], [seal_open_config],
    [stub_rotation_not_verified], [overlapping_registrations], [limit_overrun],
    [replay_cannot_resume], [ipv6_literal_accepted], [pruned_event_not_delivered],
    [cache_refines_payloads], [event_counts_fresh], [parse_event_id_roundtrip],
    [depth_guard_correct], [breaker_reachable_inv], [execute_with_retry_spec],
    [limits_never_enforced], [middleware_replays], [reads_cross_tenants],
    [backward_reads_old], [build_numbers_params], [mad_never_detects],
    [activation_is_atomic], [sliding_window_limiter], [backfill_stores_nothing],
    [replay_crosses_tenants], [commit_failure_loses_event],
    [anonymized_event_returns], [flag_evaluation_spec],
    [lost_connection_two_leaders], [months_ahead_covered], [archive_once_keeps],
    [dropped_partitions_rows], [transform_substitutes],
    [default_rules_spec], [summary_staleness] and [identity_script].

    ** Fuel

    Loops that the code runs until the outside makes them stop take fuel: the
    page loop of Indexer, the range loop of Backfill and the batches of
    Encryption.  [fetch_terminates] gives an amount that is enough, and
    [fetch_never_returns] shows the case in which none is; a rotation needs no
    more batches than there are rows.  The other loops recurse on their data.

    ** What is not modelled

    Extraction and response building (axum); logs, metrics and
    tracing, which no decision depends on; clients of external services; the
    stellar-xdr decoders, which the insert path takes as arguments; the
    transactions of other processes that run at the same time, except where a
    file says so (Limits, PriorityQueue, Idempotency, SseStream, SchemaRegistry).
    A statement that fails has no effect: lost answers, of a COMMIT (EventStore)
    or of a lock that was granted (Leader), are not modelled.  Of the
    handlers, statistics, aggregations, trends and archives are left out: they
    are single queries whose meaning is that of their SQL.  Channels for push,
    e-mail, paging and warehouses are clients of other services; anonymization
    is around cryptographic crates. *)

From stdpp Require Export base gmap strings list sorting.
From Stdlib Require Export ZArith Lia Ascii.

Open Scope Z_scope.

(** ** Results of fallible code: Rust's [Result<T, E>] *)

Inductive result (T E : Type) : Type :=
| Ok (x : T)
| Err (e : E).
Arguments Ok {T E} x.
Arguments Err {T E} e.

#[export] Instance result_eq_dec {T E} `{EqDecision T} `{EqDecision E} :
  EqDecision (result T E).
Proof. solve_decision. Defined.

Definition result_bind {T U E} (r : result T E) (k : T → result U E) : result U E :=
  match r with Ok x => k x | Err e => Err e end.

Definition result_map_err {T E F} (f : E → F) (r : result T E) : result T F :=
  match r with Ok x => Ok x | Err e => Err (f e) end.

Definition is_ok {T E} (r : result T E) : bool :=
  match r with Ok _ => true | Err _ => false end.

Declare Scope rust_scope.
Delimit Scope rust_scope with rust.
(** [let? x := c in k] is the [?] operator on [c]. *)
Notation "'let?' x ':=' c 'in' k" := (result_bind c (fun x => k))
  (at level 10, x pattern, c at level 100, k at level 200) : rust_scope.
Open Scope rust_scope.

(** [?] on an [Option]. *)
Notation "'let!' x ':=' c 'in' k" := (option_bind _ _ (fun x => k) c)
  (at level 10, x pattern, c at level 100, k at level 200) : rust_scope.

(** ** Machine integers

    A [w]-bit integer is a [Z]; release-mode arithmetic wraps, casts with
    [as] truncate, and the saturating operations clamp. *)

Definition u_max (w : Z) : Z := 2 ^ w - 1.
Definition i_max (w : Z) : Z := 2 ^ (w - 1) - 1.
Definition in_u (w z : Z) : Prop := 0 ≤ z < 2 ^ w.
Definition in_i (w z : Z) : Prop := - 2 ^ (w - 1) ≤ z < 2 ^ (w - 1).
Definition wrap_u (w z : Z) : Z := z mod 2 ^ w.
Definition wrap_i (w z : Z) : Z := (z + 2 ^ (w - 1)) mod 2 ^ w - 2 ^ (w - 1).
Definition add_u (w a b : Z) : Z := wrap_u w (a + b).
Definition mul_u (w a b : Z) : Z := wrap_u w (a * b).
Definition sat_add_u (w a b : Z) : Z := Z.min (u_max w) (a + b).
Definition sat_sub_u (a b : Z) : Z := Z.max 0 (a - b).
Definition clamp (lo hi x : Z) : Z := Z.min hi (Z.max lo x).

Lemma wrap_u_small w z : in_u w z → wrap_u w z = z.
Proof. intros ?. by apply Z.mod_small. Qed.

Lemma wrap_u_range w z : 0 ≤ w → in_u w (wrap_u w z).
Proof. intros ?. apply Z.mod_pos_bound. by apply Z.pow_pos_nonneg. Qed.

Lemma wrap_i_small w z : 0 < w → in_i w z → wrap_i w z = z.
Proof.
  intros Hw [? ?]. unfold wrap_i.
  assert (2 ^ w = 2 * 2 ^ (w - 1)) as E.
  { rewrite <- Z.pow_succ_r by lia. f_equal. lia. }
  rewrite Z.mod_small by lia. lia.
Qed.

Lemma clamp_range lo hi x : lo ≤ hi → lo ≤ clamp lo hi x ≤ hi.
Proof. unfold clamp. lia. Qed.

Lemma clamp_id lo hi x : lo ≤ x ≤ hi → clamp lo hi x = x.
Proof. unfold clamp. lia. Qed.

(** ** Strings *)

Definition char_eqb (a b : ascii) : bool := Ascii.eqb a b.

(** [str::split_once(c)] for a single character. *)
Fixpoint split_once (c : ascii) (s : string) : option (string * string) :=
  match s with
  | EmptyString => None
  | String a r =>
      if Ascii.eqb a c then Some (EmptyString, r)
      else match split_once c r with
           | Some (x, y) => Some (String a x, y)
           | None => None
           end
  end.

(** [str::split(c)]: never empty. *)
Fixpoint split_on (c : ascii) (s : string) : list string :=
  match s with
  | EmptyString => [EmptyString]
  | String a r =>
      if Ascii.eqb a c then EmptyString :: split_on c r
      else match split_on c r with
           | x :: xs => String a x :: xs
           | [] => [String a EmptyString]
           end
  end.

(** [str::starts_with]. *)
Definition starts_with (p s : string) : bool := String.prefix p s.

(** [str::strip_prefix]. *)
Fixpoint strip_prefix (p s : string) : option string :=
  match p, s with
  | EmptyString, _ => Some s
  | String a p, String b s => if Ascii.eqb a b then strip_prefix p s else None
  | String _ _, EmptyString => None
  end.

(** [str::contains] for a substring. *)
Fixpoint contains (p s : string) : bool :=
  String.prefix p s ||
  match s with
  | EmptyString => false
  | String _ r => contains p r
  end.

(** [str::ends_with]. *)
Fixpoint ends_with (p s : string) : bool :=
  String.eqb p s ||
  match s with
  | EmptyString => false
  | String _ r => ends_with p r
  end.

Definition ascii_lower (a : ascii) : ascii :=
  let n := Z.of_nat (nat_of_ascii a) in
  if (65 <=? n) && (n <=? 90) then ascii_of_nat (Z.to_nat (n + 32)) else a.

(** [str::to_lowercase] on ASCII text. *)
Fixpoint to_lowercase (s : string) : string :=
  match s with
  | EmptyString => EmptyString
  | String a r => String (ascii_lower a) (to_lowercase r)
  end.

Definition is_empty (s : string) : bool :=
  match s with EmptyString => true | _ => false end.

Fixpoint string_forallb (p : ascii → bool) (s : string) : bool :=
  match s with
  | EmptyString => true
  | String a r => p a && string_forallb p r
  end.

Fixpoint join (sep : string) (l : list string) : string :=
  match l with
  | [] => EmptyString
  | [x] => x
  | x :: xs => (x +:+ sep +:+ join sep xs)%string
  end.

Lemma strip_prefix_spec p s r : strip_prefix p s = Some r → s = (p +:+ r)%string.
Proof.
  revert s. induction p as [|a p IH]; intros [|b s]; simpl; try by intros [= <-].
  destruct (Ascii.eqb_spec a b) as [<-|]; [|done]. by intros ->%IH.
Qed.

Lemma strip_prefix_app p r : strip_prefix p (p +:+ r)%string = Some r.
Proof. induction p as [|a p IH]; [done|]. simpl. by rewrite Ascii.eqb_refl. Qed.

(** ** Comparison functions: Rust's [Ord::cmp] and [Ordering::then] *)

(** A lawful comparison: a total order whose [Eq] is equality. *)
Class CmpLaws {A : Type} (cmp : A → A → comparison) : Prop := {
  cmp_refl x : cmp x x = Eq;
  cmp_eq x y : cmp x y = Eq → x = y;
  cmp_antisym x y : cmp y x = CompOpp (cmp x y);
  cmp_trans_lt x y z : cmp x y = Lt → cmp y z = Lt → cmp x z = Lt;
}.

Definition cmp_leb {A} (cmp : A → A → comparison) (x y : A) : bool :=
  match cmp x y with Gt => false | _ => true end.

Definition cmp_le {A} (cmp : A → A → comparison) : relation A :=
  λ x y, cmp_leb cmp x y = true.

#[export] Instance cmp_le_dec {A} (cmp : A → A → comparison) : RelDecision (cmp_le cmp).
Proof. intros x y. unfold cmp_le. apply _. Defined.

Definition cmp_then (a b : comparison) : comparison :=
  match a with Eq => b | c => c end.

Definition cmp_pair {A B} (ca : A → A → comparison) (cb : B → B → comparison)
    (x y : A * B) : comparison := cmp_then (ca x.1 y.1) (cb x.2 y.2).

(** [bool::cmp]: [false < true]. *)
Definition bool_cmp (a b : bool) : comparison :=
  match a, b with false, true => Lt | true, false => Gt | _, _ => Eq end.

#[export] Instance bool_cmp_laws : CmpLaws bool_cmp.
Proof. split; intros; repeat match goal with b : bool |- _ => destruct b end; done. Qed.

#[export] Instance nat_cmp_laws : CmpLaws Nat.compare.
Proof.
  split; intros *.
  - apply Nat.compare_refl.
  - apply Nat.compare_eq.
  - apply Nat.compare_antisym.
  - rewrite !Nat.compare_lt_iff. lia.
Qed.

#[export] Instance cmp_pair_laws {A B} (ca : A → A → comparison) (cb : B → B → comparison)
    `{!CmpLaws ca} `{!CmpLaws cb} : CmpLaws (cmp_pair ca cb).
Proof.
  split; unfold cmp_pair, cmp_then.
  - intros [x x']; simpl. by rewrite !cmp_refl.
  - intros [x x'] [y y']; simpl. destruct (ca x y) eqn:E; try done.
    intros E'. apply cmp_eq in E, E'. by subst.
  - intros [x x'] [y y']; simpl. rewrite (cmp_antisym (cmp:=ca) x y), (cmp_antisym (cmp:=cb) x' y').
    by destruct (ca x y).
  - intros [x x'] [y y'] [z z']; simpl.
    destruct (ca x y) eqn:E1; try done; destruct (ca y z) eqn:E2; try done.
    + apply cmp_eq in E1, E2. subst. rewrite cmp_refl. apply cmp_trans_lt.
    + apply cmp_eq in E1. subst. by rewrite E2.
    + apply cmp_eq in E2. subst. by rewrite E1.
    + by rewrite (cmp_trans_lt _ _ _ E1 E2).
Qed.

#[export] Instance cmp_leb_total {A} (cmp : A → A → comparison) `{!CmpLaws cmp} :
  Total (cmp_le cmp).
Proof.
  intros x y. unfold cmp_le, cmp_leb. rewrite (cmp_antisym (cmp:=cmp) x y).
  destruct (cmp x y); simpl; auto.
Qed.

#[export] Instance cmp_leb_trans {A} (cmp : A → A → comparison) `{!CmpLaws cmp} :
  Transitive (cmp_le cmp).
Proof.
  intros x y z. unfold cmp_le, cmp_leb.
  destruct (cmp x y) eqn:E1; [|intros _|done].
  - by apply cmp_eq in E1 as ->.
  - destruct (cmp y z) eqn:E2; [|intros _|done].
    + apply cmp_eq in E2 as ->. by rewrite E1.
    + by rewrite (cmp_trans_lt _ _ _ E1 E2).
Qed.

(** Strings, and the order backwards ([sort_by(|a, b| b.cmp(a))]). *)
#[export] Instance string_cmp_laws : CmpLaws String.compare.
Proof.
  split.
  - intros x. induction x as [|a x IH]; [done|]. simpl. unfold Ascii.compare. by rewrite N.compare_refl.
  - intros x y. apply String.compare_eq_iff.
  - intros x y. apply String.compare_antisym.
  - intros x. induction x as [|a x IH]; intros [|b y] [|c z]; simpl; try done. unfold Ascii.compare.
    destruct (N.compare_spec (N_of_ascii a) (N_of_ascii b)), (N.compare_spec (N_of_ascii b) (N_of_ascii c)),
      (N.compare_spec (N_of_ascii a) (N_of_ascii c)); try lia; try done. apply IH.
Qed.

Definition flip_cmp {A} (cmp : A → A → comparison) (x y : A) : comparison := cmp y x.

#[global] Typeclasses Opaque flip_cmp.

#[export] Instance flip_cmp_laws {A} (cmp : A → A → comparison) `{!CmpLaws cmp} : CmpLaws (flip_cmp cmp).
Proof.
  unfold flip_cmp. split.
  - intros x. apply cmp_refl.
  - intros x y H. symmetry. by apply (cmp_eq y x).
  - intros x y. apply cmp_antisym.
  - intros x y z H1 H2. by eapply cmp_trans_lt.
Qed.

(** Integers, and sorting by a key: total and transitive, equal on equal keys. *)
#[export] Instance Z_cmp_laws : CmpLaws Z.compare.
Proof.
  split; intros *.
  - apply Z.compare_refl.
  - apply Z.compare_eq.
  - apply Z.compare_antisym.
  - rewrite !Z.compare_lt_iff. lia.
Qed.

(** Lexicographic order of lists, the shorter first. *)
Fixpoint cmp_list {A} (cmp : A → A → comparison) (l k : list A) : comparison :=
  match l, k with
  | [], [] => Eq
  | [], _ :: _ => Lt
  | _ :: _, [] => Gt
  | x :: l, y :: k => cmp_then (cmp x y) (cmp_list cmp l k)
  end.

#[export] Instance cmp_list_laws {A} (cmp : A → A → comparison) `{!CmpLaws cmp} : CmpLaws (cmp_list cmp).
Proof.
  split; unfold cmp_then.
  - induction x; simpl; [done|]. by rewrite cmp_refl.
  - induction x as [|x l IH]; intros [|y k]; simpl; try done. destruct (cmp x y) eqn:E; try done.
    intros ?%IH. apply cmp_eq in E. by subst.
  - induction x as [|x l IH]; intros [|y k]; simpl; try done.
    rewrite (cmp_antisym (cmp:=cmp) x y), IH. by destruct (cmp x y).
  - induction x as [|x l IH]; intros [|y k] [|z m]; simpl; try done.
    destruct (cmp x y) eqn:E1; try done; destruct (cmp y z) eqn:E2; try done.
    + apply cmp_eq in E1, E2. subst. rewrite cmp_refl. apply IH.
    + apply cmp_eq in E1. subst. by rewrite E2.
    + apply cmp_eq in E2. subst. by rewrite E1.
    + by rewrite (cmp_trans_lt _ _ _ E1 E2).
Qed.

Definition cmp_on {A B} (f : A → B) (cmp : B → B → comparison) (x y : A) : comparison := cmp (f x) (f y).

#[export] Instance cmp_on_total {A B} (f : A → B) cmp `{!CmpLaws cmp} : Total (cmp_le (cmp_on f cmp)).
Proof. intros x y. apply (cmp_leb_total cmp). Qed.

#[export] Instance cmp_on_trans {A B} (f : A → B) cmp `{!CmpLaws cmp} : Transitive (cmp_le (cmp_on f cmp)).
Proof. intros x y z. apply (cmp_leb_trans cmp). Qed.

(** [slice::sort_by(cmp)]: the stable merge sort. *)
Definition sort_by {A} (cmp : A → A → comparison) (l : list A) : list A :=
  merge_sort (cmp_le cmp) l.

Lemma sort_by_permutation {A} (cmp : A → A → comparison) l : sort_by cmp l ≡ₚ l.
Proof. apply merge_sort_Permutation. Qed.

Lemma sort_by_sorted {A} (cmp : A → A → comparison) `{!CmpLaws cmp} l :
  StronglySorted (cmp_le cmp) (sort_by cmp l).
Proof. apply StronglySorted_merge_sort; apply _. Qed.

(** Sorting by a key ([sort_by_key], [ORDER BY]). *)
Lemma sort_on_sorted {A B} (f : A → B) cmp `{!CmpLaws cmp} l :
  StronglySorted (cmp_le (cmp_on f cmp)) (sort_by (cmp_on f cmp) l).
Proof. apply StronglySorted_merge_sort; apply _. Qed.

(** ** Lists *)

Lemma StronglySorted_lookup {A} (R : A → A → Prop) (l : list A) i j x y :
  StronglySorted R l → (i < j)%nat → l !! i = Some x → l !! j = Some y → R x y.
Proof.
  revert i j. induction l as [|a l IH]; intros i j Hs Hij Hi Hj; [done|].
  apply StronglySorted_inv in Hs as [Hs Hf].
  destruct i as [|i], j as [|j]; simpl in *; [lia| |lia|].
  - simplify_eq. rewrite Forall_forall in Hf. by eapply Hf, list_elem_of_lookup_2.
  - apply (IH i j); [done|lia|done|done].
Qed.

(** Boolean filters ([Iterator::filter], [partition]). *)
Lemma bool_filter_sublist {A} (p : A → bool) l : sublist (List.filter p l) l.
Proof. induction l as [|x l IH]; simpl; [constructor|]. destruct (p x); by constructor. Qed.

Lemma bool_filter_partition {A} (p : A → bool) l :
  List.filter (λ x, negb (p x)) l ++ List.filter p l ≡ₚ l.
Proof.
  induction l as [|x l IH]; simpl; [done|].
  destruct (p x); simpl; [rewrite <- Permutation_middle|]; by constructor.
Qed.

Lemma elem_of_bool_filter {A} (p : A → bool) l x : x ∈ List.filter p l ↔ x ∈ l ∧ p x = true.
Proof. rewrite !list_elem_of_In. apply filter_In. Qed.

Lemma bool_filter_Forall {A} (P : A → Prop) (p : A → bool) l : Forall P l → Forall P (List.filter p l).
Proof. rewrite !Forall_forall. intros H x [Hx _]%elem_of_bool_filter. auto. Qed.

Lemma filter_none {A} (p : A → bool) l : (∀ x, x ∈ l → p x = false) → List.filter p l = [].
Proof.
  induction l as [|x l IH]; intros Hp; simpl; [done|]. rewrite (Hp x) by left. apply IH. intros y Hy. apply Hp. by right.
Qed.

Lemma filter_all {A} (p : A → bool) l : (∀ x, x ∈ l → p x = true) → List.filter p l = l.
Proof. induction l as [|x l IH]; intros H; simpl; [done|]. rewrite H by by left. by rewrite IH by (intros; apply H; by right). Qed.

Lemma filter_twice {A} (p q : A → bool) l : List.filter p (List.filter q l) = List.filter (λ x, q x && p x) l.
Proof.
  induction l as [|x l IH]; simpl; [done|]. destruct (q x); simpl; [|done]. by rewrite IH.
Qed.

Lemma filter_map {A B} (f : A → B) (p : B → bool) l : List.filter p (map f l) = map f (List.filter (λ x, p (f x)) l).
Proof. induction l as [|x l IH]; simpl; [done|]. destruct (p (f x)); simpl; by rewrite IH. Qed.

Lemma bool_filter_perm {A} (p : A → bool) l k : l ≡ₚ k → List.filter p l ≡ₚ List.filter p k.
Proof.
  induction 1 as [|x l k _ IH|x y l|l k m _ IH1 _ IH2]; simpl; [done| | |by etrans].
  - destruct (p x); [by apply perm_skip|done].
  - destruct (p x), (p y); try done. apply perm_swap.
Qed.

Lemma filter_perm_ext {A} (p q : A → bool) l : (∀ x, x ∈ l → p x = q x) → List.filter p l ≡ₚ List.filter q l.
Proof. intros E. rewrite (List.filter_ext_in p q l); [done|]. intros x Hx. by apply E, list_elem_of_In. Qed.

Lemma filter_split {A} (p q r : A → bool) l :
  (∀ x, x ∈ l → r x = p x || q x) → (∀ x, x ∈ l → p x = true → q x = false) →
  List.filter p l ++ List.filter q l ≡ₚ List.filter r l.
Proof.
  induction l as [|x l IH]; intros Hr Hd; simpl; [done|].
  assert (List.filter p l ++ List.filter q l ≡ₚ List.filter r l) as IH' by (apply IH; intros y Hy; [apply Hr|apply Hd]; by right).
  rewrite (Hr x) by left. specialize (Hd x ltac:(left)). destruct (p x), (q x); simpl.
  - by specialize (Hd eq_refl).
  - by apply perm_skip.
  - rewrite <- Permutation_middle. by apply perm_skip.
  - done.
Qed.

Lemma StronglySorted_impl {A} (R S : relation A) l : (∀ x y, R x y → S x y) → StronglySorted R l → StronglySorted S l.
Proof. intros H. induction 1 as [|x l _ IH Hf]; constructor; [done|]. eapply Forall_impl; [exact Hf|]. auto. Qed.

Lemma nodup_map_inj {A B} (f : A → B) l x y : NoDup (map f l) → x ∈ l → y ∈ l → f x = f y → x = y.
Proof.
  intros Hn [i Hi]%list_elem_of_lookup [j Hj]%list_elem_of_lookup E.
  assert (i = j) as <-; [|congruence].
  apply (NoDup_lookup (map f l) i j (f x) Hn); rewrite list_lookup_fmap; [by rewrite Hi|rewrite Hj, E; done].
Qed.

(** A list that is sorted already, by a key without repetitions. *)
Lemma sort_by_sorted_id {A B} (f : A → B) cmp `{!CmpLaws cmp} l :
  NoDup (map f l) → StronglySorted (cmp_le (cmp_on f cmp)) l → sort_by (cmp_on f cmp) l = l.
Proof.
  intros Hn Hs. apply (StronglySorted_unique_strong (cmp_le (cmp_on f cmp))); [|apply sort_on_sorted, _|done|apply sort_by_permutation].
  intros x y Hx Hy. rewrite sort_by_permutation in Hx. unfold cmp_le, cmp_leb, cmp_on. rewrite (cmp_antisym (cmp:=cmp) (f x) (f y)).
  destruct (cmp (f x) (f y)) eqn:E; try done. intros _ _. apply cmp_eq in E. by apply (nodup_map_inj f l).
Qed.

Lemma max_list_with_spec {A} (f : A → nat) l n :
  (max_list_with f l ≤ n ↔ Forall (λ x, f x ≤ n) l)%nat.
Proof.
  induction l as [|x l IH]; simpl; [split; [constructor|lia]|].
  rewrite Forall_cons, <- IH. lia.
Qed.

(** A window of the latest [c] items, the eldest leaving when it is full. *)
Lemma push_latest {A} c (l : list A) x :
  (0 < c)%nat →
  (if (c <=? length (drop (length l - c) l))%nat then tail (drop (length l - c) l) else drop (length l - c) l) ++ [x]
    = drop (length (l ++ [x]) - c) (l ++ [x]).
Proof.
  intros Hc. rewrite length_drop, length_app. cbn [length]. destruct (Nat.leb_spec c (length l - (length l - c))).
  - replace (length l + 1 - c)%nat with (S (length l - c)) by lia. rewrite drop_app_le by lia. f_equal.
    replace (S (length l - c)) with (length l - c + 1)%nat by lia. rewrite <- drop_drop. by destruct (drop (length l - c) l).
  - rewrite drop_app_le by lia. do 2 f_equal. lia.
Qed.

Lemma sorted_drop {A} (R : relation A) n l : StronglySorted R l → StronglySorted R (drop n l).
Proof. revert n. induction l as [|x l IH]; intros [|n] Hs; try done. simpl. apply IH. by inversion Hs. Qed.

Lemma sorted_filter {A} (R : relation A) (p : A → bool) l : StronglySorted R l → StronglySorted R (List.filter p l).
Proof.
  induction 1 as [|x l Hs IH Hf]; simpl; [constructor|]. destruct (p x); [|done]. constructor; [done|].
  rewrite Forall_forall in Hf |- *. intros y Hy%list_elem_of_In%filter_In. apply Hf, list_elem_of_In. tauto.
Qed.
