(* ===== verification/Text.v ===== *)
(** Decimal text: Rust's integer parsing ([str::parse]) and the decimal
    formatting used by the sources ([{n}] and [{n:019}]), with the round
    trip between them and the agreement of string order with numeric order
    for equally wide numbers. *)

From S2P Require Import Prelude.

(** ** Digits *)

Definition digit_char (d : Z) : ascii := ascii_of_nat (Z.to_nat (48 + d)).

Definition digit_val (a : ascii) : option Z :=
  let n := Z.of_nat (nat_of_ascii a) in
  if (48 <=? n) && (n <=? 57) then Some (n - 48) else None.

Fixpoint digits_val (acc : Z) (s : string) : option Z :=
  match s with
  | EmptyString => Some acc
  | String a r =>
      match digit_val a with
      | Some d => digits_val (10 * acc + d) r
      | None => None
      end
  end.

(** [str::trim] on ASCII text. *)
Definition is_ws (a : ascii) : bool :=
  let n := nat_of_ascii a in ((9 <=? n) && (n <=? 13) || (n =? 32))%nat.

Fixpoint trim_start (s : string) : string :=
  match s with
  | String a r => if is_ws a then trim_start r else s
  | EmptyString => EmptyString
  end.

Fixpoint trim_end (s : string) : string :=
  match s with
  | String a r =>
      match trim_end r with
      | EmptyString => if is_ws a then EmptyString else String a EmptyString
      | r' => String a r'
      end
  | EmptyString => EmptyString
  end.

Definition trim (s : string) : string := trim_end (trim_start s).

(** ** Printing *)

(** [dec_fixed k n]: the last [k] decimal digits of [n]. *)
Fixpoint dec_fixed (k : nat) (n : Z) : string :=
  match k with
  | O => EmptyString
  | S k' => (dec_fixed k' (n / 10) +:+ String (digit_char (n mod 10)) EmptyString)%string
  end.

(** Number of decimal digits, at least one, searched up to [fuel] (20 digits
    hold every [u64]). *)
Fixpoint ndigits (fuel : nat) (n : Z) : nat :=
  match fuel with
  | O => 1
  | S f => if n <? 10 then 1%nat else S (ndigits f (n / 10))
  end.

(** [{n}] and [{n:0w}] for a non-negative integer below [10 ^ 20]. *)
Definition show_u (n : Z) : string := dec_fixed (ndigits 20 n) n.
Definition show_u_pad (w : nat) (n : Z) : string := dec_fixed (Nat.max w (ndigits 20 n)) n.
(** [{n}] for a signed integer. *)
Definition show_i (n : Z) : string :=
  if n <? 0 then String "-" (show_u (- n)) else show_u n.

(** ** Parsing *)

(** [s.parse::<uW>()]: an optional plus sign, then one digit or more, within range. *)
Definition parse_u (w : Z) (s : string) : option Z :=
  let body := match s with String "+" r => r | _ => s end in
  if is_empty body then None
  else match digits_val 0 body with
       | Some v => if v <? 2 ^ w then Some v else None
       | None => None
       end.

(** [s.parse::<iW>()]. *)
Definition parse_i (w : Z) (s : string) : option Z :=
  let '(sign, body) := match s with
                       | String "+" r => (1, r)
                       | String "-" r => (-1, r)
                       | _ => (1, s)
                       end in
  if is_empty body then None
  else match digits_val 0 body with
       | Some v => if (- 2 ^ (w - 1) <=? sign * v) && (sign * v <? 2 ^ (w - 1))
                   then Some (sign * v) else None
       | None => None
       end.

(** ** Lemmas on digits *)

Lemma digit_char_code d : 0 ≤ d < 10 → Z.of_nat (nat_of_ascii (digit_char d)) = 48 + d.
Proof.
  intros. unfold digit_char. rewrite nat_ascii_embedding; lia.
Qed.

Lemma digit_val_char d : 0 ≤ d < 10 → digit_val (digit_char d) = Some d.
Proof.
  intros. unfold digit_val. rewrite digit_char_code by done.
  replace (_ && _) with true by lia. f_equal. lia.
Qed.

Lemma digits_val_app s t acc :
  digits_val acc (s +:+ t)%string = option_bind _ _ (λ a, digits_val a t) (digits_val acc s).
Proof.
  revert acc. induction s as [|a s IH]; intros acc; simpl; [done|].
  destruct (digit_val a); simpl; auto.
Qed.

Lemma digits_val_dec_fixed k n acc :
  0 ≤ n < 10 ^ Z.of_nat k →
  digits_val acc (dec_fixed k n) = Some (acc * 10 ^ Z.of_nat k + n).
Proof.
  revert n acc. induction k as [|k IH]; intros n acc Hn.
  - simpl in *. f_equal. lia.
  - rewrite Nat2Z.inj_succ, Z.pow_succ_r in Hn |- * by lia.
    simpl. rewrite digits_val_app, IH.
    + simpl. rewrite digit_val_char by (apply Z.mod_pos_bound; lia).
      f_equal. pose proof (Z.div_mod n 10). lia.
    + split; [apply Z.div_pos; lia | apply Z.div_lt_upper_bound; lia].
Qed.

Lemma dec_fixed_forall (P : ascii → bool) k n :
  (∀ d, 0 ≤ d < 10 → P (digit_char d) = true) → string_forallb P (dec_fixed k n) = true.
Proof.
  intros HP. revert n. induction k as [|k IH]; intros n; simpl; [done|].
  assert (∀ s t, string_forallb P s = true → string_forallb P t = true →
                 string_forallb P (s +:+ t)%string = true) as Happ.
  { intros s t. induction s as [|a s IHs]; simpl; [done|].
    rewrite !andb_true_iff. tauto. }
  apply Happ; [apply IH|]. simpl. rewrite HP; [done|]. apply Z.mod_pos_bound. lia.
Qed.

Lemma string_app_assoc (x y z : string) : ((x +:+ y) +:+ z = x +:+ (y +:+ z))%string.
Proof. induction x as [|a x IH]; [done|]. exact (f_equal (String a) IH). Qed.

Lemma string_length_app s t :
  String.length (s +:+ t)%string = (String.length s + String.length t)%nat.
Proof. induction s as [|a s IH]; simpl; [done|]. by rewrite IH. Qed.

Lemma dec_fixed_length k n : String.length (dec_fixed k n) = k.
Proof.
  revert n. induction k as [|k IH]; intros n; simpl; [done|].
  rewrite string_length_app, IH. simpl. lia.
Qed.

Lemma ndigits_pos f n : (1 ≤ ndigits f n)%nat.
Proof. destruct f; simpl; [done|]. case_match; lia. Qed.

Lemma ndigits_bound f n :
  0 ≤ n < 10 ^ Z.of_nat (S f) → n < 10 ^ Z.of_nat (ndigits f n).
Proof.
  revert n. induction f as [|f IH]; intros n Hn; [apply Hn|].
  simpl. case_match eqn:E; [apply Z.ltb_lt in E; change (10 ^ Z.of_nat 1) with 10; lia|].
  rewrite (Nat2Z.inj_succ (ndigits f _)), Z.pow_succ_r by lia.
  rewrite (Nat2Z.inj_succ (S f)), Z.pow_succ_r in Hn by lia.
  assert (n / 10 < 10 ^ Z.of_nat (ndigits f (n / 10))).
  { apply IH. split; [apply Z.div_pos; lia | apply Z.div_lt_upper_bound; lia]. }
  pose proof (Z.div_mod n 10). pose proof (Z.mod_pos_bound n 10). lia.
Qed.

Lemma ndigits_le f n k : (1 ≤ k)%nat → 0 ≤ n < 10 ^ Z.of_nat k → (ndigits f n ≤ k)%nat.
Proof.
  revert n k. induction f as [|f IH]; intros n k Hk Hn; simpl; [done|].
  case_match eqn:E; [done|]. apply Z.ltb_ge in E.
  destruct k as [|[|k]]; [lia| |].
  { change (10 ^ Z.of_nat 1) with 10 in Hn. lia. }
  apply le_n_S, IH; [lia|].
  rewrite (Nat2Z.inj_succ (S k)), Z.pow_succ_r in Hn by lia.
  split; [apply Z.div_pos; lia | apply Z.div_lt_upper_bound; lia].
Qed.

(** ** Round trips *)

Lemma not_sign_head (s : string) :
  string_forallb (λ a, bool_decide (is_Some (digit_val a))) s = true →
  match s with String "+" r => r | _ => s end = s.
Proof.
  destruct s as [|a s]; [done|]. simpl. intros [H _]%andb_true_iff.
  destruct a as [[] [] [] [] [] [] [] []]; try done; vm_compute in H; discriminate.
Qed.

Lemma dec_fixed_digits k n :
  string_forallb (λ a, bool_decide (is_Some (digit_val a))) (dec_fixed k n) = true.
Proof.
  apply dec_fixed_forall. intros d Hd. apply bool_decide_eq_true.
  rewrite digit_val_char by done. eauto.
Qed.

Lemma parse_u_dec_fixed w k n :
  (0 < k)%nat → 0 ≤ n < 10 ^ Z.of_nat k → in_u w n → parse_u w (dec_fixed k n) = Some n.
Proof.
  intros Hk Hn [_ Hw]. unfold parse_u. rewrite not_sign_head by apply dec_fixed_digits.
  destruct (is_empty (dec_fixed k n)) eqn:E.
  { pose proof (dec_fixed_length k n). destruct (dec_fixed k n); [simpl in *; lia|done]. }
  rewrite digits_val_dec_fixed by done.
  replace (0 * _ + n) with n by lia. by apply Z.ltb_lt in Hw as ->.
Qed.

Lemma parse_i_dec_fixed w k n :
  (0 < k)%nat → 0 ≤ n < 10 ^ Z.of_nat k → n < 2 ^ (w - 1) →
  parse_i w (dec_fixed k n) = Some n.
Proof.
  intros Hk Hn Hw. unfold parse_i.
  pose proof (dec_fixed_digits k n) as Hd. pose proof (dec_fixed_length k n) as Hl.
  pose proof (digits_val_dec_fixed k n 0 Hn) as Hv.
  assert (0 ≤ 2 ^ (w - 1)) by (apply Z.pow_nonneg; lia).
  destruct (dec_fixed k n) as [|a s]; [simpl in Hl; lia|].
  assert ((match String a s with
           | String "+" r => (1, r) | String "-" r => (-1, r) | _ => (1, String a s) end)
          = (1, String a s)) as ->.
  { simpl in Hd. apply andb_true_iff in Hd as [Hd _].
    destruct a as [[] [] [] [] [] [] [] []]; try done; vm_compute in Hd; discriminate. }
  cbn [is_empty]. rewrite Hv.
  replace (0 * _ + n) with n by lia. rewrite Z.mul_1_l.
  by replace (_ && _) with true by lia.
Qed.

Lemma show_u_bound n : in_u 64 n → n < 10 ^ Z.of_nat (ndigits 20 n).
Proof. intros [? ?]. apply ndigits_bound. split; [done|]. change (10 ^ Z.of_nat 21) with (10 ^ 21). lia. Qed.

Lemma show_u_inj n m : in_u 64 n → in_u 64 m → show_u n = show_u m → n = m.
Proof.
  intros Hn Hm E. enough (Some n = Some m) by congruence.
  rewrite <- (parse_u_dec_fixed 64 (ndigits 20 n) n), <- (parse_u_dec_fixed 64 (ndigits 20 m) m);
    [by apply (f_equal (parse_u 64))|..]; try done; try apply ndigits_pos; split;
    try (by apply show_u_bound); unfold in_u in *; lia.
Qed.

Lemma parse_i_show_i n : in_i 64 n → parse_i 64 (show_i n) = Some n.
Proof.
  intros [Hl Hu]. unfold show_i, show_u. destruct (Z.ltb_spec n 0).
  - assert (in_u 64 (- n)) as Hr by (split; lia). pose proof (show_u_bound _ Hr) as Hb.
    unfold parse_i. pose proof (dec_fixed_length (ndigits 20 (- n)) (- n)) as Hlen.
    pose proof (ndigits_pos 20 (- n)).
    destruct (is_empty (dec_fixed (ndigits 20 (- n)) (- n))) eqn:E.
    { destruct (dec_fixed _ _); [cbn [String.length] in Hlen; lia|done]. }
    rewrite digits_val_dec_fixed by lia. replace (0 * _ + - n) with (- n) by lia.
    replace (_ && _) with true by lia. f_equal. lia.
  - apply parse_i_dec_fixed; [pose proof (ndigits_pos 20 n); lia| |lia].
    split; [done|]. apply show_u_bound. split; lia.
Qed.

Lemma show_i_chars (P : ascii → bool) n :
  P "-"%char = true → (∀ d, 0 ≤ d < 10 → P (digit_char d) = true) → string_forallb P (show_i n) = true.
Proof.
  intros Hm Hd. unfold show_i, show_u. destruct (n <? 0); cbn [string_forallb]; rewrite ?Hm; by apply dec_fixed_forall.
Qed.

(** ** Range of parsed numbers *)

Lemma digit_val_range a d : digit_val a = Some d → 0 ≤ d < 10.
Proof. unfold digit_val. case_match eqn:E; [|done]. intros [= <-]. lia. Qed.

Lemma digits_val_nonneg s acc v : 0 ≤ acc → digits_val acc s = Some v → 0 ≤ v.
Proof.
  revert acc. induction s as [|a s IH]; intros acc Ha; simpl; [intros [= <-]; done|].
  destruct (digit_val a) eqn:E; [|done]. apply digit_val_range in E. apply IH. lia.
Qed.

Lemma parse_u_range w s v : parse_u w s = Some v → in_u w v.
Proof.
  unfold parse_u. generalize (match s with String "+" r => r | _ => s end). intros b.
  destruct (is_empty b); [done|]. destruct (digits_val 0 b) eqn:E; [|done].
  case_match eqn:L; [|done]. intros [= <-]. apply Z.ltb_lt in L.
  split; [eapply (digits_val_nonneg b 0); [lia|done] | done].
Qed.

Lemma parse_i_range w s v : parse_i w s = Some v → in_i w v.
Proof.
  unfold parse_i. destruct (match s with String "+" r => (1, r) | String "-" r => (-1, r) | _ => (1, s) end) as [sg b].
  destruct (is_empty b); [done|]. destruct (digits_val 0 b); [|done].
  case_match eqn:E; [|done]. intros [= <-]. apply andb_true_iff in E as [? ?]. unfold in_i. lia.
Qed.

(** ** String order agrees with numeric order *)

Lemma string_compare_app s t s' t' :
  String.length s = String.length s' →
  String.compare (s +:+ t)%string (s' +:+ t')%string =
  match String.compare s s' with Eq => String.compare t t' | c => c end.
Proof.
  revert s'. induction s as [|a s IH]; intros [|a' s'] H; simpl in *; try done.
  destruct (Ascii.compare a a'); [|done|done]. apply IH. lia.
Qed.

Lemma string_compare_refl s : String.compare s s = Eq.
Proof.
  induction s as [|a s IH]; simpl; [done|].
  unfold Ascii.compare. by rewrite N.compare_refl.
Qed.

Lemma digit_char_compare d d' :
  0 ≤ d < 10 → 0 ≤ d' < 10 → Ascii.compare (digit_char d) (digit_char d') = (d ?= d').
Proof.
  intros Hd Hd'. unfold Ascii.compare.
  pose proof (digit_char_code d Hd) as E. pose proof (digit_char_code d' Hd') as E'.
  unfold nat_of_ascii in *. rewrite N_nat_Z in E, E'.
  rewrite <- N2Z.inj_compare, E, E'.
  destruct (Z.compare_spec (48 + d) (48 + d')), (Z.compare_spec d d'); lia || done.
Qed.

Lemma dec_fixed_compare k n m :
  0 ≤ n < 10 ^ Z.of_nat k → 0 ≤ m < 10 ^ Z.of_nat k →
  String.compare (dec_fixed k n) (dec_fixed k m) = (n ?= m).
Proof.
  revert n m. induction k as [|k IH]; intros n m Hn Hm.
  { simpl in *. replace n with 0 by lia. by replace m with 0 by lia. }
  rewrite Nat2Z.inj_succ, Z.pow_succ_r in Hn, Hm by lia.
  simpl. rewrite string_compare_app by (by rewrite !dec_fixed_length).
  pose proof (Z.div_mod n 10). pose proof (Z.mod_pos_bound n 10).
  pose proof (Z.div_mod m 10). pose proof (Z.mod_pos_bound m 10).
  assert (0 ≤ n / 10 < 10 ^ Z.of_nat k) by
    (split; [apply Z.div_pos; lia | apply Z.div_lt_upper_bound; lia]).
  assert (0 ≤ m / 10 < 10 ^ Z.of_nat k) by
    (split; [apply Z.div_pos; lia | apply Z.div_lt_upper_bound; lia]).
  rewrite IH by done.
  simpl. rewrite digit_char_compare by lia.
  destruct (Z.compare_spec (n / 10) (m / 10)) as [E|E|E].
  - destruct (Z.compare_spec (n mod 10) (m mod 10)); symmetry.
    + apply Z.compare_eq_iff. lia.
    + apply Z.compare_lt_iff. lia.
    + apply Z.compare_gt_iff. lia.
  - symmetry. apply Z.compare_lt_iff. lia.
  - symmetry. apply Z.compare_gt_iff. lia.
Qed.

(** ** Splitting *)

Lemma split_once_app c s t :
  string_forallb (λ a, negb (Ascii.eqb a c)) s = true →
  split_once c (s +:+ String c t)%string = Some (s, t).
Proof.
  induction s as [|a s IH]; simpl; intros H.
  - by rewrite Ascii.eqb_refl.
  - apply andb_true_iff in H as [Ha Hs]. destruct (Ascii.eqb a c); [done|].
    by rewrite IH.
Qed.

Lemma dec_fixed_no_dash k n :
  string_forallb (λ a, negb (Ascii.eqb a "-")) (dec_fixed k n) = true.
Proof.
  apply dec_fixed_forall. intros d Hd. apply negb_true_iff, Ascii.eqb_neq.
  intros E. pose proof (digit_char_code d Hd) as H. rewrite E in H. change (45 = 48 + d) in H. lia.
Qed.
