(* ===== verification/F64.v ===== *)
(** IEEE-754 binary64 as Rust's [f64]: the standard library's executable
    specification of floating point ([SpecFloat]) at precision 53 and
    maximal exponent 1024, round to nearest even. *)

From S2P Require Import Prelude.
From Stdlib Require Export SpecFloat.

Definition f64 : Type := spec_float.

#[export] Instance f64_eq_dec : EqDecision f64.
Proof. solve_decision. Defined.

Module F64.
Definition prec : Z := 53.
Definition emax : Z := 1024.

(** [n as f64] for an integer. *)
Definition of_Z (z : Z) : f64 := binary_normalize prec emax z 0 false.
Definition add : f64 → f64 → f64 := SFadd prec emax.
Definition sub : f64 → f64 → f64 := SFsub prec emax.
Definition mul : f64 → f64 → f64 := SFmul prec emax.
Definition div : f64 → f64 → f64 := SFdiv prec emax.
Definition ltb : f64 → f64 → bool := SFltb.
Definition leb : f64 → f64 → bool := SFleb.
Definition gtb (x y : f64) : bool := SFltb y x.
Definition eqb : f64 → f64 → bool := SFeqb.
Definition abs : f64 → f64 := SFabs.
Definition opp : f64 → f64 := SFopp.
Definition sqrt : f64 → f64 := SFsqrt prec emax.
Definition infinity : f64 := S754_infinity false.
Definition neg_infinity : f64 := S754_infinity true.

(** [f64::min] and [f64::max]: the other operand for a NaN. *)
Definition min (x y : f64) : f64 :=
  match x, y with
  | S754_nan, _ => y
  | _, S754_nan => x
  | _, _ => if ltb y x then y else x
  end.
Definition max (x y : f64) : f64 :=
  match x, y with
  | S754_nan, _ => y
  | _, S754_nan => x
  | _, _ => if ltb x y then y else x
  end.

(** [f64::clamp]. *)
Definition clamp (lo hi x : f64) : f64 :=
  let x := if ltb x lo then lo else x in if gtb x hi then hi else x.

(** [iter().sum::<f64>()]. *)
Definition sum (l : list f64) : f64 := fold_left add l (of_Z 0).

(** [a.partial_cmp(b).unwrap_or(Equal)]. *)
Definition partial_cmp (x y : f64) : comparison :=
  match SFcompare x y with Some c => c | None => Eq end.

(** The literal [num / den] (both exactly representable: correctly rounded). *)
Definition lit (num den : Z) : f64 := div (of_Z num) (of_Z den).

(** Truncation of a finite value towards zero. *)
Definition trunc_abs (m : positive) (e : Z) : Z := Z.shiftl (Zpos m) e.

(** [x as uW]: truncating, saturating, NaN to 0. *)
Definition to_u (w : Z) (x : f64) : Z :=
  match x with
  | S754_zero _ | S754_nan => 0
  | S754_infinity s => if s then 0 else u_max w
  | S754_finite s m e => if s then 0 else Z.min (u_max w) (trunc_abs m e)
  end.

(** [f64::ceil]. *)
Definition ceil (x : f64) : f64 :=
  match x with
  | S754_finite s m e =>
      if 0 <=? e then x
      else
        let q := - Z.shiftr (if s then Zpos m else Zneg m) (- e) in
        if q =? 0 then S754_zero s else of_Z q
  | _ => x
  end.

(** [f64::total_cmp]: the IEEE total order, as a rank pair
    (negative NaN cannot be distinguished from NaN in [SpecFloat]; the
    sources never produce one). *)
Definition class_rank (x : f64) : Z :=
  match x with
  | S754_infinity true => -3
  | S754_finite true _ _ => -2
  | S754_zero true => -1
  | S754_zero false => 0
  | S754_finite false _ _ => 1
  | S754_infinity false => 2
  | S754_nan => 3
  end.

Definition total_cmp (x y : f64) : comparison :=
  match x, y with
  | S754_finite s m e, S754_finite s' m' e' =>
      match class_rank x ?= class_rank y with
      | Eq => let c := match e ?= e' with Eq => (Zpos m ?= Zpos m')%Z | c => c end in
              if s then CompOpp c else c
      | c => c
      end
  | _, _ => class_rank x ?= class_rank y
  end.

(** [x.powi(n)] as the compiler runtime computes it (square and multiply,
    reciprocal for a negative exponent). *)
Fixpoint powi_pos (r a : f64) (n : positive) : f64 :=
  match n with
  | xH => mul r a
  | xO n' => powi_pos r (mul a a) n'
  | xI n' => powi_pos (mul r a) (mul a a) n'
  end.

Definition powi (a : f64) (n : Z) : f64 :=
  match n with
  | Z0 => of_Z 1
  | Zpos p => powi_pos (of_Z 1) a p
  | Zneg p => div (of_Z 1) (powi_pos (of_Z 1) a p)
  end.
End F64.

(** A number minus itself is zero, or NaN when it is not finite. *)
Lemma sub_diag x :
  F64.sub x x = S754_nan ∨ ∃ s, F64.sub x x = S754_zero s.
Proof.
  destruct x as [[]|[]| |s m e]; try (by left); try (right; by eexists).
  right. exists false. unfold F64.sub. simpl. by rewrite Z.sub_diag.
Qed.

(** ** The total order *)

Lemma total_cmp_refl x : F64.total_cmp x x = Eq.
Proof.
  destruct x as [[]|[]| |[] m e]; try done; simpl; by rewrite Z.compare_refl, Pos.compare_refl.
Qed.

Lemma total_cmp_antisym x y : F64.total_cmp y x = CompOpp (F64.total_cmp x y).
Proof.
  destruct x as [[]|[]| |[] m e], y as [[]|[]| |[] m' e']; try done; simpl;
    rewrite (Z.compare_antisym e e'), (Pos.compare_antisym m m');
    by destruct (e ?= e'), (m ?= m')%positive.
Qed.

Lemma total_cmp_eq x y : F64.total_cmp x y = Eq → x = y.
Proof.
  destruct x as [[]|[]| |[] m e], y as [[]|[]| |[] m' e']; try done; simpl;
    destruct (Z.compare_spec e e'), (Pos.compare_spec m m'); intros; simplify_eq/=; done.
Qed.

Lemma total_cmp_trans_lt x y z :
  F64.total_cmp x y = Lt → F64.total_cmp y z = Lt → F64.total_cmp x z = Lt.
Proof.
  destruct x as [[]|[]| |[] m e], y as [[]|[]| |[] m' e'], z as [[]|[]| |[] m'' e''];
    try done; simpl;
    destruct (Z.compare_spec e e'), (Z.compare_spec e' e''), (Z.compare_spec e e'');
    try lia; try done; subst; simpl;
    destruct (Pos.compare_spec m m'), (Pos.compare_spec m' m''), (Pos.compare_spec m m'');
    try lia; try done.
Qed.

#[export] Instance total_cmp_laws : CmpLaws F64.total_cmp.
Proof.
  split; eauto using total_cmp_refl, total_cmp_eq, total_cmp_antisym, total_cmp_trans_lt.
Qed.
