(* ===== verification/Errors.v ===== *)
(** error.rs: the errors of the handlers and the problem they are answered with;
    middleware/request_id.rs: the correlation id of a problem.

    An error of the database or HTTP library is its text. *)

From S2P Require Import Prelude Text.

(** ** The errors *)

Record ValidationErrorDetail : Type := mkDetail { instance_path : string; schema_path : string; detail_message : string }.

#[export] Instance ValidationErrorDetail_eq_dec : EqDecision ValidationErrorDetail.
Proof. solve_decision. Defined.

Module DatabaseError.
Inductive t : Type := QueryFailed (e : string) | Timeout | NotFound (m : string) | UniqueViolation (m : string) | PoolExhausted.

#[global] Instance t_eq_dec : EqDecision t.
Proof. solve_decision. Defined.

Definition display (e : t) : string :=
  match e with
  | QueryFailed e => "Query failed: " +:+ e
  | Timeout => "Query timed out"
  | NotFound m => "Record not found: " +:+ m
  | UniqueViolation m => "Unique constraint violation: " +:+ m
  | PoolExhausted => "Connection pool exhausted"
  end.
End DatabaseError.

Module IndexerError.
Inductive t : Type := RpcCallFailed (m : string) | LedgerGap (expected got : Z) | LockNotAcquired | Stalled (last_ledger : Z).

#[global] Instance t_eq_dec : EqDecision t.
Proof. solve_decision. Defined.

Definition display (e : t) : string :=
  match e with
  | RpcCallFailed m => "RPC call failed: " +:+ m
  | LedgerGap expected got => "Ledger gap detected: expected " +:+ show_u expected +:+ ", got " +:+ show_u got
  | LockNotAcquired => "Advisory lock not acquired"
  | Stalled l => "Indexer stalled: last ledger " +:+ show_u l
  end.
End IndexerError.

Module WebhookError.
Inductive t : Type := DeliveryFailed (attempts : Z) (reason : string) | InvalidEndpoint (m : string) | SignatureMismatch.

#[global] Instance t_eq_dec : EqDecision t.
Proof. solve_decision. Defined.

Definition display (e : t) : string :=
  match e with
  | DeliveryFailed n r => "Delivery failed after " +:+ show_u n +:+ " attempts: " +:+ r
  | InvalidEndpoint m => "Invalid endpoint URL: " +:+ m
  | SignatureMismatch => "HMAC signature mismatch"
  end.
End WebhookError.

Module SubscriptionError.
Inductive t : Type := NotFound (m : string) | InvalidFilter (m : string) | LimitExceeded.

#[global] Instance t_eq_dec : EqDecision t.
Proof. solve_decision. Defined.

Definition display (e : t) : string :=
  match e with
  | NotFound m => "Subscription not found: " +:+ m
  | InvalidFilter m => "Invalid filter: " +:+ m
  | LimitExceeded => "Subscription limit exceeded"
  end.
End SubscriptionError.

Module AuthError.
Inductive t : Type := Unauthenticated | Forbidden (m : string) | TokenExpired.

#[global] Instance t_eq_dec : EqDecision t.
Proof. solve_decision. Defined.

Definition display (e : t) : string :=
  match e with
  | Unauthenticated => "Missing or invalid API key"
  | Forbidden m => "Insufficient privileges: " +:+ m
  | TokenExpired => "Token expired"
  end.
End AuthError.

Module RpcError.
Inductive t : Type := Network (e : string) | UnexpectedResponse (m : string) | RateLimited.

#[global] Instance t_eq_dec : EqDecision t.
Proof. solve_decision. Defined.

Definition display (e : t) : string :=
  match e with
  | Network e => "Network error: " +:+ e
  | UnexpectedResponse m => "Unexpected response: " +:+ m
  | RateLimited => "Rate limited by upstream"
  end.
End RpcError.

Inductive AppError : Type :=
| Database (e : string)
| DatabaseDomain (e : DatabaseError.t)
| Http (e : string)
| Rpc (e : RpcError.t)
| Indexer (e : IndexerError.t)
| Webhook (e : WebhookError.t)
| Subscription (e : SubscriptionError.t)
| Auth (e : AuthError.t)
| NotFound
| Validation (message : string)
| ValidationWithDetails (message : string) (details : list ValidationErrorDetail)
| Forbidden (message : string)
| CallbackUrlNotAllowed (message : string)
| Internal (message : string)
| WithContext (source : AppError) (op entity : option string).

#[export] Instance AppError_eq_dec : EqDecision AppError.
Proof. solve_decision. Defined.

Module Errors.

(** ** Their text *)

Definition hex_digit (n : nat) : ascii := ascii_of_nat (if (n <? 10)%nat then 48 + n else 87 + n).

(** [char::escape_debug] of a character of a string. *)
Definition escape_debug (a : ascii) : string :=
  let n := nat_of_ascii a in
  let bs := "092"%char in
  if (n =? 0)%nat then String bs "0"
  else if (n =? 9)%nat then String bs "t"
  else if (n =? 10)%nat then String bs "n"
  else if (n =? 13)%nat then String bs "r"
  else if (n =? 34)%nat || (n =? 92)%nat then String bs (String a EmptyString)
  else if (n <? 16)%nat then String bs ("u{" +:+ String (hex_digit n) "}")
  else if (n <? 32)%nat || (n =? 127)%nat then String bs ("u{" +:+ String (hex_digit (n / 16)) (String (hex_digit (n mod 16)) "}"))
  else String a EmptyString.

Fixpoint escape_all (s : string) : string :=
  match s with EmptyString => EmptyString | String a r => escape_debug a +:+ escape_all r end.

(** [{:?}] of an optional string. *)
Definition debug_option (o : option string) : string :=
  let quote := String "034"%char EmptyString in
  match o with Some s => "Some(" +:+ quote +:+ escape_all s +:+ quote +:+ ")" | None => "None" end.

Fixpoint display (e : AppError) : string :=
  match e with
  | Database m => "Database error: " +:+ m
  | DatabaseDomain e => "Database error: " +:+ DatabaseError.display e
  | Http m => "HTTP error: " +:+ m
  | Rpc e => "RPC error: " +:+ RpcError.display e
  | Indexer e => "Indexer error: " +:+ IndexerError.display e
  | Webhook e => "Webhook error: " +:+ WebhookError.display e
  | Subscription e => "Subscription error: " +:+ SubscriptionError.display e
  | Auth e => "Authentication error: " +:+ AuthError.display e
  | NotFound => "Not found"
  | Validation m => "Validation error: " +:+ m
  | ValidationWithDetails _ _ => "Validation error with details"
  | Forbidden m => "Forbidden: " +:+ m
  | CallbackUrlNotAllowed m => "Callback URL not allowed: " +:+ m
  | Internal m => "Internal error: " +:+ m
  | WithContext source op entity => display source +:+ ": op=" +:+ debug_option op +:+ " entity=" +:+ debug_option entity
  end.

(** ** Context *)

Record ErrorContext : Type := mkContext { operation : option string; ctx_entity : option string; request_id : option string }.

Definition new_context : ErrorContext := mkContext None None None.
Definition with_operation (op : string) (c : ErrorContext) : ErrorContext := mkContext (Some op) (ctx_entity c) (request_id c).
Definition with_entity (e : string) (c : ErrorContext) : ErrorContext := mkContext (operation c) (Some e) (request_id c).
Definition with_request_id (i : string) (c : ErrorContext) : ErrorContext := mkContext (operation c) (ctx_entity c) (Some i).

Definition with_context (e : AppError) (c : ErrorContext) : AppError := WithContext e (operation c) (ctx_entity c).

Definition with_error_context {T} (r : result T AppError) (c : ErrorContext) : result T AppError :=
  result_map_err (λ e, with_context e c) r.

Definition unauthorized : AppError := Auth AuthError.Unauthenticated.
Definition rate_limited : AppError := Subscription SubscriptionError.LimitExceeded.

(** ** The problem *)

Section Problem.
(** The SQLSTATE of an error of the database library, if the server sent one. *)
Variable sqlstate : string → option string.

Definition is_query_timeout_sqlx (e : string) : bool := bool_decide (sqlstate e = Some "57014"%string).

Fixpoint status_and_code (e : AppError) : Z * string :=
  match e with
  | NotFound => (404, "NOT_FOUND")
  | Validation _ | ValidationWithDetails _ _ => (400, "VALIDATION_ERROR")
  | Forbidden _ => (403, "FORBIDDEN")
  | CallbackUrlNotAllowed _ => (400, "CALLBACK_URL_NOT_ALLOWED")
  | Auth AuthError.Unauthenticated | Auth AuthError.TokenExpired => (401, "UNAUTHORIZED")
  | Auth (AuthError.Forbidden _) => (403, "FORBIDDEN")
  | Database e => if is_query_timeout_sqlx e then (503, "DATABASE_TIMEOUT") else (500, "DATABASE_ERROR")
  | DatabaseDomain (DatabaseError.NotFound _) => (404, "NOT_FOUND")
  | DatabaseDomain DatabaseError.Timeout => (503, "DATABASE_TIMEOUT")
  | DatabaseDomain (DatabaseError.UniqueViolation _) => (409, "CONFLICT")
  | DatabaseDomain DatabaseError.PoolExhausted => (503, "DATABASE_POOL_EXHAUSTED")
  | DatabaseDomain _ => (500, "DATABASE_ERROR")
  | Rpc RpcError.RateLimited => (429, "UPSTREAM_RATE_LIMITED")
  | Rpc _ | Http _ => (500, "INTERNAL_ERROR")
  | Indexer IndexerError.LockNotAcquired => (503, "INDEXER_LOCK_NOT_ACQUIRED")
  | Indexer (IndexerError.Stalled _) => (503, "INDEXER_STALLED")
  | Indexer _ => (500, "INDEXER_ERROR")
  | Webhook (WebhookError.InvalidEndpoint _) => (400, "INVALID_WEBHOOK_ENDPOINT")
  | Webhook WebhookError.SignatureMismatch => (401, "WEBHOOK_SIGNATURE_MISMATCH")
  | Webhook _ => (500, "WEBHOOK_ERROR")
  | Subscription (SubscriptionError.NotFound _) => (404, "NOT_FOUND")
  | Subscription (SubscriptionError.InvalidFilter _) => (400, "INVALID_SUBSCRIPTION_FILTER")
  | Subscription SubscriptionError.LimitExceeded => (429, "SUBSCRIPTION_LIMIT_EXCEEDED")
  | Internal _ => (500, "INTERNAL_ERROR")
  | WithContext source _ _ => status_and_code source
  end%string.

Fixpoint inner (e : AppError) : AppError := match e with WithContext source _ _ => inner source | e => e end.

Record ErrorResponse : Type := mkResponse {
  error : string;
  code : string;
  er_correlation_id : string;
  er_operation : option string;
  er_entity : option string;
  er_validation_errors : option (list ValidationErrorDetail);
}.

(** The message and the details of the base error, logging apart. *)
Definition public_message (e : AppError) : string * option (list ValidationErrorDetail) :=
  match e with
  | Validation m => (m, None)
  | ValidationWithDetails m errors => (m, Some errors)
  | Forbidden m => (m, None)
  | CallbackUrlNotAllowed m => (m, None)
  | Auth (AuthError.Forbidden m) => (m, None)
  | DatabaseDomain (DatabaseError.NotFound m) => (m, None)
  | DatabaseDomain (DatabaseError.UniqueViolation m) => (m, None)
  | Subscription (SubscriptionError.NotFound m) => (m, None)
  | Subscription (SubscriptionError.InvalidFilter m) => (m, None)
  | Webhook (WebhookError.InvalidEndpoint m) => (m, None)
  | Database e => (if is_query_timeout_sqlx e then "query timeout" else "internal server error", None)
  | DatabaseDomain _ => ("internal server error", None)
  | Http _ => ("internal server error", None)
  | Rpc _ => ("internal server error", None)
  | Indexer e => (IndexerError.display e, None)
  | Webhook _ => ("webhook error", None)
  | Internal _ => ("internal server error", None)
  | NotFound => ("not found", None)
  | Auth AuthError.Unauthenticated => ("unauthorized", None)
  | Auth AuthError.TokenExpired => ("token expired", None)
  | _ => ("internal server error", None)
  end%string.

(** [request_id] is the answer of [get_request_id]. *)
Definition build_response (request_id : string) (e : AppError) : Z * ErrorResponse :=
  let '(status, c) := status_and_code e in
  let '(op, entity) := match e with WithContext _ op entity => (op, entity) | _ => (None, None) end in
  let '(m, errors) := public_message (inner e) in
  (status, mkResponse m c request_id op entity errors).

Record ProblemDetail : Type := mkProblem {
  type_uri : string;
  title : string;
  p_status : Z;
  detail : option string;
  p_instance : option string;
  correlation_id : option string;
  validation_errors : option (list ValidationErrorDetail);
}.

Definition PROBLEM_TYPE_BASE_URI : string := "https://sorobanpulse.dev/errors/".

Definition type_uri_for_code (c : string) : string := PROBLEM_TYPE_BASE_URI +:+ to_lowercase c.

Definition ascii_upper (a : ascii) : ascii :=
  let n := nat_of_ascii a in if (97 <=? n)%nat && (n <=? 122)%nat then ascii_of_nat (n - 32) else a.

Definition title_word (part : string) : string :=
  match part with String first rest => String (ascii_upper first) (to_lowercase rest) | EmptyString => EmptyString end.

Definition title_for_code (c : string) : string :=
  join " " (map title_word (List.filter (λ p, negb (is_empty p)) (split_on "_" c))).

Definition to_problem_detail (request_id : string) (instance : option string) (e : AppError) : ProblemDetail :=
  let '(status, c) := status_and_code e in
  let body := (build_response request_id e).2 in
  mkProblem (type_uri_for_code c) (title_for_code c) status (Some (error body)) instance
    (Some (er_correlation_id body)) (er_validation_errors body).

Definition into_response_parts (request_id : string) (e : AppError) : Z * ProblemDetail :=
  ((status_and_code e).1, to_problem_detail request_id None e).

(** ** Correlation ids *)

(** The slot of each worker thread. *)
Abbreviation Slots := (gmap nat string).

Definition set_request_id (thread : nat) (id : string) (s : Slots) : Slots := <[thread := id]> s.
(** [fresh] is the id generated when there is none. *)
Definition get_request_id (thread : nat) (fresh : string) (s : Slots) : string := default fresh (s !! thread).

(** A request passes the middleware on a thread, with its header if it is text; a
    handler, resumed on some thread, fails. *)
Inductive Step : Type :=
| Enter (thread : nat) (header : option string)
| Fails (thread : nat) (fresh : string) (e : AppError).

Definition request_id_middleware (thread : nat) (header : option string) (s : Slots) : Slots :=
  set_request_id thread (default "unknown"%string header) s.

Definition step (sp : Slots * list ProblemDetail) (x : Step) : Slots * list ProblemDetail :=
  match x with
  | Enter t h => (request_id_middleware t h sp.1, sp.2)
  | Fails t fresh e => (sp.1, sp.2 ++ [to_problem_detail (get_request_id t fresh sp.1) None e])
  end.

Definition run (xs : list Step) : Slots * list ProblemDetail := fold_left step xs (∅, []).

(** ** What a problem shows *)

(** Errors that differ in what is not for the client: the texts of the database,
    the network, the upstream and the deliveries, and the context. *)
Inductive alike : AppError → AppError → Prop :=
| alike_refl e : alike e e
| alike_database e e' : is_query_timeout_sqlx e = is_query_timeout_sqlx e' → alike (Database e) (Database e')
| alike_query e e' : alike (DatabaseDomain (DatabaseError.QueryFailed e)) (DatabaseDomain (DatabaseError.QueryFailed e'))
| alike_http e e' : alike (Http e) (Http e')
| alike_network e e' : alike (Rpc (RpcError.Network e)) (Rpc (RpcError.Network e'))
| alike_unexpected e e' : alike (Rpc (RpcError.UnexpectedResponse e)) (Rpc (RpcError.UnexpectedResponse e'))
| alike_delivery n m n' m' : alike (Webhook (WebhookError.DeliveryFailed n m)) (Webhook (WebhookError.DeliveryFailed n' m'))
| alike_internal m m' : alike (Internal m) (Internal m')
| alike_context_l e op entity e' : alike e e' → alike (WithContext e op entity) e'
| alike_context_r e op entity e' : alike e e' → alike e (WithContext e' op entity).

(** A problem shows nothing that is not for the client: errors that differ only
    there, however deep in contexts, are answered by the same problem. *)
Theorem problem_hides_internals request_id instance e e' :
  alike e e' → to_problem_detail request_id instance e = to_problem_detail request_id instance e'.
Proof.
  assert (∀ a, (to_problem_detail request_id instance a : ProblemDetail) =
    let '(status, c) := status_and_code a in let '(m, errors) := public_message (inner a) in
    mkProblem (type_uri_for_code c) (title_for_code c) status (Some m) instance (Some request_id) errors) as Hp.
  { intros a. unfold to_problem_detail, build_response. destruct (status_and_code a).
    destruct (public_message (inner a)). by destruct a. }
  rewrite !Hp. induction 1; cbn; try done. by rewrite H.
Qed.

(** What the indexer says is shown as it is. *)
Lemma indexer_errors_shown request_id instance m :
  detail (to_problem_detail request_id instance (Indexer (IndexerError.RpcCallFailed m))) = Some ("RPC call failed: " +:+ m)%string.
Proof. done. Qed.

(** A refusal for too many requests is explained as a failure of the server. *)
Lemma rate_limited_explained request_id instance :
  let p := to_problem_detail request_id instance rate_limited in p_status p = 429 ∧ detail p = Some "internal server error"%string.
Proof. done. Qed.

(** The codes, with their status and title. *)
Definition codes : list (string * (Z * string)) :=
  [("NOT_FOUND", (404, "Not Found")); ("VALIDATION_ERROR", (400, "Validation Error")); ("FORBIDDEN", (403, "Forbidden"));
   ("CALLBACK_URL_NOT_ALLOWED", (400, "Callback Url Not Allowed")); ("UNAUTHORIZED", (401, "Unauthorized"));
   ("DATABASE_TIMEOUT", (503, "Database Timeout")); ("DATABASE_ERROR", (500, "Database Error")); ("CONFLICT", (409, "Conflict"));
   ("DATABASE_POOL_EXHAUSTED", (503, "Database Pool Exhausted")); ("UPSTREAM_RATE_LIMITED", (429, "Upstream Rate Limited"));
   ("INTERNAL_ERROR", (500, "Internal Error")); ("INDEXER_LOCK_NOT_ACQUIRED", (503, "Indexer Lock Not Acquired"));
   ("INDEXER_STALLED", (503, "Indexer Stalled")); ("INDEXER_ERROR", (500, "Indexer Error"));
   ("INVALID_WEBHOOK_ENDPOINT", (400, "Invalid Webhook Endpoint")); ("WEBHOOK_SIGNATURE_MISMATCH", (401, "Webhook Signature Mismatch"));
   ("WEBHOOK_ERROR", (500, "Webhook Error")); ("INVALID_SUBSCRIPTION_FILTER", (400, "Invalid Subscription Filter"));
   ("SUBSCRIPTION_LIMIT_EXCEEDED", (429, "Subscription Limit Exceeded"))]%string.

(** Every problem is one of these, its status and title given by its code, and
    its type the code's page. *)
Lemma problem_in_codes request_id instance e :
  let p := to_problem_detail request_id instance e in
  ∃ c, (list_to_map codes : gmap string _) !! c = Some (p_status p, title p) ∧ type_uri p = (PROBLEM_TYPE_BASE_URI +:+ to_lowercase c)%string.
Proof.
  intros p. exists (status_and_code e).2.
  assert (p_status p = (status_and_code e).1 ∧ title p = title_for_code (status_and_code e).2 ∧
          type_uri p = type_uri_for_code (status_and_code e).2) as (-> & -> & ->).
  { subst p. unfold to_problem_detail. by destruct (status_and_code e). }
  split; [|done]. clear p.
  induction e as [m|[]|m|[]|[]|[]|[]|[]| | | | | | |s IH]; try (vm_compute; reflexivity); [|done].
  cbn [status_and_code]. destruct (is_query_timeout_sqlx m); vm_compute; reflexivity.
Qed.

Definition entered (thread : nat) (x : Step) : option string :=
  match x with Enter t h => if decide (t = thread) then Some (default "unknown"%string h) else None | _ => None end.

Lemma run_slots xs thread : (run xs).1 !! thread = last (omap (entered thread) xs).
Proof.
  unfold run. induction xs as [|x xs IH] using rev_ind; [done|]. rewrite fold_left_app, omap_app. cbn [fold_left].
  destruct x as [t h|t fresh e]; cbn [step fst omap list_omap entered].
  - unfold request_id_middleware, set_request_id. destruct (decide (t = thread)) as [->|Hne]; cbn.
    + by rewrite lookup_insert_eq, last_snoc.
    + rewrite lookup_insert_ne by done. by rewrite app_nil_r.
  - by rewrite app_nil_r.
Qed.

(** The correlation id of a problem is that of the request that passed the
    middleware last on the thread that builds it, whichever request failed. *)
Theorem correlation_follows_thread xs thread fresh e :
  last (run (xs ++ [Fails thread fresh e])).2 =
  Some (to_problem_detail (default fresh (last (omap (entered thread) xs))) None e).
Proof.
  rewrite <- run_slots. unfold run. rewrite fold_left_app. cbn [fold_left step snd]. by rewrite last_snoc.
Qed.

End Problem.
End Errors.
