(* ===== verification/Model.v ===== *)
(** The data the components exchange: JSON values (serde_json's [Value]) and
    the RPC event ([SorobanEvent], [GetEventsResult] of models/event.rs). *)

From S2P Require Import Prelude F64.
From S2P Require Export Errors.

(** serde_json's [Number]: a non-negative integer, a negative integer or a float. *)
Inductive number : Type :=
| PosInt (n : Z)
| NegInt (n : Z)
| Float (f : f64).

(** serde_json's [Value]; an object is the key-sorted entry list of its map. *)
Inductive Value : Type :=
| Null
| Bool (b : bool)
| Number (n : number)
| VString (s : string)
| Array (l : list Value)
| Object (l : list (string * Value)).

(** Induction over the nested values. *)
Lemma Value_nested_ind (P : Value → Prop) :
  P Null → (∀ b, P (Bool b)) → (∀ n, P (Number n)) → (∀ s, P (VString s)) →
  (∀ l, Forall P l → P (Array l)) → (∀ l, Forall (λ kv, P kv.2) l → P (Object l)) → ∀ v, P v.
Proof.
  intros H1 H2 H3 H4 Ha Ho. fix IH 1. intros [|b|n|s|l|l]; [done..| |].
  - apply Ha. induction l as [|v l IHl]; constructor; [apply IH|apply IHl].
  - apply Ho. induction l as [|[k v] l IHl]; constructor; [apply IH|apply IHl].
Qed.

(** [Value::get(key)] on an object. *)
Definition value_get (v : Value) (key : string) : option Value :=
  match v with
  | Object l => option_map snd (List.find (λ kv, String.eqb kv.1 key) l)
  | _ => None
  end.

(** The nesting depth of a value; a scalar has depth 1. *)
Fixpoint depth_of (v : Value) : nat :=
  match v with
  | Array items => S (max_list_with depth_of items)
  | Object entries => S (max_list_with (λ kv, depth_of kv.2) entries)
  | _ => 1
  end.

(** [Value::as_str]. *)
Definition as_str (v : Value) : option string :=
  match v with VString s => Some s | _ => None end.

(** [Value::as_f64]. *)
Definition as_f64 (v : Value) : option f64 :=
  match v with
  | Number (PosInt n) | Number (NegInt n) => Some (F64.of_Z n)
  | Number (Float f) => Some f
  | _ => None
  end.

Definition is_null (v : Value) : bool :=
  match v with Null => true | _ => false end.

(** [Map::insert] on the key-sorted entries. *)
Fixpoint entry_insert (k : string) (v : Value) (l : list (string * Value)) : list (string * Value) :=
  match l with
  | [] => [(k, v)]
  | (k', v') :: rest =>
      match String.compare k k' with
      | Lt => (k, v) :: l
      | Eq => (k, v) :: rest
      | Gt => (k', v') :: entry_insert k v rest
      end
  end.

Definition object_insert (k : string) (v : Value) (o : Value) : Value :=
  match o with Object l => Object (entry_insert k v l) | _ => o end.

Lemma value_get_insert k v l k' :
  value_get (Object (entry_insert k v l)) k' = if String.eqb k k' then Some v else value_get (Object l) k'.
Proof.
  unfold value_get. induction l as [|[x y] l IH]; simpl; [by destruct (String.eqb k k')|].
  destruct (String.compare k x) eqn:E; simpl.
  - apply String.compare_eq_iff in E as <-. by destruct (String.eqb k k').
  - by destruct (String.eqb k k').
  - destruct (String.eqb_spec x k') as [->|]; [|done]. destruct (String.eqb_spec k k') as [->|]; [|done].
    pose proof (String.compare_antisym k' k') as Ha. by rewrite E in Ha.
Qed.

(** models/event.rs, [SorobanEvent]: [id] is the SSE id given by the ring
    buffer, [rpc_id] the id of the RPC; [ledger] is a [u64]. *)
Record SorobanEvent : Type := mkSorobanEvent {
  ev_id : option Z;
  ev_rpc_id : option string;
  ev_contract_id : string;
  ev_event_type : string;
  ev_tx_hash : string;
  ev_ledger : Z;
  ev_ledger_closed_at : string;
  ev_ledger_hash : option string;
  ev_in_successful_call : bool;
  ev_value : Value;
  ev_topic : option (list Value);
  ev_tenant_id : option string;
}.

Definition set_ev_id (i : option Z) (e : SorobanEvent) : SorobanEvent :=
  mkSorobanEvent i (ev_rpc_id e) (ev_contract_id e) (ev_event_type e) (ev_tx_hash e)
    (ev_ledger e) (ev_ledger_closed_at e) (ev_ledger_hash e) (ev_in_successful_call e)
    (ev_value e) (ev_topic e) (ev_tenant_id e).

Definition set_ev_tenant (t : option string) (e : SorobanEvent) : SorobanEvent :=
  mkSorobanEvent (ev_id e) (ev_rpc_id e) (ev_contract_id e) (ev_event_type e) (ev_tx_hash e)
    (ev_ledger e) (ev_ledger_closed_at e) (ev_ledger_hash e) (ev_in_successful_call e)
    (ev_value e) (ev_topic e) t.

(** models/event.rs, [GetEventsResult]. *)
Record GetEventsResult : Type := mkGetEventsResult {
  ger_events : list SorobanEvent;
  ger_latest_ledger : Z;
  ger_rpc_cursor : option string;
  ger_protocol_version : option Z;
}.

(** config/mod.rs, [Environment]. *)
Inductive Environment : Type := Development | Staging | Production.

Definition is_production_like (e : Environment) : bool :=
  match e with Staging | Production => true | Development => false end.

(** The key of the unique constraint on [events]: (tx_hash, contract_id, event_type). *)
Definition event_key (e : SorobanEvent) : string * string * string :=
  (ev_tx_hash e, ev_contract_id e, ev_event_type e).

(** An event for concrete examples. *)
Definition sample_event : SorobanEvent :=
  mkSorobanEvent None None "C" "contract" "t" 7 "" None true Null None None.
