(* ===== verification/Pg.v ===== *)
(** A program over a database pool: numbered statements that commit on their
    own ([stmt]), calls to the outside that leave a trace ([call]), readings
    of the clock, and errors.

    [preserves R m] says that [m] relates the tables and trace before and after
    it by the preorder [R], whatever fails; the hint database [pg] proves it
    for compound programs from their statements. *)

From S2P Require Import Prelude Model.

(** How an error of the database library becomes an error of the caller (the
    [From<sqlx::Error>] behind [?]). *)
Class FromSqlx (E : Type) : Type := from_sqlx : string → E.

#[export] Instance string_from_sqlx : FromSqlx string := λ e, e.
#[export] Instance AppError_from_sqlx : FromSqlx AppError := Database.

(** The clock at the [n]th step, in microseconds, and the failures of statements. *)
Record PgEnv : Type := mkPgEnv {
  now : nat → Z;
  db_fault : nat → option string;
}.

(** A database that never fails. *)
Definition healthy (env : PgEnv) : Prop := ∀ n, db_fault env n = None.

Create HintDb pg.

Section Pg.
Context {D Ev : Type}.

Record St : Type := mkSt { db : D; ops : nat; trace : list Ev }.

Definition M (E A : Type) : Type := St → result A E * St.

#[export] Instance M_ret {E} : MRet (M E) := λ A x s, (Ok x, s).
#[export] Instance M_bind {E} : MBind (M E) := λ A C k m s,
  match m s with (Ok x, s') => k x s' | (Err e, s') => (Err e, s') end.

Definition throw {E A} (e : E) : M E A := λ s, (Err e, s).

(** The result as a value, for [match] on it and for [let _ = ..]. *)
Definition attempt {E F A} (m : M E A) : M F (result A E) := λ s, let '(r, s') := m s in (Ok r, s').

Definition of_result {E A} (r : result A E) : M E A := λ s, (r, s).

Variable env : PgEnv.

(** One statement: [f] reads [NOW()] and the tables; a failed statement changes nothing. *)
Definition stmt {E} `{FromSqlx E} {A} (f : Z → D → result (A * D) string) : M E A := λ s,
  match db_fault env (ops s) with
  | Some e => (Err (from_sqlx e), mkSt (db s) (S (ops s)) (trace s))
  | None =>
      match f (now env (ops s)) (db s) with
      | Ok (x, d) => (Ok x, mkSt d (S (ops s)) (trace s))
      | Err e => (Err (from_sqlx e), mkSt (db s) (S (ops s)) (trace s))
      end
  end.

Definition query {E} `{FromSqlx E} {A} (f : Z → D → A) : M E A := stmt (λ t d, Ok (f t d, d)).
Definition execute {E} `{FromSqlx E} (f : Z → D → D) : M E () := stmt (λ t d, Ok ((), f t d)).
(** An [UPDATE] with its [rows_affected]. *)
Definition execute_count {E} `{FromSqlx E} (f : Z → D → nat * D) : M E nat := stmt (λ t d, Ok (f t d)).

(** [Utc::now()]. *)
Definition clock {E} : M E Z := λ s, (Ok (now env (ops s)), mkSt (db s) (S (ops s)) (trace s)).

(** A call to the outside, answered by step number and recorded. *)
Definition call {E A} (answer : nat → A) (log : A → Ev) : M E A := λ s,
  let a := answer (ops s) in (Ok a, mkSt (db s) (S (ops s)) (trace s ++ [log a])).

(** The number of the next step. *)
Definition counter {E} : M E nat := λ s, (Ok (ops s), s).

(** An answer of code outside the development, by step number. *)
Definition oracle {E A} (f : nat → result A E) : M E A := λ s,
  (f (ops s), mkSt (db s) (S (ops s)) (trace s)).

(** [pool.begin()], the statements of [m], [commit()]: an error gives the
    tables of the beginning back. *)
Definition transaction {E} `{FromSqlx E} {A} (m : M E A) : M E A := λ s,
  match (execute (λ _ d, d) ≫= λ _, m ≫= λ x, execute (λ _ d, d) ≫= λ _, mret x) s with
  | (Ok x, s1) => (Ok x, s1)
  | (Err e, s1) => (Err e, mkSt (db s) (ops s1) (trace s1))
  end.

(** ** What a program preserves *)

Definition view (s : St) : D * list Ev := (db s, trace s).

Definition preserves {E A} (R : relation (D * list Ev)) (m : M E A) : Prop :=
  ∀ s, R (view s) (view (m s).2).

Context (R : relation (D * list Ev)) `{!PreOrder R}.

Lemma preserves_ret {E A} (x : A) : preserves R (mret x : M E A).
Proof. intros s. reflexivity. Qed.

Lemma preserves_throw {E A} (e : E) : preserves R (throw e : M E A).
Proof. intros s. reflexivity. Qed.

Lemma preserves_of_result {E A} (r : result A E) : preserves R (of_result r).
Proof. intros s. reflexivity. Qed.

Lemma preserves_bind {E A C} (m : M E A) (k : A → M E C) :
  preserves R m → (∀ x, preserves R (k x)) → preserves R (m ≫= k).
Proof.
  intros Hm Hk s. unfold mbind, M_bind. specialize (Hm s). destruct (m s) as [[x|e] s1]; simpl in *; [|done].
  etrans; [done|]. apply Hk.
Qed.

Lemma preserves_attempt {E F A} (m : M E A) : preserves R m → preserves R (attempt m : M F (result A E)).
Proof. intros Hm s. specialize (Hm s). unfold attempt. by destruct (m s). Qed.

Lemma preserves_clock {E} : preserves R (clock : M E Z).
Proof. intros s. reflexivity. Qed.

Lemma preserves_counter {E} : preserves R (counter : M E nat).
Proof. intros s. reflexivity. Qed.

Lemma preserves_oracle {E A} (f : nat → result A E) : preserves R (oracle f).
Proof. intros s. reflexivity. Qed.

Lemma preserves_stmt {E} `{FromSqlx E} {A} (f : Z → D → result (A * D) string) :
  (∀ t d x d' tr, f t d = Ok (x, d') → R (d, tr) (d', tr)) → preserves R (stmt f : M E A).
Proof.
  intros Hf s. unfold stmt, view. destruct (db_fault _ _); [reflexivity|]. simpl.
  destruct (f _ _) as [[x d']|e] eqn:Ef; simpl; [by eapply Hf|reflexivity].
Qed.

Lemma preserves_query {E} `{FromSqlx E} {A} (f : Z → D → A) : preserves R (query f : M E A).
Proof. apply preserves_stmt. intros t d x d' tr [= <- <-]. reflexivity. Qed.

Lemma preserves_execute {E} `{FromSqlx E} (f : Z → D → D) :
  (∀ t d tr, R (d, tr) (f t d, tr)) → preserves R (execute f : M E ()).
Proof. intros Hf. apply preserves_stmt. intros t d x d' tr [= <- <-]. apply Hf. Qed.

Lemma preserves_execute_count {E} `{FromSqlx E} (f : Z → D → nat * D) :
  (∀ t d tr, R (d, tr) ((f t d).2, tr)) → preserves R (execute_count f : M E nat).
Proof. intros Hf. apply preserves_stmt. intros t d x d' tr [= E1]. specialize (Hf t d tr). by rewrite E1 in Hf. Qed.

Lemma preserves_call {E A} (answer : nat → A) (log : A → Ev) :
  (∀ a d tr, R (d, tr) (d, tr ++ [log a])) → preserves R (call answer log : M E A).
Proof. intros Hl s. apply Hl. Qed.

(** ** Runs of a healthy database *)

Lemma stmt_healthy {E} `{FromSqlx E} {A} (f : Z → D → result (A * D) string) s x d :
  healthy env → f (now env (ops s)) (db s) = Ok (x, d) →
  (stmt f : M E A) s = (Ok x, mkSt d (S (ops s)) (trace s)).
Proof. intros Hh Hf. unfold stmt. by rewrite Hh, Hf. Qed.

Lemma query_healthy {E} `{FromSqlx E} {A} (f : Z → D → A) s :
  healthy env →
  (query f : M E A) s = (Ok (f (now env (ops s)) (db s)), mkSt (db s) (S (ops s)) (trace s)).
Proof. intros Hh. by apply stmt_healthy. Qed.

Lemma execute_healthy {E} `{FromSqlx E} (f : Z → D → D) s :
  healthy env →
  (execute f : M E ()) s = (Ok (), mkSt (f (now env (ops s)) (db s)) (S (ops s)) (trace s)).
Proof. intros Hh. by apply stmt_healthy. Qed.

Lemma bind_ok {E A C} (m : M E A) (k : A → M E C) s x s1 :
  m s = (Ok x, s1) → (m ≫= k) s = k x s1.
Proof. unfold mbind, M_bind. by intros ->. Qed.

Lemma bind_err {E A C} (m : M E A) (k : A → M E C) s e s1 :
  m s = (Err e, s1) → (m ≫= k) s = (Err e, s1).
Proof. unfold mbind, M_bind. by intros ->. Qed.

Lemma attempt_ok {E F A} (m : M E A) s x s1 :
  m s = (Ok x, s1) → (attempt m : M F (result A E)) s = (Ok (Ok x), s1).
Proof. unfold attempt. by intros ->. Qed.

Lemma bind_of_ok {E A C} (x : A) (k : A → M E C) s : (of_result (Ok x) ≫= k) s = k x s.
Proof. done. Qed.

Lemma transaction_err {E} `{FromSqlx E} {A} (m : M E A) s e s1 :
  transaction m s = (Err e, s1) → db s1 = db s.
Proof. unfold transaction. destruct ((execute _ ≫= _) s) as [[x|e'] s2]; [done|]. by intros [= _ <-]. Qed.

Lemma transaction_healthy {E} `{FromSqlx E} {A} (m : M E A) s x s1 :
  healthy env → m (mkSt (db s) (S (ops s)) (trace s)) = (Ok x, s1) →
  transaction m s = (Ok x, mkSt (db s1) (S (ops s1)) (trace s1)).
Proof.
  intros Hh Hm. unfold transaction. rewrite (bind_ok _ _ _ _ _ (execute_healthy _ s Hh)).
  rewrite (bind_ok _ _ _ _ _ Hm). by rewrite (bind_ok _ _ _ _ _ (execute_healthy _ s1 Hh)).
Qed.

(** ** Programs that never succeed *)

Definition fails {E A} (m : M E A) : Prop := ∀ s, is_ok (m s).1 = false.

Lemma fails_bind_l {E A C} (m : M E A) (k : A → M E C) : fails m → fails (m ≫= k).
Proof. intros Hm s. specialize (Hm s). unfold mbind, M_bind. by destruct (m s) as [[]]. Qed.

Lemma fails_bind_r {E A C} (m : M E A) (k : A → M E C) : (∀ x, fails (k x)) → fails (m ≫= k).
Proof. intros Hk s. unfold mbind, M_bind. destruct (m s) as [[x|e] s1]; [apply Hk|done]. Qed.

Lemma fails_of_result {E A C} (r : result A E) (k : A → M E C) : (∀ x, r = Ok x → fails (k x)) → fails (of_result r ≫= k).
Proof. intros Hk s. unfold mbind, M_bind, of_result. destruct r as [x|e]; [by apply Hk|done]. Qed.

Lemma transaction_fails {E} `{FromSqlx E} {A} (m : M E A) : fails m → fails (transaction m).
Proof.
  intros Hm s. unfold transaction.
  assert (fails (execute (λ _ d, d) ≫= λ _ : (), m ≫= λ x, execute (λ _ d, d) ≫= λ _ : (), mret x)) as Hf.
  { apply fails_bind_r. intros _. by apply fails_bind_l. }
  specialize (Hf s). by destruct ((execute _ ≫= _) s) as [[]].
Qed.

End Pg.

Arguments St : clear implicits.
Arguments M : clear implicits.

#[export] Hint Resolve preserves_ret preserves_throw preserves_of_result preserves_bind preserves_attempt
  preserves_clock preserves_counter preserves_oracle preserves_query : pg.
#[export] Hint Extern 1 (preserves _ (match ?x with _ => _ end)) => destruct x : pg.
#[export] Hint Extern 1 (preserves _ (let _ := _ in _)) => cbv zeta : pg.

(** Decomposes a program down to its statements and calls. *)
Ltac preserve :=
  repeat (first
    [ solve [eauto 2 with pg]
    | apply preserves_bind; [try apply _| |intros ?]
    | apply preserves_attempt
    | match goal with |- preserves _ (match ?x with _ => _ end) => destruct x eqn:? end ]).
