(* ===== verification/Toid.v ===== *)
(** toid.rs: decoding of RPC event ids, and the encoding the backfill gives
    its events (the [toid] closure and the id format of
    backfill.rs, [events_from_ledger]). *)

From S2P Require Import Prelude Text.

Module Toid.

(** toid.rs, [EventOrdinal]: [ledger : u32], the indices [i32]. *)
Record EventOrdinal : Type := mkOrdinal {
  ledger : Z;
  tx_index : Z;
  op_index : Z;
  event_index : Z;
}.

(** The derived [Ord]: lexicographic in the order of the fields. *)
Definition ordinal_cmp (a b : EventOrdinal) : comparison :=
  match ledger a ?= ledger b with
  | Eq => match tx_index a ?= tx_index b with
          | Eq => match op_index a ?= op_index b with
                  | Eq => event_index a ?= event_index b
                  | c => c
                  end
          | c => c
          end
  | c => c
  end.

(** toid.rs, [parse_event_id]. *)
Definition parse_event_id (id : string) : option EventOrdinal :=
  let! (toid_str, event_index_str) := split_once "-" id in
  let! toid := parse_u 64 toid_str in
  let! event_index := parse_i 32 event_index_str in
  Some {| ledger := wrap_u 32 (Z.shiftr toid 32);
          tx_index := wrap_i 32 (Z.land (Z.shiftr toid 12) 0xFFFFF);
          op_index := wrap_i 32 (Z.land toid 0xFFF);
          event_index := event_index |}.

(** backfill.rs, the closure [toid]. *)
Definition toid (seq tx_slot op : Z) : Z :=
  Z.lor (Z.lor (Z.shiftl seq 32) (Z.shiftl (Z.land tx_slot 0xFFFFF) 12)) (Z.land op 0xFFF).

(** backfill.rs, the event id format [{id:019}-{k:010}]. *)
Definition event_id (id k : Z) : string :=
  (show_u_pad 19 id +:+ String "-" (show_u_pad 10 k))%string.

(** ** Bit layout *)

Lemma lor_shiftl_add a b n : 0 ≤ n → 0 ≤ b < 2 ^ n → Z.lor (Z.shiftl a n) b = a * 2 ^ n + b.
Proof.
  intros Hn Hb. rewrite <- Z.shiftl_mul_pow2 by done.
  destruct (Z.eq_dec b 0) as [->|]; [by rewrite Z.lor_0_r, Z.add_0_r|].
  assert (Z.land (Z.shiftl a n) b = 0) as Hd.
  { apply Z.bits_inj'. intros i Hi. rewrite Z.land_spec, Z.bits_0.
    destruct (Z.lt_ge_cases i n).
    - by rewrite Z.shiftl_spec_low.
    - rewrite (Z.bits_above_log2 b i), andb_false_r; [done|lia|].
      apply Z.log2_lt_pow2; [lia|].
      apply Z.lt_le_trans with (2 ^ n); [lia|]. apply Z.pow_le_mono_r; lia. }
  by rewrite <- Z.lxor_lor, <- Z.add_nocarry_lxor.
Qed.

Lemma land_low w z : 0 ≤ w → 0 ≤ z < 2 ^ w → Z.land z (2 ^ w - 1) = z.
Proof.
  intros. replace (2 ^ w - 1) with (Z.ones w) by (rewrite Z.ones_equiv; lia).
  rewrite Z.land_ones by done. by apply Z.mod_small.
Qed.

Lemma toid_value seq tx op :
  in_u 32 seq → in_u 20 tx → in_u 12 op → toid seq tx op = seq * 2 ^ 32 + tx * 2 ^ 12 + op.
Proof.
  unfold in_u, toid. intros Hs Ht Ho.
  change 0xFFFFF with (2 ^ 20 - 1). change 0xFFF with (2 ^ 12 - 1).
  rewrite !land_low by lia. rewrite <- Z.lor_assoc.
  rewrite (lor_shiftl_add tx op 12) by lia. rewrite lor_shiftl_add by lia. lia.
Qed.

Lemma toid_decode n :
  in_u 64 n →
  wrap_u 32 (Z.shiftr n 32) = n / 2 ^ 32 ∧
  wrap_i 32 (Z.land (Z.shiftr n 12) 0xFFFFF) = n / 2 ^ 12 mod 2 ^ 20 ∧
  wrap_i 32 (Z.land n 0xFFF) = n mod 2 ^ 12.
Proof.
  intros Hn. unfold in_u in Hn.
  change 0xFFFFF with (Z.ones 20). change 0xFFF with (Z.ones 12).
  rewrite !Z.shiftr_div_pow2, !Z.land_ones by lia.
  pose proof (Z.mod_pos_bound (n / 2 ^ 12) (2 ^ 20)).
  pose proof (Z.mod_pos_bound n (2 ^ 12)).
  rewrite wrap_u_small, !wrap_i_small; unfold in_u, in_i; try lia; try done.
  split; [apply Z.div_pos; lia | apply Z.div_lt_upper_bound; lia].
Qed.

Lemma parse_event_id_components id o :
  parse_event_id id = Some o →
  in_u 32 (ledger o) ∧ in_u 20 (tx_index o) ∧ in_u 12 (op_index o) ∧ in_i 32 (event_index o).
Proof.
  unfold parse_event_id. destruct (split_once "-" id) as [[a b]|]; simpl; [|done].
  destruct (parse_u 64 a) as [t|] eqn:Et; simpl; [|done].
  destruct (parse_i 32 b) as [k|] eqn:Ek; simpl; [|done].
  intros [= <-]; simpl.
  assert (in_u 64 t) as Ht by eauto using parse_u_range.
  pose proof (toid_decode t Ht) as (-> & -> & ->).
  assert (in_i 32 k) by (by eapply parse_i_range).
  pose proof (Z.mod_pos_bound (t / 2 ^ 12) (2 ^ 20)).
  pose proof (Z.mod_pos_bound t (2 ^ 12)).
  assert (0 ≤ t / 2 ^ 32 < 2 ^ 32).
  { unfold in_u in *. split; [apply Z.div_pos; lia | apply Z.div_lt_upper_bound; lia]. }
  unfold in_u, in_i in *. repeat split; lia.
Qed.

Lemma split_event_id id k :
  split_once "-" (event_id id k) = Some (show_u_pad 19 id, show_u_pad 10 k).
Proof. apply split_once_app, dec_fixed_no_dash. Qed.

Lemma parse_show_u_pad w k n :
  (0 < k)%nat → in_u w n → n < 10 ^ 20 → parse_u w (show_u_pad k n) = Some n.
Proof.
  intros Hk Hw Hn. unfold in_u in Hw.
  apply parse_u_dec_fixed; [lia| |exact Hw]. split; [lia|].
  apply Z.lt_le_trans with (10 ^ Z.of_nat (ndigits 20 n)).
  - apply ndigits_bound. change (10 ^ Z.of_nat 21) with (10 * 10 ^ 20). lia.
  - apply Z.pow_le_mono_r; lia.
Qed.

Lemma parse_show_i_pad w k n :
  (0 < k)%nat → 0 ≤ n < 2 ^ (w - 1) → n < 10 ^ 20 → parse_i w (show_u_pad k n) = Some n.
Proof.
  intros Hk Hw Hn.
  apply parse_i_dec_fixed; [lia| |lia]. split; [lia|].
  apply Z.lt_le_trans with (10 ^ Z.of_nat (ndigits 20 n)).
  - apply ndigits_bound. change (10 ^ Z.of_nat 21) with (10 * 10 ^ 20). lia.
  - apply Z.pow_le_mono_r; lia.
Qed.

Lemma show_u_pad_fixed k n :
  (1 ≤ k)%nat → 0 ≤ n < 10 ^ Z.of_nat k → show_u_pad k n = dec_fixed k n.
Proof.
  intros Hk Hn. unfold show_u_pad. by rewrite Nat.max_l by (by apply ndigits_le).
Qed.

Lemma toid_range seq tx op : in_u 32 seq → in_u 20 tx → in_u 12 op → in_u 64 (toid seq tx op).
Proof. intros. rewrite toid_value by done. unfold in_u in *. lia. Qed.

Lemma toid_fields seq tx op :
  in_u 32 seq → in_u 20 tx → in_u 12 op →
  toid seq tx op / 2 ^ 32 = seq ∧ toid seq tx op / 2 ^ 12 mod 2 ^ 20 = tx ∧
  toid seq tx op mod 2 ^ 12 = op.
Proof.
  intros. rewrite toid_value by done. unfold in_u in *. split_and!.
  - symmetry. apply (Z.div_unique _ _ _ (tx * 2 ^ 12 + op)); lia.
  - rewrite <- (Z.div_unique _ (2 ^ 12) (seq * 2 ^ 20 + tx) op) by lia.
    symmetry. apply (Z.mod_unique _ _ seq); lia.
  - symmetry. apply (Z.mod_unique _ _ (seq * 2 ^ 20 + tx)); lia.
Qed.

Lemma parse_event_id_toid seq tx op k :
  in_u 32 seq → in_u 20 tx → in_u 12 op → 0 ≤ k < 2 ^ 31 →
  parse_event_id (event_id (toid seq tx op) k) =
  Some {| ledger := seq; tx_index := tx; op_index := op; event_index := k |}.
Proof.
  intros Hs Ht Ho Hk. pose proof (toid_range _ _ _ Hs Ht Ho) as Hr.
  unfold parse_event_id. rewrite split_event_id. simpl.
  rewrite parse_show_u_pad by (unfold in_u in *; done || lia). simpl.
  rewrite parse_show_i_pad by lia. simpl.
  destruct (toid_decode _ Hr) as (-> & -> & ->).
  by destruct (toid_fields _ _ _ Hs Ht Ho) as (-> & -> & ->).
Qed.

(** Event ids are injective on the indices they encode. *)
Lemma event_id_inj seq tx op k tx' op' k' :
  in_u 32 seq → in_u 20 tx → in_u 12 op → 0 ≤ k < 2 ^ 31 →
  in_u 20 tx' → in_u 12 op' → 0 ≤ k' < 2 ^ 31 →
  event_id (toid seq tx op) k = event_id (toid seq tx' op') k' → tx = tx' ∧ op = op' ∧ k = k'.
Proof.
  intros Hs Ht Ho Hk Ht' Ho' Hk' E. apply (f_equal parse_event_id) in E.
  rewrite !parse_event_id_toid in E by done. by injection E as -> -> ->.
Qed.

(** The ids the backfill writes decode to the indices they were made from, and every id that decodes
    does so to a 32-bit ledger, a 20-bit transaction and a 12-bit operation index. *)
Theorem parse_event_id_roundtrip seq tx op k :
  in_u 32 seq → in_u 20 tx → in_u 12 op → 0 ≤ k < 2 ^ 31 →
  parse_event_id (event_id (toid seq tx op) k) =
    Some {| ledger := seq; tx_index := tx; op_index := op; event_index := k |} ∧
  ∀ id o, parse_event_id id = Some o →
    in_u 32 (ledger o) ∧ in_u 20 (tx_index o) ∧ in_u 12 (op_index o) ∧ in_i 32 (event_index o).
Proof.
  intros. split; [by apply parse_event_id_toid|]. intros id o. apply parse_event_id_components.
Qed.

Lemma parse_event_id_roundtrip_witness :
  parse_event_id (event_id (toid 123456 42 3) 7) =
  Some {| ledger := 123456; tx_index := 42; op_index := 3; event_index := 7 |}.
Proof.
  destruct (parse_event_id_roundtrip 123456 42 3 7) as [H _]; [unfold in_u; lia..|exact H].
Defined.

Lemma ordinal_cmp_toid a b :
  in_u 32 (ledger a) → in_u 20 (tx_index a) → in_u 12 (op_index a) →
  in_u 32 (ledger b) → in_u 20 (tx_index b) → in_u 12 (op_index b) →
  ordinal_cmp a b =
  match toid (ledger a) (tx_index a) (op_index a) ?=
        toid (ledger b) (tx_index b) (op_index b) with
  | Eq => event_index a ?= event_index b
  | c => c
  end.
Proof.
  intros. rewrite !toid_value by done. unfold in_u, ordinal_cmp in *.
  destruct a as [la ta oa ka], b as [lb tb ob kb]; simpl in *.
  destruct (Z.compare_spec la lb), (Z.compare_spec ta tb), (Z.compare_spec oa ob);
    destruct (Z.compare_spec (la * 2 ^ 32 + ta * 2 ^ 12 + oa) (lb * 2 ^ 32 + tb * 2 ^ 12 + ob));
    lia || done.
Qed.

(** For ledgers below 2^31 the string order of event ids is the order of
    the ordinals they decode to. *)
Theorem event_id_order a b :
  in_u 31 (ledger a) → in_u 20 (tx_index a) → in_u 12 (op_index a) → in_u 31 (event_index a) →
  in_u 31 (ledger b) → in_u 20 (tx_index b) → in_u 12 (op_index b) → in_u 31 (event_index b) →
  String.compare
    (event_id (toid (ledger a) (tx_index a) (op_index a)) (event_index a))
    (event_id (toid (ledger b) (tx_index b) (op_index b)) (event_index b))
  = ordinal_cmp a b.
Proof.
  intros La Ta Oa Ka Lb Tb Ob Kb.
  rewrite ordinal_cmp_toid by (unfold in_u in *; lia).
  rewrite !toid_value by (unfold in_u in *; lia).
  set (x := ledger a * _ + _ + _). set (y := ledger b * _ + _ + _).
  assert (0 ≤ x < 10 ^ Z.of_nat 19) by
    (unfold x, in_u in *; change (10 ^ Z.of_nat 19) with (10000000000000000000); lia).
  assert (0 ≤ y < 10 ^ Z.of_nat 19) by
    (unfold y, in_u in *; change (10 ^ Z.of_nat 19) with (10000000000000000000); lia).
  assert (∀ k, in_u 31 k → 0 ≤ k < 10 ^ Z.of_nat 10) as Hi.
  { unfold in_u. intros. change (10 ^ Z.of_nat 10) with 10000000000. lia. }
  unfold event_id. rewrite !show_u_pad_fixed by (auto with lia).
  rewrite string_compare_app by (by rewrite !dec_fixed_length).
  rewrite dec_fixed_compare by done.
  destruct (x ?= y); [|done|done].
  cbn [String.compare]. change (Ascii.compare "-" "-") with Eq. cbv iota.
  by apply dec_fixed_compare; apply Hi.
Qed.

Lemma event_id_order_witness :
  in_u 31 51000000 ∧
  String.compare (event_id (toid 51000000 7 3) 9) (event_id (toid 51000001 0 0) 10)
  = ordinal_cmp (mkOrdinal 51000000 7 3 9) (mkOrdinal 51000001 0 0 10).
Proof.
  split; [split; [done|reflexivity]|].
  apply (event_id_order (mkOrdinal 51000000 7 3 9) (mkOrdinal 51000001 0 0 10)); split; done.
Defined.

End Toid.
