(* ===== verification/CursorExpiry.v ===== *)
(** cursor_expiry_handler.rs: recognising cursor-expiry errors and the
    exponential backoff the indexer applies to them before it falls back to
    ledger-based pagination. *)

From S2P Require Import Prelude.

Module CursorExpiry.

(** [is_cursor_expiry_error]: one of the indicators occurs in the lower-cased message. *)
Definition cursor_expiry_indicators : list string :=
  ["cursor"; "expired"; "invalid cursor"; "cursor is no longer valid";
   "pagination cursor expired"]%string.

Definition is_cursor_expiry_error (error_msg : string) : bool :=
  existsb (λ ind, contains ind (to_lowercase error_msg)) cursor_expiry_indicators.

(** [CursorExpiryBackoff]: durations [u64] milliseconds, counts [u32]. *)
Record CursorExpiryBackoff : Type := mkBackoff {
  initial_backoff_ms : Z;
  max_backoff_ms : Z;
  current_backoff_ms : Z;
  retry_count : Z;
  max_retries : Z;
}.

Definition with_config (initial maxb retries : Z) : CursorExpiryBackoff :=
  {| initial_backoff_ms := initial; max_backoff_ms := maxb;
     current_backoff_ms := initial; retry_count := 0; max_retries := retries |}.

Definition new : CursorExpiryBackoff := with_config 100 30000 5.

(** [next_backoff]: returns the duration in milliseconds. *)
Definition next_backoff (b : CursorExpiryBackoff) : Z * CursorExpiryBackoff :=
  let rc := add_u 32 (retry_count b) 1 in
  let exponential := mul_u 64 (initial_backoff_ms b) (wrap_u 64 (2 ^ sat_sub_u rc 1)) in
  let current := Z.min exponential (max_backoff_ms b) in
  (current, {| initial_backoff_ms := initial_backoff_ms b;
               max_backoff_ms := max_backoff_ms b;
               current_backoff_ms := current;
               retry_count := rc;
               max_retries := max_retries b |}).

Definition should_fallback (b : CursorExpiryBackoff) : bool := max_retries b <=? retry_count b.

Definition reset (b : CursorExpiryBackoff) : CursorExpiryBackoff :=
  {| initial_backoff_ms := initial_backoff_ms b;
     max_backoff_ms := max_backoff_ms b;
     current_backoff_ms := initial_backoff_ms b;
     retry_count := 0;
     max_retries := max_retries b |}.

(** The delays of the [n] next calls, in order. *)
Fixpoint delays (n : nat) (b : CursorExpiryBackoff) : list Z :=
  match n with
  | O => []
  | S n' => let '(d, b') := next_backoff b in d :: delays n' b'
  end.

(** ** Lemmas *)

Lemma next_backoff_retry b :
  0 ≤ retry_count b < u_max 32 →
  retry_count (next_backoff b).2 = retry_count b + 1 ∧
  max_retries (next_backoff b).2 = max_retries b.
Proof.
  intros Hb. simpl. split; [|done]. unfold add_u. apply wrap_u_small.
  unfold in_u, u_max in *. lia.
Qed.

Lemma next_backoff_le_max b : (next_backoff b).1 ≤ max_backoff_ms b.
Proof. simpl. lia. Qed.

(** As long as [initial * 2^retry_count] fits in a [u64] the delay is the
    documented [min(initial * 2^(retry_count - 1), max)]. *)
Lemma next_backoff_value b :
  0 ≤ retry_count b < 63 → 0 ≤ initial_backoff_ms b →
  initial_backoff_ms b * 2 ^ retry_count b < 2 ^ 64 →
  (next_backoff b).1 = Z.min (initial_backoff_ms b * 2 ^ retry_count b) (max_backoff_ms b).
Proof.
  intros Hr Hi Hfit. unfold next_backoff. cbn [fst].
  unfold add_u. rewrite (wrap_u_small 32) by (unfold in_u; lia).
  unfold sat_sub_u. replace (Z.max 0 (retry_count b + 1 - 1)) with (retry_count b) by lia.
  assert (0 < 2 ^ retry_count b) by (apply Z.pow_pos_nonneg; lia).
  assert (2 ^ retry_count b < 2 ^ 64) by (apply Z.pow_lt_mono_r; lia).
  rewrite (wrap_u_small 64) by (unfold in_u; lia).
  unfold mul_u. rewrite wrap_u_small by (unfold in_u; nia). done.
Qed.

(** With the default configuration the delays double from 100 ms and the
    fallback is reached after exactly five of them. *)
Lemma default_delays :
  delays 5 new = [100; 200; 400; 800; 1600] ∧
  (∀ k, (k ≤ 5)%nat →
     should_fallback (Nat.iter k (λ b, (next_backoff b).2) new) = bool_decide (k = 5%nat)).
Proof.
  split; [reflexivity|]. intros k Hk.
  do 6 (destruct k as [|k]; [reflexivity|]). lia.
Qed.

End CursorExpiry.
