(* ===== verification/SseRing.v ===== *)
(** sse_ring_buffer.rs: the bounded replay buffer of the SSE stream, and its
    refinement of an unbounded log of which only the last [capacity] entries
    can be asked for. *)

From S2P Require Import Prelude Model.

Module SseRing.

(** [Slot]; a UUID is a 128-bit number. *)
Record Slot : Type := mkSlot { slot_id : Z; slot_event : SorobanEvent }.

(** [SseRingBuffer]: the deque, front first; [overflow_count] is an [AtomicU64]. *)
Record SseRingBuffer : Type := mkRing {
  inner : list Slot;
  capacity : nat;
  overflow_count : Z;
}.

Definition new (capacity : nat) : SseRingBuffer :=
  {| inner := []; capacity := capacity; overflow_count := 0 |}.

(** [push], with the UUID drawn by [Uuid::new_v4] as an argument. *)
Definition push (id : Z) (event : SorobanEvent) (r : SseRingBuffer) : Z * SseRingBuffer :=
  let full := bool_decide (capacity r ≤ length (inner r))%nat in
  let buf := if full then tail (inner r) else inner r in
  let ovf := if full then add_u 64 (overflow_count r) 1 else overflow_count r in
  (id, {| inner := buf ++ [mkSlot id event]; capacity := capacity r; overflow_count := ovf |}).

(** [iter().position(|s| s.id == last_id)]. *)
Fixpoint position (last_id : Z) (buf : list Slot) : option nat :=
  match buf with
  | [] => None
  | s :: rest => if slot_id s =? last_id then Some 0%nat else S <$> position last_id rest
  end.

Definition events_since (last_id : Z) (r : SseRingBuffer) : option (list SorobanEvent) :=
  let! pos := position last_id (inner r) in
  Some (slot_event <$> drop (pos + 1) (inner r)).

Definition len (r : SseRingBuffer) : nat := length (inner r).
Definition is_empty (r : SseRingBuffer) : bool := Nat.eqb (len r) 0.

(** A run of pushes. *)
Definition push_all (log : list (Z * SorobanEvent)) (r : SseRingBuffer) : SseRingBuffer :=
  foldl (λ r p, (push p.1 p.2 r).2) r log.

(** ** The specification: the unbounded log *)

Definition slots_of (log : list (Z * SorobanEvent)) : list Slot :=
  (λ p, mkSlot p.1 p.2) <$> log.

(** What a client that saw [last_id] has missed: everything after it in the log. *)
Fixpoint missed_after (last_id : Z) (log : list (Z * SorobanEvent)) : list SorobanEvent :=
  match log with
  | [] => []
  | (i, _) :: rest => if i =? last_id then rest.*2 else missed_after last_id rest
  end.

(** The ids that are still among the last [cap] of the log. *)
Definition retained (cap : nat) (log : list (Z * SorobanEvent)) : list (Z * SorobanEvent) :=
  drop (length log - cap) log.

(** ** Lemmas *)

Lemma push_all_snoc log i e r : push_all (log ++ [(i, e)]) r = (push i e (push_all log r)).2.
Proof. unfold push_all. by rewrite foldl_app. Qed.

Lemma retained_snoc cap log p :
  (0 < cap)%nat →
  retained cap (log ++ [p]) =
  (if bool_decide (cap ≤ length (retained cap log))%nat
   then tail (retained cap log) else retained cap log) ++ [p].
Proof.
  intros Hc. unfold retained. rewrite length_app, length_drop. simpl.
  case_bool_decide as H.
  - assert (cap ≤ length log)%nat by lia.
    replace (length log + 1 - cap)%nat with (S (length log - cap)) by lia.
    rewrite drop_app_le by lia. f_equal.
    replace (S (length log - cap)) with (1 + (length log - cap))%nat by lia.
    rewrite Nat.add_comm, <- drop_drop. by destruct (drop (length log - cap) log).
  - replace (length log - cap)%nat with 0%nat by lia.
    replace (length log + 1 - cap)%nat with 0%nat by lia. done.
Qed.

(** The buffer holds exactly the retained part of the log. *)
Lemma inner_push_all cap log :
  (0 < cap)%nat →
  inner (push_all log (new cap)) = slots_of (retained cap log) ∧
  capacity (push_all log (new cap)) = cap.
Proof.
  intros Hc. induction log as [|[i e] log [IHi IHc]] using rev_ind; [done|].
  rewrite push_all_snoc, retained_snoc by done. unfold push; cbn [snd inner capacity].
  rewrite IHi, IHc. split; [|done].
  unfold slots_of. rewrite length_fmap, fmap_app. f_equal.
  case_bool_decide; [|done]. by destruct (retained cap log).
Qed.

Lemma position_slots_of last_id log :
  position last_id (slots_of log) =
  (λ p, p.1) <$> list_find (λ p : Z * SorobanEvent, p.1 = last_id) log.
Proof.
  induction log as [|[i e] log IH]; [done|]. simpl.
  destruct (Z.eqb_spec i last_id); case_decide; simpl in *; try done.
  rewrite IH. by destruct (list_find _ log) as [[]|].
Qed.

Lemma events_since_log last_id log r :
  inner r = slots_of log →
  events_since last_id r =
  if decide (last_id ∈ log.*1) then Some (missed_after last_id log) else None.
Proof.
  intros Hr. unfold events_since. rewrite Hr. clear Hr.
  induction log as [|[i e] log IH]; [done|]. simpl.
  destruct (Z.eqb_spec i last_id) as [->|Hne]; simpl.
  - rewrite decide_True by set_solver. rewrite drop_0. f_equal.
    clear. induction log as [|[i e] log IH]; simpl; [done|]. by f_equal.
  - change ((λ p, mkSlot p.1 p.2) <$> log) with (slots_of log).
    destruct (decide (last_id ∈ log.*1)).
    + rewrite decide_True by set_solver.
      destruct (position last_id (slots_of log)) as [p|]; simpl in *; done.
    + rewrite decide_False by set_solver.
      destruct (position last_id (slots_of log)) as [p|]; simpl in *; done.
Qed.

Lemma missed_after_drop last_id n log :
  NoDup log.*1 → last_id ∈ (drop n log).*1 →
  missed_after last_id (drop n log) = missed_after last_id log.
Proof.
  revert log. induction n as [|n IH]; intros [|[i e] log] Hnd Hin; try done.
  simpl in *. apply NoDup_cons in Hnd as [Hni Hnd].
  destruct (Z.eqb_spec i last_id) as [->|]; [|by apply IH].
  exfalso. apply Hni. apply list_elem_of_fmap in Hin as (p & -> & Hp).
  apply list_elem_of_fmap. exists p. split; [done|]. by eapply subseteq_drop.
Qed.

Lemma inner_push_all_since cap log last_id :
  (0 < cap)%nat → NoDup log.*1 →
  events_since last_id (push_all log (new cap)) =
  if decide (last_id ∈ (retained cap log).*1) then Some (missed_after last_id log) else None.
Proof.
  intros Hc Hnd. destruct (inner_push_all cap log Hc) as [Hi _].
  rewrite (events_since_log _ _ _ Hi). case_decide as Hin; [|done].
  f_equal. by apply missed_after_drop.
Qed.

(** C10. Refinement: after any run of pushes with distinct ids, a client that
    reconnects with [last_id] gets exactly the events it missed when that
    id is one of the last [cap] pushed, and [None] otherwise. *)
Theorem events_since_refines_log cap log last_id :
  (0 < cap)%nat → NoDup log.*1 →
  events_since last_id (push_all log (new cap)) =
  if decide (last_id ∈ (retained cap log).*1) then Some (missed_after last_id log) else None.
Proof. apply inner_push_all_since. Qed.

Lemma events_since_refines_log_witness :
  let e := sample_event in
  events_since 2 (push_all [(1, e); (2, e); (3, e); (4, e)] (new 3)) =
  if decide (2 ∈ (retained 3 [(1, e); (2, e); (3, e); (4, e)]).*1)
  then Some (missed_after 2 [(1, e); (2, e); (3, e); (4, e)]) else None.
Proof.
  intros e. apply (events_since_refines_log 3 [(1, e); (2, e); (3, e); (4, e)] 2); [lia|].
  apply (bool_decide_unpack _). vm_compute. exact I.
Defined.

End SseRing.
