(* ===== verification/Bloom.v ===== *)
(** bloom_filter.rs: the session filter (reset on every new ledger) and the
    double-buffered event filter with rotation.

    The bit-array filter itself is the [bloomfilter] crate: it is the class
    [BloomFilter], with the crate's documented guarantees as the class
    [BloomLaws] (an inserted key is always reported, a fresh or cleared
    filter reports nothing).  [ExactBloom] is a concrete instance. *)

From S2P Require Import Prelude F64.

(** ** The crate's filter *)

Class BloomFilter (B : Type) : Type := {
  bloom_new : Z → f64 → result B string;
  bloom_check : B → string → bool;
  bloom_set : B → string → B;
  bloom_clear : B → B;
}.

Class BloomLaws (B : Type) `{BloomFilter B} : Prop := {
  bloom_set_hit b k : bloom_check (bloom_set b k) k = true;
  bloom_set_mono b k k' : bloom_check b k = true → bloom_check (bloom_set b k') k = true;
  bloom_new_empty c r b k : bloom_new c r = Ok b → bloom_check b k = false;
  bloom_clear_empty b k : bloom_check (bloom_clear b) k = false;
}.

(** A filter without false positives: the exact set of keys. *)
#[export] Instance ExactBloom : BloomFilter (gset string) := {
  bloom_new c r :=
    if (0 <? c) && F64.ltb (F64.of_Z 0) r && F64.ltb r (F64.of_Z 1)
    then Ok ∅ else Err "invalid bloom parameters"%string;
  bloom_check b k := bool_decide (k ∈ b);
  bloom_set b k := {[k]} ∪ b;
  bloom_clear b := ∅;
}.

#[export] Instance ExactBloom_laws : BloomLaws (gset string).
Proof.
  split; intros; simpl in *; try (case_match; simplify_eq);
    rewrite ?bool_decide_eq_true, ?bool_decide_eq_false in *; set_solver.
Qed.

Module Bloom.

Section WithFilter.
Context {B : Type} `{BloomFilter B}.

(** [SessionBloomFilter] / [EventBloomFilter::key]: ["{tx_hash}:{contract_id}:{event_type}"]. *)
Definition key (tx_hash contract_id event_type : string) : string :=
  (tx_hash +:+ ":" +:+ contract_id +:+ ":" +:+ event_type)%string.

(** ** [SessionBloomFilter] *)

Record SessionBloomFilter : Type := mkSession {
  s_inner : B;
  s_current_ledger : Z;
  s_capacity : Z;
  s_fp_rate : f64;
}.

(** [SessionBloomFilter::new]. *)
Definition session_new (capacity : Z) (fp_rate : f64) : result SessionBloomFilter string :=
  let? bloom := bloom_new capacity fp_rate in
  Ok {| s_inner := bloom; s_current_ledger := 0; s_capacity := capacity; s_fp_rate := fp_rate |}.

(** The reset branch of [check_and_set]. *)
Definition session_reset (ledger : Z) (f : SessionBloomFilter) : SessionBloomFilter :=
  {| s_inner := match bloom_new (s_capacity f) (s_fp_rate f) with
                | Ok fresh => fresh
                | Err _ => bloom_clear (s_inner f)
                end;
     s_current_ledger := ledger;
     s_capacity := s_capacity f;
     s_fp_rate := s_fp_rate f |}.

Definition session_with_inner (b : B) (f : SessionBloomFilter) : SessionBloomFilter :=
  {| s_inner := b; s_current_ledger := s_current_ledger f;
     s_capacity := s_capacity f; s_fp_rate := s_fp_rate f |}.

(** [check_and_set]: [true] for a duplicate. *)
Definition check_and_set (tx_hash contract_id event_type : string) (ledger : Z)
    (f : SessionBloomFilter) : bool * SessionBloomFilter :=
  let k := key tx_hash contract_id event_type in
  let f := if s_current_ledger f <? ledger then session_reset ledger f else f in
  if bloom_check (s_inner f) k then (true, f)
  else (false, session_with_inner (bloom_set (s_inner f) k) f).

(** ** [EventBloomFilter] *)

Record EventBloomFilter : Type := mkEventBloom {
  inner : B;
  previous : option B;
  capacity : Z;
  fp_rate : f64;
  fill_ratio_threshold : f64;
  insert_count : Z;
  rotation_count : Z;
  contract_filter : B;
  known_contracts : gset string;
}.

(** [f64::clamp]. *)
Definition f64_clamp (x lo hi : f64) : f64 :=
  let x := if F64.ltb x lo then lo else x in
  if F64.ltb hi x then hi else x.

(** [with_fill_threshold] and [new] (threshold 0.80). *)
Definition with_fill_threshold (capacity : Z) (fp_rate threshold : f64) :
    result EventBloomFilter string :=
  let? bloom := bloom_new capacity fp_rate in
  let? contract_bloom := bloom_new (Z.max (capacity / 10) 1) fp_rate in
  Ok {| inner := bloom; previous := None; capacity := capacity; fp_rate := fp_rate;
        fill_ratio_threshold := f64_clamp threshold (F64.lit 1 100) (F64.of_Z 1);
        insert_count := 0; rotation_count := 0;
        contract_filter := contract_bloom; known_contracts := ∅ |}.

Definition new (capacity : Z) (fp_rate : f64) : result EventBloomFilter string :=
  with_fill_threshold capacity fp_rate (F64.lit 80 100).

(** [fill_ratio]. *)
Definition fill_ratio (f : EventBloomFilter) : f64 :=
  F64.div (F64.of_Z (insert_count f)) (F64.of_Z (capacity f)).

(** [maybe_rotate]. *)
Definition maybe_rotate (f : EventBloomFilter) : bool * EventBloomFilter :=
  if F64.ltb (fill_ratio f) (fill_ratio_threshold f) then (false, f)
  else match bloom_new (capacity f) (fp_rate f) with
       | Err _ => (false, f)
       | Ok fresh =>
           (true, {| inner := fresh; previous := Some (inner f); capacity := capacity f;
                     fp_rate := fp_rate f; fill_ratio_threshold := fill_ratio_threshold f;
                     insert_count := 0; rotation_count := add_u 64 (rotation_count f) 1;
                     contract_filter := contract_filter f;
                     known_contracts := known_contracts f |})
       end.

(** [check]. *)
Definition check_key (k : string) (f : EventBloomFilter) : bool :=
  let hit_current := bloom_check (inner f) k in
  let hit_previous := if negb hit_current
                      then match previous f with Some b => bloom_check b k | None => false end
                      else false in
  hit_current || hit_previous.

Definition check (tx_hash contract_id event_type : string) (f : EventBloomFilter) : bool :=
  check_key (key tx_hash contract_id event_type) f.

(** The insertions of [set] and [seed], before the rotation check. *)
Definition insert_keys (ks cs : list string) (f : EventBloomFilter) : EventBloomFilter :=
  {| inner := foldl bloom_set (inner f) ks; previous := previous f; capacity := capacity f;
     fp_rate := fp_rate f; fill_ratio_threshold := fill_ratio_threshold f;
     insert_count := add_u 64 (insert_count f) (Z.of_nat (length ks));
     rotation_count := rotation_count f;
     contract_filter := foldl bloom_set (contract_filter f) cs;
     known_contracts := list_to_set cs ∪ known_contracts f |}.

(** [set]: insert, count, rotate when full. *)
Definition set (tx_hash contract_id event_type : string) (f : EventBloomFilter) : EventBloomFilter :=
  (maybe_rotate (insert_keys [key tx_hash contract_id event_type] [] f)).2.

(** [seed]. *)
Definition seed (entries : list (string * string * string)) (f : EventBloomFilter) :
    EventBloomFilter :=
  (maybe_rotate (insert_keys ((λ '(tx, c, t), key tx c t) <$> entries)
                             ((λ '(_, c, _), c) <$> entries) f)).2.

(** [contains_contract] and [add_contract]. *)
Definition contains_contract (contract_id : string) (f : EventBloomFilter) : bool :=
  bool_decide (contract_id ∈ known_contracts f) || bloom_check (contract_filter f) contract_id.

Definition add_contract (contract_id : string) (f : EventBloomFilter) : EventBloomFilter :=
  {| inner := inner f; previous := previous f; capacity := capacity f;
     fp_rate := fp_rate f; fill_ratio_threshold := fill_ratio_threshold f;
     insert_count := insert_count f; rotation_count := rotation_count f;
     contract_filter := bloom_set (contract_filter f) contract_id;
     known_contracts := {[contract_id]} ∪ known_contracts f |}.

(** [restore_state], from the persisted row (capacity and rate; the bitmap is not used). *)
Definition restore_state (row : option (Z * f64)) : option EventBloomFilter :=
  let! (capacity, fp_rate) := row in
  match bloom_new capacity fp_rate, bloom_new (Z.max capacity 100 / 10) fp_rate with
  | Ok bloom, Ok contract_bloom =>
      Some {| inner := bloom; previous := None; capacity := capacity; fp_rate := fp_rate;
              fill_ratio_threshold := F64.lit 80 100;
              insert_count := 0; rotation_count := 0;
              contract_filter := contract_bloom; known_contracts := ∅ |}
  | _, _ => None
  end.

(** [auto_size_bloom_filter]. *)
Definition auto_size_bloom_filter (expected_items_per_day : Z) (target_fp_rate : f64) : Z * f64 :=
  if expected_items_per_day =? 0 then (1000000, F64.lit 1 1000)
  else (mul_u 64 expected_items_per_day 10,
        f64_clamp target_fp_rate (F64.lit 1 10000) (F64.lit 1 100)).

(** The operations that change the filter. *)
Inductive op : Type :=
| OpSet (tx_hash contract_id event_type : string)
| OpSeed (entries : list (string * string * string))
| OpAddContract (contract_id : string).

Definition run_op (f : EventBloomFilter) (o : op) : EventBloomFilter :=
  match o with
  | OpSet t c e => set t c e f
  | OpSeed es => seed es f
  | OpAddContract c => add_contract c f
  end.

Definition run_ops (ops : list op) (f : EventBloomFilter) : EventBloomFilter := foldl run_op f ops.

(** ** Lemmas *)

Context `{!BloomLaws B}.

Lemma foldl_set_mono ks b k :
  bloom_check b k = true → bloom_check (foldl bloom_set b ks) k = true.
Proof. revert b. induction ks as [|k' ks IH]; intros b Hb; [done|]. apply IH. by apply bloom_set_mono. Qed.

Lemma foldl_set_in ks b k : k ∈ ks → bloom_check (foldl bloom_set b ks) k = true.
Proof.
  revert b. induction ks as [|k' ks IH]; intros b Hk; [by apply elem_of_nil in Hk|].
  apply elem_of_cons in Hk as [->|Hk]; [|by apply IH].
  simpl. apply foldl_set_mono, bloom_set_hit.
Qed.

(** Where a key is relative to the number of rotations made since [r0]. *)
Definition tracked (k : string) (r0 : Z) (f : EventBloomFilter) : Prop :=
  r0 ≤ rotation_count f ∧
  (rotation_count f = r0 → bloom_check (inner f) k = true) ∧
  (rotation_count f = r0 + 1 → ∃ b, previous f = Some b ∧ bloom_check b k = true).

Lemma tracked_check k r0 f :
  tracked k r0 f → rotation_count f ≤ r0 + 1 → check_key k f = true.
Proof.
  intros (Hle & H0 & H1) Hr. unfold check_key.
  destruct (decide (rotation_count f = r0)) as [E|].
  - by rewrite (H0 E).
  - destruct H1 as (b & -> & ->); [lia|]. by destruct (bloom_check (inner f) k).
Qed.

Lemma tracked_insert k r0 ks cs f : tracked k r0 f → tracked k r0 (insert_keys ks cs f).
Proof.
  intros (Hle & H0 & H1). split_and!; simpl; [done| |done].
  intros E. by apply foldl_set_mono, H0.
Qed.

Lemma tracked_rotate k r0 f :
  rotation_count f + 1 < 2 ^ 64 → 0 ≤ r0 → tracked k r0 f → tracked k r0 (maybe_rotate f).2.
Proof.
  intros Hb Hr (Hle & H0 & H1). unfold maybe_rotate.
  case_match; [done|]. destruct (bloom_new _ _); [|done]. simpl.
  unfold tracked, add_u; simpl. rewrite wrap_u_small by (unfold in_u; lia).
  split_and!; [lia|lia|]. intros E. exists (inner f). split; [done|]. apply H0. lia.
Qed.

Lemma maybe_rotate_count f :
  0 ≤ rotation_count f → rotation_count f + 1 < 2 ^ 64 →
  rotation_count f ≤ rotation_count (maybe_rotate f).2 ≤ rotation_count f + 1.
Proof.
  intros H0 Hb. unfold maybe_rotate. case_match; [simpl; lia|].
  destruct (bloom_new _ _); simpl; [|lia]. unfold add_u. rewrite wrap_u_small; [lia|]. unfold in_u. lia.
Qed.

Lemma run_op_count f o :
  0 ≤ rotation_count f → rotation_count f + 1 < 2 ^ 64 →
  rotation_count f ≤ rotation_count (run_op f o) ≤ rotation_count f + 1.
Proof.
  intros. destruct o; simpl; unfold set, seed;
    try (eapply (maybe_rotate_count (insert_keys _ _ f)); simpl; done); lia.
Qed.

Lemma run_op_tracked k r0 f o :
  rotation_count f + 1 < 2 ^ 64 → 0 ≤ r0 → tracked k r0 f → tracked k r0 (run_op f o).
Proof.
  intros Hb Hr Ht. destruct o; simpl; unfold set, seed.
  - by apply tracked_rotate, tracked_insert.
  - by apply tracked_rotate, tracked_insert.
  - destruct Ht as (? & ? & ?). by split_and!.
Qed.

Lemma run_ops_tracked k r0 ops f :
  rotation_count f + Z.of_nat (length ops) < 2 ^ 64 → 0 ≤ r0 → 0 ≤ rotation_count f →
  tracked k r0 f → tracked k r0 (run_ops ops f).
Proof.
  revert f. induction ops as [|o ops IH]; intros f Hb Hr H0 Ht; [done|].
  simpl in *. assert (rotation_count f + 1 < 2 ^ 64) by lia.
  pose proof (run_op_count f o H0). apply IH; [lia|done|lia|by apply run_op_tracked].
Qed.

Lemma set_tracked tx c e f :
  0 ≤ rotation_count f → rotation_count f + 1 < 2 ^ 64 →
  tracked (key tx c e) (rotation_count f) (set tx c e f).
Proof.
  intros H0 Hb. unfold set. apply tracked_rotate; [done|done|].
  split_and!; simpl; [lia| |lia]. intros _. apply bloom_set_hit.
Qed.

(** Session filter: a repeated event of the same or an older ledger is reported. *)
Lemma check_and_set_repeat tx c e l f :
  let f' := (check_and_set tx c e l f).2 in
  ∀ l', l' ≤ s_current_ledger f' → (check_and_set tx c e l' f').1 = true.
Proof.
  unfold check_and_set.
  set (f0 := if s_current_ledger f <? l then session_reset l f else f).
  destruct (bloom_check (s_inner f0) (key tx c e)) eqn:E; cbn [fst snd]; intros l' Hl.
  - replace (s_current_ledger f0 <? l') with false by lia. by rewrite E.
  - replace (_ <? l') with false by lia. cbn [s_inner session_with_inner].
    by rewrite bloom_set_hit.
Qed.

(** ... and the first event of a new ledger never is. *)
Lemma check_and_set_fresh_ledger tx c e l f :
  s_current_ledger f < l → (check_and_set tx c e l f).1 = false.
Proof.
  intros Hl. unfold check_and_set. replace (_ <? l) with true by lia.
  cbn [s_inner session_reset].
  destruct (bloom_new _ _) eqn:E; [rewrite (bloom_new_empty _ _ _ _ E)|rewrite bloom_clear_empty]; done.
Qed.

End WithFilter.
Arguments SessionBloomFilter : clear implicits.
Arguments EventBloomFilter : clear implicits.

(** No false negatives across one rotation: an event recorded with [set] is
    reported by [check] after any further operations, as long as at most one
    rotation happened since it was recorded. *)
Theorem check_after_set {B} `{BloomLaws B} (f : EventBloomFilter B) tx c e ops :
  0 ≤ rotation_count f →
  rotation_count f + Z.of_nat (length ops) + 1 < 2 ^ 64 →
  let f' := run_ops ops (set tx c e f) in
  rotation_count f' ≤ rotation_count f + 1 →
  check tx c e f' = true.
Proof.
  intros Hpos Hb f' Hr. unfold check. apply tracked_check with (rotation_count f); [|done].
  apply run_ops_tracked; [| done | |apply set_tracked; lia];
    pose proof (run_op_count f (OpSet tx c e) Hpos) as Hc; simpl in Hc; lia.
Qed.

Definition demo : EventBloomFilter (gset string) :=
  match with_fill_threshold 2 (F64.lit 1 100) (F64.lit 80 100) with
  | Ok f => f
  | Err _ => mkEventBloom ∅ None 0 (F64.of_Z 0) (F64.of_Z 0) 0 0 ∅ ∅
  end.

Lemma check_after_set_witness :
  let f' := run_ops [OpSet "t2" "c" "contract"; OpAddContract "c"] (set "t1" "c" "contract" demo) in
  rotation_count f' = 1 ∧ check "t1" "c" "contract" f' = true.
Proof.
  split; [vm_compute; reflexivity|].
  apply (check_after_set demo "t1" "c" "contract" [OpSet "t2" "c" "contract"; OpAddContract "c"]);
    [vm_compute; discriminate | vm_compute; reflexivity | vm_compute; discriminate].
Defined.

End Bloom.
