(* ===== verification/Xdr.v ===== *)
(** xdr_validation.rs and the depth guard of scval_format.rs: what the
    ingestion path requires of an event before it is stored.  Whether a JSON
    value deserializes as an [ScVal] is the stellar-xdr crate's: the
    parameter [from_json]. *)

From S2P Require Import Prelude Model.

Module Xdr.

(** ** scval_format.rs *)

Definition MAX_SCVAL_JSON_DEPTH : nat := 64.

Definition children (v : Value) : list Value :=
  match v with
  | Array items => items
  | Object entries => entries.*2
  | _ => []
  end.

(** The nodes of a value: the most iterations the stack loop can make. *)
Fixpoint nodes (v : Value) : nat :=
  match v with
  | Array items => S (sum_list_with nodes items)
  | Object entries => S (sum_list_with (λ kv, nodes kv.2) entries)
  | _ => 1
  end.

(** [exceeds_max_depth]: the explicit stack, its top at the head. *)
Fixpoint depth_loop (fuel : nat) (stack : list (Value * nat)) : option bool :=
  match stack with
  | [] => Some false
  | (v, depth) :: rest =>
      match fuel with
      | O => None
      | S fuel =>
          if bool_decide (MAX_SCVAL_JSON_DEPTH < depth)%nat then Some true
          else depth_loop fuel (reverse ((λ i, (i, S depth)) <$> children v) ++ rest)
      end
  end.

Definition exceeds_max_depth (v : Value) : bool :=
  default false (depth_loop (nodes v) [(v, 1%nat)]).

Section WithScVal.
(** [serde_json::from_value::<ScVal>] succeeds. *)
Variable from_json : Value → bool.

(** [decode_scval(v).is_some()]. *)
Definition is_valid_sc_val (v : Value) : bool := negb (exceeds_max_depth v) && from_json v.

(** ** xdr_validation.rs *)

Definition in_range (lo hi a : ascii) : bool :=
  (nat_of_ascii lo <=? nat_of_ascii a)%nat && (nat_of_ascii a <=? nat_of_ascii hi)%nat.

Definition validate_contract_id (contract_id : string) : bool :=
  if negb (String.length contract_id =? 56)%nat then false
  else if negb (starts_with "C" contract_id) then false
  else string_forallb (λ c, in_range "A" "Z" c || in_range "2" "7" c) contract_id.

Definition is_ascii_hexdigit (c : ascii) : bool :=
  in_range "0" "9" c || in_range "a" "f" c || in_range "A" "F" c.

Definition validate_tx_hash (tx_hash : string) : bool :=
  if negb (String.length tx_hash =? 64)%nat then false
  else string_forallb is_ascii_hexdigit tx_hash.

Inductive XdrValidationError : Type :=
| InvalidContractId (contract_id : string)
| InvalidTxHash (tx_hash : string)
| InvalidScValue
| InvalidTopicElement (index : nat).

Definition validate_contract_id_strict (contract_id : string) : result unit XdrValidationError :=
  if validate_contract_id contract_id then Ok tt else Err (InvalidContractId contract_id).

Definition validate_tx_hash_strict (tx_hash : string) : result unit XdrValidationError :=
  if validate_tx_hash tx_hash then Ok tt else Err (InvalidTxHash tx_hash).

Definition validate_xdr (tx_hash contract_id : string) (value : Value) (topic : option (list Value)) :
    bool :=
  if negb (validate_contract_id contract_id) then false
  else if negb (validate_tx_hash tx_hash) then false
  else if negb (is_null value) && negb (is_valid_sc_val value) then false
  else match topic with
       | Some topics => forallb is_valid_sc_val topics
       | None => true
       end.

(** indexer.rs, [validate_event_data]. *)
Definition validate_event_data (event : SorobanEvent) : bool :=
  match ev_value event with
  | Object _ | Null =>
      validate_xdr (ev_tx_hash event) (ev_contract_id event) (ev_value event) (ev_topic event)
  | _ => false
  end.
End WithScVal.

(** ** Lemmas *)

Lemma children_nodes v : nodes v = S (sum_list_with nodes (children v)).
Proof.
  destruct v as [| | | | |entries]; try done. simpl. f_equal.
  induction entries as [|[k w] l IH]; simpl; auto.
Qed.

Lemma children_depth v : depth_of v = S (max_list_with depth_of (children v)).
Proof.
  destruct v as [| | | | |entries]; try done. simpl. f_equal.
  induction entries as [|[k w] l IH]; simpl; auto.
Qed.

(** With as much fuel as there are nodes on the stack, the loop answers
    whether some entry reaches below the limit. *)
Lemma depth_loop_spec fuel stack :
  (sum_list_with (λ p, nodes p.1) stack ≤ fuel)%nat →
  Forall (λ p, 1 ≤ p.2)%nat stack →
  depth_loop fuel stack =
    Some (negb (bool_decide (Forall (λ p, p.2 + depth_of p.1 ≤ S MAX_SCVAL_JSON_DEPTH)%nat stack))).
Proof.
  revert stack. induction fuel as [|fuel IH]; intros [|[v d] stack] Hf Hd; try done.
  { simpl in Hf. rewrite children_nodes in Hf. lia. }
  cbn [depth_loop]. apply Forall_cons in Hd as [Hv Hd]. simpl in Hv.
  pose proof (children_depth v) as Hcd.
  case_bool_decide as Hm.
  { rewrite bool_decide_false; [done|]. intros H. apply Forall_cons in H as [H _]. simpl in H. lia. }
  rewrite IH.
  - do 2 f_equal. apply bool_decide_ext.
    rewrite Forall_app, Forall_reverse, Forall_fmap, Forall_cons.
    apply and_iff_compat_r. simpl. rewrite Hcd. unfold compose. simpl.
    assert (∀ w, (S d + depth_of w ≤ S MAX_SCVAL_JSON_DEPTH ↔ depth_of w ≤ MAX_SCVAL_JSON_DEPTH - d)%nat) as Hw
      by (intros; lia).
    rewrite (Forall_iff _ _ _ Hw), <- max_list_with_spec. lia.
  - rewrite sum_list_with_app, sum_list_with_reverse. simpl in Hf. rewrite children_nodes in Hf.
    assert (∀ l n, sum_list_with (λ p : Value * nat, nodes p.1) ((λ i, (i, n)) <$> l) =
      sum_list_with nodes l) as -> by (intros l n; induction l; simpl; auto).
    lia.
  - apply Forall_app. split; [|done]. apply Forall_reverse, Forall_fmap.
    apply Forall_forall. simpl. lia.
Qed.

Lemma exceeds_max_depth_spec v :
  depth_loop (nodes v) [(v, 1%nat)] = Some (bool_decide (MAX_SCVAL_JSON_DEPTH < depth_of v)%nat).
Proof.
  rewrite depth_loop_spec; [|simpl; lia|by repeat constructor].
  f_equal. rewrite <- bool_decide_not. apply bool_decide_ext.
  rewrite Forall_singleton. simpl. unfold MAX_SCVAL_JSON_DEPTH. lia.
Qed.

Lemma validate_xdr_shape fj tx c v t :
  validate_xdr fj tx c v t = true → String.length c = 56%nat ∧ String.length tx = 64%nat.
Proof.
  unfold validate_xdr, validate_contract_id, validate_tx_hash.
  destruct (Nat.eqb_spec (String.length c) 56); simpl; [|done].
  destruct (starts_with _ _); simpl; [|done].
  destruct (string_forallb _ c); simpl; [|done].
  by destruct (Nat.eqb_spec (String.length tx) 64).
Qed.

(** ** Properties *)

(** The iterative depth guard terminates within one step per node of the value, and rejects
    exactly the values nested deeper than 64. *)
Theorem depth_guard_correct v :
  ∃ b, depth_loop (nodes v) [(v, 1%nat)] = Some b ∧ exceeds_max_depth v = b ∧
       (b = true ↔ (MAX_SCVAL_JSON_DEPTH < depth_of v)%nat).
Proof.
  eexists. split; [apply exceeds_max_depth_spec|].
  unfold exceeds_max_depth. rewrite exceeds_max_depth_spec. simpl.
  split; [done|]. apply bool_decide_eq_true.
Qed.

End Xdr.
