(* ===== verification/EventStore.v ===== *)
(** The event store: the [events], [event_addresses], [contracts],
    [indexer_checkpoints] and [indexer_state] tables with one open
    transaction over them, and the insert path of indexer.rs
    ([store_event_in_tx], [EventSink::store_events]) with its filters
    (dedup.rs, contract_specs.rs [request_fetch], contract_tracker.rs [record]).

    Every statement sent to the database is numbered; [db_fault] says which
    ones fail.  As in PostgreSQL, a statement that fails inside the
    transaction aborts it: later statements are refused, and COMMIT then rolls
    back and reports success. *)

From S2P Require Import Prelude Text F64 Model Toid Bloom Xdr.

Module EventStore.

(** ** Tables *)

Record SacAsset : Type := mkAsset { asset_code : string; asset_issuer : option string }.

Record Sep41Event : Type := mkSep41 {
  sep41_event_type : string;
  sep41_from : option string;
  sep41_to : option string;
  sep41_amount : string;
}.

(** A row of [events]; [row_id] and [row_created_at] are given by the database. *)
Record EventColumns : Type := mkColumns {
  c_contract_id : string;
  c_event_type : string;
  c_tx_hash : string;
  c_ledger : Z;
  c_timestamp : Z;
  c_event_data : Value;
  c_ledger_hash : option string;
  c_in_successful_call : bool;
  c_event_data_decoded : option Value;
  c_tenant_id : option string;
  c_fingerprint : string;
  c_compressed : option string;
  c_compression_algo : option string;
  c_chain_id : string;
  c_tx_index : option Z;
  c_op_index : option Z;
  c_event_index : option Z;
  c_sep41 : option Sep41Event;
  c_asset : option SacAsset;
}.

Record EventRow : Type := mkRow { row_id : Z; row_created_at : Z; row : EventColumns }.

(** contract_tracker.rs. *)
Inductive DeploymentKind : Type := Created | Updated.

Record Deployment : Type := mkDeployment {
  d_kind : DeploymentKind;
  d_contract_id : string;
  d_deployer : option string;
  d_wasm_hash : option string;
}.

Record ContractRow : Type := mkContract {
  deployer : option string;
  wasm_hash : option string;
  deployed_at : option Z;
  deployed_ledger : option Z;
  deploy_tx_hash : option string;
  updated_at : Z;
  updated_ledger : Z;
}.

Record AddressRow : Type := mkAddress {
  a_event_id : Z;
  a_address : string;
  a_position : Z;
  a_ledger : Z;
}.

Record Db : Type := mkDb {
  events : list EventRow;
  event_addresses : list AddressRow;
  contracts : gmap string ContractRow;
  last_cursor : option string;
  indexer_state : option (Z * Z);
}.

Definition key_of (c : EventColumns) : string * string * string :=
  (c_tx_hash c, c_contract_id c, c_event_type c).

Definition row_key (r : EventRow) : string * string * string := key_of (row r).

(** ** Configuration and outside functions *)

Record Config : Type := mkConfig {
  multi_tenant : bool;
  indexer_tenant_id : option string;
  tenant_contract_filter : gmap string (list string);
  enable_content_dedup : bool;
  dedup_window_secs : Z;
  max_event_data_bytes : nat;
  event_compression_enabled : bool;
  chain_id : string;
  ledger_hash_tracking_enabled : bool;
}.

(** Crates ([from_json] .. [compress]), the pure decoders of other modules
    ([abi_decode] .. [tracker_parse]), the ABI that [contract_abis] has for a
    contract at a step (other handlers write it), PostgreSQL's text form of
    JSON and its refusals of parameters (by type: NUL characters, numerics out
    of range), the id generator, the clock (in microseconds) and the statement
    failures. *)
Record Env : Type := mkEnv {
  from_json : Value → bool;
  parse_from_rfc3339 : string → option Z;
  sha256_hex : string → string;
  to_json : Value → string;
  compress : Value → result string string;
  abi_decode : Value → Value → option Value;
  sac_detect : string → list Value → option SacAsset;
  sep41_decode : Value → option Sep41Event;
  extract_addresses : Value → list (string * Z);
  tracker_parse : string → string → list Value → Value → option Deployment;
  registered_abi : nat → string → option Value;
  jsonb_text : Value → string;
  bind_error : EventColumns → option string;
  uuid : nat → Z;
  now : nat → Z;
  db_fault : nat → option string;
}.

(** contract_specs.rs: the ids seen and the queue of the fetch worker. *)
Record SpecQueue : Type := mkSpecs { seen : gset string; queued : list string }.
Definition MAX_SEEN : Z := 100000.

Create HintDb keeps.
Create HintDb session.
Create HintDb counts.

Section Store.
Context {B : Type} `{BloomFilter B}.
Variable cfg : Config.
Variable env : Env.

(** ** State: the database, the transaction in progress, the filters *)

Record St : Type := mkSt {
  committed : Db;
  work : Db;
  aborted : bool;
  tx_now : Z;
  ops : nat;
  session_bloom : option (Bloom.SessionBloomFilter B);
  bloom_filter : option (Bloom.EventBloomFilter B);
  specs : option SpecQueue;
  hash_writes : list (Z * string);
}.

Definition set_work (d : Db) (s : St) : St :=
  mkSt (committed s) d (aborted s) (tx_now s) (ops s) (session_bloom s) (bloom_filter s) (specs s) (hash_writes s).
Definition set_aborted (b : bool) (s : St) : St :=
  mkSt (committed s) (work s) b (tx_now s) (ops s) (session_bloom s) (bloom_filter s) (specs s) (hash_writes s).
Definition tick (s : St) : St :=
  mkSt (committed s) (work s) (aborted s) (tx_now s) (S (ops s)) (session_bloom s) (bloom_filter s) (specs s) (hash_writes s).
Definition set_session (f : option (Bloom.SessionBloomFilter B)) (s : St) : St :=
  mkSt (committed s) (work s) (aborted s) (tx_now s) (ops s) f (bloom_filter s) (specs s) (hash_writes s).
Definition set_bloom (f : option (Bloom.EventBloomFilter B)) (s : St) : St :=
  mkSt (committed s) (work s) (aborted s) (tx_now s) (ops s) (session_bloom s) f (specs s) (hash_writes s).
Definition set_specs (q : option SpecQueue) (s : St) : St :=
  mkSt (committed s) (work s) (aborted s) (tx_now s) (ops s) (session_bloom s) (bloom_filter s) q (hash_writes s).
Definition add_hash (h : Z * string) (s : St) : St :=
  mkSt (committed s) (work s) (aborted s) (tx_now s) (ops s) (session_bloom s) (bloom_filter s) (specs s)
    (hash_writes s ++ [h]).

(** ** The state and error monad *)

Definition M (A : Type) : Type := St → result A string * St.
#[export] Instance M_ret : MRet M := λ A x s, (Ok x, s).
#[export] Instance M_bind : MBind M := λ A C k m s,
  match m s with (Ok x, s') => k x s' | (Err e, s') => (Err e, s') end.
Definition throw {A} (e : string) : M A := λ s, (Err e, s).
Definition modify (f : St → St) : M () := λ s, (Ok (), f s).
(** The error as a value: [match c { Ok .. Err .. }]. *)
Definition attempt {A} (m : M A) : M (result A string) := λ s, let '(r, s') := m s in (Ok r, s').

(** One statement inside the transaction. *)
Definition exec : M () := λ s,
  if aborted s then (Err "current transaction is aborted"%string, tick s)
  else match db_fault env (ops s) with
       | Some e => (Err e, set_aborted true (tick s))
       | None => (Ok (), tick s)
       end.

(** [UPDATE]/[INSERT] inside the transaction. *)
Definition update (f : Db → Db) : M () := exec ;; modify (λ s, set_work (f (work s)) s).

(** One query on the pool, outside the transaction. *)
Definition pool_query {A} (q : Db → A) : M A := λ s,
  match db_fault env (ops s) with
  | Some e => (Err e, tick s)
  | None => (Ok (q (committed s)), tick s)
  end.

Definition begin : M () := λ s,
  match db_fault env (ops s) with
  | Some e => (Err e, tick s)
  | None => (Ok (), mkSt (committed s) (committed s) false (now env (ops s)) (S (ops s)) (session_bloom s)
                      (bloom_filter s) (specs s) (hash_writes s))
  end.

(** A commit that reports a failure has not happened; lost acknowledgements are
    not modelled. *)
Definition commit : M () := λ s,
  match db_fault env (ops s) with
  | Some e => (Err e, tick s)
  | None => (Ok (), let s := tick s in if aborted s then s else
                      mkSt (work s) (work s) false (tx_now s) (ops s) (session_bloom s) (bloom_filter s) (specs s) (hash_writes s))
  end.

(** [ROLLBACK TO SAVEPOINT]: accepted in an aborted transaction. *)
Definition rollback_to (d : Db) : M () := λ s,
  match db_fault env (ops s) with
  | Some e => (Err e, set_aborted true (tick s))
  | None => (Ok (), set_aborted false (set_work d (tick s)))
  end.

(** ** dedup.rs *)

Definition nul : string := String "000" EmptyString.

Definition compute_fingerprint (tx_hash contract_id event_type : string) (event_data : Value) : string :=
  sha256_hex env (tx_hash +:+ nul +:+ contract_id +:+ nul +:+ event_type +:+ nul +:+ to_json env event_data)%string.

Definition is_content_duplicate (fingerprint : string) (window_secs : Z) : M bool := λ s,
  let since := now env (ops s) - wrap_i 64 window_secs * 1000000 in
  pool_query (λ d, existsb (λ r, String.eqb (c_fingerprint (row r)) fingerprint && (since <=? row_created_at r))
                     (events d)) s.

(** ** The prefilters *)

Definition session_duplicate (e : SorobanEvent) : M bool := λ s,
  match session_bloom s with
  | None => (Ok false, s)
  | Some f =>
      let '(dup, f) := Bloom.check_and_set (ev_tx_hash e) (ev_contract_id e) (ev_event_type e) (ev_ledger e) f in
      (Ok dup, set_session (Some f) s)
  end.

Definition bloom_hit (e : SorobanEvent) : M bool := λ s,
  (Ok (match bloom_filter s with
       | Some f => Bloom.check (ev_tx_hash e) (ev_contract_id e) (ev_event_type e) f
       | None => false
       end), s).

Definition tenant_rejects (e : SorobanEvent) : bool :=
  multi_tenant cfg &&
  match indexer_tenant_id cfg with
  | Some tenant =>
      match tenant_contract_filter cfg !! tenant with
      | Some allowed => negb (bool_decide (allowed = [])) && negb (bool_decide (ev_contract_id e ∈ allowed))
      | None => false
      end
  | None => false
  end.

Definition content_duplicate (fingerprint : string) : M bool :=
  if enable_content_dedup cfg then
    r ← attempt (is_content_duplicate fingerprint (dedup_window_secs cfg));
    mret (match r with Ok b => b | Err _ => false end)
  else mret false.

(** ** Inserting *)

(** [json!({ "value": .., "topic": .. })]; the map is sorted by key. *)
Definition event_data_of (e : SorobanEvent) : Value :=
  Object [("topic"%string, match ev_topic e with Some t => Array t | None => Null end);
          ("value"%string, ev_value e)].

(** abi.rs, [decode_event_with_registered_abi]: a query on the pool, whose
    failure reads as no ABI. *)
Definition decode_event_with_registered_abi (contract_id : string) (event_data : Value) : M (option Value) := λ s,
  (abi ← attempt (pool_query (λ _, registered_abi env (ops s) contract_id));
   mret (let! abi := (match abi with Ok a => a | Err _ => None end) in abi_decode env abi event_data)) s.

(** The bound values of the [INSERT INTO events]. *)
Definition columns_of (e : SorobanEvent) (timestamp : Z) (decoded : option Value) : EventColumns :=
  let event_data := event_data_of e in
  let '(compressed, algo) :=
    if event_compression_enabled cfg then
      match compress env event_data with
      | Ok b => (Some b, Some "gzip"%string)
      | Err _ => (None, None)
      end
    else (None, None) in
  let ordinal := let! id := ev_rpc_id e in Toid.parse_event_id id in
  let topics := default [] (ev_topic e) in
  {| c_contract_id := ev_contract_id e;
     c_event_type := ev_event_type e;
     c_tx_hash := ev_tx_hash e;
     c_ledger := ev_ledger e;
     c_timestamp := timestamp;
     c_event_data := event_data;
     c_ledger_hash := ev_ledger_hash e;
     c_in_successful_call := ev_in_successful_call e;
     c_event_data_decoded := decoded;
     c_tenant_id := if multi_tenant cfg then indexer_tenant_id cfg else None;
     c_fingerprint := compute_fingerprint (ev_tx_hash e) (ev_contract_id e) (ev_event_type e) event_data;
     c_compressed := compressed;
     c_compression_algo := algo;
     c_chain_id := chain_id cfg;
     c_tx_index := Toid.tx_index <$> ordinal;
     c_op_index := Toid.op_index <$> ordinal;
     c_event_index := Toid.event_index <$> ordinal;
     c_sep41 := sep41_decode env event_data;
     c_asset := sac_detect env (ev_contract_id e) topics |}.

Definition with_events (l : list EventRow) (d : Db) : Db :=
  mkDb l (event_addresses d) (contracts d) (last_cursor d) (indexer_state d).
Definition with_addresses (l : list AddressRow) (d : Db) : Db :=
  mkDb (events d) l (contracts d) (last_cursor d) (indexer_state d).
Definition with_contracts (m : gmap string ContractRow) (d : Db) : Db :=
  mkDb (events d) (event_addresses d) m (last_cursor d) (indexer_state d).
Definition with_cursor (c : option string) (d : Db) : Db :=
  mkDb (events d) (event_addresses d) (contracts d) c (indexer_state d).
Definition with_state (st : option (Z * Z)) (d : Db) : Db :=
  mkDb (events d) (event_addresses d) (contracts d) (last_cursor d) st.

(** The CHECK constraints of the table.  A JSON null is no SQL NULL:
    [event_data->'topic' IS NULL] only holds when the key is missing. *)
Definition check_event_data_structure (event_data : Value) : bool :=
  match value_get event_data "value" with None | Some (Object _) => true | Some _ => false end &&
  match value_get event_data "topic" with None | Some (Array _) => true | Some _ => false end.

Definition event_data_size_limit (event_data : Value) : bool :=
  (Z.of_nat (String.length (jsonb_text env event_data)) <=? 65536).

(** Why the database refuses a row, its key aside. *)
Definition row_error (c : EventColumns) : option string :=
  match bind_error env c with
  | Some e => Some e
  | None =>
      if negb (check_event_data_structure (c_event_data c)) then
        Some "new row for relation events violates check constraint check_event_data_structure"%string
      else if negb (event_data_size_limit (c_event_data c)) then
        Some "new row for relation events violates check constraint event_data_size_limit"%string
      else None
  end.

(** [INSERT INTO events .. ON CONFLICT (tx_hash, contract_id, event_type) DO NOTHING RETURNING id]:
    the constraints come before the conflict, and a violation aborts the transaction. *)
Definition insert_event (c : EventColumns) : M (option Z) :=
  exec ;;
  ((λ s,
    match row_error c with Some e => (Err e, set_aborted true s) | None =>
    if bool_decide (key_of c ∈ (row_key <$> events (work s))) then (Ok None, s)
    else let id := uuid env (ops s) in
         (Ok (Some id), set_work (with_events (events (work s) ++ [mkRow id (tx_now s) c]) (work s)) s)
    end)
   : M (option Z)).

(** [INSERT INTO event_addresses .. ON CONFLICT DO NOTHING]. *)
Definition insert_address (id : Z) (ledger : Z) (a : string * Z) : M () :=
  update (λ d,
    if existsb (λ r, (a_event_id r =? id) && String.eqb (a_address r) a.1 && (a_position r =? a.2))
         (event_addresses d)
    then d else with_addresses (event_addresses d ++ [mkAddress id a.1 a.2 ledger]) d).

Fixpoint insert_addresses (id ledger : Z) (l : list (string * Z)) : M () :=
  match l with
  | [] => mret ()
  | a :: rest => insert_address id ledger a ;; insert_addresses id ledger rest
  end.

(** contract_specs.rs, [request_fetch]. *)
Definition request_fetch (contract_id : string) (q : option SpecQueue) : option SpecQueue :=
  let! q := q in
  let sn := if MAX_SEEN <=? Z.of_nat (size (seen q)) then ∅ else seen q in
  Some (if decide (contract_id ∈ sn) then mkSpecs sn (queued q)
        else mkSpecs ({[contract_id]} ∪ sn) (queued q ++ [contract_id])).

(** contract_tracker.rs, [record]. *)
Definition coalesce {A} (a b : option A) : option A := match a with Some _ => a | None => b end.

Definition upsert_contract (d : Deployment) (ledger at_ : Z) (tx_hash : string)
    (m : gmap string ContractRow) : gmap string ContractRow :=
  let created {A} (x : A) : option A := match d_kind d with Created => Some x | Updated => None end in
  <[d_contract_id d :=
    match m !! d_contract_id d with
    | None => mkContract (d_deployer d) (d_wasm_hash d) (created at_) (created ledger)
                (created tx_hash) at_ ledger
    | Some c =>
        let newer := updated_ledger c <=? ledger in
        mkContract (coalesce (d_deployer d) (deployer c))
          (if newer then coalesce (d_wasm_hash d) (wasm_hash c) else coalesce (wasm_hash c) (d_wasm_hash d))
          (coalesce (created at_) (deployed_at c))
          (coalesce (created ledger) (deployed_ledger c))
          (coalesce (created tx_hash) (deploy_tx_hash c))
          (if newer then at_ else updated_at c)
          (Z.max (updated_ledger c) ledger)
    end]> m.

Definition record_deployment (d : Deployment) (ledger at_ : Z) (tx_hash : string) : M () :=
  update (λ db, with_contracts (upsert_contract d ledger at_ tx_hash (contracts db)) db).

(** The savepoint around the tracker. *)
Definition track_deployment (e : SorobanEvent) (ledger timestamp : Z) : M () :=
  match tracker_parse env (ev_contract_id e) (ev_event_type e) (default [] (ev_topic e)) (ev_value e) with
  | None => mret ()
  | Some d =>
      exec ;;
      ((λ s,
        (r ← attempt (record_deployment d ledger timestamp (ev_tx_hash e));
         match r with
         | Ok _ => exec
         | Err _ => rollback_to (work s)
         end) s) : M ())
  end.

Definition bloom_record (e : SorobanEvent) : M () :=
  modify (λ s, set_bloom (Bloom.set (ev_tx_hash e) (ev_contract_id e) (ev_event_type e) <$> bloom_filter s) s).

Definition spawn_ledger_hash (e : SorobanEvent) : M () :=
  match ledger_hash_tracking_enabled cfg, ev_ledger_hash e with
  | true, Some h => modify (add_hash (ev_ledger e, h))
  | _, _ => mret ()
  end.

(** What follows an insert that returned an id. *)
Definition after_insert (e : SorobanEvent) (ledger timestamp id : Z) : M () :=
  insert_addresses id ledger (extract_addresses env (event_data_of e)) ;;
  modify (λ s, set_specs (request_fetch (ev_contract_id e) (specs s)) s) ;;
  track_deployment e ledger timestamp ;;
  bloom_record e ;;
  spawn_ledger_hash e.

(** [store_event_in_tx]: the number of rows inserted. The schema version is not used. *)
Definition store_event_in_tx (e : SorobanEvent) (_schema_version : Z) : M Z :=
  dup ← session_duplicate e;
  if (dup : bool) then mret 0 else
  hit ← bloom_hit e;
  if (hit : bool) then mret 0 else
  if tenant_rejects e then mret 0 else
  if negb (Xdr.validate_event_data (from_json env) e) then mret 0 else
  if i_max 64 <? ev_ledger e then mret 0 else
  match parse_from_rfc3339 env (ev_ledger_closed_at e) with
  | None => throw "Unparseable ledger_closed_at"
  | Some timestamp =>
      let event_data := event_data_of e in
      dup ← content_duplicate (compute_fingerprint (ev_tx_hash e) (ev_contract_id e) (ev_event_type e) event_data);
      if (dup : bool) then mret 0 else
      decoded ← decode_event_with_registered_abi (ev_contract_id e) event_data;
      if (max_event_data_bytes cfg <? String.length (to_json env event_data))%nat then mret 0 else
      inserted ← insert_event (columns_of e timestamp decoded);
      match inserted with
      | None => mret 0
      | Some id => after_insert e (ev_ledger e) timestamp id ;; mret 1
      end
  end.

(** [EventSink::store_events]; an error drops, and so rolls back, the transaction. *)
Fixpoint store_all (es : list SorobanEvent) (schema_version inserted : Z) : M Z :=
  match es with
  | [] => mret inserted
  | e :: rest =>
      n ← store_event_in_tx e schema_version;
      store_all rest schema_version (inserted + n)
  end.

Definition store_events (es : list SorobanEvent) (schema_version : Z) : M Z :=
  match es with
  | [] => mret 0
  | _ =>
      begin ;;
      inserted ← store_all es schema_version 0;
      commit ;;
      mret inserted
  end.

(** [save_checkpoint], [save_indexer_state]: upserts of the singleton rows. *)
Definition save_checkpoint (cursor : string) : M () := update (with_cursor (Some cursor)).
Definition save_indexer_state (current latest : Z) : M () :=
  update (with_state (Some (wrap_i 64 current, wrap_i 64 latest))).

(** [load_checkpoint], [load_indexer_state]: a failed query reads as no row. *)
Definition load_checkpoint : M (option string) :=
  r ← attempt (pool_query last_cursor); mret (match r with Ok c => c | Err _ => None end).
Definition load_indexer_state : M (option (Z * Z)) :=
  r ← attempt (pool_query indexer_state);
  mret (match r with Ok st => prod_map (wrap_u 64) (wrap_u 64) <$> st | Err _ => None end).

(** ** Lemmas *)

(** [m] keeps the stored events: it changes nothing committed; when it succeeds the open
    transaction has the same events and status, and when it fails the transaction is aborted. *)
Definition keeps {A} (m : M A) : Prop := ∀ s r s', m s = (r, s') →
  committed s' = committed s ∧
  match r with
  | Ok _ => aborted s' = aborted s ∧ events (work s') = events (work s)
  | Err _ => aborted s' = true
  end.

Lemma bind_inv {A C} (m : M A) (k : A → M C) s r s' :
  (m ≫= k) s = (r, s') →
  (∃ x s1, m s = (Ok x, s1) ∧ k x s1 = (r, s')) ∨ (∃ e, m s = (Err e, s') ∧ r = Err e).
Proof. unfold mbind, M_bind. destruct (m s) as [[x|e] s1]; [eauto|]. intros [= <- <-]. eauto. Qed.

Lemma keeps_bind {A C} (m : M A) (k : A → M C) : keeps m → (∀ x, keeps (k x)) → keeps (m ≫= k).
Proof.
  intros Hm Hk s r s' [(x & s1 & E1 & E2)|(e & E1 & ->)]%bind_inv.
  - apply Hm in E1 as (C1 & A1 & W1). apply Hk in E2 as (C2 & R2).
    rewrite C2, C1. split; [done|]. destruct r; [|done]. destruct R2. split; congruence.
  - by apply Hm in E1.
Qed.

Lemma keeps_ret {A} (x : A) : keeps (mret x).
Proof. by intros s r s' [= <- <-]. Qed.

Lemma keeps_modify f :
  (∀ s, committed (f s) = committed s ∧ aborted (f s) = aborted s ∧ work (f s) = work s) → keeps (modify f).
Proof. intros Hf s r s' [= <- <-]. destruct (Hf s) as (-> & -> & ->). done. Qed.

Lemma exec_inv s r s' :
  exec s = (r, s') → committed s' = committed s ∧ work s' = work s ∧ session_bloom s' = session_bloom s ∧
    bloom_filter s' = bloom_filter s ∧
    match r with Ok _ => aborted s = false ∧ aborted s' = false | Err _ => aborted s' = true end.
Proof.
  unfold exec. destruct (aborted s) eqn:Ha; [intros [= <- <-]; done|].
  destruct (db_fault env (ops s)); intros [= <- <-]; done.
Qed.

Lemma keeps_exec : keeps exec.
Proof. intros s r s' (-> & -> & _ & _ & R)%exec_inv. destruct r; [|done]. destruct R. split; [done|]. split; congruence. Qed.

Lemma keeps_update f : (∀ d, events (f d) = events d) → keeps (update f).
Proof.
  intros Hf. unfold update. apply keeps_bind; [apply keeps_exec|]. intros _ s r s' [= <- <-]. simpl. auto.
Qed.

#[local] Hint Resolve keeps_bind keeps_ret keeps_modify keeps_exec keeps_update : keeps.

Lemma keeps_insert_addresses id ledger l : keeps (insert_addresses id ledger l).
Proof.
  induction l as [|a l IH]; simpl; auto with keeps. apply keeps_bind; [|auto].
  apply keeps_update. intros d. by case_match.
Qed.

Lemma keeps_track_deployment e ledger ts : keeps (track_deployment e ledger ts).
Proof.
  unfold track_deployment. destruct (tracker_parse _ _ _ _ _) as [d|]; [|auto with keeps].
  intros s r s' [(x & s1 & E1 & E2)|(er & E1 & ->)]%bind_inv; [|by apply keeps_exec in E1].
  apply exec_inv in E1 as (C1 & W1 & _ & _ & A1 & A1').
  destruct (bind_inv _ _ _ _ _ E2) as [(y & s2 & E3 & E4)|(er & E3 & _)].
  2: { unfold attempt in E3. by destruct (record_deployment _ _ _ _ s1). }
  unfold attempt in E3. destruct (record_deployment d ledger ts (ev_tx_hash e) s1) as [r2 s2'] eqn:E5.
  injection E3 as <- <-. apply (keeps_update) in E5 as (C2 & R2); [|done].
  destruct r2 as [u|er].
  - apply keeps_exec in E4 as (C3 & R3). split; [congruence|]. destruct r; [|done].
    destruct R2, R3. split; congruence.
  - unfold rollback_to in E4. destruct (db_fault env (ops s2')); injection E4 as <- <-; simpl.
    + split; [congruence|done].
    + split; [congruence|]. split; congruence.
Qed.

Lemma keeps_after_insert e ledger ts id : keeps (after_insert e ledger ts id).
Proof.
  unfold after_insert. repeat (apply keeps_bind; [|intros _]).
  - apply keeps_insert_addresses.
  - by apply keeps_modify.
  - apply keeps_track_deployment.
  - by apply keeps_modify.
  - unfold spawn_ledger_hash. repeat case_match; auto with keeps.
Qed.

(** Reads outside the transaction: they answer, and touch no table nor the transaction. *)
Definition same (s s' : St) : Prop :=
  committed s' = committed s ∧ work s' = work s ∧ aborted s' = aborted s ∧ tx_now s' = tx_now s.
Definition peeks {A} (m : M A) : Prop := ∀ s r s', m s = (r, s') → (∃ b, r = Ok b) ∧ same s s'.

Lemma peeks_content_duplicate fp : peeks (content_duplicate fp).
Proof.
  unfold content_duplicate, peeks. intros s r s'.
  destruct (enable_content_dedup cfg); [|intros [= <- <-]; unfold same; eauto 10].
  unfold mbind, M_bind, attempt, is_content_duplicate, pool_query, mret, M_ret.
  destruct (db_fault env (ops s)); intros [= <- <-]; unfold same; simpl; eauto 10.
Qed.

Lemma peeks_decode c v : peeks (decode_event_with_registered_abi c v).
Proof.
  unfold decode_event_with_registered_abi, peeks. intros s r s'. unfold mbind, M_bind, attempt, pool_query, mret, M_ret.
  destruct (db_fault env (ops s)); intros [= <- <-]; unfold same; simpl; eauto 10.
Qed.

Lemma peeks_session_duplicate e : peeks (session_duplicate e).
Proof.
  unfold session_duplicate, peeks. intros s r s'.
  destruct (session_bloom s) as [f|]; [|intros [= <- <-]; unfold same; eauto 10].
  destruct (Bloom.check_and_set _ _ _ _ f). intros [= <- <-]; unfold same; simpl; eauto 10.
Qed.

Lemma peeks_bloom_hit e : peeks (bloom_hit e).
Proof. intros s r s' [= <- <-]. unfold same. eauto 10. Qed.

(** What the event decodes to at step [n]. *)
Definition decoded_at (n : nat) (e : SorobanEvent) : option Value :=
  match db_fault env n with
  | Some _ => None
  | None => let! abi := registered_abi env n (ev_contract_id e) in abi_decode env abi (event_data_of e)
  end.

Lemma decode_answers e s :
  decode_event_with_registered_abi (ev_contract_id e) (event_data_of e) s = (Ok (decoded_at (ops s) e), tick s).
Proof.
  unfold decode_event_with_registered_abi, decoded_at, mbind, M_bind, attempt, pool_query, mret, M_ret.
  by destruct (db_fault env (ops s)).
Qed.

(** The outcomes of storing one event. *)
Definition stored (e : SorobanEvent) (s s' : St) : Prop :=
  ∃ id ts decoded, parse_from_rfc3339 env (ev_ledger_closed_at e) = Some ts ∧
    events (work s') = events (work s) ++ [mkRow id (tx_now s) (columns_of e ts decoded)] ∧
    (event_key e ∉ row_key <$> events (work s)) ∧
    Xdr.validate_event_data (from_json env) e = true ∧ ev_ledger e ≤ i_max 64 ∧
    (∃ n, decoded = decoded_at n e) ∧ row_error (columns_of e ts decoded) = None.

Lemma key_of_columns e ts dec : key_of (columns_of e ts dec) = event_key e.
Proof. unfold columns_of. by repeat case_match. Qed.

Lemma c_ledger_columns e ts dec : c_ledger (columns_of e ts dec) = ev_ledger e.
Proof. unfold columns_of. by repeat case_match. Qed.

Lemma insert_event_inv c s r s' :
  insert_event c s = (r, s') →
  committed s' = committed s ∧ bloom_filter s' = bloom_filter s ∧
  match r with
  | Err _ => aborted s' = true
  | Ok None => aborted s' = aborted s ∧ events (work s') = events (work s) ∧
               (key_of c ∈ row_key <$> events (work s))
  | Ok (Some id) => row_error c = None ∧ aborted s' = aborted s ∧ (key_of c ∉ row_key <$> events (work s)) ∧
               events (work s') = events (work s) ++ [mkRow id (tx_now s) c]
  end.
Proof.
  unfold insert_event. intros [(u & s1 & E & E')|(er & E & ->)]%bind_inv.
  - assert (tx_now s1 = tx_now s) as Hn.
    { revert E. unfold exec. by destruct (aborted s), (db_fault env (ops s)); intros [= _ <-]. }
    apply exec_inv in E as (C & W & _ & Bl & A & A').
    rewrite <- C, <- Bl, <- W, <- Hn. destruct (row_error c); [by injection E' as <- <-|].
    case_bool_decide; injection E' as <- <-; simpl; split_and!; try done; congruence.
  - apply exec_inv in E as (C & _ & _ & Bl & A). done.
Qed.

(** [store_event_in_tx] on every branch: 0 leaves the events of the transaction as they were;
    1 appends the event's row, valid and with a key that was absent; an error aborted the
    transaction or left it alone.  Nothing is committed. *)
Definition store_outcome (e : SorobanEvent) (s : St) (r : result Z string) (s' : St) : Prop :=
  committed s' = committed s ∧
  match r with
  | Ok n => aborted s' = aborted s ∧
      (n = 0 ∧ events (work s') = events (work s) ∨ n = 1 ∧ stored e s s')
  | Err _ => aborted s' = true ∨ aborted s' = aborted s ∧ events (work s') = events (work s)
  end.

Definition outcomes (e : SorobanEvent) (m : M Z) : Prop :=
  ∀ s r s', m s = (r, s') → store_outcome e s r s'.

Lemma outcomes_peek {A} e (m : M A) (k : A → M Z) :
  peeks m → (∀ x, outcomes e (k x)) → outcomes e (m ≫= k).
Proof.
  intros Hm Hk s r s' [(x & s1 & E1 & E2)|(er & E1 & ->)]%bind_inv; apply Hm in E1 as [[b ?] Hs]; [|done].
  apply Hk in E2. destruct Hs as (C & W & A1 & N). unfold store_outcome, stored in *.
  by rewrite C, W, A1, N in E2.
Qed.

Lemma outcomes_skip e : outcomes e (mret 0).
Proof. intros s r s' [= <- <-]. split; [done|]. auto. Qed.

Lemma outcomes_insert e ts n :
  parse_from_rfc3339 env (ev_ledger_closed_at e) = Some ts →
  Xdr.validate_event_data (from_json env) e = true → ev_ledger e ≤ i_max 64 →
  outcomes e (inserted ← insert_event (columns_of e ts (decoded_at n e));
              match inserted with
              | None => mret 0
              | Some id => after_insert e (ev_ledger e) ts id ;; mret 1
              end).
Proof.
  intros Ht Hv Hl s r s' [([id|] & s1 & E1 & E2)|(er & E1 & ->)]%bind_inv;
    apply insert_event_inv in E1 as (C1 & _ & R1).
  - destruct R1 as (Hrow & A1 & Hk & W1).
    apply bind_inv in E2 as [([] & s2 & E2 & E3)|(er & E2 & ->)];
      apply keeps_after_insert in E2 as (C2 & R2); [|split; [congruence|by left]].
    injection E3 as <- <-. destruct R2 as [A2 W2]. split; [congruence|]. split; [congruence|].
    right. split; [done|]. exists id, ts, (decoded_at n e). rewrite key_of_columns in Hk. rewrite W2. eauto 10.
  - injection E2 as <- <-. split; [done|]. destruct R1 as (A1 & W1 & _). auto.
  - split; [done|]. by left.
Qed.

Lemma store_event_outcome e sv : outcomes e (store_event_in_tx e sv).
Proof.
  unfold store_event_in_tx.
  apply outcomes_peek; [apply peeks_session_duplicate|]. intros [|]; [apply outcomes_skip|].
  apply outcomes_peek; [apply peeks_bloom_hit|]. intros [|]; [apply outcomes_skip|].
  destruct (tenant_rejects e); [apply outcomes_skip|].
  destruct (Xdr.validate_event_data _ e) eqn:Hv; [simpl|apply outcomes_skip].
  destruct (i_max 64 <? ev_ledger e) eqn:Hl; [apply outcomes_skip|]. apply Z.ltb_ge in Hl.
  destruct (parse_from_rfc3339 env _) as [ts|] eqn:Ht;
    [|intros s r s' [= <- <-]; split; [done|by right]].
  apply outcomes_peek; [apply peeks_content_duplicate|]. intros [|]; [apply outcomes_skip|].
  intros s r s' E. unfold mbind, M_bind in E. rewrite decode_answers in E. revert E.
  match goal with |- ?m (tick s) = _ → _ => assert (outcomes e m) as Ho; [|intros E%Ho; exact E] end.
  destruct (_ <? _)%nat; [apply outcomes_skip|]. by apply outcomes_insert.
Qed.

(** *** Many events *)

(** The row an event is stored as. *)
Definition row_of (e : SorobanEvent) (r : EventRow) : Prop :=
  ∃ ts n, parse_from_rfc3339 env (ev_ledger_closed_at e) = Some ts ∧ row r = columns_of e ts (decoded_at n e) ∧
    Xdr.validate_event_data (from_json env) e = true ∧ ev_ledger e ≤ i_max 64 ∧ row_error (row r) = None.

(** [rows] are the rows of some of the events, in their order. *)
Definition rows_of (es : list SorobanEvent) (rows : list EventRow) : Prop :=
  ∃ es', es' `sublist_of` es ∧ Forall2 row_of es' rows.

Definition unique_keys (d : Db) : Prop := NoDup (row_key <$> events d).

(** The open transaction has grown by [rows], stored from [es]. *)
Definition grown (es : list SorobanEvent) (rows : list EventRow) (s s' : St) : Prop :=
  committed s' = committed s ∧ events (work s') = events (work s) ++ rows ∧ rows_of es rows ∧
  (unique_keys (work s) → unique_keys (work s')).

Lemma grown_refl s s' es : committed s' = committed s → events (work s') = events (work s) → grown es [] s s'.
Proof.
  intros Hc Hw. split; [done|]. rewrite app_nil_r. split; [done|]. split.
  - exists []. split; [apply sublist_nil_l|constructor].
  - unfold unique_keys. by rewrite Hw.
Qed.

Lemma rows_of_cons e es rows rows' : rows_of [e] rows → rows_of es rows' → rows_of (e :: es) (rows ++ rows').
Proof.
  intros (l & Hl & F) (l' & Hl' & F'). exists (l ++ l'). split; [|by apply Forall2_app].
  by apply (sublist_app _ [e]).
Qed.

Lemma grown_trans e es r1 r2 s1 s2 s3 : grown [e] r1 s1 s2 → grown es r2 s2 s3 → grown (e :: es) (r1 ++ r2) s1 s3.
Proof.
  intros (C1 & W1 & R1 & U1) (C2 & W2 & R2 & U2). split; [congruence|].
  split; [by rewrite W2, W1, (assoc_L (++))|]. split; [by apply rows_of_cons|auto].
Qed.

Lemma row_key_of e r : row_of e r → row_key r = event_key e.
Proof. intros (ts & n & _ & Hr & _). unfold row_key. rewrite Hr. apply key_of_columns. Qed.

Lemma outcome_grown e s n s' :
  store_outcome e s (Ok n) s' →
  aborted s' = aborted s ∧ ∃ rows, grown [e] rows s s' ∧ n = Z.of_nat (length rows).
Proof.
  intros (C & A & [[-> W]|[-> (id & ts & dec & Ht & W & Hk & Hv & Hl & [q ->] & Hrow)]]); split; try done.
  - exists []. split; [by apply grown_refl|done].
  - set (r := mkRow _ _ _) in W. assert (row_of e r) as Hr by (exists ts, q; auto).
    exists [r]. split; [|done]. split; [done|]. split; [done|]. split.
    + exists [e]. split; [done|]. by constructor.
    + unfold unique_keys. intros Hu. rewrite W, fmap_app. apply NoDup_app. split; [done|].
      split; [|apply NoDup_singleton]. intros k Hin Hin'. apply list_elem_of_singleton in Hin' as ->.
      simpl in Hin. by rewrite (row_key_of _ _ Hr) in Hin.
Qed.

Lemma store_all_ok es sv acc s n s' :
  store_all es sv acc s = (Ok n, s') →
  aborted s' = aborted s ∧ ∃ rows, grown es rows s s' ∧ n = acc + Z.of_nat (length rows).
Proof.
  revert acc s. induction es as [|e es IH]; intros acc s; simpl.
  - intros [= <- <-]. split; [done|]. exists []. split; [by apply grown_refl|simpl; lia].
  - intros [(m & s1 & E1 & E2)|(er & _ & E)]%bind_inv; [|done].
    apply store_event_outcome, outcome_grown in E1 as (A1 & rows1 & G1 & ->).
    apply IH in E2 as (A2 & rows2 & G2 & ->). split; [congruence|].
    exists (rows1 ++ rows2). split; [by eapply grown_trans|]. rewrite length_app. lia.
Qed.

Lemma begin_inv s r s' :
  begin s = (r, s') → committed s' = committed s ∧ bloom_filter s' = bloom_filter s ∧
    session_bloom s' = session_bloom s ∧
    match r with Ok _ => work s' = committed s ∧ aborted s' = false | Err _ => True end.
Proof. unfold begin. destruct (db_fault env (ops s)); intros [= <- <-]; done. Qed.

Lemma commit_inv s r s' :
  commit s = (r, s') → bloom_filter s' = bloom_filter s ∧ session_bloom s' = session_bloom s ∧
    committed s' = match r with Ok _ => if aborted s then committed s else work s | Err _ => committed s end.
Proof.
  unfold commit. destruct (db_fault env (ops s)); intros [= <- <-]; [done|]. simpl.
  by destruct (aborted s) eqn:E.
Qed.

Lemma store_all_committed es sv acc s r s' : store_all es sv acc s = (r, s') → committed s' = committed s.
Proof.
  revert acc s. induction es as [|e es IH]; intros acc s; simpl; [by intros [= _ <-]|].
  intros [(m & s1 & E1 & E2)|(er & E1 & _)]%bind_inv; apply store_event_outcome in E1 as [C1 _]; [|done].
  apply IH in E2. congruence.
Qed.

(** *** Without database failures *)

Definition succeeds {A} (m : M A) : Prop :=
  ∀ s, aborted s = false → ∃ x s', m s = (Ok x, s') ∧ aborted s' = false.

Lemma succeeds_bind {A C} (m : M A) (k : A → M C) : succeeds m → (∀ x, succeeds (k x)) → succeeds (m ≫= k).
Proof.
  intros Hm Hk s Hs. destruct (Hm s Hs) as (x & s1 & E1 & A1). destruct (Hk x s1 A1) as (y & s2 & E2 & A2).
  exists y, s2. split; [|done]. unfold mbind, M_bind. by rewrite E1.
Qed.

Lemma succeeds_ret {A} (x : A) : succeeds (mret x).
Proof. intros s ?. by exists x, s. Qed.

Lemma succeeds_modify f : (∀ s, aborted (f s) = aborted s) → succeeds (modify f).
Proof. intros Hf s Hs. exists (), (f s). by rewrite Hf. Qed.

Section Healthy.
Hypothesis no_fault : ∀ n, db_fault env n = None.

Lemma succeeds_exec : succeeds exec.
Proof. intros s Hs. exists (), (tick s). unfold exec. by rewrite Hs, no_fault. Qed.

Lemma succeeds_update f : succeeds (update f).
Proof. apply succeeds_bind; [apply succeeds_exec|]. intros _. by apply succeeds_modify. Qed.

Lemma succeeds_insert_addresses id ledger l : succeeds (insert_addresses id ledger l).
Proof.
  induction l as [|a l IH]; simpl; [apply succeeds_ret|].
  apply succeeds_bind; [apply succeeds_update|done].
Qed.

Lemma succeeds_track e ledger ts : succeeds (track_deployment e ledger ts).
Proof.
  unfold track_deployment. destruct (tracker_parse _ _ _ _ _) as [d|]; [|apply succeeds_ret].
  apply succeeds_bind; [apply succeeds_exec|]. intros _ s Hs. unfold mbind, M_bind, attempt.
  destruct (succeeds_update (λ db, with_contracts (upsert_contract d ledger ts (ev_tx_hash e) (contracts db)) db) s Hs)
    as (x & s1 & E & A1).
  unfold record_deployment. rewrite E. by apply succeeds_exec.
Qed.

Lemma succeeds_after_insert e ledger ts id : succeeds (after_insert e ledger ts id).
Proof.
  unfold after_insert. repeat (apply succeeds_bind; [|intros _]).
  - apply succeeds_insert_addresses.
  - by apply succeeds_modify.
  - apply succeeds_track.
  - by apply succeeds_modify.
  - unfold spawn_ledger_hash. repeat case_match; try apply succeeds_ret. by apply succeeds_modify.
Qed.
End Healthy.

(** *** The session filter *)

(** The session filter reports the event as seen in its ledger. *)
Definition remembers (e : SorobanEvent) (s : St) : Prop :=
  ∃ f, session_bloom s = Some f ∧
    (Bloom.check_and_set (ev_tx_hash e) (ev_contract_id e) (ev_event_type e) (ev_ledger e) f).1 = true.

Definition keeps_session {A} (m : M A) : Prop :=
  ∀ s r s', m s = (r, s') → session_bloom s' = session_bloom s.

Lemma session_bind {A C} (m : M A) (k : A → M C) :
  keeps_session m → (∀ x, keeps_session (k x)) → keeps_session (m ≫= k).
Proof.
  intros Hm Hk s r s' [(x & s1 & E1 & E2)|(e & E1 & ->)]%bind_inv; apply Hm in E1; [|done].
  apply Hk in E2. congruence.
Qed.
Lemma session_ret {A} (x : A) : keeps_session (mret x).
Proof. by intros s r s' [= _ <-]. Qed.
Lemma session_modify f : (∀ s, session_bloom (f s) = session_bloom s) → keeps_session (modify f).
Proof. by intros Hf s r s' [= _ <-]. Qed.
Lemma session_exec : keeps_session exec.
Proof. by intros s r s' (_ & _ & ? & _)%exec_inv. Qed.
Lemma session_update f : keeps_session (update f).
Proof. apply session_bind; [apply session_exec|]. intros _. by apply session_modify. Qed.

#[local] Hint Resolve session_bind session_ret session_modify session_exec session_update : session.

Lemma session_track e ledger ts : keeps_session (track_deployment e ledger ts).
Proof.
  unfold track_deployment. destruct (tracker_parse _ _ _ _ _) as [d|]; [|auto with session].
  apply session_bind; [auto with session|]. intros _ s r s' E.
  destruct (bind_inv _ _ _ _ _ E) as [(y & s2 & E3 & E4)|(er & E3 & _)]; unfold attempt in E3;
    destruct (record_deployment d ledger ts (ev_tx_hash e) s) as [r2 s2'] eqn:E5; [|done].
  injection E3 as <- <-. apply session_update in E5. rewrite <- E5. destruct r2; [by apply session_exec in E4|].
  unfold rollback_to in E4. by destruct (db_fault env (ops s2')); injection E4 as _ <-.
Qed.

Lemma session_after_insert e ledger ts id : keeps_session (after_insert e ledger ts id).
Proof.
  unfold after_insert. apply session_bind.
  { induction (extract_addresses env (event_data_of e)) as [|a l IH]; simpl; auto with session.
    apply session_bind; [apply session_update|auto]. }
  intros _. apply session_bind; [by apply session_modify|]. intros _.
  apply session_bind; [apply session_track|]. intros _.
  apply session_bind; [by apply session_modify|]. intros _.
  unfold spawn_ledger_hash. repeat case_match; auto with session. 
Qed.

Lemma session_content_duplicate fp : keeps_session (content_duplicate fp).
Proof.
  unfold content_duplicate. destruct (enable_content_dedup cfg); [|auto with session].
  apply session_bind; [|auto with session]. intros s r s'. unfold attempt, is_content_duplicate, pool_query.
  by destruct (db_fault env (ops s)); intros [= _ <-].
Qed.

Lemma session_insert c : keeps_session (insert_event c).
Proof.
  apply session_bind; [apply session_exec|]. intros _ s r s'. destruct (row_error c); [by intros [= _ <-]|].
  by case_bool_decide; intros [= _ <-].
Qed.

(** Everything after the session filter's own check. *)
Lemma session_rest e sv (s : St) r s' (b : bool) s1 :
  session_duplicate e s = (Ok b, s1) → store_event_in_tx e sv s = (r, s') →
  session_bloom s' = session_bloom s1.
Proof.
  intros E1 E. unfold store_event_in_tx in E.
  apply bind_inv in E as [(b' & s1' & E1' & E)|(er & E1' & _)]; rewrite E1 in E1'; [|done].
  injection E1' as <- <-. revert E.
  match goal with |- ?m s1 = _ → _ => assert (keeps_session m) as Hk; [|by intros ?%Hk] end.
  destruct b; [auto with session|].
  apply session_bind; [by intros ??? [= _ <-]|]. intros [|]; [auto with session|].
  destruct (tenant_rejects e); [auto with session|].
  destruct (negb _); [auto with session|]. destruct (i_max 64 <? _); [auto with session|].
  destruct (parse_from_rfc3339 env _) as [ts|]; [|by intros ??? [= _ <-]].
  apply session_bind; [apply session_content_duplicate|]. intros [|]; [auto with session|].
  apply session_bind; [by intros ??? E'; rewrite decode_answers in E'; injection E' as _ <-|]. intros dec.
  destruct (_ <? _)%nat; [auto with session|].
  apply session_bind; [apply session_insert|]. intros [id|]; [|auto with session].
  apply session_bind; [apply session_after_insert|auto with session].
Qed.

Lemma store_event_remembers `{!BloomLaws B} e sv s r s' f :
  session_bloom s = Some f → store_event_in_tx e sv s = (r, s') →
  Bloom.s_current_ledger f ≤ ev_ledger e → remembers e s'.
Proof.
  intros Hf E Hl. unfold remembers.
  destruct (Bloom.check_and_set (ev_tx_hash e) (ev_contract_id e) (ev_event_type e) (ev_ledger e) f)
    as [dup f1] eqn:Hc.
  rewrite (session_rest e sv s r s' dup (set_session (Some f1) s)); [|by unfold session_duplicate; rewrite Hf, Hc|done].
  exists f1. split; [done|].
  replace f1 with ((Bloom.check_and_set (ev_tx_hash e) (ev_contract_id e) (ev_event_type e) (ev_ledger e) f).2)
    by (by rewrite Hc).
  apply Bloom.check_and_set_repeat. rewrite Hc. simpl. revert Hc. unfold Bloom.check_and_set.
  destruct (_ <? _) eqn:El; destruct (bloom_check _ _); intros [= _ <-]; simpl; apply Z.ltb_lt in El || apply Z.ltb_ge in El; lia.
Qed.

(** A remembered event is skipped without a statement. *)
Lemma remembered_skips e sv s :
  remembers e s → ∃ s', store_event_in_tx e sv s = (Ok 0, s') ∧
    committed s' = committed s ∧ work s' = work s ∧ aborted s' = aborted s ∧ ops s' = ops s.
Proof.
  intros (f & Hf & Hc). unfold store_event_in_tx, mbind, M_bind, session_duplicate. rewrite Hf.
  destruct (Bloom.check_and_set _ _ _ _ f) as [dup f1]. simpl in Hc. subst. eauto 10.
Qed.

Lemma store_events_outcome es sv s r s' (E : store_events es sv s = (r, s')) :
  match r with
  | Ok n => ∃ rows, events (committed s') = events (committed s) ++ rows ∧ n = Z.of_nat (length rows) ∧
              rows_of es rows ∧ (unique_keys (committed s) → unique_keys (committed s'))
  | Err _ => committed s' = committed s
  end.
Proof.
  unfold store_events in E. destruct es as [|e es].
  { injection E as <- <-. exists []. rewrite app_nil_r. split_and!; try done.
    exists []. split; [done|constructor]. }
  apply bind_inv in E as [([] & s1 & E1 & E)|(er & E1 & ->)]; apply begin_inv in E1 as (C1 & _ & _ & R1); [|done].
  destruct R1 as [W1 A1].
  apply bind_inv in E as [(n & s2 & E2 & E)|(er & E2 & ->)].
  2: { apply store_all_committed in E2. congruence. }
  apply store_all_ok in E2 as (A2 & rows & (C2 & W2 & R2 & U2) & ->).
  apply bind_inv in E as [([] & s3 & E3 & E)|(er & E3 & ->)]; apply commit_inv in E3 as (_ & _ & C3);
    [|congruence].
  injection E as <- <-. rewrite A2, A1 in C3. exists rows. rewrite C3, W2, W1. split_and!; try done.
  unfold unique_keys in *. by rewrite W1 in U2.
Qed.

(** ** Properties *)

(** C7. [EventSink::store_events] is atomic: when it returns a count, the committed table has grown
    by exactly that many rows, those of some of the events in their order, and its keys are still
    unique if they were; when it fails, nothing is committed. *)
Theorem store_events_atomic es sv s r s' (E : store_events es sv s = (r, s')) :
  match r with
  | Ok n => ∃ rows, events (committed s') = events (committed s) ++ rows ∧ n = Z.of_nat (length rows) ∧
              rows_of es rows ∧ (unique_keys (committed s) → unique_keys (committed s'))
  | Err _ => committed s' = committed s
  end.
Proof. by apply store_events_outcome in E. Qed.

(** What [store_event_in_tx] asks of an event before the insert. *)
Definition answer (m : M bool) (s : St) : bool := match (m s).1 with Ok b => b | Err _ => false end.

Definition admits (e : SorobanEvent) (s : St) : Prop :=
  answer (session_duplicate e) s = false ∧ answer (bloom_hit e) s = false ∧ tenant_rejects e = false ∧
  Xdr.validate_event_data (from_json env) e = true ∧ ev_ledger e ≤ i_max 64 ∧
  (∃ ts, parse_from_rfc3339 env (ev_ledger_closed_at e) = Some ts) ∧
  answer (content_duplicate (compute_fingerprint (ev_tx_hash e) (ev_contract_id e) (ev_event_type e) (event_data_of e))) s = false ∧
  (String.length (to_json env (event_data_of e)) ≤ max_event_data_bytes cfg)%nat.

Lemma columns_data e ts dec : c_event_data (columns_of e ts dec) = event_data_of e.
Proof. unfold columns_of. by repeat case_match. Qed.
(** A peek in front of the rest: only its answer matters. *)
Lemma peek_step (m : M bool) (k : bool → M Z) s :
  peeks m → ∃ s1, same s s1 ∧ m s = (Ok (answer m s), s1) ∧ (m ≫= k) s = k (answer m s) s1.
Proof.
  intros Hm. destruct (m s) as [r s1] eqn:E. pose proof E as E'. apply Hm in E' as [[b ->] Hs].
  exists s1. unfold answer, mbind, M_bind. rewrite E. auto.
Qed.

Lemma insert_healthy e ts dec s (no_fault : ∀ n, db_fault env n = None) :
  aborted s = false →
  ((insert_event (columns_of e ts dec) ≫= λ inserted, match inserted with
    | None => mret 0
    | Some id => after_insert e (ev_ledger e) ts id ;; mret 1
    end) s).1 = match row_error (columns_of e ts dec) with
       | Some er => Err er
       | None => if decide (event_key e ∈ row_key <$> events (work s)) then Ok 0 else Ok 1
       end.
Proof.
  intros Hs. destruct (succeeds_exec no_fault s Hs) as (u & s1 & E1 & A1).
  pose proof E1 as E1'. apply exec_inv in E1' as (_ & W1 & _).
  unfold mbind at 1, M_bind at 1, insert_event at 1, mbind at 1, M_bind at 1. rewrite E1.
  destruct (row_error _) as [er|]; [done|]. rewrite key_of_columns, W1.
  case_decide as Hk; case_bool_decide; try done.
  set (s2 := set_work _ _).
  destruct (succeeds_after_insert no_fault e (ev_ledger e) ts (uuid env (ops s1)) s2 A1) as (x & s3 & E3 & _).
  unfold mbind, M_bind. by rewrite E3.
Qed.

Lemma answer_content_duplicate fp s1 s :
  committed s1 = committed s → ops s1 = ops s →
  answer (content_duplicate fp) s1 = answer (content_duplicate fp) s.
Proof.
  intros Hc Ho. unfold answer, content_duplicate. destruct (enable_content_dedup cfg); [|done].
  unfold mbind, M_bind, attempt, is_content_duplicate, pool_query, mret, M_ret. rewrite Hc, Ho.
  by destruct (db_fault env (ops s)).
Qed.

(** The number of the query for the ABI, and of the INSERT, of an event that is admitted in [s]. *)
Definition abi_step (s : St) : nat := if enable_content_dedup cfg then S (ops s) else ops s.
Definition insert_step (s : St) : nat := S (abi_step s).

(** The database takes the event's row, its key aside. *)
Definition acceptable (e : SorobanEvent) (s : St) : Prop :=
  ∀ ts, parse_from_rfc3339 env (ev_ledger_closed_at e) = Some ts →
    row_error (columns_of e ts (decoded_at (abi_step s) e)) = None.

Lemma content_duplicate_step fp s r s' :
  content_duplicate fp s = (r, s') → ops s' = abi_step s.
Proof.
  unfold content_duplicate, abi_step. destruct (enable_content_dedup cfg); [|by intros [= _ <-]].
  unfold mbind, M_bind, attempt, is_content_duplicate, pool_query, mret, M_ret.
  by destruct (db_fault env (ops s)); intros [= _ <-].
Qed.

(** What is left of [store_event_in_tx] for an event that is admitted, in the
    state at its INSERT. *)
Lemma admitted_inserts e sv s :
  admits e s →
  ∃ s1 ts, parse_from_rfc3339 env (ev_ledger_closed_at e) = Some ts ∧
    committed s1 = committed s ∧ work s1 = work s ∧ aborted s1 = aborted s ∧ ops s1 = insert_step s ∧
    store_event_in_tx e sv s =
      (inserted ← insert_event (columns_of e ts (decoded_at (abi_step s) e));
       match inserted with None => mret 0 | Some id => after_insert e (ev_ledger e) ts id ;; mret 1 end) s1.
Proof.
  intros (H1 & H2 & H3 & H4 & H5 & [ts H6] & H7 & H8). unfold store_event_in_tx.
  match goal with |- context [(_ ≫= ?k) s] =>
    destruct (peek_step _ k s (peeks_session_duplicate e)) as (s1 & Hs & E & ->) end.
  assert (bloom_filter s1 = bloom_filter s ∧ ops s1 = ops s) as [Hb Ho].
  { revert E. unfold session_duplicate. destruct (session_bloom s); [|by intros [= _ <-]].
    destruct (Bloom.check_and_set _ _ _ _ _). by intros [= _ <-]. }
  destruct Hs as (C1 & W1 & A1 & _). rewrite H1.
  match goal with |- context [(_ ≫= ?k) s1] =>
    destruct (peek_step _ k s1 (peeks_bloom_hit e)) as (s2 & _ & E2 & ->) end. injection E2 as <-.
  assert (answer (bloom_hit e) s1 = false) as -> by (rewrite <- H2; unfold answer, bloom_hit; by rewrite Hb).
  rewrite H3, H4, H6. cbn [negb]. rewrite (proj2 (Z.ltb_ge _ _) H5).
  set (fp := compute_fingerprint _ _ _ _) in *.
  match goal with |- context [(_ ≫= ?k) s1] =>
    destruct (peek_step _ k s1 (peeks_content_duplicate fp)) as (s3 & (C3 & W3 & A3 & _) & E3 & ->) end.
  rewrite (answer_content_duplicate fp s1 s), H7 by done.
  apply content_duplicate_step in E3. assert (abi_step s1 = abi_step s) as Ea by (unfold abi_step; by rewrite Ho).
  unfold mbind at 1, M_bind at 1. rewrite decode_answers, E3, Ea. rewrite (proj2 (Nat.ltb_ge _ _) H8).
  exists (tick s3), ts. split_and!; [done|cbn; congruence..| |done]. cbn. unfold insert_step. congruence.
Qed.

(** Only an admitted event is stored. *)
Lemma stored_admits e sv s : (store_event_in_tx e sv s).1 = Ok 1 → admits e s.
Proof.
  unfold store_event_in_tx, admits.
  match goal with |- context [(_ ≫= ?k) s] =>
    destruct (peek_step _ k s (peeks_session_duplicate e)) as (s1 & Hs & E & ->) end.
  assert (bloom_filter s1 = bloom_filter s ∧ ops s1 = ops s) as [Hb Ho].
  { revert E. unfold session_duplicate. destruct (session_bloom s); [|by intros [= _ <-]].
    destruct (Bloom.check_and_set _ _ _ _ _). by intros [= _ <-]. }
  destruct Hs as (C1 & W1 & A1 & _). destruct (answer (session_duplicate e) s); [done|].
  match goal with |- context [(_ ≫= ?k) s1] =>
    destruct (peek_step _ k s1 (peeks_bloom_hit e)) as (s2 & _ & E2 & ->) end. injection E2 as <-.
  assert (answer (bloom_hit e) s1 = answer (bloom_hit e) s) as -> by (unfold answer, bloom_hit; by rewrite Hb).
  destruct (answer (bloom_hit e) s); [done|]. destruct (tenant_rejects e); [done|].
  destruct (Xdr.validate_event_data _ e); [|done]. cbn [negb].
  destruct (Z.ltb_spec (i_max 64) (ev_ledger e)) as [|Hl]; [done|].
  destruct (parse_from_rfc3339 env _) as [ts|]; [|done]. set (fp := compute_fingerprint _ _ _ _).
  match goal with |- context [(_ ≫= ?k) s1] =>
    destruct (peek_step _ k s1 (peeks_content_duplicate fp)) as (s3 & _ & _ & ->) end.
  rewrite (answer_content_duplicate fp s1 s) by done. destruct (answer (content_duplicate fp) s); [done|].
  unfold mbind at 1, M_bind at 1. rewrite decode_answers.
  destruct (Nat.ltb_spec (max_event_data_bytes cfg) (String.length (to_json env (event_data_of e)))); [done|].
  intros _. eauto 15.
Qed.

(** *** A statement that fails *)

(** Statements are numbered upwards. *)
Definition counts {A} (m : M A) : Prop := ∀ s, (ops s ≤ ops (m s).2)%nat.

Lemma counts_bind {A C} (m : M A) (k : A → M C) : counts m → (∀ x, counts (k x)) → counts (m ≫= k).
Proof.
  intros Hm Hk s. specialize (Hm s). unfold mbind, M_bind. destruct (m s) as [[x|e] s1]; [|done].
  specialize (Hk x s1). cbn in Hm. lia.
Qed.
Lemma counts_ret {A} (x : A) : counts (mret x).
Proof. by intros s. Qed.
Lemma counts_modify f : (∀ s, ops (f s) = ops s) → counts (modify f).
Proof. intros Hf s. cbn. rewrite Hf. lia. Qed.
Lemma counts_exec : counts exec.
Proof. intros s. unfold exec. destruct (aborted s); [cbn; lia|]. destruct (db_fault env (ops s)); cbn; lia. Qed.
Lemma counts_update f : counts (update f).
Proof. apply counts_bind; [apply counts_exec|]. intros _. by apply counts_modify. Qed.
Lemma counts_attempt {A} (m : M A) : counts m → counts (attempt m).
Proof. intros Hm s. specialize (Hm s). unfold attempt. by destruct (m s). Qed.
Lemma counts_pool {A} (q : Db → A) : counts (pool_query q).
Proof. intros s. unfold pool_query. destruct (db_fault env (ops s)); cbn; lia. Qed.
Lemma counts_commit : counts commit.
Proof. intros s. unfold commit. destruct (db_fault env (ops s)); cbn; [lia|]. destruct (aborted s); cbn; lia. Qed.

#[local] Hint Resolve counts_bind counts_ret counts_modify counts_exec counts_update counts_attempt counts_pool : counts.

Lemma counts_track e ledger ts : counts (track_deployment e ledger ts).
Proof.
  unfold track_deployment. destruct (tracker_parse _ _ _ _ _) as [d|]; [|auto with counts].
  apply counts_bind; [auto with counts|]. intros _ s.
  refine (counts_bind _ _ _ _ s); [by apply counts_attempt, counts_update|]. intros [|er]; [auto with counts|].
  intros s1. unfold rollback_to. destruct (db_fault env (ops s1)); cbn; lia.
Qed.

Lemma counts_after_insert e ledger ts id : counts (after_insert e ledger ts id).
Proof.
  unfold after_insert. apply counts_bind.
  { induction (extract_addresses env (event_data_of e)) as [|a l IH]; simpl; auto with counts.
    apply counts_bind; [apply counts_update|auto]. }
  intros _. apply counts_bind; [by apply counts_modify|]. intros _.
  apply counts_bind; [apply counts_track|]. intros _. apply counts_bind; [by apply counts_modify|]. intros _.
  unfold spawn_ledger_hash. repeat case_match; auto with counts.
Qed.

Lemma counts_store_event e sv : counts (store_event_in_tx e sv).
Proof.
  unfold store_event_in_tx. apply counts_bind.
  { intros s. unfold session_duplicate. destruct (session_bloom s); [|done]. by destruct (Bloom.check_and_set _ _ _ _ _). }
  intros [|]; [auto with counts|]. apply counts_bind; [by intros s|]. intros [|]; [auto with counts|].
  destruct (tenant_rejects e); [auto with counts|]. destruct (negb _); [auto with counts|].
  destruct (i_max 64 <? _); [auto with counts|]. destruct (parse_from_rfc3339 env _) as [ts|]; [|by intros s].
  apply counts_bind.
  { unfold content_duplicate. destruct (enable_content_dedup cfg); [|auto with counts]. apply counts_bind; [|auto with counts].
    apply counts_attempt. intros s. by apply counts_pool. }
  intros [|]; [auto with counts|]. apply counts_bind; [intros s; rewrite decode_answers; cbn; lia|]. intros dec.
  destruct (_ <? _)%nat; [auto with counts|]. apply counts_bind.
  { apply counts_bind; [auto with counts|]. intros _ s. destruct (row_error _); [done|]. by case_bool_decide. }
  intros [id|]; [|auto with counts]. apply counts_bind; [apply counts_after_insert|auto with counts].
Qed.

(** The INSERT of an event fails: the statement does, or the table refuses the row. *)
Definition insert_fails (e : SorobanEvent) (s : St) : Prop :=
  is_Some (db_fault env (insert_step s)) ∨
  ∃ ts, parse_from_rfc3339 env (ev_ledger_closed_at e) = Some ts ∧
    is_Some (row_error (columns_of e ts (decoded_at (abi_step s) e))).

(** Then the transaction is aborted, by the statement of that number. *)
Lemma insert_fails_aborts e sv s :
  admits e s → insert_fails e s →
  let '(r, s') := store_event_in_tx e sv s in is_ok r = false ∧ aborted s' = true ∧ ops s' = S (insert_step s).
Proof.
  intros Ha Hf. destruct (admitted_inserts e sv s Ha) as (s1 & ts & Ht & _ & _ & _ & Ho & ->). rewrite <- Ho.
  unfold mbind at 1, M_bind at 1, insert_event, mbind, M_bind, exec. destruct (aborted s1) eqn:Hab; [done|].
  destruct (db_fault env (ops s1)) as [er|] eqn:Ef; [done|].
  destruct Hf as [[x Hx]|(ts' & Ht' & [er Her])]; [rewrite Ho in Ef; congruence|].
  replace ts' with ts in Her by congruence. by rewrite Her.
Qed.

(** C2. With the database healthy, an event is stored exactly when it passes every filter and check
    of the code, the table's constraints take its row, and its (transaction, contract, type) key is
    new to the transaction. *)
Theorem store_event_in_tx_stores_iff e sv s
    (no_fault : ∀ n, db_fault env n = None) (active : aborted s = false) :
  (store_event_in_tx e sv s).1 = Ok 1 ↔ admits e s ∧ acceptable e s ∧ event_key e ∉ row_key <$> events (work s).
Proof.
  assert (admits e s → ((store_event_in_tx e sv s).1 = Ok 1 ↔ acceptable e s ∧ event_key e ∉ row_key <$> events (work s))) as Hiff.
  { intros Ha. destruct (admitted_inserts e sv s Ha) as (s1 & ts & Ht & _ & W & A & _ & ->).
    rewrite insert_healthy by (done || congruence). rewrite W. unfold acceptable. rewrite Ht.
    destruct (row_error _) as [er|] eqn:Er; [split; [done|]; intros [H' _]; by rewrite (H' ts eq_refl) in Er|].
    case_decide; [split; [done|]; tauto|]. split; [|done]. intros _. split; [|done]. by intros ? [= <-]. }
  split; [|by intros [Ha ?]; apply Hiff]. intros E. pose proof (stored_admits _ _ _ E) as Ha. by split; [|apply Hiff].
Qed.

End Store.
(** ** A concrete instance *)

Definition demo_cfg : Config :=
  mkConfig false None ∅ false 3600 4096 false "mainnet" false.

(** Every value decodes, the closing time is always readable, and statement [n] fails with [fault n]. *)
Definition demo_env (fault : nat → option string) : Env :=
  mkEnv (λ _, true) (λ _, Some 1700000000000000) (λ s, s) (λ _, "{}"%string) (λ _, Err "off"%string)
    (λ _ _, None) (λ _ _, None) (λ _, None) (λ _, [("G"%string, 0)]) (λ _ _ _ _, None) (λ _ _, None) (λ _, "{}"%string)
    (λ _, None) Z.of_nat Z.of_nat fault.

Definition healthy : nat → option string := λ _, None.

Definition demo_event : SorobanEvent :=
  mkSorobanEvent None (Some "0219902325555200000-0000000001"%string)
    "CAAAAAAAAAAAAAAAAAAAAAAAAAAAAAAAAAAAAAAAAAAAAAAAAAAAAAAA" "contract"
    "00112233445566778899aabbccddeeff00112233445566778899aabbccddeeff" 51200000 "2024-01-01T00:00:00Z"
    None true (Object []) (Some []) None.

Definition empty_db : Db := mkDb [] [] ∅ None None.

Definition demo_state : St (B := gset string) :=
  mkSt empty_db empty_db false 0 0 (Some (Bloom.mkSession ∅ 0 100 (F64.lit 1 1000))) None None [].

Lemma store_events_atomic_witness :
  let '(r, s') := store_events demo_cfg (demo_env healthy) [demo_event; demo_event] 1 demo_state in
  r = Ok 1 ∧
  match r with
  | Ok n => ∃ rows, events (committed s') = events (committed demo_state) ++ rows ∧ n = Z.of_nat (length rows) ∧
              rows_of demo_cfg (demo_env healthy) [demo_event; demo_event] rows ∧
              (unique_keys (committed demo_state) → unique_keys (committed s'))
  | Err _ => committed s' = committed demo_state
  end.
Proof.
  destruct (store_events _ _ _ _ _) as [r s'] eqn:E. split.
  - assert (r = (store_events demo_cfg (demo_env healthy) [demo_event; demo_event] 1 demo_state).1) as ->
      by (by rewrite E). vm_compute. reflexivity.
  - exact (store_events_atomic demo_cfg (demo_env healthy) [demo_event; demo_event] 1 demo_state r s' E).
Defined.

Lemma store_event_in_tx_stores_iff_witness :
  (store_event_in_tx demo_cfg (demo_env healthy) demo_event 1 demo_state).1 = Ok 1 ↔
  admits demo_cfg (demo_env healthy) demo_event demo_state ∧
  acceptable demo_cfg (demo_env healthy) demo_event demo_state ∧
  event_key demo_event ∉ row_key <$> events (work demo_state).
Proof.
  apply (store_event_in_tx_stores_iff demo_cfg (demo_env healthy) demo_event 1 demo_state); reflexivity.
Defined.

End EventStore.
