(* ===== verification/Indexer.v ===== *)
(** indexer.rs: the polling loop over the RPC ([fetch_and_store_events]),
    its page transactions, cursor-expiry handling and the outer [run_loop].

    The RPC is the parameter [get_events]: its answer may depend on the number
    of the call.  The loops take fuel; [fetch_terminates] and
    [fetch_never_returns] say when some fuel is enough and when none is. *)

From S2P Require Import Prelude F64 Model CursorExpiry SseRing Bloom Xdr EventStore.

Module Indexer.

Import EventStore.

(** ** [lock_key_for_chain] *)

Definition INDEXER_LOCK_KEY : Z := 0x536f726f62616e50.

Definition fnv_step (hash : Z) (byte : ascii) : Z :=
  mul_u 64 (Z.lxor hash (Z.of_nat (nat_of_ascii byte))) 0x100000001b3.

Definition lock_key_for_chain (chain_id : string) : Z :=
  if String.eqb chain_id "mainnet" then INDEXER_LOCK_KEY
  else Z.lxor (wrap_i 64 (foldl fnv_step 0xcbf29ce484222325 (String.list_ascii_of_string chain_id)))
              INDEXER_LOCK_KEY.

(** ** The request of [SorobanRpcClient::get_events] *)

Definition get_events_params (start_ledger : Z) (cursor : option string) (event_types : list string) :
    Value :=
  let filters := Array ((λ t, Object [("type"%string, VString t)]) <$> event_types) in
  let limit := ("limit"%string, Number (PosInt 100)) in
  match cursor with
  | Some c => Object [("filters"%string, filters);
                      ("pagination"%string, Object [("cursor"%string, VString c); limit])]
  | None => Object [("filters"%string, filters); ("pagination"%string, Object [limit]);
                    ("startLedger"%string, Number (PosInt start_ledger))]
  end.

(** ** Types *)

Inductive IndexerFetchError : Type :=
| Rpc (msg : string)
| DbConnection (e : string).

Record FetchResult : Type := mkFetch { next_ledger : Z; latest_ledger : Z }.

(** The counters of the cycle summary. *)
Record Stats : Type := mkStats {
  fetched : nat;
  inserted : Z;
  skipped_duplicate : nat;
  skipped_out_of_order : nat;
  pages : nat;
}.

Record IndexerConfig : Type := mkIndexerConfig {
  store_cfg : Config;
  indexer_ignore_checkpoint : bool;
  rpc_max_events_per_page : nat;
  indexer_poll_interval_ms : Z;
  indexer_error_backoff_ms : Z;
  start_ledger_cfg : Z;
  (** [event_tx] is set. *)
  broadcasting : bool;
  (** The publishers set, among Kinesis, Pub/Sub, SQS and Event Hubs, in the order they are called. *)
  publishers : list string;
}.

Section Indexer.
Context {B : Type} `{BloomFilter B}.
Variable cfg : IndexerConfig.
Variable env : Env.
(** The [n]-th [getEvents] call. *)
Variable get_events : nat → Z → option string → result GetEventsResult string.
(** The ids the ring buffer draws. *)
Variable sse_uuid : nat → Z.

(** The process around the store. *)
Record Proc : Type := mkProc {
  store : St (B := B);
  rpc_calls : nat;
  slept : list Z;
  ring : option SseRing.SseRingBuffer;
  sent : list SorobanEvent;
  published : list (string * SorobanEvent);
}.

Definition set_store (s : St) (p : Proc) : Proc :=
  mkProc s (rpc_calls p) (slept p) (ring p) (sent p) (published p).
Definition sleep (ms : Z) (p : Proc) : Proc :=
  mkProc (store p) (rpc_calls p) (slept p ++ [ms]) (ring p) (sent p) (published p).
Definition called (p : Proc) : Proc :=
  mkProc (store p) (S (rpc_calls p)) (slept p) (ring p) (sent p) (published p).

(** Run a store operation. *)
Definition run {A} (m : M A) (p : Proc) : result A string * Proc :=
  let '(r, s) := m (store p) in (r, set_store s p).

(** ** Broadcasting and publishing a stored event *)

Definition broadcast (e : SorobanEvent) (p : Proc) : Proc :=
  if broadcasting cfg then
    let e := if multi_tenant (store_cfg cfg) then set_ev_tenant (indexer_tenant_id (store_cfg cfg)) e else e in
    match ring p with
    | Some r =>
        let '(eid, r) := SseRing.push (sse_uuid (length (sent p))) e r in
        mkProc (store p) (rpc_calls p) (slept p) (Some r) (sent p ++ [set_ev_id (Some eid) e]) (published p)
    | None => mkProc (store p) (rpc_calls p) (slept p) None (sent p ++ [e]) (published p)
    end
  else p.

Definition publish (e : SorobanEvent) (p : Proc) : Proc :=
  mkProc (store p) (rpc_calls p) (slept p) (ring p) (sent p)
    (published p ++ ((λ sink, (sink, e)) <$> publishers cfg)).

(** ** One page *)

Definition add_inserted (n : Z) (st : Stats) : Stats :=
  mkStats (fetched st) (inserted st + n) (skipped_duplicate st) (skipped_out_of_order st) (pages st).
Definition add_duplicate (st : Stats) : Stats :=
  mkStats (fetched st) (inserted st) (S (skipped_duplicate st)) (skipped_out_of_order st) (pages st).
Definition add_out_of_order (st : Stats) : Stats :=
  mkStats (fetched st) (inserted st) (skipped_duplicate st) (S (skipped_out_of_order st)) (pages st).
Definition add_page (n : nat) (st : Stats) : Stats :=
  mkStats (fetched st + n) (inserted st) (skipped_duplicate st) (skipped_out_of_order st) (S (pages st)).

(** The body of the [for event in result.events] loop. *)
Definition process_event (start_ledger schema_version : Z) (e : SorobanEvent) (acc : Proc * Stats) :
    Proc * Stats :=
  let '(p, st) := acc in
  if ev_ledger e <? start_ledger then (p, add_out_of_order st)
  else match run (store_event_in_tx (store_cfg cfg) env e schema_version) p with
  | (Ok rows, p) =>
      let st := add_inserted rows st in
      if rows =? 0 then (p, add_duplicate st) else (publish e (broadcast e p), st)
  | (Err _, p) => (p, st)
  end.

Definition process_events (start_ledger schema_version : Z) (es : list SorobanEvent) (acc : Proc * Stats) :
    Proc * Stats := foldl (λ acc e, process_event start_ledger schema_version e acc) acc es.

(** [let _ = op.await]. *)
Definition ignoring {A} (m : M A) (p : Proc) : Proc := (run m p).2.

(** Store the events of one response, with the checkpoint, in one transaction. *)
Definition store_page (start_ledger : Z) (cursor : option string) (res : GetEventsResult) (p : Proc)
    (st : Stats) : result Stats string * Proc :=
  let es := take (rpc_max_events_per_page cfg) (ger_events res) in
  let st := add_page (length es) st in
  let schema_version := wrap_i 32 (default 1 (ger_protocol_version res)) in
  match run (begin env) p with
  | (Err e, p) => (Err e, p)
  | (Ok _, p) =>
      let '(p, st) := process_events start_ledger schema_version es (p, st) in
      let p := match coalesce (ger_rpc_cursor res) cursor with
               | Some c => ignoring (save_checkpoint env c) p
               | None => p
               end in
      let p := ignoring (save_indexer_state env start_ledger (ger_latest_ledger res)) p in
      match run (commit env) p with
      | (Err e, p) => (Err e, p)
      | (Ok _, p) => (Ok st, p)
      end
  end.

(** ** [fetch_and_store_events] *)

Definition next_of (start_ledger latest : Z) : Z :=
  if start_ledger <? latest then add_u 64 latest 1 else start_ledger.

Fixpoint fetch_loop (fuel : nat) (start_ledger : Z) (cursor : option string)
    (backoff : CursorExpiry.CursorExpiryBackoff) (p : Proc) (st : Stats) :
    option (result (FetchResult * Stats) IndexerFetchError * Proc) :=
  match fuel with
  | O => None
  | S fuel =>
      let answer := get_events (rpc_calls p) start_ledger cursor in
      let p := called p in
      match answer with
      | Err msg =>
          if CursorExpiry.is_cursor_expiry_error msg then
            if CursorExpiry.should_fallback backoff then
              fetch_loop fuel start_ledger None (CursorExpiry.reset backoff) (sleep 100 p) st
            else
              let '(delay, backoff) := CursorExpiry.next_backoff backoff in
              fetch_loop fuel start_ledger cursor backoff (sleep delay p) st
          else Some (Err (Rpc msg), p)
      | Ok res =>
          match store_page start_ledger cursor res p st with
          | (Err e, p) => Some (Err (DbConnection e), p)
          | (Ok st, p) =>
              match ger_rpc_cursor res with
              | Some c => fetch_loop fuel start_ledger (Some c) (CursorExpiry.reset backoff) p st
              | None =>
                  let latest := ger_latest_ledger res in
                  Some (Ok (mkFetch (next_of start_ledger latest) latest, st), p)
              end
          end
      end
  end.

Definition fetch_and_store_events (fuel : nat) (start_ledger : Z) (p : Proc) :=
  let '(cursor, p) :=
    if indexer_ignore_checkpoint cfg then (None, p)
    else match run (load_checkpoint env) p with (Ok c, p) => (c, p) | (Err _, p) => (None, p) end in
  fetch_loop fuel start_ledger cursor CursorExpiry.new p (mkStats 0 0 0 0 0).

(** ** [run_loop] *)

(** [current_ledger], [consecutive_db_errors] (a [u32]), and the [IndexerState] shown by /status. *)
Record RunState : Type := mkRun {
  current_ledger : Z;
  consecutive_db_errors : Z;
  state_current : Z;
  state_latest : Z;
}.

(** Restoring the persisted state. *)
Definition restore (persisted : option (Z * Z)) (rs : RunState) : RunState :=
  match persisted with
  | Some (c, l) =>
      if 0 <? c then mkRun (if current_ledger rs =? 0 then c else current_ledger rs)
                       (consecutive_db_errors rs) c l
      else rs
  | None => rs
  end.

(** The wait for the first [getLatestLedger]: the ledger, and the delays slept. *)
Fixpoint wait_latest (fuel : nat) (get_latest : nat → result Z string) (n : nat) (backoff_ms : Z) :
    option (Z * list Z) :=
  match fuel with
  | O => None
  | S fuel =>
      match get_latest n with
      | Ok ledger => Some (ledger, [])
      | Err _ => let! (l, ds) := wait_latest fuel get_latest (S n) (Z.min (backoff_ms * 2) 60000) in
                 Some (l, backoff_ms :: ds)
      end
  end.

Definition start (fuel : nat) (get_latest : nat → result Z string) (persisted : option (Z * Z)) :
    option (RunState * list Z) :=
  let rs := restore persisted (mkRun (start_ledger_cfg cfg) 0 0 0) in
  if current_ledger rs =? 0 then
    let! (l, ds) := wait_latest fuel get_latest 0 1000 in
    Some (mkRun l 0 l (state_latest rs), ds)
  else Some (rs, []).

(** One turn of the loop on the outcome of the fetch (and, on an idle cycle, of
    [get_latest_ledger]); [None] is the exit on shutdown. Returns the milliseconds slept. *)
Definition run_iteration (shutdown paused : bool) (fetch : result FetchResult IndexerFetchError)
    (latest : result Z string) (rs : RunState) : option (RunState * list Z) :=
  if shutdown then None
  else if paused then Some (rs, [500])
  else Some match fetch with
  | Ok r =>
      if current_ledger rs <? next_ledger r then
        let c := next_ledger r in
        (mkRun c 0 c (if c <? latest_ledger r then latest_ledger r else state_latest rs), [])
      else
        (mkRun (current_ledger rs) 0 (state_current rs)
           (match latest with Ok l => l | Err _ => state_latest rs end), [indexer_poll_interval_ms cfg])
  | Err (DbConnection _) =>
      let n := add_u 32 (consecutive_db_errors rs) 1 in
      (mkRun (current_ledger rs) n (state_current rs) (state_latest rs),
       [(if 5 <=? n then 60 else 10) * 1000])
  | Err (Rpc _) => (rs, [indexer_error_backoff_ms cfg])
  end.

(** ** Lemmas *)

Abbreviation fetchable start_ledger es := (List.filter (λ e, start_ledger <=? ev_ledger e) es).

(** What processing events does to the open transaction: it is aborted, or has grown by rows of
    the events at or after [start_ledger]. *)
Definition page_effect (es : list SorobanEvent) (s s' : St (B := B)) : Prop :=
  committed s' = committed s ∧
  (aborted s' = true ∨
   aborted s = false ∧ aborted s' = false ∧ ∃ rows, grown (store_cfg cfg) env es rows s s').

Lemma page_effect_nil s : page_effect [] s s.
Proof.
  split; [done|]. destruct (aborted s) eqn:E; [by left|right]. split_and!; try done.
  exists []. by apply grown_refl.
Qed.

Lemma page_effect_trans e es s1 s2 s3 :
  page_effect [e] s1 s2 → page_effect es s2 s3 → page_effect (e :: es) s1 s3.
Proof.
  intros (C1 & R1) (C2 & R2). split; [congruence|].
  destruct R2 as [?|(A2 & A2' & rows2 & G2)]; [by left|].
  destruct R1 as [?|(A1 & A1' & rows1 & G1)]; [congruence|]. right.
  split_and!; try done. exists (rows1 ++ rows2). by eapply grown_trans.
Qed.

Lemma store_broadcast e p : store (broadcast e p) = store p.
Proof.
  unfold broadcast. destruct (broadcasting cfg); [|done]. destruct (ring p); [|done].
  by destruct (SseRing.push _ _ _).
Qed.

Lemma run_store {A} (m : M A) p : store (run m p).2 = (m (store p)).2 ∧ (run m p).1 = (m (store p)).1.
Proof. unfold run. by destruct (m (store p)). Qed.

Lemma process_event_store start sv e p st :
  store (process_event start sv e (p, st)).1 =
    if ev_ledger e <? start then store p
    else (store_event_in_tx (store_cfg cfg) env e sv (store p)).2.
Proof.
  unfold process_event. destruct (_ <? _); [done|].
  destruct (run_store (store_event_in_tx (store_cfg cfg) env e sv) p) as [<- Hr].
  destruct (run _ p) as [[n|er] p'] eqn:E; simpl; [|done].
  destruct (n =? 0); [done|]. simpl. by rewrite store_broadcast.
Qed.

Lemma store_event_page_effect e sv s :
  page_effect [e] s (store_event_in_tx (store_cfg cfg) env e sv s).2.
Proof.
  destruct (store_event_in_tx (store_cfg cfg) env e sv s) as [r s'] eqn:E.
  apply store_event_outcome in E. simpl. pose proof E as [C _]. split; [done|].
  destruct r as [n|er].
  - apply outcome_grown in E as (A & rows & G & _).
    destruct (aborted s) eqn:Ea; rewrite A; [by left|right]. eauto.
  - destruct E as [_ [A|[A W]]]; [by left|].
    destruct (aborted s) eqn:Ea; rewrite A; [by left|right]. split_and!; try done.
    exists []. by apply grown_refl.
Qed.

Lemma process_events_effect start sv es p st :
  page_effect (fetchable start es) (store p) (store (process_events start sv es (p, st)).1).
Proof.
  unfold process_events. revert p st. induction es as [|e es IH]; intros p st; [apply page_effect_nil|].
  cbn [foldl]. destruct (process_event start sv e (p, st)) as [p1 st1] eqn:E.
  assert (store p1 = store (process_event start sv e (p, st)).1) as Hp by (by rewrite E).
  rewrite process_event_store in Hp. specialize (IH p1 st1). simpl.
  destruct (Z.ltb_spec (ev_ledger e) start).
  - rewrite (proj2 (Z.leb_gt _ _)) by lia. by rewrite <- Hp.
  - rewrite (proj2 (Z.leb_le _ _)) by lia. eapply page_effect_trans; [|done].
    rewrite Hp. apply store_event_page_effect.
Qed.

Lemma ignoring_keeps {A} (m : M A) p es s :
  keeps m → page_effect es s (store p) → page_effect es s (store (ignoring m p)).
Proof.
  intros Hm (C & R). unfold ignoring. rewrite (proj1 (run_store m p)).
  destruct (m (store p)) as [r s'] eqn:E. apply Hm in E as (C' & R'). simpl.
  split; [congruence|]. destruct r as [x|er]; [|by left]. destruct R' as [A' W'].
  destruct R as [Ab|(A0 & Ab & rows & (C1 & W1 & R1 & U1))]; [left; congruence|right].
  split_and!; try congruence. exists rows. split; [congruence|]. split; [congruence|]. split; [done|].
  unfold unique_keys in *. by rewrite W'.
Qed.

(** The committed table after a page: unchanged, or grown by rows of the page. *)
Definition committed_grown (start : Z) (d d' : Db) : Prop :=
  ∃ rows, events d' = events d ++ rows ∧
    Forall (λ r, ∃ e, row_of (store_cfg cfg) env e r ∧ start ≤ ev_ledger e) rows ∧
    (unique_keys d → unique_keys d').

Lemma committed_grown_refl start d d' : events d' = events d → committed_grown start d d'.
Proof. intros E. exists []. rewrite app_nil_r. split_and!; [done|done|]. unfold unique_keys. by rewrite E. Qed.

Lemma committed_grown_trans start d1 d2 d3 :
  committed_grown start d1 d2 → committed_grown start d2 d3 → committed_grown start d1 d3.
Proof.
  intros (r1 & E1 & F1 & U1) (r2 & E2 & F2 & U2). exists (r1 ++ r2).
  split_and!; [by rewrite E2, E1, (assoc_L (++))|by apply Forall_app|auto].
Qed.

Lemma rows_of_fetchable start es rows :
  rows_of (store_cfg cfg) env (fetchable start es) rows →
  Forall (λ r, ∃ e, row_of (store_cfg cfg) env e r ∧ start ≤ ev_ledger e) rows.
Proof.
  intros (es' & Hs & F).
  assert (Forall (λ e, start ≤ ev_ledger e) es') as Hf.
  { apply Forall_forall. intros e He. eapply elem_of_sublist in He; [|exact Hs].
    apply list_elem_of_In, filter_In in He as [_ He]. by apply Z.leb_le. }
  clear Hs. induction F as [|e r es' rows He F IH]; constructor; apply Forall_cons in Hf as [??]; eauto.
Qed.

Lemma store_page_grown start cursor res p st r p' :
  store_page start cursor res p st = (r, p') →
  committed_grown start (committed (store p)) (committed (store p')).
Proof.
  unfold store_page. set (es := take _ _).
  destruct (run_store (begin env) p) as [Hb Hr]. destruct (run (begin env) p) as [rb pb]. simpl in *.
  destruct (begin env (store p)) as [rb' sb] eqn:Eb. simpl in *. subst rb.
  apply begin_inv in Eb as (C1 & _ & _ & R1).
  destruct rb' as [u|er]; [|intros [= _ <-]; apply committed_grown_refl; congruence]. destruct R1 as [W1 A1].
  destruct (process_events start _ es (pb, _)) as [p1 st1] eqn:E1.
  match type of E1 with process_events _ ?sv _ (_, ?st0) = _ =>
    pose proof (process_events_effect start sv es pb st0) as G1 end. rewrite E1 in G1. simpl in G1.
  set (p2 := match coalesce _ _ with Some c => _ | None => _ end).
  assert (page_effect (fetchable start es) (store pb) (store p2)) as G2.
  { unfold p2. destruct (coalesce _ _); [|done]. apply ignoring_keeps; [|done]. by apply keeps_update. }
  set (p3 := ignoring _ p2).
  assert (page_effect (fetchable start es) (store pb) (store p3)) as (C3 & R3).
  { apply ignoring_keeps; [|done]. by apply keeps_update. }
  destruct (run_store (commit env) p3) as [Hc Hc1]. destruct (run (commit env) p3) as [rc pc]. simpl in *.
  destruct (commit env (store p3)) as [rc' sc] eqn:Ec. simpl in *. subst rc sc.
  apply commit_inv in Ec as (_ & _ & C4). intros E.
  assert (store p' = store pc) as -> by (destruct rc'; by injection E as _ <-).
  rewrite C4. destruct rc'; [|apply committed_grown_refl; congruence].
  destruct R3 as [A3|(_ & A3 & rows & (_ & W3 & Rw & U3))]; rewrite A3; [apply committed_grown_refl; congruence|].
  exists rows. rewrite W3, Hb, W1. split_and!; [done|by eapply rows_of_fetchable|].
  unfold unique_keys in *. by rewrite Hb, W1 in U3.
Qed.

Lemma store_page_calls start cursor res p st r p' :
  store_page start cursor res p st = (r, p') → rpc_calls p' = rpc_calls p.
Proof.
  assert (∀ A (m : M A) q, rpc_calls (run m q).2 = rpc_calls q) as Hrun.
  { intros A m q. unfold run. by destruct (m (store q)). }
  assert (∀ sv e acc, rpc_calls (process_event start sv e acc).1 = rpc_calls acc.1) as Hev.
  { intros sv e [q t]. unfold process_event. destruct (_ <? _); [done|].
    specialize (Hrun _ (store_event_in_tx (store_cfg cfg) env e sv) q).
    destruct (run _ q) as [[n|er] q']; simpl in *; [|done]. destruct (n =? 0); [done|]. simpl.
    unfold broadcast. repeat case_match; done. }
  assert (∀ sv es acc, rpc_calls (process_events start sv es acc).1 = rpc_calls acc.1) as Hes.
  { intros sv es. unfold process_events. induction es as [|e es IH]; intros acc; simpl; [done|]. by rewrite IH, Hev. }
  unfold store_page. pose proof (Hrun _ (begin env) p) as Hb.
  destruct (run (begin env) p) as [[u|er] pb]; simpl in Hb; [|by intros [= _ <-]].
  match goal with |- context [process_events start ?sv ?es ?acc] =>
    specialize (Hes sv es acc); destruct (process_events start sv es acc) as [p1 st1] end. simpl in Hes.
  set (p2 := match coalesce _ _ with Some c => _ | None => _ end).
  assert (rpc_calls p2 = rpc_calls p1) as H2 by (unfold p2, ignoring; by destruct (coalesce _ _)).
  set (p3 := ignoring _ p2). assert (rpc_calls p3 = rpc_calls p2) as H3 by apply Hrun.
  pose proof (Hrun _ (commit env) p3) as Hc. destruct (run (commit env) p3) as [[|] pc]; simpl in *;
    intros [= _ <-]; congruence.
Qed.

(** The ledger after a cycle: one past the latest when that is past the start
    (and not the last that a [u64] has), otherwise the start again. *)
Definition moves_on (start latest next : Z) : Prop :=
  (latest ≤ start → next = start) ∧ (start < latest → latest < u_max 64 → next = latest + 1).

Lemma next_of_moves start latest : 0 ≤ start → moves_on start latest (next_of start latest).
Proof.
  intros H0. unfold moves_on, next_of. split; intros Hl; [by rewrite (proj2 (Z.ltb_ge _ _)) by lia|].
  intros Hm. rewrite (proj2 (Z.ltb_lt _ _)) by lia. unfold add_u, wrap_u. apply Z.mod_small. unfold u_max in Hm. lia.
Qed.

(** The cycle ended on an answer that is a last page. *)
Definition last_answer (start : Z) (p' : Proc) (fr : FetchResult) : Prop :=
  ∃ n c res, rpc_calls p' = S n ∧ get_events n start c = Ok res ∧ ger_rpc_cursor res = None ∧
    latest_ledger fr = ger_latest_ledger res.

Lemma fetch_loop_grown fuel start cursor backoff p st r p' :
  0 ≤ start → fetch_loop fuel start cursor backoff p st = Some (r, p') →
  committed_grown start (committed (store p)) (committed (store p')) ∧
  match r with
  | Ok (fr, _) => last_answer start p' fr ∧ moves_on start (latest_ledger fr) (next_ledger fr)
  | Err _ => True
  end.
Proof.
  intros H0.
  revert cursor backoff p st. induction fuel as [|fuel IH]; intros cursor backoff p st; [done|].
  cbn [fetch_loop]. destruct (get_events _ _ _) as [res|msg] eqn:Ea.
  - destruct (store_page start cursor res (called p) st) as [[st1|er] p1] eqn:E; pose proof E as Ec;
      apply store_page_grown in E; apply store_page_calls in Ec.
    + destruct (ger_rpc_cursor res) as [c|] eqn:Ed.
      * intros [G Hr]%IH. split; [|done]. by eapply committed_grown_trans.
      * intros [= <- <-]. split; [done|]. split; [|by apply next_of_moves]. by exists (rpc_calls p), cursor, res.
    + intros [= <- <-]. done.
  - destruct (CursorExpiry.is_cursor_expiry_error msg).
    + destruct (CursorExpiry.should_fallback backoff); [intros [G Hr]%IH; done|].
      destruct (CursorExpiry.next_backoff backoff). intros [G Hr]%IH; done.
    + intros [= <- <-]. split; [|done]. by apply committed_grown_refl.
Qed.

Lemma load_cursor_proc p c p1 :
  (if indexer_ignore_checkpoint cfg then (None, p)
   else match run (load_checkpoint env) p with (Ok c, p) => (c, p) | (Err _, p) => (None, p) end) = (c, p1) →
  rpc_calls p1 = rpc_calls p ∧ committed (store p1) = committed (store p).
Proof.
  destruct (indexer_ignore_checkpoint cfg); [by intros [= _ <-]|].
  unfold run, load_checkpoint, mbind, M_bind, attempt, pool_query, mret, M_ret.
  by destruct (db_fault env _); intros [= _ <-].
Qed.

Lemma fetch_loop_terminates k start cursor backoff p st :
  (∀ c, match get_events (rpc_calls p + k) start c with
        | Ok res => ger_rpc_cursor res = None
        | Err msg => CursorExpiry.is_cursor_expiry_error msg = false
        end) →
  is_Some (fetch_loop (S k) start cursor backoff p st).
Proof.
  revert cursor backoff p st. induction k as [|k IH]; intros cursor backoff p st Hk.
  - rewrite Nat.add_0_r in Hk. specialize (Hk cursor). cbn [fetch_loop].
    destruct (get_events _ _ _) as [res|msg]; [|by rewrite Hk].
    destruct (store_page _ _ _ _ _) as [[|] ?]; rewrite ?Hk; done.
  - assert (∀ p1 cursor backoff st, rpc_calls p1 = S (rpc_calls p) →
      is_Some (fetch_loop (S k) start cursor backoff p1 st)) as Hgo.
    { intros p1 c b st1 H1. apply IH. intros c'. rewrite H1.
      replace (S (rpc_calls p) + k)%nat with (rpc_calls p + S k)%nat by lia. apply Hk. }
    clear IH Hk. remember (S k) as k'. cbn [fetch_loop].
    destruct (get_events _ _ _) as [res|msg].
    + destruct (store_page _ _ _ _ _) as [[st1|er] p1] eqn:E; [|done].
      destruct (ger_rpc_cursor res); [|done]. apply Hgo. by apply store_page_calls in E.
    + destruct (CursorExpiry.is_cursor_expiry_error msg); [|done].
      destruct (CursorExpiry.should_fallback backoff); [by apply Hgo|].
      destruct (CursorExpiry.next_backoff backoff). by apply Hgo.
Qed.

Lemma fetch_loop_stuck fuel start cursor backoff p st :
  (∀ n c, ∃ msg, get_events n start c = Err msg ∧ CursorExpiry.is_cursor_expiry_error msg = true) →
  fetch_loop fuel start cursor backoff p st = None.
Proof.
  intros Hx. revert cursor backoff p st. induction fuel as [|fuel IH]; intros cursor backoff p st; [done|].
  cbn [fetch_loop]. destruct (Hx (rpc_calls p) cursor) as (msg & -> & ->).
  destruct (CursorExpiry.should_fallback backoff); [apply IH|].
  destruct (CursorExpiry.next_backoff backoff). apply IH.
Qed.

(** *** The session filter across a page *)

Lemma session_ignoring {A} (m : M A) p : keeps_session m → session_bloom (store (ignoring m p)) = session_bloom (store p).
Proof.
  intros Hm. unfold ignoring. rewrite (proj1 (run_store m p)).
  destruct (m (store p)) as [r s'] eqn:E. by apply Hm in E.
Qed.

(** [store_page] in terms of the transaction after the events. *)
Lemma store_page_inv start cursor res p st r p' pb :
  store_page start cursor res p st = (r, p') → run (begin env) p = (Ok (), pb) →
  ∃ sv st0 s3, let es := take (rpc_max_events_per_page cfg) (ger_events res) in
    let s2 := store (process_events start sv es (pb, st0)).1 in
    sv = wrap_i 32 (default 1 (ger_protocol_version res)) ∧ st0 = add_page (length es) st ∧
    session_bloom s3 = session_bloom s2 ∧
    (∀ es' s, page_effect es' s s2 → page_effect es' s s3) ∧
    store p' = (commit env s3).2 ∧ is_ok r = is_ok (commit env s3).1.
Proof.
  unfold store_page. intros E Hbegin. rewrite Hbegin in E. revert E. set (es := take _ _).
  set (sv := wrap_i 32 _). set (st0 := add_page _ _).
  destruct (process_events start sv es (pb, st0)) as [p1 st1] eqn:E1.
  set (p2 := match coalesce _ _ with Some c => _ | None => _ end).
  set (p3 := ignoring _ p2). intros E. exists sv, st0, (store p3). rewrite E1. cbn [fst].
  split_and!; try done.
  - unfold p3. rewrite session_ignoring by apply session_update. unfold p2.
    destruct (coalesce _ _); [|done]. apply session_ignoring, session_update.
  - intros es' s G. apply ignoring_keeps; [by apply keeps_update|]. unfold p2.
    destruct (coalesce _ _); [|done]. apply ignoring_keeps; [by apply keeps_update|done].
  - destruct (run_store (commit env) p3) as [<- _]. destruct (run (commit env) p3) as [[|] pc];
      by injection E as _ <-.
  - destruct (run_store (commit env) p3) as [_ <-]. destruct (run (commit env) p3) as [[|] pc];
      by injection E as <- _.
Qed.

Lemma process_one start sv e p st :
  start ≤ ev_ledger e →
  store (process_events start sv [e] (p, st)).1 = (store_event_in_tx (store_cfg cfg) env e sv (store p)).2.
Proof.
  intros Hl. unfold process_events. cbn [foldl]. rewrite process_event_store.
  by rewrite (proj2 (Z.ltb_ge _ _) Hl).
Qed.

Lemma commit_session (s : St (B := B)) : session_bloom (commit env s).2 = session_bloom s.
Proof. destruct (commit env s) as [r s'] eqn:E. by apply commit_inv in E as (_ & ? & _). Qed.

(** ** Properties *)

(** C1. Whatever the RPC answers and whichever statements fail, a fetch cycle that returns has only
    appended to the committed events: rows of valid events at or after the start ledger, with keys
    still unique.  When it returns a result, its last call was answered by a last page, whose latest
    ledger it reports; and the next ledger is one past that one when it is past the start, and the
    start again when it is not. *)
Theorem fetch_and_store_spec fuel start p r p' (valid : 0 ≤ start)
    (E : fetch_and_store_events fuel start p = Some (r, p')) :
  committed_grown start (committed (store p)) (committed (store p')) ∧
  match r with
  | Ok (fr, _) => last_answer start p' fr ∧ moves_on start (latest_ledger fr) (next_ledger fr)
  | Err _ => True
  end.
Proof.
  unfold fetch_and_store_events in E.
  destruct (if indexer_ignore_checkpoint cfg then _ else _) as [c p1] eqn:Ec.
  apply load_cursor_proc in Ec as [_ <-]. by apply fetch_loop_grown in E.
Qed.

(** C15. The cycle returns as soon as some call is answered by a last page or by an error other than
    cursor expiry: fuel for the calls up to it is enough. *)
Theorem fetch_terminates k start p
    (final : ∀ c, match get_events (rpc_calls p + k) start c with
                  | Ok res => ger_rpc_cursor res = None
                  | Err msg => CursorExpiry.is_cursor_expiry_error msg = false
                  end) :
  is_Some (fetch_and_store_events (S k) start p).
Proof.
  unfold fetch_and_store_events.
  destruct (if indexer_ignore_checkpoint cfg then _ else _) as [c p1] eqn:Ec.
  apply load_cursor_proc in Ec as [Hc _]. apply fetch_loop_terminates. by rewrite Hc.
Qed.

(** C16. Falling back to the start ledger does not end the cycle: as long as every answer is a
    cursor-expiry error it never returns. *)
Theorem fetch_never_returns fuel start p
    (expired : ∀ n c, ∃ msg, get_events n start c = Err msg ∧ CursorExpiry.is_cursor_expiry_error msg = true) :
  fetch_and_store_events fuel start p = None.
Proof.
  unfold fetch_and_store_events.
  destruct (if indexer_ignore_checkpoint cfg then _ else _). by apply fetch_loop_stuck.
Qed.

(** An expired cursor is retried five times, after 100, 200, 400, 800 and 1600 ms, and given up on
    the sixth error: the cycle then continues from the start ledger with fresh retries. *)
Theorem expired_cursor_falls_back fuel start c p st
    (expired : ∀ i, (i < 6)%nat → ∃ msg, get_events (rpc_calls p + i) start (Some c) = Err msg ∧
                                CursorExpiry.is_cursor_expiry_error msg = true) :
  fetch_loop (6 + fuel) start (Some c) CursorExpiry.new p st =
  fetch_loop fuel start None CursorExpiry.new
    (mkProc (store p) (rpc_calls p + 6) (slept p ++ [100; 200; 400; 800; 1600; 100]) (ring p) (sent p) (published p)) st.
Proof.
  set (fin := mkProc _ _ _ _ _ _).
  set (st_at := λ n ds, mkProc (store p) (rpc_calls p + n) (slept p ++ ds) (ring p) (sent p) (published p)).
  assert (∀ n ds b d b' f, (n < 6)%nat → CursorExpiry.should_fallback b = false →
    CursorExpiry.next_backoff b = (d, b') →
    fetch_loop (S f) start (Some c) b (st_at n ds) st =
    fetch_loop f start (Some c) b' (st_at (S n) (ds ++ [d])) st) as step.
  { intros n ds b d b' f Hn Hf Hb. destruct (expired n Hn) as (msg & Hm & Hx). cbn [fetch_loop].
    change (rpc_calls (st_at n ds)) with (rpc_calls p + n)%nat. rewrite Hm, Hx, Hf, Hb.
    unfold sleep, called, st_at. cbn [store rpc_calls slept ring sent published].
    by rewrite (assoc_L (++)), Nat.add_succ_r. }
  assert (p = st_at 0%nat []) as Hp by (unfold st_at; rewrite Nat.add_0_r, app_nil_r; by destruct p).
  rewrite Hp at 1. cbn [Nat.add].
  do 5 (erewrite step; [|lia|vm_compute; reflexivity|vm_compute; reflexivity]).
  destruct (expired 5%nat ltac:(lia)) as (msg & Hm & Hx). cbn [fetch_loop].
  change (rpc_calls (st_at 5%nat _)) with (rpc_calls p + 5)%nat. rewrite Hm, Hx.
  match goal with |- context [CursorExpiry.should_fallback ?b] =>
    change (CursorExpiry.should_fallback b) with true;
    change (CursorExpiry.reset b) with CursorExpiry.new end. cbv iota. f_equal.
  unfold fin, sleep, called, st_at. cbn [store rpc_calls slept ring sent published app].
  rewrite <- (assoc_L (++)). cbn [app]. f_equal. lia.
Qed.

(** A page whose commit fails is lost to this process: the session filter already remembers its
    event, so a later attempt at the same page stores nothing, however it ends. *)
Theorem commit_failure_loses_event `{!BloomLaws B} start c res e f p st pb msg p1 st2 r2 p2
    (session : session_bloom (store p) = Some f) (current : Bloom.s_current_ledger f ≤ ev_ledger e)
    (page : take (rpc_max_events_per_page cfg) (ger_events res) = [e]) (in_order : start ≤ ev_ledger e)
    (begun : run (begin env) p = (Ok (), pb)) (failed : store_page start c res p st = (Err msg, p1))
    (retried : store_page start c res p1 st2 = (r2, p2)) :
  events (committed (store p2)) = events (committed (store p)).
Proof.
  destruct (store_page_inv _ _ _ _ _ _ _ _ failed begun) as (sv & st0 & s3 & _ & _ & Hs & Hp & Hc & Hr).
  rewrite page in Hs, Hp. rewrite process_one in Hs by done.
  pose proof (process_events_effect start sv [e] pb st0) as G. apply Hp in G as (C3 & _). rewrite process_one in Hp by done.
  destruct (run_store (begin env) p) as [Hb Hb1]. rewrite begun in Hb, Hb1. simpl in Hb, Hb1.
  destruct (begin env (store p)) as [rb sb] eqn:Eb. simpl in Hb, Hb1. subst.
  apply begin_inv in Eb as (Cb & _ & Sb & _).
  assert (committed (store p1) = committed (store p)) as C1.
  { rewrite Hc. destruct (commit env s3) as [rc sc] eqn:Ec. simpl in *. apply commit_inv in Ec as (_ & _ & ->).
    destruct rc; [done|]. congruence. }
  assert (remembers e (store p1)) as Hrem.
  { destruct (store_event_in_tx (store_cfg cfg) env e sv (store pb)) as [re s2] eqn:E2. simpl in Hs.
    assert (remembers e s2) as (g & Hg & Hck) by (by eapply (store_event_remembers (store_cfg cfg) env e sv (store pb)); [rewrite Sb|..]).
    exists g. split; [|done]. by rewrite Hc, commit_session, Hs. }
  clear dependent s3 pb st0. rewrite <- C1. clear C1.
  destruct (run (begin env) p1) as [[[]|er] pb1] eqn:begun1.
  2: { unfold store_page in retried. rewrite begun1 in retried. injection retried as _ <-.
       destruct (run_store (begin env) p1) as [Hb1 Hb2]. rewrite begun1 in Hb1, Hb2. simpl in *.
       destruct (begin env (store p1)) as [rb s1] eqn:Eb. simpl in *. subst.
       by apply begin_inv in Eb as (-> & _). }
  destruct (store_page_inv _ _ _ _ _ _ _ _ retried begun1) as (sv1 & st1 & s4 & _ & _ & _ & Hp1 & Hc1 & _).
  rewrite page in Hp1. rewrite process_one in Hp1 by done.
  destruct (run_store (begin env) p1) as [Hb1 Hb2]. rewrite begun1 in Hb1, Hb2. simpl in Hb1, Hb2.
  destruct (begin env (store p1)) as [rb s1] eqn:Eb1. simpl in Hb1, Hb2. subst.
  apply begin_inv in Eb1 as (Cb1 & _ & Sb1 & Wb1 & Ab1).
  assert (remembers e (store pb1)) as Hrem1 by (destruct Hrem as (g & ? & ?); exists g; by rewrite Sb1).
  destruct (remembered_skips (store_cfg cfg) env e sv1 (store pb1) Hrem1) as (s2 & E2 & C2 & W2 & A2 & _).
  rewrite E2 in Hp1. simpl in Hp1.
  destruct (Hp1 [] (store pb1)) as (C4 & R4).
  { split; [congruence|]. right. rewrite A2, Ab1. split_and!; try done. exists [].
    apply grown_refl; [done|by rewrite W2]. }
  rewrite Hc1. destruct (commit env s4) as [rc sc] eqn:Ec. simpl. apply commit_inv in Ec as (_ & _ & ->).
  destruct rc; [|by rewrite C4, Cb1]. destruct R4 as [A4|(_ & A4 & rows & (_ & W4 & Rw & _))]; rewrite A4; [by rewrite C4, Cb1|].
  rewrite W4, Wb1. destruct Rw as (es' & Hsub & F). apply sublist_nil_r in Hsub as ->. apply Forall2_nil_inv_l in F as ->.
  by rewrite app_nil_r.
Qed.







(** The outer loop never moves back, and counts consecutive database failures up from zero. *)
Theorem run_iteration_progress shutdown paused fetch latest rs rs' ds
    (E : run_iteration shutdown paused fetch latest rs = Some (rs', ds)) :
  current_ledger rs ≤ current_ledger rs' ∧
  (∀ fr, fetch = Ok fr → paused = false → consecutive_db_errors rs' = 0 ∧
     current_ledger rs' = Z.max (current_ledger rs) (next_ledger fr)) ∧
  (∀ e, fetch = Err (DbConnection e) → paused = false →
     consecutive_db_errors rs' = add_u 32 (consecutive_db_errors rs) 1 ∧
     ds = [if consecutive_db_errors rs' <? 5 then 10000 else 60000]).
Proof.
  unfold run_iteration in E. destruct shutdown; [done|]. destruct paused; [injection E as <- <-; split_and!; done || lia|].
  destruct fetch as [fr|[msg|er]].
  - destruct (Z.ltb_spec (current_ledger rs) (next_ledger fr)); injection E as <- <-; simpl;
      split_and!; try lia; try done; intros fr' [= <-] _; split; done || lia.
  - injection E as <- <-. split_and!; [lia|done|done].
  - injection E as <- <-. simpl. split_and!; [lia|done|]. intros e _ _. split; [done|].
    destruct (Z.leb_spec 5 (add_u 32 (consecutive_db_errors rs) 1)); [rewrite (proj2 (Z.ltb_ge _ _)) by lia|
      rewrite (proj2 (Z.ltb_lt _ _)) by lia]; done.
Qed.

End Indexer.
(** ** A concrete instance *)

Definition demo_icfg : IndexerConfig := mkIndexerConfig demo_cfg false 100 5000 10000 0 true [].

Definition demo_page (cursor : option string) : GetEventsResult :=
  mkGetEventsResult [demo_event] 51200010 cursor None.

(** One page, then nothing. *)
Definition demo_rpc (n : nat) (_ : Z) (_ : option string) : result GetEventsResult string :=
  match n with O => Ok (demo_page (Some "c1"%string)) | _ => Ok (demo_page None) end.

Definition expired_rpc (_ : nat) (_ : Z) (_ : option string) : result GetEventsResult string :=
  Err "cursor expired"%string.

Definition demo_proc : Proc (B := gset string) :=
  mkProc demo_state 0 [] (Some (SseRing.new 10)) [] [].

Definition demo_fetch : option (result (FetchResult * Stats) IndexerFetchError * Proc) :=
  fetch_and_store_events demo_icfg (demo_env healthy) demo_rpc Z.of_nat 2 51200000 demo_proc.

Lemma fetch_and_store_spec_witness :
  (λ x, length (events (committed (store x.2)))) <$> demo_fetch = Some 1%nat ∧
  match demo_fetch with
  | Some (r, p') =>
      committed_grown demo_icfg (demo_env healthy) 51200000 (committed (store demo_proc)) (committed (store p')) ∧
      match r with
      | Ok (fr, _) => last_answer demo_rpc 51200000 p' fr ∧ moves_on 51200000 (latest_ledger fr) (next_ledger fr)
      | Err _ => True
      end
  | None => True
  end.
Proof.
  split; [vm_compute; reflexivity|].
  destruct demo_fetch as [[r p']|] eqn:E; [|exact I].
  exact (fetch_and_store_spec demo_icfg (demo_env healthy) demo_rpc Z.of_nat 2 51200000 demo_proc r p' ltac:(lia) E).
Defined.

Lemma fetch_terminates_witness :
  is_Some (fetch_and_store_events demo_icfg (demo_env healthy) demo_rpc Z.of_nat 2 51200000 demo_proc).
Proof.
  apply (fetch_terminates demo_icfg (demo_env healthy) demo_rpc Z.of_nat 1 51200000 demo_proc).
  intros c. reflexivity.
Defined.

Lemma fetch_never_returns_witness :
  fetch_and_store_events demo_icfg (demo_env healthy) expired_rpc Z.of_nat 1000 51200000 demo_proc = None.
Proof.
  apply (fetch_never_returns demo_icfg (demo_env healthy) expired_rpc Z.of_nat 1000 51200000 demo_proc).
  intros n c. exists "cursor expired"%string. split; [reflexivity|]. vm_compute. reflexivity.
Defined.

Lemma expired_cursor_falls_back_witness :
  fetch_loop demo_icfg (demo_env healthy) expired_rpc Z.of_nat (6 + 2) 51200000 (Some "old"%string) CursorExpiry.new
    demo_proc (mkStats 0 0 0 0 0) =
  fetch_loop demo_icfg (demo_env healthy) expired_rpc Z.of_nat 2 51200000 None CursorExpiry.new
    (mkProc (store demo_proc) (rpc_calls demo_proc + 6) (slept demo_proc ++ [100; 200; 400; 800; 1600; 100])
      (ring demo_proc) (sent demo_proc) (published demo_proc)) (mkStats 0 0 0 0 0).
Proof.
  apply (expired_cursor_falls_back demo_icfg (demo_env healthy) expired_rpc Z.of_nat 2).
  intros i _. exists "cursor expired"%string. split; [reflexivity|]. vm_compute. reflexivity.
Defined.

(** The statements of a one-event page: 0 begins, 1 looks for an ABI, 2 inserts the event, 3 its
    address, 4 saves the state and 5 commits. *)
Definition fault_at (k : nat) : nat → option string :=
  λ n, if (n =? k)%nat then Some "connection reset"%string else None.

Definition demo_run (k : nat) (p : Proc) : result Stats string * Proc :=
  store_page demo_icfg (demo_env (fault_at k)) Z.of_nat 51200000 None (demo_page None) p (mkStats 0 0 0 0 0).

Lemma commit_failure_loses_event_witness :
  let p1 := (demo_run 5 demo_proc).2 in
  is_ok (demo_run 5 demo_proc).1 = false ∧ is_ok (demo_run 5 p1).1 = true ∧
  events (committed (store (demo_run 5 p1).2)) = events (committed (store demo_proc)).
Proof.
  intros p1. split; [vm_compute; reflexivity|]. split; [vm_compute; reflexivity|].
  assert (∃ msg, (demo_run 5 demo_proc).1 = Err msg) as [msg Hm] by (eexists; vm_compute; reflexivity).
  destruct (run (begin (demo_env (fault_at 5))) demo_proc) as [rb pb] eqn:Eb.
  assert (rb = Ok ()) as ->.
  { assert (rb = (run (begin (demo_env (fault_at 5))) demo_proc).1) as -> by (by rewrite Eb).
    vm_compute. reflexivity. }
  refine (commit_failure_loses_event demo_icfg (demo_env (fault_at 5)) Z.of_nat 51200000 None (demo_page None)
    demo_event (Bloom.mkSession ∅ 0 100 (F64.lit 1 1000)) demo_proc (mkStats 0 0 0 0 0) pb msg p1
    (mkStats 0 0 0 0 0) (demo_run 5 p1).1 (demo_run 5 p1).2 _ _ _ _ Eb _ _).
  - reflexivity.
  - vm_compute. discriminate.
  - reflexivity.
  - vm_compute. discriminate.
  - change (demo_run 5 demo_proc = (Err msg, p1)). rewrite <- Hm. apply surjective_pairing.
  - apply (surjective_pairing (demo_run 5 p1)).
Defined.




Lemma run_iteration_progress_witness :
  let rs := mkRun 7 4 0 0 in let rs' := mkRun 7 5 0 0 in
  run_iteration demo_icfg false false (Err (DbConnection "down")) (Ok 9) rs = Some (rs', [60000]) ∧
  current_ledger rs ≤ current_ledger rs'.
Proof.
  split; [vm_compute; reflexivity|].
  apply (run_iteration_progress demo_icfg false false (Err (DbConnection "down")) (Ok 9) (mkRun 7 4 0 0)
    (mkRun 7 5 0 0) [60000]).
  vm_compute. reflexivity.
Defined.

End Indexer.
