(* ===== verification/Backfill.v ===== *)
(** backfill.rs: planning of ledger ranges, the Galexie object layout, the
    conversion of ledgers into events, and the checkpointed range worker.

    Object storage, decompression and XDR decoding are parameters; the
    stellar-xdr types appear with the fields the code reads. *)

From S2P Require Import Prelude Text F64 Model Toid Bloom Xdr EventStore.

Module Backfill.

(** ** Configuration and the command line *)

Definition DEFAULT_PUBNET_BUCKET : string :=
  "https://aws-public-blockchain.s3.us-east-2.amazonaws.com/v1.1/stellar/ledgers/pubnet".

Record DatastoreSchema : Type := mkSchema {
  ledgers_per_batch : Z;
  batches_per_partition : Z;
  compression : string;
}.

Record BackfillConfig : Type := mkBackfill {
  bucket_url : string;
  start_ledger : Z;
  end_ledger : Z;
  chunk_size : Z;
  workers : Z;
  retries : Z;
  schema : option DatastoreSchema;
}.

(** [trim_start_matches(c)], [trim_end_matches(c)]. *)
Fixpoint trim_start (c : ascii) (s : string) : string :=
  match s with
  | String a r => if Ascii.eqb a c then trim_start c r else s
  | EmptyString => EmptyString
  end.

Fixpoint trim_end (c : ascii) (s : string) : string :=
  match s with
  | String a r =>
      match trim_end c r with
      | EmptyString => if Ascii.eqb a c then EmptyString else String a EmptyString
      | r' => String a r'
      end
  | EmptyString => EmptyString
  end.

(** [BackfillConfig::from_env]; [var] is the process environment. *)
Definition from_env (var : string → option string) (start_ledger end_ledger : Z) (chain_id : string) :
    result BackfillConfig string :=
  let num k d := default d (let! v := var k in parse_u 32 v) in
  let bucket :=
    match var "BACKFILL_BUCKET_URL"%string with
    | Some url =>
        if negb (is_empty url) then Ok (trim_end "/" url)
        else if existsb (String.eqb chain_id) ["mainnet"; "pubnet"; "soroban-mainnet"]%string
             then Ok DEFAULT_PUBNET_BUCKET else Err "BACKFILL_BUCKET_URL is required"%string
    | None => if existsb (String.eqb chain_id) ["mainnet"; "pubnet"; "soroban-mainnet"]%string
              then Ok DEFAULT_PUBNET_BUCKET else Err "BACKFILL_BUCKET_URL is required"%string
    end in
  let? bucket_url := bucket in
  let prefix := trim_end "/" (trim_start "/" (default ""%string (var "BACKFILL_PREFIX"%string))) in
  let bucket_url := if is_empty prefix then bucket_url else (bucket_url +:+ "/" +:+ prefix)%string in
  let schema :=
    let! per_file := (let! v := var "BACKFILL_LEDGERS_PER_FILE"%string in parse_u 32 v) in
    Some (mkSchema (Z.max per_file 1) (Z.max (num "BACKFILL_FILES_PER_PARTITION"%string 64000) 1)
            (default "zstd"%string (var "BACKFILL_COMPRESSION"%string))) in
  if end_ledger <? start_ledger then Err "--backfill-to must be >= --backfill-from"%string
  else Ok {| bucket_url := bucket_url;
             start_ledger := start_ledger;
             end_ledger := end_ledger;
             chunk_size := Z.max (num "BACKFILL_CHUNK_SIZE"%string 1000) 1;
             workers := Z.max (num "BACKFILL_WORKERS"%string 4) 1;
             retries := Z.max (num "BACKFILL_RETRIES"%string 3) 1;
             schema := schema |}.

(** [parse_cli_range]: the two slots, filled while scanning the arguments. *)
Definition flag_slot (flag : string) : option bool :=
  if String.eqb flag "--backfill-from" then Some true
  else if String.eqb flag "--backfill-to" then Some false
  else None.

Definition fill (slot : bool) (n : Z) (slots : option Z * option Z) : option Z * option Z :=
  if slot then (Some n, slots.2) else (slots.1, Some n).

Fixpoint scan_args (args : list string) (slots : option Z * option Z) :
    result (option Z * option Z) string :=
  match args with
  | [] => Ok slots
  | arg :: rest =>
      let '(flag, inline) :=
        match split_once "=" arg with Some (f, v) => (f, Some v) | None => (arg, None) end in
      match flag_slot flag with
      | None => scan_args rest slots
      | Some slot =>
          match inline with
          | Some raw =>
              match parse_u 32 raw with
              | Some n => scan_args rest (fill slot n slots)
              | None => Err "invalid ledger"%string
              end
          | None =>
              match rest with
              | [] => Err "requires a ledger number"%string
              | raw :: rest' =>
                  match parse_u 32 raw with
                  | Some n => scan_args rest' (fill slot n slots)
                  | None => Err "invalid ledger"%string
                  end
              end
          end
      end
  end.

Definition parse_cli_range (args : list string) : result (option (Z * Z)) string :=
  let? slots := scan_args args (None, None) in
  match slots with
  | (None, None) => Ok None
  | (Some f, Some t) =>
      if f <=? t then Ok (Some (f, t)) else Err "--backfill-from must be <= --backfill-to"%string
  | _ => Err "--backfill-from and --backfill-to must be given together"%string
  end.

(** ** Ranges and files *)

(** [split_range]; one unit of fuel per chunk. *)
Fixpoint split_loop (fuel : nat) (s end_ chunk : Z) : option (list (Z * Z)) :=
  if end_ <? s then Some []
  else match fuel with
  | O => None
  | S fuel =>
      let e := Z.min (sat_add_u 32 s (chunk - 1)) end_ in
      if e =? u_max 32 then Some [(s, e)]
      else let! rest := split_loop fuel (e + 1) end_ chunk in Some ((s, e) :: rest)
  end.

Definition split_range (start end_ chunk : Z) : list (Z * Z) :=
  default [] (split_loop (Z.to_nat (end_ - start + 1)) start end_ (Z.max chunk 1)).

Definition file_bounds (sc : DatastoreSchema) (seq : Z) : Z * Z :=
  let per_file := Z.max (ledgers_per_batch sc) 1 in
  let start := seq - seq mod per_file in
  (start, sat_add_u 32 start (per_file - 1)).

(** [{:08X}] of a number below 2^32. *)
Definition hex_digit (d : Z) : ascii :=
  ascii_of_nat (Z.to_nat (if d <? 10 then 48 + d else 55 + d)).

Fixpoint hex_fixed (k : nat) (n : Z) : string :=
  match k with
  | O => EmptyString
  | S k => (hex_fixed k (n / 16) +:+ String (hex_digit (n mod 16)) EmptyString)%string
  end.

Definition object_key (sc : DatastoreSchema) (seq : Z) : string :=
  let partition :=
    if 1 <? batches_per_partition sc then
      let size := Z.max (ledgers_per_batch sc) 1 * batches_per_partition sc in
      let start := seq / size * size in
      let end_ := Z.min (start + size - 1) (u_max 32) in
      (hex_fixed 8 (u_max 32 - start) +:+ "--" +:+ show_u start +:+ "-" +:+ show_u end_ +:+ "/")%string
    else EmptyString in
  let '(start, end_) := file_bounds sc seq in
  (partition +:+ hex_fixed 8 (u_max 32 - start) +:+ "--" +:+ show_u start +:+
   (if (end_ =? start)%Z then "" else "-" +:+ show_u end_) +:+
   (if String.eqb (compression sc) "zstd" then ".xdr.zst" else ".xdr"))%string.

(** [fetch_file]: the outcome of each attempt, and the seconds slept. *)
Inductive http (D : Type) : Type :=
| Body (b : result D string)
| NotFound
| Status (msg : string)
| NoResponse (msg : string).
Arguments Body {D}.
Arguments NotFound {D}.
Arguments Status {D}.
Arguments NoResponse {D}.

Fixpoint fetch_attempts {D} (get : nat → http D) (n attempt : nat) (last : string) :
    result D string * list Z :=
  match n with
  | O => (Err ("failed: " +:+ last)%string, [])
  | S n =>
      let slept := if (0 <? attempt)%nat then [Z.shiftl 1 (Z.min (Z.of_nat attempt) 5)] else [] in
      let retry msg := let '(r, ds) := fetch_attempts get n (S attempt) msg in (r, slept ++ ds) in
      match get attempt with
      | Body (Ok b) => (Ok b, slept)
      | Body (Err e) => retry e
      | NotFound => (Err "404 (ledger not in the data lake yet?)"%string, slept)
      | Status msg => retry msg
      | NoResponse msg => retry msg
      end
  end.

Definition fetch_file {D} (get : nat → http D) (retries : Z) : result D string * list Z :=
  fetch_attempts get (Z.to_nat retries) 0 "".

(** ** Ledgers and their events *)

Inductive ContractEventType : Type := Contract | System | Diagnostic.
Inductive TransactionEventStage : Type := BeforeAllTxs | AfterAllTxs | AfterTx.

Record ContractEvent (X : Type) : Type := mkEvent {
  contract_id : option string;
  type_ : ContractEventType;
  topics : list X;
  data : X;
}.
Arguments mkEvent {X}.
Arguments contract_id {X}.
Arguments type_ {X}.
Arguments topics {X}.
Arguments data {X}.

(** [TxOther]: the meta versions the code reads no events from. *)
Inductive TransactionMeta (X : Type) : Type :=
| TxV3 (soroban_events : option (list (ContractEvent X)))
| TxV4 (operations : list (list (ContractEvent X))) (tx_events : list (TransactionEventStage * ContractEvent X))
| TxOther.
Arguments TxV3 {X}.
Arguments TxV4 {X}.
Arguments TxOther {X}.

Record Tx (X : Type) : Type := mkTx {
  transaction_hash : string;
  (** [TxSuccess] or [TxFeeBumpInnerSuccess]. *)
  success : bool;
  tx_meta : TransactionMeta X;
}.
Arguments mkTx {X}.
Arguments transaction_hash {X}.
Arguments success {X}.
Arguments tx_meta {X}.

Record Header : Type := mkHeader {
  ledger_seq_ : Z;
  ledger_version : Z;
  close_time : Z;
  hash : string;
}.

Inductive LedgerCloseMeta (X : Type) : Type :=
| V0 (h : Header)
| V1 (h : Header) (txs : list (Tx X))
| V2 (h : Header) (txs : list (Tx X)).
Arguments V0 {X}.
Arguments V1 {X}.
Arguments V2 {X}.

(** The ledger-wide counters [(before_all, after_all)]. *)
Abbreviation counters := (nat * nat)%type.

Section Events.
Context {X : Type}.
(** The crates: base64 XDR ([None] when serialisation fails), lower-case hex, and
    [from_timestamp] + [to_rfc3339_opts] ([None] when out of chrono's range). *)
Variable to_xdr_base64 : X → option string.
Variable hex_encode : string → string.
Variable to_rfc3339 : Z → option string.

Definition header_of (m : LedgerCloseMeta X) : Header :=
  match m with V0 h | V1 h _ | V2 h _ => h end.

Definition ledger_seq (m : LedgerCloseMeta X) : Z := ledger_seq_ (header_of m).
Definition protocol_version (m : LedgerCloseMeta X) : Z := ledger_version (header_of m).

(** The schema version handed to the sink. *)
Definition schema_version (m : LedgerCloseMeta X) : Z := Z.min (protocol_version m) (i_max 32).

Definition b64 (v : X) : Value := VString (default ""%string (to_xdr_base64 v)).

Definition closed_at (h : Header) : string :=
  if i_max 64 <? close_time h then ""%string else default ""%string (to_rfc3339 (close_time h)).

(** The closure [push]: the event as an RPC result, or nothing. *)
Definition push (h : Header) (tx : Tx X) (ev : ContractEvent X) (id : Z) (k : nat) : list SorobanEvent :=
  match contract_id ev with
  | None => []
  | Some c =>
      let mk kind :=
        [{| ev_id := None;
            ev_rpc_id := Some (Toid.event_id id (Z.of_nat k));
            ev_contract_id := c;
            ev_event_type := kind;
            ev_tx_hash := hex_encode (transaction_hash tx);
            ev_ledger := ledger_seq_ h;
            ev_ledger_closed_at := closed_at h;
            ev_ledger_hash := Some (hex_encode (hash h));
            ev_in_successful_call := success tx;
            ev_value := b64 (data ev);
            ev_topic := Some (List.map b64 (topics ev));
            ev_tenant_id := None |}] in
      match type_ ev with
      | Contract => mk "contract"%string
      | System => mk "system"%string
      | Diagnostic => []
      end
  end.

(** [for (k, ev) in events.iter().enumerate()], numbering from [k]. *)
Fixpoint push_from (h : Header) (tx : Tx X) (id : Z) (k : nat) (evs : list (ContractEvent X)) :
    list SorobanEvent :=
  match evs with
  | [] => []
  | ev :: rest => push h tx ev id k ++ push_from h tx id (S k) rest
  end.

Fixpoint push_ops (h : Header) (tx : Tx X) (slot : Z) (op : nat) (ops : list (list (ContractEvent X))) :
    list SorobanEvent :=
  match ops with
  | [] => []
  | evs :: rest =>
      push_from h tx (Toid.toid (ledger_seq_ h) slot (Z.of_nat op)) 0 evs ++ push_ops h tx slot (S op) rest
  end.

(** The transaction-level events. *)
Fixpoint push_tx_events (h : Header) (tx : Tx X) (slot : Z) (after_tx : nat) (c : counters)
    (tes : list (TransactionEventStage * ContractEvent X)) : list SorobanEvent * counters :=
  match tes with
  | [] => ([], c)
  | (stage, ev) :: rest =>
      let seq := ledger_seq_ h in
      match stage with
      | BeforeAllTxs =>
          let '(out, c') := push_tx_events h tx slot after_tx (S c.1, c.2) rest in
          (push h tx ev (Toid.toid seq 0 0) c.1 ++ out, c')
      | AfterAllTxs =>
          let '(out, c') := push_tx_events h tx slot after_tx (c.1, S c.2) rest in
          (push h tx ev (Toid.toid seq 0xFFFFF 0) c.2 ++ out, c')
      | AfterTx =>
          let '(out, c') := push_tx_events h tx slot (S after_tx) c rest in
          (push h tx ev (Toid.toid seq slot 0) after_tx ++ out, c')
      end
  end.

(** One transaction; [slot] is its 1-based application order. *)
Definition push_tx (h : Header) (tx : Tx X) (slot : Z) (c : counters) : list SorobanEvent * counters :=
  match tx_meta tx with
  | TxV3 evs => (push_from h tx (Toid.toid (ledger_seq_ h) slot 0) 0 (default [] evs), c)
  | TxV4 ops tes =>
      let '(out, c') := push_tx_events h tx slot (match ops with evs :: _ => length evs | [] => 0%nat end) c tes in
      (push_ops h tx slot 0 ops ++ out, c')
  | TxOther => ([], c)
  end.

Fixpoint push_txs (h : Header) (i : nat) (c : counters) (txs : list (Tx X)) : list SorobanEvent :=
  match txs with
  | [] => []
  | tx :: rest =>
      let '(out, c') := push_tx h tx (Z.of_nat i + 1) c in
      out ++ push_txs h (S i) c' rest
  end.

Definition events_from_ledger (m : LedgerCloseMeta X) : list SorobanEvent :=
  match m with
  | V0 _ => []
  | V1 h txs | V2 h txs => push_txs h 0 (0%nat, 0%nat) txs
  end.
End Events.

(** ** The range worker *)

(** [decode_batch]: one batch is the list of its ledger metas. *)
Definition decode_batch {D L} (zstd : D → result D string) (from_xdr : D → result L string)
    (raw : D) (compression : string) : result L string :=
  let? xdr := if String.eqb compression "zstd" then zstd raw else Ok raw in
  from_xdr xdr.

Section Worker.
Context {L W : Type}.
(** A ledger's sequence number, its events with their schema version, the download and decoding of
    the file with a key, the sink, and the checkpoint statements that fail. *)
Variable seq_of : L → Z.
Variable events_of : L → list SorobanEvent.
Variable version_of : L → Z.
Variable file : string → result (list L) string.
Variable sink : list SorobanEvent → Z → W → result Z string * W.
Variable cp_fault : nat → option string.

Record Run : Type := mkRun {
  world : W;
  backfill_checkpoints : gmap (Z * Z) (Z * bool);
  cp_ops : nat;
  p_ledgers : Z;
  p_events : Z;
  p_highest : Z;
}.

Definition set_world (w : W) (r : Run) : Run :=
  mkRun w (backfill_checkpoints r) (cp_ops r) (p_ledgers r) (p_events r) (p_highest r).
Definition add_events (n : Z) (r : Run) : Run :=
  mkRun (world r) (backfill_checkpoints r) (cp_ops r) (p_ledgers r) (add_u 64 (p_events r) n) (p_highest r).
Definition add_ledgers (n through : Z) (r : Run) : Run :=
  mkRun (world r) (backfill_checkpoints r) (cp_ops r) (add_u 64 (p_ledgers r) n) (p_events r)
    (Z.max (p_highest r) through).
Definition set_checkpoints (m : gmap (Z * Z) (Z * bool)) (r : Run) : Run :=
  mkRun (world r) m (S (cp_ops r)) (p_ledgers r) (p_events r) (p_highest r).

(** [load_resume_point]; [None] when completed. *)
Definition load_resume_point (start end_ : Z) (r : Run) : result (option Z) string * Run :=
  let r' := set_checkpoints (backfill_checkpoints r) r in
  match cp_fault (cp_ops r) with
  | Some e => (Err e, r')
  | None =>
      (Ok match backfill_checkpoints r !! (start, end_) with
          | Some (_, true) => None
          | Some (n, false) => Some (if n <? 0 then start else n)
          | None => Some start
          end, r')
  end.

Definition save_checkpoint (start end_ next : Z) (r : Run) : result () string * Run :=
  match cp_fault (cp_ops r) with
  | Some e => (Err e, set_checkpoints (backfill_checkpoints r) r)
  | None => (Ok (), set_checkpoints (<[(start, end_) := (Z.min next (i_max 64), end_ <? next)]>
                                       (backfill_checkpoints r)) r)
  end.

(** The [for meta in batch.ledger_close_metas] loop. *)
Fixpoint store_metas (metas : list L) (next end_ : Z) (r : Run) : result () string * Run :=
  match metas with
  | [] => (Ok (), r)
  | m :: rest =>
      if (seq_of m <? next) || (end_ <? seq_of m) then store_metas rest next end_ r
      else match sink (events_of m) (version_of m) (world r) with
      | (Err e, w) => (Err e, set_world w r)
      | (Ok n, w) => store_metas rest next end_ (add_events n (set_world w r))
      end
  end.

Fixpoint range_loop (fuel : nat) (cfg : BackfillConfig) (sc : DatastoreSchema) (start end_ next : Z) (r : Run) :
    option (result () string * Run) :=
  if end_ <? next then Some (Ok (), r)
  else match fuel with
  | O => None
  | S fuel =>
      if u_max 32 <? next then Some (Err "out of range integral type conversion attempted"%string, r)
      else
        let seq := next in
        match file (bucket_url cfg +:+ "/" +:+ object_key sc seq)%string with
        | Err e => Some (Err e, r)
        | Ok metas =>
            match store_metas metas next end_ r with
            | (Err e, r) => Some (Err e, r)
            | (Ok _, r) =>
                let done_through := Z.min (file_bounds sc seq).2 end_ in
                let processed := done_through + 1 - next in
                let next := done_through + 1 in
                match save_checkpoint start end_ next r with
                | (Err e, r) => Some (Err e, r)
                | (Ok _, r) => range_loop fuel cfg sc start end_ next (add_ledgers processed done_through r)
                end
            end
        end
  end.

Definition range_fuel (start end_ : Z) : nat := Z.to_nat (end_ - start + 1).

Definition run_range (cfg : BackfillConfig) (sc : DatastoreSchema) (start end_ : Z) (r : Run) :
    option (result () string * Run) :=
  match load_resume_point start end_ r with
  | (Err e, r) => Some (Err e, r)
  | (Ok None, r) => Some (Ok (), r)
  | (Ok (Some next), r) => range_loop (range_fuel next end_) cfg sc start end_ next r
  end.

(** [run]: every range, in the order the tasks are spawned; the first error is kept. *)
Fixpoint run_ranges (cfg : BackfillConfig) (sc : DatastoreSchema) (ranges : list (Z * Z))
    (first_err : option string) (r : Run) : option (option string * Run) :=
  match ranges with
  | [] => Some (first_err, r)
  | (s, e) :: rest =>
      let! (res, r) := run_range cfg sc s e r in
      run_ranges cfg sc rest
        (match first_err, res with
         | Some e, _ => Some e
         | None, Err e => Some e
         | None, Ok _ => None
         end) r
  end.

(** The summary [(ledgers, events_inserted)], or the first error. *)
Definition run (cfg : BackfillConfig) (manifest : result DatastoreSchema string) (r : Run) :
    option (result (Z * Z) string * Run) :=
  match (match schema cfg with Some sc => Ok sc | None => manifest end) with
  | Err e => Some (Err e, r)
  | Ok sc =>
      let! (first_err, r) :=
        run_ranges cfg sc (split_range (start_ledger cfg) (end_ledger cfg) (chunk_size cfg)) None r in
      Some (match first_err with Some e => Err e | None => Ok (p_ledgers r, p_events r) end, r)
  end.
End Worker.

(** ** Lemmas: ranges *)

Definition ledgers_of (ranges : list (Z * Z)) : list Z :=
  flat_map (λ r, seqZ r.1 (r.2 - r.1 + 1)) ranges.

Lemma split_loop_spec fuel s e c :
  1 ≤ c → 0 ≤ s → e ≤ u_max 32 → e - s < Z.of_nat fuel →
  ∃ l, split_loop fuel s e c = Some l ∧ ledgers_of l = seqZ s (e - s + 1) ∧
       Forall (λ r, s ≤ r.1 ∧ r.1 ≤ r.2 ∧ r.2 ≤ e ∧ r.2 - r.1 + 1 ≤ c) l.
Proof.
  intros Hc. revert s. induction fuel as [|fuel IH]; intros s Hs He Hf; simpl.
  - rewrite (proj2 (Z.ltb_lt _ _)) by lia. exists []. split_and!; [done| |done].
    by rewrite seqZ_nil by lia.
  - destruct (Z.ltb_spec e s).
    { exists []. split_and!; [done| |done]. by rewrite seqZ_nil by lia. }
    set (x := Z.min _ e). assert (s ≤ x ≤ e ∧ x - s + 1 ≤ c) as (Hx & Hxc).
    { unfold x, sat_add_u. lia. }
    destruct (Z.eqb_spec x (u_max 32)) as [Hm|Hm].
    + exists [(s, x)]. split_and!; [done| |].
      * unfold ledgers_of. simpl. rewrite app_nil_r. f_equal. lia.
      * repeat constructor; simpl; lia.
    + destruct (IH (x + 1)) as (l & -> & Hl & Hall); [lia|done|lia|].
      exists ((s, x) :: l). split_and!; [done| |].
      * unfold ledgers_of in *. simpl. rewrite Hl.
        replace (e - s + 1) with ((x - s + 1) + (e - (x + 1) + 1)) by lia.
        rewrite (seqZ_app s (x - s + 1) (e - (x + 1) + 1)) by lia. replace (s + (x - s + 1)) with (x + 1) by lia. done.
      * constructor; [simpl; lia|]. eapply Forall_impl; [exact Hall|]. simpl. lia.
Qed.

Section Bounds.
Variable sc : DatastoreSchema.
Abbreviation per_file := (Z.max (ledgers_per_batch sc) 1).

Lemma file_bounds_fst seq : (file_bounds sc seq).1 = seq / per_file * per_file.
Proof. simpl. pose proof (Z.div_mod seq per_file ltac:(lia)). lia. Qed.

Lemma file_bounds_contains seq :
  in_u 32 seq → (file_bounds sc seq).1 ≤ seq ≤ (file_bounds sc seq).2.
Proof.
  intros [? ?]. pose proof (Z.mod_pos_bound seq per_file). simpl. unfold sat_add_u, u_max in *. lia.
Qed.

(** The numbers of a file share its bounds. *)
Lemma file_bounds_same a b :
  in_u 32 a → in_u 32 b → (file_bounds sc a).1 ≤ b ≤ (file_bounds sc a).2 → file_bounds sc b = file_bounds sc a.
Proof.
  intros Ha Hb Hin.
  assert (b / per_file = a / per_file) as E.
  { rewrite file_bounds_fst in Hin. assert (b < a / per_file * per_file + per_file) as Hlt.
    { destruct Hin as [_ Hin]. simpl in Hin. unfold sat_add_u in Hin.
      pose proof (Z.div_mod a per_file ltac:(lia)). lia. }
    symmetry. apply (Z.div_unique b per_file _ (b - a / per_file * per_file)); lia. }
  unfold file_bounds. pose proof (Z.div_mod a per_file ltac:(lia)). pose proof (Z.div_mod b per_file ltac:(lia)).
  rewrite E in *. replace (b - b mod per_file) with (a - a mod per_file) by lia. done.
Qed.
End Bounds.

(** *** Object keys *)

Lemma string_app_inj (a b c d : string) :
  String.length a = String.length b → (a +:+ c)%string = (b +:+ d)%string → a = b ∧ c = d.
Proof.
  revert b. induction a as [|x a IH]; intros [|y b]; simpl; try done.
  intros [= Hl] [= -> E]. destruct (IH b Hl E) as [-> ->]. done.
Qed.

Lemma string_app_inj_l (a c d : string) : (a +:+ c)%string = (a +:+ d)%string → c = d.
Proof. intros E. by apply string_app_inj in E as [_ ?]. Qed.

Lemma hex_fixed_length k n : String.length (hex_fixed k n) = k.
Proof. revert n. induction k as [|k IH]; intros n; simpl; [done|]. rewrite string_length_app, IH. simpl. lia. Qed.

Lemma hex_digit_inj a b : 0 ≤ a < 16 → 0 ≤ b < 16 → hex_digit a = hex_digit b → a = b.
Proof.
  intros Ha Hb E. apply (f_equal nat_of_ascii) in E. unfold hex_digit in E.
  destruct (Z.ltb_spec a 10), (Z.ltb_spec b 10); rewrite !nat_ascii_embedding in E by lia; lia.
Qed.

Lemma hex_fixed_inj k n m :
  0 ≤ n < 16 ^ Z.of_nat k → 0 ≤ m < 16 ^ Z.of_nat k → hex_fixed k n = hex_fixed k m → n = m.
Proof.
  revert n m. induction k as [|k IH]; intros n m Hn Hm; [simpl in *; lia|].
  rewrite Nat2Z.inj_succ, Z.pow_succ_r in Hn, Hm by lia. simpl. intros E.
  apply string_app_inj in E as [E1 E2]; [|by rewrite !hex_fixed_length]. injection E2 as E2.
  apply IH in E1; [|split; [apply Z.div_pos; lia|apply Z.div_lt_upper_bound; lia]..].
  apply hex_digit_inj in E2; [|apply Z.mod_pos_bound; lia..].
  rewrite (Z.div_mod n 16), (Z.div_mod m 16) by lia. congruence.
Qed.

Lemma key_hex_inj a b s t :
  in_u 32 a → in_u 32 b → (hex_fixed 8 (u_max 32 - a) +:+ s)%string = (hex_fixed 8 (u_max 32 - b) +:+ t)%string →
  a = b ∧ s = t.
Proof.
  intros Ha Hb E. apply string_app_inj in E as [E ->]; [|by rewrite !hex_fixed_length].
  apply hex_fixed_inj in E; [split; [lia|done]|..]; unfold in_u, u_max in *; simpl; lia.
Qed.

(** The partition of a number, and of its file, are the same. *)
Lemma partition_of_file sc a b :
  1 < batches_per_partition sc → (file_bounds sc a).1 = (file_bounds sc b).1 →
  a / (Z.max (ledgers_per_batch sc) 1 * batches_per_partition sc) =
  b / (Z.max (ledgers_per_batch sc) 1 * batches_per_partition sc).
Proof.
  intros Hb E. rewrite !file_bounds_fst in E.
  assert (a / Z.max (ledgers_per_batch sc) 1 = b / Z.max (ledgers_per_batch sc) 1) as E' by nia.
  rewrite <- !Z.div_div by lia. by rewrite E'.
Qed.

Lemma object_key_same_file sc a b : (file_bounds sc a).1 = (file_bounds sc b).1 → object_key sc a = object_key sc b.
Proof.
  intros E. unfold object_key.
  assert (file_bounds sc a = file_bounds sc b) as -> by (unfold file_bounds in *; simpl in *; by rewrite E).
  destruct (Z.ltb_spec 1 (batches_per_partition sc)); [|done].
  by rewrite (partition_of_file sc a b).
Qed.

Lemma object_key_inj sc a b :
  in_u 32 a → in_u 32 b → object_key sc a = object_key sc b → (file_bounds sc a).1 = (file_bounds sc b).1.
Proof.
  intros Ha Hb. pose proof (file_bounds_contains sc a Ha) as [Hca _]. pose proof (file_bounds_contains sc b Hb) as [Hcb _].
  assert (∀ x, in_u 32 x → 0 ≤ (file_bounds sc x).1) as Hpos.
  { intros x [Hx _]. rewrite file_bounds_fst. pose proof (Z.div_pos x (Z.max (ledgers_per_batch sc) 1)). nia. }
  pose proof (Hpos a Ha) as Hpa. pose proof (Hpos b Hb) as Hpb. clear Hpos. unfold object_key.
  revert Hca Hcb Hpa Hpb. destruct (file_bounds sc a) as [sa ea], (file_bounds sc b) as [sb eb].
  cbn [fst]. intros Hca Hcb Hpa Hpb.
  assert (in_u 32 sa ∧ in_u 32 sb) as [Hsa Hsb] by (unfold in_u in *; lia).
  destruct (Z.ltb_spec 1 (batches_per_partition sc)).
  2: { simpl. intros E. by apply key_hex_inj in E as [? _]. }
  set (size := Z.max (ledgers_per_batch sc) 1 * batches_per_partition sc). assert (0 < size) by (unfold size; nia). intros E.
  assert (∀ x, in_u 32 x → in_u 32 (x / size * size)) as Hq.
  { intros x [Hx0 Hx]. pose proof (Z.div_pos x size). pose proof (Z.mul_div_le x size). unfold in_u. nia. }
  rewrite !string_app_assoc in E. apply key_hex_inj in E as [Hs E]; [|by apply Hq..].
  rewrite Hs in E. do 5 apply string_app_inj_l in E. by apply key_hex_inj in E as [? _].
Qed.

(** ** Lemmas: the range worker *)

Section WorkerLemmas.
Context {L W : Type}.
Variable seq_of : L → Z.
Variable events_of : L → list SorobanEvent.
Variable version_of : L → Z.
Variable file : string → result (list L) string.
Variable sink : list SorobanEvent → Z → W → result Z string * W.
Variable cp_fault : nat → option string.
Variable cfg : BackfillConfig.
Variable sc : DatastoreSchema.

Definition url_of (seq : Z) : string := (bucket_url cfg +:+ "/" +:+ object_key sc seq)%string.

(** The specification of storing: the sink called on each ledger in order, and the rows it reported. *)
Inductive stores : list L → W → Z → W → Prop :=
| stores_nil w : stores [] w 0 w
| stores_cons m ms w n w1 t w2 :
    sink (events_of m) (version_of m) w = (Ok n, w1) → stores ms w1 t w2 → stores (m :: ms) w (n + t) w2.

Lemma stores_app l k w t w1 t' w2 : stores l w t w1 → stores k w1 t' w2 → stores (l ++ k) w (t + t') w2.
Proof.
  induction 1 as [|m ms w n w1 t w2' E H IH]; intros Hk; simpl; [done|].
  rewrite <- Z.add_assoc. econstructor; eauto.
Qed.

(** [ms] contains every ledger of [lo, hi) found in its file, and nothing outside [lo, end]. *)
Definition covers (lo hi end_ : Z) (ms : list L) : Prop :=
  Forall (λ m, lo ≤ seq_of m ≤ end_) ms ∧
  ∀ l metas m, lo ≤ l < hi → file (url_of l) = Ok metas → m ∈ metas → seq_of m = l → m ∈ ms.

Definition kept (next end_ : Z) (m : L) : bool := negb ((seq_of m <? next) || (end_ <? seq_of m)).

Lemma store_metas_ok metas next end_ (r : Run (W := W)) r' :
  store_metas seq_of events_of version_of sink metas next end_ r = (Ok (), r') →
  ∃ t, stores (List.filter (kept next end_) metas) (world r) t (world r') ∧
       backfill_checkpoints r' = backfill_checkpoints r.
Proof.
  revert r. induction metas as [|m ms IH]; intros r; simpl.
  { intros [= <-]. exists 0. split; [constructor|done]. }
  unfold kept at 1. destruct ((seq_of m <? next) || (end_ <? seq_of m)); simpl; [apply IH|].
  destruct (sink (events_of m) (version_of m) (world r)) as [[n|e] w] eqn:E; [|done].
  intros (t & Hs & ->)%IH. exists (n + t). split; [|done]. econstructor; [done|]. exact Hs.
Qed.

Lemma store_metas_checkpoints metas next end_ (r : Run (W := W)) res r' :
  store_metas seq_of events_of version_of sink metas next end_ r = (res, r') →
  backfill_checkpoints r' = backfill_checkpoints r.
Proof.
  revert r. induction metas as [|m ms IH]; intros r; simpl; [by intros [= _ <-]|].
  destruct (_ || _); [apply IH|].
  destruct (sink _ _ _) as [[n|e] w]; [|by intros [= _ <-]]. by intros ->%IH.
Qed.

Lemma save_checkpoint_inv start end_ next (r : Run (W := W)) res r' :
  save_checkpoint cp_fault start end_ next r = (res, r') →
  world r' = world r ∧
  backfill_checkpoints r' = match res with
    | Ok _ => <[(start, end_) := (Z.min next (i_max 64), end_ <? next)]> (backfill_checkpoints r)
    | Err _ => backfill_checkpoints r
    end.
Proof. unfold save_checkpoint. destruct (cp_fault (cp_ops r)); intros [= <- <-]; done. Qed.

(** The checkpoint entry of a range that has been stored up to [next]. *)
Definition checkpointed (start end_ next0 next : Z) (m m' : gmap (Z * Z) (Z * bool)) : Prop :=
  next = next0 ∧ m' = m ∨ m' !! (start, end_) = Some (next, end_ <? next).

Lemma range_loop_spec fuel start end_ next (r : Run (W := W)) res r' :
  in_u 32 end_ → 0 ≤ next →
  range_loop seq_of events_of version_of file sink cp_fault fuel cfg sc start end_ next r = Some (res, r') →
  ∃ upto ms t w, next ≤ upto ∧ covers next upto end_ ms ∧ stores ms (world r) t w ∧
    checkpointed start end_ next upto (backfill_checkpoints r) (backfill_checkpoints r') ∧
    (is_ok res = true → end_ < upto ∧ world r' = w).
Proof.
  intros He. revert next r. induction fuel as [|fuel IH]; intros next r Hn; cbn [range_loop].
  { destruct (Z.ltb_spec end_ next); [|done]. intros [= <- <-].
    exists next, [], 0, (world r). split_and!; [lia|split; [done|lia]|constructor|by left|done]. }
  assert (∃ upto ms t w, next ≤ upto ∧ covers next upto end_ ms ∧ stores ms (world r) t w ∧
    upto = next ∧ w = world r) as (u0 & ms0 & t0 & w0 & Hstop).
  { exists next, [], 0, (world r). split_and!; try done; [split; [done|lia]|constructor]. }
  destruct (Z.ltb_spec end_ next) as [Hlt|Hle].
  { intros [= <- <-]. destruct Hstop as (? & ? & ? & -> & ->).
    exists next, ms0, t0, (world r). split_and!; try done. by left. }
  destruct (Z.ltb_spec (u_max 32) next) as [Hbig|Hsm]; [unfold in_u, u_max in *; lia|].
  assert (in_u 32 next) as Hin by (unfold in_u, u_max in *; lia).
  pose proof (file_bounds_contains sc next Hin) as [Hlo Hhi].
  destruct (file _) as [metas|e] eqn:Ef.
  2: { intros [= <- <-]. destruct Hstop as (? & ? & ? & -> & ->).
       exists next, ms0, t0, (world r). split_and!; try done. by left. }
  destruct (store_metas _ _ _ _ metas next end_ r) as [[[]|e] r1] eqn:Es.
  2: { intros [= <- <-]. destruct Hstop as (? & ? & ? & -> & ->). apply store_metas_checkpoints in Es.
       exists next, ms0, t0, (world r). split_and!; try done. by left. }
  apply store_metas_ok in Es as (t1 & Hst & Hcp).
  set (upto1 := Z.min _ end_ + 1). assert (next < upto1) by (unfold upto1; lia).
  destruct (save_checkpoint _ _ _ _ _) as [[[]|e] r2] eqn:Ec; apply save_checkpoint_inv in Ec as [Hw2 Hc2].
  2: { intros [= <- <-]. destruct Hstop as (? & ? & ? & -> & ->).
       exists next, ms0, t0, (world r). split_and!; try done. left. by rewrite Hc2. }
  intros Hrun. apply IH in Hrun as (upto & ms & t & w & Hu & [Hall Hcov] & Hs & Hck & Hok); [|lia].
  exists upto, (List.filter (kept next end_) metas ++ ms), (t1 + t), w.
  simpl in Hs, Hck. rewrite Hw2 in Hs. split_and!; [lia| |by eapply stores_app| |done].
  - split.
    + apply Forall_app. split; [|eapply Forall_impl; [exact Hall|]; simpl; lia].
      apply Forall_forall. intros m [_ Hm]%list_elem_of_In%filter_In. unfold kept in Hm. lia.
    + intros l ms' m Hl Hf Hm Hseq. apply elem_of_app.
      destruct (Z.lt_ge_cases l upto1) as [Hl1|Hl1]; [left|right; by eapply (Hcov l); [lia|..]].
      assert (url_of l = url_of next) as Hurl.
      { unfold url_of. do 2 f_equal. apply object_key_same_file.
        rewrite (file_bounds_same sc next l); [done|done|unfold in_u in *; lia|lia]. }
      rewrite Hurl in Hf. unfold url_of in Hf. rewrite Ef in Hf. injection Hf as <-.
      apply list_elem_of_In, filter_In. split; [by apply list_elem_of_In|]. unfold kept. lia.
  - destruct Hck as [[-> Hm]|Hm]; right; [|done].
    rewrite Hm, Hc2, lookup_insert_eq. do 2 f_equal. unfold in_u, i_max in *. lia.
Qed.

Lemma range_loop_total fuel start end_ next (r : Run (W := W)) :
  in_u 32 end_ → 0 ≤ next → end_ - next < Z.of_nat fuel →
  is_Some (range_loop seq_of events_of version_of file sink cp_fault fuel cfg sc start end_ next r).
Proof.
  intros He. revert next r. induction fuel as [|fuel IH]; intros next r Hn Hf; cbn [range_loop].
  { rewrite (proj2 (Z.ltb_lt _ _)) by lia. done. }
  destruct (Z.ltb_spec end_ next); [done|]. destruct (_ <? next); [done|].
  assert (in_u 32 next) as Hin by (unfold in_u, u_max in *; lia).
  pose proof (file_bounds_contains sc next Hin) as [Hlo Hhi].
  destruct (file _) as [metas|]; [|done].
  destruct (store_metas _ _ _ _ _ _ _ _) as [[|] r1]; [|done].
  destruct (save_checkpoint _ _ _ _ _) as [[|] r2]; [|done]. apply IH; lia.
Qed.

Lemma load_resume_inv start end_ (r : Run (W := W)) res r' :
  load_resume_point cp_fault start end_ r = (res, r') →
  world r' = world r ∧ backfill_checkpoints r' = backfill_checkpoints r ∧
  match res with
  | Ok None => ∃ n, backfill_checkpoints r !! (start, end_) = Some (n, true)
  | Ok (Some n) => n = start ∨ backfill_checkpoints r !! (start, end_) = Some (n, false) ∧ 0 ≤ n
  | Err _ => True
  end.
Proof.
  unfold load_resume_point. destruct (cp_fault (cp_ops r)); intros [= <- <-]; [done|].
  split; [done|]. split; [done|]. destruct (_ !! _) as [[n [|]]|] eqn:E; [eauto| |auto].
  destruct (Z.ltb_spec n 0); auto.
Qed.

Lemma run_range_total start end_ (r : Run (W := W)) :
  in_u 32 start → in_u 32 end_ →
  is_Some (run_range seq_of events_of version_of file sink cp_fault cfg sc start end_ r).
Proof.
  intros Hs He. unfold run_range.
  destruct (load_resume_point cp_fault start end_ r) as [[[n|]|e] r1] eqn:E; [|done|done].
  apply load_resume_inv in E as (_ & _ & Hn). apply range_loop_total; [done| |unfold range_fuel; lia].
  unfold in_u in *. destruct Hn as [->|[_ ?]]; lia.
Qed.
End WorkerLemmas.

(** ** Lemmas: the events of a ledger *)

Section EventLemmas.
Context {X : Type}.
Variable to_xdr_base64 : X → option string.
Variable hex_encode : string → string.
Variable to_rfc3339 : Z → option string.
Abbreviation push := (push to_xdr_base64 hex_encode to_rfc3339).
Abbreviation push_from := (push_from to_xdr_base64 hex_encode to_rfc3339).
Abbreviation push_ops := (push_ops to_xdr_base64 hex_encode to_rfc3339).
Abbreviation push_tx_events := (push_tx_events to_xdr_base64 hex_encode to_rfc3339).
Abbreviation push_tx := (push_tx to_xdr_base64 hex_encode to_rfc3339).
Abbreviation push_txs := (push_txs to_xdr_base64 hex_encode to_rfc3339).

(** A property of every pushed event holds of all of them. *)
Lemma push_txs_forall (P : SorobanEvent → Prop) h :
  (∀ tx ev id k, Forall P (push h tx ev id k)) →
  ∀ txs i c, Forall P (push_txs h i c txs).
Proof.
  intros Hp.
  assert (∀ tx id evs k, Forall P (push_from h tx id k evs)) as Hf.
  { intros tx id evs. induction evs as [|ev evs IH]; intros k; simpl; [constructor|]. apply Forall_app; auto. }
  assert (∀ tx slot ops op, Forall P (push_ops h tx slot op ops)) as Ho.
  { intros tx slot ops. induction ops as [|evs ops IH]; intros op; simpl; [constructor|]. apply Forall_app; auto. }
  assert (∀ tx slot tes a c, Forall P (push_tx_events h tx slot a c tes).1) as Ht.
  { intros tx slot tes. induction tes as [|[[] ev] tes IH]; intros a c; simpl; [constructor|..].
    - specialize (IH a (S c.1, c.2)). destruct (push_tx_events _ _ _ _ _ tes). apply Forall_app; auto.
    - specialize (IH a (c.1, S c.2)). destruct (push_tx_events _ _ _ _ _ tes). apply Forall_app; auto.
    - specialize (IH (S a) c). destruct (push_tx_events _ _ _ _ _ tes). apply Forall_app; auto. }
  intros txs. induction txs as [|tx txs IH]; intros i c; simpl; [constructor|].
  assert (Forall P (push_tx h tx (Z.of_nat i + 1) c).1) as Htx.
  { unfold Backfill.push_tx. destruct (tx_meta tx) as [evs|ops tes|]; simpl; [apply Hf| |constructor].
    specialize (Ht tx (Z.of_nat i + 1) tes (match ops with evs :: _ => length evs | [] => 0%nat end) c).
    destruct (push_tx_events _ _ _ _ _ tes). apply Forall_app; auto. }
  destruct (push_tx h tx _ c). apply Forall_app; auto.
Qed.

Lemma events_are_strings m :
  Forall (λ e, ∃ s, ev_value e = VString s) (events_from_ledger to_xdr_base64 hex_encode to_rfc3339 m).
Proof.
  assert (∀ h tx ev id k, Forall (λ e, ∃ s, ev_value e = VString s) (push h tx ev id k)) as Hp.
  { intros h tx ev id k. unfold Backfill.push. destruct (contract_id ev); [|constructor].
    destruct (type_ ev); repeat constructor; simpl; unfold b64; eauto. }
  destruct m; [constructor|..]; apply push_txs_forall; apply Hp.
Qed.

(** *** Event ids

    The id of an event is determined by its slot, its operation and its index; [tagged out keys] says
    which. *)
Definition id_of (seq : Z) (key : Z * Z * Z) : option string :=
  Some (Toid.event_id (Toid.toid seq key.1.1 key.1.2) key.2).

Definition tagged (h : Header) (out : list SorobanEvent) (keys : list (Z * Z * Z)) : Prop :=
  ev_rpc_id <$> out = id_of (ledger_seq_ h) <$> keys.

Lemma tagged_app h o1 k1 o2 k2 : tagged h o1 k1 → tagged h o2 k2 → tagged h (o1 ++ o2) (k1 ++ k2).
Proof. unfold tagged. rewrite !fmap_app. congruence. Qed.

Lemma tagged_push h tx ev slot op k :
  ∃ keys, tagged h (push h tx ev (Toid.toid (ledger_seq_ h) slot op) k) keys ∧
    (keys = [] ∨ keys = [(slot, op, Z.of_nat k)]).
Proof.
  assert (∀ o, tagged h o [] ∨ tagged h o [(slot, op, Z.of_nat k)] →
    ∃ keys, tagged h o keys ∧ (keys = [] ∨ keys = [(slot, op, Z.of_nat k)])) as Hk by (intros o [?|?]; eauto).
  apply Hk. unfold Backfill.push. destruct (contract_id ev); [|by left].
  destruct (type_ ev); [by right|by right|by left].
Qed.

(** Keys without repetition, all satisfying [P]. *)
Definition fresh_keys (P : Z * Z * Z → Prop) (keys : list (Z * Z * Z)) : Prop := NoDup keys ∧ Forall P keys.

Lemma fresh_app (P Q R : Z * Z * Z → Prop) k1 k2 :
  fresh_keys P k1 → fresh_keys Q k2 → (∀ x, P x → Q x → False) → (∀ x, P x ∨ Q x → R x) →
  fresh_keys R (k1 ++ k2).
Proof.
  intros [N1 F1] [N2 F2] Hd Hr. split.
  - apply NoDup_app. split_and!; [done| |done]. intros x H1 H2. rewrite Forall_forall in F1, F2. eauto.
  - apply Forall_app. split; [eapply Forall_impl; [exact F1|]|eapply Forall_impl; [exact F2|]]; simpl; auto.
Qed.

Lemma fresh_weaken (P Q : Z * Z * Z → Prop) k : fresh_keys P k → (∀ x, P x → Q x) → fresh_keys Q k.
Proof. intros [N F] H. split; [done|]. by eapply Forall_impl. Qed.

Lemma fresh_push (P : Z * Z * Z → Prop) keys key : keys = [] ∨ keys = [key] → P key → fresh_keys P keys.
Proof. intros [->| ->] Hp; split; [constructor|constructor|apply NoDup_singleton|by constructor]. Qed.

(** Events numbered from [k] under one slot and operation. *)
Lemma tagged_push_from h tx slot op k evs :
  ∃ keys, tagged h (push_from h tx (Toid.toid (ledger_seq_ h) slot op) k evs) keys ∧
    fresh_keys (λ x, x.1 = (slot, op) ∧ Z.of_nat k ≤ x.2 < Z.of_nat (k + length evs)) keys.
Proof.
  revert k. induction evs as [|ev evs IH]; intros k; simpl.
  { exists []. split; [done|]. split; constructor. }
  destruct (tagged_push h tx ev slot op k) as (k1 & T1 & F1).
  destruct (IH (S k)) as (k2 & T2 & F2). exists (k1 ++ k2). split; [by apply tagged_app|].
  eapply (fresh_app (λ x, x = (slot, op, Z.of_nat k))); [by apply (fresh_push _ _ _ F1)|exact F2|..]; simpl.
  - intros x -> [_ ?]. simpl in *. lia.
  - intros x [->|[-> ?]]; simpl; split; done || lia.
Qed.

Lemma tagged_push_ops h tx slot op ops n :
  (sum_list_with length ops ≤ n)%nat →
  ∃ keys, tagged h (push_ops h tx slot op ops) keys ∧
    fresh_keys (λ x, x.1.1 = slot ∧ Z.of_nat op ≤ x.1.2 < Z.of_nat (op + length ops) ∧ 0 ≤ x.2 < Z.of_nat n) keys.
Proof.
  revert op. induction ops as [|evs ops IH]; intros op Hn; simpl in *.
  { exists []. split; [done|]. split; constructor. }
  destruct (tagged_push_from h tx slot (Z.of_nat op) 0 evs) as (k1 & T1 & F1).
  destruct (IH (S op)) as (k2 & T2 & F2); [lia|]. exists (k1 ++ k2). split; [by apply tagged_app|].
  eapply fresh_app; [exact F1|exact F2|..]; simpl.
  - intros [[a b] c] [[= -> ->] _] (_ & ? & _). simpl in *. lia.
  - intros [[a b] c] [[[= -> ->] ?]|(-> & ? & ?)]; simpl in *; split_and!; done || lia.
Qed.

(** Where the keys of a transaction's events may lie, between the counters [c] and [c']. *)
Definition tx_keys (slot : Z) (a n : nat) (c c' : counters) (x : Z * Z * Z) : Prop :=
  (x.1 = (0, 0) ∧ Z.of_nat c.1 ≤ x.2 < Z.of_nat c'.1) ∨
  (x.1 = (0xFFFFF, 0) ∧ Z.of_nat c.2 ≤ x.2 < Z.of_nat c'.2) ∨
  (x.1 = (slot, 0) ∧ Z.of_nat a ≤ x.2 < Z.of_nat n).

Lemma tagged_tx_events h tx slot a c tes out c' :
  1 ≤ slot < 0xFFFFF → push_tx_events h tx slot a c tes = (out, c') →
  (c.1 ≤ c'.1 ∧ c.2 ≤ c'.2 ∧ c'.1 + c'.2 ≤ c.1 + c.2 + length tes)%nat ∧
  ∃ keys, tagged h out keys ∧ fresh_keys (tx_keys slot a (a + length tes) c c') keys.
Proof.
  intros Hs. revert a c out. induction tes as [|[stage ev] tes IH]; intros a c out; simpl.
  { intros [= <- <-]. split; [lia|]. exists []. split; [done|]. split; constructor. }
  destruct stage.
  - destruct (push_tx_events h tx slot a (S c.1, c.2) tes) as [o c2] eqn:E. intros [= <- <-].
    apply IH in E as [Hc (k2 & T2 & F2)]. simpl in Hc. split; [lia|].
    destruct (tagged_push h tx ev 0 0 c.1) as (k1 & T1 & F1). exists (k1 ++ k2). split; [by apply tagged_app|].
    eapply (fresh_app (λ x, x = (0, 0, Z.of_nat c.1))); [by apply (fresh_push _ _ _ F1)|exact F2|..];
      unfold tx_keys; simpl.
    + intros x -> [[_ ?]|[[[=] _]|[[= <-] _]]]; simpl in *; lia.
    + intros [[x y] z] [[= -> -> ->]|[[? ?]|[[? ?]|[? ?]]]]; simpl in *; [left|left|right; left|right; right];
        split; done || lia.
  - destruct (push_tx_events h tx slot a (c.1, S c.2) tes) as [o c2] eqn:E. intros [= <- <-].
    apply IH in E as [Hc (k2 & T2 & F2)]. simpl in Hc. split; [lia|].
    destruct (tagged_push h tx ev 0xFFFFF 0 c.2) as (k1 & T1 & F1). exists (k1 ++ k2). split; [by apply tagged_app|].
    eapply (fresh_app (λ x, x = (0xFFFFF, 0, Z.of_nat c.2))); [by apply (fresh_push _ _ _ F1)|exact F2|..];
      unfold tx_keys; simpl.
    + intros x -> [[[=] _]|[[_ ?]|[[= <-] _]]]; simpl in *; lia.
    + intros [[x y] z] [[= -> -> ->]|[[? ?]|[[? ?]|[? ?]]]]; simpl in *; [right; left|left|right; left|right; right];
        split; done || lia.
  - destruct (push_tx_events h tx slot (S a) c tes) as [o c2] eqn:E. intros [= <- <-].
    apply IH in E as [Hc (k2 & T2 & F2)]. split; [lia|].
    destruct (tagged_push h tx ev slot 0 a) as (k1 & T1 & F1). exists (k1 ++ k2). split; [by apply tagged_app|].
    eapply (fresh_app (λ x, x = (slot, 0, Z.of_nat a))); [by apply (fresh_push _ _ _ F1)|exact F2|..];
      unfold tx_keys; simpl.
    + intros x -> [[[= ->] _]|[[[= ->] _]|[_ ?]]]; simpl in *; lia.
    + intros [[x y] z] [[= -> -> ->]|[[? ?]|[[? ?]|[? ?]]]]; simpl in *; [right; right|left|right; left|right; right];
        split; done || lia.
Qed.

(** The events a transaction carries, and the operations it has. *)
Definition tx_size (tx : Tx X) : nat :=
  match tx_meta tx with
  | TxV3 evs => length (default [] evs)
  | TxV4 ops tes => sum_list_with length ops + length tes
  | TxOther => 0
  end.

Definition tx_ops (tx : Tx X) : nat := match tx_meta tx with TxV4 ops _ => length ops | _ => 1 end.

(** Keys of a transaction in [slot] of a ledger with at most [n] events. *)
Definition slot_keys (slot : Z) (n : nat) (c c' : counters) (x : Z * Z * Z) : Prop :=
  (x.1 = (0, 0) ∧ Z.of_nat c.1 ≤ x.2 < Z.of_nat c'.1) ∨
  (x.1 = (0xFFFFF, 0) ∧ Z.of_nat c.2 ≤ x.2 < Z.of_nat c'.2) ∨
  (x.1.1 = slot ∧ 0 ≤ x.1.2 < 4096 ∧ 0 ≤ x.2 < Z.of_nat n).

Lemma tagged_tx h tx slot c n out c' :
  1 ≤ slot < 0xFFFFF → (tx_ops tx ≤ 4096)%nat → (tx_size tx ≤ n)%nat →
  push_tx h tx slot c = (out, c') →
  (c.1 ≤ c'.1 ∧ c.2 ≤ c'.2 ∧ c'.1 + c'.2 ≤ c.1 + c.2 + tx_size tx)%nat ∧
  ∃ keys, tagged h out keys ∧ fresh_keys (slot_keys slot n c c') keys.
Proof.
  intros Hs Ho Hn. unfold Backfill.push_tx, tx_size, tx_ops in *.
  destruct (tx_meta tx) as [evs|ops tes|]; simpl in *.
  - intros [= <- <-]. split; [lia|]. destruct (tagged_push_from h tx slot 0 0 (default [] evs)) as (k & T & F).
    exists k. split; [done|]. eapply fresh_weaken; [exact F|]. intros [[x y] z]; unfold tx_keys, slot_keys; simpl; intros [[= -> ->] ?].
    right; right. simpl in *. lia.
  - destruct (push_tx_events _ _ _ _ _ tes) as [o c2] eqn:E. intros [= <- <-].
    apply tagged_tx_events in E as [Hc (k2 & T2 & F2)]; [|done]. split; [lia|].
    destruct ops as [|evs ops]; simpl in *.
    + exists k2. split; [done|]. eapply fresh_weaken; [exact F2|].
      intros [[x y] z]; unfold tx_keys, slot_keys; simpl; intros [?|[?|[[= -> ->] ?]]]; [by left|by right; left|right; right]. simpl in *. lia.
    + destruct (tagged_push_from h tx slot 0 0 evs) as (k0 & T0 & F0).
      destruct (tagged_push_ops h tx slot 1 ops n) as (k1 & T1 & F1); [lia|].
      exists ((k0 ++ k1) ++ k2). split; [by apply tagged_app; [apply tagged_app|]|].
      eapply fresh_app; [eapply (fresh_app _ _ (λ x, x.1.1 = slot ∧ 0 ≤ x.1.2 < 4096 ∧ 0 ≤ x.2 < Z.of_nat n ∧
          (x.1.2 = 0 → x.2 < Z.of_nat (length evs)))); [exact F0|exact F1|..]|exact F2|..].
      * intros [[x y] z]; unfold tx_keys, slot_keys; simpl; intros [[= -> ->] _] (_ & ? & _). simpl in *. lia.
      * intros [[x y] z]; unfold tx_keys, slot_keys; simpl; intros [[[= -> ->] ?]|(-> & ? & ?)]; simpl in *; split_and!; done || lia.
      * intros [[x y] z]; unfold tx_keys, slot_keys; simpl; intros (-> & ? & ? & Hz) [[[= ->] _]|[[[= ->] _]|[[= ->] ?]]]; simpl in *; [lia|lia|].
        specialize (Hz eq_refl). lia.
      * intros [[x y] z]; unfold tx_keys, slot_keys; simpl; intros [(-> & ? & ? & _)|[?|[?|[[= -> ->] ?]]]]; [right; right|by left|by right; left|right; right];
          simpl in *; split_and!; done || lia.
  - intros [= <- <-]. split; [lia|]. exists []. split; [done|]. split; constructor.
Qed.

Lemma tagged_txs h txs i c n :
  (Z.of_nat (i + length txs) < 0xFFFFF) → Forall (λ tx, tx_ops tx ≤ 4096)%nat txs →
  (c.1 + c.2 + sum_list_with tx_size txs ≤ n)%nat →
  ∃ keys, tagged h (push_txs h i c txs) keys ∧
    fresh_keys (λ x, (x.1 = (0, 0) ∧ Z.of_nat c.1 ≤ x.2 < Z.of_nat n) ∨
                     (x.1 = (0xFFFFF, 0) ∧ Z.of_nat c.2 ≤ x.2 < Z.of_nat n) ∨
                     (Z.of_nat i < x.1.1 < 0xFFFFF ∧ 0 ≤ x.1.2 < 4096 ∧ 0 ≤ x.2 < Z.of_nat n)) keys.
Proof.
  revert i c. induction txs as [|tx txs IH]; intros i c Hi Ho Hn; simpl in *.
  { exists []. split; [done|]. split; constructor. }
  apply Forall_cons in Ho as [Ho1 Ho].
  destruct (push_tx h tx (Z.of_nat i + 1) c) as [out c'] eqn:E.
  apply (tagged_tx _ _ _ _ n) in E as [Hc (k1 & T1 & F1)]; [|lia|done|lia].
  destruct (IH (S i) c') as (k2 & T2 & F2); [lia|done|lia|].
  exists (k1 ++ k2). split; [by apply tagged_app|].
  eapply fresh_app; [exact F1|exact F2|..]; simpl.
  - intros [[x y] z]; unfold tx_keys, slot_keys; simpl; intros [[[= -> ->] ?]|[[[= -> ->] ?]|(-> & ? & ?)]] [[[=] ?]|[[[=] ?]|(? & ? & ?)]];
      simpl in *; lia.
  - intros [[x y] z]; unfold tx_keys, slot_keys; simpl; intros [[[[= -> ->] ?]|[[[= -> ->] ?]|(-> & ? & ?)]]|[[[= -> ->] ?]|[[[= -> ->] ?]|(? & ? & ?)]]];
      simpl in *; [left|right; left|right; right|left|right; left|right; right]; split_and!; done || lia.
Qed.

End EventLemmas.

(** ** Properties *)

(** [split_range] partitions: its chunks, in order, list every ledger of the range exactly once, each
    chunk non-empty and of at most [chunk] ledgers; the loop ends within one step per ledger, and no
    sum overflows even at the top of the range. *)
Theorem split_range_partition start end_ chunk :
  in_u 32 start → in_u 32 end_ →
  ledgers_of (split_range start end_ chunk) = seqZ start (end_ - start + 1) ∧
  Forall (λ r, start ≤ r.1 ∧ r.1 ≤ r.2 ∧ r.2 ≤ end_ ∧ r.2 - r.1 + 1 ≤ Z.max chunk 1) (split_range start end_ chunk) ∧
  is_Some (split_loop (Z.to_nat (end_ - start + 1)) start end_ (Z.max chunk 1)).
Proof.
  intros [? ?] [? ?].
  destruct (split_loop_spec (Z.to_nat (end_ - start + 1)) start end_ (Z.max chunk 1)) as (l & E & Hl & Hf);
    unfold u_max in *; [lia..|].
  unfold split_range. rewrite E. simpl. split_and!; [done| |done].
  exact Hf.
Qed.

Lemma split_range_partition_witness :
  ledgers_of (split_range 4294967290 4294967295 4) = seqZ 4294967290 6 ∧
  split_range 4294967290 4294967295 4 = [(4294967290, 4294967293); (4294967294, 4294967295)].
Proof.
  split; [|vm_compute; reflexivity].
  apply (split_range_partition 4294967290 4294967295 4); split; done.
Defined.

(** Two ledgers have the same object key exactly when they are in the same file; and a ledger is
    within the bounds of its file. *)
Theorem object_key_identifies_file sc a b (Ha : in_u 32 a) (Hb : in_u 32 b) :
  (object_key sc a = object_key sc b ↔ file_bounds sc a = file_bounds sc b) ∧
  (file_bounds sc a).1 ≤ a ≤ (file_bounds sc a).2.
Proof.
  split; [|by apply file_bounds_contains]. split.
  - intros E%object_key_inj; [|done..]. unfold file_bounds in *. simpl in *. by rewrite E.
  - intros E. apply object_key_same_file. by rewrite E.
Qed.

Lemma object_key_identifies_file_witness :
  let sc := mkSchema 64 1000 "zstd" in
  object_key sc 70 = "FFFFFFFF--0-63999/FFFFFFBF--64-127.xdr.zst"%string ∧
  (object_key sc 70 = object_key sc 127 ↔ file_bounds sc 70 = file_bounds sc 127).
Proof.
  split; [vm_compute; reflexivity|].
  apply (object_key_identifies_file (mkSchema 64 1000 "zstd") 70 127); split; done.
Defined.

(** C8. The checkpoint of a range never runs ahead of what was stored: whatever the files, the sink and
    the checkpoint statements do, a run that starts or resumes at [next] ends at some [upto] such that
    every ledger of [next, upto) found in its file has been stored, in order and within the range,
    before the checkpoint says [upto]; and when the run succeeds nothing else was stored and the whole
    range is done, and marked completed if it was not empty. *)
Theorem run_range_checkpoint_sound {L W} seq_of events_of version_of file
    (sink : list SorobanEvent → Z → W → result Z string * W) cp_fault cfg sc start end_ next
    (r r0 r' : Run (W := W)) res (Hs : in_u 32 start) (He : in_u 32 end_)
    (loaded : load_resume_point cp_fault start end_ r = (Ok (Some next), r0))
    (E : run_range (L := L) seq_of events_of version_of file sink cp_fault cfg sc start end_ r = Some (res, r')) :
  ∃ upto ms t w, next ≤ upto ∧ covers seq_of file cfg sc next upto end_ ms ∧
    stores events_of version_of sink ms (world r) t w ∧
    checkpointed start end_ next upto (backfill_checkpoints r) (backfill_checkpoints r') ∧
    (is_ok res = true → end_ < upto ∧ world r' = w ∧
       (next ≤ end_ → backfill_checkpoints r' !! (start, end_) = Some (upto, true))).
Proof.
  unfold run_range in E. rewrite loaded in E. apply load_resume_inv in loaded as (Hw & Hc & Hn).
  apply range_loop_spec in E as (upto & ms & t & w & Hu & Hcov & Hst & Hck & Hok); [|done|].
  2: { unfold in_u in *. destruct Hn as [->|[_ ?]]; lia. }
  rewrite Hw, Hc in *. exists upto, ms, t, w. split_and!; try done.
  intros [Hlt Hww]%Hok. split_and!; [done|done|]. intros Hne. destruct Hck as [[-> _]|Hck]; [lia|].
  rewrite Hck. do 2 f_equal. by apply Z.ltb_lt.
Qed.

(** A backfill run always comes to an end, whatever storage, sink and database answer. *)
Theorem run_terminates {L W} seq_of events_of version_of file
    (sink : list SorobanEvent → Z → W → result Z string * W) cp_fault cfg manifest (r : Run (W := W))
    (Hs : in_u 32 (start_ledger cfg)) (He : in_u 32 (end_ledger cfg)) :
  is_Some (run (L := L) seq_of events_of version_of file sink cp_fault cfg manifest r).
Proof.
  unfold run. destruct (match schema cfg with Some sc => Ok sc | None => manifest end) as [sc|]; [|done].
  assert (∀ l first_err q, Forall (λ x : Z * Z, in_u 32 x.1 ∧ in_u 32 x.2) l →
    is_Some (run_ranges seq_of events_of version_of file sink cp_fault cfg sc l first_err q)) as Hl.
  { intros l. induction l as [|[s e] l IH]; intros first_err q Hf; simpl; [done|].
    apply Forall_cons in Hf as [[Hs1 He1] Hf].
    destruct (run_range_total seq_of events_of version_of file sink cp_fault cfg sc s e q Hs1 He1) as [[res q'] ->].
    simpl. by apply IH. }
  edestruct (Hl (split_range (start_ledger cfg) (end_ledger cfg) (chunk_size cfg)) None r) as [[fe q] ->]; [|done].
  destruct Hs as [? ?], He as [? ?].
  destruct (split_loop_spec (Z.to_nat (end_ledger cfg - start_ledger cfg + 1)) (start_ledger cfg) (end_ledger cfg)
    (Z.max (chunk_size cfg) 1)) as (l & E & _ & Hf); unfold u_max in *; [lia..|].
  unfold split_range. rewrite E. eapply Forall_impl; [exact Hf|]. simpl. unfold in_u. lia.
Qed.

(** The ids of a ledger's events are pairwise distinct, up to 1048573 transactions of at most 4096
    operations and 2^31 - 1 events. *)
Theorem ledger_event_ids_unique {X} b64 hex rfc (h : Header) (txs : list (Tx X)) :
  in_u 32 (ledger_seq_ h) → Z.of_nat (length txs) < 0xFFFFF → Forall (λ tx, tx_ops tx ≤ 4096)%nat txs →
  Z.of_nat (sum_list_with tx_size txs) < 2 ^ 31 →
  NoDup (ev_rpc_id <$> events_from_ledger b64 hex rfc (V1 h txs)).
Proof.
  intros Hs Hl Ho Hn. simpl.
  destruct (tagged_txs b64 hex rfc h txs 0 (0%nat, 0%nat) (sum_list_with tx_size txs)) as (keys & T & [N F]);
    [simpl; lia|done|simpl; lia|].
  rewrite T. clear T. induction N as [|x keys Hx N IH]; [constructor|].
  apply Forall_cons in F as [Fx F]. constructor; [|by apply IH]. intros Hin.
  apply list_elem_of_fmap in Hin as (y & Hy & Hyin). rewrite Forall_forall in F. specialize (F y Hyin).
  apply Hx. enough (x = y) as -> by done. unfold id_of in Hy. injection Hy as Hy.
  assert (∀ z : Z * Z * Z, (z.1 = (0, 0) ∧ 0 ≤ z.2 < Z.of_nat (sum_list_with tx_size txs)) ∨
    (z.1 = (0xFFFFF, 0) ∧ 0 ≤ z.2 < Z.of_nat (sum_list_with tx_size txs)) ∨
    (0 < z.1.1 < 0xFFFFF ∧ 0 ≤ z.1.2 < 4096 ∧ 0 ≤ z.2 < Z.of_nat (sum_list_with tx_size txs)) →
    in_u 20 z.1.1 ∧ in_u 12 z.1.2 ∧ 0 ≤ z.2 < 2 ^ 31) as Hr.
  { intros [[a b] c]; unfold in_u; simpl; intros [[[= -> ->] ?]|[[[= -> ->] ?]|(? & ? & ?)]]; lia. }
  destruct (Hr x Fx) as (? & ? & ?), (Hr y F) as (? & ? & ?).
  apply Toid.event_id_inj in Hy as (? & ? & ?); try done.
  destruct x as [[? ?] ?], y as [[? ?] ?]. simpl in *. congruence.
Qed.

(** No event of the data lake is ever stored: its value is a JSON string, which the insert path
    rejects, so whatever else happens a batch of them commits no event. *)
Theorem backfill_stores_nothing {X B} `{BloomFilter B} b64 hex rfc (m : LedgerCloseMeta X) cfg env sv
    (s : EventStore.St (B := B)) r s'
    (E : EventStore.store_events cfg env (events_from_ledger b64 hex rfc m) sv s = (r, s')) :
  EventStore.events (EventStore.committed s') = EventStore.events (EventStore.committed s) ∧
  (r = Ok 0 ∨ is_ok r = false).
Proof.
  apply EventStore.store_events_outcome in E. destruct r as [n|er]; [|rewrite E; auto].
  destruct E as (rows & -> & -> & (es & Hsub & F) & _).
  enough (rows = []) as -> by (rewrite app_nil_r; auto).
  destruct F as [|e row es rows (ts & q & _ & _ & Hv & _) F]; [done|]. exfalso.
  pose proof (events_are_strings b64 hex rfc m) as Hstr. rewrite Forall_forall in Hstr.
  destruct (Hstr e) as [str Hval].
  { eapply elem_of_sublist; [|exact Hsub]. constructor. }
  unfold Xdr.validate_event_data in Hv. by rewrite Hval in Hv.
Qed.

(** What the command line accepts is a non-empty range of 32-bit ledgers. *)
Theorem parse_cli_range_correct args f t (E : parse_cli_range args = Ok (Some (f, t))) :
  f ≤ t ∧ in_u 32 f ∧ in_u 32 t.
Proof.
  assert (∀ n l slots out, (length l < n)%nat → scan_args l slots = Ok out →
    (∀ x, slots.1 = Some x ∨ slots.2 = Some x → in_u 32 x) → ∀ x, out.1 = Some x ∨ out.2 = Some x → in_u 32 x) as Hs.
  { intros n. induction n as [|n IH]; [lia|]. intros [|a l] slots out Hlen; simpl.
    { by intros [= <-]. }
    assert (∀ slot v raw, parse_u 32 raw = Some v → (∀ x, slots.1 = Some x ∨ slots.2 = Some x → in_u 32 x) →
      ∀ x, (fill slot v slots).1 = Some x ∨ (fill slot v slots).2 = Some x → in_u 32 x) as Hfill.
    { intros slot v raw Hv%parse_u_range Ho x. unfold fill. destruct slot; simpl; naive_solver. }
    destruct (match split_once _ _ with Some _ => _ | None => _ end) as [flag inline].
    destruct (flag_slot flag) as [slot|]; [|apply IH; simpl in *; lia].
    destruct inline as [raw|].
    - destruct (parse_u 32 raw) eqn:Hp; [|done]. intros Hout Ho. eapply IH; [|exact Hout|eauto]. simpl in *. lia.
    - destruct l as [|raw l]; [done|]. destruct (parse_u 32 raw) eqn:Hp; [|done].
      intros Hout Ho. eapply IH; [|exact Hout|eauto]. simpl in *. lia. }
  unfold parse_cli_range in E. destruct (scan_args args (None, None)) as [[[f'|] [t'|]]|] eqn:Ea; simpl in E; try done.
  destruct (Z.leb_spec f' t'); [|done]. injection E as <- <-. split; [done|].
  pose proof (Hs _ _ _ _ (Nat.lt_succ_diag_r _) Ea) as Hr. simpl in Hr.
  split; apply Hr; naive_solver.
Qed.

(** ** Concrete instances *)

Definition demo_cfg : BackfillConfig := mkBackfill "https://lake" 100 104 2 4 3 (Some (mkSchema 1 64000 "zstd")).

(** Each file holds every number from 98 to 106; the sink logs what it stores. *)
Definition demo_sink (es : list SorobanEvent) (v : Z) (w : list Z) : result Z string * list Z := (Ok 1, w ++ [v]).
Definition demo_file (key : string) : result (list Z) string := Ok [98; 99; 100; 101; 102; 103; 104; 105; 106].
Definition demo_run : Run (W := list Z) := mkRun [] ∅ 0 0 0 0.

(** The second checkpoint statement fails. *)
Definition demo_fault (n : nat) : option string := if (n =? 2)%nat then Some "timeout"%string else None.

Lemma run_range_checkpoint_sound_witness :
  let out := run_range id (λ _, []) id demo_file demo_sink demo_fault demo_cfg (mkSchema 2 64000 "zstd") 100 104 demo_run in
  (λ x, (world x.2, backfill_checkpoints x.2 !! (100, 104))) <$> out = Some ([100; 101; 102; 103; 104; 102; 103; 104], Some (102, false)) ∧
  match out with
  | Some (res, r') => ∃ upto ms t w, 100 ≤ upto ∧
      covers id demo_file demo_cfg (mkSchema 2 64000 "zstd") 100 upto 104 ms ∧
      stores (λ _, []) id demo_sink ms (world demo_run) t w
  | None => False
  end.
Proof.
  intros out. split; [vm_compute; reflexivity|].
  destruct out as [[res r']|] eqn:E.
  - destruct (run_range_checkpoint_sound id (λ _, []) id demo_file demo_sink demo_fault demo_cfg
      (mkSchema 2 64000 "zstd") 100 104 100 demo_run (mkRun [] ∅ 1 0 0 0) r' res
      ltac:(split; done) ltac:(split; done) eq_refl E) as (upto & ms & t & w & ? & ? & ? & _).
    exists upto, ms, t, w. auto.
  - revert E. assert (is_Some out) as [x Hx] by (vm_compute; eauto). by rewrite Hx.
Defined.

Lemma run_terminates_witness :
  is_Some (run id (λ _, []) id demo_file demo_sink demo_fault demo_cfg (Err "no manifest"%string) demo_run).
Proof.
  apply (run_terminates id (λ _, []) id demo_file demo_sink demo_fault demo_cfg (Err "no manifest"%string) demo_run);
    split; done.
Defined.

Definition demo_event (c : string) : ContractEvent string := mkEvent (Some c) Contract ["transfer"%string] "5"%string.
Definition demo_header : Header := mkHeader 60000000 23 1750000000 "h".
Definition demo_txs : list (Tx string) :=
  [mkTx "t1" true (TxV3 (Some [demo_event "C1"; demo_event "C1"]));
   mkTx "t2" true (TxV4 [[demo_event "C1"]; [demo_event "C2"; demo_event "C2"]]
                        [(BeforeAllTxs, demo_event "C3"); (AfterTx, demo_event "C3"); (AfterAllTxs, demo_event "C3")]);
   mkTx "t3" false (TxV4 [] [(BeforeAllTxs, demo_event "C3")])].

Lemma ledger_event_ids_unique_witness :
  length (events_from_ledger Some id (λ _, None) (V1 demo_header demo_txs)) = 9%nat ∧
  NoDup (ev_rpc_id <$> events_from_ledger Some id (λ _, None) (V1 demo_header demo_txs)).
Proof.
  split; [vm_compute; reflexivity|].
  apply (ledger_event_ids_unique Some id (λ _, None) demo_header demo_txs).
  - split; done.
  - done.
  - apply (bool_decide_unpack _). vm_compute. exact I.
  - done.
Defined.

Lemma backfill_stores_nothing_witness :
  let es := events_from_ledger Some id (λ _, None) (V1 demo_header demo_txs) in
  let out := EventStore.store_events EventStore.demo_cfg (EventStore.demo_env EventStore.healthy) es 23 EventStore.demo_state in
  out.1 = Ok 0 ∧
  EventStore.events (EventStore.committed out.2) = EventStore.events (EventStore.committed EventStore.demo_state).
Proof.
  intros es out. split; [vm_compute; reflexivity|].
  apply (backfill_stores_nothing Some id (λ _, None) (V1 demo_header demo_txs) EventStore.demo_cfg
    (EventStore.demo_env EventStore.healthy) 23 EventStore.demo_state out.1 out.2).
  apply surjective_pairing.
Defined.

Lemma parse_cli_range_correct_witness :
  let args := ["soroban-pulse"; "--backfill-from=100"; "--backfill-to"; "200"]%string in
  parse_cli_range args = Ok (Some (100, 200)) ∧ 100 ≤ 200 ∧ in_u 32 100 ∧ in_u 32 200.
Proof.
  split; [vm_compute; reflexivity|].
  apply (parse_cli_range_correct ["soroban-pulse"; "--backfill-from=100"; "--backfill-to"; "200"]%string).
  vm_compute. reflexivity.
Defined.

End Backfill.
