(* ===== verification/RpcEndpoints.v ===== *)
(** rpc_endpoints.rs: endpoint health, latency-ordered candidate selection and
    probe scheduling; and the failover loop of indexer.rs
    ([SorobanRpcClient::call_with_failover]) that uses it.

    Endpoint labels and metrics are left out: they only feed logs. *)

From S2P Require Import Prelude F64.

Module RpcEndpoints.

Definition MAX_CONSECUTIVE_ERRORS : Z := 3.
Definition LATENCY_WINDOW : nat := 10.
(** Durations in nanoseconds. *)
Definition PROBE_INTERVAL : Z := 30 * 10 ^ 9.
Definition UNAVAILABLE_REPROBE_INTERVAL : Z := 60 * 10 ^ 9.
Definition SCHEDULE_SLACK : Z := 10 ^ 9.

(** [EndpointHealth]; an [Instant] is a number of nanoseconds. *)
Record EndpointHealth : Type := mkHealth {
  samples : list f64;
  consecutive_errors : Z;
  unavailable : bool;
  last_probe : option Z;
}.

Definition health_default : EndpointHealth := mkHealth [] 0 false None.

(** [p50_ms]. *)
Definition p50_ms (h : EndpointHealth) : option f64 :=
  match samples h with
  | [] => None
  | _ =>
      let sorted := sort_by F64.total_cmp (samples h) in
      let mid := (length sorted / 2)%nat in
      Some (if Nat.even (length sorted)
            then F64.div (F64.add (nth (mid - 1) sorted (F64.of_Z 0)) (nth mid sorted (F64.of_Z 0)))
                         (F64.of_Z 2)
            else nth mid sorted (F64.of_Z 0))
  end.

(** [RpcEndpoints]: the URLs in configuration order with their health. *)
Record RpcEndpoints : Type := mkEndpoints {
  urls : list string;
  health : list EndpointHealth;
}.

(** [new]: drops duplicates, panics ([None]) on an empty list. *)
Definition unique_urls (urls : list string) : list string :=
  foldl (λ unique url, if bool_decide (url ∈ unique) then unique else unique ++ [url]) [] urls.

Definition new (urls : list string) : option RpcEndpoints :=
  match unique_urls urls with
  | [] => None
  | unique => Some {| urls := unique; health := (λ _, health_default) <$> unique |}
  end.

Definition len (e : RpcEndpoints) : nat := length (urls e).

(** The tuple [candidates] sorts by. *)
Definition sort_key : Type := ((bool * bool) * f64) * nat.

Definition key_cmp : sort_key → sort_key → comparison :=
  cmp_pair (cmp_pair (cmp_pair bool_cmp bool_cmp) F64.total_cmp) Nat.compare.

Definition key_of (e : RpcEndpoints) (idx : nat) : sort_key :=
  let h := default health_default (health e !! idx) in
  (unavailable h, 0 <? consecutive_errors h, default F64.infinity (p50_ms h), idx).

(** [candidates] and [best]. *)
Definition candidates (e : RpcEndpoints) : list nat :=
  snd <$> sort_by key_cmp (key_of e <$> seq 0 (len e)).

Definition best (e : RpcEndpoints) : option nat := head (candidates e).

(** [record_success] on one endpoint's health. *)
Definition health_success (h : EndpointHealth) : EndpointHealth :=
  mkHealth (samples h) 0 false (last_probe h).

(** [record_latency]: [latency] in nanoseconds, stored as milliseconds. *)
Definition as_millis_f64 (latency : Z) : f64 :=
  F64.mul (F64.add (F64.of_Z (latency / 10 ^ 9))
                   (F64.div (F64.of_Z (latency mod 10 ^ 9)) (F64.of_Z (10 ^ 9))))
          (F64.of_Z 1000).

Definition health_latency (latency : Z) (h : EndpointHealth) : EndpointHealth :=
  let window := if Nat.eqb (length (samples h)) LATENCY_WINDOW then tail (samples h) else samples h in
  health_success (mkHealth (window ++ [as_millis_f64 latency])
                           (consecutive_errors h) (unavailable h) (last_probe h)).

(** [record_failure]: whether this failure made the endpoint unavailable. *)
Definition health_failure (h : EndpointHealth) : bool * EndpointHealth :=
  let errors := sat_add_u 32 (consecutive_errors h) 1 in
  if negb (unavailable h) && (MAX_CONSECUTIVE_ERRORS <=? errors)
  then (true, mkHealth [] errors true (last_probe h))
  else (false, mkHealth (samples h) errors (unavailable h) (last_probe h)).

Definition health_probed (at_ : Z) (h : EndpointHealth) : EndpointHealth :=
  mkHealth (samples h) (consecutive_errors h) (unavailable h) (Some at_).

Definition on_endpoint (f : EndpointHealth → EndpointHealth) (idx : nat) (e : RpcEndpoints) :
    RpcEndpoints :=
  {| urls := urls e; health := alter f idx (health e) |}.

Definition record_success (idx : nat) : RpcEndpoints → RpcEndpoints := on_endpoint health_success idx.
Definition record_latency (idx : nat) (latency : Z) : RpcEndpoints → RpcEndpoints :=
  on_endpoint (health_latency latency) idx.
Definition record_failure (idx : nat) : RpcEndpoints → RpcEndpoints :=
  on_endpoint (λ h, (health_failure h).2) idx.
Definition mark_probed (idx : nat) (at_ : Z) : RpcEndpoints → RpcEndpoints :=
  on_endpoint (health_probed at_) idx.

(** [due_for_probe]. *)
Definition due_for_probe (now : Z) (h : EndpointHealth) : bool :=
  let interval := if unavailable h then UNAVAILABLE_REPROBE_INTERVAL else PROBE_INTERVAL in
  match last_probe h with
  | None => true
  | Some last => interval <=? sat_sub_u now last + SCHEDULE_SLACK
  end.

(** [RpcLatencyProbe::probe_due]: every due endpoint is marked and pinged;
    [ping idx] is the measured latency or the failure. *)
Definition probe_one (ping : nat → result Z string) (now : Z) (e : RpcEndpoints) (idx : nat) :
    RpcEndpoints :=
  let e := mark_probed idx now e in
  match ping idx with
  | Ok latency => record_latency idx latency e
  | Err _ => record_failure idx e
  end.

Definition probe_due (ping : nat → result Z string) (now : Z) (e : RpcEndpoints) : RpcEndpoints :=
  foldl (probe_one ping now) e
    (List.filter (λ idx, due_for_probe now (default health_default (health e !! idx)))
                 (seq 0 (len e))).

(** ** indexer.rs: [call_with_failover] *)

(** [RpcResponse<T>]: the result, or an error message. *)
Record RpcResponse (T : Type) : Type := mkRpcResponse {
  rpc_result : option T;
  rpc_error : option string;
}.
Arguments mkRpcResponse {T}.
Arguments rpc_result {T}.
Arguments rpc_error {T}.

(** The client: endpoint health, the endpoint of the last success, and the
    number of failovers counted. *)
Record RpcClient : Type := mkClient {
  endpoints : RpcEndpoints;
  active_idx : nat;
  failovers : nat;
}.

Section Failover.
Context {T : Type}.
(** One request to endpoint [idx] ([post_once]). *)
Variable post_once : nat → result (RpcResponse T) string.

Definition note_success (idx : nat) (c : RpcClient) : RpcClient :=
  {| endpoints := record_success idx (endpoints c);
     active_idx := idx;
     failovers := if Nat.eqb (active_idx c) idx then failovers c else S (failovers c) |}.

Definition note_failure (idx : nat) (c : RpcClient) : RpcClient :=
  {| endpoints := record_failure idx (endpoints c);
     active_idx := active_idx c; failovers := failovers c |}.

Fixpoint failover_loop (cands : list nat) (rpc_err : option string) (transport_err : string)
    (c : RpcClient) : result T string * RpcClient :=
  match cands with
  | [] => (Err (default transport_err rpc_err), c)
  | idx :: rest =>
      match post_once idx with
      | Ok r =>
          match rpc_result r with
          | Some x => (Ok x, note_success idx c)
          | None =>
              let message := default "RPC returned no result"%string (rpc_error r) in
              failover_loop rest (match rpc_err with Some m => Some m | None => Some message end)
                            transport_err c
          end
      | Err e => failover_loop rest rpc_err e (note_failure idx c)
      end
  end.

Definition call_with_failover (c : RpcClient) : result T string * RpcClient :=
  failover_loop (candidates (endpoints c)) None "no RPC endpoint reachable" c.

(** How one endpoint answered. *)
Definition served (idx : nat) : option T :=
  match post_once idx with Ok r => rpc_result r | Err _ => None end.

Definition rpc_message (idx : nat) : option string :=
  match post_once idx with
  | Ok r => match rpc_result r with
            | Some _ => None
            | None => Some (default "RPC returned no result"%string (rpc_error r))
            end
  | Err _ => None
  end.

(** The specification of the answer: the first candidate that serves. *)
Definition first_served (cands : list nat) : option (nat * T) :=
  head (omap (λ idx, pair idx <$> served idx) cands).

(** ** Lemmas *)

Lemma failover_loop_result cands rpc_err te c :
  (failover_loop cands rpc_err te c).1 =
  match first_served cands with
  | Some (_, x) => Ok x
  | None => (failover_loop cands rpc_err te c).1
  end.
Proof.
  revert rpc_err te c. induction cands as [|idx rest IH]; intros; [done|].
  unfold first_served, served in *. simpl.
  destruct (post_once idx) as [[[x|] ?]|?]; simpl; [done|apply IH..].
Qed.

Lemma failover_loop_rpc_error cands rpc_err te c :
  first_served cands = None →
  ∃ te', (failover_loop cands rpc_err te c).1 =
         Err (default te' (match rpc_err with Some m => Some m | None => head (omap rpc_message cands) end)).
Proof.
  revert rpc_err te c. induction cands as [|idx rest IH]; intros rpc_err te c Hn.
  { exists te. by destruct rpc_err. }
  unfold first_served, served, rpc_message in *. simpl in *.
  destruct (post_once idx) as [[[x|] ?]|?]; simpl in *; [done| |by apply IH].
  edestruct IH as [te' ->]; [done|]. exists te'. by destruct rpc_err.
Qed.

Lemma failover_loop_active cands rpc_err te c :
  active_idx (failover_loop cands rpc_err te c).2 =
  match first_served cands with Some (idx, _) => idx | None => active_idx c end.
Proof.
  revert rpc_err te c. induction cands as [|idx rest IH]; intros; [done|].
  unfold first_served, served in *. simpl.
  destruct (post_once idx) as [[[x|] ?]|?]; simpl; [done|by rewrite IH..].
Qed.

End Failover.

#[export] Instance key_cmp_laws : CmpLaws key_cmp.
Proof. unfold key_cmp. apply _. Qed.

Lemma candidates_permutation e : candidates e ≡ₚ seq 0 (len e).
Proof.
  unfold candidates. rewrite sort_by_permutation.
  rewrite <- list_fmap_compose. simpl. by rewrite list_fmap_id.
Qed.

Lemma candidates_keys e :
  key_of e <$> candidates e = sort_by key_cmp (key_of e <$> seq 0 (len e)).
Proof.
  unfold candidates. rewrite <- list_fmap_compose.
  assert (∀ k, k ∈ sort_by key_cmp (key_of e <$> seq 0 (len e)) → key_of e k.2 = k) as Hk.
  { intros k. rewrite sort_by_permutation. intros (i & -> & _)%list_elem_of_fmap. done. }
  induction (sort_by key_cmp _) as [|k l IH]; [done|]. simpl.
  rewrite Hk by set_solver. f_equal. apply IH. set_solver.
Qed.

(** Steps that change one endpoint's health. *)
Inductive health_step (h : EndpointHealth) : EndpointHealth → Prop :=
| step_success : health_step h (health_success h)
| step_latency l : health_step h (health_latency l h)
| step_failure : health_step h (health_failure h).2
| step_probed t : health_step h (health_probed t h).

Definition health_inv (h : EndpointHealth) : Prop :=
  (length (samples h) ≤ LATENCY_WINDOW)%nat ∧
  0 ≤ consecutive_errors h ≤ u_max 32 ∧
  unavailable h = (MAX_CONSECUTIVE_ERRORS <=? consecutive_errors h).

Lemma health_step_inv h h' : health_inv h → health_step h h' → health_inv h'.
Proof.
  intros (Hl & He & Hu) []; unfold health_inv, health_failure, sat_add_u, u_max, MAX_CONSECUTIVE_ERRORS in *;
    simpl in *.
  - split_and!; [done|lia|lia|done].
  - split_and!; [|lia|lia|done]. rewrite length_app. simpl. unfold LATENCY_WINDOW in *.
    destruct (Nat.eqb_spec (length (samples h)) 10); [|lia].
    destruct (samples h); simpl in *; lia.
  - rewrite Hu. destruct (Z.leb_spec 3 (consecutive_errors h)),
      (Z.leb_spec 3 (Z.min (2 ^ 32 - 1) (consecutive_errors h + 1))); simpl;
      split_and!; try lia.
  - done.
Qed.

(** ** Properties *)

(** Every endpoint is tried at most once and none is left out: the candidate
    order is a permutation of the endpoints, sorted by availability, recent
    error, median latency and configuration order. *)
Theorem candidates_sorted e i j a b :
  (i < j)%nat → candidates e !! i = Some a → candidates e !! j = Some b →
  candidates e ≡ₚ seq 0 (len e) ∧ key_cmp (key_of e a) (key_of e b) = Lt.
Proof.
  intros Hij Ha Hb. split; [apply candidates_permutation|].
  pose proof (sort_by_sorted key_cmp (key_of e <$> seq 0 (len e))) as Hs.
  rewrite <- candidates_keys in Hs.
  assert (cmp_le key_cmp (key_of e a) (key_of e b)) as Hle.
  { eapply (StronglySorted_lookup _ _ i j _ _ Hs Hij);
      rewrite list_lookup_fmap; [by rewrite Ha|by rewrite Hb]. }
  unfold cmp_le, cmp_leb in Hle. destruct (key_cmp _ _) eqn:E; [|done|done].
  apply cmp_eq, (f_equal snd) in E. simpl in E. subst b.
  assert (NoDup (candidates e)) as Hnd.
  { rewrite candidates_permutation. apply NoDup_seq. }
  pose proof (NoDup_lookup _ _ _ _ Hnd Ha Hb). lia.
Qed.

Definition demo : RpcEndpoints :=
  record_latency 1 2000000 (record_failure 0 (mkEndpoints ["a"; "b"; "c"] (replicate 3 health_default))).

Lemma candidates_sorted_witness :
  candidates demo = [1; 2; 0]%nat ∧
  (candidates demo ≡ₚ seq 0 (len demo) ∧ key_cmp (key_of demo 2) (key_of demo 0) = Lt).
Proof.
  split; [vm_compute; reflexivity|].
  apply (candidates_sorted demo 1 2 2 0); [lia|vm_compute; reflexivity|vm_compute; reflexivity].
Defined.

(** Failover: the call answers with the first candidate that serves a result
    and makes it the active endpoint; when none does, the first JSON-RPC
    error message takes precedence over any transport error. *)
Theorem call_with_failover_spec {T} (post_once : nat → result (RpcResponse T) string) c :
  match first_served post_once (candidates (endpoints c)) with
  | Some (idx, x) =>
      (call_with_failover post_once c).1 = Ok x ∧ active_idx (call_with_failover post_once c).2 = idx
  | None =>
      active_idx (call_with_failover post_once c).2 = active_idx c ∧
      ∃ transport, (call_with_failover post_once c).1 =
        Err (default transport (head (omap (rpc_message post_once) (candidates (endpoints c)))))
  end.
Proof.
  unfold call_with_failover.
  destruct (first_served post_once _) as [[idx x]|] eqn:E.
  - by rewrite failover_loop_result, failover_loop_active, E.
  - split; [by rewrite failover_loop_active, E|]. by apply (failover_loop_rpc_error _ _ None).
Qed.

(** Health invariant: in every reachable state the latency window is bounded
    and an endpoint is unavailable exactly when its current run of failures
    has reached [MAX_CONSECUTIVE_ERRORS]. *)
Theorem health_reachable h :
  rtc health_step health_default h →
  (length (samples h) ≤ LATENCY_WINDOW)%nat ∧
  (unavailable h = true ↔ MAX_CONSECUTIVE_ERRORS ≤ consecutive_errors h).
Proof.
  intros Hr. assert (health_inv h) as (Hl & He & Hu).
  { assert (health_inv health_default) as H0 by (split_and!; vm_compute; (done || lia)).
    revert H0. clear -Hr. induction Hr; eauto using health_step_inv. }
  split; [done|]. rewrite Hu. apply Z.leb_le.
Qed.

Lemma health_reachable_witness :
  let h := (health_failure (health_failure (health_failure health_default).2).2).2 in
  unavailable h = true ∧
  ((length (samples h) ≤ LATENCY_WINDOW)%nat ∧
   (unavailable h = true ↔ MAX_CONSECUTIVE_ERRORS ≤ consecutive_errors h)).
Proof.
  intros h. split; [vm_compute; reflexivity|].
  apply health_reachable. do 3 (eapply rtc_r; [|apply step_failure]). apply rtc_refl.
Defined.

End RpcEndpoints.
