(* ===== verification/RetryPolicy.v ===== *)
(** retry_policy.rs: backoff strategies, the retry loops and the retry metrics.

    The wall clock and the hasher seed behind [apply_jitter] are a [u64]
    argument, drawn per attempt; the sleeps of a run are returned as a list
    of milliseconds. *)

From S2P Require Import Prelude F64.

Module RetryPolicy.

Inductive RetryStrategy : Type := Exponential | Linear | Fixed.

(** [RetryStrategy::calculate_backoff]: [attempt : u32], durations [u64] ms. *)
Definition strategy_backoff (s : RetryStrategy) (attempt initial_ms : Z) (multiplier : f64) : Z :=
  match s with
  | Exponential =>
      F64.to_u 64 (F64.mul (F64.of_Z initial_ms)
                           (F64.powi multiplier (wrap_i 32 (wrap_u 32 (attempt - 1)))))
  | Linear => mul_u 64 initial_ms attempt
  | Fixed => initial_ms
  end.

Record RetryPolicy : Type := mkPolicy {
  max_attempts : Z;
  initial_backoff_ms : Z;
  backoff_multiplier : f64;
  max_backoff_ms : Z;
  strategy : option RetryStrategy;
  use_jitter : bool;
}.

Definition default_policy : RetryPolicy :=
  mkPolicy 3 1000 (F64.of_Z 2) 60000 (Some Exponential) false.
Definition webhook_default : RetryPolicy :=
  mkPolicy 5 1000 (F64.of_Z 2) 600000 (Some Exponential) true.
Definition email_default : RetryPolicy :=
  mkPolicy 1 0 (F64.of_Z 1) 0 (Some Fixed) false.
Definition sms_default : RetryPolicy :=
  mkPolicy 2 2000 (F64.lit 3 2) 10000 (Some Linear) true.

(** [apply_jitter], from the 64-bit hash. *)
Definition apply_jitter (hash backoff_ms : Z) : Z :=
  let ratio := F64.div (F64.of_Z hash) (F64.of_Z (u_max 64)) in
  let ratio := if F64.ltb ratio (F64.of_Z 0) then F64.of_Z 0 else ratio in
  let ratio := if F64.ltb (F64.of_Z 1) ratio then F64.of_Z 1 else ratio in
  F64.to_u 64 (F64.mul (F64.of_Z backoff_ms) ratio).

(** [RetryPolicy::calculate_backoff], in milliseconds. *)
Definition calculate_backoff (p : RetryPolicy) (hash attempt : Z) : Z :=
  if (attempt =? 0) || (initial_backoff_ms p =? 0) then 0
  else
    let strat := default Exponential (strategy p) in
    let backoff := strategy_backoff strat attempt (initial_backoff_ms p) (backoff_multiplier p) in
    let capped := Z.min backoff (max_backoff_ms p) in
    if use_jitter p then apply_jitter hash capped else capped.

(** ** Metrics *)

(** [PolicyCounters]: five [AtomicU64]. *)
Record PolicyCounters : Type := mkCounters {
  attempts : Z;
  successes : Z;
  retries : Z;
  exhausted : Z;
  total_backoff_ms : Z;
}.

Definition zero_counters : PolicyCounters := mkCounters 0 0 0 0 0.

(** [RetryMetrics]: counters by policy name; [counters_for] creates them on first use. *)
Abbreviation RetryMetrics := (gmap string PolicyCounters).

Definition counters_for (m : RetryMetrics) (name : string) : PolicyCounters :=
  default zero_counters (m !! name).

Definition record_attempt (name : string) (m : RetryMetrics) : RetryMetrics :=
  let c := counters_for m name in
  <[name := mkCounters (add_u 64 (attempts c) 1) (successes c) (retries c) (exhausted c)
              (total_backoff_ms c)]> m.

Definition record_success (name : string) (m : RetryMetrics) : RetryMetrics :=
  let c := counters_for m name in
  <[name := mkCounters (attempts c) (add_u 64 (successes c) 1) (retries c) (exhausted c)
              (total_backoff_ms c)]> m.

Definition record_retry (name : string) (backoff : Z) (m : RetryMetrics) : RetryMetrics :=
  let c := counters_for m name in
  <[name := mkCounters (attempts c) (successes c) (add_u 64 (retries c) 1) (exhausted c)
              (add_u 64 (total_backoff_ms c) backoff)]> m.

Definition record_exhausted (name : string) (m : RetryMetrics) : RetryMetrics :=
  let c := counters_for m name in
  <[name := mkCounters (attempts c) (successes c) (retries c) (add_u 64 (exhausted c) 1)
              (total_backoff_ms c)]> m.

(** [dashboard_snapshot]: one row per policy. *)
Record RetryDashboardEntry : Type := mkEntry {
  policy_name : string;
  d_counters : PolicyCounters;
  success_rate : f64;
  avg_backoff_ms : f64;
}.

Definition dashboard_entry (name : string) (c : PolicyCounters) : RetryDashboardEntry :=
  {| policy_name := name;
     d_counters := c;
     success_rate := if attempts c =? 0 then F64.of_Z 0
                     else F64.div (F64.of_Z (successes c)) (F64.of_Z (attempts c));
     avg_backoff_ms := if retries c =? 0 then F64.of_Z 0
                       else F64.div (F64.of_Z (total_backoff_ms c)) (F64.of_Z (retries c)) |}.

Definition dashboard_snapshot (m : RetryMetrics) : list RetryDashboardEntry :=
  (λ '(n, c), dashboard_entry n c) <$> map_to_list m.

(** [RetryPolicyRegistry]. *)
Abbreviation RetryPolicyRegistry := (gmap string RetryPolicy).

Definition with_defaults : RetryPolicyRegistry :=
  <["sms"%string := sms_default]> (<["email"%string := email_default]>
    (<["webhook"%string := webhook_default]> (∅ : gmap string RetryPolicy))).

Definition register (name : string) (p : RetryPolicy) (r : RetryPolicyRegistry) :
    RetryPolicyRegistry := <[name := p]> r.

Definition get (name : string) (r : RetryPolicyRegistry) : option RetryPolicy :=
  r !! name.

(** ** The retry loops *)

Section Execute.
Context {W T E : Type}.
Variable p : RetryPolicy.
(** The operation: attempt number and world to result and world. *)
Variable operation : Z → W → result T E * W.
(** The hash drawn for the jitter after each attempt. *)
Variable hash : Z → Z.

Definition effective_attempts : Z := Z.max (max_attempts p) 1.

(** [execute_with_retry]: [None] when the fuel runs out. *)
Fixpoint retry_loop (fuel : nat) (attempt : Z) (w : W) : option (result T E * W * list Z) :=
  match fuel with
  | O => None
  | S f =>
      match operation attempt w with
      | (Ok x, w') => Some (Ok x, w', [])
      | (Err e, w') =>
          if attempt <? effective_attempts then
            let backoff := calculate_backoff p (hash attempt) attempt in
            let! (r, w'', sleeps) := retry_loop f (attempt + 1) w' in
            Some (r, w'', backoff :: sleeps)
          else Some (Err e, w', [])
      end
  end.

Definition execute_with_retry (w : W) : option (result T E * W * list Z) :=
  retry_loop (Z.to_nat effective_attempts) 1 w.

(** [execute_with_retry_metrics]. *)
Fixpoint retry_metrics_loop (fuel : nat) (name : string) (attempt : Z) (w : W) (m : RetryMetrics) :
    option (result T E * W * RetryMetrics) :=
  match fuel with
  | O => None
  | S f =>
      let m := record_attempt name m in
      match operation attempt w with
      | (Ok x, w') => Some (Ok x, w', record_success name m)
      | (Err e, w') =>
          if attempt <? effective_attempts then
            let backoff := calculate_backoff p (hash attempt) attempt in
            retry_metrics_loop f name (attempt + 1) w' (record_retry name backoff m)
          else Some (Err e, w', record_exhausted name m)
      end
  end.

Definition execute_with_retry_metrics (name : string) (w : W) (m : RetryMetrics) :=
  retry_metrics_loop (Z.to_nat effective_attempts) name 1 w m.

(** ** Specification of a run *)

(** [run_attempts n a w r w']: attempts [a .. a + n - 1] were made from [w],
    all but the last failed, the last returned [r] and left the world at [w']. *)
Inductive run_attempts : nat → Z → W → result T E → W → Prop :=
| run_last a w r w' : operation a w = (r, w') → run_attempts 1 a w r w'
| run_next n a w e w1 r w' :
    operation a w = (Err e, w1) → run_attempts n (a + 1) w1 r w' → run_attempts (S n) a w r w'.

Definition sleeps_of (n : nat) (a : Z) : list Z :=
  (λ i, calculate_backoff p (hash (a + Z.of_nat i)) (a + Z.of_nat i)) <$> seq 0 (n - 1).

Lemma run_attempts_pos n a w r w' : run_attempts n a w r w' → (1 ≤ n)%nat.
Proof. destruct 1; lia. Qed.

Lemma sleeps_of_S n a :
  (1 ≤ n)%nat →
  sleeps_of (S n) a = calculate_backoff p (hash a) a :: sleeps_of n (a + 1).
Proof.
  intros Hn. unfold sleeps_of. replace (S n - 1)%nat with (S (n - 1)) by lia.
  simpl. rewrite Z.add_0_r. f_equal. rewrite <- fmap_S_seq, <- list_fmap_compose.
  apply list_fmap_ext. intros i j Hi. simpl.
  by replace (a + Z.of_nat (S j)) with (a + 1 + Z.of_nat j) by lia.
Qed.

Lemma retry_loop_spec fuel a w :
  1 ≤ a ≤ effective_attempts → Z.of_nat fuel = effective_attempts - a + 1 →
  ∃ n r w',
    retry_loop fuel a w = Some (r, w', sleeps_of n a) ∧
    run_attempts n a w r w' ∧
    a + Z.of_nat n - 1 ≤ effective_attempts ∧
    (is_ok r = true ∨ a + Z.of_nat n - 1 = effective_attempts).
Proof.
  revert a w. induction fuel as [|f IH]; intros a w Ha Hf; [lia|]. simpl.
  destruct (operation a w) as [[x|e] w1] eqn:Eop.
  - exists 1%nat, (Ok x), w1. split_and!; [done|by constructor|lia|by left].
  - destruct (Z.ltb_spec a effective_attempts).
    + destruct (IH (a + 1) w1) as (n & r & w' & -> & Hrun & Hle & Hend); [lia|lia|].
      exists (S n), r, w'. simpl. pose proof (run_attempts_pos _ _ _ _ _ Hrun).
      rewrite sleeps_of_S by done.
      split_and!; [done|by eapply run_next|lia|]. destruct Hend; [by left|right; lia].
    + exists 1%nat, (Err e), w1. split_and!; [done|by constructor|lia|right; lia].
Qed.

(** Adding up what a run does to the counters of its policy. *)
Definition tally (c : PolicyCounters) (n : nat) (ok : bool) (backoff : Z) : PolicyCounters :=
  mkCounters (add_u 64 (attempts c) (Z.of_nat n))
             (if ok then add_u 64 (successes c) 1 else successes c)
             (add_u 64 (retries c) (Z.of_nat n - 1))
             (if ok then exhausted c else add_u 64 (exhausted c) 1)
             (add_u 64 (total_backoff_ms c) backoff).

Definition counters_ok (c : PolicyCounters) : Prop :=
  in_u 64 (attempts c) ∧ in_u 64 (successes c) ∧ in_u 64 (retries c) ∧
  in_u 64 (exhausted c) ∧ in_u 64 (total_backoff_ms c).

Lemma add_u_add_u x y z : add_u 64 (add_u 64 x y) z = add_u 64 x (y + z).
Proof. unfold add_u, wrap_u. rewrite Zplus_mod_idemp_l. f_equal. lia. Qed.

Lemma add_u_0 x : in_u 64 x → add_u 64 x 0 = x.
Proof. intros. unfold add_u. rewrite Z.add_0_r. by apply wrap_u_small. Qed.

Lemma counters_for_insert name c (m : RetryMetrics) :
  counters_for (<[name := c]> m) name = c.
Proof. unfold counters_for. by rewrite lookup_insert_eq. Qed.

Lemma retry_metrics_loop_spec fuel name a w m r w' sl :
  1 ≤ a → counters_ok (counters_for m name) →
  retry_loop fuel a w = Some (r, w', sl) →
  ∃ m', retry_metrics_loop fuel name a w m = Some (r, w', m') ∧
        counters_for m' name =
          tally (counters_for m name) (S (length sl)) (is_ok r) (foldr Z.add 0 sl) ∧
        (∀ other, other ≠ name → m' !! other = m !! other).
Proof.
  revert a w m r w' sl. induction fuel as [|f IH]; intros a w m r w' sl Ha Hok H; [done|].
  simpl in *. destruct (operation a w) as [[x|e] w1].
  - simplify_eq. eexists. split; [done|]. split.
    + unfold record_success, record_attempt. rewrite !counters_for_insert.
      destruct Hok as (? & ? & ? & ? & ?). unfold tally; simpl. by rewrite !add_u_0.
    + intros. unfold record_success, record_attempt. by rewrite !lookup_insert_ne.
  - destruct (a <? effective_attempts).
    + destruct (retry_loop f (a + 1) w1) as [[[r1 w2] sl1]|] eqn:Eloop; [|done]. simpl in H.
      simplify_eq.
      edestruct (IH (a + 1) w1) as (m' & Hl & Hc & Ho);
        [lia| |exact Eloop|exists m'; split; [exact Hl|split]].
      * unfold record_retry. rewrite counters_for_insert.
        unfold record_attempt. rewrite counters_for_insert.
        destruct Hok as (? & ? & ? & ? & ?).
        unfold add_u. split_and!; simpl; by try apply wrap_u_range.
      * rewrite Hc. unfold record_retry, record_attempt. rewrite !counters_for_insert.
        unfold tally; simpl. rewrite !add_u_add_u. f_equal; f_equal; lia.
      * intros other Hne. rewrite Ho by done. unfold record_retry, record_attempt.
        by rewrite !lookup_insert_ne.
    + simplify_eq. eexists. split; [done|]. split.
      * unfold record_exhausted, record_attempt. rewrite !counters_for_insert.
        destruct Hok as (? & ? & ? & ? & ?). unfold tally; simpl. by rewrite !add_u_0.
      * intros. unfold record_exhausted, record_attempt. by rewrite !lookup_insert_ne.
Qed.

End Execute.

(** ** Properties *)

(** The retry loop always ends: it makes between one and
    [max(max_attempts, 1)] attempts numbered from 1, stops at the first
    success, otherwise returns the error of the last allowed attempt, and
    sleeps exactly the computed backoff between two attempts. *)
Theorem execute_with_retry_spec {W T E} (p : RetryPolicy)
    (operation : Z → W → result T E * W) (hash : Z → Z) (w : W) :
  ∃ n r w',
    execute_with_retry p operation hash w = Some (r, w', sleeps_of p hash n 1) ∧
    run_attempts operation n 1 w r w' ∧
    1 ≤ Z.of_nat n ≤ effective_attempts p ∧
    (is_ok r = true ∨ Z.of_nat n = effective_attempts p).
Proof.
  unfold execute_with_retry.
  destruct (retry_loop_spec p operation hash (Z.to_nat (effective_attempts p)) 1 w)
    as (n & r & w' & H1 & H2 & H3 & H4); [unfold effective_attempts; lia..|].
  exists n, r, w'. pose proof (run_attempts_pos _ _ _ _ _ _ H2).
  split_and!; [done|done|lia|lia|]. destruct H4; [by left|right; lia].
Qed.

(** The metrics variant returns the same result and adds to its policy's
    counters exactly one attempt per call, one retry and its backoff per
    sleep, and one success or one exhaustion; other policies keep theirs. *)
Theorem execute_with_retry_metrics_spec {W T E} (p : RetryPolicy)
    (operation : Z → W → result T E * W) (hash : Z → Z) name (w : W) m :
  counters_ok (counters_for m name) →
  ∃ r w' sl m',
    execute_with_retry p operation hash w = Some (r, w', sl) ∧
    execute_with_retry_metrics p operation hash name w m = Some (r, w', m') ∧
    counters_for m' name =
      tally (counters_for m name) (S (length sl)) (is_ok r) (foldr Z.add 0 sl) ∧
    (∀ other, other ≠ name → m' !! other = m !! other).
Proof.
  intros Hok.
  destruct (retry_loop_spec p operation hash (Z.to_nat (effective_attempts p)) 1 w)
    as (n & r & w' & H1 & _); [unfold effective_attempts; lia..|].
  destruct (retry_metrics_loop_spec p operation hash _ name 1 w m _ _ _ ltac:(lia) Hok H1)
    as (m' & ? & ? & ?).
  by exists r, w', (sleeps_of p hash n 1), m'.
Qed.

(** An operation that fails twice and then succeeds. *)
Definition flaky (a : Z) (w : nat) : result Z string * nat :=
  (if a <? 3 then Err "down"%string else Ok a, S w).

Lemma execute_with_retry_metrics_spec_witness :
  execute_with_retry_metrics default_policy flaky (λ _, 0) "webhook" 0%nat ∅ =
    Some (Ok 3, 3%nat, {["webhook"%string := mkCounters 3 1 2 0 3000]}) ∧
  ∃ r w' sl m',
    execute_with_retry default_policy flaky (λ _, 0) 0%nat = Some (r, w', sl) ∧
    execute_with_retry_metrics default_policy flaky (λ _, 0) "webhook" 0%nat ∅ = Some (r, w', m') ∧
    counters_for m' "webhook" =
      tally (counters_for ∅ "webhook") (S (length sl)) (is_ok r) (foldr Z.add 0 sl) ∧
    (∀ other, other ≠ "webhook"%string → m' !! other = (∅ : RetryMetrics) !! other).
Proof.
  split; [vm_compute; reflexivity|].
  apply (execute_with_retry_metrics_spec default_policy flaky (λ _, 0) "webhook" 0%nat ∅).
  vm_compute. repeat split; discriminate.
Defined.

(** ** Delays of the shipped policies *)

Lemma webhook_backoff_before_jitter :
  (λ a, Z.min (strategy_backoff Exponential a 1000 (F64.of_Z 2)) 600000) <$> [1; 2; 3; 4; 10; 11; 100]
  = [1000; 2000; 4000; 8000; 512000; 600000; 600000].
Proof. vm_compute. reflexivity. Qed.

Lemma email_never_sleeps hash attempt : calculate_backoff email_default hash attempt = 0.
Proof. unfold calculate_backoff. simpl. by rewrite orb_true_r. Qed.

End RetryPolicy.
