(* ===== verification/CircuitBreaker.v ===== *)
(** webhook_circuit_breaker.rs: the per-endpoint circuit breaker and its
    manager.  Timestamps are nanoseconds; every [Utc::now()] of a function is
    an argument of its own, in the order the function reads the clock. *)

From S2P Require Import Prelude F64.

Module CircuitBreaker.

Inductive CircuitBreakerState : Type := Closed | Open | HalfOpen.

#[export] Instance CircuitBreakerState_eq_dec : EqDecision CircuitBreakerState.
Proof. solve_decision. Defined.

Record CircuitBreakerConfig : Type := mkConfig {
  failure_threshold : Z;
  open_duration_secs : Z;
  success_threshold_half_open : Z;
  failure_rate_threshold : f64;
}.

Definition default_config : CircuitBreakerConfig := mkConfig 5 60 3 (F64.lit 1 2).

(** [EndpointCircuitBreaker]: counts [u32], totals [u64]. *)
Record EndpointCircuitBreaker : Type := mkBreaker {
  state : CircuitBreakerState;
  failure_count : Z;
  success_count : Z;
  total_requests : Z;
  total_failures : Z;
  opened_at : option Z;
  half_open_at : option Z;
  config : CircuitBreakerConfig;
  recent_failures : list Z;
}.

Definition new (c : CircuitBreakerConfig) : EndpointCircuitBreaker :=
  mkBreaker Closed 0 0 0 0 None None c [].

(** [record_success]. *)
Definition record_success (b : EndpointCircuitBreaker) : EndpointCircuitBreaker :=
  let total := add_u 64 (total_requests b) 1 in
  match state b with
  | Closed =>
      mkBreaker Closed 0 (success_count b) total (total_failures b) (opened_at b)
        (half_open_at b) (config b) (recent_failures b)
  | HalfOpen =>
      let sc := add_u 32 (success_count b) 1 in
      if success_threshold_half_open (config b) <=? sc
      then mkBreaker Closed 0 0 total (total_failures b) None None (config b) (recent_failures b)
      else mkBreaker HalfOpen (failure_count b) sc total (total_failures b) (opened_at b)
             (half_open_at b) (config b) (recent_failures b)
  | Open =>
      mkBreaker Open (failure_count b) (add_u 32 (success_count b) 1) total (total_failures b)
        (opened_at b) (half_open_at b) (config b) (recent_failures b)
  end.

Definition hour_ns : Z := 3600 * 10 ^ 9.

(** [record_failure]: [now1] is pushed, [now2] gives the cutoff, [now3] the opening time. *)
Definition record_failure (now1 now2 now3 : Z) (b : EndpointCircuitBreaker) :
    EndpointCircuitBreaker :=
  let requests := add_u 64 (total_requests b) 1 in
  let failures := add_u 64 (total_failures b) 1 in
  let fc := add_u 32 (failure_count b) 1 in
  let recent := List.filter (λ t, now2 - hour_ns <? t) (recent_failures b ++ [now1]) in
  match state b with
  | Closed =>
      let failure_rate := F64.div (F64.of_Z failures) (F64.of_Z (Z.max requests 1)) in
      if (failure_threshold (config b) <=? fc) ||
         F64.gtb failure_rate (failure_rate_threshold (config b))
      then mkBreaker Open fc (success_count b) requests failures (Some now3) (half_open_at b)
             (config b) recent
      else mkBreaker Closed fc (success_count b) requests failures (opened_at b)
             (half_open_at b) (config b) recent
  | HalfOpen =>
      mkBreaker Open fc 0 requests failures (Some now3) (half_open_at b) (config b) recent
  | Open =>
      mkBreaker Open fc (success_count b) requests failures (opened_at b) (half_open_at b)
        (config b) recent
  end.

(** [allow_request]: [now1] for the elapsed time, [now2] for [half_open_at]. *)
Definition elapsed_secs (now opened : Z) : Z := Z.quot (now - opened) (10 ^ 9).

Definition allow_request (now1 now2 : Z) (b : EndpointCircuitBreaker) :
    bool * EndpointCircuitBreaker :=
  match state b with
  | Closed => (true, b)
  | HalfOpen => (true, b)
  | Open =>
      match opened_at b with
      | None => (false, b)
      | Some opened =>
          if wrap_i 64 (open_duration_secs (config b)) <=? elapsed_secs now1 opened
          then (true, mkBreaker HalfOpen (failure_count b) 0 (total_requests b) (total_failures b)
                        (opened_at b) (Some now2) (config b) (recent_failures b))
          else (false, b)
      end
  end.

(** [calculate_backoff_secs]. *)
Definition calculate_backoff_secs (b : EndpointCircuitBreaker) : Z :=
  let n := Z.min (Z.of_nat (length (recent_failures b))) 32 in
  if n =? 0 then 0 else Z.min (2 ^ (n - 1)) 3600.

(** [failure_rate]. *)
Definition failure_rate (b : EndpointCircuitBreaker) : f64 :=
  if total_requests b =? 0 then F64.of_Z 0
  else F64.div (F64.of_Z (total_failures b)) (F64.of_Z (total_requests b)).

(** [CircuitBreakerManager::reset] on one breaker. *)
Definition reset_breaker (b : EndpointCircuitBreaker) : EndpointCircuitBreaker :=
  mkBreaker Closed 0 0 (total_requests b) (total_failures b) None None (config b)
    (recent_failures b).

(** ** [CircuitBreakerManager]: the breakers behind the write lock *)

Record CircuitBreakerManager : Type := mkManager {
  breakers : gmap string EndpointCircuitBreaker;
  manager_config : CircuitBreakerConfig;
}.

Definition manager_new (c : CircuitBreakerConfig) : CircuitBreakerManager := mkManager ∅ c.

Definition manager_allow (now1 now2 : Z) (endpoint : string) (m : CircuitBreakerManager) :
    bool * CircuitBreakerManager :=
  let b := default (new (manager_config m)) (breakers m !! endpoint) in
  let '(allowed, b') := allow_request now1 now2 b in
  (allowed, mkManager (<[endpoint := b']> (breakers m)) (manager_config m)).

Definition manager_alter (f : EndpointCircuitBreaker → EndpointCircuitBreaker) (endpoint : string)
    (m : CircuitBreakerManager) : CircuitBreakerManager :=
  mkManager (alter f endpoint (breakers m)) (manager_config m).

Definition manager_success : string → CircuitBreakerManager → CircuitBreakerManager :=
  manager_alter record_success.
Definition manager_failure (now1 now2 now3 : Z) : string → CircuitBreakerManager → CircuitBreakerManager :=
  manager_alter (record_failure now1 now2 now3).
Definition manager_reset : string → CircuitBreakerManager → CircuitBreakerManager :=
  manager_alter reset_breaker.

Definition get_state (endpoint : string) (m : CircuitBreakerManager) : option CircuitBreakerState :=
  state <$> breakers m !! endpoint.

(** [get_stats]: everything reported about an endpoint, with the derived rate and backoff. *)
Definition get_stats (endpoint : string) (m : CircuitBreakerManager) :
    option (EndpointCircuitBreaker * f64 * Z) :=
  (λ b, (b, failure_rate b, calculate_backoff_secs b)) <$> breakers m !! endpoint.

(** ** The state machine *)

Inductive step (b : EndpointCircuitBreaker) : EndpointCircuitBreaker → Prop :=
| step_success : step b (record_success b)
| step_failure t1 t2 t3 : step b (record_failure t1 t2 t3 b)
| step_allow t1 t2 : step b (allow_request t1 t2 b).2
| step_reset : step b (reset_breaker b).

(** An open breaker knows when it opened; a half-open one has not yet had
    enough successes; the configuration never changes. *)
Definition breaker_inv (c : CircuitBreakerConfig) (b : EndpointCircuitBreaker) : Prop :=
  config b = c ∧
  (state b = Open → is_Some (opened_at b)) ∧
  (state b = HalfOpen → is_Some (half_open_at b) ∧
     (0 < success_threshold_half_open c → success_count b < success_threshold_half_open c)).

Lemma step_inv c b b' : breaker_inv c b → step b b' → breaker_inv c b'.
Proof.
  intros Hinv. pose proof Hinv as (Hc & Ho & Hh).
  intros []; unfold record_success, record_failure, allow_request.
  - destruct (state b) eqn:E; simpl; [by split_and!|by split_and!|].
    destruct (Z.leb_spec (success_threshold_half_open (config b)) (add_u 32 (success_count b) 1));
      simpl; split_and!; try done.
    intros _. subst c. split; [by apply Hh|simpl; lia].
  - destruct (state b) eqn:E; simpl; [|by split_and!..|by split_and!; eauto].
    case_match; by split_and!; simpl; eauto.
  - destruct (state b) eqn:E; simpl; [exact Hinv| |exact Hinv].
    destruct (opened_at b) eqn:Eo; [|exact Hinv].
    case_match; simpl; [|exact Hinv].
    split_and!; [done|done|]. intros _. split; [done|simpl; lia].
  - by split_and!.
Qed.

(** [n] further successes. *)
Definition successes (n : nat) (b : EndpointCircuitBreaker) : EndpointCircuitBreaker :=
  Nat.iter n record_success b.

Lemma successes_half_open n b :
  state b = HalfOpen → 0 ≤ success_count b →
  success_count b + Z.of_nat n < success_threshold_half_open (config b) ≤ u_max 32 →
  state (successes n b) = HalfOpen ∧
  success_count (successes n b) = success_count b + Z.of_nat n ∧
  config (successes n b) = config b.
Proof.
  intros Hs H0 Hn. induction n as [|n IH]; [simpl; split_and!; [done|lia|done]|].
  destruct IH as (IHs & IHc & IHf); [lia|]. simpl. unfold record_success.
  change (Nat.iter n record_success b) with (successes n b). rewrite IHs, IHf, IHc.
  unfold add_u. unfold u_max in Hn. rewrite wrap_u_small by (unfold in_u; lia).
  destruct (Z.leb_spec (success_threshold_half_open (config b)) (success_count b + Z.of_nat n + 1));
    [lia|]. simpl. split_and!; [done|lia|done].
Qed.

(** ** Properties *)

(** Every reachable breaker keeps its configuration, knows its opening time
    while open, and while half-open has seen fewer successes than it needs. *)
Theorem breaker_reachable_inv c b : rtc step (new c) b → breaker_inv c b.
Proof.
  intros Hr. assert (breaker_inv c (new c)) as H0 by (by split_and!).
  revert H0. induction Hr; eauto using step_inv.
Qed.

Lemma breaker_reachable_inv_witness :
  breaker_inv default_config
    (allow_request (61 * 10 ^ 9) (61 * 10 ^ 9) (record_failure 0 0 0 (new default_config))).2.
Proof.
  apply breaker_reachable_inv. eapply rtc_l; [apply step_failure|].
  eapply rtc_l; [apply step_allow|]. apply rtc_refl.
Defined.

(** While open, requests are refused and nothing changes until
    [open_duration_secs] have passed since opening; then exactly the probe
    state is entered. *)
Theorem open_gate b opened now1 now2 :
  state b = Open → opened_at b = Some opened → in_u 63 (open_duration_secs (config b)) →
  opened ≤ now1 →
  let '(allowed, b') := allow_request now1 now2 b in
  if open_duration_secs (config b) * 10 ^ 9 <=? now1 - opened
  then allowed = true ∧ state b' = HalfOpen ∧ success_count b' = 0 ∧ half_open_at b' = Some now2
  else allowed = false ∧ b' = b.
Proof.
  intros Hs Ho Hd Ht. unfold allow_request, elapsed_secs. rewrite Hs, Ho.
  rewrite wrap_i_small by (unfold in_i, in_u in *; lia).
  rewrite Z.quot_div_nonneg by lia.
  assert (open_duration_secs (config b) <= (now1 - opened) / 10 ^ 9 ↔
          open_duration_secs (config b) * 10 ^ 9 <= now1 - opened) as Hq.
  { split; intros Hle.
    - pose proof (Z.mul_div_le (now1 - opened) (10 ^ 9)). lia.
    - apply Z.div_le_lower_bound; lia. }
  destruct (Z.leb_spec (open_duration_secs (config b)) ((now1 - opened) / 10 ^ 9)),
    (Z.leb_spec (open_duration_secs (config b) * 10 ^ 9) (now1 - opened)); try lia; done.
Qed.

Lemma open_gate_witness :
  let b := record_failure 0 0 0 (new default_config) in
  state b = Open ∧
  let '(allowed, b') := allow_request (59 * 10 ^ 9) 0 b in
  if 60 * 10 ^ 9 <=? 59 * 10 ^ 9 - 0
  then allowed = true ∧ state b' = HalfOpen ∧ success_count b' = 0 ∧ half_open_at b' = Some 0
  else allowed = false ∧ b' = b.
Proof.
  intros b. split; [vm_compute; reflexivity|].
  apply (open_gate b 0 (59 * 10 ^ 9) 0);
    [vm_compute; reflexivity|vm_compute; reflexivity|split; vm_compute; (done || discriminate)|lia].
Defined.

(** Recovery: once half-open, exactly [success_threshold_half_open]
    successes in a row close the breaker and clear its counters. *)
Theorem half_open_recovers b n :
  state b = HalfOpen → success_count b = 0 →
  success_threshold_half_open (config b) = Z.of_nat n + 1 → Z.of_nat n + 1 ≤ u_max 32 →
  state (successes n b) = HalfOpen ∧
  let b' := successes (S n) b in
  state b' = Closed ∧ failure_count b' = 0 ∧ success_count b' = 0 ∧
  opened_at b' = None ∧ half_open_at b' = None.
Proof.
  intros Hs H0 Hn Hmax.
  destruct (successes_half_open n b Hs) as (Es & Ec & Ef); [lia|lia|].
  split; [done|]. simpl. unfold record_success. change (Nat.iter n record_success b) with (successes n b).
  rewrite Es, Ef, Ec, H0. unfold add_u. unfold u_max in Hmax. rewrite wrap_u_small by (unfold in_u; lia).
  destruct (Z.leb_spec (success_threshold_half_open (config b)) (0 + Z.of_nat n + 1)); [done|lia].
Qed.

Definition half_open_demo : EndpointCircuitBreaker :=
  (allow_request (60 * 10 ^ 9) (60 * 10 ^ 9) (record_failure 0 0 0 (new default_config))).2.

Lemma half_open_recovers_witness :
  state (successes 2 half_open_demo) = HalfOpen ∧
  let b' := successes 3 half_open_demo in
  state b' = Closed ∧ failure_count b' = 0 ∧ success_count b' = 0 ∧
  opened_at b' = None ∧ half_open_at b' = None.
Proof.
  apply (half_open_recovers half_open_demo 2);
    [vm_compute; reflexivity..|vm_compute; discriminate].
Defined.

(** The failure rate is taken over the whole lifetime with no minimum number
    of requests: the very first failure of a breaker opens it whenever the
    rate threshold is below 1, whatever [failure_threshold] says. *)
Theorem first_failure_opens c t1 t2 t3 :
  F64.ltb (failure_rate_threshold c) (F64.of_Z 1) = true →
  state (record_failure t1 t2 t3 (new c)) = Open ∧
  opened_at (record_failure t1 t2 t3 (new c)) = Some t3.
Proof.
  intros Hc. unfold record_failure, new, F64.gtb. cbn [state total_failures total_requests failure_count config].
  assert (F64.div (F64.of_Z (add_u 64 0 1)) (F64.of_Z (Z.max (add_u 64 0 1) 1)) = F64.of_Z 1) as ->
    by (vm_compute; reflexivity).
  unfold F64.ltb in Hc. rewrite Hc, orb_true_r. done.
Qed.

Lemma first_failure_opens_witness :
  failure_threshold default_config = 5 ∧
  (state (record_failure 7 7 7 (new default_config)) = Open ∧
   opened_at (record_failure 7 7 7 (new default_config)) = Some 7).
Proof.
  split; [reflexivity|]. apply (first_failure_opens default_config). vm_compute. reflexivity.
Defined.

(** The manager keeps endpoints apart: an operation on one endpoint leaves
    every other breaker as it was. *)
Lemma manager_isolation e e' m t1 t2 t3 :
  e ≠ e' →
  breakers (manager_allow t1 t2 e m).2 !! e' = breakers m !! e' ∧
  breakers (manager_success e m) !! e' = breakers m !! e' ∧
  breakers (manager_failure t1 t2 t3 e m) !! e' = breakers m !! e' ∧
  breakers (manager_reset e m) !! e' = breakers m !! e'.
Proof.
  intros Hne. unfold manager_allow. destruct (allow_request _ _ _). simpl.
  rewrite lookup_insert_ne by done. rewrite !lookup_alter_ne by done. done.
Qed.

(** The backoff doubles with every recent failure from one second up to the hour. *)
Lemma calculate_backoff_secs_spec b :
  0 ≤ calculate_backoff_secs b ≤ 3600 ∧
  (calculate_backoff_secs b = 0 ↔ recent_failures b = []).
Proof.
  unfold calculate_backoff_secs. destruct (recent_failures b) as [|x l]; [simpl; split; [lia|done]|].
  simpl length. destruct (Z.eqb_spec (Z.min (Z.of_nat (S (length l))) 32) 0); [lia|].
  assert (0 < 2 ^ (Z.min (Z.of_nat (S (length l))) 32 - 1)) by (apply Z.pow_pos_nonneg; lia).
  split; [lia|]. split; [lia|done].
Qed.

End CircuitBreaker.
