(* ===== verification/FilterDsl.v ===== *)
(** filter_dsl.rs: the event filter DSL - validation, optimisation and the
    transpilation to a parameterised SQL [WHERE] fragment, with its handlers.

    Error messages are represented by one constructor per [format!] text.
    The SQL text is produced as the source does; its meaning is given through
    the [sql] syntax it renders, over any interpretation of the atomic
    comparisons (that interpretation is the database's). *)

From S2P Require Import Prelude Text F64 Model.

Module FilterDsl.

(** ** Fields *)

Definition ALLOWED_FIELDS : list string :=
  ["contract_id"; "event_type"; "ledger"; "timestamp"; "tx_hash"; "schema_version";
   "in_successful_call"; "tenant_id"]%string.

Definition allowed (field : string) : bool := existsb (String.eqb field) ALLOWED_FIELDS.

(** [field_to_sql]. *)
Definition field_to_sql (field : string) : option string :=
  (if String.eqb field "contract_id" then Some "contract_id"
   else if String.eqb field "event_type" then Some "event_type::text"
   else if String.eqb field "ledger" then Some "ledger"
   else if String.eqb field "timestamp" then Some "timestamp"
   else if String.eqb field "tx_hash" then Some "tx_hash"
   else if String.eqb field "schema_version" then Some "schema_version"
   else if String.eqb field "in_successful_call" then Some "in_successful_call"
   else if String.eqb field "tenant_id" then Some "tenant_id"
   else None)%string.

(** ** Expressions *)

Inductive DslExpr : Type :=
| And (filters : list DslExpr)
| Or (filters : list DslExpr)
| Not (filter : DslExpr)
| Eq_ (field : string) (value : Value)
| Gt_ (field : string) (value : Value)
| Lt_ (field : string) (value : Value)
| Contains (field : string) (value : string)
| In_ (field : string) (values : list Value)
| Between (field : string) (min max : Value)
| Exists_ (field : string).

Record DslFilter : Type := mkFilter { expression : DslExpr; description : option string }.

(** The messages [validate_dsl] collects. *)
Inductive DslIssue : Type :=
| IssueTooDeep (max_depth : Z)
| IssueEmptyCompound
| IssueFieldListed (field : string)
| IssueField (field : string)
| IssueEmptyIn (field : string)
| IssueRange (field : string) (lo hi : f64).

(** [DslError]; [UnknownField] is the one-message [ValidationErrors]. *)
Inductive DslError : Type :=
| ParseError (msg : string)
| UnknownField (field : string)
| TooDeep (max : Z)
| Empty.

(** ** Validation *)

Definition check_field (issue : string → DslIssue) (field : string) : list DslIssue :=
  if allowed field then [] else [issue field].

(** [validate_recursive]: the messages pushed, in order. *)
Fixpoint validate_recursive (expr : DslExpr) (depth max_depth : Z) : list DslIssue :=
  if max_depth <? depth then [IssueTooDeep max_depth]
  else match expr with
  | And filters | Or filters =>
      (match filters with [] => [IssueEmptyCompound] | _ => [] end) ++
      flat_map (λ child, validate_recursive child (depth + 1) max_depth) filters
  | Not filter => validate_recursive filter (depth + 1) max_depth
  | Eq_ field _ | Gt_ field _ | Lt_ field _ | Exists_ field => check_field IssueFieldListed field
  | Contains field _ => check_field IssueField field
  | In_ field values =>
      check_field IssueField field ++
      (match values with [] => [IssueEmptyIn field] | _ => [] end)
  | Between field min max =>
      check_field IssueField field ++
      (match as_f64 min, as_f64 max with
       | Some lo, Some hi => if F64.gtb lo hi then [IssueRange field lo hi] else []
       | _, _ => []
       end)
  end.

Definition validate_dsl (expr : DslExpr) : result unit (list DslIssue) :=
  match validate_recursive expr 0 10 with [] => Ok tt | errors => Err errors end.

(** ** Transpiler *)

(** [push_param]: the 1-based index of the appended value. *)
Definition push_param (params : list Value) (value : Value) : Z * list Value :=
  let params := params ++ [value] in (Z.of_nat (length params), params).

Definition column (field : string) : result string DslError :=
  match field_to_sql field with Some col => Ok col | None => Err (UnknownField field) end.

Definition placeholder (idx : Z) : string := (String "$" (show_u idx))%string.

(** [{col} OP $idx]. *)
Definition binary (op field : string) (value : Value) (params : list Value) :
    result (string * list Value) DslError :=
  let? col := column field in
  let '(idx, params) := push_param params value in
  Ok ((col +:+ op +:+ placeholder idx)%string, params).

Fixpoint push_all (params values : list Value) : list string * list Value :=
  match values with
  | [] => ([], params)
  | v :: rest =>
      let '(idx, params) := push_param params v in
      let '(phs, params) := push_all params rest in
      (placeholder idx :: phs, params)
  end.

(** [iter().map(transpile).collect()], stopping at the first error. *)
Definition transpile_children
    (transpile : DslExpr → list Value → result (string * list Value) DslError) :=
  fix go (l : list DslExpr) (params : list Value) : result (list string * list Value) DslError :=
    match l with
    | [] => Ok ([], params)
    | f :: rest =>
        let? (sql, params) := transpile f params in
        let? (sqls, params) := go rest params in
        Ok (sql :: sqls, params)
    end.

(** [transpile_recursive], threading the bind values. *)
Fixpoint transpile_recursive (expr : DslExpr) (params : list Value) (depth max_depth : Z) :
    result (string * list Value) DslError :=
  let children := transpile_children (λ f params, transpile_recursive f params (depth + 1) max_depth) in
  if max_depth <? depth then Err (TooDeep max_depth)
  else match expr with
  | And filters =>
      match filters with [] => Err Empty | _ =>
        let? (parts, params) := children filters params in
        Ok (("(" +:+ join " AND " parts +:+ ")")%string, params)
      end
  | Or filters =>
      match filters with [] => Err Empty | _ =>
        let? (parts, params) := children filters params in
        Ok (("(" +:+ join " OR " parts +:+ ")")%string, params)
      end
  | Not filter =>
      let? (inner, params) := transpile_recursive filter params (depth + 1) max_depth in
      Ok (("NOT " +:+ inner)%string, params)
  | Eq_ field value => binary " = " field value params
  | Gt_ field value => binary " > " field value params
  | Lt_ field value => binary " < " field value params
  | Contains field value =>
      binary " ILIKE " field (VString ("%" +:+ value +:+ "%")%string) params
  | In_ field values =>
      let? col := column field in
      let '(phs, params) := push_all params values in
      Ok ((col +:+ " IN (" +:+ join ", " phs +:+ ")")%string, params)
  | Between field min max =>
      let? col := column field in
      let '(lo, params) := push_param params min in
      let '(hi, params) := push_param params max in
      Ok ((col +:+ " BETWEEN " +:+ placeholder lo +:+ " AND " +:+ placeholder hi)%string, params)
  | Exists_ field =>
      let? col := column field in
      Ok ((col +:+ " IS NOT NULL")%string, params)
  end.

Definition dsl_to_sql (expr : DslExpr) : result (string * list Value) DslError :=
  transpile_recursive expr [] 0 10.

(** ** Optimiser *)

Definition and_parts (e : DslExpr) : list DslExpr :=
  match e with And inner => inner | other => [other] end.
Definition or_parts (e : DslExpr) : list DslExpr :=
  match e with Or inner => inner | other => [other] end.

Fixpoint optimize_dsl (expr : DslExpr) : DslExpr :=
  match expr with
  | And filters =>
      match flat_map (λ child, and_parts (optimize_dsl child)) filters with
      | [single] => single
      | flat => And flat
      end
  | Or filters =>
      match flat_map (λ child, or_parts (optimize_dsl child)) filters with
      | [single] => single
      | flat => Or flat
      end
  | Not filter =>
      match optimize_dsl filter with
      | Not inner_inner => inner_inner
      | other => Not other
      end
  | leaf => leaf
  end.

(** ** Handlers *)

(** [compile_dsl_filter]: the compiled fragment with its parameter count, or 422. *)
Inductive compile_response : Type :=
| Compiled (sql : string) (params : list Value) (param_count : nat)
| Unprocessable (errors : list DslIssue)
| UnprocessableSql (e : DslError).

Definition compile_dsl_filter (req : DslFilter) : compile_response :=
  match validate_dsl (expression req) with
  | Err errs => Unprocessable errs
  | Ok _ =>
      match dsl_to_sql (optimize_dsl (expression req)) with
      | Ok (sql, params) => Compiled sql params (length params)
      | Err e => UnprocessableSql e
      end
  end.

Record DslFilterRequest : Type := mkFilterRequest {
  req_filter : DslExpr;
  req_page : option Z;
  req_limit : option Z;
}.

(** [get_events_with_dsl]; [select limit offset] is the answer of the query it runs. *)
Inductive events_response (R : Type) : Type :=
| EventsPage (data : list R) (total page limit : Z) (applied_filter : string)
| EventsInvalid (errors : list DslIssue)
| EventsUnprocessable (e : DslError)
| EventsDbError (msg : string).
Arguments EventsPage {R}.
Arguments EventsInvalid {R}.
Arguments EventsUnprocessable {R}.
Arguments EventsDbError {R}.

Definition page_of (req : DslFilterRequest) : Z := Z.max (default 1 (req_page req)) 1.
Definition limit_of (req : DslFilterRequest) : Z := clamp 1 500 (default 20 (req_limit req)).
Definition offset_of (req : DslFilterRequest) : Z := wrap_i 64 ((page_of req - 1) * limit_of req).

Definition get_events_with_dsl {R} (select : Z → Z → result (list R * Z) string)
    (req : DslFilterRequest) : events_response R :=
  match validate_dsl (req_filter req) with
  | Err errs => EventsInvalid errs
  | Ok _ =>
      match dsl_to_sql (optimize_dsl (req_filter req)) with
      | Err e => EventsUnprocessable e
      | Ok (where_clause, _params) =>
          match select (limit_of req) (offset_of req) with
          | Ok (rows, total) => EventsPage rows total (page_of req) (limit_of req) where_clause
          | Err msg => EventsDbError msg
          end
      end
  end.

(** [save_dsl_filter] and [list_dsl_filters] over the in-process store. *)
Record SavedDslFilter : Type := mkSaved {
  saved_name : string;
  saved_filter : DslFilter;
  created_at : Z;
  saved_description : option string;
}.

Abbreviation filter_store := (gmap string SavedDslFilter).

Inductive save_response : Type :=
| Saved (name : string)
| BadName
| SaveInvalid (errors : list DslIssue).

Definition save_dsl_filter (now : Z) (name : string) (f : DslFilter) (store : filter_store) :
    save_response * filter_store :=
  if is_empty name then (BadName, store)
  else match validate_dsl (expression f) with
  | Err errs => (SaveInvalid errs, store)
  | Ok _ => (Saved name, <[name := mkSaved name f now (description f)]> store)
  end.

Definition list_dsl_filters (store : filter_store) : list SavedDslFilter * nat :=
  (snd <$> map_to_list store, size store).

(** ** Meaning: Kleene's three-valued logic, [None] being SQL's NULL *)

Definition not3 (a : option bool) : option bool := negb <$> a.

Definition and3 (a b : option bool) : option bool :=
  match a, b with
  | Some false, _ | _, Some false => Some false
  | Some true, x => x
  | x, Some true => x
  | None, None => None
  end.

Definition or3 (a b : option bool) : option bool := not3 (and3 (not3 a) (not3 b)).

Definition all3 : list (option bool) → option bool := foldr and3 (Some true).
Definition any3 : list (option bool) → option bool := foldr or3 (Some false).

(** The atomic comparisons. *)
Inductive sql_op : Type := OpEq | OpGt | OpLt | OpILike | OpIn | OpBetween | OpNotNull.

Section Meaning.
(** What the database answers for a comparison of a column with values, on the row at hand. *)
Variable atom : string → sql_op → list Value → option bool.

Definition field_atom (field : string) (op : sql_op) (vs : list Value) : option bool :=
  match field_to_sql field with Some col => atom col op vs | None => None end.

Fixpoint eval_dsl (e : DslExpr) : option bool :=
  match e with
  | And fs => all3 (List.map eval_dsl fs)
  | Or fs => any3 (List.map eval_dsl fs)
  | Not f => not3 (eval_dsl f)
  | Eq_ f v => field_atom f OpEq [v]
  | Gt_ f v => field_atom f OpGt [v]
  | Lt_ f v => field_atom f OpLt [v]
  | Contains f s => field_atom f OpILike [VString ("%" +:+ s +:+ "%")%string]
  | In_ f vs => field_atom f OpIn vs
  | Between f a b => field_atom f OpBetween [a; b]
  | Exists_ f => field_atom f OpNotNull []
  end.

(** The SQL conditions: placeholders are 1-based positions in the bind values. *)
Inductive sql : Type :=
| SAnd (l : list sql)
| SOr (l : list sql)
| SNot (s : sql)
| SAtom (col : string) (op : sql_op) (idxs : list nat).

Definition ph (i : nat) : string := placeholder (Z.of_nat i).

Fixpoint render (s : sql) : string :=
  match s with
  | SAnd l => ("(" +:+ join " AND " (List.map render l) +:+ ")")%string
  | SOr l => ("(" +:+ join " OR " (List.map render l) +:+ ")")%string
  | SNot s => ("NOT " +:+ render s)%string
  | SAtom col OpEq idxs => (col +:+ " = " +:+ join "" (ph <$> idxs))%string
  | SAtom col OpGt idxs => (col +:+ " > " +:+ join "" (ph <$> idxs))%string
  | SAtom col OpLt idxs => (col +:+ " < " +:+ join "" (ph <$> idxs))%string
  | SAtom col OpILike idxs => (col +:+ " ILIKE " +:+ join "" (ph <$> idxs))%string
  | SAtom col OpIn idxs => (col +:+ " IN (" +:+ join ", " (ph <$> idxs) +:+ ")")%string
  | SAtom col OpBetween idxs => (col +:+ " BETWEEN " +:+ join " AND " (ph <$> idxs))%string
  | SAtom col OpNotNull _ => (col +:+ " IS NOT NULL")%string
  end.

(** The value a placeholder denotes. *)
Definition bound (params : list Value) (i : nat) : list Value :=
  match params !! (i - 1)%nat with Some v => [v] | None => [] end.

Fixpoint eval_sql (params : list Value) (s : sql) : option bool :=
  match s with
  | SAnd l => all3 (List.map (eval_sql params) l)
  | SOr l => any3 (List.map (eval_sql params) l)
  | SNot s => not3 (eval_sql params s)
  | SAtom col op idxs => atom col op (flat_map (bound params) idxs)
  end.

End Meaning.

(** The placeholder positions of a condition, in textual order. *)
Fixpoint positions (s : sql) : list nat :=
  match s with
  | SAnd l | SOr l => flat_map positions l
  | SNot s => positions s
  | SAtom _ _ idxs => idxs
  end.

(** Nesting depth and well-formedness: what validation asks of the structure. *)
Fixpoint levels (e : DslExpr) : Z :=
  match e with
  | And fs | Or fs => match fs with [] => 0 | _ => 1 + fold_right Z.max 0 (List.map levels fs) end
  | Not f => 1 + levels f
  | _ => 0
  end.

Fixpoint well_formed (e : DslExpr) : bool :=
  match e with
  | And fs | Or fs => negb (bool_decide (fs = [])) && forallb well_formed fs
  | Not f => well_formed f
  | Eq_ f _ | Gt_ f _ | Lt_ f _ | Exists_ f | Contains f _ | In_ f _ | Between f _ _ => allowed f
  end.

(** The optimiser's normal forms. *)
Definition is_and (e : DslExpr) : bool := match e with And _ => true | _ => false end.
Definition is_or (e : DslExpr) : bool := match e with Or _ => true | _ => false end.
Definition is_not (e : DslExpr) : bool := match e with Not _ => true | _ => false end.

Fixpoint normal (e : DslExpr) : bool :=
  match e with
  | And fs => negb (length fs =? 1)%nat && forallb (λ f, negb (is_and f) && normal f) fs
  | Or fs => negb (length fs =? 1)%nat && forallb (λ f, negb (is_or f) && normal f) fs
  | Not f => negb (is_not f) && normal f
  | _ => true
  end.



(** ** Lemmas *)

(** Induction over the nested lists of children. *)
Definition is_leaf (e : DslExpr) : bool :=
  match e with And _ | Or _ | Not _ => false | _ => true end.

Lemma DslExpr_children_ind (P : DslExpr → Prop) :
  (∀ fs, Forall P fs → P (And fs)) → (∀ fs, Forall P fs → P (Or fs)) →
  (∀ f, P f → P (Not f)) → (∀ e, is_leaf e = true → P e) → ∀ e, P e.
Proof.
  intros HA HO HN HL. fix IH 1. intros [fs|fs|f| | | | | | |]; try (by apply HL).
  - apply HA. induction fs as [|f fs IHfs]; constructor; [apply IH|exact IHfs].
  - apply HO. induction fs as [|f fs IHfs]; constructor; [apply IH|exact IHfs].
  - apply HN, IH.
Qed.

(** Kleene's connectives. *)
#[local] Arguments and3 : simpl never.
#[local] Arguments or3 : simpl never.

Lemma not3_involutive a : not3 (not3 a) = a.
Proof. by destruct a as [[]|]. Qed.
Lemma and3_true_l a : and3 (Some true) a = a.
Proof. by destruct a as [[]|]. Qed.
Lemma and3_true_r a : and3 a (Some true) = a.
Proof. by destruct a as [[]|]. Qed.
Lemma and3_assoc a b c : and3 a (and3 b c) = and3 (and3 a b) c.
Proof. by destruct a as [[]|], b as [[]|], c as [[]|]. Qed.
Lemma or3_assoc a b c : or3 a (or3 b c) = or3 (or3 a b) c.
Proof. by destruct a as [[]|], b as [[]|], c as [[]|]. Qed.
Lemma or3_false_l a : or3 (Some false) a = a.
Proof. by destruct a as [[]|]. Qed.
Lemma or3_false_r a : or3 a (Some false) = a.
Proof. by destruct a as [[]|]. Qed.

Lemma all3_app l k : all3 (l ++ k) = and3 (all3 l) (all3 k).
Proof. induction l as [|a l IH]; simpl; [by rewrite and3_true_l|by rewrite IH, and3_assoc]. Qed.
Lemma any3_app l k : any3 (l ++ k) = or3 (any3 l) (any3 k).
Proof. induction l as [|a l IH]; simpl; [by rewrite or3_false_l|by rewrite IH, or3_assoc]. Qed.

(** *** The optimiser *)

Lemma and_parts_eval atom e : all3 (List.map (eval_dsl atom) (and_parts e)) = eval_dsl atom e.
Proof. destruct e; simpl; rewrite ?and3_true_r; done. Qed.
Lemma or_parts_eval atom e : any3 (List.map (eval_dsl atom) (or_parts e)) = eval_dsl atom e.
Proof. destruct e; simpl; rewrite ?or3_false_r; done. Qed.

Lemma and_flat_eval atom fs :
  Forall (λ e, eval_dsl atom (optimize_dsl e) = eval_dsl atom e) fs →
  all3 (List.map (eval_dsl atom) (flat_map (λ c, and_parts (optimize_dsl c)) fs)) =
  all3 (List.map (eval_dsl atom) fs).
Proof.
  induction 1 as [|f fs Hf _ IH]; simpl; [done|].
  by rewrite List.map_app, all3_app, and_parts_eval, Hf, IH.
Qed.
Lemma or_flat_eval atom fs :
  Forall (λ e, eval_dsl atom (optimize_dsl e) = eval_dsl atom e) fs →
  any3 (List.map (eval_dsl atom) (flat_map (λ c, or_parts (optimize_dsl c)) fs)) =
  any3 (List.map (eval_dsl atom) fs).
Proof.
  induction 1 as [|f fs Hf _ IH]; simpl; [done|].
  by rewrite List.map_app, any3_app, or_parts_eval, Hf, IH.
Qed.

(** [optimize_dsl] on the compound nodes, over the flattened children. *)
Definition collapse (node : list DslExpr → DslExpr) (flat : list DslExpr) : DslExpr :=
  match flat with [single] => single | flat => node flat end.
Lemma optimize_And fs :
  optimize_dsl (And fs) = collapse And (flat_map (λ c, and_parts (optimize_dsl c)) fs).
Proof. simpl. by destruct (flat_map _ fs) as [|? [|??]]. Qed.
Lemma optimize_Or fs :
  optimize_dsl (Or fs) = collapse Or (flat_map (λ c, or_parts (optimize_dsl c)) fs).
Proof. simpl. by destruct (flat_map _ fs) as [|? [|??]]. Qed.

Lemma collapse_ind (P : DslExpr → Prop) node flat :
  (∀ e, flat = [e] → P e) → (length flat ≠ 1%nat → P (node flat)) → P (collapse node flat).
Proof. destruct flat as [|a [|b l]]; simpl; intros H1 H2; auto. Qed.

Lemma optimize_eval atom e : eval_dsl atom (optimize_dsl e) = eval_dsl atom e.
Proof.
  induction e as [fs IH|fs IH|f IH|e He] using DslExpr_children_ind; [| | |by destruct e].
  - rewrite optimize_And. change (eval_dsl atom (And fs)) with (all3 (List.map (eval_dsl atom) fs)).
    rewrite <- (and_flat_eval _ _ IH).
    apply (collapse_ind (λ e, eval_dsl atom e = _)); [|done].
    intros e ->. simpl. by rewrite and3_true_r.
  - rewrite optimize_Or. change (eval_dsl atom (Or fs)) with (any3 (List.map (eval_dsl atom) fs)).
    rewrite <- (or_flat_eval _ _ IH).
    apply (collapse_ind (λ e, eval_dsl atom e = _)); [|done].
    intros e ->. simpl. by rewrite or3_false_r.
  - simpl. rewrite <- IH. destruct (optimize_dsl f); simpl; rewrite ?not3_involutive; done.
Qed.

Lemma and_parts_normal e : normal e = true →
  forallb (λ f, negb (is_and f) && normal f) (and_parts e) = true.
Proof. destruct e; simpl; intros; rewrite ?andb_true_iff in *; naive_solver. Qed.
Lemma or_parts_normal e : normal e = true →
  forallb (λ f, negb (is_or f) && normal f) (or_parts e) = true.
Proof. destruct e; simpl; intros; rewrite ?andb_true_iff in *; naive_solver. Qed.

Lemma forallb_flat_map {A B} (p : B → bool) (f : A → list B) l :
  Forall (λ x, forallb p (f x) = true) l → forallb p (flat_map f l) = true.
Proof. induction 1; simpl; [done|]. by rewrite forallb_app, andb_true_iff. Qed.

(** A flattened child list rebuilds into a normal form. *)
Lemma collapse_normal p node flat :
  (∀ l, normal (node l) = negb (length l =? 1)%nat && forallb (λ f, negb (p f) && normal f) l) →
  forallb (λ f, negb (p f) && normal f) flat = true → normal (collapse node flat) = true.
Proof.
  intros Hn Hf. apply (collapse_ind (λ e, normal e = true)).
  - intros e ->. simpl in Hf. rewrite !andb_true_iff in Hf. tauto.
  - intros Hl. rewrite Hn, Hf, andb_true_r. apply negb_true_iff. by apply Nat.eqb_neq.
Qed.

Lemma optimize_is_normal e : normal (optimize_dsl e) = true.
Proof.
  induction e as [fs IH|fs IH|f IH|e He] using DslExpr_children_ind; [| | |by destruct e].
  - rewrite optimize_And. apply (collapse_normal is_and); [done|].
    apply forallb_flat_map. eapply Forall_impl; [exact IH|]. intros; by apply and_parts_normal.
  - rewrite optimize_Or. apply (collapse_normal is_or); [done|].
    apply forallb_flat_map. eapply Forall_impl; [exact IH|]. intros; by apply or_parts_normal.
  - simpl. destruct (optimize_dsl f) eqn:E; simpl in *; rewrite ?andb_true_iff in *; tauto.
Qed.

Lemma flat_map_parts (parts : DslExpr → list DslExpr) (p : DslExpr → bool) fs :
  (∀ f, p f = false → parts f = [f]) →
  Forall (λ f, normal f = true → optimize_dsl f = f) fs →
  forallb (λ f, negb (p f) && normal f) fs = true →
  flat_map (λ c, parts (optimize_dsl c)) fs = fs.
Proof.
  intros Hp. induction 1 as [|f fs Hf _ IH]; simpl; [done|].
  rewrite !andb_true_iff, negb_true_iff. intros [[Hpf Hnf] Hr].
  by rewrite (Hf Hnf), (Hp f Hpf), (IH Hr).
Qed.

Lemma collapse_other node flat : length flat ≠ 1%nat → collapse node flat = node flat.
Proof. by destruct flat as [|? [|??]]. Qed.

Lemma normal_fixed e : normal e = true → optimize_dsl e = e.
Proof.
  induction e as [fs IH|fs IH|f IH|e He] using DslExpr_children_ind; [| | |by destruct e].
  - rewrite optimize_And. simpl. rewrite andb_true_iff, negb_true_iff, Nat.eqb_neq. intros [Hl Hf].
    rewrite (flat_map_parts and_parts is_and); [by apply collapse_other| |done|done].
    by intros [].
  - rewrite optimize_Or. simpl. rewrite andb_true_iff, negb_true_iff, Nat.eqb_neq. intros [Hl Hf].
    rewrite (flat_map_parts or_parts is_or); [by apply collapse_other| |done|done].
    by intros [].
  - simpl. rewrite andb_true_iff, negb_true_iff. intros [Hn Hf]. rewrite (IH Hf). by destruct f.
Qed.

(** *** The transpiler *)

Lemma allowed_column f : allowed f = true → ∃ col, field_to_sql f = Some col.
Proof.
  unfold allowed, ALLOWED_FIELDS, field_to_sql. simpl. rewrite !orb_true_iff.
  repeat destruct (String.eqb f _); eauto; intuition discriminate.
Qed.
Lemma not_allowed_column f : allowed f = false → field_to_sql f = None.
Proof.
  unfold allowed, ALLOWED_FIELDS, field_to_sql. simpl. rewrite !orb_false_iff.
  intros H. destruct_and!. by repeat match goal with H : String.eqb f _ = _ |- _ => rewrite H; clear H end.
Qed.

Lemma levels_nonneg e : 0 ≤ levels e.
Proof.
  induction e as [fs IH|fs IH|f IH|e He] using DslExpr_children_ind; [| |simpl; lia|by destruct e];
    simpl; destruct fs; [lia| |lia|]; simpl; apply Forall_inv in IH; lia.
Qed.

Lemma levels_children fs n :
  match fs with [] => 0 | _ => 1 + fold_right Z.max 0 (List.map levels fs) end ≤ n → fs ≠ [] →
  Forall (λ f, levels f ≤ n - 1) fs.
Proof.
  destruct fs as [|g fs]; [done|]. intros H _.
  assert (fold_right Z.max 0 (List.map levels (g :: fs)) ≤ n - 1) as H' by lia. clear H.
  induction (g :: fs) as [|f l IH]; simpl in *; constructor; [lia|apply IH; lia].
Qed.

(** Reading the values back through consecutive placeholders. *)
Lemma bound_seq params vs qs :
  flat_map (bound (params ++ vs ++ qs)) (seq (S (length params)) (length vs)) = vs.
Proof.
  revert params. induction vs as [|v vs IH]; intros params; simpl; [done|].
  unfold bound at 1. rewrite list_lookup_middle by (simpl; lia). simpl. f_equal.
  specialize (IH (params ++ [v])). rewrite length_app, <- app_assoc in IH. simpl in IH.
  by rewrite Nat.add_1_r in IH.
Qed.

Lemma push_all_spec params vs :
  push_all params vs = (ph <$> seq (S (length params)) (length vs), params ++ vs).
Proof.
  revert params. induction vs as [|v vs IH]; intros params; simpl; [by rewrite app_nil_r|].
  rewrite IH, <- app_assoc, length_app, Nat.add_1_r. done.
Qed.

(** What a transpilation of [e] from [params] yields. *)
Definition transpiled (e : DslExpr) (params : list Value) (r : result (string * list Value) DslError) : Prop :=
  ∃ s vs, r = Ok (render s, params ++ vs) ∧
    positions s = seq (S (length params)) (length vs) ∧
    ∀ atom qs, eval_sql atom (params ++ vs ++ qs) s = eval_dsl atom e.

Lemma transpiled_atom e params col op vs text :
  render (SAtom col op (seq (S (length params)) (length vs))) = text →
  (∀ atom, eval_dsl atom e = atom col op vs) →
  transpiled e params (Ok (text, params ++ vs)).
Proof.
  intros <- He. eexists (SAtom col op _), vs. split; [done|]. split; [done|].
  intros atom qs. rewrite He. simpl. by rewrite bound_seq.
Qed.

(** The list version, over the children of a node. *)
Lemma transpile_children_ok tr fs params :
  Forall (λ f, ∀ ps, transpiled f ps (tr f ps)) fs →
  ∃ ss vs, transpile_children tr fs params = Ok (List.map render ss, params ++ vs) ∧
    flat_map positions ss = seq (S (length params)) (length vs) ∧ length ss = length fs ∧
    ∀ atom qs, List.map (eval_sql atom (params ++ vs ++ qs)) ss = List.map (eval_dsl atom) fs.
Proof.
  intros Hf. revert params. induction Hf as [|f fs Hf _ IH]; intros params; simpl.
  { exists [], []. by rewrite app_nil_r. }
  destruct (Hf params) as (s & vs & -> & Hp & He). simpl.
  destruct (IH (params ++ vs)) as (ss & vs' & -> & Hp' & Hl & He'). simpl.
  exists (s :: ss), (vs ++ vs'). rewrite <- (assoc_L (++)). split; [done|]. split.
  { simpl. rewrite Hp, Hp', !length_app, seq_app. done. }
  split; [simpl; by rewrite Hl|]. intros atom qs. simpl. rewrite <- (assoc_L (++)), He. f_equal.
  specialize (He' atom qs). by rewrite <- !(assoc_L (++)) in He'.
Qed.

Lemma transpile_compound tr fs params e (node : list sql → sql) (comb : list (option bool) → option bool) sep :
  (∀ ss, render (node ss) = ("(" +:+ join sep (List.map render ss) +:+ ")")%string) →
  (∀ ss, positions (node ss) = flat_map positions ss) →
  (∀ atom ps ss, eval_sql atom ps (node ss) = comb (List.map (eval_sql atom ps) ss)) →
  (∀ atom, eval_dsl atom e = comb (List.map (eval_dsl atom) fs)) →
  Forall (λ f, ∀ ps, transpiled f ps (tr f ps)) fs →
  transpiled e params (let? (parts, params) := transpile_children tr fs params in
                       Ok (("(" +:+ join sep parts +:+ ")")%string, params)).
Proof.
  intros Hr Hp He Hd Hf. destruct (transpile_children_ok tr fs params Hf) as (ss & vs & -> & Hs & _ & Ha).
  exists (node ss), vs. rewrite Hr, Hp. split_and!; [done|done|].
  intros atom qs. by rewrite He, Hd, Ha.
Qed.

Lemma transpile_leaf e params :
  is_leaf e = true → well_formed e = true → ∀ d m, d ≤ m →
  transpiled e params (transpile_recursive e params d m).
Proof.
  intros Hl Hw d m Hd.
  destruct e as [|? | |f v|f v|f v|f v|f vs|f a b|f]; try done; cbn [transpile_recursive well_formed] in *;
    rewrite (proj2 (Z.ltb_ge m d) Hd); unfold binary, column;
    destruct (allowed_column f Hw) as [col Hc]; rewrite Hc; simpl;
    rewrite ?length_app; simpl; rewrite ?Nat.add_1_r.
  1: apply (transpiled_atom _ _ col OpEq [v]).
  3: apply (transpiled_atom _ _ col OpGt [v]).
  5: apply (transpiled_atom _ _ col OpLt [v]).
  7: apply (transpiled_atom _ _ col OpILike [VString _]).
  9: rewrite push_all_spec; apply (transpiled_atom _ _ col OpIn vs).
  11: rewrite <- app_assoc; apply (transpiled_atom _ _ col OpBetween [a; b]).
  13: rewrite <- (app_nil_r params) at 2; apply (transpiled_atom _ _ col OpNotNull []).
  all: try (intros; simpl; unfold field_atom; by rewrite Hc).
  all: simpl; rewrite ?length_app; done.
Qed.

Lemma transpile_ok e params d m :
  d + levels e ≤ m → well_formed e = true → transpiled e params (transpile_recursive e params d m).
Proof.
  revert params d. induction e as [fs IH|fs IH|f IH|e He] using DslExpr_children_ind; intros params d Hd Hw.
  4: { apply transpile_leaf; [done|done|]. pose proof (levels_nonneg e). lia. }
  3: { pose proof (levels_nonneg f). cbn [transpile_recursive]. cbn [levels well_formed] in *.
    rewrite (proj2 (Z.ltb_ge m d)) by lia.
    destruct (IH params (d + 1)) as (s & vs & -> & Hp & Ha); [lia|done|].
    exists (SNot s), vs. split; [done|]. split; [done|]. intros. simpl. by rewrite Ha. }
  all: pose proof (levels_nonneg (And fs)); cbn [transpile_recursive]; cbn [levels well_formed] in *;
    rewrite (proj2 (Z.ltb_ge m d)) by lia;
    rewrite andb_true_iff, negb_true_iff, bool_decide_eq_false, forallb_forall in Hw;
    destruct Hw as [Hne Hw]; pose proof (levels_children fs (m - d) ltac:(lia) Hne) as Hch;
    assert (Forall (λ f, ∀ ps, transpiled f ps (transpile_recursive f ps (d + 1) m)) fs) as Hf.
  1,3: rewrite Forall_forall in *; intros f Hin ps; apply IH; [done| |by apply Hw, list_elem_of_In];
       specialize (Hch f Hin); simpl in Hch; lia.
  - destruct fs as [|f fs]; [done|]. by apply (transpile_compound _ _ _ _ SAnd all3).
  - destruct fs as [|f fs]; [done|]. by apply (transpile_compound _ _ _ _ SOr any3).
Qed.

(** A transpilation that succeeds was of a well-formed, shallow enough expression. *)
Lemma children_inv tr fs params r (P : DslExpr → Prop) :
  Forall (λ f, ∀ ps r, tr f ps = Ok r → P f) fs →
  transpile_children tr fs params = Ok r → Forall P fs.
Proof.
  intros Hf. revert params r. induction Hf as [|f fs Hf _ IH]; intros params r; simpl; [done|].
  destruct (tr f params) as [[s ps]|] eqn:E; simpl; [|done].
  destruct (transpile_children tr fs ps) as [[ss ps']|] eqn:E'; simpl; [|done]. intros _.
  constructor; [by eapply Hf|by eapply IH].
Qed.

Definition within (m d : Z) (e : DslExpr) : Prop := well_formed e = true ∧ d + levels e ≤ m.

Lemma within_children m d fs :
  d ≤ m → fs ≠ [] → Forall (within m (d + 1)) fs →
  forallb well_formed fs = true ∧ d + (1 + fold_right Z.max 0 (List.map levels fs)) ≤ m.
Proof.
  intros Hd Hne Hf.
  assert (forallb well_formed fs = true ∧ (fs = [] ∨ d + (1 + fold_right Z.max 0 (List.map levels fs)) ≤ m))
    as [? [?|?]]; [|done|done].
  clear Hne. induction Hf as [|f fs [Hw Hl] _ [IHw IHl]]; simpl; [auto|].
  rewrite Hw, IHw. split; [done|]. right. destruct IHl as [->|IHl]; simpl; [|lia].
  pose proof (levels_nonneg f). lia.
Qed.

Lemma transpile_inv e params d m r : transpile_recursive e params d m = Ok r → within m d e.
Proof.
  revert params d r. induction e as [fs IH|fs IH|f IH|e He] using DslExpr_children_ind;
    intros params d r; unfold within.
  4: { destruct e; try done; cbn [transpile_recursive well_formed levels];
       destruct (m <? d) eqn:Hd; try done; apply Z.ltb_ge in Hd; unfold binary, column;
       (destruct (allowed field) eqn:Ha;
         [intros _; split; [done|lia]|rewrite (not_allowed_column _ Ha); done]). }
  3: { cbn [transpile_recursive well_formed levels]. destruct (m <? d) eqn:Hd; [done|].
       destruct (transpile_recursive f params (d + 1) m) as [r'|] eqn:E; [|done]. intros _.
       apply IH in E as [??]. split; [done|lia]. }
  all: cbn [transpile_recursive well_formed levels]; (destruct (m <? d) eqn:Hd; [done|]);
    apply Z.ltb_ge in Hd; (destruct fs as [|f fs]; [done|]);
    (destruct (transpile_children _ (f :: fs) params) as [r'|] eqn:E; [intros _|done]);
    (eapply (children_inv _ _ _ _ (within m (d + 1))) in E;
      [|eapply Forall_impl; [exact IH|]; intros g Hg ps r''; apply Hg]);
    destruct (within_children m d (f :: fs) Hd ltac:(done) E) as [Hw Hl];
    rewrite Hw; split; done.
Qed.

(** Validation implies the same conditions. *)
Lemma check_field_nil issue f : check_field issue f = [] → allowed f = true.
Proof. unfold check_field. by destruct (allowed f). Qed.

Lemma validate_within e d m : validate_recursive e d m = [] → within m d e.
Proof.
  revert d. induction e as [fs IH|fs IH|f IH|e He] using DslExpr_children_ind; intros d; unfold within.
  4: { destruct e; try done; cbn [validate_recursive well_formed levels];
       destruct (m <? d) eqn:Hd; try done; apply Z.ltb_ge in Hd; intros H;
       try (apply app_nil in H as [H _]); apply check_field_nil in H; split; (done || lia). }
  3: { cbn [validate_recursive well_formed levels]. destruct (m <? d); [done|].
       intros H. apply IH in H as [??]. split; [done|lia]. }
  all: cbn [validate_recursive well_formed levels]; (destruct (m <? d) eqn:Hd; [done|]);
    apply Z.ltb_ge in Hd; intros [Hne H]%app_nil; (destruct fs as [|f fs]; [done|]);
    (destruct (within_children m d (f :: fs) Hd ltac:(done)) as [Hw Hl]; [|rewrite Hw; done]);
    clear Hne; induction IH as [|g l Hg _ IHl]; constructor; simpl in H; apply app_nil in H as [??]; auto.
Qed.

(** The optimiser preserves them. *)
Lemma compound_within m d fs :
  within m d (And fs) ↔ d ≤ m ∧ fs ≠ [] ∧ Forall (within m (d + 1)) fs.
Proof.
  split.
  - unfold within at 1. cbn [well_formed levels].
    rewrite andb_true_iff, negb_true_iff, bool_decide_eq_false, forallb_forall. intros [[Hne Hw] Hl].
    pose proof (levels_nonneg (And fs)) as Hnn. cbn [levels] in Hnn.
    split_and!; [lia|done|].
    assert (Forall (λ f, levels f ≤ m - d - 1) fs) as Hch by (apply levels_children; [lia|done]).
    rewrite Forall_forall in *. intros f Hf. split; [by apply Hw, list_elem_of_In|].
    specialize (Hch f Hf). simpl in Hch. lia.
  - intros (Hd & Hne & Hf). destruct (within_children m d fs Hd Hne Hf) as [Hw Hl].
    split; cbn [well_formed levels]; [by rewrite Hw, bool_decide_eq_false_2|by destruct fs].
Qed.

Lemma within_Or m d fs : within m d (Or fs) ↔ within m d (And fs).
Proof. done. Qed.

Lemma within_weaken m d d' e : d' ≤ d → within m d e → within m d' e.
Proof. intros ? [??]. split; [done|lia]. Qed.

Lemma parts_within m d e :
  within m d e →
  (and_parts e ≠ [] ∧ Forall (within m d) (and_parts e)) ∧
  (or_parts e ≠ [] ∧ Forall (within m d) (or_parts e)).
Proof.
  assert (∀ l, within m d (And l) → l ≠ [] ∧ Forall (within m d) l) as Hl.
  { intros l (? & ? & Hf)%compound_within. split; [done|].
    eapply Forall_impl; [exact Hf|]. intros; eapply within_weaken; [|done]; lia. }
  intros H. assert ([e] ≠ [] ∧ Forall (within m d) [e]) as Hs by (split; [done|by constructor]).
  destruct e; simpl; auto.
Qed.

Lemma flat_within (parts : DslExpr → list DslExpr) m d fs :
  (∀ e, within m d e → parts e ≠ [] ∧ Forall (within m d) (parts e)) →
  fs ≠ [] → Forall (λ f, within m d (optimize_dsl f)) fs →
  flat_map (λ c, parts (optimize_dsl c)) fs ≠ [] ∧
  Forall (within m d) (flat_map (λ c, parts (optimize_dsl c)) fs).
Proof.
  intros Hp Hne Hf. split.
  - destruct Hf as [|f fs Hf _]; [done|]. simpl. apply Hp in Hf as [? _].
    by destruct (parts (optimize_dsl f)).
  - clear Hne. induction Hf as [|f fs Hf _ IH]; simpl; [constructor|].
    apply Forall_app. split; [by apply Hp|done].
Qed.

Lemma collapse_within node m d flat :
  (∀ l, within m d (node l) ↔ within m d (And l)) → d ≤ m →
  flat ≠ [] ∧ Forall (within m (d + 1)) flat → within m d (collapse node flat).
Proof.
  intros Hn Hd [Hne Hf]. apply collapse_ind.
  - intros e ->. apply Forall_inv in Hf. eapply within_weaken; [|done]. lia.
  - intros _. apply Hn, compound_within. done.
Qed.

Lemma optimize_within e m d : within m d e → within m d (optimize_dsl e).
Proof.
  revert d. induction e as [fs IH|fs IH|f IH|e He] using DslExpr_children_ind; intros d H;
    [| | |by destruct e].
  1,2: try (apply within_Or in H); apply compound_within in H as (Hd & Hne & Hf);
    rewrite ?optimize_And, ?optimize_Or; (apply collapse_within; [done|done|]);
    apply flat_within; [intros e He; by apply parts_within|done|];
    rewrite Forall_forall in *; intros f Hin; by apply IH, Hf.
  destruct H as [Hw Hl]. cbn [well_formed levels] in *.
  assert (within m (d + 1) (optimize_dsl f)) as [Hw' Hl'] by (apply IH; split; [done|lia]).
  simpl. destruct (optimize_dsl f); split; simpl in *; done || lia.
Qed.

(** ** Properties *)

(** C9. A validated filter compiles; the compiled condition numbers its placeholders 1..n in textual
    order, with one bind value each, and in three-valued logic it means the submitted expression,
    whatever the database's atomic comparisons are. *)
Theorem compile_dsl_filter_correct (req : DslFilter) (H : validate_dsl (expression req) = Ok tt) :
  ∃ s params,
    compile_dsl_filter req = Compiled (render s) params (length params) ∧
    positions s = seq 1 (length params) ∧
    ∀ atom, eval_sql atom params s = eval_dsl atom (expression req).
Proof.
  unfold compile_dsl_filter. rewrite H. unfold validate_dsl in H.
  destruct (validate_recursive (expression req) 0 10) eqn:E; [|done].
  apply validate_within, optimize_within in E as [Hw Hl].
  destruct (transpile_ok (optimize_dsl (expression req)) [] 0 10 Hl Hw) as (s & vs & Hr & Hp & Ha).
  unfold dsl_to_sql. rewrite Hr. exists s, vs. simpl in *. split_and!; [done|done|].
  intros atom. rewrite <- (optimize_eval atom (expression req)), <- (Ha atom []).
  by rewrite app_nil_r.
Qed.

Lemma compile_dsl_filter_correct_witness :
  ∃ s params,
    compile_dsl_filter (mkFilter (And [Eq_ "contract_id" (VString "C1"); And [Not (Not (In_ "ledger" [Number (PosInt 7); Number (PosInt 8)]))]]) None)
      = Compiled (render s) params (length params) ∧
    positions s = seq 1 (length params) ∧
    ∀ atom, eval_sql atom params s = eval_dsl atom (And [Eq_ "contract_id" (VString "C1"); And [Not (Not (In_ "ledger" [Number (PosInt 7); Number (PosInt 8)]))]]).
Proof. apply (compile_dsl_filter_correct (mkFilter _ None)). vm_compute. reflexivity. Defined.

(** The transpiler succeeds exactly on well-formed expressions nested at most ten levels deep. *)
Theorem dsl_to_sql_success e :
  is_ok (dsl_to_sql e) = well_formed e && (levels e <=? 10).
Proof.
  unfold dsl_to_sql. destruct (transpile_recursive e [] 0 10) as [r|err] eqn:E; simpl.
  - apply transpile_inv in E as [-> Hl]. symmetry. apply Z.leb_le. lia.
  - destruct (well_formed e) eqn:Hw; [|done]. destruct (levels e <=? 10) eqn:Hl; [|done].
    apply Z.leb_le in Hl. destruct (transpile_ok e [] 0 10) as (s & vs & Hr & _); [lia|done|].
    congruence.
Qed.

(** The optimiser preserves the meaning of every expression, always reaches a normal form
    (no nested conjunctions or disjunctions, no one-child node, no double negation), and leaves
    normal forms alone; so it is idempotent. *)
Theorem optimize_dsl_correct e :
  (∀ atom, eval_dsl atom (optimize_dsl e) = eval_dsl atom e) ∧
  normal (optimize_dsl e) = true ∧ optimize_dsl (optimize_dsl e) = optimize_dsl e.
Proof.
  split; [intros; apply optimize_eval|]. split; [apply optimize_is_normal|].
  apply normal_fixed, optimize_is_normal.
Qed.

(** [get_events_with_dsl] pages through all events: for two validated filters with the same
    paging the rows, the total, the page and the limit returned are the same. *)
Theorem get_events_ignores_filter {R} (select : Z → Z → result (list R * Z) string) e1 e2 page limit
    (H1 : validate_dsl e1 = Ok tt) (H2 : validate_dsl e2 = Ok tt) :
  let rows r := match r with EventsPage d t p l _ => Ok (d, t, p, l) | EventsDbError m => Err (Some m) | _ => Err None end in
  rows (get_events_with_dsl select (mkFilterRequest e1 page limit)) =
  rows (get_events_with_dsl select (mkFilterRequest e2 page limit)).
Proof.
  intros rows. unfold get_events_with_dsl. simpl. rewrite H1, H2. unfold validate_dsl in *.
  destruct (validate_recursive e1 0 10) eqn:E1, (validate_recursive e2 0 10) eqn:E2; try done.
  apply validate_within, optimize_within in E1 as [Hw1 Hl1], E2 as [Hw2 Hl2].
  destruct (transpile_ok (optimize_dsl e1) [] 0 10 Hl1 Hw1) as (s1 & v1 & Hr1 & _).
  destruct (transpile_ok (optimize_dsl e2) [] 0 10 Hl2 Hw2) as (s2 & v2 & Hr2 & _).
  unfold dsl_to_sql. rewrite Hr1, Hr2. unfold offset_of, limit_of, page_of. simpl.
  by destruct (select _ _) as [[??]|].
Qed.

Lemma get_events_ignores_filter_witness :
  let select (l o : Z) : result (list Z * Z) string := Ok ([l; o], 2) in
  let rows r := match r with EventsPage d t p l _ => Ok (d, t, p, l) | EventsDbError m => Err (Some m) | _ => Err None end in
  rows (get_events_with_dsl select (mkFilterRequest (Eq_ "ledger" (Number (PosInt 7))) (Some 3) None)) =
  rows (get_events_with_dsl select (mkFilterRequest (Not (Exists_ "tenant_id")) (Some 3) None)).
Proof.
  intros select. apply (get_events_ignores_filter select _ _ (Some 3) None); vm_compute; reflexivity.
Defined.

(** The in-process store: a save is visible under its name and leaves the others. *)
Lemma save_then_list now name f store r store' :
  save_dsl_filter now name f store = (r, store') →
  (∃ saved, store' !! name = Some saved ∧ saved_filter saved = f ∧ r = Saved name) ∨ store' = store.
Proof.
  unfold save_dsl_filter. destruct (is_empty name); [naive_solver|].
  destruct (validate_dsl (expression f)); intros; simplify_eq; [|naive_solver].
  left. rewrite lookup_insert_eq. eauto.
Qed.

End FilterDsl.
