(* ===== verification/Limits.v ===== *)
(** Per-client limits: the fixed-window limiter of subscriptions.rs
    ([Fixed]), the sliding-window limiter of handlers/mod.rs ([Sliding]), and
    the two limiters of concurrent SSE connections with their release guards
    ([Guard], subscriptions.rs; [SharedGuard], handlers/mod.rs).

    An [Instant] is a number of nanoseconds; a DashMap is a finite map, and
    each critical section under its entry lock is one step. *)

From S2P Require Import Prelude.

(** [Instant::duration_since] saturates at zero. *)
Definition duration_since (now t : Z) : Z := Z.max 0 (now - t).

Definition second_ns : Z := 10 ^ 9.

(** [Duration::as_secs], [Duration::subsec_nanos]. *)
Definition as_secs (d : Z) : Z := d / second_ns.
Definition subsec_nanos (d : Z) : Z := d mod second_ns.

(** ** Counting admitted requests *)

(** The number of instants of [l] in [\[lo, hi)]. *)
Definition in_window (lo hi : Z) (l : list Z) : nat :=
  length (filter (λ t, lo ≤ t ∧ t < hi) l).

(** The number of instants of [l] from [lo] on. *)
Definition since (lo : Z) (l : list Z) : nat := length (filter (λ t, lo ≤ t) l).

Lemma since_snoc lo l t : since lo (l ++ [t]) = (since lo l + if decide (lo ≤ t)%Z then 1 else 0)%nat.
Proof. unfold since. rewrite filter_app, length_app, filter_cons. by case_decide. Qed.

Lemma since_mono lo lo' l : lo ≤ lo' → (since lo' l ≤ since lo l)%nat.
Proof.
  intros H. induction l as [|t l IH]; [done|]. unfold since in *. rewrite !filter_cons.
  repeat case_decide; simpl; lia.
Qed.

Lemma in_window_snoc lo hi l t :
  in_window lo hi (l ++ [t]) = (in_window lo hi l + if decide (lo ≤ t ∧ t < hi)%Z then 1 else 0)%nat.
Proof. unfold in_window. rewrite filter_app, length_app, filter_cons. by case_decide. Qed.

Lemma in_window_since lo hi l : (in_window lo hi l ≤ since lo l)%nat.
Proof.
  induction l as [|t l IH]; [done|]. unfold in_window, since in *. rewrite !filter_cons.
  repeat case_decide; simpl; lia.
Qed.

Lemma in_window_split lo ws hi l :
  lo ≤ ws → (in_window lo hi l ≤ in_window lo ws l + since ws l)%nat.
Proof.
  intros Hle. induction l as [|t l IH]; [done|].
  unfold in_window, since in *. rewrite !filter_cons.
  repeat case_decide; simpl; lia.
Qed.

Lemma since_none now l : Forall (λ t, t < now) l → since now l = 0%nat.
Proof.
  induction 1 as [|t l Ht Hl IH]; [done|]. unfold since in *. rewrite filter_cons.
  case_decide; [lia|done].
Qed.

(** Finitely many instants have bounds. *)
Lemma instants_bounded {A} (f : A → Z) l now :
  ∃ lo hi, lo ≤ now ≤ hi ∧ Forall (λ c, lo ≤ f c) l ∧ Forall (λ c, f c ≤ hi) l.
Proof.
  induction l as [|c l (lo & hi & Hnow & Hlo & Hhi)]; [exists now, now; split_and!; auto; lia|].
  exists (Z.min lo (f c)), (Z.max hi (f c)). split_and!; [lia|lia| |].
  - constructor; [lia|]. eapply Forall_impl; [exact Hlo|cbn beta; lia].
  - constructor; [lia|]. eapply Forall_impl; [exact Hhi|cbn beta; lia].
Qed.

(** ** subscriptions.rs: the fixed-window limiter *)

Module Fixed.

(** [WindowCounter]; [count] is a [u32]. *)
Record WindowCounter : Type := mkCounter { window_start : Z; count : Z }.

Section Fixed.
Context {K : Type} `{Countable K}.
(** [limit], at least one ([new] clamps it), and [window] in nanoseconds. *)
Variable limit window : Z.

(** [check]. *)
Definition check (now : Z) (ip : K) (m : gmap K WindowCounter) : result () Z * gmap K WindowCounter :=
  let entry := default (mkCounter now 0) (m !! ip) in
  let entry := if window <=? duration_since now (window_start entry) then mkCounter now 0 else entry in
  if limit <=? count entry then
    let elapsed := duration_since now (window_start entry) in
    let remaining := sat_sub_u window elapsed in
    let secs := as_secs remaining + (if 0 <? subsec_nanos remaining then 1 else 0) in
    (Err (Z.max secs 1), <[ip := entry]> m)
  else (Ok (), <[ip := mkCounter (window_start entry) (add_u 32 (count entry) 1)]> m).

(** [prune]. *)
Definition prune (now : Z) (m : gmap K WindowCounter) : gmap K WindowCounter :=
  filter (λ p, duration_since now (window_start p.2) < window) m.

(** A history of calls; [run] returns the limiter and the admissions of [ip], oldest first. *)
Inductive call : Type := Check (ip : K) (now : Z) | Prune (now : Z).
Definition time_of (c : call) : Z := match c with Check _ t | Prune t => t end.

Definition step (ip : K) (st : gmap K WindowCounter * list Z) (c : call) :
    gmap K WindowCounter * list Z :=
  match c with
  | Check k t =>
      let '(r, m) := check t k st.1 in
      (m, st.2 ++ if bool_decide (k = ip) && is_ok r then [t] else [])
  | Prune t => (prune t st.1, st.2)
  end.

Definition run (ip : K) (cs : list call) : gmap K WindowCounter * list Z := foldl (step ip) (∅, []) cs.

(** What the limiter knows of the admissions [acc] of one client at time [now]. *)
Definition entry_ok (now : Z) (e : option WindowCounter) (acc : list Z) : Prop :=
  match e with
  | Some (mkCounter ws c) =>
      ws ≤ now ∧ c = Z.of_nat (since ws acc) ∧ c ≤ limit ∧
      Forall (λ t, t < ws + window) acc ∧
      ∀ lo, ws - window < lo → Z.of_nat (in_window lo ws acc) ≤ limit
  | None =>
      Forall (λ t, t < now) acc ∧
      ∀ lo, now - window < lo → Z.of_nat (since lo acc) ≤ limit
  end.

Definition inv (ip : K) (now : Z) (st : gmap K WindowCounter * list Z) : Prop :=
  entry_ok now (st.1 !! ip) st.2 ∧
  ∀ lo, Z.of_nat (in_window lo (lo + window) st.2) ≤ 2 * limit.

(** The entry [check] sees, after a possible reset. *)
Definition live_entry (now : Z) (e : option WindowCounter) : WindowCounter :=
  let entry := default (mkCounter now 0) e in
  if window <=? duration_since now (window_start entry) then mkCounter now 0 else entry.

Definition retry_after (now : Z) (e : WindowCounter) : Z :=
  let remaining := sat_sub_u window (duration_since now (window_start e)) in
  Z.max (as_secs remaining + (if 0 <? subsec_nanos remaining then 1 else 0)) 1.

(** ** Lemmas *)

Hypothesis limit_pos : 1 ≤ limit.
Hypothesis limit_u32 : in_u 32 limit.
Hypothesis window_pos : 0 < window.

Lemma check_live now ip m :
  check now ip m =
  let e := live_entry now (m !! ip) in
  if limit <=? count e then (Err (retry_after now e), <[ip := e]> m)
  else (Ok (), <[ip := mkCounter (window_start e) (add_u 32 (count e) 1)]> m).
Proof. done. Qed.

Lemma entry_ok_later now now' e acc :
  now ≤ now' → entry_ok now e acc → entry_ok now' e acc.
Proof.
  intros Hle. destruct e as [[ws c]|]; simpl; [intros (?&?&?&?&?); split_and!; auto; lia|].
  intros [H1 H2]. split; [eapply Forall_impl; [done|simpl; lia]|]. intros lo Hlo. apply H2. lia.
Qed.

Lemma entry_fresh now acc :
  Forall (λ t, t < now) acc → (∀ lo, now - window < lo → Z.of_nat (since lo acc) ≤ limit) →
  entry_ok now (Some (mkCounter now 0)) acc.
Proof.
  intros Hacc Hs. simpl. rewrite since_none by done. split_and!; [done|done|lia| |].
  - eapply Forall_impl; [done|simpl; lia].
  - intros lo Hlo. specialize (Hs lo Hlo). pose proof (in_window_since lo now acc). lia.
Qed.

Lemma entry_old now ws c acc :
  ws + window ≤ now → entry_ok now (Some (mkCounter ws c)) acc → entry_ok now None acc.
Proof.
  intros Hold (_ & Hc & Hlim & Hacc & _). split.
  - eapply Forall_impl; [done|simpl; lia].
  - intros lo Hlo. pose proof (since_mono ws lo acc). lia.
Qed.

Lemma live_ok now e acc :
  entry_ok now e acc →
  entry_ok now (Some (live_entry now e)) acc ∧ now < window_start (live_entry now e) + window.
Proof.
  intros He. unfold live_entry, duration_since. destruct e as [[ws c]|]; simpl.
  - destruct (Z.leb_spec window (Z.max 0 (now - ws))) as [Hle|Hlt].
    + apply entry_old in He as [H1 H2]; [|lia]. split; [by apply entry_fresh|simpl; lia].
    + split; [done|simpl]. destruct He. lia.
  - destruct He as [H1 H2]. destruct (Z.leb_spec window (Z.max 0 (now - now))); [lia|].
    split; [by apply entry_fresh|simpl; lia].
Qed.

Lemma inv_init ip now : inv ip now (∅, []).
Proof. split; simpl; [rewrite lookup_empty; split; [constructor|]|]; intros; unfold since, in_window; simpl; lia. Qed.

Lemma fixed_step ip st now c :
  now ≤ time_of c → inv ip now st → inv ip (time_of c) (step ip st c).
Proof.
  destruct st as [m acc]. intros Hle [He Hb]. apply (entry_ok_later _ _ _ _ Hle) in He.
  destruct c as [k t|t]; simpl in *.
  - rewrite check_live. simpl. destruct (decide (k = ip)) as [->|Hne].
    + apply live_ok in He as [He Hlive]. destruct (live_entry t (m !! ip)) as [ws c] eqn:El. simpl in *.
      rewrite bool_decide_true by done.
      destruct (Z.leb_spec limit c) as [Hfull|Hroom]; simpl.
      { rewrite app_nil_r. split; simpl; [by rewrite lookup_insert_eq|done]. }
      destruct He as (H1 & H2 & H3 & H4 & H5).
      split; simpl; [rewrite lookup_insert_eq; simpl|].
      * rewrite since_snoc. unfold add_u. rewrite wrap_u_small by (destruct limit_u32; split; lia).
        rewrite decide_True by done. split_and!; [done|lia|lia| |].
        { apply Forall_app_2; [done|by constructor]. }
        intros lo Hlo. rewrite in_window_snoc, decide_False by lia. specialize (H5 lo Hlo). lia.
      * intros lo. rewrite in_window_snoc. specialize (Hb lo). case_decide; [|lia].
        destruct (decide (lo ≤ ws)) as [Hlo|Hlo].
        -- pose proof (in_window_split lo ws (lo + window) acc Hlo). specialize (H5 lo). lia.
        -- pose proof (in_window_since lo (lo + window) acc).
           pose proof (since_mono ws lo acc). lia.
    + rewrite bool_decide_false by done.
      assert (∀ e, <[k:=e]> m !! ip = m !! ip) as Hl by (intros; by apply lookup_insert_ne).
      destruct (limit <=? _); simpl; rewrite app_nil_r; (split; [simpl; by rewrite Hl|done]).
  - split; [|done]. simpl. unfold prune. destruct (m !! ip) as [[ws c]|] eqn:Em.
    + destruct (decide (duration_since t ws < window)) as [Hd|Hd].
      * erewrite map_lookup_filter_Some_2; [done|done|done].
      * rewrite map_lookup_filter_None_2; [|right; intros ? ?; by simplify_eq].
        unfold duration_since in Hd. eapply entry_old; [|done]. lia.
    + rewrite map_lookup_filter_None_2 by (by left). done.
Qed.

(** Calls arrive in the order of their instants. *)
Definition ordered (cs : list call) : Prop := StronglySorted (λ a b, time_of a ≤ time_of b) cs.

Lemma fixed_run ip cs st now :
  ordered cs → Forall (λ c, now ≤ time_of c) cs → inv ip now st →
  ∃ now', inv ip now' (foldl (step ip) st cs) ∧ now ≤ now' ∧
    (∀ t, Forall (λ c, time_of c ≤ t) cs → now ≤ t → now' ≤ t).
Proof.
  revert st now. induction cs as [|c cs IH]; intros st now Hs Hn Hi; simpl; [eauto with lia|].
  apply StronglySorted_inv in Hs as [Hs Hc]. apply Forall_cons in Hn as [Hn _].
  destruct (IH (step ip st c) (time_of c)) as (now' & Hi' & Hle & Hub); [done|done|by eapply fixed_step|].
  exists now'. split_and!; [done|lia|]. intros t Hall Ht. apply Forall_cons in Hall as [H1 H2]. auto.
Qed.

(** A refused client that waits for the announced number of seconds is admitted. *)
Lemma retry_after_sufficient now ip m r m' now' :
  check now ip m = (Err r, m') → (∀ e, m !! ip = Some e → window_start e ≤ now) →
  now + r * second_ns ≤ now' → is_ok (check now' ip m').1 = true.
Proof.
  intros Hc Hws Hle. rewrite check_live in Hc. cbn zeta in Hc. rewrite check_live.
  destruct (Z.leb_spec limit (count (live_entry now (m !! ip)))) as [Hfull|?]; [|done].
  injection Hc as <- <-. rewrite lookup_insert_eq. set (e := live_entry now (m !! ip)) in *.
  assert (window_start e ≤ now ∧ now - window_start e < window) as [He1 He2].
  { subst e. unfold live_entry, duration_since in *. destruct (m !! ip) as [[ws c]|] eqn:Em; simpl in *.
    - specialize (Hws _ eq_refl). simpl in Hws. destruct (Z.leb_spec window (Z.max 0 (now - ws))); simpl; lia.
    - destruct (Z.leb_spec window (Z.max 0 (now - now))); simpl; lia. }
  unfold retry_after, duration_since, sat_sub_u, as_secs, subsec_nanos in Hle.
  rewrite (Z.max_r 0 (now - _)), (Z.max_r 0 (window - _)) in Hle by lia. set (rem := window - (now - window_start e)) in *.
  assert (window_start e + window ≤ now') as Hexp.
  { pose proof (Z.div_mod rem second_ns ltac:(done)). pose proof (Z.mod_pos_bound rem second_ns eq_refl).
    unfold second_ns in *. destruct (Z.ltb_spec 0 (rem mod 10 ^ 9)); lia. }
  assert (live_entry now' (Some e) = mkCounter now' 0) as ->.
  { unfold live_entry, duration_since. simpl.
    by destruct (Z.leb_spec window (Z.max 0 (now' - window_start e))); [|lia]. }
  simpl.
  destruct (Z.leb_spec limit 0); [lia|done].
Qed.

Lemma retry_after_range now e :
  window_start e ≤ now → 1 ≤ retry_after now e ≤ Z.max 1 ((window + second_ns - 1) / second_ns).
Proof.
  intros Hle. unfold retry_after, sat_sub_u, duration_since, as_secs, subsec_nanos.
  rewrite (Z.max_r 0 (now - _)) by lia. set (rem := Z.max 0 (window - (now - window_start e))).
  assert (rem / second_ns + (if 0 <? rem mod second_ns then 1 else 0) ≤ (window + second_ns - 1) / second_ns);
    [|lia].
  pose proof (Z.div_mod rem second_ns ltac:(done)).
  destruct (Z.ltb_spec 0 (rem mod second_ns)).
  - apply Z.div_le_lower_bound; [done|]. unfold second_ns in *. lia.
  - rewrite Z.add_0_r. apply Z.div_le_mono; [done|]. unfold second_ns in *. lia.
Qed.

End Fixed.

#[global] Arguments Check {K} ip now.
#[global] Arguments Prune {K} now.

(** [SubscriptionRateLimiter::new]. *)
Definition SUBSCRIPTION_RATE_WINDOW : Z := 60 * second_ns.
Definition new_limit (limit : Z) : Z := Z.max limit 1.

(** The window of an entry never starts in the future. *)
Lemma inv_window_start {K} `{Countable K} limit window (ip : K) now st e :
  inv limit window ip now st → st.1 !! ip = Some e → window_start e ≤ now.
Proof. intros [He _] E. rewrite E in He. destruct e. by destruct He. Qed.

(** The limiter of [POST /v1/subscriptions]: over any history of calls in the
    order of their instants, prunes included, no window of 60 seconds admits
    more than twice the limit from one client, and a client refused later is
    told to wait between 1 and 60 seconds, after which it is admitted. *)
Theorem fixed_window_limiter {K} `{Countable K} limit (cs : list (call (K:=K))) ip :
  in_u 32 limit → ordered cs →
  let w := SUBSCRIPTION_RATE_WINDOW in
  let l := new_limit limit in
  (∀ lo, Z.of_nat (in_window lo (lo + w) (run l w ip cs).2) ≤ 2 * l) ∧
  ∀ now r m',
    Forall (λ c, time_of c ≤ now) cs →
    check l w now ip (run l w ip cs).1 = (Err r, m') →
    1 ≤ r ≤ 60 ∧ ∀ now', now + r * second_ns ≤ now' → is_ok (check l w now' ip m').1 = true.
Proof.
  intros Hl Hs w l.
  assert (1 ≤ l) as H1 by (unfold l, new_limit; lia).
  assert (in_u 32 l) as H2 by (unfold l, new_limit; destruct Hl; split; lia).
  assert (∀ now, Forall (λ c, time_of c ≤ now) cs → inv l w ip now (run l w ip cs)) as Hinv.
  { intros now Hnow. destruct (instants_bounded time_of cs now) as (lo & hi & Hlo & Hall & _).
    destruct (fixed_run l w H1 H2 eq_refl ip cs (∅, []) lo) as (now' & [He Hb] & _ & Hub);
      [done|done|by apply inv_init|].
    split; [|done]. eapply entry_ok_later; [|done]. apply Hub; [done|lia]. }
  split.
  - destruct (instants_bounded time_of cs 0) as (lo & hi & _ & _ & Hhi). by apply (Hinv hi).
  - intros now r m' Hnow Hc. specialize (Hinv now Hnow). split.
    + pose proof Hc as Hc'. rewrite check_live in Hc'. cbn zeta in Hc'.
      destruct (l <=? _); [|done]. injection Hc' as <- _.
      apply (retry_after_range w eq_refl). destruct Hinv as [He _].
      apply (live_ok l w H1 eq_refl) in He as [He _].
      revert He. destruct (live_entry _ _ _). by intros [? _].
    + intros now' Hle. eapply (retry_after_sufficient l w); eauto using inv_window_start. done.
Qed.


Definition demo_calls : list (call (K:=Z)) := [Check 7 0; Check 8 1; Check 7 2; Prune 3].

Lemma fixed_window_limiter_witness :
  let w := SUBSCRIPTION_RATE_WINDOW in
  let l := new_limit 1 in
  ((∀ lo, Z.of_nat (in_window lo (lo + w) (run l w 7 demo_calls).2) ≤ 2 * l) ∧
   ∀ now r m',
     Forall (λ c, time_of c ≤ now) demo_calls →
     check l w now 7 (run l w 7 demo_calls).1 = (Err r, m') →
     1 ≤ r ≤ 60 ∧ ∀ now', now + r * second_ns ≤ now' → is_ok (check l w now' 7 m').1 = true) ∧
  (run l w 7 demo_calls).2 = [0] ∧
  (check l w 4 7 (run l w 7 demo_calls).1).1 = Err 60.
Proof.
  split; [|split; vm_compute; reflexivity].
  apply (fixed_window_limiter 1 demo_calls 7); [split; vm_compute; congruence|].
  unfold ordered, demo_calls. repeat constructor; simpl; lia.
Defined.

End Fixed.

(** ** handlers/mod.rs: the sliding-window limiter *)

Module Sliding.

Section Sliding.
Context {K : Type} `{Countable K}.
Variables (limit : nat) (window : Z).

Definition recent (now : Z) (l : list Z) : list Z := filter (λ t, duration_since now t < window) l.

(** [check]: the instants still in the window are kept. *)
Definition check (now : Z) (ip : K) (hits : gmap K (list Z)) : result () Z * gmap K (list Z) :=
  let entry := recent now (default [] (hits !! ip)) in
  if (limit <=? length entry)%nat then
    let oldest := default now (head entry) in
    let elapsed := duration_since now oldest in
    let retry_after := Z.max (as_secs (sat_sub_u window elapsed)) 1 in
    (Err retry_after, <[ip := entry]> hits)
  else (Ok (), <[ip := entry ++ [now]]> hits).

(** A history of checks [(ip, now)], and the admissions of [ip], oldest first. *)
Definition step (ip : K) (st : gmap K (list Z) * list Z) (c : K * Z) : gmap K (list Z) * list Z :=
  let '(r, m) := check c.2 c.1 st.1 in
  (m, st.2 ++ if bool_decide (c.1 = ip) && is_ok r then [c.2] else []).

Definition run (ip : K) (cs : list (K * Z)) : gmap K (list Z) * list Z := foldl (step ip) (∅, []) cs.

Definition inv (ip : K) (now : Z) (st : gmap K (list Z) * list Z) : Prop :=
  Forall (λ t, t ≤ now) st.2 ∧
  (∀ now', now ≤ now' → recent now' (default [] (st.1 !! ip)) = recent now' st.2) ∧
  ∀ lo, (in_window lo (lo + window) st.2 ≤ limit)%nat.

Hypothesis window_pos : 0 < window.

Lemma recent_recent now now' l : now ≤ now' → recent now' (recent now l) = recent now' l.
Proof.
  intros Hle. unfold recent. rewrite list_filter_filter. apply list_filter_iff.
  intros t. unfold duration_since. lia.
Qed.

(** The admissions in a window that holds [now] are recent at [now]. *)
Lemma in_window_recent lo now l :
  lo ≤ now < lo + window → Forall (λ t, t ≤ now) l →
  (in_window lo (lo + window) l ≤ length (recent now l))%nat.
Proof.
  intros Hlo. induction 1 as [|t l Ht Hl IH]; [done|].
  unfold in_window, recent, duration_since in *. rewrite !filter_cons.
  repeat case_decide; simpl; lia.
Qed.

Lemma check_admits now ip st :
  inv ip now st →
  is_ok (check now ip st.1).1 = (length (recent now st.2) <? limit)%nat.
Proof.
  intros (_ & Hr & _). unfold check. rewrite Hr by done.
  destruct (Nat.leb_spec limit (length (recent now st.2))), (Nat.ltb_spec (length (recent now st.2)) limit);
    simpl; lia || done.
Qed.

Lemma sliding_step ip st now c : now ≤ c.2 → inv ip now st → inv ip c.2 (step ip st c).
Proof.
  destruct st as [m acc], c as [k t]. simpl. intros Hle (Hacc & Hr & Hb). unfold step, check. simpl.
  assert (Forall (λ x, x ≤ t) acc) as Hacc' by (eapply Forall_impl; [done|simpl; lia]).
  assert (∀ e, k ≠ ip → <[k:=e]> m !! ip = m !! ip) as Hne by (intros; by apply lookup_insert_ne).
  simpl in *. destruct (decide (k = ip)) as [->|Hk].
  - rewrite bool_decide_true by done. rewrite Hr by done.
    destruct (Nat.leb_spec limit (length (recent t acc))) as [Hfull|Hroom]; simpl.
    + rewrite app_nil_r. split_and!; [done| |done]. intros now' Hn. simpl.
      rewrite lookup_insert_eq. simpl. by apply recent_recent.
    + split_and!; simpl.
      * apply Forall_app_2; [done|by constructor].
      * intros now' Hn. rewrite lookup_insert_eq. simpl. unfold recent. rewrite !filter_app. f_equal.
        by apply recent_recent.
      * intros lo. rewrite in_window_snoc. specialize (Hb lo). case_decide as Hd; [|lia].
        pose proof (in_window_recent lo t acc Hd Hacc'). lia.
  - rewrite bool_decide_false by done. simpl. rewrite <- (Hne (recent t (default [] (m !! k)))) in Hr by done.
    destruct (limit <=? _)%nat; simpl; rewrite app_nil_r; (split_and!; simpl; [done| |done]);
      intros now' Hn; rewrite Hne by done; rewrite <- Hr by lia; by rewrite Hne.
Qed.

Lemma sliding_run ip cs st now :
  StronglySorted (λ a b, a.2 ≤ b.2) cs → Forall (λ c, now ≤ c.2) cs → inv ip now st →
  ∃ now', inv ip now' (foldl (step ip) st cs) ∧ now ≤ now' ∧
    (∀ t, Forall (λ c, c.2 ≤ t) cs → now ≤ t → now' ≤ t).
Proof.
  revert st now. induction cs as [|c cs IH]; intros st now Hs Hn Hi; simpl; [eauto with lia|].
  apply StronglySorted_inv in Hs as [Hs Hc]. apply Forall_cons in Hn as [Hn _].
  destruct (IH (step ip st c) c.2) as (now' & Hi' & Hle & Hub); [done|done|by eapply sliding_step|].
  exists now'. split_and!; [done|lia|]. intros t Hall Ht. apply Forall_cons in Hall as [H1 H2]. auto.
Qed.

End Sliding.

(** The limiter of subscription registration: over any history of checks in
    the order of their instants, no window admits more than the limit from
    one client, and a later check is admitted exactly when fewer than the
    limit of the client's admissions are still in the window. *)
Theorem sliding_window_limiter {K} `{Countable K} limit window (cs : list (K * Z)) ip :
  0 < window → StronglySorted (λ a b, a.2 ≤ b.2) cs →
  let st := run limit window ip cs in
  (∀ lo, (in_window lo (lo + window) st.2 ≤ limit)%nat) ∧
  ∀ now, Forall (λ c, c.2 ≤ now) cs →
    is_ok (check limit window now ip st.1).1 =
    (length (filter (λ t, (now - t < window)%Z) st.2) <? limit)%nat.
Proof.
  intros Hw Hs st.
  assert (∀ now, Forall (λ c, c.2 ≤ now) cs →
            ∃ now', now' ≤ now ∧ inv limit window ip now' st) as Hinv.
  { intros now Hnow. destruct (instants_bounded snd cs now) as (lo & hi & Hlo & Hall & _).
    destruct (sliding_run limit window Hw ip cs (∅, []) lo) as (now' & Hi & _ & Hub); [done|done| |].
    - split_and!; [constructor| |intros; unfold in_window; simpl; lia]. intros. simpl. by rewrite lookup_empty.
    - exists now'. split; [apply Hub; [done|lia]|done]. }
  split.
  - destruct (instants_bounded snd cs 0) as (lo & hi & _ & _ & Hhi).
    destruct (Hinv hi Hhi) as (? & _ & _ & _ & Hb). exact Hb.
  - intros now Hnow. destruct (Hinv now Hnow) as (now' & Hle & Hacc & Hr & Hb).
    assert (inv limit window ip now st) as Hi.
    { split_and!; [eapply Forall_impl; [done|simpl; lia]| |done]. intros. apply Hr. lia. }
    rewrite check_admits by done. f_equal. f_equal. unfold recent.
    destruct Hi as [Hacc' _]. clear -Hacc' Hw. induction st.2 as [|t l IH]; [done|].
    apply Forall_cons in Hacc' as [Ht Hl]. rewrite !filter_cons, IH by done. unfold duration_since.
    repeat case_decide; done || lia.
Qed.

Lemma sliding_window_limiter_witness :
  let cs := [(7, 0); (8, 1); (7, 2); (7, 3); (7, 10)] in
  let st := run 2 10 7 cs in
  ((∀ lo, (in_window lo (lo + 10) st.2 ≤ 2)%nat) ∧
   ∀ now, Forall (λ c, c.2 ≤ now) cs →
     is_ok (check 2 10 now 7 st.1).1 = (length (filter (λ t, (now - t < 10)%Z) st.2) <? 2)%nat) ∧
  st.2 = [0; 2; 10].
Proof.
  split; [|vm_compute; reflexivity].
  apply (sliding_window_limiter 2 10 [(7, 0); (8, 1); (7, 2); (7, 3); (7, 10)] 7); [lia|].
  repeat constructor; simpl; lia.
Defined.

End Sliding.

(** ** subscriptions.rs: concurrent SSE connections *)

Module Guard.

Section Guard.
Context {K : Type} `{Countable K}.
(** [max], at least one ([new] clamps it). *)
Variable max : Z.

(** [try_acquire], under the entry lock; a success returns a guard. *)
Definition try_acquire (ip : K) (m : gmap K Z) : result () Z * gmap K Z :=
  let current := default 0 (m !! ip) in
  let m := <[ip := current]> m in
  if max <=? current then (Err 1, m) else (Ok (), <[ip := wrap_u 64 (current + 1)]> m).

(** [release], run when a guard is dropped. *)
Definition release (ip : K) (m : gmap K Z) : gmap K Z :=
  match m !! ip with
  | Some v => <[ip := sat_sub_u v 1]> m
  | None => m
  end.

(** The limiter and the guards alive; any of them may be dropped next. *)
Inductive step : gmap K Z * list K → gmap K Z * list K → Prop :=
| step_acquire m live ip m' :
    try_acquire ip m = (Ok (), m') → step (m, live) (m', ip :: live)
| step_refused m live ip r m' :
    try_acquire ip m = (Err r, m') → step (m, live) (m', live)
| step_drop m l1 ip l2 :
    step (m, l1 ++ ip :: l2) (release ip m, l1 ++ l2).

Definition held (ip : K) (live : list K) : nat := length (filter (λ k, k = ip) live).

Definition inv (st : gmap K Z * list K) : Prop :=
  ∀ ip, default 0 (st.1 !! ip) = Z.of_nat (held ip st.2) ∧ Z.of_nat (held ip st.2) ≤ max.

Hypothesis max_pos : 1 ≤ max.
Hypothesis max_usize : in_u 64 max.

Lemma held_app ip l1 l2 : held ip (l1 ++ l2) = (held ip l1 + held ip l2)%nat.
Proof. unfold held. by rewrite filter_app, length_app. Qed.

Lemma held_cons ip k l : held ip (k :: l) = ((if decide (k = ip) then 1 else 0) + held ip l)%nat.
Proof. unfold held. rewrite filter_cons. by case_decide. Qed.

Lemma guard_step_inv st st' : inv st → step st st' → inv st'.
Proof.
  intros Hi Hs. destruct Hs as [m live k m' E|m live k r m' E|m l1 k l2];
    intros ip; specialize (Hi ip) as [Hc Hm]; simpl in *; unfold try_acquire in *.
  - destruct (Z.leb_spec max (default 0 (m !! k))); [done|]. injection E as <-.
    rewrite held_cons. destruct (decide (k = ip)) as [->|Hne].
    + rewrite lookup_insert_eq. simpl. rewrite wrap_u_small by (destruct max_usize; split; lia). lia.
    + rewrite !lookup_insert_ne by done. simpl. lia.
  - destruct (max <=? default 0 (m !! k)); [|done]. injection E as _ <-.
    destruct (decide (k = ip)) as [->|Hne]; [rewrite lookup_insert_eq|rewrite lookup_insert_ne by done]; done.
  - rewrite !held_app, held_cons in Hc, Hm. rewrite held_app. unfold release, sat_sub_u.
    destruct (decide (k = ip)) as [->|Hne].
    + destruct (m !! ip) as [v|] eqn:Ev; simpl in *; [rewrite lookup_insert_eq; simpl; lia|lia].
    + destruct (m !! k) as [v|]; [rewrite lookup_insert_ne by done|]; simpl; lia.
Qed.

End Guard.

Lemma reachable_inv {K} `{Countable K} max st :
  1 ≤ max → in_u 64 max → rtc (step (K:=K) max) (∅, []) st → inv max st.
Proof.
  intros H1 H2 Hr. cut (∀ s, inv max s → rtc (step (K:=K) max) s st → inv max st).
  { intros Hc. apply (Hc (∅, [])); [|done]. intros ip. simpl. rewrite lookup_empty. unfold held. simpl. lia. }
  clear Hr. intros s Hs. induction 1 as [|s s1 s2 E _ IH]; [done|]. apply IH. by eapply guard_step_inv.
Qed.

(** Under any interleaving of connections and disconnections the counter of a
    client is the number of its live guards, never above the limit, and a
    connection is accepted exactly when there is room. *)
Theorem sse_guard_count {K} `{Countable K} max m live (ip : K) :
  1 ≤ max → in_u 64 max → rtc (step max) (∅, []) (m, live) →
  default 0 (m !! ip) = Z.of_nat (held ip live) ∧
  Z.of_nat (held ip live) ≤ max ∧
  is_ok (try_acquire max ip m).1 = (Z.of_nat (held ip live) <? max).
Proof.
  intros H1 H2 Hr. destruct (reachable_inv max _ H1 H2 Hr ip) as [Hc Hm]. simpl in *.
  split_and!; [done|done|]. unfold try_acquire. rewrite Hc.
  destruct (Z.leb_spec max (Z.of_nat (held ip live))), (Z.ltb_spec (Z.of_nat (held ip live)) max); done || lia.
Qed.

Lemma sse_guard_count_witness :
  let m := <[7 := 2]> (∅ : gmap Z Z) in
  default 0 (m !! 7) = Z.of_nat (held 7 [7; 7]) ∧
  Z.of_nat (held 7 [7; 7]) ≤ 2 ∧
  is_ok (try_acquire 2 7 m).1 = (Z.of_nat (held 7 [7; 7]) <? 2).
Proof.
  apply (sse_guard_count 2 (<[7 := 2]> ∅) [7; 7] 7); [lia|split; [lia|reflexivity]|].
  eapply rtc_l; [apply (step_acquire 2 ∅ [] 7); reflexivity|].
  eapply rtc_l; [eapply (step_acquire 2 _ [7] 7); reflexivity|].
  apply rtc_refl.
Defined.

End Guard.

(** ** handlers/mod.rs: the limiter whose guard removes empty entries *)

Module SharedGuard.

Section SharedGuard.
Context {K : Type} `{Countable K}.
Variable limit : Z.

(** [try_acquire]. *)
Definition try_acquire (ip : K) (active : gmap K Z) : bool * gmap K Z :=
  let entry := default 0 (active !! ip) in
  if limit <=? entry then (false, <[ip := entry]> active)
  else (true, <[ip := wrap_u 64 (entry + 1)]> active).

(** [Drop for SseConnectionGuard], the part under the entry lock: whether the
    entry reached zero, in which case it is removed after the lock is released. *)
Definition drop_locked (ip : K) (active : gmap K Z) : bool * gmap K Z :=
  match active !! ip with
  | Some count => let c := sat_sub_u count 1 in (c =? 0, <[ip := c]> active)
  | None => (false, active)
  end.

Record St : Type := mkSt { active : gmap K Z; live : list K; removing : list K }.

(** Each critical section is one step; other threads may run between the two
    parts of a drop. *)
Inductive step : St → St → Prop :=
| step_acquire m live rm ip ok m' :
    try_acquire ip m = (ok, m') →
    step (mkSt m live rm) (mkSt m' (if ok then ip :: live else live) rm)
| step_drop m l1 ip l2 rm z m' :
    drop_locked ip m = (z, m') →
    step (mkSt m (l1 ++ ip :: l2) rm) (mkSt m' (l1 ++ l2) (if z then ip :: rm else rm))
| step_remove m live r1 ip r2 :
    step (mkSt m live (r1 ++ ip :: r2)) (mkSt (delete ip m) live (r1 ++ r2)).

Hypothesis limit_pos : 1 ≤ limit.
Hypothesis limit_usize : in_u 64 limit.

(** From a client without an entry, [n] connections up to the limit are accepted. *)
Lemma acquire_many n m ip lv rm :
  Z.of_nat n ≤ limit → default 0 (m !! ip) = 0 →
  ∃ m', rtc step (mkSt m lv rm) (mkSt m' (replicate n ip ++ lv) rm) ∧ default 0 (m' !! ip) = Z.of_nat n.
Proof.
  induction n as [|n IH]; intros Hn Hm; [exists m; split; [apply rtc_refl|done]|].
  destruct IH as (m' & Hr & Hm'); [lia|done|].
  exists (<[ip := wrap_u 64 (Z.of_nat n + 1)]> m'). split.
  - eapply rtc_r; [done|]. apply (step_acquire m' _ rm ip true). unfold try_acquire. rewrite Hm'.
    destruct (Z.leb_spec limit (Z.of_nat n)); [lia|done].
  - rewrite lookup_insert_eq. simpl. rewrite wrap_u_small by (destruct limit_usize; split; lia). lia.
Qed.

End SharedGuard.

Arguments St K {_ _}.

(** A drop that reaches zero releases the lock before it removes the entry; a
    connection accepted in between loses its count with the entry, and the
    client then gets past the limit, whatever the limit. *)
Theorem shared_guard_race {K} `{Countable K} limit (ip : K) :
  1 ≤ limit → in_u 64 limit →
  ∃ st : St K, rtc (step limit) (mkSt ∅ [] []) st ∧ limit < Z.of_nat (length (live st)).
Proof.
  intros H1 H2.
  destruct (acquire_many limit H2 (Z.to_nat limit) (delete ip (<[ip := 1]> (<[ip := 0]> (<[ip := 1]> ∅)))) ip [ip] [])
    as (m' & Hr & _); [lia|by rewrite lookup_delete_eq|].
  exists (mkSt m' (replicate (Z.to_nat limit) ip ++ [ip]) []). split.
  - assert (∀ m rm lv, default 0 (m !! ip) = 0 →
      step limit (mkSt m lv rm) (mkSt (<[ip := 1]> m) (ip :: lv) rm)) as Hacq.
    { intros m rm lv Hm. apply (step_acquire limit m lv rm ip true). unfold try_acquire. rewrite Hm.
      destruct (Z.leb_spec limit 0); [lia|done]. }
    eapply rtc_l; [apply Hacq; by rewrite lookup_empty|].
    eapply rtc_l; [apply (step_drop limit _ [] ip [] [] true (<[ip := 0]> (<[ip := 1]> ∅)));
                   unfold drop_locked; by rewrite lookup_insert_eq|].
    eapply rtc_l; [apply Hacq; by rewrite lookup_insert_eq|].
    eapply rtc_l; [apply (step_remove limit _ _ [] ip [])|]. simpl.
    done.
  - simpl. rewrite length_app, length_replicate. simpl. lia.
Qed.

Lemma shared_guard_race_witness :
  ∃ st : St Z, rtc (step 5) (mkSt (∅ : gmap Z Z) [] []) st ∧ 5 < Z.of_nat (length (live st)).
Proof. apply (shared_guard_race 5 7); [lia|split; [lia|reflexivity]]. Defined.

End SharedGuard.
