(* ===== verification/CallbackUrl.v ===== *)
(** subscriptions.rs, [validate_callback_url]: the address filter for
    callback URLs.  [str::parse::<IpAddr>] is the standard library's parser;
    [Url::parse] is the url crate's and a parameter, with the scheme and
    [host_str] of its result. *)

From S2P Require Import Prelude Text Model.

Module CallbackUrl.

(** ** [std::net::IpAddr] and its parser *)

(** The octets of an IPv4 address; the eight 16-bit segments of an IPv6 address. *)
Inductive IpAddr : Type :=
| V4 (a b c d : Z)
| V6 (segments : list Z).

Definition hex_val (a : ascii) : option Z :=
  let n := Z.of_nat (nat_of_ascii a) in
  if (48 <=? n) && (n <=? 57) then Some (n - 48)
  else if (97 <=? n) && (n <=? 102) then Some (n - 87)
  else if (65 <=? n) && (n <=? 70) then Some (n - 55)
  else None.

(** [char::to_digit] for radix 10 and 16. *)
Definition to_digit (radix : Z) (a : ascii) : option Z :=
  match hex_val a with
  | Some v => if v <? radix then Some v else None
  | None => None
  end.

Fixpoint read_digits (radix : Z) (s : string) (acc : Z) (n : nat) : Z * nat * string :=
  match s with
  | String a r =>
      match to_digit radix a with
      | Some v => read_digits radix r (acc * radix + v) (S n)
      | None => (acc, n, s)
      end
  | EmptyString => (acc, n, s)
  end.

(** [Parser::read_number] with a bound on the digits; the number must be below [limit]. *)
Definition read_number (radix : Z) (max_digits : nat) (allow_zero_prefix : bool) (limit : Z) (s : string) :
    option (Z * string) :=
  let has_leading_zero := String.prefix "0" s in
  let '(v, n, rest) := read_digits radix s 0 0 in
  if (max_digits <? n)%nat || (n =? 0)%nat then None
  else if negb allow_zero_prefix && has_leading_zero && (1 <? n)%nat then None
  else if v <? limit then Some (v, rest) else None.

(** [Parser::read_separator]. *)
Definition read_separator {A} (sep : ascii) (index : nat) (inner : string → option (A * string)) (s : string) :
    option (A * string) :=
  match index with
  | O => inner s
  | S _ => match s with String a r => if Ascii.eqb a sep then inner r else None | _ => None end
  end.

Definition read_octet (i : nat) : string → option (Z * string) :=
  read_separator "." i (read_number 10 3 false 256).

Definition read_ipv4_addr (s : string) : option (Z * Z * Z * Z * string) :=
  let! (a, s) := read_octet 0 s in
  let! (b, s) := read_octet 1 s in
  let! (c, s) := read_octet 2 s in
  let! (d, s) := read_octet 3 s in
  Some (a, b, c, d, s).

(** [read_groups]: at most [k] groups from index [i] of [limit]. *)
Fixpoint read_groups (k i limit : nat) (s : string) : list Z * bool * string :=
  match k with
  | O => ([], false, s)
  | S k =>
      match (if (i <? limit - 1)%nat
             then read_separator ":" i (λ s, let! (a, b, c, d, r) := read_ipv4_addr s in Some ((a, b, c, d), r)) s
             else None) with
      | Some ((a, b, c, d), rest) => ([a * 256 + b; c * 256 + d], true, rest)
      | None =>
          match read_separator ":" i (read_number 16 4 true 65536) s with
          | Some (g, rest) =>
              let '(gs, v4, rest) := read_groups k (S i) limit rest in (g :: gs, v4, rest)
          | None => ([], false, s)
          end
      end
  end.

Definition read_ipv6_addr (s : string) : option (list Z * string) :=
  let '(head, head_ipv4, rest) := read_groups 8 0 8 s in
  if (length head =? 8)%nat then Some (head, rest)
  else if head_ipv4 then None
  else
    match rest with
    | String ":" (String ":" rest) =>
        let limit := (8 - (length head + 1))%nat in
        let '(tail, _, rest) := read_groups limit 0 limit rest in
        Some (head ++ repeat 0 (8 - length head - length tail) ++ tail, rest)
    | _ => None
    end.

(** [str::parse::<IpAddr>]: everything must be consumed. *)
Definition parse_ip (s : string) : option IpAddr :=
  match
    match read_ipv4_addr s with
    | Some (a, b, c, d, rest) => Some (V4 a b c d, rest)
    | None => match read_ipv6_addr s with Some (gs, rest) => Some (V6 gs, rest) | None => None end
    end
  with
  | Some (ip, EmptyString) => Some ip
  | _ => None
  end.

(** ** subscriptions.rs *)

(** [is_private_ip]. *)
Definition is_private_ip (ip : IpAddr) : bool :=
  match ip with
  | V4 a b c _ =>
      (a =? 127) || (a =? 10) || ((a =? 172) && ((16 <=? b) && (b <=? 31))) ||
      ((a =? 192) && (b =? 168)) || ((a =? 169) && (b =? 254)) ||
      ((a =? 0) && (b =? 0) && (c =? 0)) || (224 <=? a)
  | V6 s =>
      bool_decide (s = [0; 0; 0; 0; 0; 0; 0; 1]) || bool_decide (s = [0; 0; 0; 0; 0; 0; 0; 0]) ||
      (Z.land (nth 0 s 0) 0xffc0 =? 0xfe80) || (Z.land (nth 0 s 0) 0xfe00 =? 0xfc00)
  end.

(** [is_ssrf_host]. *)
Definition loopback_name (host : string) : bool :=
  bool_decide (host ∈ ["localhost"; "127.0.0.1"; "::1"])%string || ends_with ".local" host ||
  ends_with ".localhost" host.

Definition private_prefix (host : string) : bool :=
  starts_with "10." host || starts_with "192.168." host || starts_with "169.254." host ||
  (starts_with "172." host &&
   match nth_error (split_on "." host) 1 ≫= parse_u 8 with
   | Some o => (16 <=? o) && (o <=? 31)
   | None => false
   end).

Definition is_ssrf_host (host : string) : bool :=
  if loopback_name host then true
  else match parse_ip host with
       | Some ip => is_private_ip ip
       | None => private_prefix host
       end.

(** The entries of SUBSCRIPTION_ALLOWED_URL_PREFIXES. *)
Definition allowed_prefixes (var : option string) : list string :=
  filter (λ s, is_empty s = false) (trim <$> split_on "," (default ""%string var)).

Section Validate.
(** [Url::parse]: scheme and [host_str], or the error's text. *)
Variable url_parse : string → result (string * option string) string.

Definition validate_callback_url (var : option string) (raw : string) (env : Environment) :
    result () AppError :=
  let prefixes := allowed_prefixes var in
  if negb (bool_decide (prefixes = [])) then
    if existsb (λ p, starts_with p raw) prefixes then Ok ()
    else Err (Validation "callback_url does not match any entry in SUBSCRIPTION_ALLOWED_URL_PREFIXES")
  else
    match url_parse raw with
    | Err e => Err (Validation ("callback_url is not a valid URL: " +:+ e))
    | Ok (scheme, host) =>
        let? _ :=
          (if String.eqb scheme "https" then Ok ()
           else if String.eqb scheme "http" then
             if is_production_like env then Err (Validation "callback_url must use HTTPS in production") else Ok ()
           else Err (Validation ("callback_url scheme '" +:+ scheme +:+ "' is not permitted; use https"))) in
        if is_ssrf_host (default ""%string host)
        then Err (Validation "callback_url points to a private, loopback, or link-local address")
        else Ok ()
    end.

End Validate.

(** ** The blocked networks *)

Definition value (ip : IpAddr) : Z :=
  match ip with
  | V4 a b c d => ((a * 256 + b) * 256 + c) * 256 + d
  | V6 s => foldl (λ v x, v * 65536 + x) 0 s
  end.

Definition width (ip : IpAddr) : Z := match ip with V4 _ _ _ _ => 32 | V6 _ => 128 end.

(** [ip] is in the network [base/len]: same family and same first [len] bits. *)
Definition in_net (ip : IpAddr) (net : IpAddr * Z) : bool :=
  let '(base, len) := net in
  (width ip =? width base) &&
  (Z.shiftr (value ip) (width ip - len) =? Z.shiftr (value base) (width ip - len)).

Definition blocked_networks : list (IpAddr * Z) :=
  [(V4 127 0 0 0, 8); (V4 10 0 0 0, 8); (V4 172 16 0 0, 12); (V4 192 168 0 0, 16);
   (V4 169 254 0 0, 16); (V4 0 0 0 0, 24); (V4 224 0 0 0, 3);
   (V6 [0; 0; 0; 0; 0; 0; 0; 1], 128); (V6 [0; 0; 0; 0; 0; 0; 0; 0], 128);
   (V6 [0xfe80; 0; 0; 0; 0; 0; 0; 0], 10); (V6 [0xfc00; 0; 0; 0; 0; 0; 0; 0], 7)].

Definition blocked (ip : IpAddr) : bool := existsb (in_net ip) blocked_networks.

Definition valid_ip (ip : IpAddr) : Prop :=
  match ip with
  | V4 a b c d => Forall (in_u 8) [a; b; c; d]
  | V6 s => length s = 8%nat ∧ Forall (in_u 16) s
  end.

(** ** Lemmas *)

Lemma land_high w k s :
  0 ≤ k ≤ w → in_u w s → Z.land s (Z.ldiff (Z.ones w) (Z.ones k)) = Z.shiftl (Z.shiftr s k) k.
Proof.
  intros Hk [Hs Hw]. apply Z.bits_inj'. intros n Hn.
  rewrite Z.land_spec, Z.ldiff_spec, Z.shiftl_spec by lia.
  destruct (Z.ltb_spec n k).
  - rewrite (Z.ones_spec_low k) by lia. rewrite (Z.testbit_neg_r _ (n - k)) by lia.
    by rewrite !andb_false_r.
  - rewrite (Z.ones_spec_high k) by lia. rewrite Z.shiftr_spec by lia.
    replace (n - k + k) with n by lia. destruct (Z.ltb_spec n w).
    + rewrite Z.ones_spec_low by lia. by rewrite !andb_true_r.
    + rewrite <- (Z.mod_small s (2 ^ w)) by done.
      by rewrite Z.mod_pow2_bits_high by lia.
Qed.

Lemma shiftr_split a r k : 0 ≤ k → 0 ≤ r < 2 ^ k → Z.shiftr (a * 2 ^ k + r) k = a.
Proof.
  intros Hk Hr. rewrite Z.shiftr_div_pow2 by done.
  rewrite Z.div_add_l by lia. rewrite Z.div_small by done. lia.
Qed.

Lemma eqb_iff a b c d : (a = b ↔ c = d) → (a =? b) = (c =? d).
Proof. intros H. destruct (Z.eqb_spec a b), (Z.eqb_spec c d); tauto. Qed.

Lemma private_v4 a b c d : valid_ip (V4 a b c d) → is_private_ip (V4 a b c d) = blocked (V4 a b c d).
Proof.
  intros Hv. apply Forall_cons in Hv as [Ha Hv]. apply Forall_cons in Hv as [Hb Hv].
  apply Forall_cons in Hv as [Hc Hv]. apply Forall_cons in Hv as [Hd _].
  unfold in_u in *. set (v := ((a * 256 + b) * 256 + c) * 256 + d).
  assert (Z.shiftr v 24 = a) as E24.
  { subst v. replace (((a * 256 + b) * 256 + c) * 256 + d) with (a * 2 ^ 24 + (b * 65536 + c * 256 + d)) by lia.
    apply shiftr_split; lia. }
  assert (Z.shiftr v 16 = a * 256 + b) as E16.
  { subst v. replace (((a * 256 + b) * 256 + c) * 256 + d) with ((a * 256 + b) * 2 ^ 16 + (c * 256 + d)) by lia.
    apply shiftr_split; lia. }
  assert (Z.shiftr v 8 = (a * 256 + b) * 256 + c) as E8.
  { subst v. apply (shiftr_split ((a * 256 + b) * 256 + c) d 8); lia. }
  assert (Z.shiftr v 20 = a * 16 + b / 16) as E20.
  { change 20 with (16 + 4). rewrite <- Z.shiftr_shiftr, E16 by lia. rewrite Z.shiftr_div_pow2 by lia.
    replace (a * 256 + b) with ((a * 16) * 2 ^ 4 + b) by lia. by rewrite Z.div_add_l by lia. }
  assert (Z.shiftr v 29 = a / 32) as E29.
  { change 29 with (24 + 5). rewrite <- Z.shiftr_shiftr, E24 by lia. by rewrite Z.shiftr_div_pow2 by lia. }
  unfold blocked, blocked_networks. cbn [existsb in_net width Z.eqb Pos.eqb].
  change (Z.eqb 32 128) with false. change (Z.eqb 32 32) with true. cbn [andb].
  change (32 - 8) with 24. change (32 - 12) with 20. change (32 - 16) with 16. change (32 - 24) with 8.
  change (32 - 3) with 29.
  change (Z.shiftr (value (V4 127 0 0 0)) 24) with 127. change (Z.shiftr (value (V4 10 0 0 0)) 24) with 10.
  change (Z.shiftr (value (V4 172 16 0 0)) 20) with 2753. change (Z.shiftr (value (V4 192 168 0 0)) 16) with 49320.
  change (Z.shiftr (value (V4 169 254 0 0)) 16) with 43518. change (Z.shiftr (value (V4 0 0 0 0)) 8) with 0.
  change (Z.shiftr (value (V4 224 0 0 0)) 29) with 7.
  change (value (V4 a b c d)) with v. rewrite E24, E20, E16, E8, E29, !orb_false_r.
  unfold is_private_ip. rewrite !orb_assoc.
  repeat f_equal; apply Bool.eq_iff_eq_true; rewrite ?andb_true_iff, ?Z.eqb_eq, ?Z.leb_le; try lia.
  all: clear -Ha Hb; Z.to_euclidean_division_equations; lia.
Qed.
Lemma foldl_value s v :
  Forall (in_u 16) s →
  foldl (λ v x, v * 65536 + x) v s = v * 2 ^ (16 * Z.of_nat (length s)) + foldl (λ v x, v * 65536 + x) 0 s ∧
  0 ≤ foldl (λ v x, v * 65536 + x) 0 s < 2 ^ (16 * Z.of_nat (length s)).
Proof.
  revert v. induction s as [|x s IH]; intros v Hs; simpl length; [simpl; lia|].
  apply Forall_cons in Hs as [[Hx Hx'] Hs]. change (2 ^ 16) with 65536 in Hx'.
  replace (16 * Z.of_nat (S (length s))) with (16 + 16 * Z.of_nat (length s)) by lia.
  rewrite Z.pow_add_r by lia. change (2 ^ 16) with 65536.
  simpl. rewrite (proj1 (IH (v * 65536 + x) Hs)), (proj1 (IH (0 * 65536 + x) Hs)).
  pose proof (proj2 (IH 0 Hs)) as Hr.
  split; [lia|]. nia.
Qed.

Lemma value_eqb x y :
  valid_ip (V6 x) → valid_ip (V6 y) → bool_decide (x = y) = (value (V6 x) =? value (V6 y)).
Proof.
  intros [Hlx Hx] [Hly Hy]. simpl. apply Bool.eq_iff_eq_true. rewrite bool_decide_eq_true, Z.eqb_eq.
  split; [by intros ->|]. revert Hx Hy. rewrite <- Hly in Hlx. clear Hly. revert y Hlx.
  induction x as [|a x IH]; intros [|b y] Hl Hx Hy E; try done.
  apply Forall_cons in Hx as [Ha Hx]. apply Forall_cons in Hy as [Hb Hy]. simpl in Hl. injection Hl as Hl.
  simpl in E. rewrite (proj1 (foldl_value x _ Hx)), (proj1 (foldl_value y _ Hy)) in E.
  pose proof (proj2 (foldl_value x 0 Hx)). pose proof (proj2 (foldl_value y 0 Hy)).
  rewrite Hl in *. set (w := 2 ^ (16 * Z.of_nat (length y))) in *.
  assert (a = b) as -> by nia. f_equal. apply IH; [done|done|done|nia].
Qed.

Lemma private_v6 s : valid_ip (V6 s) → is_private_ip (V6 s) = blocked (V6 s).
Proof.
  intros [Hlen Hs].
  destruct s as [|s0 [|s1 [|s2 [|s3 [|s4 [|s5 [|s6 [|s7 [|]]]]]]]]]; try done.
  pose proof Hs as H0. apply Forall_cons in H0 as [H0 Ht]. unfold is_private_ip.
  change (nth 0 _ 0) with s0.
  change 0xffc0 with (Z.ldiff (Z.ones 16) (Z.ones 6)). change 0xfe00 with (Z.ldiff (Z.ones 16) (Z.ones 9)).
  rewrite !land_high by (lia || done). set (s := [s1; s2; s3; s4; s5; s6; s7]) in *.
  assert (value (V6 (s0 :: s)) = s0 * 2 ^ 112 + foldl (λ v x, v * 65536 + x) 0 s) as Ev
    by exact (proj1 (foldl_value s s0 Ht)).
  pose proof (proj2 (foldl_value s 0 Ht)) as Hr. change (16 * Z.of_nat (length s)) with 112 in Hr.
  set (r := foldl _ 0 s) in *.
  unfold blocked, blocked_networks. cbn [existsb in_net width].
  change (Z.eqb 128 128) with true. change (Z.eqb 128 32) with false. cbn [andb orb].
  change (128 - 128) with 0. change (128 - 10) with (112 + 6). change (128 - 7) with (112 + 9).
  rewrite !(Z.shiftr_0_r (value (V6 (s0 :: s)))).
  rewrite <- !(Z.shiftr_shiftr (value (V6 (s0 :: s)))) by lia. rewrite Ev, shiftr_split by done.
  rewrite orb_false_r, !orb_assoc. f_equal; [f_equal; [f_equal|]|].
  - rewrite <- Ev. rewrite Z.shiftr_0_r. apply value_eqb; [done|]. split; [done|]. repeat constructor; lia.
  - rewrite <- Ev. rewrite Z.shiftr_0_r. apply value_eqb; [done|]. split; [done|]. repeat constructor; lia.
  - change (Z.shiftr (value _) (112 + 6)) with 1018. apply eqb_iff. rewrite Z.shiftl_mul_pow2 by lia. lia.
  - change (Z.shiftr (value _) (112 + 9)) with 126. apply eqb_iff. rewrite Z.shiftl_mul_pow2 by lia. lia.
Qed.

Lemma to_digit_range radix a v : 0 < radix → to_digit radix a = Some v → 0 ≤ v < radix.
Proof.
  intros Hr. unfold to_digit, hex_val. repeat case_match; intros [= <-]; simplify_eq; lia.
Qed.

Lemma read_digits_nonneg radix s acc n : 0 < radix → 0 ≤ acc → 0 ≤ (read_digits radix s acc n).1.1.
Proof.
  intros Hr. revert acc n. induction s as [|a s IH]; intros acc n Ha; [done|]. simpl.
  destruct (to_digit radix a) as [v|] eqn:E; [|done]. apply to_digit_range in E; [|done]. apply IH. nia.
Qed.

Lemma read_number_range radix m z limit s v r :
  0 < radix → read_number radix m z limit s = Some (v, r) → 0 ≤ v < limit.
Proof.
  intros Hr. unfold read_number. pose proof (read_digits_nonneg radix s 0 0 Hr) as Hn.
  destruct (read_digits radix s 0 0) as [[v' n] rest]. specialize (Hn ltac:(lia)). simpl in Hn.
  repeat case_match; try done. intros [= <- <-]. lia.
Qed.

Lemma read_separator_inv {A} sep i (inner : string → option (A * string)) s x r :
  read_separator sep i inner s = Some (x, r) → ∃ s', inner s' = Some (x, r).
Proof. destruct i; simpl; [eauto|]. destruct s as [|a s]; [done|]. destruct (Ascii.eqb a sep); [eauto|done]. Qed.

Lemma read_octet_range i s v r : read_octet i s = Some (v, r) → in_u 8 v.
Proof. intros [s' E]%read_separator_inv. by apply read_number_range in E. Qed.

Lemma read_ipv4_valid s a b c d r : read_ipv4_addr s = Some (a, b, c, d, r) → valid_ip (V4 a b c d).
Proof.
  unfold read_ipv4_addr, option_bind.
  destruct (read_octet 0 s) as [[a' s1]|] eqn:E0; [|done].
  destruct (read_octet 1 s1) as [[b' s2]|] eqn:E1; [|done].
  destruct (read_octet 2 s2) as [[c' s3]|] eqn:E2; [|done].
  destruct (read_octet 3 s3) as [[d' s4]|] eqn:E3; [|done].
  intros [= <- <- <- <- <-]. repeat constructor; by eapply read_octet_range.
Qed.

Lemma read_groups_valid k i limit s gs v4 r :
  (k + i = limit)%nat → read_groups k i limit s = (gs, v4, r) →
  (length gs ≤ k)%nat ∧ Forall (in_u 16) gs.
Proof.
  revert i s gs v4 r. induction k as [|k IH]; intros i s gs v4 r Hk; simpl; [intros [= <- _ _]; split; [simpl; lia|done]|].
  destruct (if (i <? limit - 1)%nat then _ else None) as [[[[[a b] c] d] rest]|] eqn:E4.
  - intros [= <- _ _]. destruct (Nat.ltb_spec i (limit - 1)); [|done].
    apply read_separator_inv in E4 as [s' E4]. unfold option_bind in E4.
    destruct (read_ipv4_addr s') as [[[[[a' b'] c'] d'] r']|] eqn:E; [|done]. injection E4 as <- <- <- <- _.
    apply read_ipv4_valid in E. unfold valid_ip, in_u in E. rewrite !Forall_cons in E.
    destruct E as (? & ? & ? & ? & _).
    simpl in *. split; [lia|]. repeat constructor; lia.
  - destruct (read_separator ":" i (read_number 16 4 true 65536) s) as [[g rest]|] eqn:Eg.
    2: { intros ?. simplify_eq. split; [simpl; lia|done]. }
    destruct (read_groups k (S i) limit rest) as [[gs' v4'] r'] eqn:Er. intros ?; simplify_eq.
    apply IH in Er as [H1 H2]; [|lia]. split; [simpl; lia|]. constructor; [|done].
    apply read_separator_inv in Eg as [s' Eg]. by apply read_number_range in Eg.
Qed.

Lemma parse_ip_valid s ip : parse_ip s = Some ip → valid_ip ip.
Proof.
  unfold parse_ip. destruct (read_ipv4_addr s) as [[[[[a b] c] d] rest]|] eqn:E4.
  { destruct rest; [|done]. intros [= <-]. by eapply read_ipv4_valid. }
  destruct (read_ipv6_addr s) as [[gs rest]|] eqn:E6; [|done]. destruct rest; [|done]. intros [= <-].
  unfold read_ipv6_addr in E6. destruct (read_groups 8 0 8 s) as [[head v4] rest] eqn:Eh.
  apply read_groups_valid in Eh as [Hl Hh]; [|done].
  destruct (Nat.eqb_spec (length head) 8) as [H8|H8]; [by injection E6 as <- _|].
  destruct v4; [done|]. destruct rest as [|c1 rest]; [done|].
  destruct (ascii_dec c1 ":"); [subst|by repeat case_match].
  destruct rest as [|c2 rest]; [done|]. destruct (ascii_dec c2 ":"); [subst|by repeat case_match].
  destruct (read_groups _ 0 _ rest) as [[tail v4'] rest'] eqn:Et. injection E6 as <- _.
  apply read_groups_valid in Et as [Hl' Ht]; [|lia]. split.
  - rewrite !length_app, repeat_length. lia.
  - apply Forall_app_2; [done|]. apply Forall_app_2; [|done]. apply List.Forall_forall.
    intros x Hx%repeat_spec. subst. done.
Qed.

Lemma is_private_ip_blocked s ip : parse_ip s = Some ip → is_private_ip ip = blocked ip.
Proof.
  intros Hp%parse_ip_valid. destruct ip; [by apply private_v4|by apply private_v6].
Qed.

Example parse_v4 : parse_ip "192.168.1.1" = Some (V4 192 168 1 1). Proof. reflexivity. Qed.
Example parse_v4_zero : parse_ip "192.168.01.1" = None. Proof. reflexivity. Qed.
Example parse_v6 : parse_ip "fe80::1:1.2.3.4" = Some (V6 [0xfe80; 0; 0; 0; 0; 1; 0x102; 0x304]). Proof. reflexivity. Qed.
Example parse_v6_loop : parse_ip "::1" = Some (V6 [0; 0; 0; 0; 0; 0; 0; 1]). Proof. reflexivity. Qed.
Example parse_v6_bracket : parse_ip "[::1]" = None. Proof. reflexivity. Qed.
Example parse_not : parse_ip "1.2.3" = None. Proof. reflexivity. Qed.
Example parse_v6_full : parse_ip "1:2:3:4:5:6:7:8" = Some (V6 [1; 2; 3; 4; 5; 6; 7; 8]). Proof. reflexivity. Qed.

(** Text that ends in a bracket has no domain suffix. *)
Lemma ends_with_inv p s : ends_with p s = true → ∃ q, s = (q +:+ p)%string.
Proof.
  induction s as [|a s IH]; simpl; intros H.
  - exists EmptyString. simpl. symmetry. apply String.eqb_eq. by rewrite orb_false_r in H.
  - apply orb_true_iff in H as [H|H]; [exists EmptyString; simpl; symmetry; by apply String.eqb_eq|].
    destruct (IH H) as [q ->]. by exists (String a q).
Qed.

Lemma list_ascii_app s t :
  String.list_ascii_of_string (s +:+ t)%string = String.list_ascii_of_string s ++ String.list_ascii_of_string t.
Proof. induction s as [|a s IH]; simpl; [done|]. by f_equal. Qed.

Lemma ends_with_bracket p s :
  last (String.list_ascii_of_string p) ≠ Some "]"%char → p ≠ EmptyString → ends_with p (s +:+ "]")%string = false.
Proof.
  intros Hp Hne. destruct (ends_with p (s +:+ "]")%string) eqn:E; [|done].
  apply ends_with_inv in E as [q E]. apply (f_equal String.list_ascii_of_string) in E.
  rewrite !list_ascii_app in E. apply (f_equal last) in E. change (String.list_ascii_of_string "]") with ["]"%char] in E.
  rewrite last_snoc in E.
  rewrite last_app in E. destruct (last (String.list_ascii_of_string p)) eqn:El; [congruence|].
  destruct p; [done|]. by apply last_None in El.
Qed.

Lemma bracketed_not_ssrf inner : is_ssrf_host ("[" +:+ inner +:+ "]")%string = false.
Proof.
  unfold is_ssrf_host, loopback_name. rewrite bool_decide_false.
  2: { intros Hin. repeat (apply elem_of_cons in Hin as [Hin|Hin]; [done|]). by apply elem_of_nil in Hin. }
  change ("[" +:+ inner +:+ "]")%string with (("[" +:+ inner) +:+ "]")%string at 1 2.
  rewrite !ends_with_bracket by done. done.
Qed.

(** [host_str] of an IPv6 URL: the address in brackets. *)
Definition bracketed (host : string) : Prop := ∃ inner, host = ("[" +:+ inner +:+ "]")%string.

(** The hosts the filter is meant to let through. *)
Definition public_host (host : string) : Prop :=
  loopback_name host = false ∧
  match parse_ip host with
  | Some ip => ∀ net, net ∈ blocked_networks → in_net ip net = false
  | None => private_prefix host = false
  end.

Lemma is_ssrf_host_public host : is_ssrf_host host = false ↔ public_host host.
Proof.
  unfold is_ssrf_host, public_host. destruct (loopback_name _); [naive_solver|].
  destruct (parse_ip _) as [ip|] eqn:Eip; [|naive_solver].
  rewrite (is_private_ip_blocked _ _ Eip). unfold blocked. rewrite <- not_true_iff_false, existsb_exists.
  setoid_rewrite <- list_elem_of_In. split.
  - intros Hn. split; [done|]. intros net Hin. apply not_true_iff_false. eauto.
  - intros [_ Hn] (net & Hin & Hnet). by rewrite Hn in Hnet.
Qed.

Lemma is_ssrf_host_false host : is_ssrf_host host = false ↔ bracketed host ∨ public_host host.
Proof.
  rewrite is_ssrf_host_public. split; [by right|]. intros [[inner ->]|H]; [|done].
  apply is_ssrf_host_public, bracketed_not_ssrf.
Qed.

(** C25. A callback URL is accepted exactly when it has an allowed prefix or, with
    no allow list, when its scheme is https (or http in development) and its
    host is a bracketed IPv6 literal, whatever its address (the source's own
    test asks for [::1] to be refused), or is no loopback name, no literal
    IPv4 or bare IPv6 address of a blocked network and no other text with the
    prefix of a private IPv4 range. *)
Theorem validate_callback_url_spec url_parse var raw env :
  validate_callback_url url_parse var raw env = Ok () ↔
  match allowed_prefixes var with
  | [] =>
      ∃ scheme host, url_parse raw = Ok (scheme, host) ∧
        (scheme = "https"%string ∨ scheme = "http"%string ∧ env = Development) ∧
        (bracketed (default ""%string host) ∨ public_host (default ""%string host))
  | ps => ∃ p, p ∈ ps ∧ starts_with p raw = true
  end.
Proof.
  unfold validate_callback_url. destruct (allowed_prefixes var) as [|p ps] eqn:Ep.
  - rewrite bool_decide_true by done. simpl negb. cbv iota.
    destruct (url_parse raw) as [[scheme host]|e]; [|naive_solver].
    pose proof (is_ssrf_host_false (default ""%string host)) as Hssrf.
    destruct (String.eqb_spec scheme "https") as [->|Hs]; simpl.
    { destruct (is_ssrf_host _); naive_solver. }
    destruct (String.eqb_spec scheme "http") as [->|Hs']; simpl; [|naive_solver].
    destruct env; simpl; [destruct (is_ssrf_host _); naive_solver|naive_solver..].
  - rewrite bool_decide_false by done. simpl negb. cbv iota.
    destruct (existsb _ _) eqn:Ex.
    + split; [intros _|done]. apply existsb_exists in Ex as (q & Hin & Hq). exists q. by rewrite list_elem_of_In.
    + split; [done|]. intros (q & Hin & Hq). exfalso. apply not_true_iff_false in Ex. apply Ex.
      apply existsb_exists. exists q. by rewrite <- list_elem_of_In.
Qed.

(** An https URL whose host is a bracketed IPv6 literal, the form [host_str]
    gives every IPv6 address, is accepted whatever the address: the brackets
    keep it from being parsed, so loopback and private addresses pass. *)
Theorem ipv6_literal_accepted url_parse raw inner env :
  url_parse raw = Ok ("https", Some ("[" +:+ inner +:+ "]"))%string →
  validate_callback_url url_parse None raw env = Ok ().
Proof.
  intros E. unfold validate_callback_url. rewrite bool_decide_true by reflexivity. simpl negb. cbv iota.
  rewrite E. simpl result_bind. change (default ""%string (Some ?x)) with x. by rewrite bracketed_not_ssrf.
Qed.

Lemma ipv6_literal_accepted_witness :
  validate_callback_url (λ raw, Ok ("https", Some "[::1]"))%string None "https://[::1]/hook" Production = Ok () ∧
  is_private_ip (V6 [0; 0; 0; 0; 0; 0; 0; 1]) = true.
Proof. split; [by apply (ipv6_literal_accepted _ _ "::1")|reflexivity]. Defined.

End CallbackUrl.
