(* ===== verification/Subscriptions.v ===== *)
(** subscriptions.rs: the subscription handlers, the delivery queue and its
    worker, pause and resume, and e-mail notifications, with the statements by
    which other components (indexer.rs, pruner.rs, archiver.rs, gdpr.rs,
    batch_operations.rs, push_notification.rs) change the same tables.

    PostgreSQL tables are lists in insertion order; a query without a total
    [ORDER BY] may see the rows in any order ([row_order]), as the loop over a
    HashMap may ([hash_order]).  HTTP, SMTP, the url crate and idempotency.rs'
    store are parameters. *)

From S2P Require Import Prelude Text F64 Model Pg CallbackUrl EventStore.

Module Subscriptions.

Import CallbackUrl.

(** ** Tables *)

(** A row of [subscriptions]; times are in microseconds. *)
Record Subscription : Type := mkSub {
  s_id : Z;
  callback_url : string;
  from_ledger : Z;
  acked_ledger : Z;
  s_status : string;
  s_created_at : Z;
  subscription_type : string;
  batch_size : Z;
  batch_timeout_ms : Z;
  pause_until : option Z;
  pause_reason : option string;
  paused_at : option Z;
  email_address : option string;
  email_enabled : bool;
}.

(** A row of [delivery_queue]. *)
Record Item : Type := mkItem {
  q_id : Z;
  q_sub : Z;
  q_event : Z;
  q_ledger : Z;
  q_status : string;
  attempts : Z;
  next_attempt_at : Z;
  last_error : option string;
}.

(** A row of [subscription_pause_resume_log]. *)
Record PauseLog : Type := mkPauseLog {
  l_sub : Z;
  l_action : string;
  l_reason : option string;
  l_until : option Z;
  l_at : Z;
}.

(** A row of [email_delivery_log]. *)
Record EmailLog : Type := mkEmailLog {
  e_sub : option Z;
  e_address : string;
  e_subject : string;
  e_status : string;
  e_error : option string;
  e_sent_at : option Z;
}.

Record Db : Type := mkDb {
  subs : list Subscription;
  queue : list Item;
  events : list EventStore.EventRow;
  pause_log : list PauseLog;
  email_send_counters : gmap (string * Z) Z;
  email_log : list EmailLog;
}.

Definition with_subs (l : list Subscription) (d : Db) : Db :=
  mkDb l (queue d) (events d) (pause_log d) (email_send_counters d) (email_log d).
Definition with_queue (l : list Item) (d : Db) : Db :=
  mkDb (subs d) l (events d) (pause_log d) (email_send_counters d) (email_log d).
Definition with_events (l : list EventStore.EventRow) (d : Db) : Db :=
  mkDb (subs d) (queue d) l (pause_log d) (email_send_counters d) (email_log d).
Definition with_pause_log (l : list PauseLog) (d : Db) : Db :=
  mkDb (subs d) (queue d) (events d) l (email_send_counters d) (email_log d).
Definition with_counters (m : gmap (string * Z) Z) (d : Db) : Db :=
  mkDb (subs d) (queue d) (events d) (pause_log d) m (email_log d).
Definition with_email_log (l : list EmailLog) (d : Db) : Db :=
  mkDb (subs d) (queue d) (events d) (pause_log d) (email_send_counters d) l.

Definition set_status (st : string) (s : Subscription) : Subscription :=
  mkSub (s_id s) (callback_url s) (from_ledger s) (acked_ledger s) st (s_created_at s) (subscription_type s)
    (batch_size s) (batch_timeout_ms s) (pause_until s) (pause_reason s) (paused_at s) (email_address s)
    (email_enabled s).
Definition set_acked (l : Z) (s : Subscription) : Subscription :=
  mkSub (s_id s) (callback_url s) (from_ledger s) l (s_status s) (s_created_at s) (subscription_type s)
    (batch_size s) (batch_timeout_ms s) (pause_until s) (pause_reason s) (paused_at s) (email_address s)
    (email_enabled s).
Definition set_batch (t : string) (n ms : Z) (s : Subscription) : Subscription :=
  mkSub (s_id s) (callback_url s) (from_ledger s) (acked_ledger s) (s_status s) (s_created_at s) t
    n ms (pause_until s) (pause_reason s) (paused_at s) (email_address s) (email_enabled s).
Definition set_pause (u : option Z) (r : option string) (at_ : option Z) (s : Subscription) : Subscription :=
  mkSub (s_id s) (callback_url s) (from_ledger s) (acked_ledger s) (s_status s) (s_created_at s)
    (subscription_type s) (batch_size s) (batch_timeout_ms s) u r at_ (email_address s) (email_enabled s).
Definition set_email (a : option string) (b : bool) (s : Subscription) : Subscription :=
  mkSub (s_id s) (callback_url s) (from_ledger s) (acked_ledger s) (s_status s) (s_created_at s)
    (subscription_type s) (batch_size s) (batch_timeout_ms s) (pause_until s) (pause_reason s) (paused_at s) a b.

Definition set_item (st : string) (q : Item) : Item :=
  mkItem (q_id q) (q_sub q) (q_event q) (q_ledger q) st (attempts q) (next_attempt_at q) (last_error q).
Definition set_retry (n at_ : Z) (e : string) (q : Item) : Item :=
  mkItem (q_id q) (q_sub q) (q_event q) (q_ledger q) (q_status q) n at_ (Some e).

(** ** Requests and outside functions *)

Record CreateSubscriptionRequest : Type := mkCreate {
  r_callback_url : string;
  r_from_ledger : Z;
  r_subscription_type : option string;
  r_batch_size : option Z;
  r_batch_timeout_ms : option Z;
}.

(** A row of the delivery query. *)
Record Row : Type := mkRow {
  r_id : Z;
  r_event : Z;
  r_url : string;
  r_data : Value;
  r_ledger : Z;
  r_type : string;
  r_size : Z;
  r_timeout : Z;
}.

(** An HTTP request: body, and the time allowed in milliseconds. *)
Record Post : Type := mkPost { p_url : string; p_body : Value; p_timeout_ms : Z }.

Record Mail : Type := mkMail { m_to : string; m_subject : string; m_ledger : Z; m_data : Value }.

(** What leaves the process. *)
Inductive Ev : Type :=
| Posted (p : Post) (answer : result Z string)
| Mailed (m : Mail) (answer : result () string).

Record Env : Type := mkEnv {
  pg : PgEnv;
  (** The id of the [i]th row inserted by a statement. *)
  uuid : nat → nat → Z;
  uuid_text : Z → string;
  url_parse : string → result (string * option string) string;
  allowed_url_prefixes : option string;
  environment : Environment;
  subscription_default_batch_size : Z;
  subscription_default_batch_timeout_ms : Z;
  row_order : nat → list Item → list Item;
  hash_order : list (Z * list Row) → list (Z * list Row);
  http_post : nat → Post → result Z string;
  status_text : Z → string;
  smtp_send : nat → Mail → result () string;
  (** sqlx's decoding of the INT column [send_count] as an [i64]. *)
  decode_count : Z → result Z string;
  hash_request : CreateSubscriptionRequest → string;
  idem_lookup : nat → string → string → result (option (Z * Value)) AppError;
  idem_store : nat → string → string → Z → Subscription → result () AppError;
}.


Section Subscriptions.
Variable env : Env.

Local Abbreviation M := (Pg.M Db Ev).
Local Abbreviation stmt := (Pg.stmt (pg env)).
Local Abbreviation query := (Pg.query (pg env)).
Local Abbreviation execute := (Pg.execute (pg env)).
Local Abbreviation execute_count := (Pg.execute_count (pg env)).

(** ** SQL *)

Definition find_sub (id : Z) (d : Db) : option Subscription := List.find (λ s, s_id s =? id) (subs d).
Definition find_event (id : Z) (d : Db) : option EventStore.EventRow :=
  List.find (λ e, EventStore.row_id e =? id) (events d).

Definition is_active (s : Subscription) : bool := String.eqb (s_status s) "active".
Definition is_pending (q : Item) : bool := String.eqb (q_status q) "pending".

(** [UPDATE subscriptions SET .. WHERE ..], with the number of rows. *)
Definition update_subs (p : Subscription → bool) (f : Subscription → Subscription) (d : Db) : nat * Db :=
  (length (List.filter p (subs d)), with_subs (map (λ s, if p s then f s else s) (subs d)) d).

(** [UPDATE delivery_queue SET .. WHERE ..]. *)
Definition update_queue (p : Item → bool) (f : Item → Item) (d : Db) : Db :=
  with_queue (map (λ q, if p q then f q else q) (queue d)) d.

(** [INSERT INTO delivery_queue (subscription_id, event_id, ledger)]: one row
    per triple, refused when a foreign key has no row. *)
Definition queue_rows (n : nat) (t : Z) (l : list (Z * Z * Z)) : list Item :=
  imap (λ i '(sub, event, ledger), mkItem (uuid env n i) sub event ledger "pending" 0 t None) l.

Definition insert_items (n : nat) (l : Db → list (Z * Z * Z)) {E} `{FromSqlx E} : M E () :=
  stmt (λ t d,
    if forallb (λ '(sub, event, _), existsb (λ s, s_id s =? sub) (subs d) &&
                                    existsb (λ e, EventStore.row_id e =? event) (events d)) (l d)
    then Ok ((), with_queue (queue d ++ queue_rows n t (l d)) d)
    else Err "violates foreign key constraint"%string).

(** ** Handlers *)

Definition type_ok (t : string) : bool := String.eqb t "single" || String.eqb t "batch".

(** The response: a replayed one, or the subscription created. *)
Definition create_subscription (idem_key : option string) (body : CreateSubscriptionRequest) :
    M AppError (Z * (Value + Subscription)) :=
  let request_hash := hash_request env body in
  cached ← match idem_key with
           | Some key => oracle (λ n, idem_lookup env n key request_hash)
           | None => mret None
           end;
  match cached with
  | Some (code, response) =>
      mret (if (100 <=? code) && (code <=? 999) then code else 201, inl response)
  | None =>
      if is_empty (r_callback_url body) then throw (Validation "callback_url is required") else
      of_result (validate_callback_url (url_parse env) (allowed_url_prefixes env) (r_callback_url body)
                   (environment env)) ;;
      if r_from_ledger body <? 0 then throw (Validation "from_ledger must be non-negative") else
      let subscription_type := default "single"%string (r_subscription_type body) in
      if negb (type_ok subscription_type) then
        throw (Validation "subscription_type must be 'single' or 'batch'")
      else
      let batch_size := clamp 1 1000 (default (subscription_default_batch_size env) (r_batch_size body)) in
      let batch_timeout_ms :=
        clamp 100 60000 (default (subscription_default_batch_timeout_ms env) (r_batch_timeout_ms body)) in
      n ← counter;
      sub ← stmt (λ t d,
        let sub := mkSub (uuid env n 0) (r_callback_url body) (r_from_ledger body) 0 "active" t
                     subscription_type batch_size batch_timeout_ms None None None None false in
        Ok (sub, with_subs (subs d ++ [sub]) d));
      n ← counter;
      insert_items n (λ d,
        map (λ e, (s_id sub, EventStore.row_id e, EventStore.c_ledger (EventStore.row e)))
          (sort_by (cmp_on (λ e, EventStore.c_ledger (EventStore.row e)) Z.compare)
             (List.filter (λ e, r_from_ledger body <=? EventStore.c_ledger (EventStore.row e)) (events d)))) ;;
      match idem_key with
      | Some key => oracle (λ n, idem_store env n key request_hash 201 sub)
      | None => mret ()
      end ;;
      mret (201, inr sub)
  end.

Definition or_not_found {A} (o : option A) : M AppError A :=
  match o with Some x => mret x | None => throw NotFound end.

(** The subscription with the number of its pending deliveries. *)
Definition get_subscription (id : Z) : M AppError (Subscription * nat) :=
  r ← query (λ _, find_sub id);
  sub ← or_not_found r;
  pending ← query (λ _ d, length (List.filter (λ q, (q_sub q =? id) && is_pending q) (queue d)));
  mret (sub, pending).

Definition cancel_subscription (id : Z) : M AppError () :=
  rows ← execute_count (λ _, update_subs (λ s, (s_id s =? id) && is_active s) (set_status "cancelled"));
  if (rows =? 0)%nat then throw NotFound else mret ().

(** The response echoes the ledger of the request. *)
Definition ack_subscription (id ledger : Z) : M AppError Z :=
  rows ← execute_count (λ _,
    update_subs (λ s, (s_id s =? id) && is_active s && (acked_ledger s <? ledger)) (set_acked ledger));
  (if (rows =? 0)%nat then
     exists_ ← query (λ _ d, existsb (λ s, s_id s =? id) (subs d));
     if (exists_ : bool) then mret () else throw NotFound
   else mret ()) ;;
  execute (λ _, update_queue (λ q, (q_sub q =? id) && (q_ledger q <=? ledger) && is_pending q)
                  (set_item "delivered")) ;;
  mret ledger.

Definition get_subscription_batch_config (id : Z) : M AppError (string * Z * Z) :=
  r ← query (λ _ d, (λ s, (subscription_type s, batch_size s, batch_timeout_ms s)) <$> find_sub id d);
  or_not_found r.

(** The response echoes the clamped request. *)
Definition update_subscription_batch_config (id : Z) (type_ : option string) (size timeout : option Z) :
    M AppError (option string * option Z * option Z) :=
  if match type_ with Some st => negb (type_ok st) | None => false end then
    throw (Validation "subscription_type must be 'single' or 'batch'")
  else
  let size := clamp 1 1000 <$> size in
  let timeout := clamp 100 60000 <$> timeout in
  rows ← execute_count (λ _, update_subs (λ s, (s_id s =? id) && is_active s) (λ s,
    set_batch (default (subscription_type s) type_) (default (batch_size s) size)
      (default (batch_timeout_ms s) timeout) s));
  if (rows =? 0)%nat then throw NotFound else mret (type_, size, timeout).

(** ** The delivery queue *)

(** The join of [delivery_queue], [subscriptions] and [events], for one due item. *)
Definition deliverable (t : Z) (d : Db) (q : Item) : option Row :=
  if is_pending q && (next_attempt_at q <=? t) then
    let! s := find_sub (q_sub q) d in
    let! e := find_event (q_event q) d in
    if is_active s then
      Some (mkRow (q_id q) (q_event q) (callback_url s) (EventStore.c_event_data (EventStore.row e)) (q_ledger q)
              (subscription_type s) (batch_size s) (batch_timeout_ms s))
    else None
  else None.

Definition due_rows (n : nat) (t : Z) (d : Db) : list Row :=
  take 200 (sort_by (cmp_on r_ledger Z.compare) (omap (deliverable t d) (row_order env n (queue d)))).

(** [POST /v1/subscriptions/{id}/batch]: the pending events of a batch subscription. *)
Definition deliver_batch (id : Z) : M AppError (list (Z * Z * Value)) :=
  r ← query (λ _, find_sub id);
  sub ← or_not_found r;
  if negb (is_active sub) then throw (Validation "subscription is not active") else
  if negb (String.eqb (subscription_type sub) "batch") then
    throw (Validation "subscription is not configured for batch delivery")
  else
  n ← counter;
  rows ← query (λ t d,
    take (Z.to_nat (batch_size sub))
      (sort_by (cmp_on r_ledger Z.compare)
         (omap (λ q, if q_sub q =? id then deliverable t (with_subs [sub] d) q else None)
            (row_order env n (queue d)))));
  mret (map (λ r, (r_event r, r_ledger r, r_data r)) rows).

(** [enqueue_event]: a failure is only logged. *)
Definition enqueue_event (event_id ledger : Z) : M string () :=
  n ← counter;
  attempt (E := string) (insert_items n (λ d,
    map (λ s, (s_id s, event_id, ledger))
      (List.filter (λ s, is_active s && (from_ledger s <=? ledger)) (subs d)))) ;;
  mret ().

Definition second_us : Z := 1000000.

(** [LEAST(POWER(2, attempts + 1), 3600)]: double-precision [POWER] overflows at [2 ^ 1024]. *)
Definition backoff_secs (attempts : Z) : result Z string :=
  if 1024 <=? attempts + 1 then Err "value out of range: overflow"%string
  else Ok (Z.min (2 ^ (attempts + 1)) 3600).

Definition schedule_retry (queue_id : Z) (error : string) : M string () :=
  stmt (λ t d,
    if existsb (λ q, (q_id q =? queue_id) && negb (is_ok (backoff_secs (attempts q)))) (queue d)
    then Err "value out of range: overflow"%string
    else Ok ((), update_queue (λ q, q_id q =? queue_id)
                   (λ q, match backoff_secs (attempts q) with
                         | Ok b => set_retry (attempts q + 1) (t + b * second_us) error q
                         | Err _ => q
                         end) d)).

Definition mark_delivered (ids : list Z) : M string () :=
  execute (λ _, update_queue (λ q, bool_decide (q_id q ∈ ids)) (set_item "delivered")).

Definition json_i64 (z : Z) : Value := Number (if z <? 0 then NegInt z else PosInt z).

Definition event_json (r : Row) : Value :=
  Object [("event_data"%string, r_data r); ("event_id"%string, VString (uuid_text env (r_event r)));
          ("ledger"%string, json_i64 (r_ledger r))].

Definition single_post (r : Row) : Post := mkPost (r_url r) (event_json r) 10000.

Definition batch_post (url : string) (size timeout : Z) (rs : list Row) : Post :=
  mkPost url (Object [("batch_size"%string, json_i64 size); ("events"%string, Array (map event_json rs))])
    (wrap_u 64 timeout).

Definition is_success (status : Z) : bool := (200 <=? status) && (status <? 300).

Definition post (p : Post) : M string (result Z string) :=
  call (λ n, http_post env n p) (Posted p).

(** The failure text of an answer, [None] for a success. *)
Definition failure_of (answer : result Z string) : option string :=
  match answer with
  | Ok status => if is_success status then None else Some ("HTTP " +:+ status_text env status)%string
  | Err e => Some e
  end.

Fixpoint deliver_singles (rs : list Row) (total : nat) : M string nat :=
  match rs with
  | [] => mret total
  | r :: rest =>
      answer ← post (single_post r);
      match failure_of answer with
      | None => mark_delivered [r_id r] ;; deliver_singles rest (S total)
      | Some e => schedule_retry (r_id r) e ;; deliver_singles rest total
      end
  end.

Fixpoint retry_all (ids : list Z) (e : string) : M string () :=
  match ids with
  | [] => mret ()
  | id :: rest => schedule_retry id e ;; retry_all rest e
  end.

Fixpoint deliver_groups (gs : list (Z * list Row)) (total : nat) : M string nat :=
  match gs with
  | [] => mret total
  | (_, []) :: rest => deliver_groups rest total
  | (_, (r0 :: _) as items) :: rest =>
      let batch := take (Z.to_nat (wrap_u 64 (r_size r0))) items in
      answer ← post (batch_post (r_url r0) (r_size r0) (r_timeout r0) batch);
      match failure_of answer with
      | None => mark_delivered (map r_id batch) ;; deliver_groups rest (total + length batch)
      | Some e => retry_all (map r_id batch) e ;; deliver_groups rest total
      end
  end.

(** [batch_items.entry(queue_id).or_default().push(..)]. *)
Fixpoint push_group (r : Row) (gs : list (Z * list Row)) : list (Z * list Row) :=
  match gs with
  | [] => [(r_id r, [r])]
  | (k, items) :: rest => if k =? r_id r then (k, items ++ [r]) :: rest else (k, items) :: push_group r rest
  end.

Definition is_batch (r : Row) : bool := String.eqb (r_type r) "batch".

Definition deliver_pending : M string nat :=
  n ← counter;
  rows ← query (due_rows n);
  let single_items := List.filter (λ r, negb (is_batch r)) rows in
  let batch_items := foldl (λ gs r, push_group r gs) [] (List.filter is_batch rows) in
  total ← deliver_singles single_items 0;
  deliver_groups (hash_order env batch_items) total.

(** One turn of [run_delivery_worker]: an error is only logged. *)
Definition delivery_cycle : M string () := attempt (E := string) deliver_pending ;; mret ().

(** ** Pause and resume *)

Definition log_pause (id : Z) (action : string) (reason : option string) (until : option Z) : M AppError () :=
  attempt (E := string) (execute (λ t d,
    with_pause_log (pause_log d ++ [mkPauseLog id action reason until t]) d)) ;;
  mret ().

Definition pause_subscription (id : Z) (pause_seconds : option Z) (reason : option string) :
    M AppError (option Z) :=
  until ← match pause_seconds with
          | Some secs => now ← clock (pg env); mret (Some (now + secs * second_us))
          | None => mret None
          end;
  rows ← execute_count (λ t, update_subs (λ s, (s_id s =? id) && is_active s) (set_pause until reason (Some t)));
  if (rows =? 0)%nat then throw NotFound else
  log_pause id "paused" reason until ;;
  mret until.

Definition is_some {A} (o : option A) : bool := match o with Some _ => true | None => false end.

Definition clear_pause (s : Subscription) : Subscription := set_pause None None (paused_at s) s.

Definition resume_subscription (id : Z) (reason : option string) : M AppError (option string) :=
  rows ← execute_count (λ _, update_subs (λ s, (s_id s =? id) && is_some (pause_until s)) clear_pause);
  if (rows =? 0)%nat then throw NotFound else
  log_pause id "resumed" reason None ;;
  mret reason.

(** [is_paused], [pause_until], [pause_reason], [is_auto_resuming] and the latest log entries. *)
Definition get_pause_resume_status (id : Z) :
    M AppError (bool * option Z * option string * bool * list PauseLog) :=
  r ← query (λ _ d, (λ s, (pause_until s, pause_reason s)) <$> find_sub id d);
  p ← or_not_found r;
  history ← query (λ _ d,
    take 20 (sort_by (cmp_on (λ l, - l_at l) Z.compare) (List.filter (λ l, l_sub l =? id) (pause_log d))));
  now ← match p.1 with Some _ => clock (pg env) | None => mret 0 end;
  mret (is_some p.1, p.1, p.2, match p.1 with Some until => until <=? now | None => false end, history).

(** One turn of [run_auto_resume_worker]. *)
Definition auto_resume : M string () :=
  attempt (E := string) (execute_count (λ t,
    update_subs (λ s, match pause_until s with Some u => u <=? t | None => false end) clear_pause)) ;;
  mret ().

(** ** E-mail *)

Definition EMAIL_DAILY_LIMIT : Z := 100.
Definition current_date (t : Z) : Z := t / (86400 * second_us).

Definition check_and_increment_email_rate_limit (email : string) : M string bool :=
  count ← stmt (λ t d,
    let key := (email, current_date t) in
    match email_send_counters d !! key with
    | None => Ok (1, with_counters (<[key := 1]> (email_send_counters d)) d)
    | Some c =>
        if 2 ^ 31 <=? c + 1 then Err "integer out of range"%string
        else Ok (c + 1, with_counters (<[key := c + 1]> (email_send_counters d)) d)
    end);
  count ← of_result (decode_count env count);
  mret (count <=? EMAIL_DAILY_LIMIT).

(** Address, enabled, daily limit and the number sent today. *)
Definition get_subscription_email (id : Z) : M AppError (option string * bool * Z * Z) :=
  r ← query (λ _ d, (λ s, (email_address s, email_enabled s)) <$> find_sub id d);
  p ← or_not_found r;
  daily_sent ← match p.1 with
               | Some addr =>
                   c ← query (λ t d, email_send_counters d !! (addr, current_date t));
                   match c with
                   | Some c => c ← of_result (result_map_err Database (decode_count env c)); mret (Some c)
                   | None => mret None
                   end
               | None => mret None
               end;
  mret (p.1, p.2, EMAIL_DAILY_LIMIT, default 0 daily_sent).

Definition update_subscription_email (id : Z) (address : option string) (enabled : bool) : M AppError () :=
  of_result
    (if enabled then
       match address with
       | None => Err (Validation "email_address is required when enabling email notifications")
       | Some addr =>
           if is_empty addr || negb (contains "@" addr) then Err (Validation "invalid email_address") else Ok ()
       end
     else Ok ()) ;;
  rows ← execute_count (λ _, update_subs (λ s, (s_id s =? id) && is_active s) (set_email address enabled));
  if (rows =? 0)%nat then throw NotFound else mret ().

(** The rows of the worker: for each subscription, in id order, its first due item. *)
Definition email_rows (n : nat) (t : Z) (d : Db) : list (Z * string * Row) :=
  take 100 (omap (λ s,
    match email_address s with
    | Some addr =>
        if email_enabled s && is_active s then
          (λ r, (s_id s, addr, r)) <$>
            head (sort_by (cmp_on r_ledger Z.compare)
              (omap (λ q, if q_sub q =? s_id s then deliverable t d q else None) (row_order env n (queue d))))
        else None
    | None => None
    end) (sort_by (cmp_on s_id Z.compare) (subs d))).

Definition mail_subject (r : Row) : string := ("Soroban event at ledger " +:+ show_i (r_ledger r))%string.

Definition log_email (l : Z → EmailLog) : M string () :=
  attempt (E := string) (execute (λ t d, with_email_log (email_log d ++ [l t]) d)) ;; mret ().

(** One row of the loop. *)
Definition email_row (x : Z * string * Row) : M string () :=
  let '(sub_id, addr, r) := x in
  allowed ← attempt (E := string) (check_and_increment_email_rate_limit addr);
  match allowed with
  | Ok true =>
      let mail := mkMail addr (mail_subject r) (r_ledger r) (r_data r) in
      answer ← call (λ n, smtp_send env n mail) (Mailed mail);
      match answer with
      | Ok _ =>
          log_email (λ t, mkEmailLog (Some sub_id) addr (mail_subject r) "sent" None (Some t)) ;;
          attempt (E := string) (execute (λ _,
            update_queue (λ q, (q_sub q =? sub_id) && (q_event q =? r_event r)) (set_item "delivered"))) ;;
          mret ()
      | Err e => log_email (λ _, mkEmailLog (Some sub_id) addr (mail_subject r) "failed" (Some e) None)
      end
  | Ok false => log_email (λ _, mkEmailLog (Some sub_id) addr "Event notification" "rate_limited" None None)
  | Err _ => mret ()
  end.

Fixpoint email_loop (l : list (Z * string * Row)) : M string () :=
  match l with
  | [] => mret ()
  | x :: rest => email_row x ;; email_loop rest
  end.

(** One turn of [run_email_delivery_worker]. *)
Definition email_cycle : M string () :=
  n ← counter;
  rows ← attempt (E := string) (query (email_rows n));
  match rows with Ok rows => email_loop rows | Err _ => mret () end.

(** ** What other components do to these tables *)

(** The indexer stores events. *)
Definition store_events (rows : list EventStore.EventRow) : M string () :=
  execute (λ _ d, with_events (events d ++ rows) d).

(** An update of events, such as the anonymisation of a contract's. *)
Definition change_events (p : EventStore.EventRow → bool)
    (f : EventStore.EventColumns → EventStore.EventColumns) : M string () :=
  execute (λ _ d,
    with_events (map (λ e,
      if p e then EventStore.mkRow (EventStore.row_id e) (EventStore.row_created_at e) (f (EventStore.row e)) else e)
      (events d)) d).

(** A [DELETE FROM events], with the ids of the rows it selects.  The foreign
    key of [delivery_queue] is [ON DELETE CASCADE]. *)
Definition delete_events (ids : list Z) : M string () :=
  execute (λ _ d,
    with_queue (List.filter (λ q, negb (bool_decide (q_event q ∈ ids))) (queue d))
      (with_events (List.filter (λ e, negb (bool_decide (EventStore.row_id e ∈ ids))) (events d)) d)).

(** A [DELETE FROM subscriptions] (gdpr.rs selects by a column [email], which no
    migration creates, so that its statement fails): deliveries and pauses go with the
    subscription, the entries of the e-mail log lose it. *)
Definition delete_subscriptions (ids : list Z) : M string () :=
  execute (λ _ d,
    mkDb (List.filter (λ s, negb (bool_decide (s_id s ∈ ids))) (subs d))
      (List.filter (λ q, negb (bool_decide (q_sub q ∈ ids))) (queue d))
      (events d)
      (List.filter (λ l, negb (bool_decide (l_sub l ∈ ids))) (pause_log d))
      (email_send_counters d)
      (map (λ e, if match e_sub e with Some id => bool_decide (id ∈ ids) | None => false end
                 then mkEmailLog None (e_address e) (e_subject e) (e_status e) (e_error e) (e_sent_at e)
                 else e) (email_log d))).

(** The push worker, after a notification was sent. *)
Definition settle_pushed (sub_id event_id : Z) : M string () :=
  execute (λ _, update_queue (λ q, (q_sub q =? sub_id) && (q_event q =? event_id)) (set_item "delivered")).

(** ** The component as a whole *)

(** What may run: a handler, a call of the indexer, a turn of a worker, or a
    statement of another component on these tables. *)
Inductive Op : Type :=
| Create (idem_key : option string) (body : CreateSubscriptionRequest)
| Get (id : Z)
| Cancel (id : Z)
| Ack (id ledger : Z)
| GetBatch (id : Z)
| UpdateBatch (id : Z) (type_ : option string) (size timeout : option Z)
| DeliverBatch (id : Z)
| Enqueue (event_id ledger : Z)
| Deliver
| Pause (id : Z) (secs : option Z) (reason : option string)
| Resume (id : Z) (reason : option string)
| PauseStatus (id : Z)
| AutoResume
| GetEmail (id : Z)
| UpdateEmail (id : Z) (address : option string) (enabled : bool)
| EmailCycle
| StoreEvents (rows : list EventStore.EventRow)
| ChangeEvents (p : EventStore.EventRow → bool) (f : EventStore.EventColumns → EventStore.EventColumns)
| DeleteEvents (ids : list Z)
| DeleteSubscriptions (ids : list Z)
| SettlePushed (sub_id event_id : Z).

Definition run_op (o : Op) (s : Pg.St Db Ev) : Pg.St Db Ev :=
  match o with
  | Create k b => (create_subscription k b s).2
  | Get id => (get_subscription id s).2
  | Cancel id => (cancel_subscription id s).2
  | Ack id l => (ack_subscription id l s).2
  | GetBatch id => (get_subscription_batch_config id s).2
  | UpdateBatch id ty sz tm => (update_subscription_batch_config id ty sz tm s).2
  | DeliverBatch id => (deliver_batch id s).2
  | Enqueue e l => (enqueue_event e l s).2
  | Deliver => (delivery_cycle s).2
  | Pause id secs r => (pause_subscription id secs r s).2
  | Resume id r => (resume_subscription id r s).2
  | PauseStatus id => (get_pause_resume_status id s).2
  | AutoResume => (auto_resume s).2
  | GetEmail id => (get_subscription_email id s).2
  | UpdateEmail id a b => (update_subscription_email id a b s).2
  | EmailCycle => (email_cycle s).2
  | StoreEvents rows => (store_events rows s).2
  | ChangeEvents p f => (change_events p f s).2
  | DeleteEvents ids => (delete_events ids s).2
  | DeleteSubscriptions ids => (delete_subscriptions ids s).2
  | SettlePushed sub_id event_id => (settle_pushed sub_id event_id s).2
  end.

Definition run_ops (os : list Op) (s : Pg.St Db Ev) : Pg.St Db Ev := foldl (λ s o, run_op o s) s os.

(** ** What every operation keeps *)

Definition sub_le (a b : Subscription) : Prop :=
  s_id b = s_id a ∧ callback_url b = callback_url a ∧ from_ledger b = from_ledger a ∧
  acked_ledger a ≤ acked_ledger b ∧
  (s_status b = s_status a ∨ s_status b = "cancelled"%string) ∧
  (is_active a = false → acked_ledger b = acked_ledger a ∧ s_status b = s_status a).

Definition item_le (a b : Item) : Prop :=
  q_id b = q_id a ∧ q_sub b = q_sub a ∧ q_event b = q_event a ∧ q_ledger b = q_ledger a ∧
  attempts a ≤ attempts b ∧
  (q_status b = q_status a ∨ q_status b = "delivered"%string).

(** The rows of a table later on, in their order: each is related to its
    successor by [R] or is one of those gone; new ones come after them. *)
Inductive rows_le {A} (gone : A → Prop) (R : relation A) : relation (list A) :=
| rows_new l' : rows_le gone R [] l'
| rows_kept x y l l' : R x y → rows_le gone R l l' → rows_le gone R (x :: l) (y :: l')
| rows_gone x l l' : gone x → rows_le gone R l l' → rows_le gone R (x :: l) l'.

Definition wf_sub (s : Subscription) : Prop :=
  type_ok (subscription_type s) = true ∧ 1 ≤ batch_size s ≤ 1000 ∧ 100 ≤ batch_timeout_ms s ≤ 60000 ∧
  0 ≤ from_ledger s ∧ (s_status s = "active" ∨ s_status s = "cancelled")%string.

Definition wf_item (q : Item) : Prop :=
  (q_status q = "pending" ∨ q_status q = "delivered")%string ∧ 0 ≤ attempts q ≤ 1023.

Definition wf (d : Db) : Prop :=
  Forall wf_sub (subs d) ∧
  Forall (λ q, wf_item q ∧ ∃ s, s ∈ subs d ∧ s_id s = q_sub q) (queue d).

(** The other foreign key of the queue. *)
Definition events_stored (d : Db) : Prop :=
  Forall (λ q, ∃ e, e ∈ events d ∧ EventStore.row_id e = q_event q) (queue d).

(** The rows that some of the operations delete, their deliveries included. *)
Definition deleted_subs (o : Op) : list Z := match o with DeleteSubscriptions ids => ids | _ => [] end.
Definition deleted_events (o : Op) : list Z := match o with DeleteEvents ids => ids | _ => [] end.

Definition sub_gone (gs : list Z) (s : Subscription) : Prop := s_id s ∈ gs.
Definition item_gone (gs ge : list Z) (q : Item) : Prop := q_sub q ∈ gs ∨ q_event q ∈ ge.

(** Subscriptions of the ids [subs_out] and events of the ids [events_out] may be deleted. *)
Variables subs_out events_out : list Z.

Definition lifecycle : relation (Db * list Ev) := λ x y,
  rows_le (sub_gone subs_out) sub_le (subs x.1) (subs y.1) ∧
  rows_le (item_gone subs_out events_out) item_le (queue x.1) (queue y.1) ∧
  x.2 `prefix_of` y.2 ∧
  (wf x.1 → wf y.1) ∧
  (events_stored x.1 → events_stored y.1).

#[local] Instance rows_le_refl {A} (gone : A → Prop) (R : relation A) `{!Reflexive R} : Reflexive (rows_le gone R).
Proof. intros l. induction l as [|x l IH]; [apply rows_new|by apply rows_kept]. Qed.

Lemma rows_le_trans {A} (gone : A → Prop) (R : relation A) `{!Transitive R} :
  (∀ x y, R x y → gone y → gone x) → Transitive (rows_le gone R).
Proof.
  intros Hg l1 l2 l3 H12. revert l3. induction H12 as [l'|x y l l' Hxy H IH|x l l' Hx H IH]; intros l3 H23.
  - apply rows_new.
  - inversion H23; subst; [apply rows_kept; [by etrans|auto]|apply rows_gone; eauto].
  - apply rows_gone; auto.
Qed.

#[local] Instance sub_le_preorder : PreOrder sub_le.
Proof.
  split.
  - intros a. unfold sub_le. split_and!; auto; lia.
  - intros a b c (?&?&?&?&Hs&Hf) (?&?&?&?&Hs'&Hf'). unfold sub_le. split_and!; try congruence; [lia| |].
    + destruct Hs as [Hs|Hs], Hs' as [Hs'|Hs']; rewrite ?Hs', ?Hs; auto.
    + intros Ha. destruct (Hf Ha) as [E1 E2]. destruct Hf' as [E3 E4]; [|by rewrite E3, E4].
      unfold is_active in *. by rewrite E2.
Qed.

#[local] Instance item_le_preorder : PreOrder item_le.
Proof.
  split.
  - intros a. unfold item_le. split_and!; auto; lia.
  - intros a b c (?&?&?&?&?&Hs) (?&?&?&?&?&Hs'). unfold item_le. split_and!; try congruence; [lia|].
    destruct Hs as [Hs|Hs], Hs' as [Hs'|Hs']; rewrite ?Hs', ?Hs; auto.
Qed.

#[local] Instance sub_rows_trans : Transitive (rows_le (sub_gone subs_out) sub_le).
Proof. apply rows_le_trans; [apply _|]. intros x y (E & _). unfold sub_gone. by rewrite E. Qed.

#[local] Instance item_rows_trans : Transitive (rows_le (item_gone subs_out events_out) item_le).
Proof. apply rows_le_trans; [apply _|]. intros x y (_ & E1 & E2 & _). unfold item_gone. by rewrite E1, E2. Qed.

#[local] Instance lifecycle_preorder : PreOrder lifecycle.
Proof.
  split.
  - intros [d tr]. unfold lifecycle. simpl. split_and!; try reflexivity; done.
  - intros [d1 t1] [d2 t2] [d3 t3] (?&?&?&?&?) (?&?&?&?&?). unfold lifecycle in *. simpl in *.
    split_and!; [by etrans..|auto|auto].
Qed.

Lemma rows_le_map {A} gone (R : relation A) `{!PreOrder R} (p : A → bool) (f : A → A) l :
  (∀ x, p x = true → R x (f x)) → rows_le gone R l (map (λ x, if p x then f x else x) l).
Proof.
  intros Hf. induction l as [|x l IH]; [apply rows_new|]. simpl. apply rows_kept; [|done].
  destruct (p x) eqn:E; [auto|reflexivity].
Qed.

Lemma rows_le_app {A} gone (R : relation A) `{!PreOrder R} l k : rows_le gone R l (l ++ k).
Proof. induction l as [|x l IH]; [apply rows_new|]. by apply rows_kept. Qed.

Lemma rows_le_filter {A} (gone : A → Prop) (R : relation A) `{!PreOrder R} (p : A → bool) l :
  (∀ x, p x = false → gone x) → rows_le gone R l (List.filter p l).
Proof.
  intros Hp. induction l as [|x l IH]; [apply rows_new|]. simpl.
  destruct (p x) eqn:E; [by apply rows_kept|by apply rows_gone; auto].
Qed.

(** An event that stays keeps its deliveries. *)
Lemma events_stored_incl q' (es : list EventStore.EventRow) d :
  (∀ e q, e ∈ events d → q ∈ q' → EventStore.row_id e = q_event q → ∃ e', e' ∈ es ∧ EventStore.row_id e' = q_event q) →
  (∀ q, q ∈ q' → q ∈ queue d) →
  events_stored d → Forall (λ q, ∃ e, e ∈ es ∧ EventStore.row_id e = q_event q) q'.
Proof.
  unfold events_stored. rewrite !Forall_forall. intros He Hq H q Hin.
  destruct (H q (Hq q Hin)) as (e & Hine & Hid). eauto.
Qed.

(** Statements that leave subscriptions and queue alone. *)
Lemma lifecycle_same d d' tr :
  subs d' = subs d → queue d' = queue d → events d' = events d → lifecycle (d, tr) (d', tr).
Proof.
  intros E1 E2 E3. unfold lifecycle, wf, events_stored. simpl. rewrite E1, E2, E3. split_and!; done || reflexivity.
Qed.

Lemma lifecycle_update_subs p f d tr :
  (∀ s, p s = true → sub_le s (f s) ∧ (wf_sub s → wf_sub (f s))) →
  lifecycle (d, tr) ((update_subs p f d).2, tr).
Proof.
  intros Hf. unfold lifecycle. simpl. split_and!; [|reflexivity..| |done].
  - apply rows_le_map; [apply _|]. intros x Hx. by apply Hf.
  - intros [H1 H2]. split; simpl.
    + apply Forall_fmap. eapply Forall_impl; [exact H1|]. intros x Hx. simpl.
      destruct (p x) eqn:E; [|done]. by apply Hf.
    + eapply Forall_impl; [exact H2|]. intros q (Hq & s & Hs & Es). split; [done|].
      exists (if p s then f s else s). split; [by apply (list_elem_of_fmap_2 (λ s, if p s then f s else s))|].
      destruct (p s) eqn:E; [|done]. destruct (Hf s E) as [(Hid & _) _]. by rewrite Hid.
Qed.

Lemma lifecycle_update_queue p f d tr :
  (∀ q, p q = true → item_le q (f q) ∧ (wf_item q → wf_item (f q))) →
  lifecycle (d, tr) (update_queue p f d, tr).
Proof.
  intros Hf. unfold lifecycle. simpl. split_and!; [reflexivity| |reflexivity| |].
  - apply rows_le_map; [apply _|]. intros x Hx. by apply Hf.
  - intros [H1 H2]. split; [done|]. simpl. apply Forall_fmap. eapply Forall_impl; [exact H2|].
    intros q [Hq Hs]. simpl. destruct (p q) eqn:E; [|done]. destruct (Hf q E) as [(_ & Hsub & _) Hw].
    rewrite Hsub. auto.
  - intros H. unfold events_stored. simpl. apply Forall_fmap. eapply Forall_impl; [exact H|].
    intros q Hq. simpl. destruct (p q) eqn:E; [|done]. destruct (Hf q E) as [(_ & _ & He & _) _]. by rewrite He.
Qed.

Lemma lifecycle_insert_items {E} `{FromSqlx E} n l : preserves lifecycle (insert_items (E := E) n l).
Proof.
  apply preserves_stmt; [apply _|]. intros t d x d' tr. destruct (forallb _ _) eqn:Ef; [|done].
  intros [= _ <-]. assert (Forall (λ q, (wf_item q ∧ ∃ s, s ∈ subs d ∧ s_id s = q_sub q) ∧
    ∃ e, e ∈ events d ∧ EventStore.row_id e = q_event q) (queue_rows n t (l d))) as Hnew.
  { apply Forall_lookup_2. intros i q Hq. unfold queue_rows in Hq. rewrite list_lookup_imap in Hq.
    destruct (l d !! i) as [[[sub event] ledger]|] eqn:El; [|done]. injection Hq as <-. simpl.
    rewrite forallb_forall in Ef. apply list_elem_of_lookup_2, list_elem_of_In in El. apply Ef in El.
    apply andb_true_iff in El as [Hs He].
    apply existsb_exists in Hs as (s & Hin & Hs). apply existsb_exists in He as (e & Hine & He).
    split; [split; [split; [by left|simpl; lia]|]|].
    - exists s. rewrite list_elem_of_In. split; [done|lia].
    - exists e. rewrite list_elem_of_In. split; [done|lia]. }
  apply Forall_and in Hnew as [Hn1 Hn2].
  unfold lifecycle. simpl. split_and!; [reflexivity|by apply rows_le_app, _|reflexivity| |].
  - intros [H1 H2]. split; [done|]. simpl. by apply Forall_app_2.
  - intros Hev. by apply Forall_app_2.
Qed.

Lemma lifecycle_call {A} (answer : nat → A) log : preserves lifecycle (call answer log : M string A).
Proof.
  apply preserves_call. intros a d tr. unfold lifecycle. simpl.
  split_and!; [reflexivity..|by eexists|done|done].
Qed.

#[local] Hint Resolve lifecycle_insert_items lifecycle_call lifecycle_preorder : pg.

Lemma is_active_eq s : is_active s = true → s_status s = "active"%string.
Proof. apply String.eqb_eq. Qed.

(** An update of columns other than [acked_ledger] and [status]. *)
Lemma sub_le_refl_fields s s' :
  s_id s' = s_id s → callback_url s' = callback_url s → from_ledger s' = from_ledger s →
  acked_ledger s' = acked_ledger s → s_status s' = s_status s → sub_le s s'.
Proof. intros E1 E2 E3 E4 E5. unfold sub_le. rewrite E4, E5. split_and!; auto; lia. Qed.

Lemma lifecycle_delivered p d tr :
  lifecycle (d, tr) (update_queue p (set_item "delivered") d, tr).
Proof.
  apply lifecycle_update_queue. intros q _. split.
  - unfold item_le. simpl. split_and!; auto; lia.
  - intros [_ Ha]. split; [by right|done].
Qed.

Lemma lifecycle_schedule_retry id e : preserves lifecycle (schedule_retry id e).
Proof.
  apply preserves_stmt; [apply _|]. intros t d x d' tr. destruct (existsb _ _) eqn:Ee; [done|].
  intros [= _ <-]. apply lifecycle_update_queue. intros q Hq. unfold backoff_secs.
  destruct (Z.leb_spec 1024 (attempts q + 1)); split; try reflexivity; [done| |].
  - unfold item_le. simpl. split_and!; auto; lia.
  - intros [Hs Ha]. split; [done|simpl; lia].
Qed.

Lemma lifecycle_mark ids : preserves lifecycle (mark_delivered ids).
Proof. apply preserves_execute; [apply _|]. intros t d tr. apply lifecycle_delivered. Qed.

#[local] Hint Resolve lifecycle_delivered lifecycle_schedule_retry lifecycle_mark : pg.

Lemma lifecycle_retry_all ids e : preserves lifecycle (retry_all ids e).
Proof. induction ids as [|id ids IH]; simpl; preserve. Qed.

Lemma lifecycle_singles rs n : preserves lifecycle (deliver_singles rs n).
Proof. revert n. induction rs as [|r rs IH]; intros n; simpl; unfold post; preserve. Qed.

Lemma lifecycle_groups gs n : preserves lifecycle (deliver_groups gs n).
Proof.
  revert n. induction gs as [|[k [|r rs]] gs IH]; intros n; simpl; unfold post; auto with pg.
  preserve; auto using lifecycle_retry_all.
Qed.

Lemma lifecycle_deliver : preserves lifecycle deliver_pending.
Proof. unfold deliver_pending. preserve; auto using lifecycle_singles, lifecycle_groups. Qed.

(** Closes what [preserve] leaves of an update of [subscriptions]. *)
Ltac sub_update :=
  apply preserves_execute_count; [apply _|]; intros ? ? ?; apply lifecycle_update_subs; intros ? ?.

Lemma lifecycle_create k b : preserves lifecycle (create_subscription k b).
Proof.
  unfold create_subscription. preserve.
  apply preserves_stmt; [apply _|]. intros t d ? d' tr [= <- <-]. unfold lifecycle. simpl.
  split_and!; [by apply rows_le_app, _|reflexivity..| |done].
  intros [H1 H2]. split; simpl.
  - apply Forall_app_2; [done|]. apply Forall_singleton. unfold wf_sub. simpl.
    split_and!; [by apply negb_false_iff|apply clamp_range; lia..|lia|by left].
  - eapply Forall_impl; [exact H2|]. intros q (Hq & s & Hs & Es). split; [done|].
    exists s. by rewrite elem_of_app; auto.
Qed.

Lemma lifecycle_cancel id : preserves lifecycle (cancel_subscription id).
Proof.
  unfold cancel_subscription. preserve. sub_update.
  apply andb_true_iff in H as [_ Ha]. split; [|intros (?&?&?&?&?); unfold wf_sub; simpl; tauto].
  unfold sub_le. simpl. split_and!; auto; [lia|]. by rewrite Ha.
Qed.

Lemma lifecycle_ack id l : preserves lifecycle (ack_subscription id l).
Proof.
  unfold ack_subscription. preserve.
  - sub_update. apply andb_true_iff in H as [[_ Ha]%andb_true_iff Hl].
    split; [|done].
    unfold sub_le. simpl. split_and!; auto; [lia|]. by rewrite Ha.
  - apply preserves_execute; [apply _|]. intros. apply lifecycle_delivered.
Qed.

Lemma lifecycle_update_batch id ty sz tm :
  preserves lifecycle (update_subscription_batch_config id ty sz tm).
Proof.
  unfold update_subscription_batch_config. preserve. sub_update.
  split; [by apply sub_le_refl_fields|].
  intros (H1&H2&H3&H4&H5). unfold wf_sub. simpl. refine (conj _ (conj _ (conj _ (conj H4 H5)))).
  - destruct ty as [y|]; [by apply negb_false_iff|done].
  - destruct sz; simpl; [apply clamp_range; lia|done].
  - destruct tm; simpl; [apply clamp_range; lia|done].
Qed.

Lemma lifecycle_log_pause id a r u : preserves lifecycle (log_pause id a r u).
Proof.
  unfold log_pause. preserve. apply preserves_execute; [apply _|]. intros. by apply lifecycle_same.
Qed.

Lemma lifecycle_clear_pause (s : Subscription) :
  sub_le s (clear_pause s) ∧ (wf_sub s → wf_sub (clear_pause s)).
Proof. split; [by apply sub_le_refl_fields|done]. Qed.

#[local] Hint Resolve lifecycle_log_pause lifecycle_clear_pause : pg.

Lemma lifecycle_pause id secs r : preserves lifecycle (pause_subscription id secs r).
Proof.
  unfold pause_subscription. preserve; apply preserves_execute_count; try apply _; intros t d tr;
    apply lifecycle_update_subs; intros s _; (split; [by apply sub_le_refl_fields|done]).
Qed.

Lemma lifecycle_resume id r : preserves lifecycle (resume_subscription id r).
Proof. unfold resume_subscription. preserve. sub_update. apply lifecycle_clear_pause. Qed.

Lemma lifecycle_auto_resume : preserves lifecycle auto_resume.
Proof. unfold auto_resume. preserve. sub_update. apply lifecycle_clear_pause. Qed.

Lemma lifecycle_update_email id a b : preserves lifecycle (update_subscription_email id a b).
Proof.
  unfold update_subscription_email. preserve. sub_update. split; [by apply sub_le_refl_fields|done].
Qed.

Lemma lifecycle_check_email a : preserves lifecycle (check_and_increment_email_rate_limit a).
Proof.
  unfold check_and_increment_email_rate_limit. preserve. apply preserves_stmt; [apply _|].
  intros t d x d' tr. repeat case_match; intros ?; simplify_eq; by apply lifecycle_same.
Qed.

Lemma lifecycle_log_email l : preserves lifecycle (log_email l).
Proof.
  unfold log_email. preserve. apply preserves_execute; [apply _|]. intros. by apply lifecycle_same.
Qed.

#[local] Hint Resolve lifecycle_check_email lifecycle_log_email : pg.

Lemma lifecycle_email_loop l : preserves lifecycle (email_loop l).
Proof.
  induction l as [|[[id addr] r] l IH]; simpl; preserve.
  apply preserves_execute; [apply _|]. intros. apply lifecycle_delivered.
Qed.

Lemma lifecycle_email_cycle : preserves lifecycle email_cycle.
Proof. unfold email_cycle. preserve; auto using lifecycle_email_loop. Qed.

#[local] Hint Resolve lifecycle_create lifecycle_cancel lifecycle_ack lifecycle_update_batch lifecycle_pause
  lifecycle_resume lifecycle_auto_resume lifecycle_update_email lifecycle_email_cycle lifecycle_deliver : pg.

(** *** The statements of other components *)

Lemma lifecycle_events (f : list EventStore.EventRow → list EventStore.EventRow) d tr :
  (∀ es e, e ∈ es → ∃ e', e' ∈ f es ∧ EventStore.row_id e' = EventStore.row_id e) →
  lifecycle (d, tr) (with_events (f (events d)) d, tr).
Proof.
  intros Hf. unfold lifecycle. simpl. split_and!; [reflexivity..|done|].
  apply events_stored_incl; [|done]. intros e q He _ <-. by apply Hf.
Qed.

Lemma lifecycle_store_events rows : preserves lifecycle (store_events rows).
Proof.
  apply preserves_execute; [apply _|]. intros _ d tr. apply (lifecycle_events (λ es, es ++ rows)).
  intros es e He. exists e. rewrite elem_of_app. auto.
Qed.

Lemma lifecycle_change_events p f : preserves lifecycle (change_events p f).
Proof.
  apply preserves_execute; [apply _|]. intros _ d tr. apply (lifecycle_events (map _)).
  intros es e He. eexists. split; [by apply list_elem_of_fmap_2|]. by destruct (p e).
Qed.

Lemma lifecycle_delete_events ids : ids ⊆ events_out → preserves lifecycle (delete_events ids).
Proof.
  intros Hi. apply preserves_execute; [apply _|]. intros _ d tr. unfold lifecycle. simpl.
  split_and!; [reflexivity| |reflexivity| |].
  - apply rows_le_filter; [apply _|]. intros q Hq%negb_false_iff%bool_decide_eq_true. right. by apply Hi.
  - intros [H1 H2]. split; [done|]. by apply bool_filter_Forall.
  - apply events_stored_incl.
    + intros e q He Hq Hid. exists e. split; [|done]. apply elem_of_bool_filter. split; [done|].
      apply elem_of_bool_filter in Hq as [_ Hq]. by rewrite Hid.
    + intros q Hq. by apply elem_of_bool_filter in Hq as [Hq _].
Qed.

Lemma lifecycle_delete_subscriptions ids : ids ⊆ subs_out → preserves lifecycle (delete_subscriptions ids).
Proof.
  intros Hi. apply preserves_execute; [apply _|]. intros _ d tr. unfold lifecycle. simpl.
  split_and!; [| |reflexivity| |].
  - apply rows_le_filter; [apply _|]. intros x Hx%negb_false_iff%bool_decide_eq_true. by apply Hi.
  - apply rows_le_filter; [apply _|]. intros q Hq%negb_false_iff%bool_decide_eq_true. left. by apply Hi.
  - unfold wf. simpl. rewrite !Forall_forall. intros [H1 H2]. split.
    + intros x [Hx _]%elem_of_bool_filter. auto.
    + intros q [Hq Hk]%elem_of_bool_filter. destruct (H2 q Hq) as (Hw & x & Hx & Ex). split; [done|].
      exists x. split; [|done]. apply elem_of_bool_filter. split; [done|]. by rewrite Ex.
  - apply events_stored_incl; [eauto|]. intros q Hq. by apply elem_of_bool_filter in Hq as [Hq _].
Qed.

Lemma lifecycle_settle_pushed id e : preserves lifecycle (settle_pushed id e).
Proof. apply preserves_execute; [apply _|]. intros. apply lifecycle_delivered. Qed.

#[local] Hint Resolve lifecycle_store_events lifecycle_change_events lifecycle_delete_events
  lifecycle_delete_subscriptions lifecycle_settle_pushed : pg.

Lemma lifecycle_run_op o s :
  deleted_subs o ⊆ subs_out → deleted_events o ⊆ events_out → lifecycle (view s) (view (run_op o s)).
Proof.
  assert (∀ E A (m : M E A), preserves lifecycle m → lifecycle (view s) (view (m s).2)) as H by (intros E A m Hm; apply Hm).
  intros Hs He. destruct o; simpl; apply H;
    unfold get_subscription, get_subscription_batch_config, deliver_batch, enqueue_event, delivery_cycle,
      get_pause_resume_status, get_subscription_email, or_not_found; preserve.
Qed.

Lemma lifecycle_run_ops os s :
  concat (map deleted_subs os) ⊆ subs_out → concat (map deleted_events os) ⊆ events_out → lifecycle (view s) (view (run_ops os s)).
Proof.
  revert s. induction os as [|o os IH]; intros s Hs He; simpl; [reflexivity|]. simpl in *.
  etrans; [apply lifecycle_run_op|apply IH]; intros x Hx; (apply Hs || apply He); apply elem_of_app; auto.
Qed.

End Subscriptions.

(** C24. Whatever runs, in whatever order, and whichever statements fail: the
    rows of [subscriptions] and [delivery_queue] stay, but for the
    subscriptions deleted and the deliveries of deleted subscriptions and
    events, which go with them; a subscription keeps its address and start, its
    acknowledged ledger never moves back, it can only be cancelled, and a
    cancelled one changes neither; a delivered item stays delivered and its
    attempts only grow; and batch sizes and timeouts, statuses, attempts and
    both foreign keys of the queue stay within their bounds.  What runs are the
    operations of subscriptions.rs one after the other, the deletions and
    updates of events and subscriptions by other components, and the push
    worker's update of the queue. *)
Theorem subscriptions_lifecycle env os s :
  let s' := run_ops env os s in
  let gs := concat (map deleted_subs os) in
  let ge := concat (map deleted_events os) in
  rows_le (sub_gone gs) sub_le (subs (db s)) (subs (db s')) ∧
  rows_le (item_gone gs ge) item_le (queue (db s)) (queue (db s')) ∧
  trace s `prefix_of` trace s' ∧
  (wf (db s) → wf (db s')) ∧
  (events_stored (db s) → events_stored (db s')).
Proof. by apply (lifecycle_run_ops env _ _ os s). Qed.

(** ** The daily limit on e-mails *)

(** The mails sent to an address. *)
Definition mails (a : string) (tr : list Ev) : Z :=
  Z.of_nat (length (List.filter (λ e, match e with Mailed m _ => String.eqb (m_to m) a | Posted _ _ => false end) tr)).

(** The sum over the days of the counter of an address, at most the limit for each day. *)
Definition day_share (a : string) (k : string * Z) (c : Z) : Z :=
  if String.eqb k.1 a then Z.min EMAIL_DAILY_LIMIT c else 0.

Definition allowance (a : string) (m : gmap (string * Z) Z) : Z :=
  map_fold (λ k c acc, day_share a k c + acc) 0 m.

Lemma allowance_insert a k c m :
  m !! k = None → allowance a (<[k := c]> m) = day_share a k c + allowance a m.
Proof. intros Hk. unfold allowance. rewrite map_fold_insert_L; [done| |done]. intros. lia. Qed.

Lemma allowance_update a k c c0 m :
  m !! k = Some c0 → allowance a (<[k := c]> m) = allowance a m + day_share a k c - day_share a k c0.
Proof.
  intros Hk. rewrite <- (insert_delete_id m k c0 Hk) at 2. rewrite <- (insert_delete_eq m k c).
  rewrite !allowance_insert by apply lookup_delete_eq. lia.
Qed.

(** The mails sent by a step are covered by what it adds to the counters. *)
Definition covered : relation (Db * list Ev) := λ x y, ∀ a,
  mails a y.2 - mails a x.2 ≤ allowance a (email_send_counters y.1) - allowance a (email_send_counters x.1).

#[local] Instance covered_preorder : PreOrder covered.
Proof.
  split; [intros [d tr] a; simpl; lia|]. intros x y z H1 H2 a. specialize (H1 a). specialize (H2 a). lia.
Qed.

#[local] Hint Resolve covered_preorder : pg.

Lemma mails_app a t1 t2 : mails a (t1 ++ t2) = mails a t1 + mails a t2.
Proof. unfold mails. rewrite List.filter_app, length_app. lia. Qed.

Section Mails.
Variable env : Env.
(** A count that sqlx decodes is the count stored. *)
Hypothesis decode_faithful : ∀ c v, decode_count env c = Ok v → v = c.

Lemma covered_same d d' tr : email_send_counters d' = email_send_counters d → covered (d, tr) (d', tr).
Proof. intros E a. simpl. rewrite E. lia. Qed.

Lemma covered_execute {E} `{FromSqlx E} f :
  (∀ t d, email_send_counters (f t d) = email_send_counters d) →
  preserves covered (execute (pg env) f : Pg.M Db Ev E ()).
Proof. intros Hf. apply preserves_execute; [apply _|]. intros. by apply covered_same. Qed.

Lemma covered_update_subs {E} `{FromSqlx E} p f :
  preserves covered (execute_count (pg env) (λ t, update_subs (p t) (f t)) : Pg.M Db Ev E nat).
Proof. apply preserves_execute_count; [apply _|]. intros. by apply covered_same. Qed.

Lemma covered_insert {E} `{FromSqlx E} n l : preserves covered (insert_items env (E := E) n l).
Proof.
  apply preserves_stmt; [apply _|]. intros t d x d' tr. case_match; [|done]. intros [= _ <-]. by apply covered_same.
Qed.

Lemma covered_post p : preserves covered (post env p).
Proof. apply preserves_call. intros ans d tr a. simpl. rewrite mails_app. unfold mails. simpl. lia. Qed.

Lemma covered_retry id e : preserves covered (schedule_retry env id e).
Proof.
  apply preserves_stmt; [apply _|]. intros t d x d' tr. case_match; [done|]. intros [= _ <-]. by apply covered_same.
Qed.

Lemma covered_log_pause id a r u : preserves covered (log_pause env id a r u).
Proof. unfold log_pause. preserve. by apply covered_execute. Qed.

Lemma covered_log_email l : preserves covered (log_email env l).
Proof. unfold log_email. preserve. by apply covered_execute. Qed.

#[local] Hint Resolve covered_execute covered_update_subs covered_insert covered_post covered_retry
  covered_log_pause covered_log_email : pg.

(** A check that allows a send has added one to the allowance of the address. *)
Lemma check_email addr s r s1 :
  check_and_increment_email_rate_limit env addr s = (r, s1) →
  trace s1 = trace s ∧
  ∀ a, allowance a (email_send_counters (db s)) +
       (if bool_decide (r = Ok true) && String.eqb addr a then 1 else 0) ≤
       allowance a (email_send_counters (db s1)).
Proof.
  unfold check_and_increment_email_rate_limit.
  unfold mbind, M_bind, stmt. destruct (db_fault _ _) as [e|].
  { intros [= <- <-]. split; [done|]. intros a. rewrite bool_decide_false by done. simpl. lia. }
  set (key := (addr, current_date (now (pg env) (ops s)))).
  assert (∀ c s', email_send_counters (db s') = <[key := c]> (email_send_counters (db s)) → trace s' = trace s →
    c = default 0 (email_send_counters (db s) !! key) + 1 →
    (match of_result (decode_count env c) s' with
     | (Ok count, s'') => (Ok (count <=? EMAIL_DAILY_LIMIT), s'')
     | (Err e, s'') => (Err e, s'')
     end) = (r, s1) →
    trace s1 = trace s ∧
    ∀ a, allowance a (email_send_counters (db s)) +
         (if bool_decide (r = Ok true) && String.eqb addr a then 1 else 0) ≤
         allowance a (email_send_counters (db s1))) as Hfin.
  { intros c s' Es Et Ec. unfold of_result, mret, M_ret. intros Hr.
    assert (s1 = s' ∧ (r = Ok true → c ≤ EMAIL_DAILY_LIMIT)) as [-> Hc].
    { destruct (decode_count env c) as [v|] eqn:Ed; injection Hr as <- <-; split; try done.
      apply decode_faithful in Ed as ->. intros [= H]. lia. }
    split; [done|]. intros a. rewrite Es. unfold EMAIL_DAILY_LIMIT in *.
    assert (bool_decide (r = Ok true) = true → c ≤ 100) as Hc' by (rewrite bool_decide_eq_true; auto).
    destruct (email_send_counters (db s) !! key) as [c0|] eqn:Ek; simpl in Ec.
    - rewrite (allowance_update _ _ _ c0) by done. unfold day_share, EMAIL_DAILY_LIMIT. simpl.
      destruct (String.eqb addr a), (bool_decide (r = Ok true)); simpl; try specialize (Hc' eq_refl); lia.
    - rewrite allowance_insert by done. unfold day_share, EMAIL_DAILY_LIMIT. simpl.
      destruct (String.eqb addr a), (bool_decide (r = Ok true)); simpl; lia. }
  destruct (email_send_counters (db s) !! key) as [c0|] eqn:Ek.
  - destruct (2 ^ 31 <=? c0 + 1).
    + intros [= <- <-]. split; [done|]. intros a. rewrite bool_decide_false by done. simpl. lia.
    + by apply Hfin.
  - by apply Hfin.
Qed.

Lemma covered_check addr : preserves covered (check_and_increment_email_rate_limit env addr).
Proof.
  intros s a. destruct (check_and_increment_email_rate_limit env addr s) as [r s1] eqn:E.
  apply check_email in E as [Et Ha]. specialize (Ha a). simpl. rewrite Et. case_match; lia.
Qed.

Lemma covered_email_row x : preserves covered (email_row env x).
Proof.
  destruct x as [[id addr] r]. intros s. unfold email_row.
  destruct (check_and_increment_email_rate_limit env addr s) as [allowed s1] eqn:E.
  rewrite (bind_ok _ _ s allowed s1) by (unfold attempt; by rewrite E).
  pose proof (check_email _ _ _ _ E) as [Et Ha].
  assert (covered (view s) (view s1)) as H1.
  { intros a. specialize (Ha a). simpl. rewrite Et. case_match; lia. }
  destruct allowed as [[|]|e]; [|etrans; [exact H1|apply covered_log_email]|exact H1].
  cbv zeta. set (mail := mkMail _ _ _ _).
  rewrite (bind_ok _ _ s1 (smtp_send env (ops s1) mail)
             (mkSt (db s1) (S (ops s1)) (trace s1 ++ [Mailed mail (smtp_send env (ops s1) mail)]))) by done.
  etrans; [|].
  2: { match goal with |- covered _ (view (?m ?s).2) => assert (preserves covered m) as Hm; [|apply Hm] end.
       preserve. }
  intros a. specialize (Ha a). simpl. rewrite mails_app, Et. unfold mails at 2. simpl.
  change (m_to mail) with addr. rewrite bool_decide_true in Ha by done. simpl in Ha.
  destruct (String.eqb addr a); simpl; lia.
Qed.

Lemma covered_email_loop l : preserves covered (email_loop env l).
Proof. induction l as [|x l IH]; simpl; preserve; auto using covered_email_row. Qed.

Lemma covered_email_cycle : preserves covered (email_cycle env).
Proof. unfold email_cycle. preserve; auto using covered_email_loop. Qed.

Lemma covered_mark ids : preserves covered (mark_delivered env ids).
Proof. by apply covered_execute. Qed.

#[local] Hint Resolve covered_mark : pg.

Lemma covered_retry_all ids e : preserves covered (retry_all env ids e).
Proof. induction ids as [|id ids IH]; simpl; preserve. Qed.

Lemma covered_singles rs n : preserves covered (deliver_singles env rs n).
Proof. revert n. induction rs as [|r rs IH]; intros n; simpl; preserve. Qed.

Lemma covered_groups gs n : preserves covered (deliver_groups env gs n).
Proof.
  revert n. induction gs as [|[k [|r rs]] gs IH]; intros n; simpl; auto with pg.
  preserve; auto using covered_retry_all.
Qed.

Lemma covered_deliver : preserves covered (deliver_pending env).
Proof. unfold deliver_pending. preserve; auto using covered_singles, covered_groups. Qed.

Lemma covered_create k b : preserves covered (create_subscription env k b).
Proof.
  unfold create_subscription. preserve. apply preserves_stmt; [apply _|].
  intros t d ? d' tr [= <- <-]. by apply covered_same.
Qed.

#[local] Hint Resolve covered_email_cycle covered_deliver covered_create : pg.

Lemma covered_run_op o s : covered (view s) (view (run_op env o s)).
Proof.
  assert (∀ E A (m : Pg.M Db Ev E A), preserves covered m → covered (view s) (view (m s).2)) as H
    by (intros E A m Hm; apply Hm).
  destruct o; simpl; apply H;
    unfold get_subscription, cancel_subscription, ack_subscription, get_subscription_batch_config,
      update_subscription_batch_config, deliver_batch, enqueue_event, delivery_cycle, pause_subscription,
      resume_subscription, get_pause_resume_status, auto_resume, get_subscription_email,
      update_subscription_email, store_events, change_events, delete_events, delete_subscriptions,
      settle_pushed, or_not_found; preserve;
    try (by apply covered_execute); apply covered_update_subs.
Qed.

Lemma covered_run_ops os s : covered (view s) (view (run_ops env os s)).
Proof.
  revert s. induction os as [|o os IH]; intros s; simpl; [reflexivity|].
  etrans; [apply covered_run_op|apply IH].
Qed.

End Mails.

(** However the operations run and whatever fails, the mails sent to an
    address are at most the sum over the days of that day's counter, capped
    at 100: never more than 100 for each day on which the address was counted. *)
Theorem email_daily_limit env os s a :
  (∀ c v, decode_count env c = Ok v → v = c) →
  let s' := run_ops env os s in
  mails a (trace s') - mails a (trace s) ≤
  allowance a (email_send_counters (db s')) - allowance a (email_send_counters (db s)).
Proof. intros Hd s'. apply (covered_run_ops env Hd os s). Qed.

Definition silent : relation (Db * list Ev) := λ x y, y.2 = x.2.

#[local] Instance silent_preorder : PreOrder silent.
Proof. split; [done|]. intros x y z H1 H2. unfold silent in *. congruence. Qed.

#[local] Hint Resolve silent_preorder : pg.

Lemma silent_execute env {E} `{FromSqlx E} f :
  preserves silent (execute (pg env) f : Pg.M Db Ev E ()).
Proof. by apply preserves_execute; [apply _|]. Qed.

#[local] Hint Resolve silent_execute : pg.

Lemma undecodable_row env x s :
  (∀ c, is_ok (decode_count env c) = false) → trace (email_row env x s).2 = trace s.
Proof.
  intros Hd. destruct x as [[id addr] r]. unfold email_row.
  destruct (check_and_increment_email_rate_limit env addr s) as [allowed s1] eqn:E.
  rewrite (bind_ok _ _ s allowed s1) by (unfold attempt; by rewrite E).
  assert (trace s1 = trace s ∧ is_ok allowed = false) as [Et Hok].
  { revert E. unfold check_and_increment_email_rate_limit, mbind, M_bind, stmt, of_result.
    repeat case_match; intros; simplify_eq; try done;
      match goal with H : decode_count env ?c = _ |- _ => specialize (Hd c); by rewrite H in Hd end. }
  destruct allowed as [b|e]; [done|]. done.
Qed.

Lemma undecodable_loop env l :
  (∀ c, is_ok (decode_count env c) = false) → preserves silent (email_loop env l).
Proof.
  intros Hd. induction l as [|x l IH]; simpl; preserve.
  intros s. by apply undecodable_row.
Qed.

(** If sqlx refuses to decode the INT column as an [i64], as its type table
    says, the worker sends nothing at all: the check fails after counting. *)
Lemma undecodable_count_stops_email env s :
  (∀ c, is_ok (decode_count env c) = false) → trace (email_cycle env s).2 = trace s.
Proof.
  intros Hd. enough (preserves silent (email_cycle env)) as H by apply (H s).
  unfold email_cycle. preserve. by apply undecodable_loop.
Qed.

(** ** The delivery worker *)

Section Delivery.
Variable env : Env.

(** The request for a row, and what its answer at time [t] does to the queue. *)
Definition post_for (r : Row) : Post :=
  if is_batch r then batch_post env (r_url r) (r_size r) (r_timeout r) [r] else single_post env r.

Record Settled : Type := mkSettled { st_row : Row; st_answer : result Z string; st_time : Z }.

Definition posted (x : Settled) : Ev := Posted (post_for (st_row x)) (st_answer x).

Definition succeeded (x : Settled) : bool :=
  match failure_of env (st_answer x) with None => true | Some _ => false end.

Definition settle (q : Item) (x : Settled) : Item :=
  if q_id q =? r_id (st_row x) then
    match failure_of env (st_answer x) with
    | None => set_item "delivered" q
    | Some e =>
        match backoff_secs (attempts q) with
        | Ok b => set_retry (attempts q + 1) (st_time x + b * second_us) e q
        | Err _ => q
        end
    end
  else q.

(** The worker on one row, and on rows one after the other. *)
Definition deliver_row (r : Row) : Pg.M Db Ev string bool :=
  answer ← post env (post_for r);
  match failure_of env answer with
  | None => mark_delivered env [r_id r] ;; mret true
  | Some e => schedule_retry env (r_id r) e ;; mret false
  end.

Fixpoint deliver_rows (rs : list Row) (total : nat) : Pg.M Db Ev string nat :=
  match rs with
  | [] => mret total
  | r :: rest => ok ← deliver_row r; deliver_rows rest (if (ok : bool) then S total else total)
  end.

Lemma deliver_row_cases r s :
  let answer := http_post env (ops s) (post_for r) in
  let s1 := mkSt (db s) (S (ops s)) (trace s ++ [Posted (post_for r) answer]) in
  (∃ e, deliver_row r s = (Err e, mkSt (db s1) (S (ops s1)) (trace s1))) ∨
  ∃ x, x = mkSettled r answer (now (pg env) (S (ops s))) ∧
    deliver_row r s =
      (Ok (succeeded x), mkSt (with_queue (map (λ q, settle q x) (queue (db s))) (db s)) (S (ops s1)) (trace s1)).
Proof.
  cbv zeta. set (answer := http_post env (ops s) (post_for r)). unfold deliver_row, post.
  rewrite (bind_ok _ _ s answer (mkSt (db s) (S (ops s)) (trace s ++ [Posted (post_for r) answer]))) by done.
  set (s1 := mkSt (db s) (S (ops s)) _). set (x := mkSettled r answer _).
  assert (failure_of env (st_answer x) = failure_of env answer) as Ex by done.
  destruct (failure_of env answer) as [e|] eqn:Ef.
  - unfold schedule_retry, mbind, M_bind, stmt. destruct (db_fault _ _); [left; by eexists|].
    destruct (existsb _ _) eqn:Eb; [left; by eexists|]. right. exists x. split; [done|].
    unfold succeeded. rewrite Ex. f_equal. f_equal. unfold update_queue. f_equal. simpl.
    apply list_fmap_ext. intros i q _. unfold settle. rewrite Ex. simpl. by destruct (q_id q =? r_id r).
  - unfold mark_delivered, execute, mbind, M_bind, stmt. destruct (db_fault _ _); [left; by eexists|].
    right. exists x. split; [done|]. unfold succeeded. rewrite Ex. f_equal. f_equal. unfold update_queue. f_equal.
    apply list_fmap_ext. intros i q _. unfold settle. rewrite Ex. simpl.
    destruct (Z.eqb_spec (q_id q) (r_id r)) as [E|E].
    + rewrite bool_decide_true; [done|]. rewrite E. apply list_elem_of_singleton. done.
    + rewrite bool_decide_false; [done|]. by intros ?%list_elem_of_singleton.
Qed.

(** What a run over [rs] from [s] did: the rows it settled, and where it stopped. *)
Definition delivered (rs : list Row) (total : nat) (s : Pg.St Db Ev) (r : result nat string) (s' : Pg.St Db Ev) :
    Prop :=
  ∃ done rest unrecorded,
    map st_row done ++ rest = rs ∧
    trace s' = trace s ++ map posted done ++ unrecorded ∧
    db s' = with_queue (map (λ q, foldl settle q done) (queue (db s))) (db s) ∧
    Forall (λ x, ∃ n, (ops s ≤ n)%nat ∧ st_answer x = http_post env n (post_for (st_row x)) ∧
                      st_time x = now (pg env) (S n)) done ∧
    match r with
    | Ok n => rest = [] ∧ unrecorded = [] ∧ n = (total + length (List.filter succeeded done))%nat
    | Err _ => ∃ r0 rest' answer, rest = r0 :: rest' ∧ unrecorded = [Posted (post_for r0) answer]
    end.

Lemma deliver_rows_spec rs total s :
  delivered rs total s (deliver_rows rs total s).1 (deliver_rows rs total s).2.
Proof.
  revert total s. induction rs as [|r rs IH]; intros total s; simpl.
  - exists [], [], []. split_and!; simpl; rewrite ?app_nil_r, ?Nat.add_0_r; try done.
    by destruct s as [[]]; rewrite map_id.
  - destruct (deliver_row_cases r s) as [[e E]|(x & Ex & E)].
    { rewrite (bind_err _ _ _ _ _ E). exists [], (r :: rs), [Posted (post_for r) (http_post env (ops s) (post_for r))].
      split_and!; simpl; try done; [by destruct s as [[]]; rewrite map_id|by eauto]. }
    rewrite (bind_ok _ _ _ _ _ E). set (s1 := mkSt _ _ _).
    destruct (IH (if succeeded x then S total else total) s1) as (done & rest & u & Hrs & Ht & Hd & Hf & Hr).
    exists (x :: done), rest, u. split_and!.
    + subst x. simpl. by f_equal.
    + rewrite Ht. subst x. simpl. by rewrite <- app_assoc.
    + rewrite Hd. simpl. by rewrite map_map.
    + constructor; [exists (ops s); by subst x|]. eapply Forall_impl; [exact Hf|].
      intros y (n & Hn & Hy). exists n. split; [simpl in Hn; lia|done].
    + destruct (_.1); [|done]. destruct Hr as (-> & -> & ->). split_and!; try done.
      simpl. destruct (succeeded x); simpl; lia.
Qed.

(** The two loops of the source run [deliver_row] over their rows. *)
Lemma deliver_singles_rows rs total s :
  Forall (λ r, is_batch r = false) rs → deliver_singles env rs total s = deliver_rows rs total s.
Proof.
  revert total s. induction rs as [|r rs IH]; intros total s Hb; [done|]. apply Forall_cons in Hb as [Hr Hb].
  simpl. unfold deliver_row, post_for. rewrite Hr.
  unfold mbind, M_bind, post, call, mret, M_ret. destruct (failure_of env _) as [e|].
  - destruct (schedule_retry env _ _ _) as [[]]; [by apply IH|done].
  - destruct (mark_delivered env _ _) as [[]]; [by apply IH|done].
Qed.

Lemma deliver_groups_rows rs total s :
  Forall (λ r, is_batch r = true ∧ 1 ≤ r_size r < 2 ^ 64) rs →
  deliver_groups env (map (λ r, (r_id r, [r])) rs) total s = deliver_rows rs total s.
Proof.
  revert total s. induction rs as [|r rs IH]; intros total s Hb; [done|]. apply Forall_cons in Hb as [[Hr Hs] Hb].
  simpl. unfold deliver_row, post_for. rewrite Hr. rewrite wrap_u_small by (split; lia).
  replace (take (Z.to_nat (r_size r)) [r]) with [r] by (destruct (Z.to_nat (r_size r)) as [|[|]] eqn:E; [lia|done..]).
  unfold mbind, M_bind, post, call, mret, M_ret. destruct (failure_of env _) as [e|]; simpl.
  - unfold mbind, M_bind, mret, M_ret. destruct (schedule_retry env _ _ _) as [[]]; [by apply IH|done].
  - destruct (mark_delivered env _ _) as [[]]; [|done]. rewrite Nat.add_1_r. by apply IH.
Qed.

Lemma deliver_rows_app rs rs' total s :
  deliver_rows (rs ++ rs') total s = (deliver_rows rs total ≫= deliver_rows rs') s.
Proof.
  revert total s. induction rs as [|r rs IH]; intros total s; [done|]. simpl.
  unfold mbind, M_bind. destruct (deliver_row r s) as [[ok|e] s1]; [|done]. by rewrite IH.
Qed.

(** Queue ids are unique, so the map keyed by them has one row per group. *)
Lemma push_group_fresh r rs :
  r_id r ∉ map r_id rs → push_group r (map (λ r, (r_id r, [r])) rs) = map (λ r, (r_id r, [r])) (rs ++ [r]).
Proof.
  induction rs as [|x rs IH]; intros Hn; [done|]. simpl in *. apply not_elem_of_cons in Hn as [Hx Hn].
  destruct (Z.eqb_spec (r_id x) (r_id r)); [congruence|]. by rewrite IH.
Qed.

Lemma push_groups rs0 rs :
  NoDup (map r_id (rs0 ++ rs)) →
  foldl (λ gs r, push_group r gs) (map (λ r, (r_id r, [r])) rs0) rs = map (λ r, (r_id r, [r])) (rs0 ++ rs).
Proof.
  revert rs0. induction rs as [|r rs IH]; intros rs0 Hn; simpl; [by rewrite app_nil_r|].
  rewrite push_group_fresh.
  - rewrite IH; [by rewrite <- app_assoc|]. by rewrite <- app_assoc.
  - rewrite map_app in Hn. apply NoDup_app in Hn as (_ & Hn & _). intros Hin. apply (Hn _ Hin). simpl. left.
Qed.

(** ** The rows selected *)

(** A row stands for a due pending item of an active subscription. *)
Definition row_of (t : Z) (d : Db) (q : Item) (r : Row) : Prop :=
  r_id r = q_id q ∧ r_event r = q_event q ∧ r_ledger r = q_ledger q ∧
  q_status q = "pending"%string ∧ next_attempt_at q ≤ t ∧
  ∃ sub, sub ∈ subs d ∧ s_id sub = q_sub q ∧ s_status sub = "active"%string ∧
         r_url r = callback_url sub ∧ r_size r = batch_size sub ∧ r_timeout r = batch_timeout_ms sub.

Lemma deliverable_row t d q r : deliverable t d q = Some r → row_of t d q r.
Proof.
  unfold deliverable, option_bind. destruct (is_pending q && _) eqn:E; [|done].
  apply andb_true_iff in E as [E1 E2]. destruct (find_sub (q_sub q) d) as [sub|] eqn:Es; [|done].
  destruct (find_event (q_event q) d) as [e|]; [|done]. destruct (is_active sub) eqn:Ea; [|done].
  intros [= <-]. apply find_some in Es as [Hin Hid]. unfold row_of. simpl.
  split_and!; try done; [by apply String.eqb_eq|lia|]. exists sub.
  rewrite list_elem_of_In. split_and!; try done; [lia|by apply is_active_eq].
Qed.

Hypothesis row_order_perm : ∀ n l, row_order env n l ≡ₚ l.

Lemma due_rows_in n t d r : r ∈ due_rows env n t d → ∃ q, q ∈ queue d ∧ row_of t d q r.
Proof.
  unfold due_rows. intros Hr. assert (r ∈ omap (deliverable t d) (row_order env n (queue d))) as Ho.
  { eapply elem_of_Permutation_proper; [symmetry; apply (sort_by_permutation (cmp_on r_ledger Z.compare))|].
    apply list_elem_of_lookup in Hr as [i Hi]. apply lookup_take_Some in Hi as [Hi _].
    by apply list_elem_of_lookup_2 in Hi. }
  apply list_elem_of_omap in Ho as (q & Hq & Hd). exists q.
  rewrite row_order_perm in Hq. split; [done|by apply deliverable_row].
Qed.

Lemma omap_ids t d l : sublist (map r_id (omap (deliverable t d) l)) (map q_id l).
Proof.
  induction l as [|q l IH]; simpl; [constructor|]. destruct (deliverable t d q) as [r|] eqn:E; simpl.
  - apply deliverable_row in E as (-> & _). by constructor.
  - by constructor.
Qed.

Lemma due_rows_nodup n t d : NoDup (map q_id (queue d)) → NoDup (map r_id (due_rows env n t d)).
Proof.
  intros Hn. unfold due_rows. eapply sublist_NoDup; [|apply (fmap_sublist r_id), sublist_take].
  change (NoDup (map r_id (sort_by (cmp_on r_ledger Z.compare) (omap (deliverable t d) (row_order env n (queue d)))))).
  rewrite (Permutation_map r_id (sort_by_permutation (cmp_on r_ledger Z.compare) _)).
  eapply sublist_NoDup; [|apply omap_ids]. by rewrite (Permutation_map q_id (row_order_perm n (queue d))).
Qed.

Hypothesis hash_order_perm : ∀ gs, hash_order env gs ≡ₚ gs.

Lemma deliver_pending_rows s :
  wf (db s) → NoDup (map q_id (queue (db s))) → db_fault (pg env) (ops s) = None →
  ∃ rs, rs ≡ₚ due_rows env (ops s) (now (pg env) (ops s)) (db s) ∧
    deliver_pending env s = deliver_rows rs 0 (mkSt (db s) (S (ops s)) (trace s)).
Proof.
  intros [Hw _] Hn Hf. set (due := due_rows _ _ _ _).
  assert (∀ r, r ∈ due → 1 ≤ r_size r < 2 ^ 64) as Hsize.
  { intros r Hr. apply due_rows_in in Hr as (q & _ & (_&_&_&_&_& sub & Hsub & _&_&_& -> &_)).
    rewrite Forall_forall in Hw. destruct (Hw _ Hsub) as (_ & Hs & _). lia. }
  assert (NoDup (map r_id (List.filter is_batch due))) as Hb.
  { eapply sublist_NoDup; [apply due_rows_nodup, Hn|]. apply (fmap_sublist r_id), bool_filter_sublist. }
  destruct (Permutation_map_inv (λ r, (r_id r, [r])) (List.filter is_batch due)
              (hash_order_perm (map (λ r, (r_id r, [r])) (List.filter is_batch due))))
    as (rb & Eb & Pb).
  exists (List.filter (λ r, negb (is_batch r)) due ++ rb). split.
  - rewrite <- Pb. apply bool_filter_partition.
  - unfold deliver_pending. rewrite (bind_ok _ _ s (ops s) s) by done.
    rewrite (bind_ok _ _ s due (mkSt (db s) (S (ops s)) (trace s))).
    2: { unfold query, stmt. by rewrite Hf. }
    cbv zeta. pose proof (push_groups [] (List.filter is_batch due) Hb) as Hg. simpl in Hg. rewrite Hg, Eb.
    rewrite deliver_rows_app. unfold mbind, M_bind. rewrite deliver_singles_rows.
    2: { apply Forall_forall. intros r Hr. apply list_elem_of_In, filter_In in Hr as [_ Hr]. by destruct (is_batch r). }
    destruct (deliver_rows _ 0 _) as [[n|e] s1]; [|done]. apply deliver_groups_rows.
    apply Forall_forall. intros r Hr. rewrite <- Pb in Hr. apply list_elem_of_In, filter_In in Hr as [Hr Hr'].
    split; [done|]. apply Hsize. by apply list_elem_of_In.
Qed.

End Delivery.

(** C17. One cycle of the delivery worker.  Unless its selection fails, it goes
    through the due rows one by one: each is sent in a request of its own,
    batch subscriptions included, and the answer marks its queue entries
    delivered or schedules their retry after min(2^(attempts+1), 3600)
    seconds.  A failing statement stops the cycle after a request whose
    outcome is then not recorded, so that the row is sent again; otherwise
    every due row is settled and the successes are counted.  Every row sent is
    a due pending entry of an active subscription. *)
Theorem deliver_pending_spec env s :
  wf (db s) → NoDup (map q_id (queue (db s))) →
  (∀ n l, row_order env n l ≡ₚ l) → (∀ gs, hash_order env gs ≡ₚ gs) →
  let due := due_rows env (ops s) (now (pg env) (ops s)) (db s) in
  let r := (deliver_pending env s).1 in
  let s' := (deliver_pending env s).2 in
  (∀ row, row ∈ due → ∃ q, q ∈ queue (db s) ∧ row_of (now (pg env) (ops s)) (db s) q row) ∧
  (is_ok r = false ∧ db s' = db s ∧ trace s' = trace s ∨
   ∃ done rest unrecorded,
     map st_row done ++ rest ≡ₚ due ∧
     trace s' = trace s ++ map (posted env) done ++ unrecorded ∧
     db s' = with_queue (map (λ q, foldl (settle env) q done) (queue (db s))) (db s) ∧
     match r with
     | Ok n => rest = [] ∧ unrecorded = [] ∧ n = length (List.filter (succeeded env) done)
     | Err _ => ∃ r0 rest' answer, rest = r0 :: rest' ∧ unrecorded = [Posted (post_for env r0) answer]
     end).
Proof.
  intros Hw Hn Hro Hho due r s'. split; [intros row Hr; by apply (due_rows_in env Hro) in Hr|].
  destruct (db_fault (pg env) (ops s)) as [e|] eqn:Hf.
  - left. subst r s'. unfold deliver_pending, counter, query, mbind, M_bind, stmt. by rewrite Hf.
  - right. destruct (deliver_pending_rows env Hro Hho s Hw Hn Hf) as (rs & Hrs & E). subst r s'. rewrite E.
    destruct (deliver_rows_spec env rs 0 (mkSt (db s) (S (ops s)) (trace s)))
      as (done & rest & u & Hd & Ht & Hdb & _ & Hr).
    exists done, rest, u. split_and!; [by rewrite Hd|done|done|done].
Qed.

Definition demo_sub (id : Z) (type_ : string) : Subscription :=
  mkSub id "https://a.example/hook" 0 0 "active" 0 type_ 10 5000 None None None None false.

Definition demo_row (id : Z) : EventStore.EventRow :=
  EventStore.mkRow id 0 (EventStore.mkColumns "C" "contract" "t" 7 0 Null None true None None "" None None "" None
    None None None None).

Definition demo_db : Db :=
  mkDb [demo_sub 1 "single"; demo_sub 2 "batch"]
       [mkItem 11 1 5 7 "pending" 0 0 None; mkItem 12 2 5 7 "pending" 3 0 None; mkItem 13 1 6 8 "delivered" 0 0 None]
       [demo_row 5; demo_row 6] [] ∅ [].

Lemma demo_wf : wf demo_db.
Proof.
  assert (∀ s, s ∈ subs demo_db → wf_sub s) as Hs.
  { intros s Hs. repeat (apply elem_of_cons in Hs as [-> | Hs]; [unfold wf_sub; simpl; intuition lia|]).
    by apply elem_of_nil in Hs. }
  assert (∀ id, (id = 1 ∨ id = 2) → ∃ s, s ∈ subs demo_db ∧ s_id s = id) as Hid.
  { intros id [-> | ->]; [exists (demo_sub 1 "single")|exists (demo_sub 2 "batch")]; (split; [|done]); simpl; set_solver. }
  split; [by apply Forall_forall|]. apply Forall_forall. intros q Hq.
  repeat (apply elem_of_cons in Hq as [-> | Hq]; [split; [unfold wf_item; simpl; intuition lia|apply Hid; simpl; lia]|]).
  by apply elem_of_nil in Hq.
Qed.

(** The first request succeeds, later ones are refused. *)
Definition demo_env : Env :=
  mkEnv (mkPgEnv (λ n, Z.of_nat n) (λ _, None)) (λ n i, Z.of_nat (n + i)) show_i
    (λ _, Ok ("https", Some "a.example"))%string None Production 10 5000
    (λ _ l, l) (λ gs, gs) (λ n _, if (n <=? 1)%nat then Ok 200 else Ok 503) show_i (λ _ _, Ok ()) Ok
    (λ _, EmptyString) (λ _ _ _, Ok None) (λ _ _ _ _ _, Ok ()).

Lemma deliver_pending_spec_witness :
  let s := mkSt demo_db 0 [] in
  let due := due_rows demo_env 0 0 demo_db in
  let r := (deliver_pending demo_env s).1 in
  let s' := (deliver_pending demo_env s).2 in
  ((∀ row, row ∈ due → ∃ q, q ∈ queue demo_db ∧ row_of 0 demo_db q row) ∧
   (is_ok r = false ∧ db s' = db s ∧ trace s' = trace s ∨
    ∃ done rest unrecorded,
      map st_row done ++ rest ≡ₚ due ∧
      trace s' = trace s ++ map (posted demo_env) done ++ unrecorded ∧
      db s' = with_queue (map (λ q, foldl (settle demo_env) q done) (queue (db s))) (db s) ∧
      match r with
      | Ok n => rest = [] ∧ unrecorded = [] ∧ n = length (List.filter (succeeded demo_env) done)
      | Err _ => ∃ r0 rest' answer, rest = r0 :: rest' ∧ unrecorded = [Posted (post_for demo_env r0) answer]
      end)) ∧
  r = Ok 1%nat ∧ map q_status (queue (db s')) = ["delivered"; "pending"; "delivered"]%string ∧
  map attempts (queue (db s')) = [0; 4; 0].
Proof.
  split; [|vm_compute; repeat split].
  apply (deliver_pending_spec demo_env (mkSt demo_db 0 [])); [|simpl|done|done].
  - apply demo_wf.
  - apply (bool_decide_unpack _). vm_compute. exact I.
Defined.

(** Pruning event 5 takes its pending deliveries: subscriber 1 is never told of it. *)
Example pruned_event_not_delivered :
  let s' := run_ops demo_env [DeleteEvents [5]; Deliver] (mkSt demo_db 0 []) in
  map q_id (queue (db s')) = [13] ∧ trace s' = [].
Proof. vm_compute. by split. Qed.

Lemma email_daily_limit_witness :
  let s := mkSt demo_db 0 [] in
  let s' := run_ops demo_env [UpdateEmail 1 (Some "a@b.c"%string) true; EmailCycle; EmailCycle] s in
  mails "a@b.c" (trace s') - mails "a@b.c" (trace s) ≤
  allowance "a@b.c" (email_send_counters (db s')) - allowance "a@b.c" (email_send_counters (db s)) ∧
  mails "a@b.c" (trace s') = 1.
Proof.
  split; [|vm_compute; reflexivity].
  apply (email_daily_limit demo_env [UpdateEmail 1 (Some "a@b.c"%string) true; EmailCycle; EmailCycle]).
  intros c v. simpl. congruence.
Defined.

(** ** Pause *)

Lemma find_sub_map g id d :
  (∀ x, s_id (g x) = s_id x) → find_sub id (with_subs (map g (subs d)) d) = g <$> find_sub id d.
Proof.
  intros Hg. unfold find_sub. simpl. induction (subs d) as [|x l IH]; [done|]. simpl. rewrite Hg.
  by destruct (s_id x =? id).
Qed.

(** Changing the pause columns changes no row of the delivery query. *)
Lemma due_rows_pause env n t p f d :
  (∀ x, ∃ u r a, f x = set_pause u r a x) →
  due_rows env n t (update_subs p f d).2 = due_rows env n t d.
Proof.
  intros Hf. unfold due_rows. f_equal. f_equal. simpl. apply list_omap_ext. apply Forall_Forall2_diag, Forall_true.
  intros q. unfold deliverable. destruct (is_pending q && _); [|done].
  rewrite find_sub_map by (intros x; destruct (Hf x) as (u & r & a & E); destruct (p x); [by rewrite E|done]).
  destruct (find_sub (q_sub q) d) as [x|]; [|done]. simpl. change (find_event (q_event q) (with_subs _ d)) with (find_event (q_event q) d).
  destruct (Hf x) as (u & r & a & E). destruct (p x); [|done]. by rewrite E.
Qed.

(** Pausing a subscription has no effect on what the delivery worker selects,
    now or later: the query does not look at the pause. *)
Theorem pause_does_not_stop_delivery env id secs reason s n t :
  due_rows env n t (db (pause_subscription env id secs reason s).2) = due_rows env n t (db s).
Proof.
  set (R := λ x y : Db * list Ev, due_rows env n t y.1 = due_rows env n t x.1).
  assert (PreOrder R) as Hpre by (split; [done|]; intros x y z H1 H2; unfold R in *; congruence).
  enough (preserves R (pause_subscription env id secs reason)) as H by apply (H s).
  unfold pause_subscription, log_pause. preserve.
  all: try (apply preserves_execute_count; [apply _|]; intros t' d tr; apply due_rows_pause; eauto).
  all: apply preserves_execute; [apply _|]; done.
Qed.

End Subscriptions.
