(* ===== verification/Signing.v ===== *)
(** webhook_signing.rs, webhook_verification.rs, hmac_util.rs and the signing
    of webhook.rs: the keys that sign deliveries and the check of a signature
    by the sender and by a subscriber.

    Strings of bytes are strings.  The HMAC over a block-sized key, SHA-256 and
    the hex encoder are the crates' ([Crypto]). *)

From S2P Require Import Prelude Text.

Module Signing.

(** ** The crates *)

(** Zero bytes up to the length of the block, as [copy_from_slice] leaves them. *)
Fixpoint zeros (n : nat) : string :=
  match n with O => EmptyString | S n => String Ascii.zero (zeros n) end.

Definition SHA256_BLOCK_SIZE : nat := 64.

Definition normalise (digest : string → string) (key : string) : string :=
  let k := if (SHA256_BLOCK_SIZE <? String.length key)%nat then digest key else key in
  (k +:+ zeros (SHA256_BLOCK_SIZE - String.length k))%string.

Class Crypto : Type := {
  (** [Hmac<Sha256>] on a 64-byte key: the digest of a message. *)
  hmac_core : string → string → string;
  sha256 : string → string;
  hex_encode : string → string;
  (** [Hmac::new_from_slice], fallible by its type only (hmac_util.rs, lines 3-9). *)
  new_from_slice_mac : string → string → option string;
}.

Definition key_block `{Crypto} (key : string) : string := normalise sha256 key.

(** [hmac_util::hmac_sha256(key)] updated with the parts of a message. *)
Definition hmac_sha256 `{Crypto} (key message : string) : string := hmac_core (key_block key) message.

Class CryptoLaws (C : Crypto) : Prop := {
  hex_encode_inj x y : hex_encode x = hex_encode y → x = y;
  new_from_slice_ok key message : new_from_slice_mac key message = Some (hmac_sha256 key message);
}.

(** Two different pairs of a key block and a message with one digest. *)
Definition collision `{Crypto} (a b : string * string) : Prop := a ≠ b ∧ hmac_core a.1 a.2 = hmac_core b.1 b.2.

(** ** webhook_signing.rs *)

Inductive SigningError : Type :=
| UnknownKeyId (key_id : string)
| NoActiveKey
| InvalidFormat
| Mismatch
| TimestampSkew.

Record SigningKey : Type := mkKey { id : string; secret : string; created_at : Z; active : bool }.

(** [SigningKey::new] at [now]. *)
Definition new_key (now : Z) (i s : string) : SigningKey := mkKey i s now true.

Record SignedRequest : Type := mkSigned {
  signature_header : string;
  key_id : string;
  timestamp : Z;
  algorithm : string;
}.

Definition headers (r : SignedRequest) : gmap string string :=
  <["X-Signature-Algorithm" := algorithm r]> (<["X-Signature-Timestamp" := show_u (timestamp r)]>
    (<["X-Signature-Key-Id" := key_id r]> (<["X-Signature-256" := signature_header r]> ∅)))%string.

(** [retain(|k| k.id != id)]. *)
Definition without (i : string) (keys : list SigningKey) : list SigningKey :=
  List.filter (λ k, negb (String.eqb (id k) i)) keys.

Definition add_key (key : SigningKey) (keys : list SigningKey) : list SigningKey := without (id key) keys ++ [key].

Definition deactivate (k : SigningKey) : SigningKey := mkKey (id k) (secret k) (created_at k) false.

Definition rotate (key : SigningKey) (keys : list SigningKey) : list SigningKey :=
  without (id key) (map deactivate keys) ++ [key].

Definition remove_key (i : string) (keys : list SigningKey) : list SigningKey := without i keys.

Definition active_key (keys : list SigningKey) : option SigningKey := List.find active (rev keys).
Definition find_key (i : string) (keys : list SigningKey) : option SigningKey :=
  List.find (λ k, String.eqb (id k) i) keys.

(** The signed bytes. *)
Definition message (ts : Z) (payload : string) : string := (show_u ts +:+ String "." payload)%string.

Section Manager.
Context `{Crypto}.

Definition compute_signature (key : string) (ts : Z) (payload : string) : string :=
  hex_encode (hmac_sha256 key (message ts payload)).

Definition sign (keys : list SigningKey) (now : Z) (payload : string) : result SignedRequest SigningError :=
  match active_key keys with
  | None => Err NoActiveKey
  | Some key =>
      Ok (mkSigned ("sha256=" +:+ compute_signature (secret key) now payload) (id key) now "hmac-sha256")%string
  end.

Definition verify (keys : list SigningKey) (i : string) (ts : Z) (payload provided_signature : string)
    (max_skew_secs now : Z) : result () SigningError :=
  match find_key i keys with
  | None => Err (UnknownKeyId i)
  | Some key =>
      if max_skew_secs <? Z.abs (now - ts) then Err TimestampSkew
      else match split_once "=" provided_signature with
           | None => Err InvalidFormat
           | Some (algo, provided) =>
               if negb (String.eqb algo "sha256") then Err InvalidFormat
               else if String.eqb (compute_signature (secret key) ts payload) provided then Ok () else Err Mismatch
           end
  end.

(** ** webhook.rs and webhook_verification.rs *)

Definition sign_payload (key body : string) : string := hex_encode (hmac_sha256 key body).

Definition verify_signature (header_value key body : string) : result () string :=
  match split_once "=" header_value with
  | None => Err "Invalid signature header format"%string
  | Some (algo, provided_sig) =>
      if negb (String.eqb algo "sha256") then Err "Unsupported signature algorithm"%string
      else match new_from_slice_mac key body with
           | None => Err "Invalid secret length"%string
           | Some mac =>
               if String.eqb provided_sig (hex_encode mac) then Ok ()
               else Err "Signature verification failed: digest mismatch"%string
           end
  end.

(** Both loops: the first secret that verifies ends them. *)
Fixpoint any_verifies (header_value body : string) (secrets : list string) : bool :=
  match secrets with
  | [] => false
  | s :: rest => is_ok (verify_signature header_value s body) || any_verifies header_value body rest
  end.

Definition verify_signature_with_rotation (header_value body : string) (primary_secrets fallback_secrets : list string) :
    result () string :=
  if any_verifies header_value body primary_secrets then Ok ()
  else if any_verifies header_value body fallback_secrets then Ok ()
  else Err "Signature verification failed: no matching key found"%string.

End Manager.

(** ** Histories of a manager *)

Inductive KeyOp : Type := AddKey (k : SigningKey) | Rotate (k : SigningKey) | RemoveKey (i : string).

Definition apply_op (keys : list SigningKey) (op : KeyOp) : list SigningKey :=
  match op with AddKey k => add_key k keys | Rotate k => rotate k keys | RemoveKey i => remove_key i keys end.

Definition history (ops : list KeyOp) (keys : list SigningKey) : list SigningKey := fold_left apply_op ops keys.

(** The id an operation puts in or takes out. *)
Definition touches (op : KeyOp) : string := match op with AddKey k | Rotate k => id k | RemoveKey i => i end.

Lemma elem_of_without k i keys : k ∈ without i keys ↔ k ∈ keys ∧ id k ≠ i.
Proof.
  unfold without. rewrite !list_elem_of_In, filter_In, negb_true_iff, String.eqb_neq. done.
Qed.

Lemma ids_without i keys : NoDup (map id keys) → NoDup (map id (without i keys)).
Proof. intros Hn. eapply sublist_NoDup; [exact Hn|]. apply (fmap_sublist id), bool_filter_sublist. Qed.

Lemma ids_deactivate keys : map id (map deactivate keys) = map id keys.
Proof. rewrite map_map. by apply map_ext. Qed.

Lemma ids_snoc key keys : NoDup (map id keys) → NoDup (map id (without (id key) keys ++ [key])).
Proof.
  intros Hn. rewrite map_app. apply NoDup_app. split_and!; [by apply ids_without| |apply NoDup_singleton].
  intros x (k & -> & Hk)%list_elem_of_fmap Hx. apply elem_of_without in Hk as [_ Hne].
  apply elem_of_cons in Hx as [Hx|Hx]; [done|by apply elem_of_nil in Hx].
Qed.

(** The ids of the keys stay pairwise distinct. *)
Lemma ids_distinct ops keys : NoDup (map id keys) → NoDup (map id (history ops keys)).
Proof.
  revert keys. induction ops as [|op ops IH]; intros keys Hn; [done|]. simpl. apply IH.
  destruct op; simpl; [by apply ids_snoc|apply ids_snoc; by rewrite ids_deactivate|by apply ids_without].
Qed.

Lemma find_key_iff keys k : NoDup (map id keys) → find_key (id k) keys = Some k ↔ k ∈ keys.
Proof.
  intros Hn. split.
  - intros Hf. by apply find_some in Hf as [Hi _]; apply list_elem_of_In.
  - induction keys as [|a keys IH]; [intros Hi; by apply elem_of_nil in Hi|].
    simpl in Hn. apply NoDup_cons in Hn as [Ha Hn]. intros [->|Hi]%elem_of_cons; unfold find_key; simpl.
    + by rewrite String.eqb_refl.
    + destruct (String.eqb_spec (id a) (id k)) as [E|_]; [|by apply IH].
      destruct Ha. rewrite E. by apply list_elem_of_fmap_2.
Qed.

(** What an operation on another key leaves: the key, perhaps inactive. *)
Lemma apply_op_keeps op keys k :
  k ∈ keys → touches op ≠ id k → ∃ k', k' ∈ apply_op keys op ∧ id k' = id k ∧ secret k' = secret k.
Proof.
  intros Hk Hne. destruct op as [x|x|i]; simpl in *.
  - exists k. split; [|done]. apply elem_of_app. left. apply elem_of_without. done.
  - exists (deactivate k). split; [|done]. apply elem_of_app. left. apply elem_of_without.
    split; [by apply list_elem_of_fmap_2|done].
  - exists k. split; [|done]. apply elem_of_without. done.
Qed.

Lemma history_keeps ops keys k :
  k ∈ keys → Forall (λ op, touches op ≠ id k) ops →
  ∃ k', k' ∈ history ops keys ∧ id k' = id k ∧ secret k' = secret k.
Proof.
  revert keys k. induction ops as [|op ops IH]; intros keys k Hk Ht; [by exists k|].
  apply Forall_cons in Ht as [Hop Ht]. destruct (apply_op_keeps op keys k Hk Hop) as (k1 & Hk1 & Ei & Es).
  destruct (IH _ k1 Hk1) as (k2 & Hk2 & Ei2 & Es2); [by rewrite Ei|]. exists k2. simpl. split; [done|].
  by rewrite Ei2, Es2.
Qed.

Lemma active_key_elem keys k : active_key keys = Some k → k ∈ keys ∧ active k = true.
Proof. intros [Hi Ha]%find_some. split; [|done]. apply in_rev in Hi. by apply list_elem_of_In. Qed.

Section Theorems.
Context `{CL : CryptoLaws}.

Lemma signature_splits d : split_once "=" ("sha256=" +:+ d)%string = Some ("sha256"%string, d).
Proof. done. Qed.

(** C21. A signature of the manager is accepted by it within the skew, whatever
    keys are added, rotated in and removed in between, as long as they are
    others. *)
Theorem sign_verify_roundtrip made later ts now skew payload r :
  sign (history made []) ts payload = Ok r →
  Forall (λ op, touches op ≠ key_id r) later → Z.abs (now - ts) ≤ skew →
  verify (history later (history made [])) (key_id r) (timestamp r) payload (signature_header r) skew now = Ok ().
Proof.
  intros Hs Hl Hskew. unfold sign in Hs. destruct (active_key _) as [k|] eqn:Ea; [|done].
  injection Hs as <-. simpl in *. apply active_key_elem in Ea as [Hk _].
  destruct (history_keeps later _ k Hk Hl) as (k' & Hk' & Ei & Es).
  assert (NoDup (map id (history later (history made [])))) as Hn by (do 2 apply ids_distinct; constructor).
  unfold verify. rewrite <- Ei. rewrite (proj2 (find_key_iff _ k' Hn) Hk').
  replace (skew <? _) with false by lia. rewrite signature_splits. simpl. by rewrite Es, String.eqb_refl.
Qed.

(** After a rotation only the new key signs. *)
Lemma rotate_signs made k ts payload :
  active k = true →
  sign (rotate k (history made [])) ts payload =
  Ok (mkSigned ("sha256=" +:+ compute_signature (secret k) ts payload) (id k) ts "hmac-sha256")%string.
Proof. intros Ha. unfold sign, active_key, rotate. rewrite rev_app_distr. simpl. by rewrite Ha. Qed.

(** Removing the key rotated in leaves a manager that signs nothing. *)
Lemma remove_active_stops_signing made k ts payload :
  sign (remove_key (id k) (rotate k (history made []))) ts payload = Err NoActiveKey.
Proof.
  unfold sign. destruct (active_key _) as [x|] eqn:E; [exfalso|done].
  apply active_key_elem in E as [Hx Ha]. apply elem_of_without in Hx as [Hx Hne].
  apply elem_of_app in Hx as [Hx|Hx].
  - apply elem_of_without in Hx as [(y & -> & _)%list_elem_of_fmap _]. done.
  - apply elem_of_cons in Hx as [->|Hx]; [done|by apply elem_of_nil in Hx].
Qed.

Lemma show_u_no_dot n : string_forallb (λ a, negb (Ascii.eqb a ".")) (show_u n) = true.
Proof.
  apply dec_fixed_forall. intros d Hd. apply negb_true_iff, Ascii.eqb_neq.
  intros E. pose proof (digit_char_code d Hd) as Hc. rewrite E in Hc. change (46 = 48 + d) in Hc. lia.
Qed.

(** The signed bytes determine the time and the payload. *)
Lemma message_inj ts p ts' p' : in_u 64 ts → in_u 64 ts' → message ts p = message ts' p' → ts = ts' ∧ p = p'.
Proof.
  intros Ht Ht' E. apply (f_equal (split_once ".")) in E. unfold message in E.
  rewrite !split_once_app in E by apply show_u_no_dot. injection E as E ->. split; [|done]. by apply show_u_inj.
Qed.

(** A signature is accepted for nothing else: if the manager, after any
    history, accepts the signature of a time and payload for a time and
    payload, they are the same under the same key block, or two different
    inputs with one HMAC have been found; and the time is within the skew. *)
Theorem signature_binds made later ts ts' payload payload' i now skew r :
  in_u 64 ts → in_u 64 ts' →
  sign (history made []) ts payload = Ok r →
  verify (history later (history made [])) i ts' payload' (signature_header r) skew now = Ok () →
  Z.abs (now - ts') ≤ skew ∧
  ∃ k k', k ∈ history made [] ∧ active k = true ∧ id k = key_id r ∧
          k' ∈ history later (history made []) ∧ id k' = i ∧
          (ts' = ts ∧ payload' = payload ∧ key_block (secret k') = key_block (secret k) ∨
           collision (key_block (secret k), message ts payload) (key_block (secret k'), message ts' payload')).
Proof.
  intros Ht Ht' Hs Hv. unfold sign in Hs. destruct (active_key _) as [k|] eqn:Ea; [|done].
  injection Hs as <-. apply active_key_elem in Ea as [Hk Ha]. unfold verify in Hv.
  destruct (find_key i _) as [k'|] eqn:Ef; [|done]. destruct (Z.ltb_spec skew (Z.abs (now - ts'))); [done|].
  split; [done|]. cbn [signature_header] in Hv. rewrite signature_splits in Hv. simpl in Hv.
  destruct (String.eqb_spec (compute_signature (secret k') ts' payload') (compute_signature (secret k) ts payload))
    as [E|]; [|done].
  apply find_some in Ef as [Hk' Hi]. apply String.eqb_eq in Hi. exists k, k'.
  split_and!; try done; [by apply list_elem_of_In|].
  unfold compute_signature in E. apply hex_encode_inj in E.
  destruct (decide ((key_block (secret k), message ts payload) = (key_block (secret k'), message ts' payload')))
    as [[= Eb Em]|Hne]; [left|right; by split].
  apply message_inj in Em as [-> ->]; [|done|done]. by split_and!.
Qed.

(** Subscribers accept what webhook.rs sends, whichever of their secrets it
    was signed with. *)
Lemma posted_signature_verifies key body primary fallback :
  key ∈ primary ++ fallback →
  verify_signature_with_rotation ("sha256=" +:+ sign_payload key body) body primary fallback = Ok ().
Proof.
  intros Hk.
  assert (∀ l, key ∈ l → any_verifies ("sha256=" +:+ sign_payload key body) body l = true) as Hany.
  { induction l as [|s l IH]; [intros Hi; by apply elem_of_nil in Hi|]. intros [<-|Hi]%elem_of_cons; simpl.
    - unfold verify_signature. rewrite signature_splits. simpl. rewrite new_from_slice_ok. unfold sign_payload.
      by rewrite String.eqb_refl.
    - rewrite IH by done. apply orb_true_r. }
  unfold verify_signature_with_rotation. apply elem_of_app in Hk as [Hk|Hk]; [by rewrite Hany|].
  rewrite (Hany fallback) by done. by destruct (any_verifies _ _ primary).
Qed.

Lemma message_longer ts p : message ts p ≠ p.
Proof.
  intros E. apply (f_equal String.length) in E. unfold message in E. rewrite string_length_app in E. simpl in E. lia.
Qed.

(** The key manager signs the time too, which webhook_verification.rs does not
    know: a subscriber with the right secret rejects its signatures (unless
    they collide). *)
Theorem subscriber_rejects_manager keys ts payload r :
  sign keys ts payload = Ok r →
  ∃ k, k ∈ keys ∧
    (verify_signature (signature_header r) (secret k) payload =
     Err "Signature verification failed: digest mismatch"%string ∨
     collision (key_block (secret k), message ts payload) (key_block (secret k), payload)).
Proof.
  unfold sign. destruct (active_key keys) as [k|] eqn:Ea; [|done]. intros [= <-].
  apply active_key_elem in Ea as [Hk _]. exists k. split; [done|]. unfold verify_signature.
  cbn [signature_header]. rewrite signature_splits. simpl. rewrite new_from_slice_ok. unfold compute_signature.
  destruct (String.eqb_spec (hex_encode (hmac_sha256 (secret k) (message ts payload)))
                            (hex_encode (hmac_sha256 (secret k) payload))) as [E|]; [right|by left].
  apply hex_encode_inj in E. split; [|done]. intros [= E']. by apply message_longer in E'.
Qed.

End Theorems.

(** ** A concrete manager *)

(** A digest that keeps everything. *)
#[local] Instance demo_crypto : Crypto := {
  hmac_core := λ k m, (k +:+ m)%string;
  sha256 := String.substring 0 32;
  hex_encode := λ s, s;
  new_from_slice_mac := λ k m, Some (normalise (String.substring 0 32) k +:+ m)%string;
}.

#[local] Instance demo_crypto_laws : CryptoLaws demo_crypto.
Proof. by split. Qed.

Definition demo_made : list KeyOp := [AddKey (new_key 900 "key-1" "old-secret")]%string.
Definition demo_later : list KeyOp := [Rotate (new_key 1050 "key-2" "new-secret"); RemoveKey "key-0"]%string.
Definition demo_signed : SignedRequest :=
  mkSigned ("sha256=" +:+ compute_signature "old-secret" 1000 "payload")%string "key-1" 1000 "hmac-sha256".

Lemma sign_verify_roundtrip_witness :
  sign (history demo_made []) 1000 "payload" = Ok demo_signed ∧
  verify (history demo_later (history demo_made [])) "key-1" 1000 "payload" (signature_header demo_signed) 300 1200 = Ok ().
Proof.
  split; [reflexivity|]. apply (sign_verify_roundtrip demo_made demo_later 1000 1200 300 "payload" demo_signed).
  - reflexivity.
  - repeat constructor; discriminate.
  - vm_compute. discriminate.
Defined.

Lemma signature_binds_witness :
  verify (history demo_later (history demo_made [])) "key-1" 1000 "payload" (signature_header demo_signed) 300 1200 = Ok () ∧
  Z.abs (1200 - 1000) ≤ 300.
Proof.
  assert (verify (history demo_later (history demo_made [])) "key-1" 1000 "payload" (signature_header demo_signed) 300 1200
          = Ok ()) as Hv by reflexivity.
  split; [exact Hv|].
  refine (proj1 (signature_binds demo_made demo_later 1000 1000 "payload" "payload" "key-1" 1200 300 demo_signed _ _ _ Hv)).
  - split; [lia|reflexivity].
  - split; [lia|reflexivity].
  - reflexivity.
Defined.

End Signing.
