(* ===== verification/Webhook.v ===== *)
(** webhook.rs: webhook delivery with the retry policy, per-endpoint rate
    limits and backoff, failover, the dead-letter queue and its replay.

    HTTP, HMAC, SHA-256 and serde's derived serialization of an event are
    parameters.  The request log, spawned on the side, is not modelled. *)

From S2P Require Import Prelude Text F64 Model Pg RetryPolicy Signing.

Module Webhook.

(** ** Tables; times are in microseconds *)

(** A row of [rate_limit_endpoints], keyed by its URL. *)
Record Endpoint : Type := mkEndpoint {
  per_minute_limit : Z;
  window_start : Z;
  window_count : Z;
  consecutive_failures : Z;
  backoff_until : option Z;
  health_status : string;
}.

(** A row of [webhook_retry_queue]. *)
Record RetryRow : Type := mkRetryRow {
  rr_url : string;
  rr_payload : Value;
  rr_secret_hash : option string;
  rr_next_retry_at : Z;
  rr_last_error : string;
}.

(** A row of [webhook_failures]. *)
Record FailureRow : Type := mkFailureRow {
  wf_url : string;
  wf_payload : Value;
  wf_attempts : Z;
  wf_last_error : string;
  wf_next_retry_at : Z;
}.

(** A row of [webhook_dlq]. *)
Record DlqRow : Type := mkDlqRow {
  dlq_id : Z;
  dlq_subscription_id : Z;
  dlq_event_id : Z;
  dlq_payload : Value;
  dlq_last_error : option string;
  dlq_failed_at : Z;
  replayed_at : option Z;
}.

(** A row of [notification_acknowledgments]. *)
Record AckRow : Type := mkAck {
  ack_contract_id : string;
  ack_event_type : string;
  ack_priority : string;
}.

Record Db : Type := mkDb {
  suppressed : list (string * option Z);
  endpoints : gmap string Endpoint;
  retry_queue : list RetryRow;
  failures : list FailureRow;
  dlq : list DlqRow;
  acks : list AckRow;
}.

Definition with_endpoints (m : gmap string Endpoint) (d : Db) : Db :=
  mkDb (suppressed d) m (retry_queue d) (failures d) (dlq d) (acks d).
Definition with_retry_queue (l : list RetryRow) (d : Db) : Db :=
  mkDb (suppressed d) (endpoints d) l (failures d) (dlq d) (acks d).
Definition with_failures (l : list FailureRow) (d : Db) : Db :=
  mkDb (suppressed d) (endpoints d) (retry_queue d) l (dlq d) (acks d).
Definition with_dlq (l : list DlqRow) (d : Db) : Db :=
  mkDb (suppressed d) (endpoints d) (retry_queue d) (failures d) l (acks d).
Definition with_acks (l : list AckRow) (d : Db) : Db :=
  mkDb (suppressed d) (endpoints d) (retry_queue d) (failures d) (dlq d) l.

(** ** Outside functions *)

Record Post : Type := mkPost { p_url : string; p_headers : list (string * string); p_body : string }.

(** An answer: status and body, or the error's text. *)
Definition answer : Type := result (Z * string) string.

Inductive Ev : Type := Posted (p : Post) (a : answer).

Record Env : Type := mkEnv {
  pg : PgEnv;
  http_post : nat → Post → answer;
  status_text : Z → string;
  crypto : Signing.Crypto;
  sha256_hex : string → string;
  event_to_value : SorobanEvent → Value;
  event_from_value : Value → option SorobanEvent;
  to_vec : Value → string;
  event_to_vec : SorobanEvent → string;
  (** PostgreSQL's treatment of a text parameter in a uuid column. *)
  text_as_uuid : string → result Z string;
  new_uuid : Z → Z;
  jitter : Z → Z;
}.

(** ** Priorities *)

Fixpoint trim_prefix (fuel : nat) (p s : string) : string :=
  match fuel with
  | O => s
  | S f => if String.prefix p s then trim_prefix f p (String.substring (String.length p) (String.length s) s) else s
  end.

(** [str::trim_start_matches]: each removal shortens the string. *)
Definition trim_start_matches (p s : string) : string := trim_prefix (String.length s) p s.

Fixpoint walk (segments : list string) (v : Value) : option Value :=
  match segments with
  | [] => Some v
  | k :: rest => let! v := value_get v k in walk rest v
  end.

Definition path_segments (path : string) : list string :=
  List.filter (λ s, negb (is_empty s)) (split_on "." (trim_start_matches "$." path)).

(** [evaluate_priority]. *)
Definition evaluate_priority (event : SorobanEvent) (rule_path rule_value rule_priority : option string)
    (default_priority : string) : string :=
  match rule_path, rule_value, rule_priority with
  | Some path, Some expected, Some priority =>
      match walk (path_segments path) (ev_value event) with
      | None => default_priority
      | Some current =>
          if bool_decide (as_str current = Some expected) then priority else default_priority
      end
  | _, _, _ => default_priority
  end.

Section Webhook.
Variable env : Env.

Local Abbreviation M := (Pg.M Db Ev).
Local Abbreviation stmt := (Pg.stmt (pg env)).
Local Abbreviation query := (Pg.query (pg env)).
Local Abbreviation execute := (Pg.execute (pg env)).
Local Abbreviation clock := (Pg.clock (pg env)).

Definition second_us : Z := 1000000.

(** A statement whose failure is only logged. *)
Definition best_effort {A} (m : M string A) : M string () := attempt (E := string) m ;; mret ().

(** ** Per-endpoint limits *)

(** The upsert of [endpoint_rate_limited]: limit, count and backoff of the row. *)
Definition touch_endpoint (url : string) (t : Z) (d : Db) : result (Z * Z * option Z * Db) string :=
  match endpoints d !! url with
  | None =>
      let e := mkEndpoint 60 t 1 0 None "healthy" in
      Ok (60, 1, None, with_endpoints (<[url := e]> (endpoints d)) d)
  | Some e =>
      let expired := window_start e <? t - 60 * second_us in
      let count := if expired then 1 else window_count e + 1 in
      if 2 ^ 31 <=? count then Err "integer out of range"%string
      else
        let e' := mkEndpoint (per_minute_limit e) (if expired then t else window_start e) count
                    (consecutive_failures e) (backoff_until e) (health_status e) in
        Ok (per_minute_limit e, count, backoff_until e, with_endpoints (<[url := e']> (endpoints d)) d)
  end.

(** Whether a request must wait, from what the upsert returned. *)
Definition must_wait (limit count : Z) (backoff : option Z) (now : Z) : option Z :=
  match backoff with
  | Some b => if now <? b then Some b else if limit <? count then Some (now + 60 * second_us) else None
  | None => if limit <? count then Some (now + 60 * second_us) else None
  end.

Definition endpoint_rate_limited (url : string) : M string (option Z) :=
  row ← stmt (touch_endpoint url);
  let '(limit, count, backoff) := row in
  now ← clock;
  mret (must_wait limit count backoff now).

Definition record_endpoint_success (url : string) : M string () :=
  best_effort (execute (λ _ d, with_endpoints (alter (λ e,
    mkEndpoint (per_minute_limit e) (window_start e) (window_count e) 0 None "healthy") url (endpoints d)) d)).

(** [LEAST(900, POWER(2, LEAST(failures, 10))::int)]. *)
Definition backoff_secs (failures : Z) : Z := Z.min 900 (2 ^ Z.min failures 10).

(** The statement is refused, and only logged, when the column would overflow. *)
Definition failed_endpoint (t : Z) (e : Endpoint) : Endpoint :=
  let n := consecutive_failures e + 1 in
  if 2 ^ 31 <=? n then e else
  mkEndpoint (per_minute_limit e) (window_start e) (window_count e) n
    (Some (t + backoff_secs n * second_us)) (if 3 <=? n then "unhealthy" else "degraded").

Definition record_endpoint_failure (url : string) : M string Z :=
  now ← clock;
  best_effort (execute (λ t d, with_endpoints (alter (failed_endpoint t) url (endpoints d)) d)) ;;
  mret (now + 60 * second_us).

Definition enqueue_endpoint_retry (url : string) (event : SorobanEvent) (secret : option string)
    (reason : string) (next_retry_at : Z) : M string () :=
  let row := mkRetryRow url (event_to_value env event) (sha256_hex env <$> secret) next_retry_at reason in
  best_effort (execute (λ _ d, with_retry_queue (retry_queue d ++ [row]) d)).

(** ** The dead-letter queue *)

Definition pending_dlq (r : DlqRow) : bool := match replayed_at r with None => true | Some _ => false end.

(** [refresh_dlq_depth] only sets a gauge. *)
Definition refresh_dlq_depth : M string () :=
  best_effort (query (λ _ d, length (List.filter pending_dlq (dlq d)))).

(** [enqueue_dlq]: both columns are uuids that may not be null. *)
Definition enqueue_dlq (subscription_id : option Z) (event : SorobanEvent) (last_error : string) : M string Z :=
  id ← stmt (λ t d,
    match text_as_uuid env (ev_tx_hash event), subscription_id with
    | Err e, _ => Err e
    | Ok _, None => Err "null value in column subscription_id violates not-null constraint"%string
    | Ok event_id, Some sub =>
        let id := new_uuid env t in
        Ok (id, with_dlq (dlq d ++ [mkDlqRow id sub event_id (event_to_value env event) (Some last_error) t None]) d)
    end);
  refresh_dlq_depth ;;
  mret id.

Definition replay_dlq_entry (id : Z) : M string bool :=
  row ← query (λ _ d, List.find (λ r, (dlq_id r =? id) && pending_dlq r) (dlq d));
  match row with
  | None => mret false
  | Some row =>
      match event_from_value env (dlq_payload row) with
      | None => mret false
      | Some event =>
          now ← clock;
          enqueue_endpoint_retry (ev_contract_id event) event None
            (default "replayed from DLQ"%string (dlq_last_error row)) now ;;
          execute (λ t d, with_dlq (map (λ r, if dlq_id r =? id then
              mkDlqRow (dlq_id r) (dlq_subscription_id r) (dlq_event_id r) (dlq_payload r) (dlq_last_error r)
                (dlq_failed_at r) (Some t) else r) (dlq d)) d) ;;
          refresh_dlq_depth ;;
          mret true
      end
  end.

Fixpoint replay_all (ids : list Z) (replayed : Z) : M string Z :=
  match ids with
  | [] => mret replayed
  | id :: rest =>
      r ← attempt (E := string) (replay_dlq_entry id);
      replay_all rest (match r with Ok true => replayed + 1 | _ => replayed end)
  end.

Definition replay_dlq_bulk (subscription_id : option Z) : M string Z :=
  ids ← query (λ _ d, map dlq_id (List.filter (λ r, pending_dlq r &&
    match subscription_id with Some sub => dlq_subscription_id r =? sub | None => true end) (dlq d)));
  replayed ← replay_all ids 0;
  refresh_dlq_depth ;;
  mret replayed.

(** ** Delivery *)

Definition is_success (status : Z) : bool := (200 <=? status) && (status <? 300).

(** [execute_with_retry] over the effects of this component. *)
Definition with_policy (p : RetryPolicy.RetryPolicy) (op : Z → M string ()) : M string (result () string) := λ s,
  match RetryPolicy.execute_with_retry p op (jitter env) s with
  | Some (r, s', _) => (Ok r, s')
  | None => (Err "out of fuel"%string, s)
  end.

Definition send (req : Post) (outcome : answer → result () string) : M string () :=
  a ← call (λ n, http_post env n req) (Posted req);
  of_result (outcome a).

Definition delivery_outcome (a : answer) : result () string :=
  match a with
  | Ok (status, body) => if is_success status then Ok () else Err ("HTTP " +:+ show_i status +:+ ": " +:+ body)%string
  | Err e => Err ("Request error: " +:+ e)%string
  end.

Definition failover_outcome (a : answer) : result () string :=
  match a with
  | Ok (status, _) => if is_success status then Ok () else Err ("HTTP " +:+ status_text env status)%string
  | Err e => Err ("Request error: " +:+ e)%string
  end.

Definition signature_header (secret : option string) (body : string) : list (string * string) :=
  match secret with
  | Some s => [("X-Signature-256", "sha256=" +:+ Signing.sign_payload (H := crypto env) s body)]%string
  | None => []
  end.

Definition delivery_request (url : string) (secret : option string) (event : SorobanEvent) (priority : string) : Post :=
  let payload := object_insert "priority" (VString priority) (event_to_value env event) in
  let body := to_vec env payload in
  mkPost url ([("Content-Type", "application/json"); ("X-Notification-Priority", priority)]%string ++
              signature_header secret body) body.

Definition is_suppressed (url : string) (t : Z) (d : Db) : bool :=
  existsb (λ r, String.eqb r.1 url && match r.2 with None => true | Some e => t <? e end) (suppressed d).

(** [deliver_with_retry_policy] with a pool. *)
Definition deliver_with_retry_policy (url : string) (secret : option string) (event : SorobanEvent)
    (policy : RetryPolicy.RetryPolicy) (priority : string) : M string () :=
  sup ← attempt (E := string) (query (is_suppressed url));
  if match sup with Ok b => b | Err _ => false end then mret () else
  limited ← attempt (E := string) (endpoint_rate_limited url);
  match limited with
  | Ok (Some next_retry_at) => enqueue_endpoint_retry url event secret "endpoint rate limited" next_retry_at
  | _ =>
      result ← with_policy policy (λ _, send (delivery_request url secret event priority) delivery_outcome);
      match result with
      | Ok _ =>
          record_endpoint_success url ;;
          best_effort (execute (λ _ d,
            with_acks (acks d ++ [mkAck (ev_contract_id event) (ev_event_type event) priority]) d))
      | Err error_msg =>
          next_retry ← record_endpoint_failure url;
          best_effort (execute (λ _ d, with_failures (failures d ++
            [mkFailureRow url (event_to_value env event) (wrap_i 32 (RetryPolicy.max_attempts policy)) error_msg
               next_retry]) d)) ;;
          best_effort (enqueue_dlq None event error_msg)
      end
  end.

Definition deliver (url : string) (secret : option string) (event : SorobanEvent) : M string () :=
  deliver_with_retry_policy url secret event RetryPolicy.webhook_default "medium".

Definition failover_request (url : string) (secret : option string) (event : SorobanEvent) : Post :=
  let body := event_to_vec env event in
  mkPost url (("Content-Type", "application/json")%string :: signature_header secret body) body.

(** [deliver_with_failover] with a pool. *)
Definition deliver_with_failover (primary_url : string) (primary_secret : option string)
    (failover_url failover_secret : option string) (event : SorobanEvent) (policy : RetryPolicy.RetryPolicy) :
    M string bool :=
  primary ← with_policy policy (λ _, send (failover_request primary_url primary_secret event) failover_outcome);
  if is_ok primary then mret true else
  second ← match failover_url with
           | Some f_url => with_policy policy (λ _, send (failover_request f_url failover_secret event) failover_outcome)
           | None => mret (Err EmptyString)
           end;
  if is_ok second then mret true else
  now ← clock;
  best_effort (execute (λ _ d, with_failures (failures d ++
    [mkFailureRow primary_url (event_to_value env event) (wrap_i 32 (RetryPolicy.max_attempts policy))
       "Primary and failover both failed" (now + 60 * second_us)]) d)) ;;
  best_effort (enqueue_dlq None event "Primary and failover both failed") ;;
  mret false.

(** ** Lemmas *)

Lemma with_policy_run p op s :
  ∃ n r s',
    with_policy p op s = (Ok r, s') ∧ RetryPolicy.run_attempts op n 1 s r s' ∧
    Z.of_nat n ≤ RetryPolicy.effective_attempts p ∧
    (is_ok r = true ∨ Z.of_nat n = RetryPolicy.effective_attempts p).
Proof.
  unfold with_policy, RetryPolicy.execute_with_retry.
  destruct (RetryPolicy.retry_loop_spec p op (jitter env) (Z.to_nat (RetryPolicy.effective_attempts p)) 1 s)
    as (n & r & s' & -> & Hrun & Hle & Hend); [unfold RetryPolicy.effective_attempts; lia..|].
  exists n, r, s'. split_and!; [done|done|lia|]. destruct Hend; [by left|right; lia].
Qed.

(** A run of sends: failures, then a last answer that gives the result. *)
Lemma send_run req outcome n a s r s' :
  RetryPolicy.run_attempts (λ _, send req outcome) n a s r s' →
  ∃ errs last,
    n = S (length errs) ∧ Forall (λ x, is_ok (outcome x) = false) errs ∧ outcome last = r ∧
    trace s' = trace s ++ map (Posted req) (errs ++ [last]) ∧ db s' = db s.
Proof.
  induction 1 as [a s r s' E|n a s e s1 r s' E _ IH].
  - unfold send, mbind, M_bind, call, of_result in E. injection E as Er Es.
    exists [], (http_post env (ops s) req). by subst s'.
  - unfold send, mbind, M_bind, call, of_result in E. injection E as Er Es.
    destruct IH as (errs & last & -> & Hf & Hl & Ht & Hd). exists (http_post env (ops s) req :: errs), last.
    subst s1. simpl in *. split_and!; try done.
    + constructor; [by rewrite Er|done].
    + by rewrite Ht, <- app_assoc.
Qed.

(** A policy run of sends: what it sent and how it ended. *)
Lemma policy_sends p req outcome s :
  ∃ errs r s',
    with_policy p (λ _, send req outcome) s = (Ok r, s') ∧ db s' = db s ∧
    Forall (λ x, is_ok (outcome x) = false) errs ∧
    match r with
    | Ok _ => ∃ last, outcome last = r ∧ trace s' = trace s ++ map (Posted req) (errs ++ [last]) ∧
                      Z.of_nat (length errs) < RetryPolicy.effective_attempts p
    | Err e => trace s' = trace s ++ map (Posted req) errs ∧
               Z.of_nat (length errs) = RetryPolicy.effective_attempts p ∧
               ∃ a, last errs = Some a ∧ outcome a = Err e
    end.
Proof.
  destruct (with_policy_run p (λ _, send req outcome) s) as (n & r & s' & E & Hrun & Hle & Hend).
  destruct (send_run _ _ _ _ _ _ _ Hrun) as (errs & a & -> & Hf & Ha & Ht & Hd). destruct r as [[]|e].
  - exists errs, (Ok ()), s'. split_and!; try done. exists a. split_and!; [done|done|lia].
  - destruct Hend as [?|Hend]; [done|]. exists (errs ++ [a]), (Err e), s'. split_and!; try done.
    + apply Forall_app_2; [done|]. constructor; [by rewrite Ha|done].
    + rewrite length_app. simpl. lia.
    + exists a. by rewrite last_snoc.
Qed.

Lemma best_effort_execute f s :
  healthy (pg env) →
  best_effort (execute f) s = (Ok (), mkSt (f (now (pg env) (ops s)) (db s)) (S (ops s)) (trace s)).
Proof. intros Hh. unfold best_effort, attempt, mbind, M_bind. by rewrite execute_healthy. Qed.

(** Without a subscription the dead-letter row is refused. *)
Lemma enqueue_dlq_none event e s :
  ∃ n, best_effort (enqueue_dlq None event e) s = (Ok (), mkSt (db s) n (trace s)).
Proof.
  exists (S (ops s)). unfold best_effort, attempt, enqueue_dlq, mbind, M_bind, stmt.
  destruct (db_fault _ _); [done|]. by destruct (text_as_uuid env (ev_tx_hash event)).
Qed.

(** The check of the endpoint changes nothing but its row. *)
Lemma endpoint_check url s :
  ∃ r s', endpoint_rate_limited url s = (r, s') ∧ trace s' = trace s ∧
          ∃ m, db s' = with_endpoints m (db s).
Proof.
  unfold endpoint_rate_limited, touch_endpoint, mbind, M_bind, stmt, clock.
  assert (∀ d, d = with_endpoints (endpoints d) d) as Hd by (by intros []).
  repeat case_match; simplify_eq; eexists _, _; (split; [reflexivity|]); (split; [done|]); simpl; eauto.
Qed.

End Webhook.

(** ** Delivery *)

(** The ways a delivery ends, from the tables and trace before and after it. *)
Inductive delivered (env : Env) (url : string) (event : SorobanEvent) (req : Post) (limit : Z)
    (d : Db) (tr : list Ev) : Db → list Ev → Prop :=
| queued d' row :
    rr_url row = url → rr_payload row = event_to_value env event →
    retry_queue d' = retry_queue d ++ [row] → failures d' = failures d → acks d' = acks d →
    delivered env url event req limit d tr d' tr
| sent d' errs a ack :
    Forall (λ x, is_ok (delivery_outcome x) = false) errs → delivery_outcome a = Ok () →
    Z.of_nat (length errs) < limit →
    retry_queue d' = retry_queue d → failures d' = failures d → acks d' = acks d ++ [ack] →
    delivered env url event req limit d tr d' (tr ++ map (Posted req) (errs ++ [a]))
| exhausted d' errs a row :
    Forall (λ x, is_ok (delivery_outcome x) = false) errs → Z.of_nat (length errs) = limit →
    last errs = Some a → delivery_outcome a = Err (wf_last_error row) →
    wf_url row = url → wf_payload row = event_to_value env event →
    retry_queue d' = retry_queue d → failures d' = failures d ++ [row] → acks d' = acks d →
    delivered env url event req limit d tr d' (tr ++ map (Posted req) errs).

(** C18. Every delivery with a working database is accounted for.  It is skipped
    exactly when the URL is suppressed.  Otherwise it is queued, because the
    endpoint is limited or backing off; or sent until the first success and
    acknowledged; or sent exactly max(max_attempts, 1) times, each a failure,
    and entered once in the failures.  The dead-letter queue never gets an
    entry: the delivery names no subscription, which the table requires. *)
Theorem webhook_delivery_accounted env url secret event policy priority s :
  healthy (pg env) →
  let s' := (deliver_with_retry_policy env url secret event policy priority s).2 in
  (if is_suppressed url (now (pg env) (ops s)) (db s) then view s' = view s
   else delivered env url event (delivery_request env url secret event priority)
          (RetryPolicy.effective_attempts policy) (db s) (trace s) (db s') (trace s')) ∧
  dlq (db s') = dlq (db s).
Proof.
  intros Hh s'. subst s'. unfold deliver_with_retry_policy.
  set (sup := is_suppressed url (now (pg env) (ops s)) (db s)).
  rewrite (bind_ok _ _ s (Ok sup) (mkSt (db s) (S (ops s)) (trace s))).
  2: { unfold attempt. by rewrite query_healthy. }
  destruct sup; [done|]. set (s1 := mkSt _ _ _).
  destruct (endpoint_check env url s1) as (r & s2 & E & Ht & m & Hd).
  rewrite (bind_ok _ _ s1 r s2) by (unfold attempt; by rewrite E).
  set (req := delivery_request env url secret event priority).
  assert (∀ r', r = r' → (match r' with Ok (Some _) => False | _ => True end) →
    let s' := ((result ← with_policy env policy (λ _, send env req delivery_outcome);
      match result with
      | Ok _ => record_endpoint_success env url ;;
          best_effort (execute (pg env) (λ _ d,
            with_acks (acks d ++ [mkAck (ev_contract_id event) (ev_event_type event) priority]) d))
      | Err error_msg =>
          next_retry ← record_endpoint_failure env url;
          best_effort (execute (pg env) (λ _ d, with_failures (failures d ++
            [mkFailureRow url (event_to_value env event) (wrap_i 32 (RetryPolicy.max_attempts policy)) error_msg
               next_retry]) d)) ;;
          best_effort (enqueue_dlq env None event error_msg)
      end) s2).2 in
    delivered env url event req (RetryPolicy.effective_attempts policy) (db s) (trace s) (db s') (trace s') ∧
    dlq (db s') = dlq (db s)) as Hsend.
  { intros _ _ _. destruct (policy_sends env policy req delivery_outcome s2) as (errs & r3 & s3 & E3 & Hd3 & Hf & Hr).
    rewrite (bind_ok _ _ s2 r3 s3) by done. rewrite Ht in Hr. rewrite Hd in Hd3. simpl in Hd3. destruct r3 as [[]|e].
    - destruct Hr as (a & Ha & Ht3 & Hlt). unfold record_endpoint_success.
      rewrite (bind_ok _ _ s3 _ _ (best_effort_execute env _ s3 Hh)), best_effort_execute by done.
      simpl. rewrite Ht3, Hd3. split; [|done]. by econstructor.
    - destruct Hr as (Ht3 & Hlen & a & Hlast & Ha). unfold record_endpoint_failure.
      set (s4 := mkSt (with_endpoints (alter (failed_endpoint (now (pg env) (S (ops s3)))) url (endpoints (db s3)))
                         (db s3)) (S (S (ops s3))) (trace s3)).
      rewrite (bind_ok _ _ s3 (now (pg env) (ops s3) + 60 * second_us) s4).
      2: { unfold mbind, M_bind, clock. by rewrite best_effort_execute. }
      rewrite (bind_ok _ _ s4 _ _ (best_effort_execute env _ s4 Hh)).
      match goal with |- context [best_effort (enqueue_dlq env None event e) ?s5] =>
        destruct (enqueue_dlq_none env event e s5) as [n En]; rewrite En end.
      simpl. rewrite Ht3, Hd3. split; [|done].
      eapply exhausted with (a := a) (row := mkFailureRow url (event_to_value env event) _ e _); done. }
  destruct r as [[next|]|e]; [|by eapply Hsend..].
  unfold enqueue_endpoint_retry. rewrite best_effort_execute by done. simpl. rewrite Ht, Hd.
  split; [|done].
  eapply queued with (row := mkRetryRow url (event_to_value env event) _ _ _); done.
Qed.

(** Failover: the result says whether one of the two endpoints answered with a
    success.  The second is tried only after the first has failed in every
    attempt, with the same limit; when both fail, or there is no second, one
    failure is recorded against the first.  The dead-letter queue gets nothing. *)
Theorem deliver_with_failover_spec env url secret f_url f_secret event policy s :
  healthy (pg env) →
  let r := (deliver_with_failover env url secret f_url f_secret event policy s).1 in
  let s' := (deliver_with_failover env url secret f_url f_secret event policy s).2 in
  let limit := RetryPolicy.effective_attempts policy in
  let req := failover_request env url secret event in
  let bad := λ a, is_ok (failover_outcome env a) = false in
  let good := λ a, failover_outcome env a = Ok () in
  dlq (db s') = dlq (db s) ∧
  ((∃ errs a, Forall bad errs ∧ good a ∧ Z.of_nat (length errs) < limit ∧
      r = Ok true ∧ db s' = db s ∧ trace s' = trace s ++ map (Posted req) (errs ++ [a])) ∨
   ∃ errs, Forall bad errs ∧ Z.of_nat (length errs) = limit ∧
     ((∃ f errs' a, f_url = Some f ∧ Forall bad errs' ∧ good a ∧ Z.of_nat (length errs') < limit ∧
         r = Ok true ∧ db s' = db s ∧
         trace s' = (trace s ++ map (Posted req) errs) ++
                    map (Posted (failover_request env f f_secret event)) (errs' ++ [a])) ∨
      (∃ more row, r = Ok false ∧ trace s' = (trace s ++ map (Posted req) errs) ++ more ∧
         (∀ e, e ∈ more → ∃ f a, f_url = Some f ∧ bad a ∧ e = Posted (failover_request env f f_secret event) a) ∧
         Z.of_nat (length more) = match f_url with Some _ => limit | None => 0 end ∧
         wf_url row = url ∧ db s' = with_failures (failures (db s) ++ [row]) (db s)))).
Proof.
  intros Hh r s' limit req bad good. subst r s'. unfold deliver_with_failover.
  destruct (policy_sends env policy req (failover_outcome env) s) as (errs & r1 & s1 & E1 & Hd1 & Hf1 & Hr1).
  rewrite (bind_ok _ _ s r1 s1 E1). destruct r1 as [[]|e1]; cbn [is_ok]; cbv iota.
  { destruct Hr1 as (a & Ha & Ht & Hlt). simpl. rewrite Hd1. split; [done|]. left. exists errs, a. done. }
  destruct Hr1 as (Ht1 & Hlen1 & _).
  assert (∀ n more, let s2 := mkSt (db s) n ((trace s ++ map (Posted req) errs) ++ more) in
    let m := (now ← clock (pg env);
      best_effort (execute (pg env) (λ _ d, with_failures (failures d ++
        [mkFailureRow url (event_to_value env event) (wrap_i 32 (RetryPolicy.max_attempts policy))
           "Primary and failover both failed" (now + 60 * second_us)]) d)) ;;
      best_effort (enqueue_dlq env None event "Primary and failover both failed") ;;
      mret false) s2 in
    m.1 = Ok false ∧ trace m.2 = (trace s ++ map (Posted req) errs) ++ more ∧
    ∃ row, wf_url row = url ∧ db m.2 = with_failures (failures (db s) ++ [row]) (db s)) as Hfin.
  { intros n more s2. cbv zeta. set (s3 := mkSt (db s2) (S (ops s2)) (trace s2)).
    rewrite (bind_ok _ _ s2 (now (pg env) (ops s2)) s3) by reflexivity.
    rewrite (bind_ok _ _ s3 _ _ (best_effort_execute env _ s3 Hh)). set (s4 := mkSt _ _ _).
    destruct (enqueue_dlq_none env event "Primary and failover both failed" s4) as [k En].
    rewrite (bind_ok _ _ s4 _ _ En). simpl. split_and!; [done|done|]. eexists. split; [|reflexivity]. done. }
  destruct f_url as [f|]; cbv iota.
  - destruct (policy_sends env policy (failover_request env f f_secret event) (failover_outcome env) s1)
      as (errs' & r2 & s2 & E2 & Hd2 & Hf2 & Hr2).
    rewrite (bind_ok _ _ s1 r2 s2 E2). destruct r2 as [[]|e2]; cbn [is_ok]; cbv iota.
    + destruct Hr2 as (a & Ha & Ht & Hlt). simpl. rewrite Hd2, Hd1. split; [done|]. right. exists errs.
      split_and!; [done|done|]. left. exists f, errs', a. rewrite Ht, Ht1. done.
    + destruct Hr2 as (Ht2 & Hlen2 & _).
      assert (s2 = mkSt (db s) (ops s2) ((trace s ++ map (Posted req) errs) ++
                map (Posted (failover_request env f f_secret event)) errs')) as Es2.
      { rewrite <- Ht1, <- Ht2, <- Hd1, <- Hd2. by destruct s2. }
      rewrite Es2. edestruct Hfin as (Er & Et & row & Erow & Ed). rewrite Ed. split; [done|]. right. exists errs.
      split_and!; [done|done|]. right. eexists _, row. split_and!; [exact Er|exact Et| |by rewrite length_map|done|done].
      intros e He. apply list_elem_of_In, in_map_iff in He as (a & <- & Ha). exists f, a. split_and!; [done| |done].
      rewrite Forall_forall in Hf2. by apply Hf2, list_elem_of_In.
  - rewrite (bind_ok _ _ s1 (Err EmptyString) s1) by done. cbn [is_ok]. cbv iota.
    assert (s1 = mkSt (db s) (ops s1) ((trace s ++ map (Posted req) errs) ++ [])) as Es1.
    { rewrite app_nil_r, <- Ht1, <- Hd1. by destruct s1. }
    rewrite Es1. edestruct Hfin as (Er & Et & row & Erow & Ed). rewrite Ed. split; [done|]. right. exists errs.
    split_and!; [done|done|]. right. exists [], row. split_and!; [exact Er|exact Et| |done|done|done].
    by intros e ?%elem_of_nil.
Qed.

(** ** Replay *)

Definition mark_replayed (id t : Z) (r : DlqRow) : DlqRow :=
  if dlq_id r =? id then
    mkDlqRow (dlq_id r) (dlq_subscription_id r) (dlq_event_id r) (dlq_payload r) (dlq_last_error r) (dlq_failed_at r)
      (Some t)
  else r.

Lemma find_replayed id t l :
  List.find (λ r, (dlq_id r =? id) && pending_dlq r) (map (mark_replayed id t) l) = None.
Proof.
  induction l as [|r l IH]; [done|]. simpl. unfold mark_replayed at 1 2.
  destruct (dlq_id r =? id) eqn:E; [|by rewrite E]. by rewrite andb_comm.
Qed.

(** A replay of a row that is not pending does nothing. *)
Lemma replay_not_pending env id s :
  healthy (pg env) →
  List.find (λ r, (dlq_id r =? id) && pending_dlq r) (dlq (db s)) = None →
  replay_dlq_entry env id s = (Ok false, mkSt (db s) (S (ops s)) (trace s)).
Proof.
  intros Hh Hn. unfold replay_dlq_entry. rewrite (bind_ok _ _ s _ _ (query_healthy _ _ s Hh)). by rewrite Hn.
Qed.

(** A replayed entry is queued once, for a retry now, and marked; asking again
    says [false] and changes nothing.  The request is queued under the event's
    contract id as its URL, and without the signature's secret. *)
Theorem replay_dlq_entry_once env id row event s :
  healthy (pg env) →
  List.find (λ r, (dlq_id r =? id) && pending_dlq r) (dlq (db s)) = Some row →
  event_from_value env (dlq_payload row) = Some event →
  let r := (replay_dlq_entry env id s).1 in
  let s' := (replay_dlq_entry env id s).2 in
  let again := replay_dlq_entry env id s' in
  r = Ok true ∧ trace s' = trace s ∧
  (∃ q t, db s' = with_dlq (map (mark_replayed id t) (dlq (db s))) (with_retry_queue (retry_queue (db s) ++ [q]) (db s)) ∧
          rr_url q = ev_contract_id event ∧ rr_payload q = event_to_value env event ∧ rr_secret_hash q = None ∧
          rr_last_error q = default "replayed from DLQ"%string (dlq_last_error row)) ∧
  again.1 = Ok false ∧ view again.2 = view s'.
Proof.
  intros Hh Hrow Hev r s' again.
  assert (∃ t1 t2 n, replay_dlq_entry env id s = (Ok true, mkSt (with_dlq (map (mark_replayed id t2) (dlq (db s)))
      (with_retry_queue (retry_queue (db s) ++ [mkRetryRow (ev_contract_id event) (event_to_value env event) None t1
         (default "replayed from DLQ"%string (dlq_last_error row))]) (db s))) n (trace s))) as (t1 & t2 & n & E).
  { unfold replay_dlq_entry. rewrite (bind_ok _ _ s _ _ (query_healthy _ _ s Hh)). rewrite Hrow, Hev.
    set (s1 := mkSt _ _ _). rewrite (bind_ok _ _ s1 (now (pg env) (ops s1)) (mkSt (db s1) (S (ops s1)) (trace s1))) by done.
    unfold enqueue_endpoint_retry. rewrite (bind_ok _ _ _ _ _ (best_effort_execute env _ _ Hh)).
    rewrite (bind_ok _ _ _ _ _ (execute_healthy _ _ _ Hh)).
    unfold refresh_dlq_depth, best_effort, attempt, mbind, M_bind. rewrite query_healthy by done.
    eexists _, _, _. reflexivity. }
  subst again r s'. rewrite E. simpl. rewrite replay_not_pending by (try done; apply find_replayed).
  split_and!; try done. eexists _, t2. split; [reflexivity|]. done.
Qed.

(** ** A concrete run *)

(** The first request is refused with a 503, later ones are accepted. *)
Definition demo_env : Env :=
  mkEnv (mkPgEnv (λ n, Z.of_nat n) (λ _, None)) (λ n p, if (n <=? 4)%nat then Ok (503, "busy") else Ok (200, "ok"))%string
    show_i Signing.demo_crypto (λ s, s) (λ e, Object [("contractId", VString (ev_contract_id e))]%string)
    (λ v, match v with Object _ => Some sample_event | _ => None end) (λ _, "body")%string (λ _, "body")%string
    (λ _, Ok 3) (λ _, 9) (λ _, 0).

Definition demo_db : Db :=
  mkDb [("https://off.example", None)]%string ∅ [] [] [mkDlqRow 1 2 3 (Object []) None 0 None] [].

Definition demo_policy : RetryPolicy.RetryPolicy :=
  RetryPolicy.mkPolicy 2 0 (F64.of_Z 2) 0 (Some RetryPolicy.Fixed) false.

Lemma demo_healthy : healthy (pg demo_env).
Proof. done. Qed.

Lemma webhook_delivery_accounted_witness :
  let s := mkSt demo_db 0 [] in
  let url := "https://a.example"%string in
  let s' := (deliver_with_retry_policy demo_env url None sample_event demo_policy "medium" s).2 in
  ((if is_suppressed url (now (pg demo_env) 0) (db s) then view s' = view s
    else delivered demo_env url sample_event (delivery_request demo_env url None sample_event "medium")
           (RetryPolicy.effective_attempts demo_policy) (db s) (trace s) (db s') (trace s')) ∧
   dlq (db s') = dlq (db s)) ∧
  length (trace s') = 2%nat ∧ length (failures (db s')) = 1%nat ∧ length (acks (db s')) = 0%nat.
Proof.
  split; [|vm_compute; repeat split].
  apply (webhook_delivery_accounted demo_env "https://a.example" None sample_event demo_policy "medium" (mkSt demo_db 0 [])).
  apply demo_healthy.
Defined.

Lemma deliver_with_failover_spec_witness :
  let s := mkSt demo_db 3 [] in
  let m := deliver_with_failover demo_env "https://a.example" None (Some "https://b.example"%string) None sample_event
             demo_policy s in
  dlq (db m.2) = dlq (db s) ∧ m.1 = Ok true ∧ length (trace m.2) = 3%nat.
Proof.
  pose proof (deliver_with_failover_spec demo_env "https://a.example" None (Some "https://b.example"%string) None
    sample_event demo_policy (mkSt demo_db 3 []) demo_healthy) as H.
  split; [exact (proj1 H)|]. vm_compute. repeat split.
Defined.

Lemma replay_dlq_entry_once_witness :
  let s := mkSt demo_db 0 [] in
  let r := replay_dlq_entry demo_env 1 s in
  r.1 = Ok true ∧ map rr_url (retry_queue (db r.2)) = ["C"%string] ∧ (replay_dlq_entry demo_env 1 r.2).1 = Ok false.
Proof.
  destruct (replay_dlq_entry_once demo_env 1 (mkDlqRow 1 2 3 (Object []) None 0 None) sample_event (mkSt demo_db 0 []))
    as (Hr & _ & _ & Ha & _); [apply demo_healthy|reflexivity..|].
  split_and!; [exact Hr|reflexivity|exact Ha].
Defined.

End Webhook.
