(* ===== verification/ApiParams.v ===== *)
(** The request side of the events API: query parameters and their validation
    (models/event.rs [PaginationParams], handlers/mod.rs [validate_*]),
    headers, and the opaque pagination cursors (handlers/mod.rs
    [encode_cursor_tagged] .. [decode_cursor]).

    base64 and the text form of UUIDs are parameters of the cursors. *)

From S2P Require Import Prelude Text F64 Model.

Module ApiParams.

(** ** Query parameters *)

Inductive EventType : Type := Contract | Diagnostic | System.
Inductive SortOrder : Type := Asc | Desc.
Inductive SortBy : Type := Ledger | Timestamp | CreatedAt.

#[export] Instance SortBy_eq_dec : EqDecision SortBy.
Proof. solve_decision. Defined.

Definition event_type_str (t : EventType) : string :=
  match t with Contract => "contract" | Diagnostic => "diagnostic" | System => "system" end.

Definition as_sql (o : SortOrder) : string := match o with Asc => "ASC" | Desc => "DESC" end.

Definition as_sql_col (b : SortBy) : string :=
  match b with Ledger => "ledger" | Timestamp => "timestamp" | CreatedAt => "created_at" end.

Definition as_tag (b : SortBy) : string :=
  match b with Ledger => "ledger" | Timestamp => "timestamp" | CreatedAt => "created_at" end.

(** [PaginationParams]; integers are [i64], [schema_version] an [i32]. *)
Record PaginationParams : Type := mkParams {
  page : option Z;
  limit_ : option Z;
  exact_count : option bool;
  fields : option string;
  contract_id : option string;
  contract_ids : option string;
  event_type : option EventType;
  from_ledger : option Z;
  to_ledger : option Z;
  ledger_hash : option string;
  cursor : option string;
  sort : option SortOrder;
  sort_by : option SortBy;
  in_successful_call : option bool;
  schema_version : option Z;
  anonymized : option bool;
  topic_sym : option string;
  topic_0 : option string;
  topic_1 : option string;
  topic_2 : option string;
  topic_3 : option string;
  search : option string;
  from_timestamp : option string;
  to_timestamp : option string;
  compact : option bool;
  contract_id_prefix : option string;
  format : option string;
  network : option string;
}.

Definition ALLOWED_FIELDS : list string :=
  ["id"; "contract_id"; "event_type"; "tx_hash"; "ledger"; "timestamp"; "event_data"; "event_data_normalized";
   "event_data_decoded"; "ledger_hash"; "in_successful_call"; "created_at"; "schema_version"; "anonymized";
   "asset_code"; "asset_issuer"]%string.

Definition MAX_CONTRACT_IDS_FILTER : nat := 20.

Definition mem (s : string) (l : list string) : bool := existsb (String.eqb s) l.

Definition is_lower (a : ascii) : bool := let n := nat_of_ascii a in ((97 <=? n) && (n <=? 122))%nat.
Definition is_upper (a : ascii) : bool := let n := nat_of_ascii a in ((65 <=? n) && (n <=? 90))%nat.
Definition is_digit (a : ascii) : bool := let n := nat_of_ascii a in ((48 <=? n) && (n <=? 57))%nat.
Definition is_alphanumeric (a : ascii) : bool := is_lower a || is_upper a || is_digit a.
Definition is_hexdigit (a : ascii) : bool :=
  let n := nat_of_ascii a in is_digit a || ((97 <=? n) && (n <=? 102) || (65 <=? n) && (n <=? 70))%nat.

(** [validate_column_name]. *)
Definition validate_column_name (col : string) : bool :=
  mem col ALLOWED_FIELDS && string_forallb (λ a, is_lower a || Ascii.eqb a "_") col.

(** [columns]: the error carries the unknown names. *)
Definition columns (p : PaginationParams) : result (list string) (list string * list string) :=
  match fields p with
  | Some f =>
      if is_empty (trim f) then Ok ALLOWED_FIELDS
      else
        let requested := map trim (split_on "," f) in
        match List.filter (λ s, negb (mem s ALLOWED_FIELDS)) requested with
        | [] => Ok requested
        | unknown => Err (unknown, ALLOWED_FIELDS)
        end
  | None => Ok ALLOWED_FIELDS
  end.

Definition limit (p : PaginationParams) : Z := clamp 1 100 (default 20 (limit_ p)).

(** [saturating_mul] of [i64]. *)
Definition sat_mul_i (w a b : Z) : Z := clamp (- 2 ^ (w - 1)) (i_max w) (a * b).

Definition offset (p : PaginationParams) : Z :=
  let page := Z.max (default 1 (page p)) 1 in
  sat_mul_i 64 (page - 1) (limit p).

(** ** Validation *)

Definition resolve_columns (p : PaginationParams) : result (list string) AppError :=
  result_map_err (λ '(unknown, allowed),
    Validation ("unknown fields: [" +:+ join ", " unknown +:+ "]; valid fields are: [" +:+ join ", " allowed +:+ "]")%string)
    (columns p).

Definition MAX_LEDGER : Z := u_max 32.

Definition validate_ledger_param (name : string) (value : Z) : result () AppError :=
  if (value <? 0) || (MAX_LEDGER <? value) then
    Err (Validation (name +:+ " must be in range [0, " +:+ show_i MAX_LEDGER +:+ "]")%string)
  else Ok ().

Definition bad_contract_id : AppError := Validation "invalid contract_id format".

Definition validate_contract_id (contract_id : string) : result () AppError :=
  if negb (String.length contract_id =? 56)%nat then Err bad_contract_id
  else if negb (starts_with "C" contract_id) then Err bad_contract_id
  else if negb (string_forallb is_alphanumeric contract_id) then Err bad_contract_id
  else Ok ().

Definition validate_tx_hash (tx_hash : string) : result () AppError :=
  if negb (String.length tx_hash =? 64)%nat then Err (Validation "invalid tx_hash format")
  else if negb (string_forallb is_hexdigit tx_hash) then Err (Validation "invalid tx_hash format")
  else Ok ().

(** ** Headers *)

Definition HeaderMap : Type := list (string * string).

Definition visible (a : ascii) : bool :=
  let n := nat_of_ascii a in ((32 <=? n) && (n <=? 126) || (n =? 9))%nat.

(** [headers.get(name).and_then(|h| h.to_str().ok())]; names are case-insensitive. *)
Definition header_str (name : string) (h : HeaderMap) : option string :=
  let! kv := List.find (λ kv, String.eqb (to_lowercase kv.1) name) h in
  if string_forallb visible kv.2 then Some kv.2 else None.

Definition or_else {A} (a b : option A) : option A := match a with Some _ => a | None => b end.

Definition extract_api_key_from_headers (h : HeaderMap) : option string :=
  or_else (let! s := header_str "authorization" h in strip_prefix "Bearer " s) (header_str "x-api-key" h).

Definition is_admin_request (h : HeaderMap) (admin_api_keys : list string) : bool :=
  match extract_api_key_from_headers h with
  | Some provided_key => existsb (λ expected, String.eqb expected provided_key) admin_api_keys
  | None => false
  end.

Definition accepts_ndjson (h : HeaderMap) : bool :=
  match header_str "accept" h with Some v => contains "application/x-ndjson" v | None => false end.

(** [split(',').next()]. *)
Definition first_part (s : string) : option string := head (split_on "," s).

Definition client_ip_from_headers (h : HeaderMap) : string :=
  let forwarded := let! s := header_str "x-forwarded-for" h in
                   let! f := first_part s in
                   if is_empty (trim f) then None else Some (trim f) in
  default "unknown"%string (or_else forwarded (trim <$> header_str "x-real-ip" h)).

Definition extract_client_ip (h : HeaderMap) : string :=
  let forwarded := let! s := header_str "x-forwarded-for" h in trim <$> first_part s in
  default "unknown"%string (or_else forwarded (trim <$> header_str "x-real-ip" h)).

(** ** Cursors *)

Section Cursors.
(** base64 without padding over the URL-safe alphabet, [Uuid::to_string],
    [Uuid::parse_str] and the test for a version-4 UUID. *)
Variable b64_encode : string → string.
Variable b64_decode : string → option string.
Variable utf8_valid : string → bool.
Variable show_uuid : Z → string.
Variable parse_uuid : string → option Z.
Variable is_v4 : Z → bool.

Definition invalid_cursor : AppError := Validation "invalid cursor".

Definition ok_or {A E} (e : E) (o : option A) : result A E := match o with Some x => Ok x | None => Err e end.

Definition encode_cursor_tagged (tag value : string) (id : Z) : string :=
  b64_encode (tag +:+ ":" +:+ value +:+ ":" +:+ show_uuid id)%string.

(** [splitn(3, ':')], when it gives three parts. *)
Definition splitn3 (s : string) : option (string * string * string) :=
  let! a := split_once ":" s in
  let! b := split_once ":" a.2 in
  Some (a.1, b.1, b.2).

Definition cursor_text (cursor : string) : result string AppError :=
  match b64_decode cursor with
  | Some bytes => if utf8_valid bytes then Ok bytes else Err invalid_cursor
  | None => Err invalid_cursor
  end.

Definition cursor_id (id_str : string) : result Z AppError :=
  let? id := ok_or invalid_cursor (parse_uuid id_str) in
  if is_v4 id then Ok id else Err invalid_cursor.

Definition decode_cursor_tagged (cursor : string) : result (string * string * Z) AppError :=
  let? s := cursor_text cursor in
  let? parts := ok_or (Validation "invalid cursor format") (splitn3 s) in
  let '(tag, value, id_str) := parts in
  let? id := cursor_id id_str in
  Ok (tag, value, id).

Definition encode_cursor (ledger id : Z) : string :=
  b64_encode (show_i ledger +:+ ":" +:+ show_uuid id)%string.

Definition decode_cursor (cursor : string) : result (Z * Z) AppError :=
  let? s := cursor_text cursor in
  let? parts := ok_or invalid_cursor (split_once ":" s) in
  let? ledger := ok_or invalid_cursor (parse_i 64 parts.1) in
  if ledger <=? 0 then Err invalid_cursor
  else if u_max 32 <? ledger then Err invalid_cursor
  else
    let? id := cursor_id parts.2 in
    Ok (ledger, id).

(** *** What the crates promise *)

Definition no_colon (s : string) : bool := string_forallb (λ a, negb (Ascii.eqb a ":")) s.

Record CursorLaws : Prop := {
  b64_law : ∀ s, b64_decode (b64_encode s) = Some s;
  uuid_law : ∀ id, in_u 128 id → parse_uuid (show_uuid id) = Some id;
  (** The characters of a UUID in any of its forms do not include a plus sign. *)
  uuid_plus : ∀ s id, parse_uuid s = Some id → string_forallb (λ a, negb (Ascii.eqb a "+")) s = true;
  (** ASCII text is valid UTF-8. *)
  utf8_law : ∀ s, string_forallb (λ a, (nat_of_ascii a <? 128)%nat) s = true → utf8_valid s = true;
  uuid_ascii : ∀ id, string_forallb (λ a, (nat_of_ascii a <? 128)%nat) (show_uuid id) = true;
}.

Definition ascii_text (s : string) : bool := string_forallb (λ a, (nat_of_ascii a <? 128)%nat) s.

Lemma string_forallb_app P s t : string_forallb P (s +:+ t)%string = string_forallb P s && string_forallb P t.
Proof. induction s as [|a s IH]; simpl; [done|]. by rewrite IH, andb_assoc. Qed.

Lemma cursor_text_encode (L : CursorLaws) s : ascii_text s = true → cursor_text (b64_encode s) = Ok s.
Proof. intros Hs. unfold cursor_text. by rewrite (b64_law L), (utf8_law L). Qed.

Lemma splitn3_app tag value rest :
  no_colon tag = true → no_colon value = true →
  splitn3 (tag +:+ ":" +:+ value +:+ ":" +:+ rest) = Some (tag, value, rest).
Proof.
  intros Ht Hv. unfold splitn3.
  rewrite (split_once_app ":" tag (value +:+ ":" +:+ rest) Ht :
    split_once ":" (tag +:+ ":" +:+ value +:+ ":" +:+ rest) = Some (tag, value +:+ ":" +:+ rest)%string). simpl.
  by rewrite (split_once_app ":" value rest Hv : split_once ":" (value +:+ ":" +:+ rest) = Some (value, rest)).
Qed.

Lemma tagged_roundtrip (L : CursorLaws) tag value id :
  no_colon tag = true → no_colon value = true → ascii_text tag = true → ascii_text value = true →
  in_u 128 id → is_v4 id = true →
  decode_cursor_tagged (encode_cursor_tagged tag value id) = Ok (tag, value, id).
Proof.
  intros Ht Hv Hat Hav Hid H4. unfold decode_cursor_tagged, encode_cursor_tagged.
  rewrite cursor_text_encode; [|done|].
  - cbn [result_bind]. rewrite splitn3_app by done. cbn. unfold cursor_id. rewrite (uuid_law L) by done. cbn.
    by rewrite H4.
  - unfold ascii_text. rewrite !string_forallb_app. fold (ascii_text tag) (ascii_text value). rewrite Hat, Hav, (uuid_ascii L).
    done.
Qed.

(** A value that holds a colon and then a plus sign, as an RFC 3339 time does,
    makes a cursor that does not decode. *)
Lemma tagged_colon_rejected (L : CursorLaws) tag a b id :
  no_colon tag = true → no_colon a = true → ascii_text (tag +:+ a +:+ b) = true →
  string_forallb (λ c, negb (Ascii.eqb c "+")) b = false →
  decode_cursor_tagged (encode_cursor_tagged tag (a +:+ ":" +:+ b) id) = Err invalid_cursor.
Proof.
  intros Ht Ha Has Hb. unfold decode_cursor_tagged, encode_cursor_tagged.
  unfold ascii_text in Has. rewrite !string_forallb_app, !andb_true_iff in Has. destruct Has as (? & ? & ?).
  rewrite cursor_text_encode; [|done|].
  - cbn [result_bind].
    replace (tag +:+ ":" +:+ (a +:+ ":" +:+ b) +:+ ":" +:+ show_uuid id)%string
      with (tag +:+ ":" +:+ a +:+ ":" +:+ (b +:+ ":" +:+ show_uuid id))%string.
    + rewrite splitn3_app by done. cbn. unfold cursor_id.
      destruct (parse_uuid _) as [u|] eqn:E; [|done]. apply (uuid_plus L) in E. rewrite string_forallb_app, Hb in E. done.
    + by rewrite !string_app_assoc.
  - unfold ascii_text. rewrite !string_forallb_app. rewrite (uuid_ascii L). by rewrite !andb_true_iff.
Qed.

Lemma show_i_no_colon n : no_colon (show_i n) = true ∧ ascii_text (show_i n) = true.
Proof.
  assert (∀ d, 0 ≤ d < 10 → negb (Ascii.eqb (digit_char d) ":") = true ∧ (nat_of_ascii (digit_char d) <? 128)%nat = true)
    as Hd.
  { intros d Hd. pose proof (digit_char_code d Hd) as E. split; [|apply Nat.ltb_lt; lia].
    apply negb_true_iff, Ascii.eqb_neq. intros Ec. rewrite Ec in E. change (58 = 48 + d) in E. lia. }
  split; apply show_i_chars; try done; intros d Hr; by apply Hd.
Qed.

Lemma show_i_split n rest : split_once ":" (show_i n +:+ ":" +:+ rest) = Some (show_i n, rest).
Proof. exact (split_once_app ":" (show_i n) rest (proj1 (show_i_no_colon n))). Qed.

Lemma time_cursor_rejected (L : CursorLaws) by_ hour minute zone id :
  no_colon hour = true → ascii_text (hour +:+ minute +:+ zone) = true →
  decode_cursor_tagged (encode_cursor_tagged (as_tag by_) (hour +:+ ":" +:+ (minute +:+ "+" +:+ zone)) id) =
    Err invalid_cursor.
Proof.
  intros Hh Ha. apply tagged_colon_rejected; [done|by destruct by_|done| |].
  - unfold ascii_text in *. rewrite !string_forallb_app in *. rewrite !andb_true_iff in *.
    destruct Ha as (? & ? & ?). split_and!; try done. by destruct by_.
  - rewrite string_forallb_app. apply andb_false_iff. by right.
Qed.

(** C27. Cursors survive the round trip: a (ledger, id) cursor for every ledger
    number and version-4 id, and a tagged cursor for every ledger value.  What
    decodes is in range.  A tagged cursor over an RFC 3339 time (two colons in
    the time, then the zone's plus sign) never decodes: it is cut in three at
    its first two colons, which are inside the time. *)
Theorem cursor_roundtrip (L : CursorLaws) :
  (∀ ledger id, 0 < ledger ≤ u_max 32 → in_u 128 id → is_v4 id = true →
     decode_cursor (encode_cursor ledger id) = Ok (ledger, id)) ∧
  (∀ c ledger id, decode_cursor c = Ok (ledger, id) → 0 < ledger ≤ u_max 32 ∧ is_v4 id = true) ∧
  (∀ ledger id, in_u 128 id → is_v4 id = true →
     decode_cursor_tagged (encode_cursor_tagged (as_tag Ledger) (show_i ledger) id) =
       Ok (as_tag Ledger, show_i ledger, id)) ∧
  (∀ by_ hour minute zone id,
     no_colon hour = true → ascii_text (hour +:+ minute +:+ zone) = true →
     decode_cursor_tagged (encode_cursor_tagged (as_tag by_) (hour +:+ ":" +:+ (minute +:+ "+" +:+ zone)) id) =
       Err invalid_cursor).
Proof.
  split_and!.
  - intros ledger id Hl Hid H4. unfold decode_cursor, encode_cursor. pose proof (show_i_no_colon ledger) as [_ Ha].
    rewrite cursor_text_encode; [|done|].
    2: { unfold ascii_text. rewrite !string_forallb_app. fold (ascii_text (show_i ledger)). by rewrite Ha, (uuid_ascii L). }
    cbn [result_bind]. rewrite show_i_split. cbn. rewrite parse_i_show_i by (unfold in_i, u_max in *; lia). cbn.
    rewrite (proj2 (Z.leb_gt _ _)), (proj2 (Z.ltb_ge _ _)) by lia. unfold cursor_id. rewrite (uuid_law L) by done.
    cbn. by rewrite H4.
  - intros c ledger id. unfold decode_cursor, cursor_id. destruct (cursor_text c) as [s|]; [|done]. cbn.
    destruct (split_once ":" s) as [[a b]|]; [|done]. cbn. destruct (parse_i 64 a) as [l|]; [|done]. cbn.
    destruct (Z.leb_spec l 0); [done|]. destruct (Z.ltb_spec (u_max 32) l); [done|].
    destruct (parse_uuid b) as [u|]; [|done]. cbn. destruct (is_v4 u) eqn:H4; [|done]. intros [= <- <-]. done.
  - intros ledger id Hid H4. apply tagged_roundtrip; try done; apply show_i_no_colon.
  - by apply time_cursor_rejected.
Qed.

End Cursors.

(** UUIDs as 39 decimal digits, for concrete runs. *)
Definition demo_show (id : Z) : string := dec_fixed 39 id.

Lemma digits_val_plus s acc v : digits_val acc s = Some v → string_forallb (λ a, negb (Ascii.eqb a "+")) s = true.
Proof.
  revert acc. induction s as [|a s IH]; intros acc; simpl; [done|]. destruct (digit_val a) eqn:E; [|done].
  intros Hs. rewrite (IH _ Hs), andb_true_r. apply negb_true_iff, Ascii.eqb_neq. by intros ->.
Qed.

Lemma demo_laws : CursorLaws (λ s, s) Some (λ _, true) demo_show (digits_val 0).
Proof.
  split; try done.
  - intros id Hid. unfold demo_show. rewrite digits_val_dec_fixed; [f_equal; lia|]. unfold in_u in Hid. simpl. lia.
  - intros s id. apply digits_val_plus.
  - intros id. apply dec_fixed_forall. intros d Hd. pose proof (digit_char_code d Hd). apply Nat.ltb_lt. lia.
Qed.

Lemma cursor_roundtrip_witness :
  let dec := decode_cursor Some (λ _, true) (digits_val 0) (λ _, true) in
  let tagged := decode_cursor_tagged Some (λ _, true) (digits_val 0) (λ _, true) in
  dec (encode_cursor (λ s, s) demo_show 7 5) = Ok (7, 5) ∧
  tagged (encode_cursor_tagged (λ s, s) demo_show "ledger" "7" 5)%string = Ok ("ledger", "7", 5)%string ∧
  tagged (encode_cursor_tagged (λ s, s) demo_show "timestamp" "2026-03-14T00:00:00+00:00" 5)%string
    = Err invalid_cursor.
Proof.
  destruct (cursor_roundtrip (λ s, s) Some (λ _, true) demo_show (digits_val 0) (λ _, true) demo_laws)
    as (H1 & _ & H3 & H4).
  split_and!.
  - apply H1; [by vm_compute|by vm_compute|done].
  - apply (H3 7 5); [by vm_compute|done].
  - apply (H4 Timestamp "2026-03-14T00" "00:00" "00:00" 5)%string; reflexivity.
Defined.

End ApiParams.
