(* ===== verification/EventsQuery.v ===== *)
(** The events read API (handlers/events.rs [get_events],
    [get_events_by_contract], [get_events_by_tx]): validation, the WHERE
    clauses with their numbered placeholders and the separately ordered binds,
    keyset and offset pages, totals, ETags and the response.

    A query is the code's text as a tree ([render_query] gives the text) and
    its meaning over the stored rows ([select]).  [get_events] reads names it
    never declares; they are the record [Extra], an argument. *)

From S2P Require Import Prelude Text F64 Model Pg Xdr EventStore ApiParams.

Module EventsQuery.
Import ApiParams.

(** ** Rows and bound parameters *)

(** A row of [events] with the columns the indexer leaves to defaults. *)
Record Row : Type := mkRow {
  stored : EventStore.EventRow;
  r_normalized : option Value;
  r_schema_version : Z;
  r_anonymized : bool;
}.

Definition row_id (r : Row) : Z := EventStore.row_id (stored r).
Definition cols (r : Row) : EventStore.EventColumns := EventStore.row (stored r).
Definition row_ledger (r : Row) : Z := EventStore.c_ledger (cols r).

(** A parameter with its PostgreSQL type; times are in microseconds. *)
Inductive Bind : Type :=
| BText (s : string)
| BTextArray (l : list string)
| BI64 (n : Z)
| BI32 (n : Z)
| BBool (b : bool)
| BTime (t : Z)
| BUuid (u : Z)
| BF64 (f : f64).

#[export] Instance Bind_eq_dec : EqDecision Bind.
Proof. solve_decision. Defined.

(** The conditions of the WHERE clauses. *)
Inductive Kind : Type :=
| KKeyset (col op : string)
| KEq (col : string)
| KAny (col : string)
| KNotAll (col : string)
| KLike (col : string)
| KGe (col : string)
| KLe (col : string)
| KContains (path : string)
| KSearch
| KJsonPath
| KEarth.

(** A condition and its first placeholder. *)
Record Cond : Type := mkCond { kind : Kind; idx : Z }.

Definition arity (k : Kind) : nat :=
  match k with KKeyset _ _ => 2 | KEarth => 3 | _ => 1 end.

Definition ph (i : Z) : string := ("$" +:+ show_i i)%string.

Definition render_cond (c : Cond) : string :=
  let i := idx c in
  match kind c with
  | KKeyset col op => "(" +:+ col +:+ ", id) " +:+ op +:+ " (" +:+ ph i +:+ ", " +:+ ph (i + 1) +:+ ")"
  | KEq col => col +:+ " = " +:+ ph i
  | KAny col => col +:+ " = ANY(" +:+ ph i +:+ "::text[])"
  | KNotAll col => col +:+ " != ALL(" +:+ ph i +:+ "::text[])"
  | KLike col => col +:+ " LIKE " +:+ ph i
  | KGe col => col +:+ " >= " +:+ ph i
  | KLe col => col +:+ " <= " +:+ ph i
  | KContains path => path +:+ " @> " +:+ ph i +:+ "::jsonb"
  | KSearch => "event_data_tsv @@ plainto_tsquery('english', " +:+ ph i +:+ ")"
  | KJsonPath => "jsonb_path_exists(event_data, " +:+ ph i +:+ "::jsonpath)"
  | KEarth => "earth_distance(ll_to_earth(latitude, longitude), ll_to_earth(" +:+ ph i +:+ ", " +:+ ph (i + 1) +:+
              ")) <= " +:+ ph (i + 2) +:+ " * 1000"
  end%string.

Record OrderKey : Type := mkKey { o_col : string; o_dir : string; o_nulls_last : bool }.

Record Query : Type := mkQuery {
  q_cols : list string;
  q_where : list Cond;
  q_order : list OrderKey;
  q_limit : option Z;
  q_offset : option Z;
}.

Definition render_key (k : OrderKey) : string :=
  (o_col k +:+ " " +:+ o_dir k +:+ (if o_nulls_last k then " NULLS LAST" else ""))%string.

Definition where_clause (l : list Cond) : string :=
  match l with [] => "" | _ => "WHERE " +:+ join " AND " (map render_cond l) end%string.

Definition render_query (q : Query) : string :=
  ("SELECT " +:+ join ", " (q_cols q) +:+ " FROM events " +:+ where_clause (q_where q) +:+
   " ORDER BY " +:+ join ", " (map render_key (q_order q)) +:+
   match q_limit q with Some i => " LIMIT " +:+ ph i | None => "" end +:+
   match q_offset q with Some i => " OFFSET " +:+ ph i | None => "" end)%string.

(** ** The meaning of a query *)

(** PostgreSQL's operators on [event_data], beyond comparisons. *)
Record Sql : Type := mkSql {
  topic_0_sym : Value → option string;
  jsonb_contains : string → Value → string → bool;
  search_match : Value → string → bool;
  jsonpath_exists : Value → string → bool;
  earth_within : Value → f64 → f64 → f64 → bool;
}.

(** A column of a row, [None] for NULL. *)
Definition cell (sql : Sql) (col : string) (r : Row) : option Bind :=
  let c := cols r in
  if String.eqb col "id" then Some (BUuid (row_id r))
  else if String.eqb col "contract_id" then Some (BText (EventStore.c_contract_id c))
  else if String.eqb col "event_type" then Some (BText (EventStore.c_event_type c))
  else if String.eqb col "tx_hash" then Some (BText (EventStore.c_tx_hash c))
  else if String.eqb col "ledger" then Some (BI64 (EventStore.c_ledger c))
  else if String.eqb col "timestamp" then Some (BTime (EventStore.c_timestamp c))
  else if String.eqb col "created_at" then Some (BTime (EventStore.row_created_at (stored r)))
  else if String.eqb col "ledger_hash" then BText <$> EventStore.c_ledger_hash c
  else if String.eqb col "in_successful_call" then Some (BBool (EventStore.c_in_successful_call c))
  else if String.eqb col "schema_version" then Some (BI32 (r_schema_version r))
  else if String.eqb col "anonymized" then Some (BBool (r_anonymized r))
  else if String.eqb col "tenant_id" then BText <$> EventStore.c_tenant_id c
  else if String.eqb col "chain_id" then Some (BText (EventStore.c_chain_id c))
  else if String.eqb col "topic_0_sym" then BText <$> topic_0_sym sql (EventStore.c_event_data c)
  else if String.eqb col "tx_index" then BI32 <$> EventStore.c_tx_index c
  else if String.eqb col "op_index" then BI32 <$> EventStore.c_op_index c
  else if String.eqb col "event_index" then BI32 <$> EventStore.c_event_index c
  else None.

(** Comparison of values of one type. *)
Definition bind_cmp (a b : Bind) : option comparison :=
  match a, b with
  | BI64 x, BI64 y | BI32 x, BI32 y | BTime x, BTime y | BUuid x, BUuid y => Some (x ?= y)
  | _, _ => None
  end.

(** SQL's LIKE: percent, underscore and backslash are special. *)
Fixpoint like (fuel : nat) (pat s : string) : bool :=
  match fuel with
  | O => false
  | S f =>
      match pat with
      | EmptyString => is_empty s
      | String "%" p => like f p s || match s with String _ r => like f pat r | EmptyString => false end
      | String "_" p => match s with String _ r => like f p r | EmptyString => false end
      | String "\" (String a p) | String a p =>
          match s with String b r => Ascii.eqb a b && like f p r | EmptyString => false end
      end
  end.

Definition like_matches (pat s : string) : bool := like (S (String.length pat + String.length s)) pat s.

(** Whether a condition is true of a row, from the parameters at its placeholders. *)
Definition sem (sql : Sql) (k : Kind) (bs : list Bind) (r : Row) : bool :=
  let data := EventStore.c_event_data (cols r) in
  match k, bs with
  | KKeyset col op, [b; BUuid u] =>
      match cell sql col r with
      | Some v =>
          match bind_cmp v b with
          | Some c =>
              match cmp_then c (row_id r ?= u) with
              | Gt => String.eqb op ">" | Lt => String.eqb op "<" | Eq => false
              end
          | None => false
          end
      | None => false
      end
  | KEq col, [b] => bool_decide (cell sql col r = Some b)
  | KAny col, [BTextArray l] => match cell sql col r with Some (BText s) => mem s l | _ => false end
  | KNotAll col, [BTextArray l] => match cell sql col r with Some (BText s) => negb (mem s l) | _ => false end
  | KLike col, [BText pat] => match cell sql col r with Some (BText s) => like_matches pat s | _ => false end
  | KGe col, [b] => match cell sql col r with
                    | Some v => match bind_cmp v b with Some Lt | None => false | _ => true end
                    | None => false
                    end
  | KLe col, [b] => match cell sql col r with
                    | Some v => match bind_cmp v b with Some Gt | None => false | _ => true end
                    | None => false
                    end
  | KContains path, [BText t] => jsonb_contains sql path data t
  | KSearch, [BText t] => search_match sql data t
  | KJsonPath, [BText t] => jsonpath_exists sql data t
  | KEarth, [BF64 lat; BF64 lon; BF64 radius] => earth_within sql data lat lon radius
  | _, _ => false
  end.

Definition holds (sql : Sql) (binds : list Bind) (r : Row) (c : Cond) : bool :=
  sem sql (kind c) (take (arity (kind c)) (drop (Z.to_nat (idx c - 1)) binds)) r.

(** An ORDER BY key: NULLs first or last, then the value, negated for DESC. *)
Definition key_code (sql : Sql) (r : Row) (k : OrderKey) : Z * Z :=
  let desc := String.eqb (o_dir k) "DESC" in
  match cell sql (o_col k) r with
  | Some (BI64 n | BI32 n | BTime n | BUuid n) => (0, if desc then - n else n)
  | _ => (if desc && negb (o_nulls_last k) then -1 else 1, 0)
  end.

Definition sort_code (sql : Sql) (order : list OrderKey) (r : Row) : list (Z * Z) := map (key_code sql r) order.

Abbreviation code_cmp := (cmp_list (cmp_pair Z.compare Z.compare)).

Definition order_by (sql : Sql) (order : list OrderKey) (rows : list Row) : list Row :=
  Prelude.sort_by (cmp_on (sort_code sql order) code_cmp) rows.

Definition matching (sql : Sql) (conds : list Cond) (binds : list Bind) (rows : list Row) : list Row :=
  List.filter (λ r, forallb (holds sql binds r) conds) rows.

Definition count_at (binds : list Bind) (i : option Z) : option nat :=
  let! i := i in
  match binds !! Z.to_nat (i - 1) with Some (BI64 n) => Some (Z.to_nat n) | _ => None end.

Definition select (sql : Sql) (q : Query) (binds : list Bind) (rows : list Row) : list Row :=
  let sorted := order_by sql (q_order q) (matching sql (q_where q) binds rows) in
  let rest := match count_at binds (q_offset q) with Some n => drop n sorted | None => sorted end in
  match count_at binds (q_limit q) with Some n => take n rest | None => rest end.

(** The number of parameters a statement takes: its highest placeholder. *)
Definition conds_params (l : list Cond) : Z :=
  fold_right (λ c m, Z.max (idx c + Z.of_nat (arity (kind c)) - 1) m) 0 l.

Definition query_params (q : Query) : Z :=
  Z.max (conds_params (q_where q)) (Z.max (default 0 (q_limit q)) (default 0 (q_offset q))).

(** ** Types *)

Inductive SqlType : Type := TText | TTextArray | TInt8 | TInt4 | TBool | TTimestamptz | TUuid | TFloat8.

#[export] Instance SqlType_eq_dec : EqDecision SqlType.
Proof. solve_decision. Defined.

(** The type sqlx declares for a parameter. *)
Definition bind_type (b : Bind) : SqlType :=
  match b with
  | BText _ => TText | BTextArray _ => TTextArray | BI64 _ => TInt8 | BI32 _ => TInt4 | BBool _ => TBool
  | BTime _ => TTimestamptz | BUuid _ => TUuid | BF64 _ => TFloat8
  end.

(** The columns of [events] the conditions name, as the migrations declare them. *)
Definition column_type (col : string) : option SqlType :=
  if mem col ["contract_id"; "event_type"; "tx_hash"; "ledger_hash"; "tenant_id"; "chain_id"; "topic_0_sym"]%string
  then Some TText
  else if String.eqb col "id" then Some TUuid
  else if String.eqb col "ledger" then Some TInt8
  else if mem col ["timestamp"; "created_at"]%string then Some TTimestamptz
  else if mem col ["in_successful_call"; "anonymized"]%string then Some TBool
  else if mem col ["schema_version"; "tx_index"; "op_index"; "event_index"]%string then Some TInt4
  else None.

Definition has_type (b : Bind) (col : string) : bool := bool_decide (column_type col = Some (bind_type b)).

(** The parameters of a condition have the types of its columns and operators. *)
Definition cond_typed (k : Kind) (bs : list Bind) : bool :=
  match k, bs with
  | KKeyset col _, [b; u] => has_type b col && has_type u "id"
  | KEq col, [b] | KGe col, [b] | KLe col, [b] => has_type b col
  | KAny col, [BTextArray _] | KNotAll col, [BTextArray _] | KLike col, [BText _] =>
      bool_decide (column_type col = Some TText)
  | KContains _, [BText _] | KSearch, [BText _] | KJsonPath, [BText _] => true
  | KEarth, [BF64 _; BF64 _; BF64 _] => true
  | _, _ => false
  end.

(** A row count ([LIMIT], [OFFSET]) is a bigint. *)
Definition count_typed (binds : list Bind) (i : option Z) : bool :=
  match i with
  | Some i => match binds !! Z.to_nat (i - 1) with Some (BI64 _) => true | _ => false end
  | None => true
  end.

(** ** Requests *)

(** The names [get_events] uses without declaring them. *)
Record Extra : Type := mkExtra {
  topic_filter : option Value;
  exclude_contract_ids_list : list string;
  exclude_event_types_list : list string;
  near_lat : option f64;
  near_lon : option f64;
  radius_km : option f64;
  data_pattern : option string;
  pattern : option string;
  rank_by_relevance : option bool;
}.

Inductive Ev : Type := CacheInsert (contract : string) (count : Z).

Record Env : Type := mkEnv {
  pg : PgEnv;
  sql : Sql;
  b64_encode : string → string;
  b64_decode : string → option string;
  utf8_valid : string → bool;
  show_uuid : Z → string;
  parse_uuid : string → option Z;
  is_v4 : Z → bool;
  parse_datetime : string → option Z;
  to_rfc3339 : Z → string;
  json_time : Z → string;
  to_string : Value → string;
  (** encryption.rs [decrypt] with the configured keys, if any. *)
  decrypt : option (Value → option Value);
  (** scval_format.rs: serde's decoding of an ScVal, then [to_native] or XDR in base64. *)
  scval_native : Value → option Value;
  scval_xdr : Value → option string;
  gzip_base64 : string → result string string;
  sha256 : string → string;
  admin_api_keys : list string;
  reltuples : Z;
  stats_info : option Z * option f64;
  cached_count : nat → string → option Z;
}.

Section EventsQuery.
Variable env : Env.

Local Abbreviation M := (Pg.M (list Row) Ev AppError).

(** A request after validation. *)
Record Request : Type := mkRequest {
  params : PaginationParams;
  extra : Extra;
  contract_ids_list : list string;
  from_ts : option Z;
  to_ts : option Z;
  tenant_id : option string;
}.

Definition check (b : bool) (e : AppError) : result () AppError := if b then Ok () else Err e.

Definition each {A} (f : A → result () AppError) (o : option A) : result () AppError :=
  match o with Some x => f x | None => Ok () end.

Definition ordered (a b : option Z) : bool :=
  match a, b with Some x, Some y => x <=? y | _, _ => true end.

Definition present {A} (o : option A) : bool := match o with Some _ => true | None => false end.

Fixpoint all_valid (ids : list string) : result () AppError :=
  match ids with
  | [] => Ok ()
  | id :: rest => let? _ := validate_contract_id id in all_valid rest
  end.

Definition validate_timestamp (ts : string) : result Z AppError :=
  ok_or (Validation ("invalid timestamp format: " +:+ ts)%string) (parse_datetime env ts).

Definition parse_ts (o : option string) : result (option Z) AppError :=
  match o with Some ts => let? t := validate_timestamp ts in Ok (Some t) | None => Ok None end.

Definition parse_contract_ids (p : PaginationParams) : result (list string) AppError :=
  match contract_ids p with
  | Some cids =>
      let ids := List.filter (λ s, negb (is_empty s)) (map trim (split_on "," cids)) in
      let? _ := check (0 <? length ids)%nat (Validation "contract_ids parameter is empty") in
      let? _ := check (length ids <=? MAX_CONTRACT_IDS_FILTER)%nat
                  (Validation "contract_ids exceeds maximum of 20 IDs") in
      let? _ := all_valid ids in
      Ok ids
  | None => Ok []
  end.

Definition validate_prefix (prefix : string) : result () AppError :=
  let trimmed := trim prefix in
  let? _ := check (4 <=? String.length trimmed)%nat (Validation "contract_id_prefix must be at least 4 characters") in
  check (string_forallb is_alphanumeric trimmed)
    (Validation "contract_id_prefix must contain only alphanumeric characters").

(** The validation that opens [get_events]. *)
Definition validate_request (p : PaginationParams) (x : Extra) (h : HeaderMap) (tenant : option string) :
    result Request AppError :=
  let? _ := each (validate_ledger_param "from_ledger") (from_ledger p) in
  let? _ := each (validate_ledger_param "to_ledger") (to_ledger p) in
  let? _ := check (ordered (from_ledger p) (to_ledger p)) (Validation "from_ledger must be <= to_ledger") in
  let? from_ts := parse_ts (from_timestamp p) in
  let? to_ts := parse_ts (to_timestamp p) in
  let? _ := check (ordered from_ts to_ts) (Validation "from_timestamp must be <= to_timestamp") in
  let? _ := check (negb (present (anonymized p)) || is_admin_request h (admin_api_keys env))
              (Forbidden "anonymized filter requires admin privileges") in
  let? _ := each validate_contract_id (contract_id p) in
  let? ids := parse_contract_ids p in
  let? _ := each validate_prefix (contract_id_prefix p) in
  Ok (mkRequest p x ids from_ts to_ts tenant).

(** ** Building the queries *)

(** [if present { conditions.push(..); bind_idx += n }]. *)
Definition push (st : list Cond * Z) (e : bool * Kind) : list Cond * Z :=
  if e.1 then (st.1 ++ [mkCond e.2 st.2], st.2 + Z.of_nat (arity e.2)) else st.

Definition non_empty (l : list string) : bool := match l with [] => false | _ => true end.

Definition near (x : Extra) : option (list Bind) :=
  match near_lat x, near_lon x, radius_km x with
  | Some lat, Some lon, Some radius => Some [BF64 lat; BF64 lon; BF64 radius]
  | _, _, _ => None
  end.

(** Filters both paths share, in the order of their conditions. *)
Definition shared_filters (q : Request) : list (bool * Kind) :=
  let p := params q in
  [(present (contract_id p), KEq "contract_id");
   (non_empty (contract_ids_list q), KAny "contract_id");
   (present (contract_id_prefix p), KLike "contract_id");
   (present (event_type p), KEq "event_type");
   (present (from_ledger p), KGe "ledger");
   (present (to_ledger p), KLe "ledger");
   (present (ledger_hash p), KEq "ledger_hash");
   (present (anonymized p), KEq "anonymized");
   (present (in_successful_call p), KEq "in_successful_call");
   (present (schema_version p), KEq "schema_version");
   (present (topic_sym p), KEq "topic_0_sym");
   (present (topic_filter (extra q)), KContains "event_data->'topic'")]%string.

(** Filters on time, exclusions, place and tenant, in the order of their conditions. *)
Definition late_filters (q : Request) : list (bool * Kind) :=
  [(present (from_ts q), KGe "timestamp");
   (present (to_ts q), KLe "timestamp");
   (non_empty (exclude_contract_ids_list (extra q)), KNotAll "contract_id");
   (non_empty (exclude_event_types_list (extra q)), KNotAll "event_type");
   (present (near (extra q)), KEarth);
   (present (tenant_id q), KEq "tenant_id")]%string.

Definition cursor_filters (q : Request) : list (bool * Kind) :=
  let p := params q in
  shared_filters q ++
  [(present (topic_0 p), KEq "topic_0_sym");
   (present (topic_1 p), KContains "event_data->'topic'->1");
   (present (topic_2 p), KContains "event_data->'topic'->2");
   (present (topic_3 p), KContains "event_data->'topic'->3");
   (present (search p), KSearch);
   (present (data_pattern (extra q)), KJsonPath)]%string ++
  late_filters q ++
  [(present (network p), KEq "chain_id")]%string.

Definition cursor_conditions (q : Request) (col op : string) : list Cond * Z :=
  fold_left push (cursor_filters q) ([mkCond (KKeyset col op) 1], 3).

Definition offset_filters (q : Request) : list (bool * Kind) :=
  shared_filters q ++ [(present (search (params q)), KSearch)] ++ late_filters q.

Definition offset_conditions (q : Request) : list Cond * Z := fold_left push (offset_filters q) ([], 1).

(** [if let Some(v) { q = q.bind(v) }]. *)
Definition bind1 (o : option Bind) : list Bind := match o with Some b => [b] | None => [] end.
Definition bind_list (l : list string) : list Bind := match l with [] => [] | _ => [BTextArray l] end.

Definition escape_char (a : ascii) : string :=
  let n := nat_of_ascii a in
  if ((n =? 92) || (n =? 34))%nat then String (ascii_of_nat 92) (String a EmptyString) else String a EmptyString.

Fixpoint escape_pattern (s : string) : string :=
  match s with String a r => escape_char a +:+ escape_pattern r | EmptyString => EmptyString end%string.

Definition quote : string := String (ascii_of_nat 34) EmptyString.

(** [format_jsonpath_filter]. *)
Definition format_jsonpath_filter (path pat : string) : string :=
  (path +:+ " ? (@ like_regex " +:+ quote +:+ escape_pattern pat +:+ quote +:+ ")")%string.

Definition prefix_pattern (prefix : string) : string := (trim prefix +:+ "%")%string.

Definition topic_bind (o : option string) : option Bind := (λ t, BText (to_string env (VString t))) <$> o.

Definition shared_binds (q : Request) : list Bind :=
  let p := params q in
  bind1 (BText <$> contract_id p) ++ bind_list (contract_ids_list q) ++
  bind1 ((λ s, BText (prefix_pattern s)) <$> contract_id_prefix p) ++
  bind1 ((λ t, BText (event_type_str t)) <$> event_type p) ++
  bind1 (BI64 <$> from_ledger p) ++ bind1 (BI64 <$> to_ledger p) ++ bind1 (BText <$> ledger_hash p) ++
  bind1 (BBool <$> anonymized p) ++ bind1 (BBool <$> in_successful_call p) ++ bind1 (BI32 <$> schema_version p) ++
  bind1 (BText <$> topic_sym p) ++ bind1 ((λ v, BText (to_string env v)) <$> topic_filter (extra q)).

Definition late_binds (q : Request) : list Bind :=
  bind1 (BTime <$> from_ts q) ++ bind1 (BTime <$> to_ts q) ++
  bind_list (exclude_contract_ids_list (extra q)) ++ bind_list (exclude_event_types_list (extra q)) ++
  default [] (near (extra q)) ++ bind1 (BText <$> tenant_id q).

(** The expression bound for [data_pattern]; [pattern] is required with it. *)
Definition data_pattern_bind (x : Extra) : result (option Bind) AppError :=
  match data_pattern x with
  | Some path =>
      let? pat := ok_or (Validation "pattern is required when data_pattern is set") (pattern x) in
      Ok (Some (BText (format_jsonpath_filter path pat)))
  | None => Ok None
  end.

(** The binds of the cursor query after the cursor's own two. *)
Definition cursor_binds (q : Request) : result (list Bind) AppError :=
  let p := params q in
  let? expr := data_pattern_bind (extra q) in
  Ok (shared_binds q ++ bind1 (BText <$> topic_0 p) ++ bind1 (topic_bind (topic_1 p)) ++
      bind1 (topic_bind (topic_2 p)) ++ bind1 (topic_bind (topic_3 p)) ++
      bind1 expr ++ bind1 (BText <$> search p) ++
      late_binds q ++ bind1 (BText <$> network p)).

Definition offset_binds (q : Request) : list Bind :=
  shared_binds q ++ bind1 (BText <$> search (params q)) ++ late_binds q.

(** The binds of the count query. *)
Definition count_binds (q : Request) : list Bind :=
  let p := params q in
  bind1 (BText <$> contract_id p) ++
  bind1 ((λ t, BText (event_type_str t)) <$> event_type p) ++
  bind1 (BI64 <$> from_ledger p) ++ bind1 (BI64 <$> to_ledger p) ++ bind1 (BText <$> ledger_hash p) ++
  bind1 (BBool <$> anonymized p) ++ bind1 (BBool <$> in_successful_call p) ++ bind1 (BI32 <$> schema_version p) ++
  bind1 (BText <$> topic_sym p) ++ bind1 ((λ v, BText (to_string env v)) <$> topic_filter (extra q)) ++
  bind1 (BText <$> search p) ++ late_binds q.

(** ** Execution *)

Definition mismatch (bound needed : Z) : string :=
  ("bind message supplies " +:+ show_i bound +:+ " parameters, but prepared statement requires " +:+ show_i needed)%string.

(** A statement is refused when its parameters are not as many as its placeholders. *)
Definition fetch {A} (needed : Z) (binds : list Bind) (f : list Row → A) : M A :=
  stmt (pg env) (λ _ rows,
    let n := Z.of_nat (length binds) in
    if n =? needed then Ok (f rows, rows) else Err (mismatch n needed)).

Definition fetch_all (q : Query) (binds : list Bind) : M (list Row) :=
  fetch (query_params q) binds (select (sql env) q binds).

(** [SELECT COUNT( * ) FROM events WHERE ..]. *)
Definition fetch_count (conds : list Cond) (binds : list Bind) : M Z :=
  fetch (conds_params conds) binds (λ rows, Z.of_nat (length (matching (sql env) conds binds rows))).

(** ** Rendering *)

Inductive ScValFormat : Type := FJson | FNative | FXdr.

Definition parse_format (raw : option string) : result ScValFormat AppError :=
  match raw with
  | None => Ok FJson
  | Some s =>
      let l := to_lowercase s in
      if String.eqb l "json" then Ok FJson
      else if String.eqb l "native" then Ok FNative
      else if String.eqb l "xdr" then Ok FXdr
      else Err (Validation ("invalid format '" +:+ l +:+ "': expected one of native, json, xdr")%string)
  end.

(** [render]: a value that is too deep or does not decode stays as it is. *)
Definition render (v : Value) (f : ScValFormat) : Value :=
  match f with
  | FJson => v
  | FNative => if Xdr.exceeds_max_depth v then v else default v (scval_native env v)
  | FXdr => if Xdr.exceeds_max_depth v then v else default v (VString <$> scval_xdr env v)
  end.

Definition render_event_data (v : Value) (f : ScValFormat) : Value :=
  match f with
  | FJson => v
  | _ =>
      let out := match value_get v "value" with Some x => object_insert "value" (render x f) v | None => v end in
      match value_get out "topic" with
      | Some (Array l) => object_insert "topic" (Array (map (λ t, render t f) l)) out
      | _ => out
      end
  end.

Definition decrypt_event_data (raw : Value) : Value :=
  match decrypt env with Some f => default raw (f raw) | None => raw end.

Definition compact_event_data (v : Value) : result Value AppError :=
  match gzip_base64 env (to_string env v) with
  | Ok s => Ok (VString s)
  | Err e => Err (Internal e)
  end.

Definition json_z (n : Z) : Value := Number (if 0 <=? n then PosInt n else NegInt n).
Definition json_opt {A} (f : A → Value) (o : option A) : Value := match o with Some x => f x | None => Null end.
Definition json_at (t : Z) : Value := VString (json_time env t).

(** The value of one column; unknown columns are left out. *)
Definition column_json (r : Row) (is_compact : bool) (f : ScValFormat) (col : string) : result (option Value) AppError :=
  let c := cols r in
  if String.eqb col "id" then Ok (Some (VString (show_uuid env (row_id r))))
  else if String.eqb col "contract_id" then Ok (Some (VString (EventStore.c_contract_id c)))
  else if String.eqb col "event_type" then Ok (Some (VString (EventStore.c_event_type c)))
  else if String.eqb col "tx_hash" then Ok (Some (VString (EventStore.c_tx_hash c)))
  else if String.eqb col "ledger" then Ok (Some (json_z (EventStore.c_ledger c)))
  else if String.eqb col "timestamp" then Ok (Some (json_at (EventStore.c_timestamp c)))
  else if String.eqb col "event_data" then
    let rendered := render_event_data (decrypt_event_data (EventStore.c_event_data c)) f in
    if is_compact then let? v := compact_event_data rendered in Ok (Some v) else Ok (Some rendered)
  else if String.eqb col "event_data_normalized" then Ok (Some (json_opt id (r_normalized r)))
  else if String.eqb col "event_data_decoded" then Ok (Some (json_opt id (EventStore.c_event_data_decoded c)))
  else if String.eqb col "ledger_hash" then Ok (Some (json_opt VString (EventStore.c_ledger_hash c)))
  else if String.eqb col "in_successful_call" then Ok (Some (Bool (EventStore.c_in_successful_call c)))
  else if String.eqb col "created_at" then Ok (Some (json_at (EventStore.row_created_at (stored r))))
  else if String.eqb col "schema_version" then Ok (Some (json_z (r_schema_version r)))
  else if String.eqb col "anonymized" then Ok (Some (Bool (r_anonymized r)))
  else Ok None.

Fixpoint row_json (r : Row) (columns : list string) (is_compact : bool) (f : ScValFormat)
    (event : list (string * Value)) : result (list (string * Value)) AppError :=
  match columns with
  | [] => Ok event
  | col :: rest =>
      let? v := column_json r is_compact f col in
      row_json r rest is_compact f (match v with Some v => entry_insert col v event | None => event end)
  end.

(** [rows_to_json_with_format]. *)
Fixpoint rows_to_json (rows : list Row) (columns : list string) (is_compact : bool) (f : ScValFormat) :
    result (list Value) AppError :=
  match rows with
  | [] => Ok []
  | r :: rest =>
      let? o := row_json r columns is_compact f [] in
      let? l := rows_to_json rest columns is_compact f in
      Ok (Object o :: l)
  end.

(** ** ETags *)

Fixpoint le_bytes (n : nat) (z : Z) : string :=
  match n with O => EmptyString | S n => String (ascii_of_nat (Z.to_nat (z mod 256))) (le_bytes n (z / 256)) end.

Fixpoint be_bytes (n : nat) (z : Z) : string :=
  match n with
  | O => EmptyString
  | S n => String (ascii_of_nat (Z.to_nat (z / 256 ^ Z.of_nat n mod 256))) (be_bytes n z)
  end.

(** [timestamp_nanos_opt().unwrap_or(0)]. *)
Definition nanos (t : Z) : Z := if bool_decide (- 2 ^ 63 ≤ t * 1000 < 2 ^ 63) then t * 1000 else 0.

Definition compute_etag (last_id last_created_at : Z) (total : option Z) : string :=
  let digest := sha256 env (be_bytes 16 last_id +:+ le_bytes 8 (nanos last_created_at) +:+ le_bytes 8 (default 0 total))%string in
  (quote +:+ b64_encode env (String.substring 0 8 digest) +:+ quote)%string.

(** ** Responses *)

Inductive Response : Type :=
| NotModified (tag : string)
| NdJson (events : list Value) (tag : option string)
| JsonPage (body : Value) (tag : option string) (gzip_header : bool).

Definition page_etag (rows : list Row) (total : option Z) : option string :=
  (λ r, compute_etag (row_id r) (EventStore.row_created_at (stored r)) total) <$> head rows.

Definition if_none_match (h : HeaderMap) (tag : option string) : option string :=
  let! tag := tag in
  let! inm := header_str "if-none-match" h in
  if String.eqb inm tag then Some tag else None.

(** The cursor of the next page: there is one when the page is full. *)
Definition next_cursor (b : SortBy) (rows : list Row) (limit : Z) : option string :=
  match last rows with
  | Some r =>
      if Z.of_nat (length rows) =? limit then
        let text := match b with
                    | Ledger => show_i (row_ledger r)
                    | Timestamp => to_rfc3339 env (EventStore.c_timestamp (cols r))
                    | CreatedAt => to_rfc3339 env (EventStore.row_created_at (stored r))
                    end in
        Some (encode_cursor_tagged (b64_encode env) (show_uuid env) (as_tag b) text (row_id r))
      else None
  | None => None
  end.

Definition ensure (col : string) (cols : list string) : list string := if mem col cols then cols else cols ++ [col].

(** The columns selected for a page. *)
Definition select_columns (columns : list string) (sort_col : string) : list string :=
  ensure "created_at" (ensure "id" (ensure sort_col columns)).

Definition check_columns (cols : list string) : result () AppError :=
  match List.find (λ c, negb (validate_column_name c)) cols with
  | Some c => Err (Validation ("invalid column name: " +:+ c)%string)
  | None => Ok ()
  end.

Definition order (q : Request) : SortOrder := default Desc (sort (params q)).
Definition order_col (q : Request) : SortBy := default Ledger (ApiParams.sort_by (params q)).
Definition want_rank (q : Request) : bool := default false (rank_by_relevance (extra q)).
Definition is_compact (q : Request) : bool := default false (compact (params q)).

Definition key (dir col : string) : OrderKey := mkKey col dir false.
Definition key_last (dir col : string) : OrderKey := mkKey col dir true.

Definition cursor_order (q : Request) : list OrderKey :=
  let dir := as_sql (order q) in
  if want_rank q then [key "DESC" "relevance_score"; key "DESC" "id"]%string
  else match order_col q with
       | Ledger => [key dir "ledger"; key_last dir "tx_index"; key_last dir "op_index"; key_last dir "event_index";
                    key dir "id"]%string
       | b => [key dir (as_sql_col b); key dir "id"]%string
       end.

Definition offset_order (q : Request) : list OrderKey :=
  let dir := as_sql (order q) in [key dir (as_sql_col (order_col q)); key dir "id"]%string.

(** The columns of the cursor query, or the refusal to rank. *)
Definition cursor_columns (q : Request) (columns : list string) (conds : list Cond) :
    result (list string * list string) AppError :=
  let select_cols := select_columns columns (as_sql_col (order_col q)) in
  if want_rank q then
    let? _ := check (present (search (params q))) (Validation "rank_by_relevance requires search query") in
    let select_cols' := if mem "relevance_score" select_cols then select_cols else select_cols ++ ["relevance_score"%string] in
    let ranked := match List.find (λ c, match kind c with KSearch => true | _ => false end) conds with
                  | Some c => [("ts_rank(event_data_tsv, plainto_tsquery('english', " +:+ ph (idx c) +:+
                                ")) AS relevance_score")%string]
                  | None => []
                  end in
    Ok (select_cols', select_cols ++ ranked)
  else Ok (select_cols, select_cols).

(** The two parameters of the keyset condition. *)
Definition keyset_binds (b : SortBy) (text : string) (id : Z) : result (list Bind) AppError :=
  match b with
  | Ledger => let? v := ok_or (Validation "invalid ledger cursor") (parse_i 64 text) in Ok [BI64 v; BUuid id]
  | _ => let? t := ok_or (Validation "invalid timestamp cursor") (parse_datetime env text) in Ok [BTime t; BUuid id]
  end.

Definition keyset_op (o : SortOrder) : string := match o with Asc => ">" | Desc => "<" end.

(** The cursor query with its parameters. *)
Definition cursor_query (q : Request) (columns : list string) (cursor_str : string) :
    result (Query * list Bind) AppError :=
  let? c := decode_cursor_tagged (b64_decode env) (utf8_valid env) (parse_uuid env) (is_v4 env) cursor_str in
  let '(cursor_tag, cursor_val_text, cursor_id) := c in
  let? _ := check (String.eqb cursor_tag (as_tag (order_col q)))
              (Validation "cursor sort column does not match sort_by") in
  let '(conds, bind_idx) := cursor_conditions q (as_sql_col (order_col q)) (keyset_op (order q)) in
  let? cs := cursor_columns q columns conds in
  let '(select_cols, select_query_cols) := cs in
  let? _ := check_columns select_cols in
  let? first := keyset_binds (order_col q) cursor_val_text cursor_id in
  let? binds := cursor_binds q in
  Ok (mkQuery select_query_cols conds (cursor_order q) (Some bind_idx) None,
      first ++ binds ++ [BI64 (limit (params q))]).

Definition json_str (o : option string) : Value := json_opt VString o.

Definition respond (h : HeaderMap) (events : list Value) (tag : option string) (body : Value) (q : Request)
    (ndjson_tag : option string) : Response :=
  match if_none_match h tag with
  | Some t => NotModified t
  | None => if accepts_ndjson h then NdJson events ndjson_tag else JsonPage body tag (is_compact q)
  end.

(** The cursor path of [get_events]. *)
Definition cursor_page (q : Request) (columns : list string) (cursor_str : string) (h : HeaderMap) : M Response :=
  qb ← of_result (cursor_query q columns cursor_str);
  rows ← fetch_all qb.1 qb.2;
  let next := next_cursor (order_col q) rows (limit (params q)) in
  fmt ← of_result (parse_format (format (params q)));
  events ← of_result (rows_to_json rows columns (is_compact q) fmt);
  let tag := page_etag rows None in
  mret (respond h events tag
    (Object [("data", Array events); ("limit", json_z (limit (params q))); ("next_cursor", json_str next)]%string)
    q tag).

Definition offset_query (q : Request) (columns : list string) : result (Query * list Bind) AppError :=
  let '(conds, bind_idx) := offset_conditions q in
  let select_cols := select_columns columns (as_sql_col (order_col q)) in
  let? _ := check_columns select_cols in
  Ok (mkQuery select_cols conds (offset_order q) (Some bind_idx) (Some (bind_idx + 1)),
      offset_binds q ++ [BI64 (limit (params q)); BI64 (offset (params q))]).

(** The total: exact when asked for or when there is a condition, else the
    planner's estimate; a tenant always gives a condition. *)
Definition total_count (q : Request) : M (Z * bool) :=
  let conds := (offset_conditions q).1 in
  if default false (exact_count (params q)) || match conds with [] => false | _ => true end then
    count ← fetch_count conds (count_binds q);
    mret (count, false)
  else
    match tenant_id q with
    | Some tid => count ← fetch_count [mkCond (KEq "tenant_id") 1] [BText tid]; mret (count, false)
    | None => count ← fetch 0 [] (λ _, reltuples env); mret (count, true)
    end.

(** The statistics added to an approximate total; a failure is ignored. *)
Definition approximate_info : M (list (string * Value)) :=
  r ← attempt (E := AppError) (fetch 0 [] (λ _, stats_info env));
  let info := match r with Ok i => i | Err _ => (None, None) end in
  let pct e := if F64.leb e (F64.of_Z 100) then e else F64.of_Z 100 in
  mret (match info.2 with Some e => [("approximate_error_pct"%string, Number (Float (pct e)))] | None => [] end ++
        match info.1 with Some t => [("last_analyzed"%string, VString (to_rfc3339 env t))] | None => [] end).

(** The offset path of [get_events]. *)
Definition offset_page (q : Request) (columns : list string) (h : HeaderMap) : M Response :=
  qb ← of_result (offset_query q columns);
  rows ← fetch_all qb.1 qb.2;
  let next := next_cursor (order_col q) rows (limit (params q)) in
  events ← of_result (rows_to_json rows columns (is_compact q) FJson);
  total ← total_count q;
  let tag := page_etag rows (Some total.1) in
  match if_none_match h tag with
  | Some t => mret (NotModified t)
  | None =>
      info ← (if total.2 : bool then approximate_info else mret []);
      let body := fold_left (λ o kv, entry_insert kv.1 kv.2 o) info
        [("approximate", Bool total.2); ("data", Array events); ("limit", json_z (limit (params q)));
         ("next_cursor", json_str next); ("page", json_z (default 1 (page (params q))));
         ("pagination", VString "offset — migrate to cursor parameter for better performance");
         ("total", json_z total.1)]%string in
      mret (respond h events tag (Object body) q None)
  end.

Definition get_events (p : PaginationParams) (x : Extra) (h : HeaderMap) (tenant : option string) : M Response :=
  q ← of_result (validate_request p x h tenant);
  columns ← of_result (resolve_columns p);
  match cursor p with
  | Some cursor_str => cursor_page q columns cursor_str h
  | None => offset_page q columns h
  end.

(** ** Events of a contract and of a transaction *)

(** The columns [get_events_by_contract] selects, and those [models::Event]
    requires (its fields without a default). *)
Definition contract_columns : list string :=
  ["id"; "contract_id"; "event_type"; "tx_hash"; "ledger"; "timestamp"; "event_data"; "created_at"; "total_count"]%string.
Definition event_required : list string :=
  ["id"; "contract_id"; "event_type"; "tx_hash"; "ledger"; "timestamp"; "event_data"; "event_data_normalized";
   "created_at"]%string.

(** [FromRow]: a row is refused when a required column is not selected. *)
Definition from_rows (selected : list string) (rows : list Row) : result (list Row) string :=
  match rows, List.find (λ c, negb (mem c selected)) event_required with
  | _ :: _, Some c => Err ("no column found for name: " +:+ c)%string
  | _, _ => Ok rows
  end.

(** The event of such a row: unselected columns have their defaults. *)
Definition with_defaults (r : Row) : Row :=
  let c := cols r in
  mkRow (EventStore.mkRow (row_id r) (EventStore.row_created_at (stored r))
           (EventStore.mkColumns (EventStore.c_contract_id c) (EventStore.c_event_type c) (EventStore.c_tx_hash c)
              (EventStore.c_ledger c) (EventStore.c_timestamp c) (EventStore.c_event_data c) None false None None "" None
              None "" None None None None None)) None 0 false.

Definition contract_conditions (p : PaginationParams) (tenant : option string) : list Cond * Z :=
  fold_left push [(present (from_ledger p), KGe "ledger"); (present (to_ledger p), KLe "ledger");
                  (present tenant, KEq "tenant_id")]%string ([mkCond (KEq "contract_id") 1], 2).

Definition contract_binds (contract : string) (p : PaginationParams) (tenant : option string) : list Bind :=
  [BText contract] ++ bind1 (BI64 <$> from_ledger p) ++ bind1 (BI64 <$> to_ledger p) ++ bind1 (BText <$> tenant).

Definition contract_total (contract : string) (p : PaginationParams) (tenant : option string) : M Z :=
  match from_ledger p, to_ledger p, tenant with
  | None, None, None =>
      cached ← oracle (λ n, Ok (cached_count env n contract));
      match cached with
      | Some count => mret count
      | None =>
          count ← fetch_count [mkCond (KEq "contract_id") 1] [BText contract];
          call (λ _, ()) (λ _, CacheInsert contract count) ;;
          mret count
      end
  | _, _, _ => fetch_count (contract_conditions p tenant).1 (contract_binds contract p tenant)
  end.

Definition get_events_by_contract (contract : string) (p : PaginationParams) (tenant : option string) : M Value :=
  of_result (validate_contract_id contract) ;;
  of_result (each (validate_ledger_param "from_ledger") (from_ledger p)) ;;
  of_result (each (validate_ledger_param "to_ledger") (to_ledger p)) ;;
  of_result (check (ordered (from_ledger p) (to_ledger p)) (Validation "from_ledger must be <= to_ledger")) ;;
  columns ← of_result (resolve_columns p);
  let '(conds, bind_idx) := contract_conditions p tenant in
  let q := mkQuery contract_columns conds [key (as_sql (default Desc (sort p))) "ledger"] (Some bind_idx)
             (Some (bind_idx + 1)) in
  rows ← fetch_all q (contract_binds contract p tenant ++ [BI64 (limit p); BI64 (offset p)]);
  rows ← of_result (result_map_err Database (from_rows contract_columns rows));
  match rows with
  | [] => throw NotFound
  | _ =>
      events ← of_result (rows_to_json (map with_defaults rows) columns false FJson);
      total ← contract_total contract p tenant;
      let body := [("approximate", Bool false); ("contract_id", VString contract); ("data", Array events);
                   ("limit", json_z (limit p)); ("page", json_z (default 1 (page p))); ("total", json_z total)]%string in
      let body := match from_ledger p with Some l => entry_insert "from_ledger" (json_z l) body | None => body end in
      let body := match to_ledger p with Some l => entry_insert "to_ledger" (json_z l) body | None => body end in
      mret (Object body)
  end.

Definition get_events_by_tx (tx : string) (p : PaginationParams) (tenant : option string) : M Value :=
  let tx_hash := to_lowercase tx in
  of_result (validate_tx_hash tx_hash) ;;
  columns ← of_result (resolve_columns p);
  let conds := (fold_left push [(present tenant, KEq "tenant_id"%string)] ([mkCond (KEq "tx_hash") 1], 2)).1 in
  rows ← fetch_all (mkQuery (ensure "id" (ensure "ledger" columns)) conds [key "DESC" "ledger"; key "DESC" "id"]%string
                      None None)
           ([BText tx_hash] ++ bind1 (BText <$> tenant));
  events ← of_result (rows_to_json rows columns false FJson);
  mret (Object [("approximate", Bool false); ("data", Array events); ("total", json_z (Z.of_nat (length rows)));
                ("tx_hash", VString tx_hash)]%string).

(** ** Placeholders and binds *)

(** A filter with its parameters, if it is given. *)
Definition given : Type := Kind * option (list Bind).

Definition flags (fs : list given) : list (bool * Kind) := map (λ f, (present f.2, f.1)) fs.
Definition values (fs : list given) : list Bind := concat (map (λ f, default [] f.2) fs).
Definition well_given (f : given) : Prop := ∀ b, f.2 = Some b → length b = arity f.1.

(** A condition, or a filter, on the parameters it is evaluated on. *)
Definition on_params (P : Kind → list Bind → bool) (binds : list Bind) (c : Cond) : bool :=
  P (kind c) (take (arity (kind c)) (drop (Z.to_nat (idx c - 1)) binds)).

Definition on_given (P : Kind → list Bind → bool) (f : given) : bool :=
  match f.2 with Some b => P f.1 b | None => true end.

Definition satisfied (r : Row) : given → bool := on_given (λ k bs, sem (sql env) k bs r).

Lemma conds_params_nonneg l : 0 ≤ conds_params l.
Proof. unfold conds_params. induction l; simpl; lia. Qed.

Lemma conds_params_app l k : conds_params (l ++ k) = Z.max (conds_params l) (conds_params k).
Proof.
  pose proof (conds_params_nonneg k). unfold conds_params in *. induction l as [|c l IH]; simpl; lia.
Qed.

(** Conditions built beside their binds: each is evaluated on its own
    parameters, and the placeholders are as many as the binds. *)
Lemma push_aligned P fs : Forall well_given fs →
  ∀ conds pre post,
  conds_params conds = Z.of_nat (length pre) →
  let st := fold_left push (flags fs) (conds, Z.of_nat (length pre) + 1) in
  let on_all := forallb (on_params P (pre ++ values fs ++ post)) in
  on_all st.1 = on_all conds && forallb (on_given P) fs ∧
  st.2 = Z.of_nat (length pre + length (values fs)) + 1 ∧
  conds_params st.1 = Z.of_nat (length pre + length (values fs)).
Proof.
  induction 1 as [|[k o] fs Hf _ IH]; intros conds pre post Hc; simpl.
  { unfold values. simpl. rewrite andb_true_r, Nat.add_0_r. done. }
  destruct o as [b|]; simpl.
  - specialize (Hf b eq_refl). simpl in Hf.
    specialize (IH (conds ++ [mkCond k (Z.of_nat (length pre) + 1)]) (pre ++ b) post).
    rewrite length_app in IH.
    assert (conds_params (conds ++ [mkCond k (Z.of_nat (length pre) + 1)]) = Z.of_nat (length pre + length b)) as Hc'.
    { rewrite conds_params_app, Hc. simpl. rewrite Hf. lia. }
    destruct (IH Hc') as (H1 & H2 & H3). unfold values in *. simpl. unfold push at 2 4 6. simpl.
    replace (Z.of_nat (length pre) + 1 + Z.of_nat (arity k)) with (Z.of_nat (length pre + length b) + 1) by lia.
    rewrite <- (app_assoc pre b) in H1. rewrite <- (app_assoc b). rewrite length_app.
    split_and!; [|rewrite H2; lia|rewrite H3; lia].
    rewrite H1, List.forallb_app. simpl. rewrite andb_true_r, <- andb_assoc. f_equal. f_equal.
    unfold on_params, on_given. simpl. replace (Z.to_nat (Z.of_nat (length pre) + 1 - 1)) with (length pre) by lia.
    rewrite drop_app_length, <- Hf, take_app_length. done.
  - specialize (IH conds pre post Hc). unfold push at 2 4 6, values, on_given at 1. simpl. apply IH.
Qed.

(** The conditions of a list of filters, on their parameters followed by any others. *)
Lemma given_where fs post : Forall well_given fs →
  let st := fold_left push (flags fs) ([], 1) in
  (∀ r, forallb (holds (sql env) (values fs ++ post) r) st.1 = forallb (satisfied r) fs) ∧
  st.2 = Z.of_nat (length (values fs)) + 1 ∧ conds_params st.1 = Z.of_nat (length (values fs)).
Proof.
  intros Hw. split; [intros r; apply (push_aligned (λ k bs, sem (sql env) k bs r) fs Hw [] [] post eq_refl)|].
  apply (push_aligned (λ _ _, true) fs Hw [] [] post eq_refl).
Qed.

Lemma count_at_last pre n post : count_at (pre ++ BI64 n :: post) (Some (Z.of_nat (length pre) + 1)) = Some (Z.to_nat n).
Proof.
  unfold count_at. simpl. replace (Z.to_nat (Z.of_nat (length pre) + 1 - 1)) with (length pre) by lia.
  by rewrite lookup_app_r, Nat.sub_diag by done.
Qed.

Lemma filter_ext_list {A} (f g : A → bool) l : (∀ x, f x = g x) → List.filter f l = List.filter g l.
Proof. intros H. induction l as [|x l IH]; simpl; [done|]. by rewrite H, IH. Qed.

(** A page of the rows that satisfy filters: their parameters, then the limit. *)
Lemma given_page fs columns order n rows : Forall well_given fs →
  let st := fold_left push (flags fs) ([], 1) in
  let q := mkQuery columns st.1 order (Some st.2) None in
  Z.of_nat (length (values fs ++ [BI64 n])) = query_params q ∧
  select (sql env) q (values fs ++ [BI64 n]) rows =
    take (Z.to_nat n) (order_by (sql env) order (List.filter (λ r, forallb (satisfied r) fs) rows)).
Proof.
  intros Hw st q. destruct (given_where fs [BI64 n] Hw) as (Hh & Hi & Hc). fold st in Hh, Hi, Hc. subst q. split.
  - unfold query_params. cbn [q_where q_limit q_offset default]. rewrite Hi, Hc, length_app. simpl. lia.
  - unfold select. cbn [q_where q_order q_limit q_offset]. rewrite Hi. unfold count_at at 2. cbn [option_bind].
    rewrite count_at_last. f_equal. f_equal. unfold matching. by apply filter_ext_list.
Qed.

Lemma fetch_all_healthy q binds s :
  healthy (pg env) → Z.of_nat (length binds) = query_params q →
  fetch_all q binds s = (Ok (select (sql env) q binds (db s)), mkSt (db s) (S (ops s)) (trace s)).
Proof.
  intros Hh Hn. unfold fetch_all, fetch. apply stmt_healthy; [done|]. by rewrite (proj2 (Z.eqb_eq _ _) Hn).
Qed.

(** *** The filters with their parameters *)

Definition one (k : Kind) (o : option Bind) : given := (k, (λ b, [b]) <$> o).
Definition many (k : Kind) (l : list string) : given :=
  (k, match l with [] => None | _ => Some [BTextArray l] end).

Definition shared_given (q : Request) : list given :=
  let p := params q in
  [one (KEq "contract_id") (BText <$> contract_id p);
   many (KAny "contract_id") (contract_ids_list q);
   one (KLike "contract_id") ((λ s, BText (prefix_pattern s)) <$> contract_id_prefix p);
   one (KEq "event_type") ((λ t, BText (event_type_str t)) <$> event_type p);
   one (KGe "ledger") (BI64 <$> from_ledger p);
   one (KLe "ledger") (BI64 <$> to_ledger p);
   one (KEq "ledger_hash") (BText <$> ledger_hash p);
   one (KEq "anonymized") (BBool <$> anonymized p);
   one (KEq "in_successful_call") (BBool <$> in_successful_call p);
   one (KEq "schema_version") (BI32 <$> schema_version p);
   one (KEq "topic_0_sym") (BText <$> topic_sym p);
   one (KContains "event_data->'topic'") ((λ v, BText (to_string env v)) <$> topic_filter (extra q))]%string.

Definition late_given (q : Request) : list given :=
  [one (KGe "timestamp") (BTime <$> from_ts q);
   one (KLe "timestamp") (BTime <$> to_ts q);
   many (KNotAll "contract_id") (exclude_contract_ids_list (extra q));
   many (KNotAll "event_type") (exclude_event_types_list (extra q));
   (KEarth, near (extra q));
   one (KEq "tenant_id") (BText <$> tenant_id q)]%string.

(** In the cursor query the placeholder of [search] comes before that of
    [data_pattern], its bind after. *)
Definition text_given (search expr : option string) : list given :=
  [one KSearch (BText <$> search); one KJsonPath (BText <$> expr)].

Definition exchanged (search expr : option string) : option string * option string :=
  match search, expr with Some s, Some e => (Some e, Some s) | _, _ => (search, expr) end.

Definition topic_given (p : PaginationParams) : list given :=
  [one (KEq "topic_0_sym") (BText <$> topic_0 p);
   one (KContains "event_data->'topic'->1") (topic_bind (topic_1 p));
   one (KContains "event_data->'topic'->2") (topic_bind (topic_2 p));
   one (KContains "event_data->'topic'->3") (topic_bind (topic_3 p))]%string.

Definition cursor_given (q : Request) (expr : option string) : list given :=
  let t := exchanged (search (params q)) expr in
  shared_given q ++ topic_given (params q) ++ text_given t.1 t.2 ++
  late_given q ++ [one (KEq "chain_id") (BText <$> network (params q))]%string.

Definition offset_given (q : Request) : list given :=
  shared_given q ++ [one KSearch (BText <$> search (params q))] ++ late_given q.

Lemma present_fmap {A B} (f : A → B) o : present (f <$> o) = present o.
Proof. by destruct o. Qed.

Lemma present_many l : present (match l with [] => None | _ => Some [BTextArray l] end) = non_empty l.
Proof. by destruct l. Qed.

Lemma value_one o : default [] ((λ b, [b]) <$> o) = bind1 o.
Proof. by destruct o. Qed.

Lemma value_many l : default [] (match l with [] => None | _ => Some [BTextArray l] end) = bind_list l.
Proof. by destruct l. Qed.

Lemma well_one k o : arity k = 1%nat → well_given (one k o).
Proof. intros Hk b. unfold one. simpl. destruct o; [|done]. intros [= <-]. by rewrite Hk. Qed.

Lemma well_many k l : arity k = 1%nat → well_given (many k l).
Proof. intros Hk b. unfold many. simpl. destruct l; [done|]. intros [= <-]. by rewrite Hk. Qed.

Lemma well_near x : well_given (KEarth, near x).
Proof. intros b. unfold near. simpl. repeat case_match; try done. by intros [= <-]. Qed.

Lemma well_all q expr : Forall well_given (cursor_given q expr) ∧ Forall well_given (offset_given q).
Proof.
  unfold cursor_given, offset_given, shared_given, topic_given, text_given, late_given. simpl.
  split; repeat (apply Forall_cons; split); try apply Forall_nil; try done;
    first [by apply well_one|by apply well_many|apply well_near].
Qed.

Lemma present_exchanged s e : present (exchanged s e).1 = present s ∧ present (exchanged s e).2 = present e.
Proof. by destruct s, e. Qed.

Lemma flags_given q expr :
  (present expr = present (data_pattern (extra q)) → flags (cursor_given q expr) = cursor_filters q) ∧
  flags (offset_given q) = offset_filters q.
Proof.
  unfold cursor_given, offset_given, offset_filters, cursor_filters, shared_filters, late_filters, flags, shared_given,
    topic_given, topic_bind, text_given, late_given, one, many. simpl.
  rewrite !present_fmap, !present_many, !(proj1 (present_exchanged _ _)), !(proj2 (present_exchanged _ _)).
  split; [by intros ->|done].
Qed.

Lemma values_given q expr :
  values (cursor_given q expr) =
    shared_binds q ++ bind1 (BText <$> topic_0 (params q)) ++ bind1 (topic_bind (topic_1 (params q))) ++
    bind1 (topic_bind (topic_2 (params q))) ++ bind1 (topic_bind (topic_3 (params q))) ++
    bind1 (BText <$> expr) ++ bind1 (BText <$> search (params q)) ++
    late_binds q ++ bind1 (BText <$> network (params q)) ∧
  values (offset_given q) = offset_binds q.
Proof.
  unfold cursor_given, offset_given, offset_binds, shared_binds, late_binds, values, shared_given, topic_given,
    text_given, late_given, one, many. simpl. rewrite !value_one, !value_many, !app_nil_r, <- !app_assoc.
  split; [|done]. do 16 f_equal. rewrite !(app_assoc (bind1 _) (bind1 _)). f_equal.
  unfold exchanged. by destruct (search (params q)), expr.
Qed.

(** ** What a filter means *)

Definition opt_all {A} (o : option A) (f : A → bool) : bool := match o with Some x => f x | None => true end.

(** The filters of a request, as its documentation states them. *)
Definition matches_columns (q : Request) (r : Row) : bool :=
  let p := params q in
  let c := cols r in
  opt_all (contract_id p) (λ s, bool_decide (EventStore.c_contract_id c = s)) &&
  (negb (non_empty (contract_ids_list q)) || mem (EventStore.c_contract_id c) (contract_ids_list q)) &&
  opt_all (contract_id_prefix p) (λ s, starts_with (trim s) (EventStore.c_contract_id c)) &&
  opt_all (event_type p) (λ t, bool_decide (EventStore.c_event_type c = event_type_str t)) &&
  opt_all (from_ledger p) (λ l, l <=? row_ledger r) && opt_all (to_ledger p) (λ l, row_ledger r <=? l) &&
  opt_all (ledger_hash p) (λ h, bool_decide (EventStore.c_ledger_hash c = Some h)) &&
  opt_all (anonymized p) (λ b, bool_decide (r_anonymized r = b)) &&
  opt_all (in_successful_call p) (λ b, bool_decide (EventStore.c_in_successful_call c = b)) &&
  opt_all (schema_version p) (λ v, bool_decide (r_schema_version r = v)) &&
  opt_all (topic_sym p) (λ t, bool_decide (topic_0_sym (sql env) (EventStore.c_event_data c) = Some t)) &&
  opt_all (topic_filter (extra q)) (λ v,
    jsonb_contains (sql env) "event_data->'topic'" (EventStore.c_event_data c) (to_string env v)).

Definition matches_late (q : Request) (r : Row) : bool :=
  let c := cols r in
  opt_all (from_ts q) (λ t, t <=? EventStore.c_timestamp c) && opt_all (to_ts q) (λ t, EventStore.c_timestamp c <=? t) &&
  negb (mem (EventStore.c_contract_id c) (exclude_contract_ids_list (extra q))) &&
  negb (mem (EventStore.c_event_type c) (exclude_event_types_list (extra q))) &&
  opt_all (near (extra q)) (λ b, sem (sql env) KEarth b r) &&
  opt_all (tenant_id q) (λ t, bool_decide (EventStore.c_tenant_id c = Some t)).

Definition matches (q : Request) (r : Row) : bool := matches_columns q r && matches_late q r.

(** The filters only the cursor query knows. *)
Definition matches_topics (p : PaginationParams) (r : Row) : bool :=
  let data := EventStore.c_event_data (cols r) in
  opt_all (topic_0 p) (λ t, bool_decide (topic_0_sym (sql env) data = Some t)) &&
  opt_all (topic_1 p) (λ t, jsonb_contains (sql env) "event_data->'topic'->1" data (to_string env (VString t))) &&
  opt_all (topic_2 p) (λ t, jsonb_contains (sql env) "event_data->'topic'->2" data (to_string env (VString t))) &&
  opt_all (topic_3 p) (λ t, jsonb_contains (sql env) "event_data->'topic'->3" data (to_string env (VString t))) &&
  opt_all (network p) (λ n, bool_decide (EventStore.c_chain_id (cols r) = n)).

Definition matches_text (search expr : option string) (r : Row) : bool :=
  let data := EventStore.c_event_data (cols r) in
  opt_all search (search_match (sql env) data) && opt_all expr (jsonpath_exists (sql env) data).

Lemma satisfied_one r k o : satisfied r (one k o) = opt_all o (λ b, sem (sql env) k [b] r).
Proof. by destruct o. Qed.

Lemma opt_all_fmap {A B} (f : A → B) o g : opt_all (f <$> o) g = opt_all o (λ x, g (f x)).
Proof. by destruct o. Qed.

Lemma opt_all_ext {A} (o : option A) f g : (∀ x, o = Some x → f x = g x) → opt_all o f = opt_all o g.
Proof. destruct o; simpl; auto. Qed.

(** LIKE with a pattern of letters and digits and a final percent sign. *)
Lemma like_prefix f p s :
  string_forallb is_alphanumeric p = true → (String.length p + String.length s + 1 < f)%nat →
  like f (p +:+ "%") s = starts_with p s.
Proof.
  revert p s. induction f as [|f IH]; intros p s Hp Hf; [lia|]. destruct p as [|a p].
  - change ("" +:+ "%")%string with "%"%string. clear Hp. revert Hf.
    assert (∀ f s, (String.length s + 1 < f)%nat → like f "%" s = true) as H.
    { clear. induction f as [|f IH]; intros s Hs; [lia|]. cbn [like]. destruct s as [|b r]; simpl in *.
      - destruct f; [lia|done].
      - rewrite IH by lia. apply orb_true_r. }
    intros Hf. rewrite H by (simpl in Hf; lia).
    by destruct s.
  - simpl in Hp. apply andb_true_iff in Hp as [Ha Hp].
    change (String a p +:+ "%")%string with (String a (p +:+ "%")%string).
    assert (like (S f) (String a (p +:+ "%")) s =
            match s with String b r => Ascii.eqb a b && like f (p +:+ "%") r | EmptyString => false end) as ->.
    { destruct a as [[] [] [] [] [] [] [] []]; vm_compute in Ha; first [discriminate|reflexivity]. }
    unfold starts_with. destruct s as [|b s]; [done|]. simpl in Hf |- *. rewrite IH by (done || lia).
    destruct (Ascii.eqb_spec a b) as [->|Hn].
    + by destruct (ascii_dec b b).
    + by destruct (ascii_dec a b).
Qed.

Lemma fmap_text_eq o (h : string) : BText <$> o = Some (BText h) ↔ o = Some h.
Proof. destruct o; simpl; split; congruence. Qed.

Lemma satisfied_many_any r l :
  satisfied r (many (KAny "contract_id") l) = negb (non_empty l) || mem (EventStore.c_contract_id (cols r)) l.
Proof. by destruct l. Qed.

Lemma satisfied_many_not r col l s :
  cell (sql env) col r = Some (BText s) → satisfied r (many (KNotAll col) l) = negb (mem s l).
Proof. intros Hc. destruct l; [done|]. unfold many, satisfied, on_given. simpl. by rewrite Hc. Qed.

Lemma ge_sem a b : match (a ?= b) with Lt => false | _ => true end = (b <=? a).
Proof. rewrite Z.leb_compare, Z.compare_antisym. by destruct (b ?= a). Qed.

Lemma le_sem a b : match (a ?= b) with Gt => false | _ => true end = (a <=? b).
Proof. by rewrite Z.leb_compare. Qed.

(** Decides the equality of a column's condition with its meaning. *)
Ltac column :=
  first
    [ reflexivity
    | apply opt_all_ext; intros ? ?; unfold sem; simpl; rewrite ?ge_sem, ?le_sem;
      first [reflexivity | apply bool_decide_ext; unfold cell; simpl; rewrite ?fmap_text_eq; first [tauto|split; congruence]] ].

Lemma shared_satisfied q r :
  opt_all (contract_id_prefix (params q)) (λ s, string_forallb is_alphanumeric (trim s)) = true →
  forallb (satisfied r) (shared_given q) = matches_columns q r.
Proof.
  intros Hp. unfold shared_given, matches_columns, row_ledger. cbn [forallb].
  rewrite !satisfied_one, !opt_all_fmap, satisfied_many_any, andb_true_r, !andb_assoc.
  repeat apply (f_equal2 andb); try column.
  apply opt_all_ext. intros s Hs. rewrite Hs in Hp. simpl in Hp |- *. unfold like_matches, prefix_pattern.
  apply like_prefix; [done|]. rewrite string_length_app. simpl. lia.
Qed.

Lemma late_satisfied q r : forallb (satisfied r) (late_given q) = matches_late q r.
Proof.
  unfold late_given, matches_late. cbn [forallb].
  rewrite !satisfied_one, !opt_all_fmap, (satisfied_many_not r "contract_id" _ (EventStore.c_contract_id (cols r)) eq_refl),
    (satisfied_many_not r "event_type" _ (EventStore.c_event_type (cols r)) eq_refl), andb_true_r, !andb_assoc.
  repeat apply (f_equal2 andb); column.
Qed.

Lemma topics_satisfied p r :
  forallb (satisfied r) (topic_given p) && satisfied r (one (KEq "chain_id"%string) (BText <$> network p)) = matches_topics p r.
Proof.
  unfold topic_given, matches_topics, topic_bind. cbn [forallb].
  rewrite !satisfied_one, !opt_all_fmap, andb_true_r, !andb_assoc. repeat apply (f_equal2 andb); column.
Qed.

Lemma text_satisfied s e r : forallb (satisfied r) (text_given s e) = matches_text s e r.
Proof.
  unfold text_given, matches_text. cbn [forallb]. rewrite !satisfied_one, !opt_all_fmap, andb_true_r. done.
Qed.

(** A validated request: its parts, and a prefix of letters and digits. *)
Lemma validated p x h tenant q :
  validate_request p x h tenant = Ok q →
  params q = p ∧ extra q = x ∧ tenant_id q = tenant ∧
  opt_all (contract_id_prefix p) (λ s, string_forallb is_alphanumeric (trim s)) = true ∧
  parse_contract_ids p = Ok (contract_ids_list q).
Proof.
  unfold validate_request, result_bind.
  repeat (case_match; [|discriminate]). intros [= <-]. simpl. split_and!; try done.
  destruct (contract_id_prefix p) as [s|]; [|done]. simpl in *. unfold validate_prefix, check, result_bind in *.
  destruct (4 <=? _)%nat; [|done]. by destruct (string_forallb _ (trim s)).
Qed.

(** The expression of [data_pattern]. *)
Definition pattern_expr (x : Extra) : option string :=
  match data_pattern x, pattern x with
  | Some path, Some pat => Some (format_jsonpath_filter path pat)
  | _, _ => None
  end.

Lemma data_pattern_bind_ok x o :
  data_pattern_bind x = Ok o → o = BText <$> pattern_expr x ∧ present (pattern_expr x) = present (data_pattern x).
Proof.
  unfold data_pattern_bind, pattern_expr, ok_or. destruct (data_pattern x), (pattern x); simpl; try done; by intros [= <-].
Qed.

(** The keyset condition of a cursor. *)
Definition beyond (q : Request) (b : Bind) (id : Z) (r : Row) : bool :=
  sem (sql env) (KKeyset (as_sql_col (order_col q)) (keyset_op (order q))) [b; BUuid id] r.

Lemma keyset_binds_ok b text id bs : keyset_binds b text id = Ok bs → ∃ v, bs = [v; BUuid id].
Proof. unfold keyset_binds, ok_or. destruct b, (parse_i 64 text), (parse_datetime env text); simpl; intros [= <-]; eauto. Qed.

Lemma limit_range p : 1 ≤ limit p ≤ 100.
Proof. unfold limit. apply clamp_range. lia. Qed.

Lemma count_at_page all l o :
  count_at (all ++ [BI64 l; BI64 o]) (Some (Z.of_nat (length all) + 1)) = Some (Z.to_nat l) ∧
  count_at (all ++ [BI64 l; BI64 o]) (Some (Z.of_nat (length all) + 1 + 1)) = Some (Z.to_nat o).
Proof.
  split; [apply count_at_last|]. pose proof (count_at_last (all ++ [BI64 l]) o []) as H.
  rewrite <- app_assoc, length_app in H. cbn [length app] in H.
  by replace (Z.of_nat (length all + 1) + 1) with (Z.of_nat (length all) + 1 + 1) in H by lia.
Qed.

Lemma count_at_none bs : count_at bs None = None.
Proof. done. Qed.

Lemma list_forallb_app_given q expr r :
  opt_all (contract_id_prefix (params q)) (λ s, string_forallb is_alphanumeric (trim s)) = true →
  forallb (satisfied r) (cursor_given q expr) =
    matches q r && matches_topics (params q) r &&
    matches_text (exchanged (search (params q)) expr).1 (exchanged (search (params q)) expr).2 r ∧
  forallb (satisfied r) (offset_given q) = matches q r && matches_text (search (params q)) None r.
Proof.
  intros Hp. unfold cursor_given, offset_given, matches. rewrite !List.forallb_app, shared_satisfied by done.
  rewrite <- topics_satisfied, text_satisfied, late_satisfied. cbn [forallb]. rewrite !andb_true_r.
  assert (satisfied r (one KSearch (BText <$> search (params q))) = matches_text (search (params q)) None r) as ->.
  { rewrite satisfied_one, opt_all_fmap. unfold matches_text. by rewrite andb_true_r. }
  split.
  - generalize (satisfied r (one (KEq "chain_id"%string) (BText <$> network (params q)))), (matches_columns q r),
      (matches_late q r), (forallb (satisfied r) (topic_given (params q))),
      (matches_text (exchanged (search (params q)) expr).1 (exchanged (search (params q)) expr).2 r).
    intros [] [] [] [] []; done.
  - by destruct (matches_columns q r), (matches_late q r), (matches_text _ _ _).
Qed.

(** The cursor query's conditions and parameters, as one list of filters. *)
Lemma cursor_query_parts q columns c qr bs :
  cursor_query q columns c = Ok (qr, bs) →
  ∃ tag text v id,
    decode_cursor_tagged (b64_decode env) (utf8_valid env) (parse_uuid env) (is_v4 env) c = Ok (tag, text, id) ∧
    keyset_binds (order_col q) text id = Ok [v; BUuid id] ∧ want_rank q = false ∧
    let all := cursor_given q (pattern_expr (extra q)) in
    let st := fold_left push (flags all) ([mkCond (KKeyset (as_sql_col (order_col q)) (keyset_op (order q))) 1], 3) in
    q_where qr = st.1 ∧ q_order qr = cursor_order q ∧ q_limit qr = Some st.2 ∧ q_offset qr = None ∧
    bs = [v; BUuid id] ++ values all ++ [BI64 (limit (params q))].
Proof.
  unfold cursor_query. destruct (decode_cursor_tagged _ _ _ _ c) as [[[tag text] id]|]; [|done]. cbn [result_bind].
  unfold check at 1. destruct (String.eqb tag _); [|done]. cbn [result_bind].
  destruct (cursor_conditions q _ _) as [conds bind_idx] eqn:Ec.
  destruct (cursor_columns q columns conds) as [[sc sqc]|] eqn:Eq; [|done]. cbn [result_bind].
  destruct (check_columns sc) eqn:Ech; [|done]. cbn [result_bind].
  destruct (keyset_binds _ text id) as [first|] eqn:Ek; [|done]. cbn [result_bind].
  destruct (cursor_binds q) as [binds|] eqn:Eb; [|done]. cbn [result_bind]. intros [= <- <-].
  destruct (keyset_binds_ok _ _ _ _ Ek) as [v ->].
  exists tag, text, v, id. split; [done|]. split; [done|].
  unfold cursor_binds in Eb. destruct (data_pattern_bind (extra q)) as [expr|] eqn:Ed; [|done]. cbn in Eb.
  injection Eb as <-. apply data_pattern_bind_ok in Ed as [-> Hpres]. split.
  - unfold cursor_columns in Eq. destruct (want_rank q); [|done]. unfold check in Eq.
    destruct (present _); [|done]. cbn in Eq. injection Eq as <- _. exfalso. revert Ech.
    unfold check_columns. destruct (List.find _ _) eqn:Ef; [done|]. intros _.
    eapply List.find_none in Ef; [|apply list_elem_of_In; instantiate (1 := "relevance_score"%string)]; [done|].
    destruct (mem "relevance_score" _) eqn:Em.
    + apply existsb_exists in Em as (y & Hy & ->%String.eqb_eq). by apply list_elem_of_In.
    + set_solver.
  - cbv zeta. rewrite (proj1 (flags_given q _) Hpres), (proj1 (values_given q _)).
    unfold cursor_conditions in Ec. by rewrite Ec.
Qed.

Lemma cursor_query_spec q columns c qr bs :
  opt_all (contract_id_prefix (params q)) (λ s, string_forallb is_alphanumeric (trim s)) = true →
  cursor_query q columns c = Ok (qr, bs) →
  ∃ tag text v id,
    decode_cursor_tagged (b64_decode env) (utf8_valid env) (parse_uuid env) (is_v4 env) c = Ok (tag, text, id) ∧
    keyset_binds (order_col q) text id = Ok [v; BUuid id] ∧ want_rank q = false ∧
    Z.of_nat (length bs) = query_params qr ∧
    ∀ rows, select (sql env) qr bs rows =
      take (Z.to_nat (limit (params q))) (order_by (sql env) (cursor_order q) (List.filter (λ r,
        beyond q v id r && (matches q r && matches_topics (params q) r &&
        matches_text (exchanged (search (params q)) (pattern_expr (extra q))).1
                     (exchanged (search (params q)) (pattern_expr (extra q))).2 r)) rows)).
Proof.
  intros Hp Hq. destruct (cursor_query_parts _ _ _ _ _ Hq) as (tag & text & v & id & Hd & Hk & Hr & Hw & Ho & Hl & Hof & ->).
  exists tag, text, v, id. do 3 (split; [done|]). set (all := cursor_given _ _) in *.
  pose proof (λ r, push_aligned (λ k bs, sem (sql env) k bs r) all (proj1 (well_all q (pattern_expr (extra q))))
    [mkCond (KKeyset (as_sql_col (order_col q)) (keyset_op (order q))) 1] [v; BUuid id] [BI64 (limit (params q))] eq_refl) as Ha.
  change (Z.of_nat (length [v; BUuid id]) + 1) with 3 in Ha. cbv zeta in Ha. rewrite <- Hw in Ha.
  destruct (Ha (mkRow (EventStore.mkRow 0 0 (EventStore.mkColumns "" "" "" 0 0 Null None true None None "" None None ""
                 None None None None None)) None 0 true)) as (_ & Hidx & Hcp). rewrite Hidx in Hl. cbn [length] in Hcp, Hl.
  split.
  - unfold query_params. rewrite Hcp, Hl, Hof. cbn [default]. unfold all. rewrite !length_app. simpl. lia.
  - intros rows. unfold select. rewrite Hof, Hl, Ho, count_at_none, app_assoc.
    pose proof (count_at_last ([v; BUuid id] ++ values all) (limit (params q)) []) as Hc. rewrite length_app in Hc. cbn [length] in Hc.
    rewrite Hc. f_equal. f_equal. unfold matching. apply filter_ext_list. intros r.
    destruct (Ha r) as (Hh & _). rewrite <- app_assoc. refine (eq_trans Hh _).
    rewrite <- (proj1 (list_forallb_app_given q (pattern_expr (extra q)) r Hp)). cbn [forallb]. by rewrite andb_true_r.
Qed.

(** The conditions of the offset path, on its binds followed by any others. *)
Lemma offset_where q post r :
  opt_all (contract_id_prefix (params q)) (λ s, string_forallb is_alphanumeric (trim s)) = true →
  forallb (holds (sql env) (offset_binds q ++ post) r) (offset_conditions q).1 =
    matches q r && matches_text (search (params q)) None r ∧
  (offset_conditions q).2 = Z.of_nat (length (offset_binds q)) + 1 ∧
  conds_params (offset_conditions q).1 = Z.of_nat (length (offset_binds q)).
Proof.
  intros Hp. destruct (well_all q None) as [_ Hw].
  destruct (push_aligned (λ k bs, sem (sql env) k bs r) _ Hw [] [] post eq_refl) as (Hh & Hidx & Hcp).
  rewrite (proj2 (flags_given q None)), (proj2 (values_given q None)) in Hh, Hidx, Hcp. cbn [app length] in Hh, Hidx, Hcp.
  change (Z.of_nat 0 + 1) with 1 in Hh, Hidx, Hcp. split_and!; [|exact Hidx|exact Hcp].
  rewrite <- (proj2 (list_forallb_app_given q None r Hp)). exact Hh.
Qed.

Lemma offset_query_spec q columns qr bs :
  opt_all (contract_id_prefix (params q)) (λ s, string_forallb is_alphanumeric (trim s)) = true →
  offset_query q columns = Ok (qr, bs) →
  Z.of_nat (length bs) = query_params qr ∧
  conds_params (offset_conditions q).1 = Z.of_nat (length (offset_binds q)) ∧
  ∀ rows, select (sql env) qr bs rows =
    take (Z.to_nat (limit (params q))) (drop (Z.to_nat (offset (params q))) (order_by (sql env) (offset_order q)
      (List.filter (λ r, matches q r && matches_text (search (params q)) None r) rows))).
Proof.
  intros Hp. pose proof (λ r, offset_where q [BI64 (limit (params q)); BI64 (offset (params q))] r Hp) as Ha.
  unfold offset_query. destruct (offset_conditions q) as [conds bind_idx] eqn:Ec.
  destruct (check_columns _); [|done]. cbn [result_bind]. intros [= <- <-]. set (all := offset_binds q) in *.
  destruct (Ha (mkRow (EventStore.mkRow 0 0 (EventStore.mkColumns "" "" "" 0 0 Null None true None None "" None None ""
                 None None None None None)) None 0 true)) as (_ & Hidx & Hcp). cbn [fst snd] in Hidx, Hcp.
  split_and!.
  - unfold query_params. cbn [q_where q_limit q_offset]. rewrite Hcp, Hidx, length_app. simpl. lia.
  - done.
  - intros rows. unfold select. cbn [q_offset q_limit q_order q_where]. rewrite Hidx.
    destruct (count_at_page all (limit (params q)) (offset (params q))) as [Hl Ho].
    rewrite Hl, Ho. f_equal. f_equal. f_equal.
    unfold matching. apply filter_ext_list. intros r. apply (Ha r).
Qed.

(** C4. Both queries of [get_events] mean what the request says.  Their
    placeholders are as many as their binds, and they select the rows that
    satisfy the filters, ordered, within the limit.  The cursor query takes
    the rows beyond its cursor; when [search] and [data_pattern] are both given
    it evaluates each on the other's parameter.  The offset query leaves out
    the filters on topics, network and [data_pattern]. *)
Theorem get_events_selects p x h tenant q columns :
  validate_request p x h tenant = Ok q →
  (∀ c qr bs, cursor_query q columns c = Ok (qr, bs) →
     ∃ tag text v id,
       decode_cursor_tagged (b64_decode env) (utf8_valid env) (parse_uuid env) (is_v4 env) c = Ok (tag, text, id) ∧
       keyset_binds (order_col q) text id = Ok [v; BUuid id] ∧
       Z.of_nat (length bs) = query_params qr ∧
       ∀ rows, select (sql env) qr bs rows =
         let '(fts, path) := exchanged (search p) (pattern_expr x) in
         take (Z.to_nat (limit p)) (order_by (sql env) (cursor_order q) (List.filter (λ r,
           beyond q v id r && (matches q r && matches_topics p r && matches_text fts path r)) rows))) ∧
  (∀ qr bs, offset_query q columns = Ok (qr, bs) →
     Z.of_nat (length bs) = query_params qr ∧
     ∀ rows, select (sql env) qr bs rows =
       take (Z.to_nat (limit p)) (drop (Z.to_nat (offset p)) (order_by (sql env) (offset_order q)
         (List.filter (λ r, matches q r && matches_text (search p) None r) rows)))).
Proof.
  intros Hv. apply validated in Hv as (<- & <- & _ & Hp & _). split.
  - intros c qr bs Hq. destruct (cursor_query_spec _ _ _ _ _ Hp Hq) as (tag & text & v & id & Hd & Hk & _ & Hl & Hs).
    exists tag, text, v, id. split_and!; try done. intros rows. rewrite Hs. by destruct (exchanged _ _).
  - intros qr bs Hq. destruct (offset_query_spec _ _ _ _ Hp Hq) as (Hl & _ & Hs). done.
Qed.

(** The count query has the binds of the page, but for those of [contract_ids]
    and [contract_id_prefix]. *)
Lemma count_binds_length q :
  (length (offset_binds q) =
   length (count_binds q) + length (bind_list (contract_ids_list q)) +
   length (bind1 ((λ s, BText (prefix_pattern s)) <$> contract_id_prefix (params q))))%nat.
Proof. unfold offset_binds, shared_binds, count_binds. rewrite !length_app. lia. Qed.

Lemma count_binds_same q : length (count_binds q) = length (offset_binds q) → count_binds q = offset_binds q.
Proof.
  intros Hl. pose proof (count_binds_length q) as Hc.
  assert (contract_ids_list q = []) as Hi by (destruct (contract_ids_list q); [done|simpl in Hc; lia]).
  assert (contract_id_prefix (params q) = None) as Hn by (destruct (contract_id_prefix (params q)); [simpl in Hc; lia|done]).
  unfold count_binds, offset_binds, shared_binds. rewrite Hi, Hn, <- !app_assoc. reflexivity.
Qed.

(** *** The types of the parameters *)

Definition well_typed (q : Query) (binds : list Bind) : bool :=
  forallb (on_params cond_typed binds) (q_where q) && count_typed binds (q_limit q) && count_typed binds (q_offset q).

Lemma typed_one {A} k (f : A → Bind) o : (∀ x, cond_typed k [f x] = true) → on_given cond_typed (one k (f <$> o)) = true.
Proof. destruct o; [by intros H; apply H|done]. Qed.

Lemma typed_many l :
  on_given cond_typed (many (KAny "contract_id") l) = true ∧
  on_given cond_typed (many (KNotAll "contract_id") l) = true ∧
  on_given cond_typed (many (KNotAll "event_type") l) = true.
Proof. by destruct l. Qed.

Lemma typed_near x : on_given cond_typed (KEarth, near x) = true.
Proof. unfold near, on_given. cbn. by destruct (near_lat x), (near_lon x), (radius_km x). Qed.

Lemma typed_given q expr :
  forallb (on_given cond_typed) (cursor_given q expr) = true ∧ forallb (on_given cond_typed) (offset_given q) = true.
Proof.
  unfold cursor_given, offset_given, shared_given, topic_given, topic_bind, text_given, late_given. cbn [forallb app].
  split; repeat (apply andb_true_iff; split); try done; first [by apply typed_one|apply typed_many|apply typed_near].
Qed.

Lemma count_typed_at pre n post : count_typed (pre ++ BI64 n :: post) (Some (Z.of_nat (length pre) + 1)) = true.
Proof.
  unfold count_typed. replace (Z.to_nat (Z.of_nat (length pre) + 1 - 1)) with (length pre) by lia.
  by rewrite lookup_app_r, Nat.sub_diag by done.
Qed.

Lemma keyset_typed q text v id :
  keyset_binds (order_col q) text id = Ok [v; BUuid id] →
  cond_typed (KKeyset (as_sql_col (order_col q)) (keyset_op (order q))) [v; BUuid id] = true.
Proof.
  unfold keyset_binds, ok_or. destruct (order_col q), (parse_i 64 text), (parse_datetime env text); simpl;
    by intros [= <-].
Qed.

(** C26. The page queries that [get_events] sends are well typed: each placeholder
    gets a parameter of the type its column and operator take, and [LIMIT] and
    [OFFSET] a bigint.  So is the count query of a request without
    [contract_ids] and [contract_id_prefix]; that of a request with one of them
    has fewer parameters than placeholders, and is refused. *)
Theorem get_events_well_typed q columns :
  (∀ c qr bs, cursor_query q columns c = Ok (qr, bs) → well_typed qr bs = true) ∧
  (∀ qr bs, offset_query q columns = Ok (qr, bs) → well_typed qr bs = true) ∧
  (contract_ids_list q = [] ∧ contract_id_prefix (params q) = None →
   Z.of_nat (length (count_binds q)) = conds_params (offset_conditions q).1 ∧
   forallb (on_params cond_typed (count_binds q)) (offset_conditions q).1 = true) ∧
  (contract_ids_list q ≠ [] ∨ contract_id_prefix (params q) ≠ None →
   Z.of_nat (length (count_binds q)) < conds_params (offset_conditions q).1).
Proof.
  assert (∀ post, forallb (on_params cond_typed (offset_binds q ++ post)) (offset_conditions q).1 = true ∧
          (offset_conditions q).2 = Z.of_nat (length (offset_binds q)) + 1 ∧
          conds_params (offset_conditions q).1 = Z.of_nat (length (offset_binds q))) as Hoff.
  { intros post. destruct (push_aligned cond_typed _ (proj2 (well_all q None)) [] [] post eq_refl) as (Hh & Hidx & Hcp).
    rewrite (proj2 (flags_given q None)), (proj2 (values_given q None)) in Hh, Hidx, Hcp. cbn [app length] in Hh, Hidx, Hcp.
    split_and!; [|exact Hidx|exact Hcp]. rewrite <- (proj2 (typed_given q None)). exact Hh. }
  split_and!.
  - intros c qr bs Hq. destruct (cursor_query_parts _ _ _ _ _ Hq) as (tag & text & v & id & _ & Hk & _ & Hw & _ & Hl & Hof & ->).
    set (all := cursor_given _ _) in *.
    destruct (push_aligned cond_typed all (proj1 (well_all q (pattern_expr (extra q))))
      [mkCond (KKeyset (as_sql_col (order_col q)) (keyset_op (order q))) 1] [v; BUuid id] [BI64 (limit (params q))] eq_refl)
      as (Hh & Hidx & _).
    change (Z.of_nat (length [v; BUuid id]) + 1) with 3 in Hh, Hidx. cbv zeta in Hh. rewrite <- Hw in Hh.
    rewrite Hidx in Hl. unfold well_typed. rewrite Hh, Hl, Hof, app_assoc, andb_true_r.
    replace (length [v; BUuid id] + length (values all))%nat with (length ([v; BUuid id] ++ values all)) by (by rewrite length_app).
    rewrite count_typed_at, andb_true_r. unfold all. rewrite (proj1 (typed_given _ _)). cbn [forallb]. rewrite !andb_true_r.
    by apply (keyset_typed q text).
  - intros qr bs. unfold offset_query. destruct (Hoff [BI64 (limit (params q)); BI64 (offset (params q))]) as (Hh & Hidx & _).
    destruct (offset_conditions q) as [conds bind_idx]. cbn [fst snd] in Hh, Hidx.
    destruct (check_columns _); [|done]. intros [= <- <-]. unfold well_typed. cbn [q_where q_limit q_offset].
    rewrite Hh, Hidx, count_typed_at. pose proof (count_typed_at (offset_binds q ++ [BI64 (limit (params q))]) (offset (params q)) []) as H.
    rewrite <- app_assoc, length_app in H. cbn [length app] in H.
    by replace (Z.of_nat (length (offset_binds q) + 1) + 1) with (Z.of_nat (length (offset_binds q)) + 1 + 1) in H by lia.
  - intros [Hi Hn]. destruct (Hoff []) as (Hh & _ & Hc). rewrite app_nil_r in Hh.
    rewrite (count_binds_same q); [by split|]. pose proof (count_binds_length q) as Hl. rewrite Hi, Hn in Hl. cbn in Hl. lia.
  - intros Hor. destruct (Hoff []) as (_ & _ & ->). pose proof (count_binds_length q) as Hl.
    destruct (contract_ids_list q), (contract_id_prefix (params q)); cbn in Hl; try lia. by destruct Hor.
Qed.

(** ** Requests that are never served *)

Lemma fails_fetch {A} needed binds (f : list Row → A) : Z.of_nat (length binds) ≠ needed → fails (fetch needed binds f).
Proof.
  intros Hn s. unfold fetch, stmt. destruct (db_fault _ _); [done|]. by rewrite (proj2 (Z.eqb_neq _ _) Hn).
Qed.

Lemma parse_contract_ids_nonempty p ids : parse_contract_ids p = Ok ids → contract_ids p ≠ None → ids ≠ [].
Proof.
  unfold parse_contract_ids. destruct (contract_ids p) as [s|]; [|done]. unfold check, result_bind.
  destruct (Nat.ltb_spec 0 (length (List.filter (λ s, negb (is_empty s)) (map trim (split_on "," s))))); [|done].
  destruct (_ <=? _)%nat; [|done]. destruct (all_valid _); [|done]. intros [= <-] _ Hn. rewrite Hn in *. simpl in *. lia.
Qed.

(** Without a cursor, a filter on [contract_ids] or [contract_id_prefix] is
    never answered: the count query has placeholders for them and no binds, and
    the database refuses it. *)
Theorem contract_filters_never_served p x h tenant :
  cursor p = None → contract_ids p ≠ None ∨ contract_id_prefix p ≠ None → fails (get_events p x h tenant).
Proof.
  intros Hc Hf. unfold get_events. rewrite Hc. apply fails_of_result. intros q Hv.
  apply fails_of_result. intros columns _. apply validated in Hv as (<- & _ & _ & Hp & Hids).
  apply fails_of_result. intros [qr bs] Hq. destruct (offset_query_spec _ _ _ _ Hp Hq) as (_ & Hcp & _).
  apply fails_bind_r. intros rows. apply fails_bind_r. intros events. apply fails_bind_l.
  assert (length (count_binds q) < length (offset_binds q))%nat as Hlt.
  { pose proof (count_binds_length q) as Hl. destruct Hf as [Hi|Hpre].
    - pose proof (parse_contract_ids_nonempty _ _ Hids Hi). destruct (contract_ids_list q); [done|]. simpl in Hl. lia.
    - destruct (contract_id_prefix (params q)); [|done]. simpl in Hl. lia. }
  unfold total_count. destruct (offset_conditions q).1 as [|c l] eqn:Ec.
  { change (conds_params []) with 0 in Hcp. lia. }
  rewrite orb_true_r. apply fails_bind_l, fails_fetch. lia.
Qed.

(** The next cursor of a page sorted by a time is refused by every request
    that uses it. *)
Theorem time_cursor_never_served p x h tenant q rows n c :
  CursorLaws (b64_encode env) (b64_decode env) (utf8_valid env) (show_uuid env) (parse_uuid env) →
  (∀ t, ∃ hour minute zone, to_rfc3339 env t = (hour +:+ ":" +:+ (minute +:+ "+" +:+ zone))%string ∧
     no_colon hour = true ∧ ascii_text (hour +:+ minute +:+ zone)%string = true) →
  order_col q ≠ Ledger → next_cursor (order_col q) rows n = Some c → cursor p = Some c →
  fails (get_events p x h tenant).
Proof.
  intros L Hrfc Hb Hn Hc. unfold get_events. rewrite Hc. apply fails_of_result. intros q' _.
  apply fails_of_result. intros columns _. apply fails_of_result. intros [qr bs] Hq. exfalso.
  assert (∃ t id, c = encode_cursor_tagged (b64_encode env) (show_uuid env) (as_tag (order_col q)) (to_rfc3339 env t) id)
    as (t & id & ->).
  { unfold next_cursor in Hn. destruct (last rows) as [r|]; [|done]. destruct (_ =? n); [|done].
    injection Hn as <-. destruct (order_col q); [done|eauto..]. }
  destruct (Hrfc t) as (ho & mi & zo & E & Hh & Ha). unfold cursor_query in Hq.
  by rewrite E, (time_cursor_rejected _ _ _ _ _ (is_v4 env) L) in Hq by done.
Qed.

(** Ranking by relevance is never served with a cursor: the score is not an
    allowed column. *)
Lemma ranked_cursor_never_served p x h tenant :
  cursor p ≠ None → rank_by_relevance x = Some true → fails (get_events p x h tenant).
Proof.
  intros Hc Hr. unfold get_events. destruct (cursor p) as [c|]; [|done]. apply fails_of_result. intros q Hv.
  apply fails_of_result. intros columns _. apply fails_of_result. intros [qr bs] Hq.
  apply validated in Hv as (<- & <- & _ & Hp & _). destruct (cursor_query_spec _ _ _ _ _ Hp Hq) as (? & ? & ? & ? & _ & _ & Hw & _).
  unfold want_rank in Hw. by rewrite Hr in Hw.
Qed.

Definition contract_given (p : PaginationParams) (tenant : option string) : list given :=
  [one (KGe "ledger") (BI64 <$> from_ledger p); one (KLe "ledger") (BI64 <$> to_ledger p);
   one (KEq "tenant_id") (BText <$> tenant)]%string.

Definition contract_matches (contract : string) (p : PaginationParams) (tenant : option string) (r : Row) : bool :=
  bool_decide (EventStore.c_contract_id (cols r) = contract) &&
  opt_all (from_ledger p) (λ l, l <=? row_ledger r) && opt_all (to_ledger p) (λ l, row_ledger r <=? l) &&
  opt_all tenant (λ t, bool_decide (EventStore.c_tenant_id (cols r) = Some t)).

Lemma contract_where contract p tenant post r :
  let st := contract_conditions p tenant in
  forallb (holds (sql env) (contract_binds contract p tenant ++ post) r) st.1 = contract_matches contract p tenant r ∧
  st.2 = Z.of_nat (length (contract_binds contract p tenant)) + 1 ∧
  conds_params st.1 = Z.of_nat (length (contract_binds contract p tenant)).
Proof.
  assert (Forall well_given (contract_given p tenant)) as Hw.
  { repeat (apply Forall_cons; split); try apply Forall_nil; try done; by apply well_one. }
  assert (flags (contract_given p tenant) = [(present (from_ledger p), KGe "ledger"); (present (to_ledger p), KLe "ledger");
    (present tenant, KEq "tenant_id")]%string) as Ef by (unfold flags; simpl; by rewrite !present_fmap).
  assert (contract_binds contract p tenant = [BText contract] ++ values (contract_given p tenant)) as Eb.
  { unfold values, contract_binds. simpl. by rewrite !value_one, app_nil_r. }
  destruct (push_aligned (λ k bs, sem (sql env) k bs r) _ Hw [mkCond (KEq "contract_id"%string) 1] [BText contract] post eq_refl) as (H1 & H2 & H3).
  rewrite Ef in H1, H2, H3. rewrite Eb, <- app_assoc, length_app. split_and!; [|exact H2|exact H3].
  change (Z.of_nat (length [BText contract]) + 1) with 2 in H1. unfold contract_conditions. refine (eq_trans H1 _).
  change (on_given _) with (satisfied r). unfold contract_matches, contract_given, row_ledger. cbn [forallb]. rewrite !satisfied_one, !opt_all_fmap, !andb_true_r, !andb_assoc.
  repeat apply (f_equal2 andb); try column.
  unfold holds. cbn. apply bool_decide_ext. split; congruence.
Qed.

(** The events of a contract are never returned: a column that the row type
    requires is not selected.  A valid request is answered with a database
    error when its page has an event, and with "not found" when it has none. *)
Theorem contract_events_never_served contract p tenant :
  fails (get_events_by_contract contract p tenant) ∧
  ∀ s columns,
    healthy (pg env) → validate_contract_id contract = Ok () →
    each (validate_ledger_param "from_ledger") (from_ledger p) = Ok () →
    each (validate_ledger_param "to_ledger") (to_ledger p) = Ok () →
    ordered (from_ledger p) (to_ledger p) = true → resolve_columns p = Ok columns →
    let page := take (Z.to_nat (limit p)) (drop (Z.to_nat (offset p))
      (order_by (sql env) [key (as_sql (default Desc (sort p))) "ledger"]
        (List.filter (contract_matches contract p tenant) (db s)))) in
    (get_events_by_contract contract p tenant s).1 =
      Err (match page with [] => NotFound | _ => Database "no column found for name: event_data_normalized" end).
Proof.
  split.
  - unfold get_events_by_contract. do 4 (apply fails_of_result; intros ? _). apply fails_of_result. intros columns _.
    destruct (contract_conditions p tenant) as [conds bind_idx]. apply fails_bind_r. intros rows.
    destruct rows as [|r rows].
    + apply fails_of_result. intros rows [= <-]. by intros s.
    + apply fails_of_result. intros rows' E. cbn in E. discriminate.
  - intros s columns Hh Hc Hf Ht Ho Hcols page. unfold get_events_by_contract. rewrite Hc, Hf, Ht, Ho, Hcols. unfold of_result, mbind, M_bind. cbn [check].
    destruct (contract_where contract p tenant [BI64 (limit p); BI64 (offset p)] (mkRow (EventStore.mkRow 0 0
      (EventStore.mkColumns "" "" "" 0 0 Null None true None None "" None None "" None None None None None)) None 0 true))
      as (_ & Hidx & Hcp).
    destruct (contract_conditions p tenant) as [conds bind_idx] eqn:Ec. cbn [fst snd] in Hidx, Hcp.
    set (q := mkQuery _ _ _ _ _). set (bs := contract_binds contract p tenant ++ [BI64 (limit p); BI64 (offset p)]).
    assert (fetch_all q bs s = (Ok page, mkSt (db s) (S (ops s)) (trace s))) as ->.
    { assert (Z.of_nat (length bs) = query_params q) as Hn.
      { subst q bs. unfold query_params. cbn [q_where q_limit q_offset]. rewrite Hcp, Hidx, length_app. simpl. lia. }
      rewrite fetch_all_healthy by done. f_equal. f_equal. subst q bs. unfold select. cbn [q_offset q_limit q_order q_where].
      rewrite Hidx. set (all := contract_binds contract p tenant).
      destruct (count_at_page all (limit p) (offset p)) as [Hl Hof].
      rewrite Hl, Hof. unfold page, matching. f_equal. f_equal. f_equal. apply filter_ext_list. intros r.
      destruct (contract_where contract p tenant [BI64 (limit p); BI64 (offset p)] r) as (Hw & _).
      rewrite Ec in Hw. exact Hw. }
    by destruct page.
Qed.

(** ** Cached pages *)

(** The tag of a cursor page depends on its first row alone: a client that has
    the tag is told "not modified" whatever follows that row. *)
Theorem cursor_page_not_modified q columns c h s qr bs r rest fmt events :
  healthy (pg env) → cursor_query q columns c = Ok (qr, bs) → Z.of_nat (length bs) = query_params qr →
  select (sql env) qr bs (db s) = r :: rest → parse_format (format (params q)) = Ok fmt →
  rows_to_json (r :: rest) columns (is_compact q) fmt = Ok events →
  let tag := compute_etag (row_id r) (EventStore.row_created_at (stored r)) None in
  header_str "if-none-match" h = Some tag →
  (cursor_page q columns c h s).1 = Ok (NotModified tag).
Proof.
  intros Hh Hq Hn Hs Hf He tag Hi. unfold cursor_page. rewrite Hq.
  assert (fetch_all qr bs s = (Ok (r :: rest), mkSt (db s) (S (ops s)) (trace s))) as E.
  { by rewrite fetch_all_healthy, Hs by done. }
  unfold of_result, mbind, M_bind. cbn [fst snd]. rewrite E, Hf, He. unfold respond, if_none_match, page_etag. cbn.
  rewrite Hi. cbn. by rewrite String.eqb_refl.
Qed.

End EventsQuery.

(** ** Concrete runs *)

Definition demo_sql : Sql :=
  mkSql (λ _, None) (λ _ _ _, true) (λ _ t, String.eqb t "transfer") (λ _ _, true) (λ _ _ _ _, true).

Definition demo_env : Env :=
  mkEnv (mkPgEnv (λ n, Z.of_nat n) (λ _, None)) demo_sql (λ s, s) Some (λ _, true) demo_show (digits_val 0) (λ _, true)
    (λ _, None) (λ _, "2026-03-14T00:00:00+00:00")%string show_i (λ _, "{}")%string None (λ _, None) (λ _, None) Ok
    (λ _, "digest01"%string) [] 0 (None, None) (λ _ _, None).

Definition demo_row (id ledger tx : Z) (tenant : option string) : Row :=
  mkRow (EventStore.mkRow id 0 (EventStore.mkColumns "C" "contract" "t" ledger 0 Null None true None tenant "" None None ""
           (Some tx) (Some 0) (Some 0) None None)) None 0 false.

(** A request with a cursor, a limit of two, oldest first. *)
Definition demo_params (ids : option string) (sort_col : option SortBy) (c : option string) : PaginationParams :=
  mkParams None (Some 2) None None None ids None (Some 5) None None c (Some Asc) sort_col None None None None None None
    None None (Some "transfer"%string) None None None None None None.

Definition demo_extra : Extra := mkExtra None [] [] None None None (Some "$.a"%string) (Some "x"%string) None.
Definition plain_extra : Extra := mkExtra None [] [] None None None None None None.

Definition demo_cursor : string := encode_cursor_tagged (λ s, s) demo_show "ledger" "6" 1.

Definition demo_request (x : Extra) (c : option string) : Request :=
  mkRequest (demo_params None None c) x [] None None (Some "acme"%string).

Definition demo_query (columns : list string) (x : Extra) : Query * list Bind :=
  match cursor_query demo_env (demo_request x (Some demo_cursor)) columns demo_cursor with
  | Ok qb => qb
  | Err _ => (mkQuery [] [] [] None None, [])
  end.

(** With [search] and [data_pattern] the text search gets the path expression. *)
Lemma get_events_selects_witness :
  let qb := demo_query ALLOWED_FIELDS demo_extra in
  Z.of_nat (length qb.2) = query_params qb.1 ∧ qb.2 !! 3%nat = Some (BText (format_jsonpath_filter "$.a" "x")) ∧
  qb.2 !! 4%nat = Some (BText "transfer") ∧
  map render_cond (q_where qb.1) =
    ["(ledger, id) > ($1, $2)"; "ledger >= $3"; "event_data_tsv @@ plainto_tsquery('english', $4)";
     "jsonb_path_exists(event_data, $5::jsonpath)"; "tenant_id = $6"]%string.
Proof.
  split; [|by vm_compute].
  destruct (get_events_selects demo_env (demo_params None None (Some demo_cursor)) demo_extra [] (Some "acme"%string)
    (demo_request demo_extra (Some demo_cursor)) ALLOWED_FIELDS) as [H _]; [by vm_compute|].
  destruct (H demo_cursor (demo_query ALLOWED_FIELDS demo_extra).1 (demo_query ALLOWED_FIELDS demo_extra).2) as (? & ? & ? & ? & _ & _ & Hn & _);
    [by vm_compute|exact Hn].
Defined.

Lemma contract_filters_never_served_witness :
  (get_events demo_env (demo_params (Some "CAAAAAAAAAAAAAAAAAAAAAAAAAAAAAAAAAAAAAAAAAAAAAAAAAAAAAAA"%string) None None)
     plain_extra [] None (mkSt [] 0 [])).1 = Err (Database (mismatch 2 3)) ∧
  fails (get_events demo_env (demo_params (Some "CAAAAAAAAAAAAAAAAAAAAAAAAAAAAAAAAAAAAAAAAAAAAAAAAAAAAAAA"%string) None None)
     plain_extra [] None).
Proof. split; [by vm_compute|]. apply contract_filters_never_served; [done|]. by left. Defined.

Lemma time_cursor_never_served_witness :
  let c := next_cursor demo_env Timestamp [demo_row 1 6 0 None; demo_row 2 6 1 None] 2 in
  c ≠ None ∧ fails (get_events demo_env (demo_params None (Some Timestamp) c) plain_extra [] None).
Proof.
  split; [by vm_compute|].
  apply (time_cursor_never_served demo_env _ plain_extra [] None
           (mkRequest (demo_params None (Some Timestamp) None) plain_extra [] None None None)
           [demo_row 1 6 0 None; demo_row 2 6 1 None] 2
           (default "" (next_cursor demo_env Timestamp [demo_row 1 6 0 None; demo_row 2 6 1 None] 2))%string).
  - apply demo_laws.
  - intros t. by exists "2026-03-14T00"%string, "00:00"%string, "00:00"%string.
  - by vm_compute.
  - by vm_compute.
  - by vm_compute.
Defined.

Lemma contract_events_never_served_witness :
  let contract := "CAAAAAAAAAAAAAAAAAAAAAAAAAAAAAAAAAAAAAAAAAAAAAAAAAAAAAAA"%string in
  let row := mkRow (EventStore.mkRow 1 0 (EventStore.mkColumns contract "contract" "t" 7 0 Null None true None None "" None
                      None "" None None None None None)) None 0 false in
  (get_events_by_contract demo_env contract (demo_params None None None) None (mkSt [row] 0 [])).1 =
    Err (Database "no column found for name: event_data_normalized").
Proof.
  unshelve refine (eq_trans (proj2 (contract_events_never_served demo_env _ (demo_params None None None) None) _
    ALLOWED_FIELDS _ _ _ _ _ _) _); by vm_compute.
Defined.

(** The page of one event, then of two: a client with the tag of the first is
    not told of the second. *)
Definition etag_rows : list Row := [demo_row 2 6 0 (Some "acme"%string); demo_row 3 6 1 (Some "acme"%string)].

Lemma cursor_page_not_modified_witness :
  let q := demo_request plain_extra (Some demo_cursor) in
  let page h rows := (cursor_page demo_env q ["id"%string] demo_cursor h (mkSt rows 0 [])).1 in
  let tag := compute_etag demo_env 2 0 None in
  (∃ body, page [] (take 1 etag_rows) = Ok (JsonPage body (Some tag) false)) ∧
  select demo_sql (demo_query ["id"%string] plain_extra).1 (demo_query ["id"%string] plain_extra).2 etag_rows = etag_rows ∧
  page [("If-None-Match"%string, tag)] etag_rows = Ok (NotModified tag).
Proof.
  split_and!; [by eexists; vm_compute|by vm_compute|].
  apply (cursor_page_not_modified demo_env (demo_request plain_extra (Some demo_cursor)) ["id"%string] demo_cursor
    [("If-None-Match"%string, compute_etag demo_env 2 0 None)] (mkSt etag_rows 0 []) (demo_query ["id"%string] plain_extra).1 (demo_query ["id"%string] plain_extra).2
    (demo_row 2 6 0 (Some "acme"%string)) [demo_row 3 6 1 (Some "acme"%string)] FJson
    [Object [("id", VString (demo_show 2))]; Object [("id", VString (demo_show 3))]]%string); by vm_compute.
Defined.

End EventsQuery.
