(* ===== verification/Pagination.v ===== *)
(** Following the cursors of the events API ([get_events] of
    handlers/events.rs) from the first page to the last: when it enumerates
    the matching events, and when it leaves some out. *)

From S2P Require Import Prelude Text F64 Model Pg EventStore ApiParams EventsQuery.

Module Pagination.
Import ApiParams EventsQuery.

(** ** Lists in strict order *)

Lemma bool_filter_all {A} (f : A → bool) l b : (∀ x, x ∈ l → f x = b) → List.filter f l = if b then l else [].
Proof.
  induction l as [|x l IH]; intros H; simpl; [by destruct b|].
  rewrite (H x), IH by set_solver. by destruct b.
Qed.

Section Sorted.
Context {A : Type} (cmp : A → A → comparison).

Definition strictly_sorted (l : list A) : Prop := StronglySorted (λ x y, cmp x y = Lt) l.

Lemma strictly_sorted_app l k :
  strictly_sorted (l ++ k) → strictly_sorted k ∧ ∀ x y, x ∈ l → y ∈ k → cmp x y = Lt.
Proof.
  induction l as [|x l IH]; simpl; [split; [done|set_solver]|].
  intros [Hs Hf]%StronglySorted_inv. destruct (IH Hs) as [Hk Hc]. rewrite Forall_forall in Hf.
  split; [done|]. intros a b [-> |Ha]%elem_of_cons Hb; [apply Hf; set_solver|by apply Hc].
Qed.

(** What comes after [x] is what follows it. *)
Lemma after_split l x k :
  (∀ a b, cmp a b = CompOpp (cmp b a)) → strictly_sorted (l ++ x :: k) → cmp x x = Eq →
  List.filter (λ r, match cmp x r with Lt => true | _ => false end) (l ++ x :: k) = k.
Proof.
  intros Hanti Hs Hx. rewrite List.filter_app. simpl. rewrite Hx.
  apply strictly_sorted_app in Hs as [Hk Hl]. rewrite (bool_filter_all _ l false).
  - simpl. apply (bool_filter_all _ k true). apply StronglySorted_inv in Hk as [_ Hf]. rewrite Forall_forall in Hf.
    intros r Hr. by rewrite Hf.
  - intros r Hr. by rewrite Hanti, (Hl r x) by set_solver.
Qed.

Lemma strictly_sorted_of l :
  StronglySorted (cmp_le cmp) l → NoDup l → (∀ x y, x ∈ l → y ∈ l → cmp x y = Eq → x = y) → strictly_sorted l.
Proof.
  induction l as [|x l IH]; intros Hs Hn He; [constructor|].
  apply StronglySorted_inv in Hs as [Hs Hf]. apply NoDup_cons in Hn as [Hx Hn]. constructor.
  - apply IH; [done..|]. intros a b Ha Hb. apply He; set_solver.
  - rewrite Forall_forall in Hf |- *. intros y Hy. specialize (Hf y Hy). unfold cmp_le, cmp_leb in Hf.
    destruct (cmp x y) eqn:E; [|done|done]. apply He in E; [by subst|set_solver..].
Qed.

Lemma strictly_sorted_le l : strictly_sorted l → StronglySorted (cmp_le cmp) l.
Proof.
  induction 1 as [|x l _ IH Hf]; constructor; [done|]. eapply Forall_impl; [done|]. simpl. intros y Hy.
  unfold cmp_le, cmp_leb. by rewrite Hy.
Qed.

End Sorted.

(** ** The client's loop *)

Section Pagination.
Variable env : Env.

Definition page_query (q : Request) (columns : list string) (c : option string) : result (Query * list Bind) AppError :=
  match c with Some cs => cursor_query env q columns cs | None => offset_query env q columns end.

(** The rows of the pages reached by following [next_cursor]. *)
Fixpoint pages (fuel : nat) (q : Request) (columns : list string) (rows : list Row) (c : option string) :
    option (list Row) :=
  match fuel with
  | O => None
  | S f =>
      match page_query q columns c with
      | Err _ => None
      | Ok (qr, bs) =>
          let page := select (sql env) qr bs rows in
          match next_cursor env (order_col q) page (limit (params q)) with
          | None => Some page
          | Some c' => let! rest := pages f q columns rows (Some c') in Some (page ++ rest)
          end
      end
  end.

(** A request whose filters both queries know, sorted by ledger, from the first page. *)
Record plain (q : Request) : Prop := {
  plain_order : order_col q = Ledger;
  plain_rank : want_rank q = false;
  plain_offset : offset (params q) = 0;
  plain_topics : topic_0 (params q) = None ∧ topic_1 (params q) = None ∧ topic_2 (params q) = None ∧
                 topic_3 (params q) = None ∧ network (params q) = None;
  plain_pattern : data_pattern (extra q) = None;
}.

Definition wanted (q : Request) (r : Row) : bool := matches env q r && matches_text env (search (params q)) None r.

(** The order of the first page: ledger, then id. *)
Definition page_cmp (q : Request) : Row → Row → comparison := cmp_on (sort_code (sql env) (offset_order q)) code_cmp.

(** The order of the later pages: ledger, then the indices in the ledger, then id. *)
Definition ordinal_cmp (q : Request) : Row → Row → comparison := cmp_on (sort_code (sql env) (cursor_order q)) code_cmp.

Section Plain.
Context (q : Request) (Hplain : plain q).

Lemma code_ledger o r :
  key_code (sql env) r (key (as_sql o) "ledger") = (0, match o with Asc => row_ledger r | Desc => - row_ledger r end).
Proof. by destruct o. Qed.

Lemma code_id o r :
  key_code (sql env) r (key (as_sql o) "id") = (0, match o with Asc => row_id r | Desc => - row_id r end).
Proof. by destruct o. Qed.

Lemma code_cmp_head a a' l l' :
  code_cmp ((0, a) :: l) ((0, a') :: l') = cmp_then (a ?= a') (code_cmp l l').
Proof. reflexivity. Qed.

Lemma compare_opp a b : (- a ?= - b) = (b ?= a).
Proof. apply Z.compare_opp. Qed.

Lemma page_cmp_eq r1 r2 :
  page_cmp q r1 r2 =
  match order q with
  | Asc => cmp_then (row_ledger r1 ?= row_ledger r2) (row_id r1 ?= row_id r2)
  | Desc => cmp_then (row_ledger r2 ?= row_ledger r1) (row_id r2 ?= row_id r1)
  end.
Proof.
  unfold page_cmp, cmp_on, offset_order, sort_code. rewrite (plain_order _ Hplain). cbn [map as_sql_col].
  rewrite !code_ledger, !code_id, !code_cmp_head. change (code_cmp [] []) with Eq.
  destruct (order q); rewrite ?compare_opp.
  - by destruct (row_ledger r1 ?= row_ledger r2), (row_id r1 ?= row_id r2).
  - by destruct (row_ledger r2 ?= row_ledger r1), (row_id r2 ?= row_id r1).
Qed.

Lemma page_cmp_anti r1 r2 : page_cmp q r1 r2 = CompOpp (page_cmp q r2 r1).
Proof. unfold page_cmp, cmp_on. apply cmp_antisym. Qed.

Lemma page_cmp_refl r : page_cmp q r r = Eq.
Proof. unfold page_cmp, cmp_on. apply cmp_refl. Qed.

Lemma page_cmp_id r1 r2 : page_cmp q r1 r2 = Eq → row_id r1 = row_id r2.
Proof.
  rewrite page_cmp_eq. unfold cmp_then. destruct (order q).
  - destruct (_ ?= _); try done. apply Z.compare_eq.
  - destruct (_ ?= _); try done. intros E. symmetry. by apply Z.compare_eq.
Qed.

(** The keyset condition of a row's cursor: to come after it in that order. *)
Lemma beyond_after x r :
  beyond env q (BI64 (row_ledger x)) (row_id x) r = match page_cmp q x r with Lt => true | _ => false end.
Proof.
  rewrite page_cmp_eq. unfold beyond, sem. rewrite (plain_order _ Hplain).
  change (cell (sql env) (as_sql_col Ledger) r) with (Some (BI64 (row_ledger r))). cbn [bind_cmp].
  unfold keyset_op, cmp_then. destruct (order q).
  - rewrite (Z.compare_antisym (row_ledger r)), (Z.compare_antisym (row_id r)).
    by destruct (row_ledger r ?= row_ledger x), (row_id r ?= row_id x).
  - by destruct (row_ledger r ?= row_ledger x), (row_id r ?= row_id x).
Qed.

(** Both orders decide rows of different ledgers alike. *)
Lemma ordinal_page_cmp r1 r2 :
  (row_ledger r1 = row_ledger r2 → ordinal_cmp q r1 r2 = page_cmp q r1 r2) → ordinal_cmp q r1 r2 = page_cmp q r1 r2.
Proof.
  intros Hsame. destruct (decide (row_ledger r1 = row_ledger r2)) as [|Hne]; [by apply Hsame|].
  rewrite page_cmp_eq. unfold ordinal_cmp, cmp_on, cursor_order, sort_code.
  rewrite (plain_rank _ Hplain), (plain_order _ Hplain). cbn [map]. rewrite !code_ledger, !code_cmp_head.
  assert ((row_ledger r1 ?= row_ledger r2) ≠ Eq) as H1 by (by intros ?%Z.compare_eq).
  assert ((row_ledger r2 ?= row_ledger r1) ≠ Eq) as H2 by (by intros ?%Z.compare_eq).
  destruct (order q); rewrite ?compare_opp.
  - by destruct (row_ledger r1 ?= row_ledger r2).
  - by destruct (row_ledger r2 ?= row_ledger r1).
Qed.

End Plain.

(** *** The queries of a validated request are built *)

Definition allowed (l : list string) : Prop := ∀ c, c ∈ l → validate_column_name c = true.

Lemma allowed_fields : allowed ALLOWED_FIELDS.
Proof.
  intros c Hc. unfold ALLOWED_FIELDS in Hc.
  repeat (apply elem_of_cons in Hc as [-> |Hc]; [by vm_compute|]). by apply elem_of_nil in Hc.
Qed.

Lemma resolved_allowed p columns : resolve_columns p = Ok columns → allowed columns.
Proof.
  unfold resolve_columns, ApiParams.columns. destruct (fields p) as [f|]; [|intros [= <-]; apply allowed_fields].
  destruct (is_empty (trim f)); [intros [= <-]; apply allowed_fields|].
  destruct (List.filter _ _) eqn:E; simpl; [|done]. intros [= <-] c Hc.
  apply allowed_fields. destruct (mem c ALLOWED_FIELDS) eqn:Em.
  - unfold mem in Em. apply existsb_exists in Em as (y & Hy & ->%String.eqb_eq). by apply list_elem_of_In.
  - assert (c ∈ []) as H; [|by apply elem_of_nil in H]. rewrite <- E. apply list_elem_of_In, List.filter_In.
    split; [by apply list_elem_of_In|]. by rewrite Em.
Qed.

Lemma allowed_ensure col l : validate_column_name col = true → allowed l → allowed (ensure col l).
Proof.
  intros Hc Hl. unfold ensure. destruct (mem col l); [done|]. intros c [H|H]%elem_of_app; [by apply Hl|].
  apply elem_of_cons in H as [->|H]; [done|]. by apply elem_of_nil in H.
Qed.

Lemma check_allowed l : allowed l → check_columns l = Ok ().
Proof.
  intros Hl. unfold check_columns. destruct (List.find _ l) as [c|] eqn:E; [|done].
  apply List.find_some in E as [Hin Hc]. apply list_elem_of_In in Hin. rewrite (Hl c Hin) in Hc. done.
Qed.

Lemma selected_allowed columns b : allowed columns → allowed (select_columns columns (as_sql_col b)).
Proof. intros Hc. unfold select_columns. repeat apply allowed_ensure; try done. by destruct b. Qed.

Lemma offset_query_ok q columns : allowed columns → ∃ qr bs, offset_query env q columns = Ok (qr, bs).
Proof.
  intros Hc. unfold offset_query. destruct (offset_conditions q) as [conds n].
  rewrite check_allowed by by apply selected_allowed. eexists _, _. reflexivity.
Qed.

Definition row_cursor (r : Row) : string :=
  encode_cursor_tagged (b64_encode env) (show_uuid env) (as_tag Ledger) (show_i (row_ledger r)) (row_id r).

Definition row_ok (r : Row) : Prop := in_u 128 (row_id r) ∧ is_v4 env (row_id r) = true ∧ in_i 64 (row_ledger r).

Context (L : CursorLaws (b64_encode env) (b64_decode env) (utf8_valid env) (show_uuid env) (parse_uuid env)).

Lemma row_cursor_decodes r :
  row_ok r →
  decode_cursor_tagged (b64_decode env) (utf8_valid env) (parse_uuid env) (is_v4 env) (row_cursor r) =
    Ok (as_tag Ledger, show_i (row_ledger r), row_id r).
Proof. intros (Hid & H4 & _). apply tagged_roundtrip; try done; apply show_i_no_colon. Qed.

Lemma cursor_query_ok q columns r :
  plain q → allowed columns → row_ok r → ∃ qr bs, cursor_query env q columns (row_cursor r) = Ok (qr, bs).
Proof.
  intros Hq Hc Hr. unfold cursor_query. rewrite row_cursor_decodes by done. cbn [result_bind].
  rewrite (plain_order _ Hq). unfold check. rewrite String.eqb_refl. cbn [result_bind].
  destruct (cursor_conditions q _ _) as [conds n]. unfold cursor_columns. rewrite (plain_rank _ Hq), (plain_order _ Hq).
  cbn [result_bind]. rewrite check_allowed by by apply selected_allowed. cbn [result_bind].
  unfold keyset_binds, ok_or. rewrite parse_i_show_i by apply Hr. cbn [result_bind].
  unfold cursor_binds, data_pattern_bind. rewrite (plain_pattern _ Hq). cbn [result_bind]. eexists _, _. reflexivity.
Qed.

(** ** Following the cursors *)

Section Follow.
Context (q : Request) (columns : list string) (rows : list Row).
Context (Hplain : plain q) (Hcolumns : allowed columns).
Context (Hprefix : opt_all (contract_id_prefix (params q)) (λ s, string_forallb is_alphanumeric (trim s)) = true).
Context (Hrows : ∀ r, r ∈ rows → row_ok r) (Hids : NoDup (row_id <$> rows)).
(** Within a ledger the indices order the rows as their ids do. *)
Context (Hagree : ∀ r1 r2, r1 ∈ rows → r2 ∈ rows → row_ledger r1 = row_ledger r2 →
  ordinal_cmp q r1 r2 = page_cmp q r1 r2).

Definition after (x r : Row) : bool := match page_cmp q x r with Lt => true | _ => false end.

Definition all_pages : list Row := order_by (sql env) (offset_order q) (List.filter (wanted q) rows).

Lemma in_all_pages r : r ∈ all_pages → r ∈ rows.
Proof.
  unfold all_pages, order_by. rewrite sort_by_permutation. intros [Hr _]%list_elem_of_In%List.filter_In.
  by apply list_elem_of_In.
Qed.

Lemma same_row r1 r2 : r1 ∈ rows → r2 ∈ rows → row_id r1 = row_id r2 → r1 = r2.
Proof.
  intros H1 H2 He. apply list_elem_of_lookup in H1 as [i H1], H2 as [j H2].
  assert (i = j) as ->; [|congruence].
  eapply (NoDup_lookup (row_id <$> rows)); [done|by rewrite list_lookup_fmap, H1|].
  by rewrite list_lookup_fmap, H2, He.
Qed.

Lemma all_pages_sorted : strictly_sorted (page_cmp q) all_pages.
Proof.
  apply strictly_sorted_of.
  - apply (sort_on_sorted (sort_code (sql env) (offset_order q)) code_cmp).
  - unfold all_pages, order_by. rewrite sort_by_permutation.
    eapply sublist_NoDup; [by apply (NoDup_fmap_1 row_id)|apply bool_filter_sublist].
  - intros r1 r2 H1%in_all_pages H2%in_all_pages He. apply same_row; [done..|]. by apply page_cmp_id in He.
Qed.

(** The rows after [x], in the order of the later pages. *)
Lemma rest_of l x k :
  all_pages = l ++ x :: k →
  order_by (sql env) (cursor_order q) (List.filter (λ r, after x r && wanted q r) rows) = k.
Proof.
  intros E. pose proof all_pages_sorted as Hs. rewrite E in Hs.
  assert (k ≡ₚ List.filter (λ r, after x r && wanted q r) rows) as Hperm.
  { rewrite <- (after_split (page_cmp q) l x k (page_cmp_anti q) Hs (page_cmp_refl q x)) at 1. rewrite <- E.
    unfold all_pages, order_by. rewrite (bool_filter_perm _ _ _ (sort_by_permutation _ _)). fold (after x).
    clear. induction rows as [|r l IH]; simpl; [done|]. unfold after at 1 2.
    destruct (wanted q r); simpl; [|by rewrite andb_comm; simpl].
    rewrite andb_true_r. destruct (page_cmp q x r); simpl; by rewrite IH. }
  assert (∀ r, r ∈ k → r ∈ rows) as Hin.
  { intros r Hr. apply in_all_pages. rewrite E. set_solver. }
  eapply (StronglySorted_unique_strong (cmp_le (ordinal_cmp q))).
  - intros r1 r2 H1 H2 H12 H21. unfold order_by in H1. rewrite sort_by_permutation, <- Hperm in H1.
    apply Hin in H1, H2. apply same_row; [done..|]. apply (page_cmp_id _ Hplain).
    rewrite <- (ordinal_page_cmp _ Hplain) by auto. unfold cmp_le, cmp_leb in *. unfold ordinal_cmp, cmp_on in *.
    rewrite (cmp_antisym (cmp := code_cmp) (sort_code (sql env) (cursor_order q) r1)) in H21.
    by destruct (code_cmp _ _).
  - apply (sort_on_sorted (sort_code (sql env) (cursor_order q)) code_cmp).
  - apply strictly_sorted_app in Hs as [Hk _]. apply StronglySorted_inv in Hk as [Hk _].
    clear -Hk Hin Hagree Hplain. induction Hk as [|r k Hk IH Hf]; constructor.
    + apply IH. set_solver.
    + rewrite Forall_forall in Hf |- *. intros y Hy. unfold cmp_le, cmp_leb.
      rewrite (ordinal_page_cmp _ Hplain); [by rewrite (Hf y Hy)|]. intros. apply Hagree; [apply Hin; set_solver..|done].
  - unfold order_by. by rewrite sort_by_permutation.
Qed.

Lemma next_select l x k :
  all_pages = l ++ x :: k →
  ∃ qr bs, cursor_query env q columns (row_cursor x) = Ok (qr, bs) ∧
           select (sql env) qr bs rows = take (Z.to_nat (limit (params q))) k.
Proof.
  intros E. assert (row_ok x) as Hx. { apply Hrows, in_all_pages. rewrite E. set_solver. }
  destruct (cursor_query_ok q columns x Hplain Hcolumns Hx) as (qr & bs & Hq). exists qr, bs. split; [done|].
  destruct (cursor_query_spec env q columns _ qr bs Hprefix Hq) as (tag & text & v & id & Hd & Hk & _ & _ & Hs).
  rewrite row_cursor_decodes in Hd by done. injection Hd as <- <- <-.
  rewrite (plain_order _ Hplain) in Hk. unfold keyset_binds, ok_or in Hk. rewrite parse_i_show_i in Hk by apply Hx.
  cbn in Hk. injection Hk as <-. rewrite Hs. f_equal. etrans; [|by eapply rest_of].
  f_equal. apply filter_ext_list. intros r. rewrite (beyond_after _ Hplain). fold (after x r). f_equal.
  unfold wanted, matches_topics. destruct (plain_topics _ Hplain) as (-> & -> & -> & -> & ->).
  unfold pattern_expr. rewrite (plain_pattern _ Hplain). cbn [opt_all]. rewrite andb_true_r.
  by destruct (search (params q)).
Qed.

(** A page of the first [n] rows of a list: full, with a cursor at its last
    row, or the rest of the list. *)
Lemma page_cases k :
  let page := take (Z.to_nat (limit (params q))) k in
  (∃ p y k', page = p ++ [y] ∧ k = p ++ y :: k' ∧
     next_cursor env (order_col q) page (limit (params q)) = Some (row_cursor y)) ∨
  (page = k ∧ next_cursor env (order_col q) page (limit (params q)) = None).
Proof.
  intros page. pose proof (limit_range (params q)) as Hl. rewrite (plain_order _ Hplain). unfold next_cursor.
  destruct (Z.eqb_spec (Z.of_nat (length page)) (limit (params q))) as [Hf|Hf].
  - left. destruct (last page) as [y|] eqn:Ey.
    + apply last_Some in Ey as [p Ep]. exists p, y, (drop (Z.to_nat (limit (params q))) k). split_and!; [done| |done].
      rewrite <- (take_drop (Z.to_nat (limit (params q))) k) at 1. fold page. by rewrite Ep, <- app_assoc.
    + apply last_None in Ey. rewrite Ey in Hf. simpl in Hf. lia.
  - right. split; [|by destruct (last page)].
    unfold page in *. rewrite length_take in Hf. apply take_ge. lia.
Qed.

Lemma pages_from fuel l x k :
  all_pages = l ++ x :: k → (length k < fuel)%nat →
  pages fuel q columns rows (Some (row_cursor x)) = Some k.
Proof.
  revert l x k. induction fuel as [|fuel IH]; intros l x k E Hlt; [lia|]. cbn [pages page_query].
  destruct (next_select l x k E) as (qr & bs & -> & ->).
  destruct (page_cases k) as [(p & y & k' & Ep & Ek & ->)|[Ep ->]]; [|by rewrite Ep].
  rewrite Ep, Ek in *. rewrite (IH (l ++ x :: p) y k').
  - cbn [option_bind]. by rewrite <- app_assoc.
  - rewrite E. by rewrite <- app_assoc.
  - rewrite length_app in Hlt. simpl in Hlt. lia.
Qed.

Lemma pages_all : pages (S (length rows)) q columns rows None = Some all_pages.
Proof.
  cbn [pages page_query]. destruct (offset_query_ok q columns Hcolumns) as (qr & bs & Hq). rewrite Hq.
  destruct (offset_query_spec env q columns qr bs Hprefix Hq) as (_ & _ & Hs). rewrite Hs, (plain_offset _ Hplain).
  rewrite drop_0. fold (wanted q). fold all_pages.
  destruct (page_cases all_pages) as [(p & y & k' & Ep & Ek & ->)|[Ep ->]]; [|by rewrite Ep].
  rewrite Ep. rewrite (pages_from _ p y k' Ek).
  - cbn [option_bind]. by rewrite <- app_assoc, Ek.
  - assert (length all_pages ≤ length rows)%nat as Hlen.
    { unfold all_pages, order_by. rewrite sort_by_permutation. apply sublist_length, bool_filter_sublist. }
    rewrite Ek, length_app in Hlen. simpl in Hlen. lia.
Qed.

End Follow.

End Pagination.

(** C3. A client that follows the cursors gets every matching event, once, newest
    or oldest first, and comes to an end within one request per event and one
    more: for a request sorted by ledger whose filters both queries know, when
    within each ledger the order of the indices is the order of the ids. *)
Theorem pagination_complete env p x h tenant q columns rows :
  CursorLaws (b64_encode env) (b64_decode env) (utf8_valid env) (show_uuid env) (parse_uuid env) →
  validate_request env p x h tenant = Ok q → resolve_columns p = Ok columns → plain q →
  (∀ r, r ∈ rows → row_ok env r) → NoDup (row_id <$> rows) →
  (∀ r1 r2, r1 ∈ rows → r2 ∈ rows → row_ledger r1 = row_ledger r2 → ordinal_cmp env q r1 r2 = page_cmp env q r1 r2) →
  pages env (S (length rows)) q columns rows None =
    Some (order_by (sql env) (offset_order q)
      (List.filter (λ r, matches env q r && matches_text env (search p) None r) rows)).
Proof.
  intros L Hv Hc Hp Hr Hn Ha. apply validated in Hv as (<- & _ & _ & Hpre & _).
  apply (pages_all env L q columns rows); try done. by apply resolved_allowed in Hc.
Qed.

(** ** Concrete runs *)

Definition demo_row (id ledger tx : Z) : Row :=
  mkRow (EventStore.mkRow id 0 (EventStore.mkColumns "C" "contract" "t" ledger 0 Null None true None None "" None None ""
           (Some tx) (Some 0) (Some 0) None None)) None 0 false.

Definition demo_params (l : Z) (c : option string) : PaginationParams :=
  mkParams None (Some l) None None None None None None None None c None None None None None None None None None None None
    None None None None None None.

Definition no_extra : Extra := mkExtra None [] [] None None None None None None.

(** Three events of one ledger, whose ids run against their transactions. *)
Definition crossed_rows : list Row := [demo_row 3 7 0; demo_row 2 7 1; demo_row 1 7 2].

Definition straight_rows : list Row := [demo_row 1 7 0; demo_row 2 7 1; demo_row 3 8 0].

Definition request_of (l : Z) : Request := EventsQuery.mkRequest (demo_params l None) no_extra [] None None None.

(** When the order of the indices is not that of the ids, the client misses
    events: the later pages are sorted by the indices but continue after the
    last id, so what the indices put behind it and the ids before it is never
    returned. *)
Theorem pagination_skips_events :
  validate_request demo_env (demo_params 1 None) no_extra [] None = Ok (request_of 1) ∧ plain (request_of 1) ∧
  forallb (wanted demo_env (request_of 1)) crossed_rows = true ∧
  map row_id <$> pages demo_env 4 (request_of 1) ALLOWED_FIELDS crossed_rows None = Some [3; 1].
Proof. split_and!; [by vm_compute|by repeat split|by vm_compute|by vm_compute]. Qed.

Lemma pagination_complete_witness :
  map row_id <$> pages demo_env 4 (request_of 1) ALLOWED_FIELDS straight_rows None = Some [3; 2; 1].
Proof.
  unshelve refine (eq_trans (f_equal (fmap (map row_id)) (pagination_complete demo_env (demo_params 1 None) no_extra [] None
    (request_of 1) ALLOWED_FIELDS straight_rows _ _ _ _ _ _ _)) _).
  - apply demo_laws.
  - by vm_compute.
  - by vm_compute.
  - by repeat split.
  - intros r Hr. repeat (apply elem_of_cons in Hr as [-> |Hr]; [by repeat split|]). by apply elem_of_nil in Hr.
  - apply (bool_decide_unpack _). by vm_compute.
  - intros r1 r2 H1 H2.
    repeat (apply elem_of_cons in H1 as [-> |H1];
            [repeat (apply elem_of_cons in H2 as [-> |H2]; [by vm_compute|]); by apply elem_of_nil in H2|]).
    by apply elem_of_nil in H1.
  - by vm_compute.
Defined.

End Pagination.
