(* ===== verification/PriorityQueue.v ===== *)
(** webhook_priority.rs: delivery priorities, the rules that assign them, and
    the queue of deliveries, whose operations take three locks one after the
    other.

    The standard library's [BinaryHeap] is used through what it promises
    ([MaxHeap]); the clock is an argument. *)

From S2P Require Import Prelude Text Model.

Module PriorityQueue.

(** ** Priorities and rules *)

Inductive WebhookPriority : Type := Low | Normal | High | Critical.

Definition level (p : WebhookPriority) : nat :=
  match p with Low => 0 | Normal => 1 | High => 2 | Critical => 3 end.

(** The derived [Ord]. *)
Definition priority_cmp (a b : WebhookPriority) : comparison := Nat.compare (level a) (level b).

Definition max_wait_ms (p : WebhookPriority) : Z :=
  match p with Critical => 1000 | High => 5000 | Normal => 30000 | Low => 120000 end.

Record PriorityRule : Type := mkRule { event_type_pattern : string; rule_priority : WebhookPriority }.

Record PriorityRuleSet : Type := mkRules { rules : list PriorityRule; default_priority : WebhookPriority }.

Definition add_rule (pattern : string) (p : WebhookPriority) (s : PriorityRuleSet) : PriorityRuleSet :=
  mkRules (rules s ++ [mkRule pattern p]) (default_priority s).

(** [strip_suffix('*')]. *)
Fixpoint strip_star (s : string) : option string :=
  match s with
  | EmptyString => None
  | String a EmptyString => if Ascii.eqb a "*" then Some EmptyString else None
  | String a r => let! r := strip_star r in Some (String a r)
  end.

Definition matches (pattern event_type : string) : bool :=
  match strip_star pattern with
  | Some prefix => starts_with prefix event_type
  | None => String.eqb pattern event_type
  end.

Fixpoint resolve_rules (l : list PriorityRule) (dflt : WebhookPriority) (event_type : string) : WebhookPriority :=
  match l with
  | [] => dflt
  | rule :: rest =>
      if matches (event_type_pattern rule) event_type then rule_priority rule else resolve_rules rest dflt event_type
  end.

Definition resolve (s : PriorityRuleSet) (event_type : string) : WebhookPriority :=
  resolve_rules (rules s) (default_priority s) event_type.

(** ** Tasks *)

Record Task : Type := mkTask {
  id : Z;
  webhook_url : string;
  payload : Value;
  priority : WebhookPriority;
  enqueued_at_ms : Z;
  sequence : Z;
}.

Definition wait_ms (now : Z) (t : Task) : Z := sat_sub_u now (enqueued_at_ms t).
Definition is_violation (now : Z) (t : Task) : bool := max_wait_ms (priority t) <? wait_ms now t.

(** [Ord for WebhookDeliveryTask]: the higher priority is greater, then the
    lower sequence number. *)
Definition task_cmp (a b : Task) : comparison :=
  cmp_then (priority_cmp (priority a) (priority b)) (sequence b ?= sequence a).

(** ** What [BinaryHeap] promises *)

Class MaxHeap (H : Type) : Type := {
  heap_new : H;
  heap_push : Task → H → H;
  heap_pop : H → option (Task * H);
  (** The elements in the order of [iter()], which is arbitrary. *)
  heap_iter : H → list Task;
  heap_new_iter : heap_iter heap_new = [];
  heap_push_iter t h : heap_iter (heap_push t h) ≡ₚ t :: heap_iter h;
  heap_pop_none h : heap_pop h = None → heap_iter h = [];
  heap_pop_some h t h' :
    heap_pop h = Some (t, h') →
    heap_iter h ≡ₚ t :: heap_iter h' ∧ ∀ u, u ∈ heap_iter h' → task_cmp u t ≠ Gt;
}.

(** Selection from a list keeps the promise. *)
Fixpoint select_max (t : Task) (l : list Task) : Task * list Task :=
  match l with
  | [] => (t, [])
  | u :: rest =>
      match task_cmp u t with
      | Gt => let '(m, r) := select_max u rest in (m, t :: r)
      | _ => let '(m, r) := select_max t rest in (m, u :: r)
      end
  end.

Lemma task_cmp_anti a b : task_cmp b a = CompOpp (task_cmp a b).
Proof.
  unfold task_cmp, priority_cmp, cmp_then. rewrite (Nat.compare_antisym (level (priority a))).
  destruct (Nat.compare _ _); try done. apply Z.compare_antisym.
Qed.

Lemma task_cmp_le a b :
  task_cmp a b ≠ Gt ↔ (level (priority a) < level (priority b))%nat ∨
                       (level (priority a) = level (priority b) ∧ sequence b ≤ sequence a).
Proof.
  unfold task_cmp, priority_cmp, cmp_then. destruct (Nat.compare_spec (level (priority a)) (level (priority b))).
  - destruct (Z.compare_spec (sequence b) (sequence a)); (split; [intros; right|intros [?|[? ?]]]); lia || done.
  - split; [by left|done].
  - split; [done|]. lia.
Qed.

Lemma task_cmp_trans a b c : task_cmp a b ≠ Gt → task_cmp b c ≠ Gt → task_cmp a c ≠ Gt.
Proof. rewrite !task_cmp_le. lia. Qed.

Lemma select_max_spec t l :
  (select_max t l).1 :: (select_max t l).2 ≡ₚ t :: l ∧
  ∀ u, u ∈ t :: l → task_cmp u (select_max t l).1 ≠ Gt.
Proof.
  revert t. induction l as [|u l IH]; intros t; simpl.
  - split; [done|]. intros u Hu. apply elem_of_cons in Hu as [->|Hu]; [|by apply elem_of_nil in Hu].
    apply task_cmp_le. lia.
  - assert (∀ m r a b, m :: r ≡ₚ a :: l → (∀ x, x ∈ a :: l → task_cmp x m ≠ Gt) → task_cmp b a ≠ Gt →
      m :: b :: r ≡ₚ b :: a :: l ∧ ∀ x, x ∈ b :: a :: l → task_cmp x m ≠ Gt) as Hstep.
    { intros m r a b Hp Hm Hb. split; [by rewrite Permutation_swap, Hp|].
      intros x Hx. apply elem_of_cons in Hx as [->|Hx]; [|by apply Hm].
      eapply task_cmp_trans; [done|]. apply Hm. set_solver. }
    destruct (task_cmp u t) eqn:E.
    1,2: destruct (IH t) as [Hp Hm]; destruct (select_max t l) as [m r]; simpl in *;
      destruct (Hstep m r t u Hp Hm) as [Hp' Hm']; [by rewrite E|]; split; [by rewrite Hp', Permutation_swap|set_solver].
    destruct (IH u) as [Hp Hm]. destruct (select_max u l) as [m r]. simpl in *.
    apply Hstep; [done|done|]. by rewrite task_cmp_anti, E.
Qed.

#[export, refine] Instance list_heap : MaxHeap (list Task) := {
  heap_new := [];
  heap_push := cons;
  heap_pop := λ h, match h with [] => None | t :: l => Some (select_max t l) end;
  heap_iter := λ h, h;
}.
Proof.
  - done.
  - done.
  - by intros [].
  - intros [|x l] t h' [= E]. destruct (select_max_spec x l) as [Hp Hm]. rewrite E in Hp, Hm. simpl in *.
    split; [done|]. intros u Hu. apply Hm. rewrite <- Hp. set_solver.
Defined.

(** ** The queue *)

Record Metrics : Type := mkMetrics {
  total_enqueued : Z;
  total_dequeued : Z;
  violations : Z;
  enqueued_by_priority : list Z;
  current_depth : Z;
}.

Section Queue.
Context {H : Type} `{!MaxHeap H}.

(** Each of the three fields has a lock of its own. *)
Record Queue : Type := mkQueue { heap : H; seq : Z; metrics : Metrics }.

Definition new_queue : Queue := mkQueue heap_new 0 (mkMetrics 0 0 0 [0; 0; 0; 0] 0).

Definition with_sequence (n : Z) (t : Task) : Task :=
  mkTask (id t) (webhook_url t) (payload t) (priority t) (enqueued_at_ms t) n.

(** [push], lock by lock. *)
Definition push_sequence (t : Task) (q : Queue) : Task * Queue :=
  let n := add_u 64 (seq q) 1 in (with_sequence n t, mkQueue (heap q) n (metrics q)).

Definition push_count (t : Task) (q : Queue) : Queue :=
  let m := metrics q in
  mkQueue (heap q) (seq q)
    (mkMetrics (add_u 64 (total_enqueued m) 1) (total_dequeued m) (violations m)
       (alter (λ n, add_u 64 n 1) (level (priority t)) (enqueued_by_priority m)) (current_depth m)).

(** The depth is written with the heap's lock held. *)
Definition push_heap (t : Task) (q : Queue) : Queue :=
  let m := metrics q in
  let h := heap_push t (heap q) in
  mkQueue h (seq q)
    (mkMetrics (total_enqueued m) (total_dequeued m) (violations m) (enqueued_by_priority m)
       (Z.of_nat (length (heap_iter h)))).

Definition push (t : Task) (q : Queue) : Queue :=
  let '(t, q) := push_sequence t q in push_heap t (push_count t q).

(** [pop], lock by lock: the depth read under the heap's lock is written after it is released. *)
Definition pop_heap (q : Queue) : option (Task * Z) * Queue :=
  match heap_pop (heap q) with
  | Some (t, h) => (Some (t, Z.of_nat (length (heap_iter h))), mkQueue h (seq q) (metrics q))
  | None => (None, q)
  end.

Definition pop_count (now : Z) (t : Task) (depth : Z) (q : Queue) : Queue :=
  let m := metrics q in
  mkQueue (heap q) (seq q)
    (mkMetrics (total_enqueued m) (add_u 64 (total_dequeued m) 1)
       (if is_violation now t then add_u 64 (violations m) 1 else violations m) (enqueued_by_priority m) depth).

Definition pop (now : Z) (q : Queue) : option Task * Queue :=
  let '(r, q) := pop_heap q in
  match r with
  | Some (t, depth) => (Some t, pop_count now t depth q)
  | None => (None, q)
  end.

Definition len (q : Queue) : nat := length (heap_iter (heap q)).
Definition queue_is_empty (q : Queue) : bool := (len q =? 0)%nat.

Definition violating_tasks (now : Z) (q : Queue) : list Z :=
  map id (List.filter (is_violation now) (heap_iter (heap q))).

(** ** A queue of arrivals *)

(** A task as its producer made it. *)
Definition strip (t : Task) : Task := with_sequence 0 t.

(** Takes the oldest of the most urgent. *)
Definition takes (l : list Task) (t : Task) (l' : list Task) : Prop :=
  ∃ before behind, l = before ++ t :: behind ∧ l' = before ++ behind ∧
    (∀ u, u ∈ before → (level (priority u) < level (priority t))%nat) ∧
    (∀ u, u ∈ behind → (level (priority u) ≤ level (priority t))%nat).

(** The queue stands for the tasks in the order of their sequence numbers. *)
Definition stands_for (q : Queue) (arrivals : list Task) : Prop :=
  ∃ l, heap_iter (heap q) ≡ₚ l ∧ arrivals = map strip l ∧ StronglySorted (λ a b, sequence a < sequence b) l ∧
       Forall (λ t, sequence t ≤ seq q) l ∧ 0 ≤ seq q ≤ u_max 64.

Lemma strongly_sorted_snoc {A} (R : A → A → Prop) l x :
  StronglySorted R l → Forall (λ y, R y x) l → StronglySorted R (l ++ [x]).
Proof.
  induction 1 as [|y l _ IH Hf]; intros Hx; simpl; [repeat constructor|].
  apply Forall_cons in Hx as [Hy Hl]. constructor; [by apply IH|]. apply Forall_app. split; [done|by constructor].
Qed.

Lemma sorted_around {A} (R : A → A → Prop) l x k :
  StronglySorted R (l ++ x :: k) → StronglySorted R (l ++ k) ∧ Forall (λ y, R y x) l ∧ Forall (R x) k.
Proof.
  induction l as [|y l IH]; simpl; intros [Hs Hf]%StronglySorted_inv; [done|].
  destruct (IH Hs) as (H1 & H2 & H3). apply Forall_app in Hf as [Hl [Hx Hk]%Forall_cons].
  split_and!; [|by constructor|done]. constructor; [done|]. by apply Forall_app.
Qed.

(** C22. The queue implements the queue of arrivals: a push appends, a pop takes
    the oldest of the most urgent tasks, and fails exactly when there is none.
    (The sequence number is 64 bits wide; the last push is the one that fills it.) *)
Theorem queue_refines_arrivals :
  stands_for new_queue [] ∧
  (∀ q arrivals t, stands_for q arrivals → seq q < u_max 64 → stands_for (push t q) (arrivals ++ [strip t])) ∧
  (∀ q arrivals now, stands_for q arrivals →
     match pop now q with
     | (Some t, q') => ∃ arrivals', takes arrivals (strip t) arrivals' ∧ stands_for q' arrivals'
     | (None, q') => arrivals = [] ∧ q' = q
     end).
Proof.
  split_and!.
  - exists []. simpl. rewrite heap_new_iter. split_and!; try done; try constructor.
  - intros q arrivals t (l & Hp & -> & Hs & Hf & Hr) Hlt.
    assert (add_u 64 (seq q) 1 = seq q + 1) as E.
    { unfold add_u. apply wrap_u_small. unfold in_u, u_max in *. lia. }
    exists (l ++ [with_sequence (seq q + 1) t]). unfold push. simpl. rewrite E. split_and!.
    + rewrite heap_push_iter, Hp. apply Permutation_cons_append.
    + rewrite map_app. done.
    + apply strongly_sorted_snoc; [done|]. eapply Forall_impl; [done|]. simpl. lia.
    + apply Forall_app. split; [|repeat constructor; simpl; lia]. eapply Forall_impl; [done|]. simpl. lia.
    + lia.
    + lia.
  - intros q arrivals now (l & Hp & -> & Hs & Hf & Hr). unfold pop, pop_heap.
    destruct (heap_pop (heap q)) as [[t h]|] eqn:E.
    2: { apply heap_pop_none in E. rewrite E in Hp. apply Permutation_nil_l in Hp as <-. by split. }
    apply heap_pop_some in E as [Hh Hmax]. rewrite Hh in Hp.
    assert (t ∈ l) as [before [behind ->]]%list_elem_of_split by (rewrite <- Hp; set_solver).
    apply sorted_around in Hs as (Hs & Hb & Ha).
    assert (heap_iter h ≡ₚ before ++ behind) as Hp' by by apply (Permutation_cons_app_inv _ _ Hp).
    assert (∀ u, u ∈ before ++ behind → task_cmp u t ≠ Gt) as Hle by (intros u; rewrite <- Hp'; apply Hmax).
    rewrite Forall_forall in Hb, Ha. exists (map strip (before ++ behind)). split.
    + exists (map strip before), (map strip behind). rewrite !map_app. split_and!; try done.
      * intros u (v & -> & Hv)%list_elem_of_fmap. specialize (Hle v). rewrite task_cmp_le in Hle.
        specialize (Hb v Hv). simpl. assert (v ∈ before ++ behind) as Hi by set_solver. specialize (Hle Hi). lia.
      * intros u (v & -> & Hv)%list_elem_of_fmap. specialize (Hle v). rewrite task_cmp_le in Hle.
        simpl. assert (v ∈ before ++ behind) as Hi by set_solver. specialize (Hle Hi). lia.
    + exists (before ++ behind). split_and!; try done; simpl; try lia.
      apply Forall_app in Hf as [? [_ ?]%Forall_cons]. by apply Forall_app.
Qed.

(** ** Concurrent producers and consumers *)

(** Where a thread inside [push] or [pop] is: which locks it has still to take. *)
Inductive Thread : Type :=
| PushCount (t : Task)
| PushHeap (t : Task)
| PopCount (t : Task) (depth : Z).

(** One critical section of one thread.  Producers start while the sequence
    number does not overflow. *)
Inductive step : Queue * list Thread → Queue * list Thread → Prop :=
| start_push q ths t :
    seq q < u_max 64 → step (q, ths) ((push_sequence t q).2, ths ++ [PushCount (push_sequence t q).1])
| step_count q l t r : step (q, l ++ PushCount t :: r) (push_count t q, l ++ PushHeap t :: r)
| step_heap q l t r : step (q, l ++ PushHeap t :: r) (push_heap t q, l ++ r)
| start_pop q q' t depth ths :
    pop_heap q = (Some (t, depth), q') → step (q, ths) (q', ths ++ [PopCount t depth])
| step_pop now q l t depth r : step (q, l ++ PopCount t depth :: r) (pop_count now t depth q, l ++ r).

Definition reachable : Queue * list Thread → Prop := rtc step (new_queue, []).

Definition pushing (th : Thread) : list Task := match th with PushCount t | PushHeap t => [t] | PopCount _ _ => [] end.
Definition uncounted (th : Thread) : Z := match th with PushCount _ => 1 | _ => 0 end.
Definition counted (th : Thread) : Z := match th with PushCount _ => 0 | _ => 1 end.
Definition total (f : Thread → Z) (ths : list Thread) : Z := fold_right Z.add 0 (map f ths).

Lemma total_app f l r : total f (l ++ r) = total f l + total f r.
Proof. unfold total. rewrite map_app. induction (map f l); simpl; lia. Qed.

Lemma total_cons f x r : total f (x :: r) = f x + total f r.
Proof. done. Qed.

Lemma total_nonneg f ths : (∀ th, 0 ≤ f th) → 0 ≤ total f ths.
Proof. intros Hf. induction ths as [|th ths IH]; [done|]. rewrite total_cons. specialize (Hf th). lia. Qed.

Definition live (q : Queue) (ths : list Thread) : list Task := heap_iter (heap q) ++ (ths ≫= pushing).

Record consistent (q : Queue) (ths : list Thread) : Prop := {
  c_seq : total_enqueued (metrics q) + total uncounted ths = seq q;
  c_bound : 0 ≤ seq q ≤ u_max 64;
  c_flow : total_enqueued (metrics q) =
           total_dequeued (metrics q) + total counted ths + Z.of_nat (length (heap_iter (heap q)));
  c_dequeued : 0 ≤ total_dequeued (metrics q);
  c_violations : 0 ≤ violations (metrics q) ≤ total_dequeued (metrics q);
  c_fresh : NoDup (sequence <$> live q ths) ∧ Forall (λ t, 0 < sequence t ≤ seq q) (live q ths);
}.

Lemma counts_nonneg ths : 0 ≤ total uncounted ths ∧ 0 ≤ total counted ths.
Proof. split; apply total_nonneg; by intros []. Qed.

Lemma add_u_small a b : 0 ≤ a + b ≤ u_max 64 → add_u 64 a b = a + b.
Proof. intros Hr. unfold add_u. apply wrap_u_small. unfold in_u, u_max in *. lia. Qed.

(** Only the multiset of tasks in the queue or on their way matters for freshness. *)
Lemma fresh_perm q ths q' ths' :
  live q ths ≡ₚ live q' ths' → seq q = seq q' →
  NoDup (sequence <$> live q ths) ∧ Forall (λ t, 0 < sequence t ≤ seq q) (live q ths) →
  NoDup (sequence <$> live q' ths') ∧ Forall (λ t, 0 < sequence t ≤ seq q') (live q' ths').
Proof. intros Hp <- [Hn Hf]. rewrite <- Hp. done. Qed.

Lemma bind_middle l th r : (l ++ th :: r) ≫= pushing ≡ₚ pushing th ++ ((l ++ r) ≫= pushing).
Proof. rewrite !bind_app, bind_cons. rewrite !(assoc_L (++)). by rewrite (Permutation_app_comm (l ≫= pushing)). Qed.

Lemma consistent_start_push q ths t :
  consistent q ths → seq q < u_max 64 → consistent (push_sequence t q).2 (ths ++ [PushCount (push_sequence t q).1]).
Proof.
  intros [Hs Hb Hfl Hd Hv [Hn Hf]] Hlt. destruct (counts_nonneg ths). unfold push_sequence. simpl.
  rewrite add_u_small by lia. split; simpl; rewrite ?total_app, ?total_cons; simpl; try (unfold total; simpl; lia).
  - change (total uncounted [] ) with 0. lia.
  - change (total counted []) with 0. lia.
  - assert (live (mkQueue (heap q) (seq q + 1) (metrics q)) (ths ++ [PushCount (with_sequence (seq q + 1) t)]) =
            live q ths ++ [with_sequence (seq q + 1) t]) as ->.
    { unfold live. simpl. by rewrite bind_app, (assoc_L (++)). }
    rewrite fmap_app. split.
    + apply NoDup_app. split_and!; [done| |by apply NoDup_singleton].
      intros x (u & -> & Hu)%list_elem_of_fmap Hx. apply elem_of_cons in Hx as [Hx|Hx]; [|by apply elem_of_nil in Hx].
      rewrite Forall_forall in Hf. specialize (Hf u Hu). simpl in Hx. lia.
    + apply Forall_app. split; [|repeat constructor; simpl; lia]. eapply Forall_impl; [done|]. simpl. lia.
Qed.

Lemma consistent_count q l t r :
  consistent q (l ++ PushCount t :: r) → consistent (push_count t q) (l ++ PushHeap t :: r).
Proof.
  intros [Hs Hb Hfl Hd Hv Hf]. destruct (counts_nonneg l), (counts_nonneg r).
  rewrite total_app, total_cons in Hs, Hfl. simpl in Hs, Hfl.
  assert (add_u 64 (total_enqueued (metrics q)) 1 = total_enqueued (metrics q) + 1) as E by (apply add_u_small; lia).
  split; unfold push_count; simpl; rewrite ?E, ?total_app, ?total_cons; simpl; try lia.
  refine (fresh_perm _ _ _ _ _ _ Hf); [|done]. unfold live. simpl. by rewrite !bind_middle.
Qed.

Lemma consistent_heap q l t r :
  consistent q (l ++ PushHeap t :: r) → consistent (push_heap t q) (l ++ r).
Proof.
  intros [Hs Hb Hfl Hd Hv Hf]. rewrite total_app, total_cons in Hs, Hfl. simpl in Hs, Hfl.
  split; unfold push_heap; simpl; rewrite ?total_app; try lia.
  - rewrite heap_push_iter. simpl. lia.
  - refine (fresh_perm _ _ _ _ _ _ Hf); [|done]. unfold live. simpl. rewrite bind_middle, heap_push_iter. simpl.
    by rewrite Permutation_middle.
Qed.

Lemma consistent_start_pop q q' t depth ths :
  consistent q ths → pop_heap q = (Some (t, depth), q') → consistent q' (ths ++ [PopCount t depth]).
Proof.
  intros [Hs Hb Hfl Hd Hv [Hn Hf]]. unfold pop_heap.
  destruct (heap_pop (heap q)) as [[u h]|] eqn:E; [|done]. intros [= -> <- <-].
  apply heap_pop_some in E as [Hp _]. unfold live in *. rewrite Hp in Hfl, Hn, Hf. simpl in *.
  split; simpl; rewrite ?total_app, ?total_cons; unfold live; simpl;
    rewrite ?(eq_refl : total uncounted [] = 0), ?(eq_refl : total counted [] = 0); try lia.
  rewrite bind_app. simpl. rewrite app_nil_r. apply NoDup_cons in Hn as [_ Hn]. by apply Forall_cons in Hf as [_ Hf].
Qed.

Lemma consistent_pop now q l t depth r :
  consistent q (l ++ PopCount t depth :: r) → consistent (pop_count now t depth q) (l ++ r).
Proof.
  intros [Hs Hb Hfl Hd Hv Hf]. destruct (counts_nonneg (l ++ r)), (counts_nonneg l), (counts_nonneg r).
  rewrite total_app, total_cons in Hs, Hfl. simpl in Hs, Hfl.
  assert (∀ n, 0 ≤ n ≤ total_dequeued (metrics q) → add_u 64 n 1 = n + 1) as E by (intros; apply add_u_small; lia).
  split; unfold pop_count; simpl; rewrite ?total_app, ?E by lia; try (destruct (is_violation now t); rewrite ?E by lia); try lia.
  1,2: refine (fresh_perm _ _ _ _ _ _ Hf); [|done]; unfold live; simpl; by rewrite bind_middle.
Qed.

Lemma consistent_new : consistent new_queue [].
Proof.
  split; unfold new_queue, live; simpl; rewrite ?heap_new_iter; try done.
  split; constructor.
Qed.

Lemma consistent_step s s' : step s s' → consistent s.1 s.2 → consistent s'.1 s'.2.
Proof.
  intros [] Hc; simpl in *.
  - by apply consistent_start_push.
  - by apply consistent_count.
  - by apply consistent_heap.
  - by eapply consistent_start_pop.
  - by eapply consistent_pop.
Qed.

Lemma consistent_reachable q ths : reachable (q, ths) → consistent q ths.
Proof.
  intros Hr. refine (rtc_ind_r (λ s, consistent s.1 s.2) (new_queue, []) consistent_new _ (q, ths) Hr).
  intros s s' _ Hstep. by apply consistent_step.
Qed.

(** C23. However the critical sections of any number of producers and consumers
    interleave: when no call is under way, every task counted in is in the
    queue or counted out, the violations are among those counted out, and no
    two queued tasks share a sequence number (so equal priorities stay first-in
    first-out). *)
Theorem metrics_at_rest q :
  reachable (q, []) →
  total_enqueued (metrics q) = total_dequeued (metrics q) + Z.of_nat (len q) ∧
  total_enqueued (metrics q) = seq q ∧
  0 ≤ violations (metrics q) ≤ total_dequeued (metrics q) ∧
  NoDup (sequence <$> heap_iter (heap q)).
Proof.
  intros [Hs Hb Hfl Hd Hv [Hn Hf]]%consistent_reachable. unfold live in Hn. simpl in Hn. rewrite app_nil_r in Hn.
  unfold total in Hs, Hfl. simpl in Hs, Hfl. unfold len. split_and!; lia || done.
Qed.

(** A run of one call after another is a run of the threads. *)
Lemma push_reachable q t : seq q < u_max 64 → reachable (q, []) → reachable (push t q, []).
Proof.
  intros Hlt Hr. unfold reachable; etransitivity; [exact Hr|].
  eapply rtc_l; [by apply (start_push q [] t)|].
  eapply rtc_l; [apply (step_count _ [] _ [])|]. eapply rtc_l; [apply (step_heap _ [] _ [])|]. apply rtc_refl.
Qed.

End Queue.

(** ** A concrete run *)

Definition demo_task (p : WebhookPriority) : Task := mkTask 7 "https://hooks.example"%string Null p 1000 0.

(** A consumer takes the first task, a producer queues a second one, and only
    then the consumer writes its metrics. *)
Definition raced : Queue (H := list Task) :=
  let q := push (demo_task Low) new_queue in
  match pop_heap q with
  | (Some (t, depth), q) => pop_count 2000 t depth (push (demo_task High) q)
  | (None, q) => q
  end.

Lemma raced_reachable : reachable (raced, []).
Proof.
  unfold reachable; etransitivity; [apply (push_reachable new_queue (demo_task Low)); [done|apply rtc_refl]|].
  eapply rtc_l; [by apply start_pop|].
  eapply rtc_l; [apply (start_push _ _ (demo_task High)); done|].
  eapply rtc_l; [apply (step_count _ [_] _ [])|]. eapply rtc_l; [apply (step_heap _ [_] _ [])|].
  apply rtc_once, (step_pop 2000 _ []).
Qed.

Lemma metrics_at_rest_witness :
  reachable (raced, []) ∧ total_enqueued (metrics raced) = total_dequeued (metrics raced) + Z.of_nat (len raced).
Proof.
  split; [exact raced_reachable|]. exact (proj1 (metrics_at_rest raced raced_reachable)).
Defined.

(** The depth is not among the metrics that come to rest: a consumer writes
    the depth it read before it released the heap, over a producer's newer one. *)
Theorem depth_race :
  ∃ q : Queue (H := list Task), reachable (q, []) ∧ len q = 1%nat ∧ current_depth (metrics q) = 0.
Proof. exists raced. split; [exact raced_reachable|done]. Qed.

End PriorityQueue.
