(* ===== verification/RateLimiter.v ===== *)
(** rate_limiter.rs and middleware/rate_limit.rs: the limits on the requests of
    an API key, counted in the table [rate_limit_counters], and the middleware
    that enforces them.

    Times are in microseconds.  SHA-256 and the handlers behind the middleware
    are parameters. *)

From S2P Require Import Prelude Text Model Pg ApiParams.

Module RateLimiter.
Import ApiParams.

(** ** The table and the expressions of its statement *)

Record Row : Type := mkRow {
  api_key_hash : string;
  window_start : Z;
  request_count : Z;
  last_updated : Z;
}.

Definition Db : Type := list Row.

(** The expressions [SET] assigns; a column may name its table. *)
Inductive SqlExpr : Type :=
| Num (n : Z)
| Col (table : option string) (column : string)
| Plus (a b : SqlExpr).

(** The tables in scope with their columns. *)
Definition Scope : Type := list (string * list string).

(** PostgreSQL's analysis: every column gets its table, before any row is looked at. *)
Fixpoint analyse (sc : Scope) (e : SqlExpr) : result SqlExpr string :=
  match e with
  | Num n => Ok (Num n)
  | Col (Some t) c =>
      if existsb (λ tc, String.eqb tc.1 t && bool_decide (c ∈ tc.2)) sc then Ok e
      else Err ("missing FROM-clause entry for table " +:+ t)%string
  | Col None c =>
      match List.filter (λ tc, bool_decide (c ∈ tc.2)) sc with
      | [tc] => Ok (Col (Some tc.1) c)
      | [] => Err ("column does not exist: " +:+ c)%string
      | _ => Err ("column reference is ambiguous: " +:+ c)%string
      end
  | Plus a b => let? a := analyse sc a in let? b := analyse sc b in Ok (Plus a b)
  end.

Fixpoint eval_expr (value : string → string → Z) (e : SqlExpr) : Z :=
  match e with
  | Num n => n
  | Col t c => value (default EmptyString t) c
  | Plus a b => eval_expr value a + eval_expr value b
  end.

Definition counter_columns : list string :=
  ["id"; "api_key_hash"; "window_start"; "request_count"; "last_updated"; "created_at"]%string.

(** [ON CONFLICT .. DO UPDATE SET] sees the row there is and the one proposed. *)
Definition conflict_scope : Scope :=
  [("rate_limit_counters", counter_columns); ("excluded", counter_columns)]%string.

(** [request_count = request_count + 1]. *)
Definition increment : SqlExpr := Plus (Col None "request_count") (Num 1).

Definition same_window (h : string) (w : Z) (r : Row) : bool :=
  String.eqb (api_key_hash r) h && (window_start r =? w).

Definition upsert (h : string) (w now : Z) (d : Db) : result (() * Db) string :=
  let? e := analyse conflict_scope increment in
  match List.find (same_window h w) d with
  | None => Ok ((), d ++ [mkRow h w 1 now])
  | Some r =>
      let n := eval_expr (λ t _, if String.eqb t "excluded" then 1 else request_count r) e in
      if i_max 32 <? n then Err "integer out of range"%string
      else Ok ((), map (λ r, if same_window h w r then mkRow h w n now else r) d)
  end.

(** [SUM(request_count)] over the windows that start within the bounds. *)
Definition sum_counts (p : Row → bool) (d : Db) : Z := fold_right Z.add 0 (map request_count (List.filter p d)).

Definition counts_between (h : string) (lo hi : Z) (d : Db) : Z :=
  sum_counts (λ r, String.eqb (api_key_hash r) h && (lo <=? window_start r) && (window_start r <=? hi)) d.
Definition counts_from (h : string) (lo : Z) (d : Db) : Z :=
  sum_counts (λ r, String.eqb (api_key_hash r) h && (lo <=? window_start r)) d.

(** ** Configuration and status *)

Record RateLimitConfig : Type := mkConfig {
  requests_per_minute : option Z;
  requests_per_hour : option Z;
  requests_per_day : option Z;
  requests_per_month : option Z;
}.

Definition none : RateLimitConfig := mkConfig None None None None.

Definition is_some {A} (o : option A) : bool := match o with Some _ => true | None => false end.

Definition is_configured (c : RateLimitConfig) : bool :=
  is_some (requests_per_minute c) || is_some (requests_per_hour c) || is_some (requests_per_day c) ||
  is_some (requests_per_month c).

Record RateLimitStatus : Type := mkStatus {
  remaining_minute : option Z;
  limit_minute : option Z;
  remaining_hour : option Z;
  limit_hour : option Z;
  remaining_day : option Z;
  limit_day : option Z;
  remaining_month : option Z;
  limit_month : option Z;
  is_rate_limited : bool;
  reset_at : option Z;
}.

Definition unlimited : RateLimitStatus := mkStatus None None None None None None None None false None.

Definition micros : Z := 1000000.
Definition minute : Z := 60 * micros.
Definition hour : Z := 60 * minute.
Definition day : Z := 24 * hour.

(** [timestamp()]. *)
Definition timestamp (t : Z) : Z := t / micros.

(** [get_current_minute_window]. *)
Definition get_current_minute_window (now : Z) : Z := now - now mod minute.

Section Limiter.
Variable env : PgEnv.
Variable hash_api_key : string → string.

Definition Prog : Type → Type := M Db () string.

(** [get_and_update_counter], which only reads. *)
Definition get_and_update_counter (h : string) (lo now : Z) : Prog Z :=
  n ← query env (λ _, counts_between h lo now); mret (wrap_u 32 n).

(** The same query without the upper bound, for the status. *)
Definition get_counter (h : string) (lo : Z) : Prog Z := n ← query env (λ _, counts_from h lo); mret (wrap_u 32 n).

(** One window: what remains of it, whether the key is limited and until when. *)
Definition check_window (count : Z → Prog Z) (now length : Z) (limit : option Z) (acc : bool * option Z) :
    Prog (option Z * (bool * option Z)) :=
  match limit with
  | None => mret (None, acc)
  | Some l =>
      let ago := now - length in
      n ← count ago;
      if l <=? n then mret (Some 0, (true, Some (default (timestamp (ago + length)) acc.2)))
      else mret (Some (sat_sub_u l n), acc)
  end.

(** The four windows, one after the other. *)
Definition check_windows (count : Z → Prog Z) (now : Z) (c : RateLimitConfig) : Prog RateLimitStatus :=
  r1 ← check_window count now minute (requests_per_minute c) (false, None);
  r2 ← check_window count now hour (requests_per_hour c) r1.2;
  r3 ← check_window count now day (requests_per_day c) r2.2;
  r4 ← check_window count now (30 * day) (requests_per_month c) r3.2;
  mret (mkStatus r1.1 (requests_per_minute c) r2.1 (requests_per_hour c) r3.1 (requests_per_day c)
                 r4.1 (requests_per_month c) r4.2.1 r4.2.2).

Definition check_rate_limit (api_key : string) (c : RateLimitConfig) : Prog (bool * RateLimitStatus) :=
  if negb (is_configured c) then mret (true, unlimited) else
  let h := hash_api_key api_key in
  now ← clock env;
  status ← transaction env (
    status ← check_windows (λ ago, get_and_update_counter h ago now) now c;
    (if is_rate_limited status then mret () else stmt env (λ _, upsert h (get_current_minute_window now) now)) ;;
    mret status);
  mret (negb (is_rate_limited status), status).

Definition get_rate_limit_status (api_key : string) (c : RateLimitConfig) : Prog RateLimitStatus :=
  if negb (is_configured c) then mret unlimited else
  let h := hash_api_key api_key in
  now ← clock env; check_windows (get_counter h) now c.

Definition cleanup_old_counters (hours_to_keep : Z) : Prog nat :=
  now ← clock env;
  execute_count env (λ _ d,
    let old r := window_start r <? now - hours_to_keep * hour in
    (length (List.filter old d), List.filter (λ r, negb (old r)) d)).

(** ** The middleware *)

Record Response : Type := mkResponse { status_code : Z; response_headers : gmap string string }.

Definition set_header (name value : string) (r : Response) : Response :=
  mkResponse (status_code r) (<[name := value]> (response_headers r)).

Definition window_headers (window : string) (limit remaining : option Z) (r : Response) : Response :=
  match limit, remaining with
  | Some l, Some m =>
      set_header ("X-RateLimit-Remaining-" +:+ window) (show_u m) (set_header ("X-RateLimit-Limit-" +:+ window) (show_u l) r)
  | _, _ => r
  end.

Definition apply_rate_limit_headers (r : Response) (s : RateLimitStatus) : Prog Response :=
  let r := window_headers "Minute" (limit_minute s) (remaining_minute s) r in
  let r := window_headers "Hour" (limit_hour s) (remaining_hour s) r in
  let r := window_headers "Day" (limit_day s) (remaining_day s) r in
  let r := window_headers "Month" (limit_month s) (remaining_month s) r in
  match reset_at s with
  | None => mret r
  | Some reset =>
      let r := set_header "X-RateLimit-Reset" (show_i reset) r in
      if is_rate_limited s then
        now ← clock env; mret (set_header "Retry-After" (show_i (Z.max (reset - timestamp now) 1)) r)
      else mret r
  end.

Variable next : HeaderMap → Response.

Definition rate_limit_headers_middleware (c : RateLimitConfig) (req : HeaderMap) : Prog Response :=
  if negb (is_configured c) then mret (next req) else
  match extract_api_key_from_headers req with
  | None => mret (next req)
  | Some key =>
      checked ← attempt (check_rate_limit key c);
      match checked with
      | Err _ => mret (next req)
      | Ok (is_allowed, status) =>
          if negb is_allowed then apply_rate_limit_headers (mkResponse 429 ∅) status
          else apply_rate_limit_headers (next req) status
      end
  end.

(** Requests one after the other. *)
Fixpoint serve (c : RateLimitConfig) (reqs : list HeaderMap) : Prog (list Response) :=
  match reqs with
  | [] => mret []
  | req :: rest =>
      r ← rate_limit_headers_middleware c req; rs ← serve c rest; mret (r :: rs)
  end.

(** ** What the limiter does *)

Definition windows (c : RateLimitConfig) : list (Z * option Z) :=
  [(minute, requests_per_minute c); (hour, requests_per_hour c); (day, requests_per_day c);
   (30 * day, requests_per_month c)].

(** A window whose limit the counted requests have reached. *)
Definition exceeded (h : string) (now : Z) (d : Db) (w : Z * option Z) : Prop :=
  ∃ l, w.2 = Some l ∧ l ≤ wrap_u 32 (counts_between h (now - w.1) now d).

(** What a program leaves when it succeeds. *)
Definition reads {A} (d : Db) (m : Prog A) (P : A → Prop) : Prop :=
  ∀ s, db s = d → db (m s).2 = d ∧ match (m s).1 with Ok x => P x | Err _ => True end.

Lemma reads_ret {A} d (x : A) (P : A → Prop) : P x → reads d (mret x) P.
Proof. by intros HP s Hs. Qed.

Lemma reads_bind {A B} d (m : Prog A) (k : A → Prog B) P Q :
  reads d m P → (∀ x, P x → reads d (k x) Q) → reads d (m ≫= k) Q.
Proof.
  intros Hm Hk s Hs. destruct (Hm s Hs) as [Hd HP]. unfold mbind, M_bind.
  destruct (m s) as [[x|e] s1]; [by apply Hk|done].
Qed.

Lemma reads_query {A} d (f : Z → Db → A) : reads d (query env f) (λ x, ∃ t, x = f t d).
Proof.
  intros s Hs. unfold query, stmt. destruct (db_fault env _); [done|]. simpl. rewrite Hs. split; [done|]. by eexists.
Qed.

Lemma reads_clock d : reads d (clock env) (λ _, True).
Proof. by intros s Hs. Qed.

Lemma check_window_reads h now len limit acc d :
  reads d (check_window (λ ago, get_and_update_counter h ago now) now len limit acc)
    (λ r, r.2.1 = true ↔ acc.1 = true ∨ exceeded h now d (len, limit)).
Proof.
  unfold check_window. destruct limit as [l|].
  - eapply reads_bind; [eapply reads_bind; [apply reads_query|]|].
    + intros x [t ->]. by apply (reads_ret _ _ (λ n, n = wrap_u 32 (counts_between h (now - len) now d))).
    + intros n ->. destruct (Z.leb_spec l (wrap_u 32 (counts_between h (now - len) now d))); apply reads_ret; simpl.
      * split; [|done]. intros _. right. by exists l.
      * split; [by left|]. intros [?|(l' & [= <-] & ?)]; [done|]. simpl in *. lia.
  - apply reads_ret. simpl. split; [by left|]. by intros [?|(? & ? & _)].
Qed.

Lemma check_windows_reads h now c d :
  reads d (check_windows (λ ago, get_and_update_counter h ago now) now c)
    (λ st, is_rate_limited st = true ↔ Exists (exceeded h now d) (windows c)).
Proof.
  unfold check_windows. do 4 (eapply reads_bind; [apply check_window_reads|intros ? ?]).
  apply reads_ret. simpl in *. unfold windows. rewrite !Exists_cons, Exists_nil. naive_solver.
Qed.

Lemma upsert_fails h w now d : ∃ e, upsert h w now d = Err e.
Proof. by eexists. Qed.

Lemma stmt_upsert_err h w now (s : St Db ()) :
  ∃ e s1, (stmt env (λ _, upsert h w now) : Prog ()) s = (Err e, s1) ∧ db s1 = db s.
Proof.
  unfold stmt. destruct (db_fault env (ops s)); [by do 2 eexists|].
  destruct (upsert_fails h w now (db s)) as [e ->]. by do 2 eexists.
Qed.

Lemma reads_transaction {A} d (m : Prog A) P : reads d m P → reads d (transaction env m) P.
Proof.
  intros Hm s Hs.
  assert (reads d (execute env (λ _ d, d) : Prog ()) (λ _, True)) as Hx.
  { intros s1 Hs1. unfold execute, stmt. by destruct (db_fault env _). }
  assert (reads d (execute env (λ _ d, d) ≫= λ _ : (), m ≫= λ x, execute env (λ _ d, d) ≫= λ _ : (), mret x) P) as Hall.
  { eapply reads_bind; [exact Hx|]. intros [] _. eapply reads_bind; [exact Hm|]. intros x HP.
    eapply reads_bind; [exact Hx|]. intros [] _. by apply reads_ret. }
  specialize (Hall s Hs). unfold transaction.
  destruct ((execute _ _ ≫= _) s) as [[x|e] s1]; [done|]. by split.
Qed.

(** A check of a configured key never answers that a request is allowed, and
    never counts one: [ON CONFLICT .. SET request_count = request_count + 1]
    names a column of both tables in scope, which PostgreSQL refuses. *)
Theorem check_rate_limit_spec key c d :
  is_configured c = true →
  reads d (check_rate_limit key c)
    (λ r, r.1 = false ∧ is_rate_limited r.2 = true ∧
          ∃ now, Exists (exceeded (hash_api_key key) now d) (windows c)).
Proof.
  intros Hc. unfold check_rate_limit. rewrite Hc. simpl. eapply reads_bind; [apply reads_clock|]. intros now _.
  eapply reads_bind.
  - apply reads_transaction. eapply reads_bind; [apply check_windows_reads|]. intros st Hst.
    destruct (is_rate_limited st) eqn:E.
    + eapply reads_bind; [by apply (reads_ret _ _ (λ _, True))|]. intros [] _.
      apply (reads_ret _ _ (λ st, is_rate_limited st = true ∧ Exists (exceeded (hash_api_key key) now d) (windows c))).
      split; [done|]. by apply Hst.
    + eapply (reads_bind _ _ _ (λ _, False)); [|done]. intros s Hs.
      destruct (stmt_upsert_err (hash_api_key key) (get_current_minute_window now) now s) as (e & s1 & -> & Hd).
      simpl. by rewrite Hd.
  - intros st [Hl He]. apply reads_ret. simpl. rewrite Hl. split_and!; try done. by exists now.
Qed.

Definition positive (c : RateLimitConfig) : Prop := Forall (λ w, ∀ l, w.2 = Some l → 0 < l) (windows c).

Lemma nothing_exceeded h now c : positive c → ¬ Exists (exceeded h now []) (windows c).
Proof.
  intros Hp He. apply Exists_exists in He as (w & Hw & l & Hl & Hle).
  unfold positive in Hp. rewrite Forall_forall in Hp. specialize (Hp w Hw l Hl). simpl in Hle.
  change (wrap_u 32 (counts_between h (now - w.1) now [])) with 0 in Hle. lia.
Qed.

Lemma middleware_passes c req s :
  positive c → db s = [] →
  (rate_limit_headers_middleware c req s).1 = Ok (next req) ∧ db (rate_limit_headers_middleware c req s).2 = [].
Proof.
  intros Hp Hs. unfold rate_limit_headers_middleware.
  destruct (is_configured c) eqn:Hc; [simpl|done]. destruct (extract_api_key_from_headers req) as [key|]; [|done].
  destruct (check_rate_limit_spec key c [] Hc s Hs) as [Hd Hr]. unfold mbind, M_bind, attempt.
  destruct (check_rate_limit key c s) as [[[a st]|e] s1]; [|done].
  destruct Hr as (_ & _ & now & He). by apply nothing_exceeded in He.
Qed.

(** So nothing is ever limited: starting from the empty table, every request
    of every sequence reaches the handlers, without the documented headers,
    whatever the (positive) limits, the clock and the failures of the database. *)
Theorem limits_never_enforced c reqs s :
  positive c → db s = [] →
  ∃ s1, serve c reqs s = (Ok (map next reqs), s1) ∧ db s1 = [].
Proof.
  intros Hp. revert s. induction reqs as [|req reqs IH]; intros s Hs; [by exists s|].
  destruct (middleware_passes c req s Hp Hs) as [Hr Hd]. simpl. unfold mbind at 1, M_bind.
  destruct (rate_limit_headers_middleware c req s) as [r s1]. simpl in Hr, Hd. subst r.
  destruct (IH s1 Hd) as (s2 & E & Hd2). exists s2. by rewrite (bind_ok _ _ _ _ _ E).
Qed.

End Limiter.

(** ** A concrete run *)

Definition demo_env : PgEnv := mkPgEnv (λ n, 1700000000000000 + Z.of_nat n) (λ _, None).
Definition demo_config : RateLimitConfig := mkConfig (Some 1) None (Some 5) None.
Definition demo_next : HeaderMap → Response := λ _, mkResponse 200 ∅.
Definition demo_req : HeaderMap := [("Authorization", "Bearer key-a")]%string.

(** Three requests against a limit of one a minute. *)
Lemma limits_never_enforced_witness :
  is_configured demo_config = true ∧
  ∃ s1, serve demo_env (λ k, k) demo_next demo_config [demo_req; demo_req; demo_req] (mkSt [] 0 []) =
        (Ok [mkResponse 200 ∅; mkResponse 200 ∅; mkResponse 200 ∅], s1) ∧ db s1 = [].
Proof.
  split; [reflexivity|].
  apply (limits_never_enforced demo_env (λ k, k) demo_next demo_config [demo_req; demo_req; demo_req] (mkSt [] 0 [])).
  - unfold positive, windows. repeat constructor; simpl; intros l [= <-]; lia.
  - reflexivity.
Defined.

End RateLimiter.
