(* ===== verification/SseStream.v ===== *)
(** The SSE endpoints (handlers/events.rs [stream_events],
    [stream_events_by_contract], [stream_events_multi]) and the WebSocket
    endpoints: admission, the replay for a reconnecting client, the live
    stream, and what is released when.

    tokio's broadcast channel gives a receiver the messages sent after
    [subscribe]; what a receiver sees is a list of [Input]s.  serde's derived
    serializations are parameters. *)

From S2P Require Import Prelude Text Model SseRing ApiParams EventStore EventsQuery.

Module SseStream.
Import ApiParams.

(** ** Connections *)

Record Config : Type := mkConfig {
  sse_max_connections : Z;
  sse_max_connections_per_ip : Z;
  sse_multi_max_contract_ids : nat;
  sse_replay_limit : Z;
  sse_max_lag_before_disconnect : Z;
}.

(** [sse_connections] and [sse_connections_per_ip]. *)
Record Counters : Type := mkCounters { connections : Z; per_ip : gmap string Z }.

Inductive Refusal : Type :=
| SseLimitExceeded
| SseIpLimitExceeded (limit : Z)
| BadRequest (error : string)
| InvalidIds (ids : list string).

Definition ip_count (ip : string) (c : Counters) : Z := default 0 (per_ip c !! ip).

(** The atomic operations on the counters, in the order of a request: the load
    of the count of connections, the lookup of the address, its increment in the
    entry, and the [fetch_add]. *)
Definition below_limit (cfg : Config) (c : Counters) : bool := connections c <? sse_max_connections cfg.

Definition ip_below_limit (cfg : Config) (ip : string) (c : Counters) : bool :=
  negb ((0 <? sse_max_connections_per_ip cfg) && (sse_max_connections_per_ip cfg <=? ip_count ip c)).

Definition count_ip (cfg : Config) (ip : string) (c : Counters) : Counters :=
  if 0 <? sse_max_connections_per_ip cfg
  then mkCounters (connections c) (<[ip := add_u 64 (ip_count ip c) 1]> (per_ip c)) else c.

Definition count_connection (c : Counters) : Counters := mkCounters (add_u 64 (connections c) 1) (per_ip c).

(** [fetch_sub(1)]; and [entry(ip).or_insert(0)], then one less unless it is zero. *)
Definition uncount_connection (c : Counters) : Counters := mkCounters (wrap_u 64 (connections c - 1)) (per_ip c).

Definition uncount_ip (cfg : Config) (ip : string) (c : Counters) : Counters :=
  if 0 <? sse_max_connections_per_ip cfg
  then mkCounters (connections c) (<[ip := sat_sub_u (ip_count ip c) 1]> (per_ip c)) else c.

(** The operations of a request that nothing interrupts; those of concurrent
    requests are steps of [hub_step]. *)
Definition acquire (cfg : Config) (ip : string) (c : Counters) : result () Refusal * Counters :=
  if negb (below_limit cfg c) then (Err SseLimitExceeded, c)
  else if negb (ip_below_limit cfg ip c) then (Err (SseIpLimitExceeded (sse_max_connections_per_ip cfg)), c)
  else (Ok (), count_connection (count_ip cfg ip c)).

(** What the stream does when it is polled past its end. *)
Definition release (cfg : Config) (ip : string) (c : Counters) : Counters := uncount_ip cfg ip (uncount_connection c).

(** And what an invalid contract id does right after [acquire]. *)
Definition reject (cfg : Config) (ip : string) (c : Counters) : Counters := uncount_connection (uncount_ip cfg ip c).

(** [extract_client_ip]. *)
Definition extract_client_ip (h : HeaderMap) : string :=
  default "unknown"%string
    (or_else ((λ s, trim (hd EmptyString (split_on "," s))) <$> header_str "x-forwarded-for" h)
             (trim <$> header_str "x-real-ip" h)).

(** ** Filters *)

(** The contracts of a stream: all, one, or those of the multi stream. *)
Inductive Scope : Type :=
| AllContracts
| OneContract (cid : string)
| Contracts (ids : list string).

Definition in_scope (s : Scope) (contract : string) : bool :=
  match s with
  | AllContracts => true
  | OneContract cid => String.eqb contract cid
  | Contracts ids => mem contract ids
  end.

Definition type_ok (et : option EventType) (event_type : string) : bool :=
  match et with Some t => String.eqb event_type (event_type_str t) | None => true end.

Definition tenant_ok (tid : option string) (e : SorobanEvent) : bool :=
  match tid with Some t => bool_decide (ev_tenant_id e = Some t) | None => true end.

(** The filter on replayed events. *)
Definition replay_wants (s : Scope) (et : option EventType) (e : SorobanEvent) : bool :=
  in_scope s (ev_contract_id e) && type_ok et (ev_event_type e).

(** The filter on live events. *)
Definition live_wants (s : Scope) (et : option EventType) (tid : option string) (e : SorobanEvent) : bool :=
  in_scope s (ev_contract_id e) && type_ok et (ev_event_type e) && tenant_ok tid e.

(** ** Frames *)

Inductive Frame : Type :=
| FEvent (id data : string)
| FReplayComplete
| FLag (missed : Z)
| FClose (reason : string)
| FPing (ts : string).

(** What wakes the live stream up. *)
Inductive Input : Type :=
| Received (e : SorobanEvent)
| Lagged (n : Z)
| ChannelClosed
| Tick (ts : string)
| ShutdownChanged.

Section Stream.
Variable env : EventsQuery.Env.
(** serde's serializations of [SorobanEvent] and of [Event]. *)
Variable event_json : SorobanEvent → string.
Variable event_string : EventsQuery.Row → string.

Definition fallback_id (e : SorobanEvent) : string := (ev_tx_hash e +:+ "-" +:+ show_u (ev_ledger e))%string.

(** The id of a frame: the SSE id, or the transaction and the ledger. *)
Definition frame_id (e : SorobanEvent) : string :=
  match ev_id e with Some u => EventsQuery.show_uuid env u | None => fallback_id e end.

Definition event_frame (e : SorobanEvent) : Frame := FEvent (frame_id e) (event_json e).

(** ** Replay *)

(** The [Last-Event-ID] header, when it is a UUID. *)
Definition last_event_id (h : HeaderMap) : option Z :=
  let! s := header_str "last-event-id" h in EventsQuery.parse_uuid env s.

Definition ring_replay (cfg : Config) (s : Scope) (et : option EventType) (last : option Z)
    (ring : SseRing.SseRingBuffer) : list SorobanEvent :=
  match last with
  | Some id =>
      match SseRing.events_since id ring with
      | Some events => take (Z.to_nat (sse_replay_limit cfg)) (List.filter (replay_wants s et) events)
      | None => []
      end
  | None => []
  end.

Definition created_at (r : EventsQuery.Row) : Z := EventStore.row_created_at (EventsQuery.stored r).

(** [created_at > (SELECT created_at FROM events WHERE id = $1)]: no row has
    the id, no row is greater than NULL. *)
Definition after_row (id : Z) (rows : list EventsQuery.Row) (r : EventsQuery.Row) : bool :=
  match List.find (λ r, EventsQuery.row_id r =? id) rows with
  | Some l => created_at l <? created_at r
  | None => false
  end.

Definition replay_rows (wanted : EventsQuery.Row → bool) (limit id : Z) (rows : list EventsQuery.Row) :
    result (list EventsQuery.Row) string :=
  if limit <? 0 then Err "LIMIT must not be negative"%string
  else Ok (take (Z.to_nat limit)
             (EventsQuery.order_by (EventsQuery.sql env) [EventsQuery.mkKey "created_at" "ASC" false]
                (List.filter (λ r, after_row id rows r && wanted r) rows))).

Definition row_contract (r : EventsQuery.Row) : string := EventStore.c_contract_id (EventsQuery.cols r).
Definition row_tenant_ok (tid : option string) (r : EventsQuery.Row) : bool :=
  match tid with Some t => bool_decide (EventStore.c_tenant_id (EventsQuery.cols r) = Some t) | None => true end.

Definition single_columns : list string :=
  ["id"; "contract_id"; "event_type"; "tx_hash"; "ledger"; "timestamp"; "event_data"; "event_data_normalized";
   "created_at"; "schema_version"; "total_count"]%string.
Definition multi_columns : list string :=
  ["id"; "contract_id"; "event_type"; "tx_hash"; "ledger"; "timestamp"; "event_data"; "created_at"; "total_count"]%string.

Definition unwrap_or_default {A} (r : result (list A) string) : list A := match r with Ok l => l | Err _ => [] end.

(** The query of the single and of the contract stream; [fault] is the
    failure of the database, if any. *)
Definition db_replay (cfg : Config) (cid : option string) (fault : option string) (id : Z)
    (rows : list EventsQuery.Row) : list EventsQuery.Row :=
  unwrap_or_default (
    match fault with
    | Some e => Err e
    | None =>
        let wanted r := match cid with Some c => String.eqb (row_contract r) c | None => true end in
        let? found := replay_rows wanted (wrap_i 64 (sse_replay_limit cfg)) id rows in
        EventsQuery.from_rows single_columns found
    end).

(** The query of the multi stream, whose limit is written out. *)
Definition db_replay_multi (cfg : Config) (ids : list string) (tid fault : option string) (id : Z)
    (rows : list EventsQuery.Row) : list EventsQuery.Row :=
  unwrap_or_default (
    match fault with
    | Some e => Err e
    | None =>
        let? found := replay_rows (λ r, mem (row_contract r) ids && row_tenant_ok tid r) (sse_replay_limit cfg) id rows in
        EventsQuery.from_rows multi_columns found
    end).

Definition with_event_data (v : Value) (r : EventsQuery.Row) : EventsQuery.Row :=
  let c := EventsQuery.cols r in
  EventsQuery.mkRow (EventStore.mkRow (EventsQuery.row_id r) (created_at r)
      (EventStore.mkColumns (EventStore.c_contract_id c) (EventStore.c_event_type c) (EventStore.c_tx_hash c) (EventStore.c_ledger c) (EventStore.c_timestamp c) v
         None false None None "" None None "" None None None None None))
    (EventsQuery.r_normalized r) (EventsQuery.r_schema_version r) false.

(** [filter_fields]. *)
Definition filter_fields (r : EventsQuery.Row) (columns : list string) : Value :=
  Object (fold_left (λ o col,
    match EventsQuery.column_json env r false EventsQuery.FJson col with
    | Ok (Some v) => entry_insert col v o
    | _ => o
    end) columns []).

Definition decrypted (r : EventsQuery.Row) : Value :=
  EventsQuery.decrypt_event_data env (EventStore.c_event_data (EventsQuery.cols r)).

Definition row_frame (columns : option (list string)) (fmt : EventsQuery.ScValFormat) (r : EventsQuery.Row) : Frame :=
  let r := with_event_data (EventsQuery.render_event_data env (decrypted r) fmt) r in
  FEvent (EventsQuery.show_uuid env (EventsQuery.row_id r))
    (match columns with
     | Some cols => EventsQuery.to_string env (filter_fields r cols)
     | None => event_string r
     end).

Definition row_frame_multi (r : EventsQuery.Row) : Frame :=
  FEvent (EventsQuery.show_uuid env (EventsQuery.row_id r)) (event_string (with_event_data (decrypted r) r)).

(** The replayed frames, then the marker if there are any. *)
Definition replay_stream (ring_events : list SorobanEvent) (row_frames : list Frame) : list Frame :=
  let replayed := map event_frame ring_events ++ row_frames in
  replayed ++ match replayed with [] => [] | _ => [FReplayComplete] end.

(** The fields asked for that exist. *)
Definition field_columns (fields : option string) : option (list string) :=
  let! f := fields in
  if is_empty (trim f) then None
  else match List.filter (λ s, mem s ALLOWED_FIELDS) (map trim (split_on "," (trim f))) with
       | [] => None
       | cols => Some cols
       end.

Definition is_nil {A} (l : list A) : bool := match l with [] => true | _ => false end.

(** The replay of [stream_events_internal]: the database is asked when the
    ring gave nothing. *)
Definition replay (cfg : Config) (cid fields : option string) (et : option EventType) (h : HeaderMap)
    (fmt : EventsQuery.ScValFormat) (ring : SseRing.SseRingBuffer) (fault : option string)
    (rows : list EventsQuery.Row) : list Frame :=
  let s := match cid with Some c => OneContract c | None => AllContracts end in
  let last := last_event_id h in
  let ring_events := ring_replay cfg s et last ring in
  let db_rows := match last with
                 | Some id => if is_nil ring_events then db_replay cfg cid fault id rows else []
                 | None => []
                 end in
  replay_stream ring_events (map (row_frame (field_columns fields) fmt) db_rows).

Definition replay_multi (cfg : Config) (ids : list string) (et : option EventType) (tid : option string) (h : HeaderMap)
    (ring : SseRing.SseRingBuffer) (fault : option string) (rows : list EventsQuery.Row) : list Frame :=
  let last := last_event_id h in
  let ring_events := ring_replay cfg (Contracts ids) et last ring in
  let db_rows := match last with
                 | Some id => if is_nil ring_events then db_replay_multi cfg ids tid fault id rows else []
                 | None => []
                 end in
  replay_stream ring_events (map row_frame_multi db_rows).

(** ** The live stream *)

(** One awakening: [None] to go on waiting, else the frame and whether the
    stream closes after it.  The multi stream does not listen to the shutdown. *)
Definition live_step (cfg : Config) (s : Scope) (et : option EventType) (tid : option string) (i : Input) :
    option (Frame * bool) :=
  match i with
  | Received e => if live_wants s et tid e then Some (event_frame e, false) else None
  | Lagged n =>
      Some (FLag n, (0 <? sse_max_lag_before_disconnect cfg) && (sse_max_lag_before_disconnect cfg <=? n))
  | ChannelClosed => Some (FClose "stream closed", true)
  | Tick ts => Some (FPing ts, false)
  | ShutdownChanged => match s with Contracts _ => None | _ => Some (FClose "server shutting down", true) end
  end.

(** The frames of a run of awakenings and whether the stream has closed. *)
Fixpoint live (cfg : Config) (s : Scope) (et : option EventType) (tid : option string) (inputs : list Input) :
    list Frame * bool :=
  match inputs with
  | [] => ([], false)
  | i :: rest =>
      match live_step cfg s et tid i with
      | None => live cfg s et tid rest
      | Some (f, true) => ([f], true)
      | Some (f, false) => let '(fs, closed) := live cfg s et tid rest in (f :: fs, closed)
      end
  end.

(** ** WebSockets *)

(** What wakes a WebSocket task up; [sent] says whether the answer could be sent. *)
Inductive WsInput : Type :=
| WsText (parsed : option Value)
| WsClosed
| WsReceived (e : SorobanEvent) (sent : bool)
| WsLagged (n : Z)
| WsChannelClosed.

Definition ws_wants (filter : option string) (e : SorobanEvent) : bool :=
  match filter with Some c => String.eqb (ev_contract_id e) c | None => true end.

(** The loop of [ws_events]: a JSON message replaces the filter. *)
Fixpoint ws_events (filter : option string) (inputs : list WsInput) : list string :=
  match inputs with
  | [] => []
  | WsText (Some v) :: rest => ws_events (let! c := value_get v "contract_id" in as_str c) rest
  | WsText None :: rest => ws_events filter rest
  | (WsClosed | WsChannelClosed) :: _ => []
  | WsReceived e sent :: rest =>
      if ws_wants filter e then event_json e :: (if sent then ws_events filter rest else []) else ws_events filter rest
  | WsLagged _ :: rest => ws_events filter rest
  end.

(** The loop of [handle_ws_connection], which ends when the receiver lags. *)
Fixpoint ws_stream (contract_id : option string) (inputs : list WsInput) : list string :=
  match inputs with
  | [] => []
  | WsText _ :: rest => ws_stream contract_id rest
  | (WsClosed | WsChannelClosed | WsLagged _) :: _ => []
  | WsReceived e sent :: rest =>
      if ws_wants contract_id e then event_json e :: (if sent then ws_stream contract_id rest else [])
      else ws_stream contract_id rest
  end.

(** [handle_ws_connection] counts its connection among those of the SSE
    streams, without a limit, and gives it back whenever its loop ends. *)
Definition ws_connect (c : Counters) : Counters := count_connection c.
Definition ws_disconnect (c : Counters) : Counters := uncount_connection c.

(** Both WebSocket endpoints send a client that only listens the events of its
    contract, of every tenant. *)
Lemma ws_endpoints_agree contract_id (l : list SorobanEvent) :
  ws_stream contract_id (map (λ e, WsReceived e true) l) = map event_json (List.filter (ws_wants contract_id) l) ∧
  ws_events contract_id (map (λ e, WsReceived e true) l) = map event_json (List.filter (ws_wants contract_id) l).
Proof.
  induction l as [|e l [IH1 IH2]]; [done|]. simpl. rewrite IH1, IH2. by destruct (ws_wants contract_id e).
Qed.

(** ** The handlers *)

Definition bad (e : AppError) : Refusal := BadRequest match e with Validation m => m | _ => EmptyString end.

(** [stream_events_internal]: the contract is validated after the connection is counted. *)
Definition stream_events_internal (cfg : Config) (cid fields : option string) (et : option EventType) (h : HeaderMap)
    (ip : string) (fmt : EventsQuery.ScValFormat) (ring : SseRing.SseRingBuffer) (fault : option string)
    (rows : list EventsQuery.Row) (c : Counters) : result (list Frame) Refusal * Counters :=
  match acquire cfg ip c with
  | (Err e, c) => (Err e, c)
  | (Ok _, c) =>
      match match cid with Some i => validate_contract_id i | None => Ok () end with
      | Err e => (Err (bad e), reject cfg ip c)
      | Ok _ => (Ok (replay cfg cid fields et h fmt ring fault rows), c)
      end
  end.

Definition stream_events (cfg : Config) (cid fields format : option string) (et : option EventType) (h : HeaderMap)
    (ring : SseRing.SseRingBuffer) (fault : option string) (rows : list EventsQuery.Row) (c : Counters) :
    result (list Frame) Refusal * Counters :=
  match EventsQuery.parse_format format with
  | Err e => (Err (bad e), c)
  | Ok fmt => stream_events_internal cfg cid fields et h (extract_client_ip h) fmt ring fault rows c
  end.

Definition stream_events_by_contract (cfg : Config) (cid : string) (fields format : option string)
    (et : option EventType) (h : HeaderMap) (ring : SseRing.SseRingBuffer) (fault : option string)
    (rows : list EventsQuery.Row) (c : Counters) : result (list Frame) Refusal * Counters :=
  match validate_contract_id cid with
  | Err e => (Err (bad e), c)
  | Ok _ => stream_events cfg (Some cid) fields format et h ring fault rows c
  end.

Definition stream_events_multi (cfg : Config) (contract_ids : option string) (et : option EventType)
    (tid : option string) (h : HeaderMap) (ring : SseRing.SseRingBuffer) (fault : option string)
    (rows : list EventsQuery.Row) (c : Counters) : result (list Frame) Refusal * Counters :=
  let raw := default EmptyString contract_ids in
  if is_empty (trim raw) then (Err (BadRequest "contract_ids must not be empty"), c) else
  let ids := map trim (split_on "," raw) in
  if (sse_multi_max_contract_ids cfg <? length ids)%nat then
    (Err (BadRequest ("too many contract IDs (max " +:+ show_u (Z.of_nat (sse_multi_max_contract_ids cfg)) +:+ ")")%string), c)
  else
    match List.filter (λ i, negb (is_ok (validate_contract_id i))) ids with
    | [] =>
        match acquire cfg (extract_client_ip h) c with
        | (Err e, c) => (Err e, c)
        | (Ok _, c) => (Ok (replay_multi cfg ids et tid h ring fault rows), c)
        end
    | invalid => (Err (InvalidIds invalid), c)
    end.

End Stream.

(** ** Admission over time *)

(** How far the request or the stream of a client is between two of its
    operations: it has passed the first check, the second, is counted for its
    address, is counted; or it was rejected and has given its address back, or
    its stream has ended and has given the connection back. *)
Inductive Phase : Type := Checked | Allowed | IpCounted | Counted | Rejected | Ended.

#[export] Instance Phase_eq : EqDecision Phase.
Proof. solve_decision. Defined.

(** The counters, the clients between two operations, those of open streams,
    those that went away, and the number of open WebSockets.  axum drops the
    stream of a client that disconnects, and nothing polls it to its end. *)
Record Hub : Type := mkHub {
  counters : Counters;
  busy : list (string * Phase);
  open : list string;
  gone : list string;
  sockets : nat;
}.

(** The operations of all clients, in any order. *)
Inductive hub_step (cfg : Config) : Hub → Hub → Prop :=
| hub_request ip c b o g w :
    below_limit cfg c = true → hub_step cfg (mkHub c b o g w) (mkHub c (b ++ [(ip, Checked)]) o g w)
| hub_refuse c b o g w :
    below_limit cfg c = false → hub_step cfg (mkHub c b o g w) (mkHub c b o g w)
| hub_allow ip c l r o g w :
    ip_below_limit cfg ip c = true → hub_step cfg (mkHub c (l ++ (ip, Checked) :: r) o g w) (mkHub c (l ++ (ip, Allowed) :: r) o g w)
| hub_refuse_ip ip c l r o g w :
    ip_below_limit cfg ip c = false → hub_step cfg (mkHub c (l ++ (ip, Checked) :: r) o g w) (mkHub c (l ++ r) o g w)
| hub_count_ip ip c l r o g w :
    hub_step cfg (mkHub c (l ++ (ip, Allowed) :: r) o g w) (mkHub (count_ip cfg ip c) (l ++ (ip, IpCounted) :: r) o g w)
| hub_count ip c l r o g w :
    hub_step cfg (mkHub c (l ++ (ip, IpCounted) :: r) o g w) (mkHub (count_connection c) (l ++ (ip, Counted) :: r) o g w)
| hub_open ip c l r o g w :
    hub_step cfg (mkHub c (l ++ (ip, Counted) :: r) o g w) (mkHub c (l ++ r) (o ++ [ip]) g w)
| hub_reject ip c l r o g w :
    hub_step cfg (mkHub c (l ++ (ip, Counted) :: r) o g w) (mkHub (uncount_ip cfg ip c) (l ++ (ip, Rejected) :: r) o g w)
| hub_rejected ip c l r o g w :
    hub_step cfg (mkHub c (l ++ (ip, Rejected) :: r) o g w) (mkHub (uncount_connection c) (l ++ r) o g w)
| hub_end ip c b l r g w :
    hub_step cfg (mkHub c b (l ++ ip :: r) g w) (mkHub (uncount_connection c) (b ++ [(ip, Ended)]) (l ++ r) g w)
| hub_ended ip c l r o g w :
    hub_step cfg (mkHub c (l ++ (ip, Ended) :: r) o g w) (mkHub (uncount_ip cfg ip c) (l ++ r) o g w)
| hub_leave ip c b l r g w :
    hub_step cfg (mkHub c b (l ++ ip :: r) g w) (mkHub c b (l ++ r) (ip :: g) w)
| hub_leave_early ip c l r o g w :
    hub_step cfg (mkHub c (l ++ (ip, Counted) :: r) o g w) (mkHub c (l ++ r) o (ip :: g) w)
| hub_socket c b o g w : hub_step cfg (mkHub c b o g w) (mkHub (ws_connect c) b o g (S w))
| hub_socket_end c b o g w : hub_step cfg (mkHub c b o g (S w)) (mkHub (ws_disconnect c) b o g w).

Definition hub_new : Hub := mkHub (mkCounters 0 ∅) [] [] [] 0.

(** Everybody the service has to do with; fewer than a [usize] counts. *)
Definition everybody (h : Hub) : nat := (length (busy h) + length (open h) + length (gone h) + sockets h)%nat.
Definition countable (h : Hub) : Prop := Z.of_nat (everybody h) ≤ u_max 64.

Definition reachable (cfg : Config) : Hub → Prop := rtc (λ h h', hub_step cfg h h' ∧ countable h') hub_new.

Definition times (ip : string) (l : list string) : Z := Z.of_nat (length (List.filter (String.eqb ip) l)).

(** Those between two operations who are counted as a connection, or for the address. *)
Definition connected (p : Phase) : bool := match p with Counted | Rejected => true | _ => false end.
Definition ip_counted (p : Phase) : bool := match p with IpCounted | Counted | Ended => true | _ => false end.
Definition busy_connections (b : list (string * Phase)) : Z := Z.of_nat (length (List.filter (λ x, connected x.2) b)).
Definition busy_times (ip : string) (b : list (string * Phase)) : Z :=
  Z.of_nat (length (List.filter (λ x, String.eqb ip x.1 && ip_counted x.2) b)).

Lemma times_app ip l r : times ip (l ++ r) = times ip l + times ip r.
Proof. unfold times. rewrite List.filter_app, length_app. lia. Qed.

Lemma times_cons ip x l : times ip (x :: l) = (if String.eqb ip x then 1 else 0) + times ip l.
Proof. unfold times. simpl. destruct (String.eqb ip x); simpl; lia. Qed.

Lemma times_bound ip l : 0 ≤ times ip l ≤ Z.of_nat (length l).
Proof. unfold times. pose proof (List.filter_length_le (String.eqb ip) l). lia. Qed.

Lemma busy_connections_app l r : busy_connections (l ++ r) = busy_connections l + busy_connections r.
Proof. unfold busy_connections. rewrite List.filter_app, length_app. lia. Qed.

Lemma busy_connections_cons x l : busy_connections (x :: l) = (if connected x.2 then 1 else 0) + busy_connections l.
Proof. unfold busy_connections. simpl. destruct (connected x.2); simpl; lia. Qed.

Lemma busy_connections_bound b : 0 ≤ busy_connections b ≤ Z.of_nat (length b).
Proof. unfold busy_connections. pose proof (List.filter_length_le (λ x : string * Phase, connected x.2) b). lia. Qed.

Lemma busy_times_app ip l r : busy_times ip (l ++ r) = busy_times ip l + busy_times ip r.
Proof. unfold busy_times. rewrite List.filter_app, length_app. lia. Qed.

Lemma busy_times_cons ip x l : busy_times ip (x :: l) = (if String.eqb ip x.1 && ip_counted x.2 then 1 else 0) + busy_times ip l.
Proof. unfold busy_times. simpl. destruct (_ && _); simpl; lia. Qed.

Lemma busy_times_bound ip b : 0 ≤ busy_times ip b ≤ Z.of_nat (length b).
Proof. unfold busy_times. pose proof (List.filter_length_le (λ x : string * Phase, String.eqb ip x.1 && ip_counted x.2) b). lia. Qed.

(** Every client that was counted counts until its stream ends by itself. *)
Definition counted_connections (h : Hub) : Z :=
  Z.of_nat (length (open h)) + Z.of_nat (length (gone h)) + Z.of_nat (sockets h) + busy_connections (busy h).
Definition counted_times (ip : string) (h : Hub) : Z := times ip (open h) + times ip (gone h) + busy_times ip (busy h).

Definition accounted (cfg : Config) (h : Hub) : Prop :=
  connections (counters h) = counted_connections h ∧
  (0 < sse_max_connections_per_ip cfg → ∀ ip, ip_count ip (counters h) = counted_times ip h).

Lemma wrap_small n : 0 ≤ n ≤ u_max 64 → wrap_u 64 n = n.
Proof. intros Hn. apply wrap_u_small. unfold in_u, u_max in *. lia. Qed.

Lemma count_ip_count cfg ip c i :
  0 < sse_max_connections_per_ip cfg →
  ip_count i (count_ip cfg ip c) = if String.eqb i ip then add_u 64 (ip_count ip c) 1 else ip_count i c.
Proof.
  intros Hp. unfold count_ip. rewrite (proj2 (Z.ltb_lt _ _) Hp). unfold ip_count at 1. cbn [per_ip].
  destruct (String.eqb_spec i ip) as [->|Hn]; [by rewrite lookup_insert_eq|by rewrite lookup_insert_ne].
Qed.

Lemma uncount_ip_count cfg ip c i :
  0 < sse_max_connections_per_ip cfg →
  ip_count i (uncount_ip cfg ip c) = if String.eqb i ip then sat_sub_u (ip_count ip c) 1 else ip_count i c.
Proof.
  intros Hp. unfold uncount_ip. rewrite (proj2 (Z.ltb_lt _ _) Hp). unfold ip_count at 1. cbn [per_ip].
  destruct (String.eqb_spec i ip) as [->|Hn]; [by rewrite lookup_insert_eq|by rewrite lookup_insert_ne].
Qed.

Lemma count_ip_connections cfg ip c : connections (count_ip cfg ip c) = connections c.
Proof. unfold count_ip. by destruct (0 <? _). Qed.

Lemma uncount_ip_connections cfg ip c : connections (uncount_ip cfg ip c) = connections c.
Proof. unfold uncount_ip. by destruct (0 <? _). Qed.

Lemma ip_count_count_connection i c : ip_count i (count_connection c) = ip_count i c.
Proof. done. Qed.

Lemma ip_count_uncount_connection i c : ip_count i (uncount_connection c) = ip_count i c.
Proof. done. Qed.

Ltac hub_sums :=
  unfold counted_connections, counted_times, everybody in *; cbn [counters busy open gone sockets] in *;
  rewrite ?length_app, ?times_app, ?times_cons, ?busy_connections_app, ?busy_connections_cons, ?busy_times_app, ?busy_times_cons in *;
  cbn [length fst snd connected ip_counted andb] in *; rewrite ?andb_true_r, ?andb_false_r in *;
  change (busy_connections []) with 0 in *; change (times ?i []) with 0 in *; change (busy_times ?i []) with 0 in *.

(** Each operation counts what it is for. *)
Lemma accounted_step cfg h h' :
  hub_step cfg h h' → countable h → countable h' → accounted cfg h → accounted cfg h'.
Proof.
  intros Hstep Hb Hb' [Hc Hi]. unfold countable in *. split.
  - clear Hi. destruct Hstep; cbn [counters] in *; rewrite ?count_ip_connections, ?uncount_ip_connections;
      unfold ws_connect, ws_disconnect, count_connection, uncount_connection, add_u;
      cbn [connections]; rewrite ?Hc; hub_sums;
      repeat match goal with |- context [busy_connections ?b] =>
        lazymatch goal with H : 0 ≤ busy_connections b ≤ _ |- _ => fail | _ => pose proof (busy_connections_bound b) end end;
      rewrite ?wrap_small by lia; lia.
  - intros Hp i. specialize (Hi Hp). pose proof (Hi i) as H1.
    destruct Hstep; cbn [counters] in *; try (pose proof (Hi ip) as H2);
      unfold ws_connect, ws_disconnect; rewrite ?ip_count_count_connection, ?ip_count_uncount_connection, ?count_ip_count, ?uncount_ip_count by done;
      hub_sums; try lia; (destruct (String.eqb_spec i ip) as [Ei|Hn]; [subst i|]); try lia; rewrite ?String.eqb_refl in *;
      repeat match goal with
        | |- context [busy_times ?x ?b] =>
            lazymatch goal with H : 0 ≤ busy_times x b ≤ _ |- _ => fail | _ => pose proof (busy_times_bound x b) end
        | |- context [times ?x ?b] =>
            lazymatch goal with H : 0 ≤ times x b ≤ _ |- _ => fail | _ => pose proof (times_bound x b) end
        end;
      unfold add_u, sat_sub_u; rewrite ?wrap_small by lia; lia.
Qed.

Lemma accounted_reachable cfg h : reachable cfg h → accounted cfg h ∧ countable h.
Proof.
  intros Hr. refine (rtc_ind_r (λ h, accounted cfg h ∧ countable h) hub_new _ _ h Hr).
  - split; [|vm_compute; discriminate]. split; [reflexivity|]. intros _ ip. unfold ip_count. cbn. by rewrite lookup_empty.
  - intros h1 h2 _ [Hstep Hb] [Ha Hb1]. split; [by apply (accounted_step cfg h1)|done].
Qed.

(** C12. However the operations of requests, of streams that end, of clients that disconnect and of
    WebSockets interleave: the service counts the open streams, the open WebSockets, all the
    streaming clients that ever disconnected, and those in the midst of a request who are counted
    already; and the two checks of a client pass exactly when these leave room below both limits.  A
    connection is given back only by a stream that ends by itself, so disconnecting clients use the
    service up for good. *)
Theorem admission_counts_the_gone cfg h ip :
  reachable cfg h →
  connections (counters h) = counted_connections h ∧
  ((acquire cfg ip (counters h)).1 = Ok () ↔
   counted_connections h < sse_max_connections cfg ∧
   (0 < sse_max_connections_per_ip cfg → counted_times ip h < sse_max_connections_per_ip cfg)).
Proof.
  intros Hr. destruct (accounted_reachable cfg h Hr) as [[Hc Hi] _]. split; [done|].
  unfold acquire, below_limit, ip_below_limit. rewrite Hc.
  destruct (Z.ltb_spec (counted_connections h) (sse_max_connections cfg)); [|split; [done|lia]]. cbn [negb].
  destruct (Z.ltb_spec 0 (sse_max_connections_per_ip cfg)) as [Hp|Hp]; cbn [andb negb]; [|split; [lia|done]].
  rewrite (Hi Hp ip). destruct (Z.leb_spec (sse_max_connections_per_ip cfg) (counted_times ip h)); cbn [negb]; split; try done; lia.
Qed.

(** ** Sessions *)

Section Sessions.
Variable env : EventsQuery.Env.
Variable event_json : SorobanEvent → string.
Variable event_string : EventsQuery.Row → string.

Abbreviation frames_of l := (map (event_frame env event_json) l).



(** No row has the id: the database replays nothing. *)
Lemma replay_rows_unknown wanted limit id rows :
  (∀ r, r ∈ rows → EventsQuery.row_id r ≠ id) →
  unwrap_or_default (let? found := replay_rows env wanted limit id rows in EventsQuery.from_rows single_columns found) = [].
Proof.
  intros Hn. unfold replay_rows. destruct (limit <? 0); [done|].
  assert (List.filter (λ r, after_row id rows r && wanted r) rows = []) as ->; [|by destruct (Z.to_nat limit)].
  assert (List.find (λ r, EventsQuery.row_id r =? id) rows = None) as Ef.
  { destruct (List.find _ rows) as [r|] eqn:E; [|done]. apply find_some in E as [Hr Hi].
    apply Z.eqb_eq in Hi. exfalso. apply (Hn r); [by apply list_elem_of_In|done]. }
  unfold after_row. rewrite Ef. clear. by induction rows.
Qed.

Lemma db_replay_unknown cfg cid fault id rows :
  (∀ r, r ∈ rows → EventsQuery.row_id r ≠ id) → db_replay env cfg cid fault id rows = [].
Proof. intros Hn. unfold db_replay. destruct fault; [done|]. by apply replay_rows_unknown. Qed.

Definition scope_of (cid : option string) : Scope :=
  match cid with Some c => OneContract c | None => AllContracts end.

(** *** The handler and the publisher at the same time *)



















(** What [Uuid::parse_str] accepts: at most the 45 characters of a URN. *)
Definition uuid_lengths : Prop := ∀ t u, EventsQuery.parse_uuid env t = Some u → (String.length t ≤ 45)%nat.

(** A replayed event cannot be resumed from.  The ring keeps events as they
    were before they got their id, so their frames carry the transaction hash
    and the ledger instead, which is no UUID: a client that reconnects with
    that id gets no replay, whatever it missed.  The same holds for an id that
    the ring has evicted, unless it happens to be that of a row. *)
Theorem replay_cannot_resume cfg cap log e cid fields et h fmt fault rows :
  uuid_lengths → (0 < cap)%nat → NoDup log.*1 → Forall (λ p, ev_id p.2 = None) log →
  (∃ i, (i, e) ∈ log) → String.length (ev_tx_hash e) = 64%nat →
  (header_str "last-event-id" h = Some (frame_id env e) ∨
   (∃ id, last_event_id env h = Some id ∧ id ∉ (SseRing.retained cap log).*1 ∧
          (∀ r, r ∈ rows → EventsQuery.row_id r ≠ id))) →
  replay env event_json event_string cfg cid fields et h fmt (SseRing.push_all log (SseRing.new cap)) fault rows = [].
Proof.
  intros Hu Hcap Hnd Hf [i Hi] Hlen [Hh|(id & Hh & Hn & Hrows)]; unfold replay.
  - assert (last_event_id env h = None) as ->; [|done].
    unfold last_event_id. rewrite Hh. simpl. rewrite Forall_forall in Hf. specialize (Hf _ Hi). simpl in Hf.
    unfold frame_id. rewrite Hf. destruct (EventsQuery.parse_uuid env _) as [u|] eqn:E; [|done].
    apply Hu in E. unfold fallback_id in E. rewrite string_length_app in E. lia.
  - rewrite Hh. fold (scope_of cid).
    assert (ring_replay cfg (scope_of cid) et (Some id) (SseRing.push_all log (SseRing.new cap)) = []) as ->.
    { unfold ring_replay. rewrite SseRing.inner_push_all_since by done. by rewrite decide_False. }
    simpl. by rewrite db_replay_unknown.
Qed.

Definition of_event (f : Frame) (P : SorobanEvent → Prop) : Prop :=
  match f with FEvent i d => ∃ e, f = event_frame env event_json e ∧ P e | _ => True end.

Lemma live_frames cfg s et tid inputs f :
  f ∈ (live env event_json cfg s et tid inputs).1 →
  of_event f (λ e, Received e ∈ inputs ∧ live_wants s et tid e = true).
Proof.
  induction inputs as [|i inputs IH]; simpl; [intros Hf; by apply elem_of_nil in Hf|].
  assert (of_event f (λ e, Received e ∈ inputs ∧ live_wants s et tid e = true) →
          of_event f (λ e, Received e ∈ i :: inputs ∧ live_wants s et tid e = true)) as Hw.
  { destruct f; simpl; try done. intros (e & Ef & Hr & Hl). exists e. split_and!; try done. by right. }
  destruct (live_step env event_json cfg s et tid i) as [[g c]|] eqn:E; [|by intros ?; apply Hw, IH].
  assert (of_event g (λ e, Received e ∈ i :: inputs ∧ live_wants s et tid e = true)) as Hg.
  { destruct i; simpl in E; try (destruct (live_wants s et tid e) eqn:El; [|done]); try (destruct s; try done);
      injection E as <- <-; simpl; try done; eexists; (split_and!; [done|by left|done]). }
  destruct c; simpl.
  - intros [->|Hf]%elem_of_cons; [done|by apply elem_of_nil in Hf].
  - destruct (live _ _ cfg s et tid inputs) as [fs closed]. simpl in *.
    intros [->|Hf]%elem_of_cons; [done|]. by apply Hw, IH.
Qed.

(** Tenants are kept apart in the live stream only: its events all belong to
    the tenant of the client, while the replay sends every event of the ring
    after the client's last one, of whichever tenant. *)
Theorem replay_crosses_tenants cfg cap log last cid fields et h fmt fault rows tid inputs :
  (0 < cap)%nat → NoDup log.*1 → last_event_id env h = Some last → last ∈ (SseRing.retained cap log).*1 →
  (∀ f, f ∈ (live env event_json cfg (scope_of cid) et (Some tid) inputs).1 →
     of_event f (λ e, ev_tenant_id e = Some tid)) ∧
  (∀ e, e ∈ take (Z.to_nat (sse_replay_limit cfg))
              (List.filter (replay_wants (scope_of cid) et) (SseRing.missed_after last log)) →
     event_frame env event_json e ∈
     replay env event_json event_string cfg cid fields et h fmt (SseRing.push_all log (SseRing.new cap)) fault rows).
Proof.
  intros Hcap Hnd Hh Hl. split.
  - intros f Hf. apply live_frames in Hf. destruct f; simpl in *; try done.
    destruct Hf as (e & -> & _ & Hw). exists e. split; [done|]. unfold live_wants, tenant_ok in Hw.
    apply andb_true_iff in Hw as [_ Hw]. by apply bool_decide_eq_true in Hw.
  - intros e He. unfold replay. rewrite Hh. fold (scope_of cid). unfold ring_replay.
    rewrite SseRing.inner_push_all_since by done. rewrite decide_True by done.
    unfold replay_stream. apply elem_of_app. left. apply elem_of_app. left. by apply (list_elem_of_fmap_2 (event_frame env event_json)).
Qed.

End Sessions.

(** A WebSocket that comes and goes leaves the counters as they were. *)
Lemma ws_connection_returned c : 0 ≤ connections c < u_max 64 → ws_disconnect (ws_connect c) = c.
Proof.
  intros Hc. destruct c as [n ips]. unfold ws_connect, ws_disconnect, count_connection, uncount_connection, add_u in *. simpl in *.
  rewrite (wrap_small (n + 1)) by lia. rewrite wrap_small by lia. f_equal. lia.
Qed.

(** ** Concrete runs *)

Definition demo_config : Config := mkConfig 2 0 10 100 0.

Definition demo_event (tx : string) (tenant : option string) : SorobanEvent :=
  mkSorobanEvent None None "C" "contract" tx 7 "" None true Null None tenant.

Definition demo_long : SorobanEvent :=
  demo_event "0123456789abcdef0123456789abcdef0123456789abcdef0123456789abcdef" (Some "bob"%string).

Definition demo_log : list (Z * SorobanEvent) :=
  [(1, demo_event "t1" (Some "alice")); (2, demo_event "t2" (Some "bob")); (3, demo_long)]%string.

Definition demo_headers (id : string) : HeaderMap := [("Last-Event-ID", id)]%string.

(** UUIDs of demo runs are numbers of at most three digits. *)
Definition demo_env : EventsQuery.Env :=
  let e := EventsQuery.demo_env in
  EventsQuery.mkEnv (EventsQuery.pg e) (EventsQuery.sql e) (EventsQuery.b64_encode e) (EventsQuery.b64_decode e)
    (EventsQuery.utf8_valid e) show_u (λ s, if (String.length s <=? 3)%nat then parse_u 64 s else None)
    (EventsQuery.is_v4 e) (EventsQuery.parse_datetime e) (EventsQuery.to_rfc3339 e) (EventsQuery.json_time e)
    (EventsQuery.to_string e) None (λ _, None) (λ _, None) Ok (EventsQuery.sha256 e) [] 0 (None, None) (λ _ _, None).

(** A client that comes, by itself, and goes away. *)
Lemma come_and_go cfg ip c g w :
  (acquire cfg ip c).1 = Ok () → Z.of_nat (length g) + Z.of_nat w < u_max 64 →
  rtc (λ h h', hub_step cfg h h' ∧ countable h') (mkHub c [] [] g w) (mkHub (acquire cfg ip c).2 [] [] (ip :: g) w).
Proof.
  unfold acquire. destruct (below_limit cfg c) eqn:E1; [|done]. destruct (ip_below_limit cfg ip c) eqn:E2; [|done]. cbn [negb fst snd].
  intros _ Hw. assert (∀ c b o g', (length b + length o + length g' ≤ S (length g))%nat → countable (mkHub c b o g' w)) as Hc
    by (intros; unfold countable, everybody; cbn [busy open gone sockets]; lia).
  eapply rtc_l; [split; [apply (hub_request cfg ip _ []); done|by apply Hc]|].
  eapply rtc_l; [split; [apply (hub_allow cfg ip _ [] []); done|apply Hc; cbn; lia]|].
  eapply rtc_l; [split; [apply (hub_count_ip cfg ip _ [] [])|apply Hc; cbn; lia]|].
  eapply rtc_l; [split; [apply (hub_count cfg ip _ [] [])|apply Hc; cbn; lia]|].
  eapply rtc_l; [split; [apply (hub_open cfg ip _ [] [])|apply Hc; cbn; lia]|].
  eapply rtc_l; [split; [apply (hub_leave cfg ip _ [] [] [])|apply Hc; cbn; lia]|]. apply rtc_refl.
Qed.

(** Two clients that came and went, and a WebSocket: with a limit of three
    nobody is admitted. *)
Definition three_config : Config := mkConfig 3 0 10 100 0.

Lemma admission_counts_the_gone_witness :
  ∃ h, reachable three_config h ∧ open h = [] ∧ busy h = [] ∧ gone h = ["b"; "a"]%string ∧ sockets h = 1%nat ∧
       ¬ (acquire three_config "c" (counters h)).1 = Ok ().
Proof.
  set (c0 := ws_connect (mkCounters 0 ∅)).
  set (c1 := (acquire three_config "a" c0).2). set (c2 := (acquire three_config "b" c1).2).
  assert (reachable three_config (mkHub c2 [] [] ["b"; "a"]%string 1)) as Hr.
  { eapply rtc_l; [split; [apply (hub_socket three_config)|vm_compute; discriminate]|].
    etrans; [apply (come_and_go three_config "a" c0 [] 1); [reflexivity|vm_compute; reflexivity]|].
    apply (come_and_go three_config "b" c1 ["a"%string] 1); [reflexivity|vm_compute; reflexivity]. }
  eexists. split_and!; [exact Hr|reflexivity..|].
  intros Ha. apply (admission_counts_the_gone three_config _ "c" Hr) in Ha.
  destruct Ha as [Ha _]. vm_compute in Ha. discriminate.
Defined.

(** The check and the count are apart: two requests at once both pass below a
    limit of one. *)
Lemma limit_overrun :
  let cfg := mkConfig 1 1 10 100 0 in
  ∃ h, reachable cfg h ∧ open h = ["a"; "a"]%string ∧ sockets h = 0%nat ∧ gone h = [].
Proof.
  intros cfg. exists (mkHub (count_connection (count_connection (count_ip cfg "a" (count_ip cfg "a" (mkCounters 0 ∅))))) []
    ["a"; "a"]%string [] 0). split; [|split_and!; reflexivity].
  - eapply rtc_l; [split; [apply (hub_request cfg "a" _ []); reflexivity|vm_compute; discriminate]|].
    eapply rtc_l; [split; [apply (hub_request cfg "a"); reflexivity|vm_compute; discriminate]|].
    eapply rtc_l; [split; [apply (hub_allow cfg "a" _ [] [("a", Checked)]%string); reflexivity|vm_compute; discriminate]|].
    eapply rtc_l; [split; [apply (hub_allow cfg "a" _ [("a", Allowed)]%string []); reflexivity|vm_compute; discriminate]|].
    eapply rtc_l; [split; [apply (hub_count_ip cfg "a" _ [] [("a", Allowed)]%string)|vm_compute; discriminate]|].
    eapply rtc_l; [split; [apply (hub_count_ip cfg "a" _ [("a", IpCounted)]%string [])|vm_compute; discriminate]|].
    eapply rtc_l; [split; [apply (hub_count cfg "a" _ [] [("a", IpCounted)]%string)|vm_compute; discriminate]|].
    eapply rtc_l; [split; [apply (hub_count cfg "a" _ [("a", Counted)]%string [])|vm_compute; discriminate]|].
    eapply rtc_l; [split; [apply (hub_open cfg "a" _ [] [("a", Counted)]%string)|vm_compute; discriminate]|].
    eapply rtc_l; [split; [apply (hub_open cfg "a" _ [] [])|vm_compute; discriminate]|]. apply rtc_refl.
Qed.



Lemma replay_cannot_resume_witness :
  replay demo_env ev_tx_hash (λ _, EmptyString) demo_config None None None
    (demo_headers (frame_id demo_env demo_long)) EventsQuery.FJson (SseRing.push_all demo_log (SseRing.new 5)) None [] = [].
Proof.
  apply (replay_cannot_resume demo_env ev_tx_hash (λ _, EmptyString) demo_config 5 demo_log demo_long).
  - intros t u Ht. simpl in Ht. destruct (Nat.leb_spec (String.length t) 3); [lia|done].
  - lia.
  - apply (bool_decide_unpack _). vm_compute. exact I.
  - repeat constructor.
  - exists 3. apply list_elem_of_In. simpl. auto.
  - reflexivity.
  - left. reflexivity.
Defined.

Lemma replay_crosses_tenants_witness :
  tenant_ok (Some "alice"%string) (demo_event "t2" (Some "bob"%string)) = false ∧
  event_frame demo_env ev_tx_hash (demo_event "t2" (Some "bob"%string)) ∈
  replay demo_env ev_tx_hash (λ _, EmptyString) demo_config None None None (demo_headers "1") EventsQuery.FJson
    (SseRing.push_all demo_log (SseRing.new 5)) None [].
Proof.
  split; [reflexivity|].
  apply (replay_crosses_tenants demo_env ev_tx_hash (λ _, EmptyString) demo_config 5 demo_log 1 None None None
           (demo_headers "1") EventsQuery.FJson None [] "alice" []).
  - lia.
  - apply (bool_decide_unpack _). vm_compute. exact I.
  - reflexivity.
  - apply (bool_decide_unpack _). vm_compute. exact I.
  - apply list_elem_of_In. simpl. auto.
Defined.

End SseStream.
