(* ===== verification/Idempotency.v ===== *)
(** idempotency.rs: responses cached under the client's idempotency key, behind
    the interface [IdempotencyStore] with its two implementations, and the
    middleware.

    Times are in microseconds.  [from_utf8_lossy] and the handler are
    parameters. *)

From S2P Require Import Prelude Text Model ApiParams.

Module Idempotency.
Import ApiParams.

Definition DEFAULT_TTL : Z := 24 * 60 * 60 * 1000000.

Record IdempotencyRecord : Type := mkRecord {
  status_code : Z;
  body : string;
  created_at : Z;
  ttl : Z;
}.

(** [elapsed()] fails, and the record lives, before its creation. *)
Definition is_expired (now : Z) (r : IdempotencyRecord) : bool :=
  (created_at r <=? now) && (ttl r <? now - created_at r).

(** ** The interface *)

Class IdempotencyStore (S : Type) : Type := {
  get : Z → string → S → option IdempotencyRecord * S;
  put : string → IdempotencyRecord → S → S;
  remove_expired : Z → S → S;
}.

(** What a store promises: the record it would answer with ([live]) is only
    changed by [put], which counts for a key without a record, and by time.
    A store may keep its own time to live ([kept]). *)
Class StoreLaws (S : Type) `{IdempotencyStore S} : Type := {
  ok : S → Prop;
  record : string → S → option IdempotencyRecord;
  kept : IdempotencyRecord → IdempotencyRecord;
  kept_same r : in_u 16 (status_code r) → status_code (kept r) = status_code r ∧ body (kept r) = body r;
  get_ok now k s : ok s → ok (get now k s).2;
  put_ok k r s : ok s → ok (put k r s);
  remove_ok now s : ok s → ok (remove_expired now s);
  get_answer now k s : ok s → (get now k s).1 = let! r := record k s in if is_expired now r then None else Some r;
  get_record now k k' s : ok s → record k' (get now k s).2 = record k' s;
  put_record k r s : ok s → record k s = None → record k (put k r s) = Some (kept r);
  put_other k k' r s : ok s → k' ≠ k → record k' (put k r s) = record k' s;
  remove_record now k s r :
    ok s → record k s = Some r → is_expired now r = false → record k (remove_expired now s) = Some r;
}.

(** ** The store in memory *)

Record InMemoryStore : Type := mkMemory { records : gmap string IdempotencyRecord; hits : Z; misses : Z }.

Definition live_record (now : Z) (r : option IdempotencyRecord) : option IdempotencyRecord :=
  let! r := r in if is_expired now r then None else Some r.

#[export] Instance memory_store : IdempotencyStore InMemoryStore := {
  get now k s :=
    let r := live_record now (records s !! k) in
    (r, match r with
        | Some _ => mkMemory (records s) (add_u 64 (hits s) 1) (misses s)
        | None => mkMemory (records s) (hits s) (add_u 64 (misses s) 1)
        end);
  put k r s := mkMemory (<[k := r]> (records s)) (hits s) (misses s);
  remove_expired now s :=
    mkMemory (filter (λ kr, is_expired now kr.2 = false) (records s)) (hits s) (misses s);
}.

#[export, refine] Instance memory_laws : StoreLaws InMemoryStore := {
  ok _ := True;
  record k s := records s !! k;
  kept r := r;
}.
Proof.
  all: try done.
  - intros now k k' s _. simpl. by destruct (live_record now (records s !! k)).
  - intros k r s _ _. apply lookup_insert_eq.
  - intros k k' r s _ Hne. by apply lookup_insert_ne.
  - intros now k s r _ Hr He. simpl. by apply map_lookup_filter_Some.
Defined.

(** ** The store in PostgreSQL *)

(** A row of [idempotency_keys]; the request hash is always empty. *)
Record KeyRow : Type := mkRow { response_body : string; row_status_code : Z; row_created_at : Z }.

(** The table, unless it does not exist; failures of statements are ignored,
    as is a table that is missing. *)
Record PostgresStore : Type := mkPostgres { table : option (gmap string KeyRow) }.

Definition row_record (r : KeyRow) : IdempotencyRecord :=
  mkRecord (wrap_u 16 (row_status_code r)) (response_body r) (row_created_at r) DEFAULT_TTL.

#[export] Instance postgres_store : IdempotencyStore PostgresStore := {
  get now k s := (live_record now (let! t := table s in row_record <$> t !! k), s);
  (** [ON CONFLICT (key) DO NOTHING]. *)
  put k r s :=
    mkPostgres ((λ t, match t !! k with
                      | Some _ => t
                      | None => <[k := mkRow (body r) (status_code r) (created_at r)]> t
                      end) <$> table s);
  remove_expired now s :=
    mkPostgres (filter (λ kr, now - DEFAULT_TTL ≤ row_created_at kr.2) <$> table s);
}.

#[export, refine] Instance postgres_laws : StoreLaws PostgresStore := {
  ok s := is_Some (table s);
  record k s := let! t := table s in row_record <$> t !! k;
  kept r := row_record (mkRow (body r) (status_code r) (created_at r));
}.
Proof.
  - intros r Hr. simpl. by rewrite wrap_u_small.
  - done.
  - intros k r s [t Ht]. simpl. by rewrite Ht.
  - intros now s [t Ht]. simpl. by rewrite Ht.
  - done.
  - done.
  - intros k r s [t Ht]. simpl. rewrite Ht. simpl. intros Hk. destruct (t !! k) eqn:E; [done|].
    by rewrite lookup_insert_eq.
  - intros k k' r s [t Ht] Hne. simpl. rewrite Ht. simpl. destruct (t !! k); [done|]. by rewrite lookup_insert_ne.
  - intros now k s r [t Ht]. simpl. rewrite Ht. simpl. destruct (t !! k) as [x|] eqn:E; [|done]. intros [= <-] He.
    assert (filter (λ kr : string * KeyRow, now - DEFAULT_TTL ≤ row_created_at kr.2) t !! k = Some x) as ->; [|done].
    apply map_lookup_filter_Some. split; [done|]. simpl. unfold is_expired in He. simpl in He.
    assert (0 ≤ DEFAULT_TTL) by done. lia.
Defined.

(** ** Clients of a store *)

(** A response: its status, whether it is marked as replayed, and its body. *)
Record Response : Type := mkResponse { status : Z; replayed : bool; resp_body : string }.

Record Request : Type := mkRequest { is_post : bool; headers : HeaderMap; path : string; req_body : string }.

Definition scoped_key (route idempotency_key : string) : string := (route +:+ ":" +:+ idempotency_key)%string.

Definition MAX_BODY : Z := 1024 * 1024.

(** [to_bytes(body, limit)]. *)
Definition to_bytes (b : string) : option string :=
  if Z.of_nat (String.length b) <=? MAX_BODY then Some b else None.

Definition is_success (s : Z) : bool := (200 <=? s) && (s <=? 299).

(** [StatusCode::from_u16(s).unwrap_or(OK)]. *)
Definition from_u16 (s : Z) : Z := if (100 <=? s) && (s <=? 999) then s else 200.

Section Client.
Context {S : Type} `{ST : IdempotencyStore S}.

(** [dedup_or_execute]: the answer, whether it was cached, and whether [execute] ran. *)
Definition dedup_or_execute (now : Z) (k : string) (t : Z) (execute : Z * string) (s : S) : (Z * string * bool) * S :=
  match get now k s with
  | (Some c, s) => ((status_code c, body c, true), s)
  | (None, s) => ((execute, false), put k (mkRecord execute.1 execute.2 now t) s)
  end.

Variable from_utf8_lossy : string → string.

Definition layer_ttl : Z := DEFAULT_TTL.

(** Up to the handler: an answer, or the key to store the handler's answer under, if any. *)
Definition before_handler (now : Z) (req : Request) (s : S) : (Response + option string) * S :=
  if negb (is_post req) then (inr None, s) else
  match header_str "idempotency-key" (headers req) with
  | None => (inr None, s)
  | Some raw_key =>
      let key := scoped_key (path req) raw_key in
      match to_bytes (req_body req) with
      | None => (inl (mkResponse 400 false "request body too large"), s)
      | Some _ =>
          match get now key s with
          | (Some c, s) => (inl (mkResponse (from_u16 (status_code c)) true (body c)), s)
          | (None, s) => (inr (Some key), s)
          end
      end
  end.

(** From the handler's answer: a body that is too large is replaced by the empty one. *)
Definition after_handler (now : Z) (key : option string) (answer : Response) (s : S) : Response * S :=
  match key with
  | None => (answer, s)
  | Some key =>
      let b := default EmptyString (to_bytes (resp_body answer)) in
      (mkResponse (status answer) (replayed answer) b,
       if is_success (status answer) then put key (mkRecord (status answer) (from_utf8_lossy b) now layer_ttl) s else s)
  end.

(** [idempotency_middleware] with the handler's [answer]; the last component
    says whether the handler ran. *)
Definition idempotency_middleware (now : Z) (req : Request) (answer : Response) (s : S) : Response * S * bool :=
  match before_handler now req s with
  | (inl r, s) => (r, s, false)
  | (inr key, s) => let '(r, s) := after_handler now key answer s in (r, s, true)
  end.

(** ** Against the interface *)

Context `{SL : !StoreLaws S}.

(** The uses of a store, with their times. *)
Inductive Use : Type :=
| Execute (now : Z) (k : string) (t : Z) (execute : Z * string)
| Serve (now : Z) (req : Request) (answer : Response)
| Purge (now : Z).

Definition time (u : Use) : Z := match u with Execute now _ _ _ | Serve now _ _ | Purge now => now end.

Definition use (s : S) (u : Use) : S :=
  match u with
  | Execute now k t execute => (dedup_or_execute now k t execute s).2
  | Serve now req answer => (idempotency_middleware now req answer s).1.2
  | Purge now => remove_expired now s
  end.

(** [r] is the record of [k] and lives at [now]. *)
Definition holds (k : string) (r : IdempotencyRecord) (now : Z) (s : S) : Prop :=
  ok s ∧ record k s = Some r ∧ is_expired now r = false.

Lemma expiry_monotone r t now : t ≤ now → is_expired now r = false → is_expired t r = false.
Proof. unfold is_expired. intros Ht He. apply andb_false_iff in He. apply andb_false_iff. lia. Qed.

Lemma get_hit k r now s : holds k r now s → (get now k s).1 = Some r ∧ holds k r now (get now k s).2.
Proof.
  intros (Ho & Hr & He). rewrite get_answer, Hr by done. simpl. rewrite He. split; [done|].
  split_and!; [by apply get_ok|by rewrite get_record|done].
Qed.

Lemma holds_get_other k k' r now t s : t ≤ now → holds k r now s → holds k r now (get t k' s).2.
Proof. intros Ht (Ho & Hr & He). split_and!; [by apply get_ok|by rewrite get_record|done]. Qed.

Lemma holds_put_other k k' r now x s : k ≠ k' → holds k r now s → holds k r now (put k' x s).
Proof. intros Hne (Ho & Hr & He). split_and!; [by apply put_ok|by rewrite put_other|done]. Qed.

(** A miss is a miss of another key. *)
Lemma get_miss k k' r now t s : t ≤ now → holds k r now s → (get t k' s).1 = None → k ≠ k'.
Proof.
  intros Ht (Ho & Hr & He) Hg ->. rewrite get_answer, Hr in Hg by done. simpl in Hg.
  by rewrite (expiry_monotone _ _ _ Ht He) in Hg.
Qed.

Lemma use_holds k r now u s : time u ≤ now → holds k r now s → holds k r now (use s u).
Proof.
  intros Ht Hh. pose proof (λ k', holds_get_other k k' r now (time u) s Ht Hh) as Hg.
  pose proof (λ k', get_miss k k' r now (time u) s Ht Hh) as Hm.
  destruct u as [t k' tl ex|t req a|t]; simpl in *.
  - specialize (Hg k'). specialize (Hm k'). unfold dedup_or_execute. destruct (get t k' s) as [[c|] s']; simpl in *; [done|].
    apply holds_put_other; [by apply Hm|done].
  - unfold idempotency_middleware, before_handler, after_handler.
    destruct (is_post req); simpl; [|done]. destruct (header_str _ _) as [raw|]; [|done].
    destruct (to_bytes (req_body req)); [|done]. specialize (Hg (scoped_key (path req) raw)).
    specialize (Hm (scoped_key (path req) raw)). destruct (get t _ s) as [[c|] s']; simpl in *; [done|].
    destruct (is_success (status a)); [|done]. apply holds_put_other; [by apply Hm|done].
  - destruct Hh as (Ho & Hr & He). split_and!; [by apply remove_ok| |done].
    apply remove_record; try done. by apply (expiry_monotone _ _ now).
Qed.

Lemma uses_hold k r now us s : Forall (λ u, time u ≤ now) us → holds k r now s → holds k r now (fold_left use us s).
Proof. intros Hf. revert s. induction Hf as [|u us Hu _ IH]; intros s Hh; [done|]. by apply IH, use_holds. Qed.

(** The first execution under a key without a record is the last while its
    record lives: later ones get its answer and run nothing, whatever else is
    done with the store. *)
Theorem dedup_at_most_once t0 k t1 execute us now t2 execute' s :
  ok s → record k s = None → in_u 16 execute.1 → t0 ≤ now → Forall (λ u, time u ≤ now) us →
  is_expired now (kept (mkRecord execute.1 execute.2 t0 t1)) = false →
  (dedup_or_execute t0 k t1 execute s).1 = (execute, false) ∧
  (dedup_or_execute now k t2 execute' (fold_left use us (dedup_or_execute t0 k t1 execute s).2)).1 = (execute, true).
Proof.
  intros Ho Hr Hu Ht Hf He. unfold dedup_or_execute at 1 3.
  pose proof (get_answer t0 k s Ho) as Hg. pose proof (get_ok t0 k s Ho) as Ho'.
  pose proof (get_record t0 k k s Ho) as Hr'. rewrite Hr in Hg, Hr'. simpl in Hg.
  destruct (get t0 k s) as [x s1]. simpl in Hg, Ho', Hr'. subst x. split; [done|]. simpl.
  set (r := mkRecord _ _ _ _) in *.
  assert (holds k (kept r) now (put k r s1)) as Hh by (split_and!; [by apply put_ok|by apply put_record|done]).
  apply (uses_hold _ _ _ us _ Hf) in Hh. apply get_hit in Hh as [Hg _]. unfold dedup_or_execute.
  destruct (get now k _) as [x s2]. simpl in Hg. subst x. simpl.
  destruct (kept_same r Hu) as [-> ->]. by destruct execute.
Qed.

Definition carries (req : Request) (p raw : string) : Prop :=
  is_post req = true ∧ path req = p ∧ header_str "idempotency-key" (headers req) = Some raw ∧
  is_Some (to_bytes (req_body req)).

(** The middleware answers every later request with the key and path of a
    successful one from the cache, without running the handler, whatever the
    request's body (the documentation asks for the same one), its other headers
    and its sender. *)
Theorem middleware_replays p raw req1 answer us req2 answer2 t0 now s :
  carries req1 p raw → carries req2 p raw → is_success (status answer) = true →
  ok s → record (scoped_key p raw) s = None → t0 ≤ now → Forall (λ u, time u ≤ now) us →
  let b := default EmptyString (to_bytes (resp_body answer)) in
  is_expired now (kept (mkRecord (status answer) (from_utf8_lossy b) t0 layer_ttl)) = false →
  (idempotency_middleware t0 req1 answer s).2 = true ∧
  ∃ s2, idempotency_middleware now req2 answer2 (fold_left use us (idempotency_middleware t0 req1 answer s).1.2) =
        (mkResponse (status answer) true (from_utf8_lossy b), s2, false).
Proof.
  intros (Hp1 & Hpath1 & Hk1 & [b1 Hb1]) (Hp2 & Hpath2 & Hk2 & [b2 Hb2]) Hsucc Ho Hr Ht Hf b He.
  set (r := mkRecord (status answer) (from_utf8_lossy b) t0 layer_ttl) in *.
  assert (in_u 16 (status answer) ∧ from_u16 (status answer) = status answer) as [Hu Hstat].
  { unfold is_success in Hsucc. unfold in_u, from_u16. split; [lia|]. by replace (_ && _) with true by lia. }
  assert (idempotency_middleware t0 req1 answer s =
          (mkResponse (status answer) (replayed answer) b, put (scoped_key p raw) r (get t0 (scoped_key p raw) s).2, true)) as ->.
  { unfold idempotency_middleware, before_handler, after_handler. rewrite Hp1, Hk1, Hb1, Hpath1. simpl.
    pose proof (get_answer t0 (scoped_key p raw) s Ho) as Hg. rewrite Hr in Hg. simpl in Hg.
    destruct (get t0 _ s) as [x s1]. simpl in Hg. subst x. by rewrite Hsucc. }
  split; [done|]. simpl.
  assert (holds (scoped_key p raw) (kept r) now (put (scoped_key p raw) r (get t0 (scoped_key p raw) s).2)) as Hh.
  { pose proof (get_ok t0 (scoped_key p raw) s Ho).
    split_and!; [by apply put_ok|apply put_record; [done|by rewrite get_record]|done]. }
  apply (uses_hold _ _ _ us _ Hf) in Hh. apply get_hit in Hh as [Hg _].
  unfold idempotency_middleware, before_handler. rewrite Hp2, Hk2, Hb2, Hpath2. simpl.
  destruct (get now _ _) as [x s2]. simpl in Hg. subst x. exists s2.
  destruct (kept_same r Hu) as [-> ->]. simpl. by rewrite Hstat.
Qed.

(** Two requests with one key, the second of which arrives before the first is
    answered, both reach the handler. *)
Lemma concurrent_requests_both_run p raw req1 req2 t1 t2 s :
  carries req1 p raw → carries req2 p raw → ok s → record (scoped_key p raw) s = None →
  (before_handler t1 req1 s).1 = inr (Some (scoped_key p raw)) ∧
  (before_handler t2 req2 (before_handler t1 req1 s).2).1 = inr (Some (scoped_key p raw)).
Proof.
  intros (Hp1 & Hpath1 & Hk1 & [b1 Hb1]) (Hp2 & Hpath2 & Hk2 & [b2 Hb2]) Ho Hr.
  unfold before_handler. rewrite Hp1, Hk1, Hb1, Hpath1, Hp2, Hk2, Hb2, Hpath2. simpl.
  pose proof (get_answer t1 (scoped_key p raw) s Ho) as Hg. pose proof (get_ok t1 (scoped_key p raw) s Ho) as Ho1.
  pose proof (get_record t1 (scoped_key p raw) (scoped_key p raw) s Ho) as Hr1. rewrite Hr in Hg, Hr1. simpl in Hg.
  destruct (get t1 _ s) as [x s1]. simpl in *. subst x. split; [done|].
  pose proof (get_answer t2 (scoped_key p raw) s1 Ho1) as Hg2. rewrite Hr1 in Hg2. simpl in Hg2.
  simpl. destruct (get t2 _ s1) as [y s2]. simpl in *. by subst y.
Qed.

End Client.

(** Keys of different routes can be the same. *)
Lemma scoped_key_collides : scoped_key "/v1/a:b" "c" = scoped_key "/v1/a" "b:c".
Proof. done. Qed.

(** No migration creates [idempotency_keys]: without the table nothing is
    ever found. *)
Lemma missing_table_never_dedups now k t execute s :
  table s = None →
  (dedup_or_execute now k t execute s).1 = (execute, false) ∧ table (dedup_or_execute now k t execute s).2 = None.
Proof. destruct s as [[m|]]; [done|]. by unfold dedup_or_execute. Qed.

(** An expired row is not replaced ([DO NOTHING]), so its key is executed each time until the row is purged. *)
Lemma expired_row_never_replaced now now' k t execute execute' (s : PostgresStore) r :
  record k s = Some r → is_expired now r = true → is_expired now' r = true →
  (dedup_or_execute now' k t execute' (dedup_or_execute now k t execute s).2).1 = (execute', false).
Proof.
  destruct s as [[m|]]; [|done]. unfold dedup_or_execute. simpl. destruct (m !! k) as [x|] eqn:E; [|done]. simpl.
  intros [= <-] He He'. rewrite He. simpl. rewrite !E. simpl. by rewrite He'.
Qed.

(** ** A concrete run *)

Definition demo_request (b : string) : Request :=
  mkRequest true [("Idempotency-Key", "k1")]%string "/v1/subscriptions" b.

(** The second request asks for something else. *)
Lemma middleware_replays_witness :
  ∃ s2, idempotency_middleware (λ b, b) 5000000 (demo_request "two") (mkResponse 201 false "made two")
          (use (λ b, b) (idempotency_middleware (λ b, b) 1000000 (demo_request "one") (mkResponse 201 false "made one")
              (mkPostgres (Some ∅))).1.2 (Purge 4000000)) =
        (mkResponse 201 true "made one", s2, false).
Proof.
  apply (middleware_replays (λ b, b) "/v1/subscriptions" "k1" (demo_request "one") (mkResponse 201 false "made one")
           [Purge 4000000] (demo_request "two") (mkResponse 201 false "made two") 1000000 5000000 (mkPostgres (Some ∅))).
  - split_and!; try reflexivity. by eexists.
  - split_and!; try reflexivity. by eexists.
  - reflexivity.
  - by eexists.
  - reflexivity.
  - lia.
  - repeat constructor. simpl. lia.
  - reflexivity.
Defined.

End Idempotency.
