(* ===== verification/ApiKeys.v ===== *)
(** api_keys.rs and middleware/auth.rs: scoped API keys stored hashed in the
    table [api_keys], and the middleware that authenticates and authorises every
    request.

    Bytes are integers below 256, times are in microseconds.  SHA-256 in hex,
    the random bytes and the generated ids are parameters. *)

From S2P Require Import Prelude Text Model Pg ApiParams.

Module ApiKeys.
Import ApiParams.

Definition KEY_PREFIX : string := "sp_".
Definition KEY_RANDOM_BYTES : nat := 32.
Definition MAX_NAME_LEN : nat := 100.

(** ** Base58 *)

Definition BASE58_ALPHABET : string := "123456789ABCDEFGHJKLMNPQRSTUVWXYZabcdefghijkmnopqrstuvwxyz".

(** [for digit in digits.iter_mut()]: the digits (least significant first) and the carry. *)
Fixpoint shift_digits (digits : list Z) (carry : Z) : list Z * Z :=
  match digits with
  | [] => ([], carry)
  | d :: rest =>
      let c := carry + Z.shiftl d 8 in
      let '(ds, c') := shift_digits rest (c / 58) in (c mod 58 :: ds, c')
  end.

(** [while carry > 0]; the carry is a byte, which two digits hold. *)
Fixpoint push_carry (fuel : nat) (digits : list Z) (carry : Z) : list Z :=
  match fuel with
  | O => digits
  | S f => if 0 <? carry then push_carry f (digits ++ [carry mod 58]) (carry / 58) else digits
  end.

Definition add_byte (digits : list Z) (byte : Z) : list Z :=
  let '(ds, c) := shift_digits digits byte in push_carry 2 ds c.

Definition base58_digits (input : list Z) : list Z := fold_left add_byte input [].

Fixpoint leading_zeros (input : list Z) : nat :=
  match input with 0 :: rest => S (leading_zeros rest) | _ => O end.

Definition digit58 (d : Z) : ascii := default Ascii.zero (String.get (Z.to_nat d) BASE58_ALPHABET).

Definition base58_encode (input : list Z) : string :=
  String.string_of_list_ascii (repeat "1"%char (leading_zeros input) ++ map digit58 (rev (base58_digits input))).

(** ** What base58 means *)

(** The number of the bytes, most significant first. *)
Definition be_value (input : list Z) : Z := fold_left (λ a b, a * 256 + b) input 0.

Fixpoint le_value (digits : list Z) : Z :=
  match digits with [] => 0 | d :: rest => d + 58 * le_value rest end.

Fixpoint index_of (a : ascii) (s : string) : option Z :=
  match s with
  | EmptyString => None
  | String b r => if Ascii.eqb a b then Some 0 else Z.succ <$> index_of a r
  end.

(** Reading a base58 text, most significant digit first. *)
Fixpoint decode_from (acc : Z) (l : list ascii) : option Z :=
  match l with
  | [] => Some acc
  | a :: rest => let! d := index_of a BASE58_ALPHABET in decode_from (acc * 58 + d) rest
  end.

Definition base58_value (s : string) : option Z := decode_from 0 (String.list_ascii_of_string s).

Definition digits_ok (l : list Z) : Prop := Forall (λ d, 0 ≤ d < 58) l.
Definition bytes_ok (l : list Z) : Prop := Forall (λ b, 0 ≤ b < 256) l.

Lemma shift_digits_spec digits carry ds c :
  digits_ok digits → 0 ≤ carry < 256 → shift_digits digits carry = (ds, c) →
  digits_ok ds ∧ 0 ≤ c < 256 ∧ length ds = length digits ∧
  le_value ds + 58 ^ Z.of_nat (length ds) * c = 256 * le_value digits + carry.
Proof.
  intros Hd. revert carry ds c. induction Hd as [|d digits Hd _ IH]; intros carry ds c Hc; simpl.
  - intros [= <- <-]. split_and!; try constructor; simpl; lia.
  - rewrite Z.shiftl_mul_pow2 by done. change (2 ^ 8) with 256.
    destruct (shift_digits digits _) as [ds' c'] eqn:E. intros [= <- <-].
    pose proof (Z.div_mod (carry + d * 256) 58 ltac:(done)) as Hdiv.
    pose proof (Z.mod_pos_bound (carry + d * 256) 58 ltac:(done)) as Hmod.
    apply IH in E as (H1 & H2 & H3 & H4); [|split; [apply Z.div_pos; lia|apply Z.div_lt_upper_bound; lia]].
    split_and!; [by constructor|lia|lia|simpl; by f_equal|].
    cbn [length le_value]. rewrite Nat2Z.inj_succ, Z.pow_succ_r by lia. lia.
Qed.

Lemma le_value_snoc l d : le_value (l ++ [d]) = le_value l + 58 ^ Z.of_nat (length l) * d.
Proof.
  induction l as [|x l IH]; cbn [le_value length app]; [simpl; lia|].
  rewrite IH, Nat2Z.inj_succ, Z.pow_succ_r by lia. lia.
Qed.

Lemma push_carry_spec digits c :
  digits_ok digits → 0 ≤ c < 256 →
  digits_ok (push_carry 2 digits c) ∧ le_value (push_carry 2 digits c) = le_value digits + 58 ^ Z.of_nat (length digits) * c.
Proof.
  intros Hd Hc. simpl. destruct (Z.ltb_spec 0 c); [|split; [done|lia]].
  pose proof (Z.div_mod c 58 ltac:(done)) as Hdiv. pose proof (Z.mod_pos_bound c 58 ltac:(done)) as Hmod.
  assert (0 ≤ c / 58 < 58) as Hq by (split; [apply Z.div_pos; lia|apply Z.div_lt_upper_bound; lia]).
  assert (digits_ok (digits ++ [c mod 58])) by (apply Forall_app; split; [done|by apply Forall_singleton]).
  destruct (Z.ltb_spec 0 (c / 58)).
  - rewrite (Z.mod_small (c / 58)) by lia. split.
    + apply Forall_app. split; [done|by apply Forall_singleton].
    + rewrite !le_value_snoc, length_app. simpl.
      replace (Z.of_nat (length digits + 1)) with (Z.succ (Z.of_nat (length digits))) by lia.
      rewrite Z.pow_succ_r by lia. nia.
  - split; [done|]. rewrite le_value_snoc. nia.
Qed.

(** The digits are those of the number of the bytes. *)
Lemma base58_digits_spec input :
  bytes_ok input → digits_ok (base58_digits input) ∧ le_value (base58_digits input) = be_value input.
Proof.
  unfold base58_digits, be_value. induction input as [|b l IH] using rev_ind; [split; [constructor|done]|].
  intros [Hl [Hb _]%Forall_cons]%Forall_app. destruct (IH Hl) as [IH1 IH2]. rewrite !fold_left_app. simpl.
  unfold add_byte at 1 3. destruct (shift_digits (fold_left add_byte l []) b) as [ds c] eqn:E.
  apply shift_digits_spec in E as (H1 & H2 & H3 & H4); [|done|done].
  destruct (push_carry_spec ds c H1 H2) as [H5 H6]. split; [done|]. rewrite H6, H4, IH2. lia.
Qed.

Lemma index_of_digit d : 0 ≤ d < 58 → index_of (digit58 d) BASE58_ALPHABET = Some d.
Proof.
  intros Hd. assert (Forall (λ n, index_of (digit58 (Z.of_nat n)) BASE58_ALPHABET = Some (Z.of_nat n)) (seq 0 58)) as Hall.
  { apply (bool_decide_unpack _). vm_compute. exact I. }
  rewrite Forall_forall in Hall. specialize (Hall (Z.to_nat d)). rewrite Z2Nat.id in Hall by lia.
  apply Hall. apply elem_of_seq. lia.
Qed.

Lemma decode_digits l acc :
  digits_ok l → decode_from acc (map digit58 (rev l)) = Some (acc * 58 ^ Z.of_nat (length l) + le_value l).
Proof.
  intros Hl. revert acc. induction l as [|d l IH] using rev_ind; intros acc; [simpl; f_equal; lia|].
  apply Forall_app in Hl as [Hl [Hd _]%Forall_cons]. rewrite rev_app_distr. cbn [rev app map decode_from].
  rewrite index_of_digit by done. change (decode_from (acc * 58 + d) (map digit58 (rev l)) = Some (acc * 58 ^ Z.of_nat (length (l ++ [d])) + le_value (l ++ [d]))).
  rewrite IH by done. f_equal. rewrite le_value_snoc, length_app. simpl.
  replace (Z.of_nat (length l + 1)) with (Z.succ (Z.of_nat (length l))) by lia. rewrite Z.pow_succ_r by lia. lia.
Qed.

(** Base58 text decodes to the number of the encoded bytes. *)
Theorem base58_decodes input :
  bytes_ok input → base58_value (base58_encode input) = Some (be_value input).
Proof.
  intros Hb. destruct (base58_digits_spec input Hb) as [Hd Hv]. unfold base58_value, base58_encode.
  rewrite String.list_ascii_of_string_of_list_ascii.
  assert (∀ n l, decode_from 0 (repeat "1"%char n ++ l) = decode_from 0 l) as ->.
  { induction n as [|n IH]; intros l; simpl; [done|]. apply IH. }
  rewrite decode_digits by done. f_equal. lia.
Qed.

Lemma be_value_snoc l b : be_value (l ++ [b]) = be_value l * 256 + b.
Proof. unfold be_value. by rewrite fold_left_app. Qed.

Lemma be_value_inj l k : bytes_ok l → bytes_ok k → length l = length k → be_value l = be_value k → l = k.
Proof.
  revert k. induction l as [|b l IH] using rev_ind; intros k Hl Hk Hlen Hv.
  - by destruct k.
  - destruct k as [|c k _] using rev_ind; [rewrite length_app in Hlen; simpl in Hlen; lia|].
    apply Forall_app in Hl as [Hl [Hb _]%Forall_cons]. apply Forall_app in Hk as [Hk [Hc _]%Forall_cons].
    rewrite !be_value_snoc in Hv. rewrite !length_app in Hlen. simpl in Hlen.
    assert (be_value l = be_value k ∧ b = c) as [Hv' ->] by lia. f_equal. apply IH; done || lia.
Qed.

Lemma base58_inj l k :
  bytes_ok l → bytes_ok k → length l = length k → base58_encode l = base58_encode k → l = k.
Proof.
  intros Hl Hk Hlen E. apply be_value_inj; try done. apply (f_equal base58_value) in E.
  rewrite !base58_decodes in E by done. congruence.
Qed.

(** ** Scopes *)

Inductive ApiKeyScope : Type := ReadEvents | WriteSubscriptions | Admin.

#[export] Instance ApiKeyScope_eq_dec : EqDecision ApiKeyScope.
Proof. solve_decision. Defined.

Definition ALL : list ApiKeyScope := [ReadEvents; WriteSubscriptions; Admin].

Definition scope_str (s : ApiKeyScope) : string :=
  match s with
  | ReadEvents => "read:events" | WriteSubscriptions => "write:subscriptions" | Admin => "admin"
  end.

Definition parse_scope (s : string) : option ApiKeyScope := List.find (λ x, String.eqb (scope_str x) s) ALL.

Definition READ_ONLY_POST_PATHS : list string := ["/v1/events/tx/batch"; "/graphql"]%string.

Definition required_scope (method path : string) : ApiKeyScope :=
  if String.eqb path "/v1/admin" || starts_with "/v1/admin/" path || String.eqb path "/admin" ||
     starts_with "/admin/" path then Admin
  else if mem method ["GET"; "HEAD"; "OPTIONS"]%string || (String.eqb method "POST" && mem path READ_ONLY_POST_PATHS)
  then ReadEvents
  else if existsb (String.eqb "subscriptions") (split_on "/" path) then WriteSubscriptions
  else Admin.

Definition mem_scope (s : ApiKeyScope) (l : list ApiKeyScope) : bool := bool_decide (s ∈ l).

Record ScopedApiKey : Type := mkScoped {
  k_id : Z;
  k_name : string;
  k_scopes : list ApiKeyScope;
  k_tenant : option string;
}.

Definition has_scope (k : ScopedApiKey) (s : ApiKeyScope) : bool := mem_scope Admin (k_scopes k) || mem_scope s (k_scopes k).

(** ** The table *)

Record Row : Type := mkRow {
  id : Z;
  name : string;
  key_hash : string;
  scopes : list string;
  tenant_id : option string;
  created_at : Z;
  last_used_at : option Z;
  revoked_at : option Z;
}.

Definition Db : Type := list Row.

Definition set_last_used (t : option Z) (r : Row) : Row :=
  mkRow (id r) (name r) (key_hash r) (scopes r) (tenant_id r) (created_at r) t (revoked_at r).
Definition set_revoked (t : option Z) (r : Row) : Row :=
  mkRow (id r) (name r) (key_hash r) (scopes r) (tenant_id r) (created_at r) (last_used_at r) t.

(** [key_hash ~ '^[0-9a-f]{64}$']. *)
Definition is_sha256_hex (s : string) : bool :=
  (String.length s =? 64)%nat && string_forallb (λ a, is_hexdigit a && negb (is_upper a)) s.

Record CreateRequest : Type := mkCreate { c_name : string; c_scopes : list ApiKeyScope; c_tenant : option string }.

(** The length in characters counts the bytes that do not continue one. *)
Fixpoint char_count (s : string) : nat :=
  match s with
  | EmptyString => O
  | String a r => let n := nat_of_ascii a in (if (128 <=? n) && (n <? 192) then 0 else 1)%nat + char_count r
  end.

Definition validate_create (req : CreateRequest) : result CreateRequest AppError :=
  let name := trim (c_name req) in
  if is_empty name then Err (Validation "name must not be empty")
  else if (MAX_NAME_LEN <? char_count name)%nat then Err (Validation "name must be at most 100 characters")
  else match c_scopes req with
       | [] => Err (Validation "at least one scope is required")
       | _ =>
           Ok (mkCreate name (List.filter (λ s, mem_scope s (c_scopes req)) ALL)
                 (let! t := trim <$> c_tenant req in if is_empty t then None else Some t))
       end.

(** [INSERT INTO api_keys], with the constraints of the table. *)
Definition insert_row (r : Row) (d : Db) : result ((Z * Z) * Db) string :=
  if existsb (λ x, id x =? id r) d then Err "duplicate key value violates unique constraint api_keys_pkey"%string
  else if existsb (λ x, String.eqb (key_hash x) (key_hash r)) d then
    Err "duplicate key value violates unique constraint api_keys_key_hash_key"%string
  else if is_empty (trim (name r)) then Err "violates check constraint api_keys_name_not_blank"%string
  else if negb (is_sha256_hex (key_hash r)) then Err "violates check constraint api_keys_key_hash_sha256"%string
  else Ok ((id r, created_at r), d ++ [r]).

(** The lookup: the active rows of the hash, touched when they have not been
    for 60 seconds; the rows are those before the update. *)
Definition touch (h : string) (now : Z) (r : Row) : Row :=
  if String.eqb (key_hash r) h && bool_decide (revoked_at r = None) &&
     match last_used_at r with Some t => t <? now - 60000000 | None => true end
  then set_last_used (Some now) r else r.

Definition is_active (h : string) (r : Row) : bool := String.eqb (key_hash r) h && bool_decide (revoked_at r = None).

Definition scoped_of (r : Row) : ScopedApiKey := mkScoped (id r) (name r) (omap parse_scope (scopes r)) (tenant_id r).

Record ApiKeyInfo : Type := mkInfo { i_key : ScopedApiKey; i_created_at : Z; i_last_used_at : option Z; i_revoked_at : option Z }.

Record CreatedApiKey : Type := mkCreated { created_id : Z; created_key : string; created_req : CreateRequest; created_time : Z }.

Section Store.
Variable env : PgEnv.
Variable hash_api_key : string → string.
Variable random_bytes : nat → list Z.
Variable gen_random_uuid : nat → Z.

Definition Prog : Type → Type := M Db () AppError.

Definition generate_api_key (bytes : list Z) : string := (KEY_PREFIX +:+ base58_encode bytes)%string.

Definition lookup_active_key (raw_key : string) : M Db () string (option ScopedApiKey) :=
  if negb (starts_with KEY_PREFIX raw_key) then mret None else
  let h := hash_api_key raw_key in
  r ← stmt env (λ now d, Ok (head (List.filter (is_active h) d), map (touch h now) d));
  mret (scoped_of <$> r).

Definition create_api_key (req : CreateRequest) : Prog CreatedApiKey :=
  req ← of_result (validate_create req);
  n ← counter;
  let key := generate_api_key (random_bytes n) in
  row ← stmt env (λ now d, insert_row (mkRow (gen_random_uuid n) (c_name req) (hash_api_key key)
                                         (map scope_str (c_scopes req)) (c_tenant req) now None None) d);
  mret (mkCreated row.1 key req row.2).

Definition list_api_keys : Prog (list ApiKeyInfo) :=
  rows ← query env (λ _ d, Prelude.sort_by (cmp_on (λ r, - created_at r) Z.compare) d);
  mret (map (λ r, mkInfo (scoped_of r) (created_at r) (last_used_at r) (revoked_at r)) rows).

(** [COALESCE(revoked_at, NOW())]. *)
Definition revoke_api_key (i : Z) : Prog () :=
  n ← execute_count env (λ now d,
        (length (List.filter (λ r, id r =? i) d),
         map (λ r, if id r =? i then set_revoked (Some (default now (revoked_at r))) r else r) d));
  if (n =? 0)%nat then throw NotFound else mret ().

(** ** The middleware *)

Record AuthState : Type := mkAuth {
  api_keys : list string;
  admin_api_keys : list string;
  tenant_map : gmap string string;
  multi_tenant : bool;
  has_pool : bool;
  require_auth : bool;
}.

Definition auth_enabled (st : AuthState) : bool :=
  require_auth st || match api_keys st with [] => false | _ => true end.

Record Request : Type := mkRequest { method : string; path : string; headers : HeaderMap }.

(** What the middleware attaches to the request. *)
Record Extensions : Type := mkExt { principal : option string; tenant : option string; scoped_key : option ScopedApiKey }.

Inductive AuthResult : Type :=
| Pass (e : Extensions)
| Deny (status : Z) (error : string).

Definition key_matches_any (key : string) (candidates : list string) : bool := existsb (String.eqb key) candidates.

Definition from_api_key (key : string) : string := ("key:" +:+ String.substring 0 16 (hash_api_key key))%string.

Definition is_dashboard_path (p : string) : bool := String.eqb p "/ui" || starts_with "/ui/" p.

Definition is_public_path (p : string) : bool :=
  String.eqb p "/health" || starts_with "/healthz/" p || String.eqb p "/unsubscribe" || String.eqb p "/v1/meta" ||
  is_dashboard_path p.

Definition lookup_scoped_key (st : AuthState) (provided : option string) : M Db () string (option ScopedApiKey) :=
  if negb (has_pool st) then mret None else
  match provided with
  | Some key =>
      if starts_with KEY_PREFIX key then
        r ← attempt (E := string) (lookup_active_key key);
        mret (match r with Ok found => found | Err _ => None end)
      else mret None
  | None => mret None
  end.

Definition no_tenant : AuthResult := Deny 403 "api key is not associated with a tenant".

(** The tenant of a key, for the keys that have to have one. *)
Definition with_tenant (needed : bool) (t : option string) (k : option string → AuthResult) : AuthResult :=
  if needed then match t with Some tid => k (Some tid) | None => no_tenant end else k None.

Definition scoped_result (st : AuthState) (req : Request) (key : string) (k : ScopedApiKey) : AuthResult :=
  if negb (has_scope k (required_scope (method req) (path req))) then Deny 403 "insufficient scope" else
  with_tenant (multi_tenant st && negb (has_scope k Admin))
    (or_else (k_tenant k) (tenant_map st !! hash_api_key key))
    (λ t, Pass (mkExt (Some (from_api_key key)) t (Some k))).

Definition env_result (st : AuthState) (provided : option string) : AuthResult :=
  if auth_enabled st then
    let is_admin := match provided with Some k => key_matches_any k (admin_api_keys st) | None => false end in
    let is_valid := is_admin || match provided with Some k => key_matches_any k (api_keys st) | None => false end in
    if negb is_valid then Deny 401 "unauthorized" else
    let key := default EmptyString provided in
    with_tenant (multi_tenant st && negb is_admin) (tenant_map st !! hash_api_key key)
      (λ t, Pass (mkExt (Some (from_api_key key)) t None))
  else Pass (mkExt (Some "anonymous"%string) None None).

Definition auth_middleware (st : AuthState) (req : Request) : M Db () string AuthResult :=
  if is_public_path (path req) then mret (Pass (mkExt None None None)) else
  let provided := extract_api_key_from_headers (headers req) in
  found ← lookup_scoped_key st provided;
  mret (match found with
        | Some k => scoped_result st req (default EmptyString provided) k
        | None => env_result st provided
        end).

Definition has_admin_scoped_key (e : Extensions) : bool :=
  match scoped_key e with Some k => has_scope k Admin | None => false end.

(** The strict gate of the key management, and the gate of the other admin
    routes, which admits everyone when there are no admin keys. *)
Definition require_admin (admin_keys : list string) (req : Request) (e : Extensions) : AuthResult :=
  if has_admin_scoped_key e then Pass e else
  match extract_api_key_from_headers (headers req) with
  | None => Deny 401 "admin authentication required"
  | Some key => if key_matches_any key admin_keys then Pass e else Deny 403 "admin privileges required"
  end.

Definition admin_auth (admin_keys : list string) (req : Request) (e : Extensions) : AuthResult :=
  match admin_keys with [] => Pass e | _ => require_admin admin_keys req e end.

(** ** What authentication means *)

(** The tenant a request is bound to, when it has to be bound to one. *)
Definition bound (st : AuthState) (global : bool) (t : option string) (e : Extensions) : Prop :=
  if multi_tenant st && negb global then t ≠ None ∧ tenant e = t else tenant e = None.

Definition by_scoped_key (st : AuthState) (req : Request) (d : Db) (e : Extensions) : Prop :=
  ∃ key r, extract_api_key_from_headers (headers req) = Some key ∧ r ∈ d ∧
    key_hash r = hash_api_key key ∧ revoked_at r = None ∧
    has_scope (scoped_of r) (required_scope (method req) (path req)) = true ∧
    scoped_key e = Some (scoped_of r) ∧ principal e = Some (from_api_key key) ∧
    bound st (has_scope (scoped_of r) Admin) (or_else (tenant_id r) (tenant_map st !! hash_api_key key)) e.

Definition by_env_key (st : AuthState) (req : Request) (e : Extensions) : Prop :=
  ∃ key, extract_api_key_from_headers (headers req) = Some key ∧
    (key ∈ admin_api_keys st ∨ key ∈ api_keys st) ∧ scoped_key e = None ∧ principal e = Some (from_api_key key) ∧
    bound st (bool_decide (key ∈ admin_api_keys st)) (tenant_map st !! hash_api_key key) e.

Lemma key_matches_any_spec key l : key_matches_any key l = bool_decide (key ∈ l).
Proof.
  unfold key_matches_any. case_bool_decide as Hk.
  - apply existsb_exists. exists key. split; [by apply list_elem_of_In|apply String.eqb_refl].
  - apply not_true_is_false. intros (x & Hx & E)%existsb_exists. apply String.eqb_eq in E as <-.
    by apply Hk, list_elem_of_In.
Qed.

Lemma with_tenant_pass needed t p sk e :
  with_tenant needed t (λ t, Pass (mkExt p t sk)) = Pass e →
  principal e = p ∧ scoped_key e = sk ∧ if needed then t ≠ None ∧ tenant e = t else tenant e = None.
Proof. unfold with_tenant, no_tenant. destruct needed; [destruct t|]; intros [= <-]; by split_and!. Qed.

Lemma head_filter {A} (p : A → bool) l x : head (List.filter p l) = Some x → x ∈ l ∧ p x = true.
Proof.
  intros Hx. assert (x ∈ List.filter p l) as Hi by (destruct (List.filter p l); simpl in *; [done|injection Hx as ->; by left]).
  apply list_elem_of_In, filter_In in Hi as [Hi ?]. split; [by apply list_elem_of_In|done].
Qed.

Lemma lookup_active_key_spec key s k :
  (lookup_active_key key s).1 = Ok (Some k) →
  ∃ r, r ∈ db s ∧ key_hash r = hash_api_key key ∧ revoked_at r = None ∧ k = scoped_of r.
Proof.
  unfold lookup_active_key. destruct (starts_with _ _); simpl; [|done].
  unfold mbind, M_bind, stmt. destruct (db_fault _ _); [done|]. simpl.
  destruct (head _) as [r|] eqn:E; [|done]. intros [= <-]. apply head_filter in E as [Hi Ha].
  apply andb_true_iff in Ha as [Hh Hr]. apply String.eqb_eq in Hh. apply bool_decide_eq_true in Hr. by exists r.
Qed.

Lemma auth_middleware_pass st req s e :
  is_public_path (path req) = false →
  (auth_middleware st req s).1 = Ok (Pass e) →
  by_scoped_key st req (db s) e ∨ by_env_key st req e ∨
  auth_enabled st = false ∧ e = mkExt (Some "anonymous"%string) None None.
Proof.
  intros Hp. unfold auth_middleware. rewrite Hp. set (provided := extract_api_key_from_headers (headers req)).
  assert (env_result st provided = Pass e → by_env_key st req e ∨
          auth_enabled st = false ∧ e = mkExt (Some "anonymous"%string) None None) as Henv.
  { unfold env_result. destruct (auth_enabled st); [intros H; left|intros [= <-]; by right].
    destruct provided as [key|] eqn:Ek; [|done]. rewrite !key_matches_any_spec in H.
    destruct (_ || _) eqn:Ev; [simpl in H|done]. apply with_tenant_pass in H as (H1 & H2 & H3).
    exists key. split_and!; try done. apply orb_true_iff in Ev as [Ev|Ev]; apply bool_decide_eq_true in Ev; auto. }
  unfold mbind, M_bind, lookup_scoped_key. destruct (has_pool st); simpl; [|intros [= H]; right; by apply Henv].
  destruct provided as [key|] eqn:Ek; [|intros [= H]; right; by apply Henv].
  destruct (starts_with KEY_PREFIX key); [|intros [= H]; right; by apply Henv].
  pose proof (lookup_active_key_spec key s) as Hl. unfold mbind, M_bind, attempt.
  destruct (lookup_active_key key s) as [[[k|]|x] s1]; simpl in *; intros [= H]; try (right; by apply Henv).
  left. destruct (Hl k eq_refl) as (r & Hr & Hh & Hrev & ->). unfold scoped_result in H.
  destruct (has_scope (scoped_of r) (required_scope _ _)) eqn:Es; [simpl in H|done].
  apply with_tenant_pass in H as (H1 & H2 & H3). by exists key, r.
Qed.

(** C19. A request that passes the authentication of a path that is not public has
    an active key of the table with the scope the request needs, or one of the
    configured keys, or authentication is disabled; and in multi-tenant mode
    the former two bind the request to the tenant of the key, unless the key is
    an admin's.  Whatever the database answers. *)
Theorem auth_sound st req s e :
  is_public_path (path req) = false →
  (auth_middleware st req s).1 = Ok (Pass e) →
  by_scoped_key st req (db s) e ∨ by_env_key st req e ∨
  auth_enabled st = false ∧ e = mkExt (Some "anonymous"%string) None None.
Proof. apply auth_middleware_pass. Qed.

(** ** Revocation *)

(** The requests of the API. *)
Inductive ApiOp : Type :=
| Create (req : CreateRequest)
| ListKeys
| Revoke (i : Z)
| Authenticate (st : AuthState) (req : Request).

Definition run_op (op : ApiOp) (s : St Db ()) : St Db () :=
  match op with
  | Create req => (create_api_key req s).2
  | ListKeys => (list_api_keys s).2
  | Revoke i => (revoke_api_key i s).2
  | Authenticate st req => (auth_middleware st req s).2
  end.

(** Every hash has one row. *)
Definition unique (d : Db) : Prop := ∀ r1 r2, r1 ∈ d → r2 ∈ d → key_hash r1 = key_hash r2 → id r1 = id r2.

(** The hash has been used and its rows are revoked. *)
Definition dead (h : string) (d : Db) : Prop :=
  (∃ r, r ∈ d ∧ key_hash r = h) ∧ ∀ r, r ∈ d → key_hash r = h → revoked_at r ≠ None.

Definition kept : relation (Db * list ()) := λ a b, (unique a.1 → unique b.1) ∧ ∀ h, dead h a.1 → dead h b.1.

#[local] Instance kept_preorder : PreOrder kept.
Proof.
  split; [by intros [d tr]|]. intros a b c [H1 H2] [H3 H4]. split; [by intros ?; apply H3, H1|].
  intros h Hd. by apply H4, H2.
Qed.

(** An update that keeps ids and hashes and revives nothing. *)
Lemma kept_map (f : Row → Row) d tr :
  (∀ r, id (f r) = id r ∧ key_hash (f r) = key_hash r ∧ (revoked_at r ≠ None → revoked_at (f r) ≠ None)) →
  kept (d, tr) (map f d, tr).
Proof.
  intros Hf. split; simpl.
  - intros Hu r1 r2 (x & -> & Hx)%list_elem_of_fmap (y & -> & Hy)%list_elem_of_fmap.
    destruct (Hf x) as (-> & -> & _), (Hf y) as (-> & -> & _). by apply Hu.
  - intros h [(r & Hr & Hh) Hd]. split.
    + exists (f r). split; [by apply (list_elem_of_fmap_2 f)|]. by destruct (Hf r) as (_ & -> & _).
    + intros r' (x & -> & Hx)%list_elem_of_fmap. destruct (Hf x) as (_ & -> & Hrev). intros Hh'. by apply Hrev, Hd.
Qed.

Lemma kept_insert r d tr x d' : insert_row r d = Ok (x, d') → kept (d, tr) (d', tr).
Proof.
  unfold insert_row. destruct (existsb _ d); [done|]. destruct (existsb _ d) eqn:Eh; [done|].
  destruct (is_empty _); [done|]. destruct (negb _); [done|]. intros [= _ <-].
  assert (∀ y, y ∈ d → key_hash y ≠ key_hash r) as Hfresh.
  { intros y Hy E. apply not_true_iff_false in Eh. apply Eh, existsb_exists. exists y.
    split; [by apply list_elem_of_In|]. by apply String.eqb_eq. }
  split; simpl.
  - intros Hu r1 r2 [H1|H1%list_elem_of_singleton]%elem_of_app [H2|H2%list_elem_of_singleton]%elem_of_app E; subst; try done.
    + by apply Hu.
    + by apply Hfresh in E.
    + symmetry in E. by apply Hfresh in E.
  - intros h [(y & Hy & Hh) Hd]. split; [exists y; split; [by apply elem_of_app; left|done]|].
    intros z [Hz|Hz%list_elem_of_singleton]%elem_of_app Ez; [by apply Hd|]. subst z. subst h.
    symmetry in Ez. by apply Hfresh in Ez.
Qed.

#[local] Hint Resolve kept_preorder : pg.

Lemma kept_lookup key : preserves kept (lookup_active_key key).
Proof.
  unfold lookup_active_key. preserve. apply preserves_stmt; [apply _|]. intros t d x d' tr [= _ <-].
  apply kept_map. intros r. unfold touch. by destruct (_ && _).
Qed.

#[local] Hint Resolve kept_lookup : pg.

Lemma kept_op op s : kept (view s) (view (run_op op s)).
Proof.
  destruct op as [req| |i|st req]; simpl.
  - revert s. change (preserves kept (create_api_key req)). unfold create_api_key. preserve.
    apply preserves_stmt; [apply _|]. intros t d x' d' tr Hi. by eapply kept_insert.
  - revert s. change (preserves kept list_api_keys). unfold list_api_keys. preserve.
  - revert s. change (preserves kept (revoke_api_key i)). unfold revoke_api_key. preserve.
    apply preserves_execute_count; [apply _|]. intros t d tr. apply kept_map. intros r. by destruct (id r =? i).
  - revert s. change (preserves kept (auth_middleware st req)). unfold auth_middleware, lookup_scoped_key. preserve.
Qed.

Definition run_ops (ops : list ApiOp) (s : St Db ()) : St Db () := fold_left (λ s op, run_op op s) ops s.

Lemma kept_ops ops s : kept (view s) (view (run_ops ops s)).
Proof.
  revert s. induction ops as [|op ops IH]; intros s; [reflexivity|]. simpl. etrans; [apply kept_op|]. apply IH.
Qed.

Lemma lookup_dead key s : dead (hash_api_key key) (db s) → ∀ k, (lookup_active_key key s).1 ≠ Ok (Some k).
Proof. intros [_ Hd] k Hk. apply lookup_active_key_spec in Hk as (r & Hr & Hh & Hrev & _). by apply (Hd r Hr Hh). Qed.

(** C20. Once revoked, a key authenticates nobody: whatever requests come before
    and after, and whatever statements fail, a successful revocation of the
    row of a key means that no later request is authenticated by the table
    with that key. *)
Theorem revocation_final before i key after st req s e :
  let s0 := run_ops before (mkSt [] 0 []) in
  (∃ r, r ∈ db s0 ∧ id r = i ∧ key_hash r = hash_api_key key) →
  revoke_api_key i s0 = (Ok (), s) →
  extract_api_key_from_headers (headers req) = Some key →
  is_public_path (path req) = false →
  (auth_middleware st req (run_ops after s)).1 = Ok (Pass e) → scoped_key e = None.
Proof.
  intros s0 (r & Hr & Hid & Hh) Hrev Hk Hp Hauth.
  destruct (kept_ops before (mkSt [] 0 [])) as [Hu _]. fold s0 in Hu. simpl in Hu.
  assert (unique (db s0)) as Hun by (apply Hu; intros r1 r2 H1; by apply elem_of_nil in H1).
  assert (dead (hash_api_key key) (db s)) as Hdead.
  { unfold revoke_api_key, execute_count, mbind, M_bind, stmt in Hrev. destruct (db_fault _ _); [done|].
    simpl in Hrev. destruct (_ =? 0)%nat; [done|]. injection Hrev as <-. simpl. split.
    - eexists. split; [by apply list_elem_of_fmap_2, Hr|]. by destruct (id r =? i).
    - intros r' (x & -> & Hx)%list_elem_of_fmap Hx'.
      assert (id x = i) as Hxi.
      { rewrite <- Hid. apply Hun; try done. rewrite Hh. by destruct (id x =? i). }
      rewrite Hxi, Z.eqb_refl. done. }
  destruct (kept_ops after s) as [_ Hd]. specialize (Hd _ Hdead). simpl in Hd.
  unfold auth_middleware in Hauth. rewrite Hp, Hk in Hauth. unfold lookup_scoped_key in Hauth.
  pose proof (lookup_dead key _ Hd) as Hl. unfold mbind, M_bind, attempt in Hauth.
  assert (env_result st (Some key) = Pass e → scoped_key e = None) as Henv.
  { unfold env_result. destruct (auth_enabled st); [|by intros [= <-]].
    destruct (negb (_ || _)); [done|]. intros Hx. by apply with_tenant_pass in Hx as (_ & ? & _). }
  destruct (has_pool st); simpl in Hauth; [|injection Hauth; apply Henv].
  destruct (starts_with KEY_PREFIX key); [|injection Hauth; apply Henv].
  destruct (lookup_active_key key (run_ops after s)) as [[[k|]|x] s2]; simpl in *;
    [by destruct (Hl k)|injection Hauth; apply Henv..].
Qed.

End Store.

(** ** A concrete run *)

Definition demo_env : PgEnv := mkPgEnv (λ n, Z.of_nat n) (λ _, None).
Definition zeros64 : string := "0000000000000000000000000000000000000000000000000000000000000000".
Definition ones64 : string := "1111111111111111111111111111111111111111111111111111111111111111".
Definition demo_hash (k : string) : string := if String.eqb k "sp_2z" then zeros64 else ones64.
Definition demo_bytes (n : nat) : list Z := [Z.of_nat n + 115].

Definition demo_create : ApiOp := Create (mkCreate " reader " [ReadEvents] (Some "acme"%string)).
Definition demo_state : AuthState := mkAuth ["legacy"%string] [] ∅ true true false.
Definition demo_request (m p key : string) : Request := mkRequest m p [("X-Api-Key", key)]%string.

Abbreviation demo_run := (run_ops demo_env demo_hash demo_bytes Z.of_nat).
Abbreviation demo_auth := (auth_middleware demo_env demo_hash demo_state).

Lemma base58_decodes_witness : base58_value (base58_encode [104; 101; 108; 108; 111]) = Some 448378203247.
Proof. apply (base58_decodes [104; 101; 108; 108; 111]). repeat constructor; lia. Defined.

Definition demo_ext : Extensions :=
  mkExt (Some "key:0000000000000000"%string) (Some "acme"%string) (Some (mkScoped 0 "reader" [ReadEvents] (Some "acme"%string))).

(** The key of the first creation reads events, of its tenant. *)
Lemma auth_sound_witness :
  let s := demo_run [demo_create] (mkSt [] 0 []) in
  let req := demo_request "GET" "/v1/events" "sp_2z" in
  by_scoped_key demo_hash demo_state req (db s) demo_ext ∨ by_env_key demo_hash demo_state req demo_ext ∨
  auth_enabled demo_state = false ∧ demo_ext = mkExt (Some "anonymous"%string) None None.
Proof.
  intros s req. apply (auth_sound demo_env demo_hash demo_state req s demo_ext).
  - reflexivity.
  - vm_compute. reflexivity.
Defined.

Lemma revocation_final_witness :
  let s1 := (revoke_api_key demo_env 0 (demo_run [demo_create] (mkSt [] 0 []))).2 in
  (demo_auth (demo_request "GET" "/v1/events" "sp_2z") (demo_run [demo_create; ListKeys] s1)).1 =
    Ok (Deny 401 "unauthorized") ∧
  ∀ st e, (auth_middleware demo_env demo_hash st (demo_request "GET" "/v1/events" "sp_2z")
             (demo_run [demo_create; ListKeys] s1)).1 = Ok (Pass e) → scoped_key e = None.
Proof.
  intros s1. split; [vm_compute; reflexivity|]. intros st e.
  apply (revocation_final demo_env demo_hash demo_bytes Z.of_nat [demo_create] 0 "sp_2z" [demo_create; ListKeys] st
           (demo_request "GET" "/v1/events" "sp_2z") s1 e).
  - eexists. split; [by left|]. split; reflexivity.
  - vm_compute. reflexivity.
  - reflexivity.
  - reflexivity.
Defined.

End ApiKeys.
