(* ===== verification/Tenancy.v ===== *)
(** The isolation of tenants: authentication (ApiKeys) composed with the events
    read API (EventsQuery).

    [blind m] says that the answer of [m], the statements it takes and what it
    records depend only on the rows of one tenant; the hint database [tenancy]
    proves it for compound programs. *)

From S2P Require Import Prelude Text Model Pg EventStore ApiParams EventsQuery ApiKeys.

Create HintDb tenancy.

Module Tenancy.
Import ApiParams EventsQuery.

Section Tenancy.
Variable env : Env.
Variable tid : string.

Definition owned (r : Row) : bool := bool_decide (EventStore.c_tenant_id (cols r) = Some tid).
Definition own (rows : list Row) : list Row := List.filter owned rows.

Local Abbreviation Program := (Pg.M (list Row) Ev AppError).

Definition blind {A} (m : Program A) : Prop :=
  ∀ rows1 rows2 n tr, own rows1 = own rows2 →
  ∃ x n' tr', m (mkSt rows1 n tr) = (x, mkSt rows1 n' tr') ∧ m (mkSt rows2 n tr) = (x, mkSt rows2 n' tr').

Lemma blind_ret {A} (x : A) : blind (mret x).
Proof. intros rows1 rows2 n tr _. by exists (Ok x), n, tr. Qed.

Lemma blind_of_result {A} (r : result A AppError) : blind (of_result r).
Proof. intros rows1 rows2 n tr _. by exists r, n, tr. Qed.

Lemma blind_bind {A B} (m : Program A) (k : A → Program B) : blind m → (∀ x, blind (k x)) → blind (m ≫= k).
Proof.
  intros Hm Hk rows1 rows2 n tr Ho. destruct (Hm rows1 rows2 n tr Ho) as ([x|e] & n' & tr' & E1 & E2);
    unfold mbind, M_bind; rewrite E1, E2; [by apply Hk|by exists (Err e), n', tr'].
Qed.

Lemma blind_after {A B} (r : result A AppError) (k : A → Program B) :
  (∀ x, r = Ok x → blind (k x)) → blind (of_result r ≫= k).
Proof.
  intros Hk. destruct r as [x|e]; [by apply Hk|]. intros rows1 rows2 n tr _. by exists (Err e), n, tr.
Qed.

Lemma blind_fetch {A} needed binds (f : list Row → A) :
  (Z.of_nat (length binds) = needed → ∀ rows, f rows = f (own rows)) → blind (fetch env needed binds f).
Proof.
  intros Hf rows1 rows2 n tr Ho. unfold fetch, stmt. cbn [ops db trace].
  destruct (db_fault _ _) as [e|]; [by do 3 eexists|]. destruct (Z.eqb_spec (Z.of_nat (length binds)) needed) as [E|]; [|by do 3 eexists].
  exists (Ok (f rows1)), (S n), tr. by rewrite (Hf E rows1), (Hf E rows2), Ho.
Qed.

#[local] Hint Resolve blind_ret blind_of_result blind_bind : tenancy.
#[local] Hint Extern 1 (blind (match ?x with _ => _ end)) => destruct x : tenancy.

(** Rows selected only if they are the tenant's are selected from the tenant's. *)
Lemma filter_own p rows : (∀ r, p r = true → owned r = true) → List.filter p rows = List.filter p (own rows).
Proof.
  intros Hp. unfold own. induction rows as [|r rows IH]; simpl; [done|].
  destruct (owned r) eqn:E; simpl; [by rewrite IH|]. destruct (p r) eqn:Ep; [|done]. by rewrite (Hp r Ep) in E.
Qed.

Lemma matches_owned q r : tenant_id q = Some tid → matches env q r = true → owned r = true.
Proof.
  intros Ht. unfold matches, matches_late. rewrite Ht. cbn [opt_all]. intros Hm.
  by apply andb_true_iff in Hm as [_ [_ Hm]%andb_true_iff].
Qed.

Lemma blind_total_count q :
  tenant_id q = Some tid →
  opt_all (contract_id_prefix (params q)) (λ s, string_forallb is_alphanumeric (trim s)) = true →
  blind (total_count env q).
Proof.
  intros Ht Hp. unfold total_count.
  assert ((offset_conditions q).1 ≠ []) as Hne.
  { intros E. destruct (offset_where env q [] (mkRow (EventStore.mkRow 0 0 (EventStore.mkColumns "" "" "" 0 0 Null None
      true None None "" None None "" None None None None None)) None 0 true) Hp) as (_ & _ & Hc).
    rewrite E in Hc. change (conds_params []) with 0 in Hc. unfold offset_binds, late_binds in Hc. rewrite Ht, !length_app in Hc.
    simpl in Hc. lia. }
  destruct (offset_conditions q) as [[|c conds] i] eqn:Ec; [done|]. rewrite orb_true_r.
  apply blind_bind; [|auto with tenancy]. apply blind_fetch. intros Hl rows. f_equal. f_equal.
  pose proof (λ r, offset_where env q [] r Hp) as Hw. rewrite Ec in Hw. cbn [fst snd] in Hw, Hl.
  destruct (Hw (mkRow (EventStore.mkRow 0 0 (EventStore.mkColumns "" "" "" 0 0 Null None
      true None None "" None None "" None None None None None)) None 0 true)) as (_ & _ & Hc). rewrite Hc in Hl.
  rewrite count_binds_same by lia.
  unfold matching. apply filter_own. intros r Hr. specialize (Hw r) as [Hw _]. rewrite app_nil_r in Hw. cbn [fst] in Hr. rewrite Hw in Hr.
  apply andb_true_iff in Hr as [Hr _]. by apply (matches_owned q).
Qed.

Lemma blind_approximate : blind (approximate_info env).
Proof.
  unfold approximate_info. apply blind_bind; [|auto with tenancy]. intros rows1 rows2 n tr Ho.
  unfold attempt. destruct (blind_fetch 0 [] (λ _, stats_info env) (λ _ _, eq_refl) rows1 rows2 n tr Ho)
    as (x & n' & tr' & -> & ->). by exists (Ok x), n', tr'.
Qed.

Lemma blind_get_events p x h : blind (get_events env p x h (Some tid)).
Proof.
  unfold get_events. apply blind_after. intros q Hv. apply validated in Hv as (<- & <- & Ht & Hp & _).
  apply blind_after. intros columns _. destruct (cursor (params q)) as [c|].
  - unfold cursor_page. apply blind_after. intros [qr bs] Hq.
    destruct (cursor_query_spec _ _ _ _ _ _ Hp Hq) as (tag & text & v & id & _ & _ & _ & _ & Hs).
    apply blind_bind; [|auto 10 with tenancy]. unfold fetch_all. apply blind_fetch. intros _ rows. rewrite !Hs.
    f_equal. f_equal. apply filter_own. intros r Hr. apply andb_true_iff in Hr as [_ Hr].
    apply andb_true_iff in Hr as [Hr _]. apply andb_true_iff in Hr as [Hr _]. by apply (matches_owned q).
  - unfold offset_page. apply blind_after. intros [qr bs] Hq.
    destruct (offset_query_spec _ _ _ _ _ Hp Hq) as (_ & _ & Hs).
    apply blind_bind.
    { unfold fetch_all. apply blind_fetch. intros _ rows. rewrite !Hs. f_equal. f_equal. f_equal. apply filter_own.
      intros r Hr. apply andb_true_iff in Hr as [Hr _]. by apply (matches_owned q). }
    intros rows. apply blind_bind; [auto with tenancy|]. intros events. apply blind_bind; [by apply blind_total_count|].
    intros [total approximate]. cbn [fst snd]. destruct (if_none_match _ _); [auto with tenancy|].
    apply blind_bind; [|auto with tenancy]. destruct approximate; [apply blind_approximate|auto with tenancy].
Qed.

End Tenancy.

(** ** With authentication *)

(** The request carries the key of an administrator. *)
Definition by_admin (st : ApiKeys.AuthState) (req : ApiKeys.Request) (e : ApiKeys.Extensions) : Prop :=
  match ApiKeys.scoped_key e with
  | Some k => ApiKeys.has_scope k ApiKeys.Admin = true
  | None => ∃ key, extract_api_key_from_headers (ApiKeys.headers req) = Some key ∧ key ∈ ApiKeys.admin_api_keys st
  end.

(** C5. With tenants and authentication on, a request for events that passes the
    authentication and is not an administrator's is bound to a tenant, and its
    answer is the same over any two tables with the same rows of that tenant:
    nothing of the others is disclosed, neither by the events nor by totals,
    cursors, tags or errors. *)
Theorem tenant_isolation env aenv hash st req s e p x rows1 rows2 n tr :
  ApiKeys.multi_tenant st = true → ApiKeys.auth_enabled st = true →
  ApiKeys.is_public_path (ApiKeys.path req) = false →
  (ApiKeys.auth_middleware aenv hash st req s).1 = Ok (ApiKeys.Pass e) → ¬ by_admin st req e →
  ∃ tid, ApiKeys.tenant e = Some tid ∧
    (own tid rows1 = own tid rows2 →
     (get_events env p x (ApiKeys.headers req) (ApiKeys.tenant e) (mkSt rows1 n tr)).1 =
     (get_events env p x (ApiKeys.headers req) (ApiKeys.tenant e) (mkSt rows2 n tr)).1).
Proof.
  intros Hm Ha Hp Hauth Hadmin.
  assert (∃ tid, ApiKeys.tenant e = Some tid) as [tid Ht].
  { apply ApiKeys.auth_middleware_pass in Hauth as [(key & r & _ & _ & _ & _ & _ & Hs & _ & Hb)|[(key & Hk & _ & Hs & _ & Hb)|[H _]]];
      [..|by rewrite Ha in H|done]; unfold by_admin in Hadmin; rewrite Hs in Hadmin; unfold ApiKeys.bound in Hb; rewrite Hm in Hb.
    - destruct (ApiKeys.has_scope _ _); [done|]. destruct Hb as [Hn ->]. by destruct (or_else _ _) as [t|]; [exists t|].
    - case_bool_decide as Hin; [by destruct Hadmin; exists key|]. destruct Hb as [Hn ->].
      by destruct (ApiKeys.tenant_map st !! _) as [t|]; [exists t|]. }
  exists tid. split; [done|]. intros Ho. rewrite Ht.
  by destruct (blind_get_events env tid p x (ApiKeys.headers req) rows1 rows2 n tr Ho) as (r & n' & tr' & -> & ->).
Qed.

(** ** A concrete run *)

(** The rows of the tenant among those of another one. *)
Definition demo_rows (others : list Row) : list Row :=
  demo_row 2 6 0 (Some "acme"%string) :: others ++ [demo_row 3 7 1 (Some "acme"%string)].

Lemma tenant_isolation_witness :
  let req := ApiKeys.demo_request "GET" "/v1/events" "sp_2z" in
  let answer rows := (get_events demo_env (demo_params None None None) plain_extra (ApiKeys.headers req)
                        (ApiKeys.tenant ApiKeys.demo_ext) (mkSt rows 0 [])).1 in
  answer (demo_rows []) = answer (demo_rows [demo_row 4 8 0 (Some "globex"%string); demo_row 5 9 0 None]) ∧
  ∃ body tag, answer (demo_rows []) = Ok (JsonPage (Object body) tag false) ∧ ("total"%string, json_z 2) ∈ body.
Proof.
  split.
  - destruct (tenant_isolation demo_env ApiKeys.demo_env ApiKeys.demo_hash ApiKeys.demo_state
      (ApiKeys.demo_request "GET" "/v1/events" "sp_2z")
      (ApiKeys.run_ops ApiKeys.demo_env ApiKeys.demo_hash ApiKeys.demo_bytes Z.of_nat [ApiKeys.demo_create] (mkSt [] 0 []))
      ApiKeys.demo_ext (demo_params None None None) plain_extra (demo_rows [])
      (demo_rows [demo_row 4 8 0 (Some "globex"%string); demo_row 5 9 0 None]) 0 []) as (tid & Ht & H);
      [reflexivity|reflexivity|reflexivity|by vm_compute|by vm_compute|].
    injection Ht as <-. apply H. reflexivity.
  - eexists _, _. split; [by vm_compute|]. vm_compute. repeat (first [left|right]). 
Defined.

End Tenancy.
