(* ===== verification/EventsRead.v ===== *)
(** The other read endpoints of the events API (handlers/events.rs): recent
    events, events of a ledger hash, of a batch of transactions and of the
    transactions they refer to, and the difference between two ledgers.

    They run over the rows and queries of EventsQuery.  A HashSet or HashMap is
    iterated in the order [hash_order] gives it.  None of these handlers looks
    at the tenant of the request. *)

From S2P Require Import Prelude Text Model Pg EventStore ApiParams EventsQuery SseStream.

Module EventsRead.
Import ApiParams EventsQuery.

Section EventsRead.
Variable env : Env.
Variable hash_order : ∀ A, list A → list A.

Local Abbreviation M := (Pg.M (list Row) Ev AppError).

(** The row [FromRow] builds from the selected columns: the others have their defaults. *)
Definition as_event (selected : list string) (r : Row) : Row :=
  let c := cols r in
  let opt {A} (col : string) (x : option A) := if mem col selected then x else None in
  mkRow (EventStore.mkRow (row_id r) (EventStore.row_created_at (stored r))
           (EventStore.mkColumns (EventStore.c_contract_id c) (EventStore.c_event_type c) (EventStore.c_tx_hash c)
              (EventStore.c_ledger c) (EventStore.c_timestamp c) (EventStore.c_event_data c)
              (opt "ledger_hash"%string (EventStore.c_ledger_hash c))
              (mem "in_successful_call" selected && EventStore.c_in_successful_call c)
              (opt "event_data_decoded"%string (EventStore.c_event_data_decoded c))
              (opt "tenant_id"%string (EventStore.c_tenant_id c)) "" None None "" 
              (opt "tx_index"%string (EventStore.c_tx_index c)) (opt "op_index"%string (EventStore.c_op_index c))
              (opt "event_index"%string (EventStore.c_event_index c)) None None))
    (opt "event_data_normalized"%string (r_normalized r))
    (if mem "schema_version" selected then r_schema_version r else 0)
    (mem "anonymized" selected && r_anonymized r).

(** [query_as::<_, Event>(..).fetch_all]. *)
Definition fetch_events (q : Query) (binds : list Bind) : M (list Row) :=
  rows ← fetch_all env q binds;
  rows ← of_result (result_map_err Database (from_rows (q_cols q) rows));
  mret (map (as_event (q_cols q)) rows).

Definition newest_first : list OrderKey := [key "DESC" "ledger"; key "DESC" "id"]%string.

(** ** Recent events *)

Record RecentParams : Type := mkRecent {
  rc_limit : option Z;
  rc_event_type : option EventType;
  rc_contract_id : option string;
  rc_cursor : option string;
  rc_from_ledger : option Z;
  rc_to_ledger : option Z;
}.

Definition recent_columns : list string :=
  ["id"; "contract_id"; "event_type"; "tx_hash"; "ledger"; "timestamp"; "event_data"; "created_at"; "schema_version";
   "asset_code"; "asset_issuer"; "total_count"]%string.

Definition recent_limit (p : RecentParams) : Z := clamp 1 100 (default 20 (rc_limit p)).

Definition recent_cursor (p : RecentParams) : result (option (Z * Z)) AppError :=
  match rc_cursor p with
  | Some c => let? x := decode_cursor (b64_decode env) (utf8_valid env) (parse_uuid env) (is_v4 env) c in Ok (Some x)
  | None => Ok None
  end.

Definition recent_conditions (p : RecentParams) : list Cond * Z :=
  fold_left push [(present (rc_contract_id p), KEq "contract_id"); (present (rc_event_type p), KEq "event_type");
                  (present (rc_cursor p), KKeyset "ledger" "<")]%string ([], 1).

Definition recent_binds (p : RecentParams) (cursor : option (Z * Z)) : list Bind :=
  bind1 (BText <$> rc_contract_id p) ++ bind1 ((λ t, BText (event_type_str t)) <$> rc_event_type p) ++
  match cursor with Some (ledger, id) => [BI64 ledger; BUuid id] | None => [] end.

Definition get_recent_events (p : RecentParams) : M Value :=
  of_result (check (negb (present (rc_from_ledger p) || present (rc_to_ledger p)))
    (Validation "from_ledger and to_ledger are not supported on /v1/events/recent")) ;;
  of_result (each validate_contract_id (rc_contract_id p)) ;;
  let limit := recent_limit p in
  cursor ← of_result (recent_cursor p);
  let '(conds, bind_idx) := recent_conditions p in
  rows ← fetch_events (mkQuery recent_columns conds newest_first (Some bind_idx) None)
           (recent_binds p cursor ++ [BI64 (limit + 1)]);
  let has_next := limit <? Z.of_nat (length rows) in
  let rows := if has_next then take (Z.to_nat limit) rows else rows in
  let events := map (λ r, SseStream.filter_fields env r ALLOWED_FIELDS) rows in
  let body := [("data", Array events); ("limit", json_z limit)]%string in
  mret (Object (match last rows with
                | Some r =>
                    if has_next : bool
                    then entry_insert "next_cursor" (VString (encode_cursor (b64_encode env) (show_uuid env) (row_ledger r) (row_id r))) body
                    else body
                | None => body
                end)).

(** ** Events of a ledger *)

Definition get_events_by_ledger_hash (hash : string) (p : PaginationParams) : M Value :=
  columns ← of_result (resolve_columns p);
  rows ← fetch_all env (mkQuery (ensure "id" (ensure "ledger" columns)) [mkCond (KEq "ledger_hash") 1] newest_first None None)
           [BText hash];
  events ← of_result (rows_to_json env rows columns false FJson);
  mret (Object [("approximate", Bool false); ("data", Array events); ("ledger_hash", VString hash);
                ("total", json_z (Z.of_nat (length rows)))]%string).

(** ** A batch of transactions *)

Variable batch_tx_max_size : Z.

Definition batch_columns : list string :=
  ["id"; "contract_id"; "event_type"; "tx_hash"; "ledger"; "timestamp"; "event_data"; "created_at"]%string.

(** [HashSet::insert] in turn: the distinct ones, the last occurrence kept. *)
Definition unique_hashes (hashes : list string) : list string := hash_order _ (remove_dups (map to_lowercase hashes)).

(** [get_mut(key)] and a push onto its array. *)
Definition array_push (key : string) (v : Value) (o : list (string * Value)) : list (string * Value) :=
  map (λ kv, if String.eqb kv.1 key then (kv.1, match kv.2 with Array l => Array (l ++ [v]) | x => x end) else kv) o.

(** Each row's event is added to the array of its hash. *)
Fixpoint fill (rows : list Row) (slots : list (string * Value)) : result (list (string * Value)) AppError :=
  match rows with
  | [] => Ok slots
  | r :: rest =>
      let? events := rows_to_json env [r] batch_columns false FJson in
      fill rest (match events with
                 | ev :: _ => array_push (EventStore.c_tx_hash (cols r)) ev slots
                 | [] => slots
                 end)
  end.

(** [ORDER BY tx_hash, ..] only brings the rows of a transaction together: they
    are told apart by their hash again. *)
Definition get_events_by_tx_batch (hashes : list string) : M Value :=
  of_result (check (Z.of_nat (length hashes) <=? batch_tx_max_size)
    (Validation ("too many hashes: maximum is " +:+ show_i batch_tx_max_size)%string)) ;;
  let invalid := List.filter (λ h, negb (is_ok (validate_tx_hash h))) hashes in
  of_result (check (match invalid with [] => true | _ => false end)
    (Validation ("invalid tx_hash(es): " +:+ join ", " invalid)%string)) ;;
  let unique := unique_hashes hashes in
  rows ← fetch_all env (mkQuery batch_columns [mkCond (KAny "tx_hash") 1] (key "ASC" "tx_hash" :: newest_first) None None)
           [BTextArray unique];
  slots ← of_result (fill rows (fold_left (λ o h, entry_insert h (Array []) o) unique []));
  mret (Object (entry_insert "deduplicated_count" (json_z (Z.of_nat (length unique))) slots)).

(** ** The transactions a transaction refers to *)

Definition is_tx_ref_key (k : string) : bool :=
  mem k ["tx_hash"; "transaction_hash"; "related_tx_hash"; "parent_tx_hash"; "child_tx_hash"]%string.

Fixpoint collect_tx_refs (v : Value) : list string :=
  match v with
  | Object l =>
      flat_map (λ kv,
        (if is_tx_ref_key kv.1 then match as_str kv.2 with Some h => [h] | None => [] end else []) ++
        collect_tx_refs kv.2) l
  | Array l => flat_map collect_tx_refs l
  | _ => []
  end.

(** The valid hashes an event refers to. *)
Definition tx_refs (r : Row) : list string :=
  List.filter (λ h, is_ok (validate_tx_hash h)) (map to_lowercase (collect_tx_refs (EventStore.c_event_data (cols r)))).

(** [filter(|h| seen.insert(h))]: the new ones, each once. *)
Fixpoint unseen (seen l : list string) : list string * list string :=
  match l with
  | [] => ([], seen)
  | h :: l =>
      if mem h seen then unseen seen l
      else let '(fresh, seen) := unseen (h :: seen) l in (h :: fresh, seen)
  end.

Definition related_columns : list string :=
  ["id"; "contract_id"; "event_type"; "tx_hash"; "ledger"; "timestamp"; "event_data"; "event_data_decoded"; "created_at";
   "schema_version"; "total_count"]%string.

(** The iterations that are left, from [0..=max_depth]. *)
Fixpoint related_loop (n : nat) (seen frontier : list string) : M (list Row) :=
  match frontier with
  | [] => mret []
  | _ =>
      rows ← fetch_all env (mkQuery related_columns [mkCond (KAny "tx_hash") 1] newest_first None None) [BTextArray frontier];
      match n with
      | O => mret rows
      | S n =>
          let '(frontier, seen) := unseen seen (flat_map tx_refs rows) in
          rest ← related_loop n seen frontier;
          mret (rows ++ rest)
      end
  end.

(** The response: the root, the depth and the events ([row_to_event_json] of each). *)
Definition get_related_events_by_tx (tx_hash : string) (depth : option Z) : M (string * Z * list Row) :=
  let root := to_lowercase tx_hash in
  of_result (validate_tx_hash root) ;;
  let max_depth := default 1 depth in
  of_result (check (max_depth <=? 3) (Validation "depth must be between 0 and 3")) ;;
  rows ← related_loop (Z.to_nat max_depth) [root] [root];
  mret (root, max_depth, rows).

(** ** The difference between two ledgers *)

Record ContractDiff : Type := mkDiff { d_contract_id : string; d_event_counts : gmap string Z; d_total : Z }.

(** [SELECT contract_id, event_type, COUNT( * ) .. GROUP BY contract_id, event_type]. *)
Definition group_key (r : Row) : string * string :=
  (EventStore.c_contract_id (cols r), EventStore.c_event_type (cols r)).

Definition count_groups (rows : list Row) : list (string * string * Z) :=
  map (λ k, (k, Z.of_nat (length (List.filter (λ r, bool_decide (group_key r = k)) rows)))) (remove_dups (map group_key rows)).

(** [entry(contract_id).or_insert_with(..)], the count and the total. *)
Definition add_group (m : gmap string ContractDiff) (g : string * string * Z) : gmap string ContractDiff :=
  let '(contract_id, event_type, cnt) := g in
  let e := default (mkDiff contract_id ∅ 0) (m !! contract_id) in
  <[contract_id := mkDiff (d_contract_id e) (<[event_type := cnt]> (d_event_counts e)) (d_total e + cnt)]> m.

Definition by_total (a b : ContractDiff) : comparison := Z.compare (d_total b) (d_total a).

Variable max_ledger_range : Z.

Definition in_ledgers (from to : Z) (r : Row) : bool := (from <=? row_ledger r) && (row_ledger r <=? to).

Definition get_events_diff (from to : Z) : M (Z * Z * list ContractDiff) :=
  of_result (check (0 <=? from) (Validation "from_ledger must be a positive integer")) ;;
  of_result (check (0 <=? to) (Validation "to_ledger must be a positive integer")) ;;
  of_result (check (from <? to) (Validation "from_ledger must be less than to_ledger")) ;;
  of_result (check (to - from <=? max_ledger_range)
    (Validation ("ledger range exceeds maximum of " +:+ show_i max_ledger_range)%string)) ;;
  groups ← fetch env 2 [BI64 from; BI64 to] (λ rows, hash_order _ (count_groups (List.filter (in_ledgers from to) rows)));
  let contracts := hash_order _ (map snd (map_to_list (fold_left add_group groups ∅))) in
  mret (from, to, Prelude.sort_by by_total contracts).

(** ** What the endpoints answer *)

(** Event rows are required to have a column that recent events do not select. *)
Definition recent_given (p : RecentParams) (cursor : option (Z * Z)) : list given :=
  [one (KEq "contract_id") (BText <$> rc_contract_id p);
   one (KEq "event_type") ((λ t, BText (event_type_str t)) <$> rc_event_type p);
   (KKeyset "ledger" "<", (λ c, [BI64 c.1; BUuid c.2]) <$> cursor)]%string.

Lemma recent_aligned p cursor :
  recent_cursor p = Ok cursor →
  Forall well_given (recent_given p cursor) ∧
  recent_conditions p = fold_left push (flags (recent_given p cursor)) ([], 1) ∧
  recent_binds p cursor = values (recent_given p cursor).
Proof.
  intros Hc. assert (present (rc_cursor p) = present cursor) as E.
  { unfold recent_cursor in Hc. destruct (rc_cursor p); [|by injection Hc as <-].
    destruct (decode_cursor _ _ _ _ _); [|done]. by injection Hc as <-. }
  split_and!.
  - repeat (apply Forall_cons; split); try apply Forall_nil; try done; try by apply well_one.
    intros b. by destruct cursor; [intros [= <-]|].
  - unfold recent_conditions, flags, recent_given. simpl. by rewrite !present_fmap, E.
  - unfold recent_binds, values, recent_given. simpl. rewrite !value_one. by destruct cursor as [[]|].
Qed.

Lemma fetch_events_healthy q binds s :
  healthy (pg env) → Z.of_nat (length binds) = query_params q →
  fetch_events q binds s =
    (let? rows := result_map_err Database (from_rows (q_cols q) (select (sql env) q binds (db s))) in
     Ok (map (as_event (q_cols q)) rows), mkSt (db s) (S (ops s)) (trace s)).
Proof.
  intros Hh Hn. unfold fetch_events. rewrite (bind_ok _ _ _ _ _ (fetch_all_healthy env q binds s Hh Hn)).
  unfold mbind, M_bind, of_result. by destruct (result_map_err _ _).
Qed.

Lemma order_by_nil order rows : order_by (sql env) order rows = [] → rows = [].
Proof. unfold order_by. intros E. apply Permutation_nil. rewrite <- E. apply sort_by_permutation. Qed.

(** Recent events are never returned: a valid request is answered with a
    database error when an event matches, and with an empty page when none does. *)
Theorem recent_never_served p cursor s :
  healthy (pg env) → rc_from_ledger p = None → rc_to_ledger p = None →
  each validate_contract_id (rc_contract_id p) = Ok () → recent_cursor p = Ok cursor →
  (get_recent_events p s).1 =
    match List.filter (λ r, forallb (satisfied env r) (recent_given p cursor)) (db s) with
    | [] => Ok (Object [("data", Array []); ("limit", json_z (recent_limit p))]%string)
    | _ => Err (Database "no column found for name: event_data_normalized")
    end.
Proof.
  intros Hh Hf Ht Hv Hc. destruct (recent_aligned p cursor Hc) as (Hw & Hconds & Hbinds).
  destruct (given_page env (recent_given p cursor) recent_columns newest_first (recent_limit p + 1) (db s) Hw) as [Hn Hs].
  unfold get_recent_events. rewrite Hf, Ht, Hv, Hc. unfold of_result at 1 2 3. unfold mbind, M_bind at 1 2 3. cbn [present orb negb check].
  rewrite Hconds, Hbinds. destruct (fold_left push _ _) as [conds idx]. cbn [fst snd] in Hn, Hs.
  unfold M_bind. rewrite fetch_events_healthy by done. rewrite Hs. cbn [q_cols].
  assert (1 ≤ recent_limit p) as Hl by (apply clamp_range; lia).
  destruct (List.filter _ _) as [|r rows] eqn:E.
  - change (order_by (sql env) newest_first []) with (@nil Row). rewrite take_nil.
    unfold result_bind, result_map_err, from_rows, mret, M_ret. cbn [map length fst].
    by rewrite (proj2 (Z.ltb_ge (recent_limit p) (Z.of_nat 0))) by lia.
  - destruct (order_by _ _ _) as [|x l] eqn:Eo; [by apply order_by_nil in Eo|].
    destruct (Z.to_nat (recent_limit p + 1)) eqn:En; [lia|]. cbn [take]. done.
Qed.

(** *** Rows of a set of transactions *)

Definition tx_of (r : Row) : string := EventStore.c_tx_hash (cols r).

Lemma any_tx_select columns order hashes rows :
  let q := mkQuery columns [mkCond (KAny "tx_hash"%string) 1] order None None in
  Z.of_nat (length [BTextArray hashes]) = query_params q ∧
  select (sql env) q [BTextArray hashes] rows = order_by (sql env) order (List.filter (λ r, mem (tx_of r) hashes) rows).
Proof.
  split; [done|]. unfold select, matching. cbn [q_where q_order q_limit q_offset]. rewrite !count_at_none. f_equal.
  apply filter_ext_list. intros r. cbn. by rewrite andb_true_r.
Qed.

Lemma order_by_perm order rows : order_by (sql env) order rows ≡ₚ rows.
Proof. apply sort_by_permutation. Qed.

(** *** The related transactions *)

(** The reference: the hashes reached from [s] in [n] steps over the events of [rows]. *)
Definition refs_of (rows : list Row) (s : list string) : list string :=
  flat_map tx_refs (List.filter (λ r, mem (tx_of r) s) rows).

Fixpoint reach (rows : list Row) (n : nat) (s : list string) : list string :=
  match n with O => s | S n => reach rows n (s ++ refs_of rows s) end.

Lemma mem_elem x l : mem x l = true ↔ x ∈ l.
Proof.
  unfold mem. rewrite existsb_exists. setoid_rewrite String.eqb_eq. setoid_rewrite <- list_elem_of_In.
  split; [by intros (y & ? & ->)|by exists x].
Qed.

Lemma elem_refs rows s h : h ∈ refs_of rows s ↔ ∃ r, r ∈ rows ∧ tx_of r ∈ s ∧ h ∈ tx_refs r.
Proof.
  unfold refs_of. rewrite list_elem_of_In, in_flat_map. split.
  - intros (r & [Hr Hm]%filter_In & Hh). apply mem_elem in Hm. apply list_elem_of_In in Hr, Hh. by exists r.
  - intros (r & Hr & Hm & Hh). exists r. rewrite filter_In, <- !list_elem_of_In. by apply mem_elem in Hm.
Qed.

Lemma refs_of_ext rows s t : (∀ h, h ∈ s ↔ h ∈ t) → ∀ h, h ∈ refs_of rows s ↔ h ∈ refs_of rows t.
Proof. intros E h. rewrite !elem_refs. by setoid_rewrite E. Qed.

Lemma reach_ext rows n s t : (∀ h, h ∈ s ↔ h ∈ t) → ∀ h, h ∈ reach rows n s ↔ h ∈ reach rows n t.
Proof.
  revert s t. induction n as [|n IH]; intros s t E; simpl; [done|]. apply IH. intros h.
  by rewrite !elem_of_app, E, (refs_of_ext rows s t E).
Qed.

Lemma reach_incl rows n s h : h ∈ s → h ∈ reach rows n s.
Proof. revert s. induction n as [|n IH]; intros s Hh; simpl; [done|]. apply IH, elem_of_app. by left. Qed.

Lemma reach_closed rows n s :
  (∀ h, h ∈ refs_of rows s → h ∈ s) → ∀ h, h ∈ reach rows n s ↔ h ∈ s.
Proof.
  intros Hc. induction n as [|n IH]; simpl; [done|]. intros h.
  rewrite (reach_ext rows n (s ++ refs_of rows s) s); [apply IH|]. intros x. rewrite elem_of_app. naive_solver.
Qed.

Lemma unseen_spec l : ∀ seen,
  (∀ h, h ∈ (unseen seen l).2 ↔ h ∈ seen ∨ h ∈ (unseen seen l).1) ∧
  (∀ h, h ∈ (unseen seen l).1 ↔ h ∈ l ∧ h ∉ seen).
Proof.
  induction l as [|x l IH]; intros seen; simpl.
  { split; intros h; rewrite elem_of_nil; tauto. }
  destruct (mem x seen) eqn:E.
  - destruct (IH seen) as [H1 H2]. apply mem_elem in E. split; [done|]. intros h. rewrite H2, elem_of_cons.
    split; [tauto|]. intros [[->|]]; tauto.
  - destruct (IH (x :: seen)) as [H1 H2]. destruct (unseen (x :: seen) l) as [fresh seen']. simpl in *.
    assert (x ∉ seen) as Hx by (intros Hx; by rewrite (proj2 (mem_elem x seen) Hx) in E).
    split; intros h; [rewrite H1|]; rewrite ?elem_of_cons, ?H2, ?elem_of_cons.
    + tauto.
    + destruct (decide (h = x)) as [->|]; tauto.
Qed.

(** The rows the loop still has to give: of the hashes reached from [seen], but not of [old]. *)
Definition ahead (rows : list Row) (n : nat) (seen old : list string) (r : Row) : bool :=
  mem (tx_of r) (reach rows n seen) && negb (mem (tx_of r) old).

Lemma ahead_true rows n seen old r :
  ahead rows n seen old r = true ↔ tx_of r ∈ reach rows n seen ∧ tx_of r ∉ old.
Proof. unfold ahead. by rewrite andb_true_iff, negb_true_iff, <- not_true_iff_false, !mem_elem. Qed.

Lemma ahead_nothing rows n seen old :
  (∀ h, h ∈ seen ↔ h ∈ old) → (∀ h, h ∈ refs_of rows old → h ∈ seen) → List.filter (ahead rows n seen old) rows = [].
Proof.
  intros Hs Hc. apply filter_none. intros r _. apply not_true_iff_false. intros [Hr Hn]%ahead_true. apply Hn.
  apply Hs. apply (reach_closed rows n seen); [|done]. intros h Hh. apply Hc. by apply (refs_of_ext rows seen old).
Qed.

(** [seen] are the processed hashes [old] and the ones of the frontier. *)
Lemma related_loop_spec n : ∀ old frontier seen s,
  healthy (pg env) → (∀ h, h ∈ seen ↔ h ∈ old ∨ h ∈ frontier) → (∀ h, h ∈ frontier → h ∉ old) →
  (∀ h, h ∈ refs_of (db s) old → h ∈ seen) →
  ∃ rows s', related_loop n seen frontier s = (Ok rows, s') ∧ db s' = db s ∧
    rows ≡ₚ List.filter (ahead (db s) n seen old) (db s).
Proof.
  induction n as [|n IH]; intros old frontier seen s Hh Hs Hd Hc.
  all: destruct (decide (frontier = [])) as [->|Hne];
    [exists [], s; split_and!; [done|done|]; rewrite ahead_nothing; [done|intros h; rewrite Hs, elem_of_nil; tauto|done]|].
  all: destruct (any_tx_select related_columns newest_first frontier (db s)) as [Hn Hsel].
  all: pose proof (fetch_all_healthy env _ _ s Hh Hn) as Hf; rewrite Hsel in Hf.
  all: set (found := order_by _ _ _) in Hf;
    assert (found ≡ₚ List.filter (λ r, mem (tx_of r) frontier) (db s)) as Hfound by apply order_by_perm.
  - eexists found, _. split_and!; [destruct frontier; [done|]; exact (bind_ok _ _ _ _ _ Hf)|done|].
    rewrite Hfound. apply filter_perm_ext. intros r _. apply Bool.eq_iff_eq_true. rewrite mem_elem, ahead_true. simpl.
    rewrite Hs. specialize (Hd (tx_of r)). tauto.
  - pose proof (unseen_spec (flat_map tx_refs found) seen) as [H1 H2].
    destruct (unseen seen (flat_map tx_refs found)) as [fresh seen'] eqn:Eu. simpl in H1, H2.
    assert (∀ h, h ∈ flat_map tx_refs found ↔ h ∈ refs_of (db s) frontier) as Href.
    { intros h. unfold refs_of. rewrite !list_elem_of_In, !in_flat_map. setoid_rewrite <- list_elem_of_In.
      by setoid_rewrite Hfound. }
    set (s1 := mkSt (db s) (S (ops s)) (trace s)) in Hf.
    assert (∀ h, h ∈ refs_of (db s) seen ↔ h ∈ refs_of (db s) old ∨ h ∈ refs_of (db s) frontier) as Hsplit.
    { intros h. rewrite !elem_refs. setoid_rewrite Hs. naive_solver. }
    assert (∀ h, h ∈ seen' ↔ h ∈ seen ++ refs_of (db s) seen) as Hseen.
    { intros h. rewrite elem_of_app, H1, H2, Href, Hsplit. specialize (Hc h). destruct (decide (h ∈ seen)); tauto. }
    destruct (IH seen fresh seen' s1) as (rest & s' & Hl & Hdb & Hrest); [done|done|by intros h [_ ?]%H2| |].
    { intros h Hh'. apply Hseen, elem_of_app. by right. }
    exists (found ++ rest), s'. split_and!; [|by rewrite Hdb|].
    + destruct frontier; [done|]. cbn [related_loop]. rewrite (bind_ok _ _ _ _ _ Hf), Eu. by rewrite (bind_ok _ _ _ _ _ Hl).
    + rewrite Hfound, Hrest. cbn [db s1]. apply filter_split.
      * intros r _. apply Bool.eq_iff_eq_true. rewrite orb_true_iff, mem_elem, !ahead_true. cbn [reach].
        rewrite <- (reach_ext (db s) n seen' _ Hseen). pose proof (reach_incl (db s) n seen' (tx_of r)) as Hi.
        rewrite H1, Hs in Hi. specialize (Hd (tx_of r)). rewrite Hs. 
        destruct (decide (tx_of r ∈ old)), (decide (tx_of r ∈ frontier)); tauto.
      * intros r _ Hm%mem_elem. apply not_true_iff_false. intros [_ Hn']%ahead_true. apply Hn', Hs. by right.
Qed.

(** C6. The related events of a transaction are those of the transactions that it
    reaches within [depth] references, each once, whatever the order in which
    the rows come. *)
Theorem related_events_spec tx depth s :
  healthy (pg env) → validate_tx_hash (to_lowercase tx) = Ok () → default 1 depth ≤ 3 →
  ∃ rows, (get_related_events_by_tx tx depth s).1 = Ok (to_lowercase tx, default 1 depth, rows) ∧
    rows ≡ₚ List.filter (λ r, mem (tx_of r) (reach (db s) (Z.to_nat (default 1 depth)) [to_lowercase tx])) (db s).
Proof.
  intros Hh Hv Hdepth. unfold get_related_events_by_tx. rewrite Hv. set (root := to_lowercase tx).
  destruct (related_loop_spec (Z.to_nat (default 1 depth)) [] [root] [root] s) as (rows & s' & Hl & _ & Hp);
    [done|set_solver|set_solver| |].
  { intros h. rewrite elem_refs. intros (r & _ & H & _). by apply elem_of_nil in H. }
  exists rows. unfold of_result, mbind, M_bind, check. rewrite (proj2 (Z.leb_le _ _) Hdepth), Hl. split; [done|].
  rewrite Hp. apply filter_perm_ext. intros r _. unfold ahead. by rewrite andb_true_r.
Qed.

(** *** The batch of transactions *)

Lemma value_get_push key v o k l :
  value_get (Object o) k = Some (Array l) →
  value_get (Object (array_push key v o)) k = Some (Array (if String.eqb k key then l ++ [v] else l)).
Proof.
  unfold value_get, array_push. induction o as [|[x y] o IH]; simpl; [done|].
  destruct (String.eqb_spec x key) as [->|Hk]; simpl.
  - destruct (String.eqb_spec key k) as [->|Hn]; simpl; [|exact IH]. intros [= ->]. by rewrite String.eqb_refl.
  - destruct (String.eqb_spec x k) as [->|Hn]; simpl; [|exact IH]. intros [= ->].
    destruct (String.eqb_spec k key); [done|done].
Qed.

Lemma column_json_ok r col : ∃ v, column_json env r false FJson col = Ok v.
Proof. unfold column_json. repeat (case_match; [by eexists|]). by eexists. Qed.

Lemma row_json_ok r columns event : ∃ o, row_json env r columns false FJson event = Ok o.
Proof.
  revert event. induction columns as [|col columns IH]; intros event; simpl; [by eexists|].
  destruct (column_json_ok r col) as [v ->]. simpl. apply IH.
Qed.

Definition event_json (columns : list string) (r : Row) : Value :=
  match row_json env r columns false FJson [] with Ok o => Object o | Err _ => Null end.

Lemma rows_to_json_ok rows columns : rows_to_json env rows columns false FJson = Ok (map (event_json columns) rows).
Proof.
  induction rows as [|r rows IH]; simpl; [done|]. unfold event_json at 1. destruct (row_json_ok r columns []) as [o ->].
  simpl. by rewrite IH.
Qed.

Lemma fill_ok rows slots : ∃ o, fill rows slots = Ok o ∧
  ∀ k l, value_get (Object slots) k = Some (Array l) →
    value_get (Object o) k = Some (Array (l ++ map (event_json batch_columns) (List.filter (λ r, String.eqb k (tx_of r)) rows))).
Proof.
  revert slots. induction rows as [|r rows IH]; intros slots.
  { exists slots. split; [done|]. intros k l. by rewrite app_nil_r. }
  cbn [fill]. rewrite rows_to_json_ok. cbn [map result_bind].
  destruct (IH (array_push (EventStore.c_tx_hash (cols r)) (event_json batch_columns r) slots)) as (o & -> & Ho).
  exists o. split; [done|]. intros k l Hk. rewrite (Ho _ _ (value_get_push _ _ _ _ _ Hk)). cbn [List.filter].
  change (EventStore.c_tx_hash (cols r)) with (tx_of r). destruct (String.eqb k (tx_of r)); [|done].
  cbn [map]. by rewrite <- app_assoc.
Qed.

Lemma slots_present hashes k o :
  k ∈ hashes ∨ value_get (Object o) k = Some (Array []) →
  value_get (Object (fold_left (λ o h, entry_insert h (Array []) o) hashes o)) k = Some (Array []).
Proof.
  revert o. induction hashes as [|h hashes IH]; intros o Hk; simpl.
  { destruct Hk as [Hk|Hk]; [by apply elem_of_nil in Hk|done]. }
  apply IH. rewrite value_get_insert. destruct (String.eqb_spec h k) as [->|Hn]; [by right|].
  destruct Hk as [Hk|Hk]; [left|by right]. by apply elem_of_cons in Hk as [->|].
Qed.

Lemma to_lowercase_length h : String.length (to_lowercase h) = String.length h.
Proof. induction h; simpl; congruence. Qed.

Lemma valid_hash_length h : validate_tx_hash h = Ok () → String.length h = 64%nat.
Proof. unfold validate_tx_hash. destruct (Nat.eqb_spec (String.length h) 64); [done|done]. Qed.

Definition sorted_newest : list Row → Prop := StronglySorted (cmp_le (cmp_on (sort_code (sql env) newest_first) code_cmp)).

Lemma sorted_batch rows : sorted_newest (order_by (sql env) (key "ASC" "tx_hash"%string :: newest_first) rows).
Proof.
  pose proof (sort_on_sorted (sort_code (sql env) (key "ASC" "tx_hash"%string :: newest_first)) code_cmp rows) as Hs.
  exact Hs.
Qed.

Hypothesis hash_order_perm : ∀ A (l : list A), hash_order A l ≡ₚ l.

Lemma all_valid_hashes hashes :
  Forall (λ h, validate_tx_hash h = Ok ()) hashes → List.filter (λ h, negb (is_ok (validate_tx_hash h))) hashes = [].
Proof. intros Hf. apply filter_none. intros h Hh. rewrite Forall_forall in Hf. by rewrite (Hf h Hh). Qed.

(** A batch of valid hashes is answered with one entry per hash, in lower case,
    that holds exactly the events of the transaction, newest first, and with
    the number of different hashes. *)
Theorem tx_batch_spec hashes s :
  healthy (pg env) → Z.of_nat (length hashes) ≤ batch_tx_max_size → Forall (λ h, validate_tx_hash h = Ok ()) hashes →
  ∃ o, (get_events_by_tx_batch hashes s).1 = Ok (Object o) ∧
    value_get (Object o) "deduplicated_count" = Some (json_z (Z.of_nat (length (remove_dups (map to_lowercase hashes))))) ∧
    ∀ h, h ∈ hashes → ∃ rows,
      value_get (Object o) (to_lowercase h) = Some (Array (map (event_json batch_columns) rows)) ∧
      rows ≡ₚ List.filter (λ r, String.eqb (to_lowercase h) (tx_of r)) (db s) ∧ sorted_newest rows.
Proof.
  intros Hh Hmax Hv. set (unique := unique_hashes hashes).
  assert (∀ h, h ∈ hashes → to_lowercase h ∈ unique) as Hin.
  { intros h Hx. unfold unique, unique_hashes. rewrite hash_order_perm. apply elem_of_remove_dups.
    by apply list_elem_of_fmap_2. }
  destruct (any_tx_select batch_columns (key "ASC" "tx_hash"%string :: newest_first) unique (db s)) as [Hn Hsel].
  pose proof (fetch_all_healthy env _ _ s Hh Hn) as Hf. rewrite Hsel in Hf. set (found := order_by _ _ _) in Hf.
  destruct (fill_ok found (fold_left (λ o h, entry_insert h (Array []) o) unique [])) as (o & Ho & Hget).
  exists (entry_insert "deduplicated_count" (json_z (Z.of_nat (length unique))) o). split_and!.
  - unfold get_events_by_tx_batch. rewrite (proj2 (Z.leb_le _ _) Hmax), all_valid_hashes by done.
    fold unique. unfold check. rewrite !bind_of_ok, (bind_ok _ _ _ _ _ Hf), Ho. done.
  - rewrite value_get_insert, String.eqb_refl. unfold unique, unique_hashes.
    by rewrite (Permutation_length (hash_order_perm _ _)).
  - intros h Hx. exists (List.filter (λ r, String.eqb (to_lowercase h) (tx_of r)) found). split_and!.
    + rewrite value_get_insert. destruct (String.eqb_spec "deduplicated_count" (to_lowercase h)) as [E|_].
      { rewrite Forall_forall in Hv. apply (f_equal String.length) in E.
        rewrite to_lowercase_length, (valid_hash_length h (Hv h Hx)) in E. done. }
      apply (Hget (to_lowercase h) []), slots_present. left. by apply Hin.
    + unfold found. transitivity (List.filter (λ r, String.eqb (to_lowercase h) (tx_of r))
        (List.filter (λ r, mem (tx_of r) unique) (db s))); [by apply bool_filter_perm, order_by_perm|].
      rewrite filter_twice. apply filter_perm_ext. intros r _. destruct (String.eqb_spec (to_lowercase h) (tx_of r)) as [E|]; [|by rewrite andb_false_r].
      by rewrite <- E, (proj2 (mem_elem _ _) (Hin h Hx)).
    + apply sorted_filter, sorted_batch.
Qed.

(** Neither the ledger nor the transactions of a request are narrowed to its
    tenant: whoever asks gets the events of all of them. *)
Theorem reads_cross_tenants r s :
  healthy (pg env) → r ∈ db s → validate_tx_hash (tx_of r) = Ok () → to_lowercase (tx_of r) = tx_of r →
  (∃ rows, (get_related_events_by_tx (tx_of r) (Some 0) s).1 = Ok (tx_of r, 0, rows) ∧ r ∈ rows) ∧
  (∀ hash p columns, EventStore.c_ledger_hash (cols r) = Some hash → resolve_columns p = Ok columns →
     ∃ o events, (get_events_by_ledger_hash hash p s).1 = Ok (Object o) ∧
       value_get (Object o) "data" = Some (Array events) ∧ event_json columns r ∈ events).
Proof.
  intros Hh Hr Hv Hl. split.
  - destruct (related_events_spec (tx_of r) (Some 0) s) as (rows & E & Hp); [done|by rewrite Hl|done|].
    exists rows. rewrite E, Hl. split; [done|]. rewrite Hp. apply list_elem_of_In, filter_In.
    split; [by apply list_elem_of_In|]. rewrite Hl. apply mem_elem, reach_incl. by left.
  - intros hash p columns Hash Hcols. unfold get_events_by_ledger_hash. rewrite Hcols, bind_of_ok.
    set (q := mkQuery _ _ _ _ _). rewrite (bind_ok _ _ _ _ _ (fetch_all_healthy env q [BText hash] s Hh eq_refl)).
    rewrite rows_to_json_ok. eexists _, _. split; [done|]. split; [done|]. apply list_elem_of_fmap_2.
    unfold select. cbn [q q_where q_order q_limit q_offset]. rewrite !count_at_none, order_by_perm. unfold matching.
    apply list_elem_of_In, filter_In. split; [by apply list_elem_of_In|]. cbn. rewrite andb_true_r.
    apply bool_decide_eq_true. change (BText <$> EventStore.c_ledger_hash (cols r) = Some (BText hash)). by rewrite Hash.
Qed.

(** *** The difference between two ledgers *)

Definition zsum (l : list Z) : Z := fold_right Z.add 0 l.

Lemma zsum_app l k : zsum (l ++ k) = zsum l + zsum k.
Proof. induction l; simpl; lia. Qed.

Lemma zsum_perm l k : l ≡ₚ k → zsum l = zsum k.
Proof. induction 1; simpl; lia. Qed.

Definition group_of (c : string) (g : string * string * Z) : bool := String.eqb g.1.1 c.

Definition counts (l : list (string * string * Z)) : gmap string Z := fold_left (λ m g, <[g.1.2 := g.2]> m) l ∅.

(** What the groups say of a contract. *)
Definition diff_of (c : string) (gs : list (string * string * Z)) : option ContractDiff :=
  match List.filter (group_of c) gs with
  | [] => None
  | l => Some (mkDiff c (counts l) (zsum (map snd l)))
  end.

Lemma add_groups_lookup gs c : fold_left add_group gs ∅ !! c = diff_of c gs.
Proof.
  induction gs as [|[[c' t] n] gs IH] using rev_ind; [done|]. rewrite fold_left_app. cbn [fold_left].
  assert (diff_of c (gs ++ [(c', t, n)]) =
          if String.eqb c' c then Some (mkDiff c (<[t := n]> (d_event_counts (default (mkDiff c ∅ 0) (diff_of c gs))))
                                          (d_total (default (mkDiff c ∅ 0) (diff_of c gs)) + n))
          else diff_of c gs) as ->.
  { unfold diff_of. rewrite List.filter_app. cbn [List.filter]. change (group_of c (c', t, n)) with (String.eqb c' c).
    destruct (String.eqb_spec c' c); [|by rewrite app_nil_r].
    destruct (List.filter (group_of c) gs) as [|g l]; cbn [app default d_event_counts d_total from_option id].
    - unfold counts. cbn. f_equal. f_equal. lia.
    - rewrite (app_comm_cons l [(c', t, n)] g). unfold counts. rewrite fold_left_app, map_app, zsum_app. cbn.
      f_equal. f_equal. lia. }
  unfold add_group at 1. destruct (String.eqb_spec c' c) as [->|Hne].
  - rewrite lookup_insert_eq, IH. f_equal. f_equal. destruct (diff_of c gs) as [d|] eqn:E; [|done].
    unfold diff_of in E. destruct (List.filter _ gs); [done|]. by injection E as <-.
  - by rewrite lookup_insert_ne.
Qed.

Definition in_group (k : string * string) (r : Row) : bool := bool_decide (group_key r = k).

Definition size (k : string * string) (rows : list Row) : Z := Z.of_nat (length (List.filter (in_group k) rows)).
Definition one_if (b : bool) : Z := if b then 1 else 0.

Lemma zsum_plus {A} (f g : A → Z) l : zsum (map (λ x, f x + g x) l) = zsum (map f l) + zsum (map g l).
Proof. induction l; simpl; lia. Qed.

Lemma zsum_ext {A} (f g : A → Z) l : (∀ x, f x = g x) → zsum (map f l) = zsum (map g l).
Proof. intros E. induction l; simpl; [done|]. by rewrite E, IHl. Qed.

(** A key is counted once among distinct keys. *)
Lemma one_key (P : string * string → bool) ks k :
  NoDup ks → zsum (map (λ k', one_if (bool_decide (k = k'))) (List.filter P ks)) = one_if (bool_decide (k ∈ ks) && P k).
Proof.
  induction 1 as [|x ks Hx Hnd IH]; [done|]. cbn [List.filter].
  assert (bool_decide (k ∈ x :: ks) = bool_decide (k = x) || bool_decide (k ∈ ks)) as ->.
  { apply Bool.eq_iff_eq_true. rewrite orb_true_iff, !bool_decide_eq_true. apply elem_of_cons. }
  destruct (decide (k = x)) as [->|Hne].
  - rewrite (bool_decide_eq_true_2 (x = x)) by done. rewrite (bool_decide_eq_false_2 (x ∈ ks)) in IH by done.
    destruct (P x); simpl in *; [|done]. rewrite bool_decide_eq_true_2 by done. simpl. lia.
  - rewrite (bool_decide_eq_false_2 (k = x)) by done. destruct (P x); [|done]. simpl.
    by rewrite bool_decide_eq_false_2, IH by done.
Qed.

(** Every row is counted by exactly one of the distinct keys. *)
Lemma group_sizes (P : string * string → bool) ks rows :
  NoDup ks → (∀ r, r ∈ rows → group_key r ∈ ks) →
  zsum (map (λ k, size k rows) (List.filter P ks)) = Z.of_nat (length (List.filter (λ r, P (group_key r)) rows)).
Proof.
  intros Hnd. induction rows as [|r rows IH]; intros Hin.
  { induction (List.filter P ks) as [|k l IH]; [done|]. exact IH. }
  rewrite (zsum_ext _ (λ k, size k rows + one_if (bool_decide (group_key r = k)))).
  - rewrite zsum_plus, IH by (intros x Hx; apply Hin; by right). rewrite one_key by done.
    rewrite bool_decide_eq_true_2 by (apply Hin; by left). cbn [List.filter andb].
    destruct (P (group_key r)); cbn [one_if length]; lia.
  - intros k. unfold size, in_group. cbn [List.filter]. destruct (bool_decide (group_key r = k)); cbn [one_if length]; lia.
Qed.

Lemma counts_lookup l t :
  NoDup (map (λ g, g.1.2) l) → counts l !! t = snd <$> List.find (λ g, String.eqb g.1.2 t) l.
Proof.
  unfold counts. assert (∀ m : gmap string Z, NoDup (map (λ g, g.1.2) l) →
    fold_left (λ m g, <[g.1.2 := g.2]> m) l m !! t =
      match List.find (λ g : string * string * Z, String.eqb g.1.2 t) l with Some g => Some g.2 | None => m !! t end) as H.
  { induction l as [|[[c t'] n] l IH]; intros m Hnd; simpl; [done|]. inversion_clear Hnd as [|? ? Hn Hnd']. rewrite IH by done.
    destruct (String.eqb_spec t' t) as [->|Hne].
    - destruct (List.find _ l) as [g|] eqn:E; [|by rewrite lookup_insert_eq]. exfalso. apply Hn.
      apply find_some in E as [Hg E%String.eqb_eq]. simpl in E. rewrite <- E. apply list_elem_of_In.
      by apply (in_map (λ g : string * string * Z, g.1.2)).
    - destruct (List.find _ l); [done|]. by rewrite lookup_insert_ne. }
  intros Hnd. rewrite H by done. destruct (List.find _ l); [done|]. apply lookup_empty.
Qed.

#[local] Instance by_total_total : Total (cmp_le by_total).
Proof. intros a b. unfold cmp_le, cmp_leb, by_total. destruct (Z.compare_spec (d_total b) (d_total a)), (Z.compare_spec (d_total a) (d_total b)); auto; lia. Qed.

Lemma by_total_le a b : cmp_le by_total a b ↔ d_total b ≤ d_total a.
Proof. unfold cmp_le, cmp_leb, by_total. destruct (Z.compare_spec (d_total b) (d_total a)); split; try done; lia. Qed.

#[local] Instance by_total_trans : Transitive (cmp_le by_total).
Proof. intros a b c. rewrite !by_total_le. lia. Qed.

Definition of_contract (c : string) (r : Row) : bool := String.eqb (EventStore.c_contract_id (cols r)) c.

(** The number of the events of a type, [None] for none. *)
Definition type_count (t : string) (rows : list Row) : option Z :=
  match List.filter (λ r, String.eqb (EventStore.c_event_type (cols r)) t) rows with
  | [] => None
  | l => Some (Z.of_nat (length l))
  end.

Lemma count_groups_elem rows k n :
  (k, n) ∈ count_groups rows ↔ (∃ r, r ∈ rows ∧ group_key r = k) ∧ n = size k rows.
Proof.
  unfold count_groups. rewrite list_elem_of_fmap. setoid_rewrite elem_of_remove_dups. setoid_rewrite list_elem_of_fmap.
  split.
  - intros (k' & [= -> ->] & r & -> & Hr). split; [by exists r|done].
  - intros [(r & Hr & <-) ->]. exists (group_key r). split; [done|]. by exists r.
Qed.

Lemma count_groups_keys rows : map fst (count_groups rows) = remove_dups (map group_key rows).
Proof. unfold count_groups. rewrite map_map. apply map_id. Qed.

(** The groups [l] of a contract, by type. *)
Lemma group_counts c t rows l :
  NoDup (map fst l) →
  (∀ g, g ∈ l ↔ (∃ r, r ∈ rows ∧ group_key r = g.1) ∧ g.1.1 = c ∧ g.2 = size g.1 rows) →
  counts l !! t = type_count t (List.filter (of_contract c) rows).
Proof.
  intros Hnd Hl.
  assert (List.filter (λ r, String.eqb (EventStore.c_event_type (cols r)) t) (List.filter (of_contract c) rows) =
          List.filter (in_group (c, t)) rows) as E.
  { rewrite filter_twice. apply List.filter_ext. intros r. unfold of_contract, in_group, group_key.
    apply Bool.eq_iff_eq_true. rewrite andb_true_iff, !String.eqb_eq, bool_decide_eq_true. split; [intros [-> ->]|intros [= -> ->]]; done. }
  unfold type_count. rewrite E, counts_lookup.
  - destruct (List.find _ l) as [g|] eqn:Ef; cbn [fmap option_fmap option_map].
    + apply find_some in Ef as [Hg Ht%String.eqb_eq]. apply list_elem_of_In, Hl in Hg as ((r & Hr & Hk) & Hc & Hn).
      destruct g as [[c' t'] n]. simpl in *. subst c' t' n. fold (size (c, t) rows). unfold size.
      destruct (List.filter (in_group (c, t)) rows) eqn:Ee; [|done]. exfalso.
      assert (r ∈ List.filter (in_group (c, t)) rows) as Hin
        by (apply list_elem_of_In, filter_In; split; [by apply list_elem_of_In|by apply bool_decide_eq_true]).
      rewrite Ee in Hin. by apply elem_of_nil in Hin.
    + destruct (List.filter (in_group (c, t)) rows) as [|r rs] eqn:Ee; [done|]. exfalso.
      assert (r ∈ List.filter (in_group (c, t)) rows) as Hin by (rewrite Ee; by left).
      apply list_elem_of_In, filter_In in Hin as [Hr Hk%bool_decide_eq_true].
      eapply List.find_none in Ef; [|apply list_elem_of_In; apply (Hl ((c, t), size (c, t) rows)); split_and!; [|done|done];
        exists r; split; [by apply list_elem_of_In|done]]. simpl in Ef. by rewrite String.eqb_refl in Ef.
  - assert (∀ g, g ∈ l → g.1.1 = c) as Hc by (intros g Hg; by apply Hl in Hg as (_ & ? & _)).
    clear Hl E. induction l as [|g l IH]; [constructor|]. cbn [map] in *. apply NoDup_cons in Hnd as [Hg Hnd].
    apply NoDup_cons. split; [|apply IH; [done|intros g' Hg'; apply Hc; by right]].
    intros (g' & Eg & Hg')%list_elem_of_fmap. apply Hg, list_elem_of_fmap. exists g'. split; [|done].
    pose proof (Hc g ltac:(left)) as H1. pose proof (Hc g' ltac:(by right)) as H2. destruct g as [[] ?], g' as [[] ?]. simpl in *. congruence.
Qed.

(** The groups of a contract add up to its events. *)
Lemma diff_of_groups c gs rows :
  gs ≡ₚ count_groups rows →
  match diff_of c gs with
  | None => List.filter (of_contract c) rows = []
  | Some d => d_contract_id d = c ∧ 0 < d_total d ∧ d_total d = Z.of_nat (length (List.filter (of_contract c) rows)) ∧
              ∀ t, d_event_counts d !! t = type_count t (List.filter (of_contract c) rows)
  end.
Proof.
  intros Hg. assert (NoDup (remove_dups (map group_key rows))) as Hnd by apply NoDup_remove_dups.
  assert (zsum (map snd (List.filter (group_of c) gs)) = Z.of_nat (length (List.filter (of_contract c) rows))) as Hsum.
  { rewrite (zsum_perm _ (map snd (List.filter (group_of c) (count_groups rows)))).
    - unfold count_groups. rewrite filter_map, map_map. apply (group_sizes (λ k, String.eqb k.1 c) _ rows Hnd).
      intros r Hr. by apply elem_of_remove_dups, list_elem_of_fmap_2.
    - by apply Permutation_map, bool_filter_perm. }
  assert (∀ g, g ∈ List.filter (group_of c) gs ↔ (∃ r, r ∈ rows ∧ group_key r = g.1) ∧ g.1.1 = c ∧ 
            g.2 = size g.1 rows) as Helem.
  { intros [k n]. rewrite list_elem_of_In, filter_In, <- list_elem_of_In, Hg, count_groups_elem. unfold group_of. rewrite String.eqb_eq.
    simpl. tauto. }
  assert (NoDup (map fst (List.filter (group_of c) gs))) as Hkeys.
  { eapply sublist_NoDup; [|apply (fmap_sublist fst), bool_filter_sublist].
    change (NoDup (map fst gs)). by rewrite (Permutation_map fst Hg), count_groups_keys. }
  assert (∀ r, r ∈ rows → of_contract c r = true → (group_key r, size (group_key r) rows) ∈ List.filter (group_of c) gs) as Hin.
  { intros r Hr Hc. apply Helem. split_and!; [by exists r|by apply String.eqb_eq|done]. }
  unfold diff_of. destruct (List.filter (group_of c) gs) as [|g l] eqn:El.
  - apply filter_none. intros r Hr. apply not_true_iff_false. intros Hc. specialize (Hin r Hr Hc). by apply elem_of_nil in Hin.
  - cbn [d_contract_id d_total d_event_counts]. assert (∃ r, r ∈ List.filter (of_contract c) rows) as [r0 Hr0].
    { destruct (proj1 (Helem g) ltac:(left)) as ((r & Hr & Hk) & Hc & _). exists r. apply list_elem_of_In, filter_In.
      split; [by apply list_elem_of_In|]. unfold of_contract. apply String.eqb_eq. by rewrite <- Hc, <- Hk. }
    split_and!; [done| |done|].
    + rewrite Hsum. destruct (List.filter (of_contract c) rows); [by apply elem_of_nil in Hr0|simpl; lia].
    + intros t. by apply group_counts.
Qed.


(** The difference between two ledgers lists every contract with events in the
    range once, the busiest first, with the number of its events and their
    numbers by type. *)
Theorem diff_spec from to s :
  healthy (pg env) → 0 ≤ from < to → to - from ≤ max_ledger_range →
  let rows := List.filter (in_ledgers from to) (db s) in
  ∃ contracts, (get_events_diff from to s).1 = Ok (from, to, contracts) ∧
    NoDup (map d_contract_id contracts) ∧ StronglySorted (λ a b, d_total b ≤ d_total a) contracts ∧
    (∀ r, r ∈ rows → EventStore.c_contract_id (cols r) ∈ map d_contract_id contracts) ∧
    ∀ d, d ∈ contracts →
      0 < d_total d ∧ d_total d = Z.of_nat (length (List.filter (of_contract (d_contract_id d)) rows)) ∧
      ∀ t, d_event_counts d !! t = type_count t (List.filter (of_contract (d_contract_id d)) rows).
Proof.
  intros Hh [Hf Ht] Hmax rows. set (groups := hash_order _ (count_groups rows)).
  set (m := fold_left add_group groups ∅).
  assert (∀ c, match m !! c with
    | None => List.filter (of_contract c) rows = []
    | Some d => d_contract_id d = c ∧ 0 < d_total d ∧ d_total d = Z.of_nat (length (List.filter (of_contract c) rows)) ∧
              ∀ t, d_event_counts d !! t = type_count t (List.filter (of_contract c) rows)
    end) as Hm.
  { intros c. unfold m. rewrite add_groups_lookup. apply diff_of_groups, hash_order_perm. }
  exists (Prelude.sort_by by_total (hash_order _ (map snd (map_to_list m)))).
  assert (Prelude.sort_by by_total (hash_order _ (map snd (map_to_list m))) ≡ₚ map snd (map_to_list m)) as Hp
    by (rewrite sort_by_permutation; apply hash_order_perm).
  assert (map d_contract_id (map snd (map_to_list m)) = map fst (map_to_list m)) as Hids.
  { rewrite map_map. apply map_ext_in. intros [c d] Hcd%list_elem_of_In%elem_of_map_to_list. specialize (Hm c).
    rewrite Hcd in Hm. apply Hm. }
  split_and!.
  - unfold get_events_diff, check. rewrite !(proj2 (Z.leb_le _ _)), (proj2 (Z.ltb_lt _ _)), !bind_of_ok by lia.
    rewrite (bind_ok _ _ s groups (mkSt (db s) (S (ops s)) (trace s))); [done|]. by apply stmt_healthy.
  - rewrite (Permutation_map d_contract_id Hp), Hids. apply NoDup_fst_map_to_list.
  - apply (StronglySorted_impl (cmp_le by_total)); [intros a b; apply by_total_le|]. apply StronglySorted_merge_sort; apply _.
  - intros r Hr. rewrite (Permutation_map d_contract_id Hp), Hids. specialize (Hm (EventStore.c_contract_id (cols r))).
    destruct (m !! _) as [d|] eqn:E.
    + apply list_elem_of_fmap. exists (EventStore.c_contract_id (cols r), d). split; [done|]. by apply elem_of_map_to_list.
    + exfalso. assert (r ∈ List.filter (of_contract (EventStore.c_contract_id (cols r))) rows) as Hin.
      { apply list_elem_of_In, filter_In. split; [by apply list_elem_of_In|apply String.eqb_refl]. }
      rewrite Hm in Hin. by apply elem_of_nil in Hin.
  - intros d Hd. rewrite Hp in Hd. apply list_elem_of_fmap in Hd as ([c d'] & -> & Hd%elem_of_map_to_list). specialize (Hm c).
    rewrite Hd in Hm. simpl. destruct Hm as (-> & ? & ? & ?). done.
Qed.

End EventsRead.

(** ** Concrete runs *)

Definition tx_a : string := "aaaaaaaaaaaaaaaaaaaaaaaaaaaaaaaaaaaaaaaaaaaaaaaaaaaaaaaaaaaaaaaa".
Definition tx_b : string := "bbbbbbbbbbbbbbbbbbbbbbbbbbbbbbbbbbbbbbbbbbbbbbbbbbbbbbbbbbbbbbbb".
Definition tx_c : string := "cccccccccccccccccccccccccccccccccccccccccccccccccccccccccccccccc".

Definition demo_event (id ledger : Z) (contract typ tx : string) (data : Value) (tenant : option string) : Row :=
  mkRow (EventStore.mkRow id 0 (EventStore.mkColumns contract typ tx ledger 0 data (Some "h"%string) true None tenant "" None None ""
           None None None None None)) None 0 false.

(** The first transaction refers to the second, and the second to both others. *)
Definition demo_rows : list Row :=
  [demo_event 1 5 "C1" "contract" tx_a (Object [("value", Object [("parent_tx_hash", VString tx_b)])]) (Some "acme");
   demo_event 2 6 "C1" "system" tx_b (Object [("topic", Array [Object [("tx_hash", VString tx_a)]]); ("tx_hash", VString tx_c)])
     (Some "globex");
   demo_event 3 7 "C2" "contract" tx_c Null None; demo_event 4 8 "C1" "contract" tx_b Null None]%string.

Definition demo_state : St (list Row) Ev := mkSt demo_rows 0 [].

Definition same_order (A : Type) (l : list A) : list A := l.

Lemma related_events_spec_witness :
  ∃ rows, (get_related_events_by_tx demo_env (to_lowercase tx_a) None demo_state).1 = Ok (tx_a, 1, rows) ∧
    rows ≡ₚ [demo_event 1 5 "C1" "contract" tx_a (Object [("value", Object [("parent_tx_hash", VString tx_b)])]) (Some "acme");
             demo_event 2 6 "C1" "system" tx_b (Object [("topic", Array [Object [("tx_hash", VString tx_a)]]); ("tx_hash", VString tx_c)])
               (Some "globex"); demo_event 4 8 "C1" "contract" tx_b Null None]%string.
Proof. apply (related_events_spec demo_env tx_a None demo_state); [done|by vm_compute|by vm_compute]. Defined.

Lemma tx_batch_spec_witness :
  ∃ o, (get_events_by_tx_batch demo_env same_order 100 [tx_b; tx_c; tx_b] demo_state).1 = Ok (Object o) ∧
    value_get (Object o) "deduplicated_count" = Some (json_z 2) ∧
    ∀ h, h ∈ [tx_b; tx_c; tx_b] → ∃ rows,
      value_get (Object o) (to_lowercase h) = Some (Array (map (event_json demo_env batch_columns) rows)) ∧
      rows ≡ₚ List.filter (λ r, String.eqb (to_lowercase h) (tx_of r)) demo_rows ∧ sorted_newest demo_env rows.
Proof.
  apply (tx_batch_spec demo_env same_order 100 ltac:(done) [tx_b; tx_c; tx_b] demo_state); [done|done|].
  repeat constructor; by vm_compute.
Defined.

Lemma reads_cross_tenants_witness :
  let r := demo_event 2 6 "C1" "system" tx_b (Object [("topic", Array [Object [("tx_hash", VString tx_a)]]); ("tx_hash", VString tx_c)])
             (Some "globex") in
  ∃ rows, (get_related_events_by_tx demo_env tx_b (Some 0) demo_state).1 = Ok (tx_b, 0, rows) ∧ r%string ∈ rows.
Proof.
  apply (reads_cross_tenants demo_env (demo_event 2 6 "C1" "system" tx_b
    (Object [("topic", Array [Object [("tx_hash", VString tx_a)]]); ("tx_hash", VString tx_c)]) (Some "globex"))%string demo_state);
    [done|by right; left|by vm_compute|by vm_compute].
Defined.

Lemma diff_spec_witness :
  ∃ contracts, (get_events_diff demo_env same_order 1000 5 7 demo_state).1 = Ok (5, 7, contracts) ∧
    NoDup (map d_contract_id contracts) ∧ StronglySorted (λ a b, d_total b ≤ d_total a) contracts.
Proof.
  destruct (diff_spec demo_env same_order 1000 ltac:(done) 5 7 demo_state ltac:(done) ltac:(lia) ltac:(lia))
    as (contracts & H1 & H2 & H3 & _). exists contracts. split; [exact H1|split; [exact H2|exact H3]].
Defined.

Lemma recent_never_served_witness :
  (get_recent_events demo_env (mkRecent None None None None None None) demo_state).1 =
    Err (Database "no column found for name: event_data_normalized").
Proof. apply (recent_never_served demo_env (mkRecent None None None None None None) None demo_state); done. Defined.

End EventsRead.
