(* ===== verification/EventsExport.v ===== *)
(** Exports and feeds of events (handlers/events.rs [export_events],
    [get_events_feed], [get_temporal_events], [batch_query_events]; the CSV and
    XML escaping of handlers/mod.rs).

    [csv_parse] is a reader of RFC 4180 against which the writer is proved.
    Compression, Parquet and the parser of [field_map] are parameters. *)

From S2P Require Import Prelude Text Model Pg EventStore ApiParams EventsQuery EventsRead.

Module EventsExport.
Import ApiParams EventsQuery EventsRead.

(** ** Text *)

Definition newline : ascii := ascii_of_nat 10.
Definition carriage_return : ascii := ascii_of_nat 13.
Definition dquote : ascii := ascii_of_nat 34.
Definition line_end : string := String newline EmptyString.

(** [str::replace] of a character. *)
Fixpoint replace_char (c : ascii) (t s : string) : string :=
  match s with
  | EmptyString => EmptyString
  | String a r => if Ascii.eqb a c then (t +:+ replace_char c t r)%string else String a (replace_char c t r)
  end.

Definition csv_special (a : ascii) : bool :=
  Ascii.eqb a "," || Ascii.eqb a dquote || Ascii.eqb a newline || Ascii.eqb a carriage_return.

Definition csv_escape_field (value : string) : string :=
  if string_forallb (λ a, negb (csv_special a)) value then value
  else (quote +:+ replace_char dquote (quote +:+ quote)%string value +:+ quote)%string.

(** [push_str] of each. *)
Definition concat_strings (l : list string) : string := foldr String.append EmptyString l.

Definition csv_line (values : list string) : string := (join "," values +:+ line_end)%string.

Definition escape_xml (value : string) : string :=
  replace_char "'" "&apos;" (replace_char dquote "&quot;" (replace_char ">" "&gt;"
    (replace_char "<" "&lt;" (replace_char "&" "&amp;" value)))).

(** ** Export *)

Section Export.
Variable env : Env.
Variable hash_order : ∀ A, list A → list A.
Variable api_keys : list string.
Variable export_max_rows : Z.
(** serde_json's reading of an object of strings. *)
Variable parse_map : string → option (gmap string string).
Variables compress_gzip compress_brotli : string → result string AppError.

Local Abbreviation M := (Pg.M (list Row) Ev AppError).

(** A query that ends in [LIMIT limit]: a negative number of rows is refused. *)
Definition fetch_limited (q : Query) (binds : list Bind) (limit : Z) : M (list Row) :=
  stmt (pg env) (λ _ rows,
    let n := Z.of_nat (length binds) in
    if negb (n =? query_params q) then Err (mismatch n (query_params q))
    else if limit <? 0 then Err "LIMIT must not be negative"%string
    else Ok (select (sql env) q binds rows, rows)).

Record ExportParams : Type := mkExport {
  ex_event_type : option EventType;
  ex_from_ledger : option Z;
  ex_to_ledger : option Z;
  ex_contract_id : option string;
  ex_format : option string;
  ex_field_map : option string;
  ex_from_timestamp : option Z;
  ex_to_timestamp : option Z;
}.

Definition export_conditions (p : ExportParams) : list Cond * Z :=
  fold_left push [(present (ex_contract_id p), KEq "contract_id"); (present (ex_event_type p), KEq "event_type");
                  (present (ex_from_ledger p), KGe "ledger"); (present (ex_to_ledger p), KLe "ledger");
                  (present (ex_from_timestamp p), KGe "timestamp"); (present (ex_to_timestamp p), KLe "timestamp")]%string
    ([], 1).

(** The binds of the count query, and those of the export before its limit. *)
Definition export_count_binds (p : ExportParams) : list Bind :=
  bind1 (BText <$> ex_contract_id p) ++ bind1 ((λ t, BText (event_type_str t)) <$> ex_event_type p) ++
  bind1 (BI64 <$> ex_from_ledger p) ++ bind1 (BI64 <$> ex_to_ledger p).

Definition export_binds (p : ExportParams) : list Bind :=
  export_count_binds p ++ bind1 (BTime <$> ex_from_timestamp p) ++ bind1 (BTime <$> ex_to_timestamp p).

Definition default_cols : list string :=
  ["id"; "contract_id"; "event_type"; "tx_hash"; "ledger"; "timestamp"; "event_data"; "created_at"]%string.

Definition export_query (p : ExportParams) : Query :=
  mkQuery default_cols (export_conditions p).1 [key "ASC" "ledger"; key "ASC" "id"]%string (Some (export_conditions p).2) None.

Definition before (a b : option Z) : bool :=
  match a, b with Some x, Some y => x <? y | _, _ => true end.

Definition validate_export (p : ExportParams) : result () AppError :=
  let? _ := check (non_empty api_keys) (Validation "export endpoint requires API key authentication") in
  let? _ := check (ordered (ex_from_ledger p) (ex_to_ledger p)) (Validation "from_ledger must be <= to_ledger") in
  let? _ := each (validate_ledger_param "from_ledger") (ex_from_ledger p) in
  let? _ := each (validate_ledger_param "to_ledger") (ex_to_ledger p) in
  check (before (ex_from_timestamp p) (ex_to_timestamp p)) (Validation "from_timestamp must be < to_timestamp").

Inductive ExportFormat : Type := Csv | Parquet | JsonLines.

Definition export_format (p : ExportParams) : result ExportFormat AppError :=
  let fmt := default "csv"%string (ex_format p) in
  if String.eqb fmt "csv" || is_empty fmt then Ok Csv
  else if String.eqb fmt "parquet" then Ok Parquet
  else if String.eqb fmt "jsonl" || String.eqb fmt "ndjson" then Ok JsonLines
  else Err (Validation ("unsupported format '" +:+ fmt +:+ "': use 'csv', 'parquet', or 'jsonl'")%string).

Definition field_map (p : ExportParams) : result (option (gmap string string)) AppError :=
  match ex_field_map p with
  | Some text =>
      let? m := ok_or (Validation "field_map must be a JSON object mapping source field names to target field names")
                  (parse_map text) in
      match List.find (λ f, negb (mem f ALLOWED_FIELDS)) (hash_order _ (map fst (map_to_list m))) with
      | Some f => Err (Validation ("unknown source field in field_map: " +:+ f)%string)
      | None => Ok (Some m)
      end
  | None => Ok None
  end.

Record Download : Type := mkDownload {
  content_type : string;
  filename : string;
  content_range : string;
  content_encoding : option string;
  body : string;
}.

(** The compression the client accepts, gzip first. *)
Definition encode_body (h : HeaderMap) (body : string) : result (string * option string) AppError :=
  let accept_encoding := default EmptyString (header_str "accept-encoding" h) in
  if contains "gzip" accept_encoding then let? b := compress_gzip body in Ok (b, Some "gzip"%string)
  else if contains "br" accept_encoding then let? b := compress_brotli body in Ok (b, Some "br"%string)
  else Ok (body, None).

Definition suffix (encoding : option string) : string :=
  match encoding with
  | Some e => if String.eqb e "gzip" then ".gz" else ".br"
  | None => ""
  end%string.

(** A field of the CSV, before and after it is escaped. *)
Definition csv_text (r : Row) (col : string) : string :=
  let c := cols r in
  if String.eqb col "id" then show_uuid env (row_id r)
  else if String.eqb col "contract_id" then EventStore.c_contract_id c
  else if String.eqb col "event_type" then EventStore.c_event_type c
  else if String.eqb col "tx_hash" then EventStore.c_tx_hash c
  else if String.eqb col "ledger" then show_i (EventStore.c_ledger c)
  else if String.eqb col "timestamp" then to_rfc3339 env (EventStore.c_timestamp c)
  else if String.eqb col "event_data" then to_string env (EventStore.c_event_data c)
  else to_rfc3339 env (EventStore.row_created_at (stored r)).

Definition csv_value (r : Row) (col : string) : string :=
  if String.eqb col "ledger" then csv_text r col else csv_escape_field (csv_text r col).

Definition header_names (fm : option (gmap string string)) : list string :=
  map (λ c, default c (fm ≫= (.!! c))) default_cols.

Definition csv_body (fm : option (gmap string string)) (rows : list Row) : string :=
  (csv_line (header_names fm) +:+ concat_strings (map (λ r, csv_line (map (csv_value r) default_cols)) rows))%string.

(** The JSON Lines body stays empty, and Parquet, a feature that is off, is CSV. *)
Definition export_events (p : ExportParams) (h : HeaderMap) : M Download :=
  of_result (validate_export p) ;;
  fmt ← of_result (export_format p);
  let max_rows := wrap_i 64 export_max_rows in
  rows ← fetch_limited (export_query p) (export_binds p ++ [BI64 max_rows]) max_rows;
  fm ← of_result (field_map p);
  total_count ← fetch_count env (export_conditions p).1 (export_count_binds p);
  let returned_count := Z.of_nat (length rows) in
  let content_range := ("items 0-" +:+ show_i (returned_count - 1) +:+ "/" +:+ show_i total_count)%string in
  match fmt with
  | JsonLines =>
      b ← of_result (encode_body h EmptyString);
      mret (mkDownload "application/x-ndjson" "events.jsonl" content_range b.2 b.1)
  | _ =>
      b ← of_result (encode_body h (csv_body fm rows));
      mret (mkDownload "text/csv" ("events.csv" +:+ suffix b.2)%string content_range b.2 b.1)
  end.

End Export.

(** ** The Atom feed *)

Section Feed.
Variable env : Env.

Local Abbreviation M := (Pg.M (list Row) Ev AppError).

#[export] Instance EventType_eq_dec : EqDecision EventType.
Proof. solve_decision. Defined.

(** The key of the cache: the text the code makes of it quotes and escapes its
    strings, so that it tells different requests apart. *)
Definition FeedKey : Type := option string * option string * option EventType * option Z * option Z * option Z.

Record CacheEntry : Type := mkEntry { data : string; expires_at : Z }.

Definition FeedCache : Type := list (FeedKey * CacheEntry).

Definition cache_get (k : FeedKey) (c : FeedCache) : option CacheEntry := snd <$> List.find (λ e, bool_decide (e.1 = k)) c.
Definition cache_insert (k : FeedKey) (e : CacheEntry) (c : FeedCache) : FeedCache := (k, e) :: c.

Definition cache_key (p : PaginationParams) (tenant : option string) : FeedKey :=
  (tenant, contract_id p, event_type p, from_ledger p, to_ledger p, limit_ p).

Definition feed_conditions (p : PaginationParams) (tenant : option string) : list Cond * Z :=
  fold_left push [(present (contract_id p), KEq "contract_id"); (present (event_type p), KEq "event_type");
                  (present (from_ledger p), KGe "ledger"); (present (to_ledger p), KLe "ledger");
                  (present tenant, KEq "tenant_id")]%string ([], 1).

Definition feed_binds (p : PaginationParams) (tenant : option string) : list Bind :=
  bind1 (BText <$> contract_id p) ++ bind1 ((λ t, BText (event_type_str t)) <$> event_type p) ++
  bind1 (BI64 <$> from_ledger p) ++ bind1 (BI64 <$> to_ledger p) ++ bind1 (BText <$> tenant).

Definition feed_order : list OrderKey :=
  [key "DESC" "ledger"; key_last "DESC" "tx_index"; key_last "DESC" "op_index"; key_last "DESC" "event_index";
   key "DESC" "id"]%string.

Definition feed_limit (p : PaginationParams) : Z := Z.min (limit p) 100.

Definition feed_query (p : PaginationParams) (tenant : option string) : Query :=
  mkQuery ["id"; "contract_id"; "event_type"; "tx_hash"; "ledger"; "timestamp"; "event_data"]%string
    (feed_conditions p tenant).1 feed_order (Some (feed_conditions p tenant).2) None.

Definition attr (s : string) : string := (quote +:+ s +:+ quote)%string.

Definition render_feed_entry (r : Row) : string :=
  let c := cols r in
  ("<entry><title>" +:+ escape_xml (EventStore.c_event_type c) +:+ " event for " +:+ escape_xml (EventStore.c_contract_id c) +:+
   "</title><id>urn:soroban-pulse:event:" +:+ show_uuid env (row_id r) +:+ "</id><updated>" +:+
   escape_xml (to_rfc3339 env (EventStore.c_timestamp c)) +:+ "</updated><summary type=" +:+ attr "html" +:+ ">ledger " +:+
   show_i (EventStore.c_ledger c) +:+ " tx " +:+ escape_xml (EventStore.c_tx_hash c) +:+ "</summary><content type=" +:+
   attr "application/json" +:+ ">" +:+ escape_xml (to_string env (EventStore.c_event_data c)) +:+ "</content></entry>")%string.

(** The feed of some rows, [updated] when the first was, or [now] if there is none. *)
Definition render_atom_feed (rows : list Row) (now : Z) : string :=
  let updated := to_rfc3339 env (match rows with r :: _ => EventStore.c_timestamp (cols r) | [] => now end) in
  ("<?xml version=" +:+ attr "1.0" +:+ " encoding=" +:+ attr "utf-8" +:+ "?><feed xmlns=" +:+
   attr "http://www.w3.org/2005/Atom" +:+
   "><title>Soroban Pulse Events</title><id>urn:soroban-pulse:events</id><updated>" +:+ escape_xml updated +:+ "</updated>" +:+
   concat_strings (map render_feed_entry rows) +:+ "</feed>")%string.

Definition sixty_seconds : Z := 60 * 1000 * 1000.

Definition fresh_feed (p : PaginationParams) (tenant : option string) (c : FeedCache) : M (string * FeedCache) :=
  rows ← fetch_all env (feed_query p tenant) (feed_binds p tenant ++ [BI64 (feed_limit p)]);
  t ← clock (pg env);
  let feed := render_atom_feed rows t in
  now ← clock (pg env);
  mret (feed, cache_insert (cache_key p tenant) (mkEntry feed (now + sixty_seconds)) c).

(** The answer and the cache after it; an error leaves the cache as it was. *)
Definition get_events_feed (p : PaginationParams) (tenant : option string) (c : FeedCache) : M (string * FeedCache) :=
  of_result (each validate_contract_id (contract_id p)) ;;
  of_result (each (validate_ledger_param "from_ledger") (from_ledger p)) ;;
  of_result (each (validate_ledger_param "to_ledger") (to_ledger p)) ;;
  of_result (check (ordered (from_ledger p) (to_ledger p)) (Validation "from_ledger must be <= to_ledger")) ;;
  match cache_get (cache_key p tenant) c with
  | Some e =>
      now ← clock (pg env);
      if now <? expires_at e then mret (data e, c) else fresh_feed p tenant c
  | None => fresh_feed p tenant c
  end.

End Feed.

(** ** A batch of queries *)

Section Batch.
Variable env : Env.
Variable batch_events_max_size : Z.
Variable new_v4 : nat → string.

Local Abbreviation M := (Pg.M (list Row) Ev AppError).

(** A query that ends in literal [LIMIT] and [OFFSET]. *)
Definition fetch_slice (q : Query) (binds : list Bind) (limit offset : Z) : M (list Row) :=
  stmt (pg env) (λ _ rows,
    let n := Z.of_nat (length binds) in
    if negb (n =? query_params q) then Err (mismatch n (query_params q))
    else if limit <? 0 then Err "LIMIT must not be negative"%string
    else if offset <? 0 then Err "OFFSET must not be negative"%string
    else Ok (take (Z.to_nat limit) (drop (Z.to_nat offset) (select (sql env) q binds rows)), rows)).

Record BatchEventFilter : Type := mkFilter {
  bf_contract_id : option string;
  bf_event_type : option string;
  bf_from_ledger : option Z;
  bf_to_ledger : option Z;
  bf_tx_hash : option string;
  bf_limit : option Z;
}.

Definition batch_conditions (f : BatchEventFilter) : list Cond :=
  (fold_left push [(present (bf_contract_id f), KEq "contract_id"); (present (bf_event_type f), KEq "event_type");
                   (present (bf_from_ledger f), KGe "ledger"); (present (bf_to_ledger f), KLe "ledger");
                   (present (bf_tx_hash f), KEq "tx_hash")]%string ([], 1)).1.

Definition batch_binds (f : BatchEventFilter) : list Bind :=
  bind1 (BText <$> bf_contract_id f) ++ bind1 (BText <$> bf_event_type f) ++ bind1 (BI64 <$> bf_from_ledger f) ++
  bind1 (BI64 <$> bf_to_ledger f) ++ bind1 (BText <$> bf_tx_hash f).

Definition batch_query (f : BatchEventFilter) : Query :=
  mkQuery default_cols (batch_conditions f) newest_first None None.

Definition batch_limit (f : BatchEventFilter) (remaining : Z) : Z := Z.min (Z.min (default 1000 (bf_limit f)) remaining) 10000.

Definition query_failed (e : AppError) : AppError :=
  match e with Database e => Internal ("Batch query failed: " +:+ e)%string | e => e end.

Definition map_err {E F A} (f : E → F) (m : Pg.M (list Row) Ev E A) : Pg.M (list Row) Ev F A := λ s,
  let '(r, s) := m s in (result_map_err f r, s).

Fixpoint batch_loop (max_total : Z) (filters : list BatchEventFilter) (all_events : list Value) : M (list Value) :=
  match filters with
  | [] => mret all_events
  | f :: rest =>
      let remaining := max_total - Z.of_nat (length all_events) in
      if remaining <=? 0 then mret all_events
      else
        rows ← map_err query_failed (fetch_slice (batch_query f) (batch_binds f) (batch_limit f remaining) 0);
        events ← of_result (rows_to_json env rows default_cols false FJson);
        batch_loop max_total rest (all_events ++ events)
  end.

(** [Value::as_i64]. *)
Definition as_i64 (v : Value) : option Z :=
  match v with
  | Number (PosInt n) => if n <=? i_max 64 then Some n else None
  | Number (NegInt n) => Some n
  | _ => None
  end.

Definition str_field (ev : Value) (name : string) : string := default EmptyString (value_get ev name ≫= as_str).

Definition batch_csv_line (ev : Value) : string :=
  csv_line [str_field ev "id"; str_field ev "contract_id"; str_field ev "event_type"; str_field ev "tx_hash";
            show_i (default 0 (value_get ev "ledger" ≫= as_i64)); str_field ev "timestamp"].

Inductive BatchResponse : Type :=
| BatchJson (job_id : string) (total : Z) (data : list Value)
| BatchCsv (job_id : string) (body : string).

Definition batch_query_events (filters : list BatchEventFilter) (format : string) : M BatchResponse :=
  of_result (check (0 <? length filters)%nat (Validation "filters array must not be empty")) ;;
  of_result (check (length filters <=? 100)%nat (Validation "Maximum 100 filter objects per batch request")) ;;
  let format := to_lowercase format in
  of_result (check (String.eqb format "json" || String.eqb format "csv") (Validation "format must be 'json' or 'csv'")) ;;
  job_id ← oracle (λ n, Ok (new_v4 n));
  all_events ← batch_loop (wrap_i 64 batch_events_max_size) filters [];
  mret (if String.eqb format "csv" : bool
        then BatchCsv job_id (csv_line ["id"; "contract_id"; "event_type"; "tx_hash"; "ledger"; "timestamp"] +:+
                              concat_strings (map batch_csv_line all_events))%string
        else BatchJson job_id (Z.of_nat (length all_events)) all_events).

End Batch.

(** ** Windows of time *)

Section Temporal.
Variable env : Env.
(** PostgreSQL's [date_trunc] on a unit and a time. *)
Variable date_trunc : string → Z → result Z string.
(** The first time chrono represents. *)
Variable min_utc : Z.

(** An error response, or a panic of the handler. *)
Inductive Failure : Type := App (e : AppError) | Panic.

#[local] Instance Failure_from_sqlx : FromSqlx Failure := λ e, App (Database e).

Local Abbreviation M := (Pg.M (list Row) Ev Failure).

Definition lift_app {A} (r : result A AppError) : M A := of_result (result_map_err App r).

Record TemporalParams : Type := mkTemporal {
  tp_since : option string;
  tp_before : option string;
  tp_from_timestamp : option string;
  tp_to_timestamp : option string;
  tp_contract_id : option string;
  tp_event_type : option EventType;
  tp_aggregate : option bool;
  tp_window : option string;
  tp_limit : option Z;
  tp_page : option Z;
}.

(** The text before the first letter, and from it. *)
Fixpoint split_at_letter (s : string) : option (string * string) :=
  match s with
  | EmptyString => None
  | String a r =>
      if is_lower a || is_upper a then Some (EmptyString, s)
      else (λ p, (String a p.1, p.2)) <$> split_at_letter r
  end.

Definition unit_seconds (u : string) : option Z :=
  if String.eqb u "s" then Some 1 else if String.eqb u "m" then Some 60 else if String.eqb u "h" then Some 3600
  else if String.eqb u "d" then Some 86400 else if String.eqb u "w" then Some 604800 else None.

(** A duration in microseconds; chrono's constructors panic on more than
    [i64::MAX] milliseconds. *)
Definition parse_relative_duration (expr : string) : result Z Failure :=
  let expr := trim expr in
  if is_empty expr then Err (App (Validation "relative time expression must not be empty"))
  else match split_at_letter expr with
  | None => Err (App (Validation ("invalid relative time expression '" +:+ expr +:+ "': missing unit (s/m/h/d/w)")%string))
  | Some (num_str, u) =>
      match parse_i 64 num_str with
      | None => Err (App (Validation ("invalid relative time expression '" +:+ expr +:+ "': '" +:+ num_str +:+
                                      "' is not a number")%string))
      | Some n =>
          if n <=? 0 then Err (App (Validation ("relative time value must be positive, got '" +:+ expr +:+ "'")%string))
          else match unit_seconds u with
               | Some k => if i_max 64 / 1000 <? n * k then Err Panic else Ok (n * k * 1000000)
               | None => Err (App (Validation ("unknown time unit '" +:+ u +:+ "' in '" +:+ expr +:+
                                               "': use s, m, h, d, or w")%string))
               end
      end
  end.

(** [now - dur]. *)
Definition ago (now : Z) (expr : string) : result Z Failure :=
  let? dur := parse_relative_duration expr in
  if now - dur <? min_utc then Err Panic else Ok (now - dur).

(** A bound of the window, from its relative or its absolute form. *)
Definition bound (now : Z) (relative absolute : option string) (both : string) : result (option Z) Failure :=
  match relative with
  | Some expr =>
      let? _ := result_map_err App (check (negb (present absolute)) (Validation both)) in
      let? t := ago now expr in Ok (Some t)
  | None => result_map_err App (parse_ts env absolute)
  end.

Definition window (now : Z) (p : TemporalParams) : result (Z * Z) Failure :=
  let? from := bound now (tp_since p) (tp_from_timestamp p) "'since' and 'from_timestamp' are mutually exclusive" in
  let? from := ok_or (App (Validation "either 'since' or 'from_timestamp' is required")) from in
  let? to := bound now (tp_before p) (tp_to_timestamp p) "'before' and 'to_timestamp' are mutually exclusive" in
  let to := default now to in
  let? _ := result_map_err App (check (from <? to) (Validation "start of window must be before end of window")) in
  Ok (from, to).

Definition interval (p : TemporalParams) : result string AppError :=
  let w := default "1h"%string (tp_window p) in
  if String.eqb w "1m" then Ok "1 minute"%string else if String.eqb w "5m" then Ok "5 minutes"%string
  else if String.eqb w "1h" then Ok "1 hour"%string else if String.eqb w "1d" then Ok "1 day"%string
  else Err (Validation ("invalid window '" +:+ w +:+ "': use 1m, 5m, 1h, or 1d")%string).

Definition temporal_conditions (p : TemporalParams) : list Cond :=
  (fold_left push [(present (tp_contract_id p), KEq "contract_id"); (present (tp_event_type p), KEq "event_type")]%string
    ([mkCond (KGe "timestamp") 1; mkCond (KLe "timestamp") 2], 3)).1.

Definition temporal_binds (from to : Z) (p : TemporalParams) : list Bind :=
  [BTime from; BTime to] ++ bind1 (BText <$> tp_contract_id p) ++
  bind1 ((λ t, BText (event_type_str t)) <$> tp_event_type p).

Record Bucket : Type := mkBucket { bucket_start : Z; event_count : Z; contract_count : Z }.

Fixpoint starts (u : string) (rows : list Row) : result (list (Z * Row)) string :=
  match rows with
  | [] => Ok []
  | r :: rest =>
      let? t := date_trunc u (EventStore.c_timestamp (cols r)) in
      let? l := starts u rest in
      Ok ((t, r) :: l)
  end.

(** [GROUP BY date_trunc(..) ORDER BY bucket_start ASC], with the events and the contracts of each. *)
Definition buckets (l : list (Z * Row)) : list Bucket :=
  map (λ t, let rows := map snd (List.filter (λ x, x.1 =? t) l) in
            mkBucket t (Z.of_nat (length rows))
              (Z.of_nat (length (remove_dups (map (λ r, EventStore.c_contract_id (cols r)) rows)))))
    (Prelude.sort_by Z.compare (remove_dups (map fst l))).

Definition temporal_columns : list string :=
  ["id"; "contract_id"; "event_type"; "tx_hash"; "ledger"; "timestamp"; "event_data"; "event_data_normalized";
   "event_data_decoded"; "ledger_hash"; "in_successful_call"; "created_at"; "schema_version"; "anonymized"; "fingerprint";
   "total_count"]%string.

(** A slice of what a statement computes from the matching rows. *)
Definition fetch_grouped {A} (conds : list Cond) (binds : list Bind) (limit offset : Z)
    (f : list Row → result (list A) string) : M (list A) :=
  stmt (pg env) (λ _ rows,
    let n := Z.of_nat (length binds) in
    if negb (n =? conds_params conds) then Err (mismatch n (conds_params conds))
    else if limit <? 0 then Err "LIMIT must not be negative"%string
    else if offset <? 0 then Err "OFFSET must not be negative"%string
    else let? l := f (matching (sql env) conds binds rows) in
         Ok (take (Z.to_nat limit) (drop (Z.to_nat offset) l), rows)).

Definition get_temporal_events (p : TemporalParams) : M (Z * Z * list Row * list Bucket) :=
  now ← clock (pg env);
  ft ← of_result (window now p);
  let '(from, to) := ft in
  lift_app (each validate_contract_id (tp_contract_id p)) ;;
  let limit := clamp 1 1000 (default 100 (tp_limit p)) in
  let page := Z.max (default 1 (tp_page p)) 1 in
  let offset := wrap_i 64 ((page - 1) * limit) in
  let binds := temporal_binds from to p in
  if default false (tp_aggregate p) then
    u ← lift_app (interval p);
    l ← fetch_grouped (temporal_conditions p) binds limit offset (λ rows, let? l := starts u rows in Ok (buckets l));
    mret (from, to, [], l)
  else
    rows ← fetch_grouped (temporal_conditions p) binds limit offset
             (λ rows, Ok (order_by (sql env) [key "DESC" "timestamp"%string] rows));
    rows ← lift_app (result_map_err Database (from_rows temporal_columns rows));
    mret (from, to, map (as_event temporal_columns) rows, []).

End Temporal.

(** *** Readers *)

Inductive CsvState : Type := Start | Plain | Quoted | Closed.

(** RFC 4180: records end with a newline; a field that begins with a quote ends
    with one, and holds its quotes doubled. *)
Fixpoint csv_read (s : string) (st : CsvState) (field : string) (record : list string) (records : list (list string)) :
    option (list (list string)) :=
  match s with
  | EmptyString => match st, record with Start, [] => Some records | _, _ => None end
  | String a r =>
      let put := (field +:+ String a EmptyString)%string in
      match st with
      | Quoted => if Ascii.eqb a dquote then csv_read r Closed field record records else csv_read r Quoted put record records
      | _ =>
          if Ascii.eqb a "," then csv_read r Start EmptyString (record ++ [field]) records
          else if Ascii.eqb a newline then csv_read r Start EmptyString [] (records ++ [record ++ [field]])
          else if Ascii.eqb a carriage_return then None
          else if Ascii.eqb a dquote then
            match st with
            | Start => csv_read r Quoted EmptyString record records
            | Closed => csv_read r Quoted put record records
            | _ => None
            end
          else match st with Closed => None | _ => csv_read r Plain put record records end
      end
  end.

Definition csv_parse (s : string) : option (list (list string)) := csv_read s Start EmptyString [] [].

(** The text an XML reader makes of character data with the predefined entities. *)
Fixpoint xml_read (s : string) : option string :=
  match s with
  | EmptyString => Some EmptyString
  | String "&" (String "a" (String "m" (String "p" (String ";" r)))) => String "&" <$> xml_read r
  | String "&" (String "l" (String "t" (String ";" r))) => String "<" <$> xml_read r
  | String "&" (String "g" (String "t" (String ";" r))) => String ">" <$> xml_read r
  | String "&" (String "q" (String "u" (String "o" (String "t" (String ";" r))))) => String dquote <$> xml_read r
  | String "&" (String "a" (String "p" (String "o" (String "s" (String ";" r))))) => String "'" <$> xml_read r
  | String a r => if Ascii.eqb a "&" || Ascii.eqb a "<" || Ascii.eqb a ">" then None else String a <$> xml_read r
  end.

(** *** What is written is read back *)

Lemma app_cons (a : ascii) (x y : string) : (String a x +:+ y = String a (x +:+ y))%string.
Proof. done. Qed.

Lemma snoc_cons (x : string) a (y : string) : ((x +:+ String a EmptyString) +:+ y = x +:+ String a y)%string.
Proof. by rewrite string_app_assoc. Qed.

Lemma app_nil_string (x : string) : (x +:+ "" = x)%string.
Proof. induction x; simpl; [done|]. rewrite app_cons. by rewrite IHx. Qed.

Lemma csv_read_plain value : ∀ st field rest record records,
  string_forallb (λ a, negb (csv_special a)) value = true → st = Start ∨ st = Plain →
  csv_read (value +:+ rest) st field record records =
  csv_read rest (match value with EmptyString => st | _ => Plain end) (field +:+ value) record records.
Proof.
  induction value as [|a value IH]; intros st field rest record records Hv Hst.
  { by rewrite app_nil_string. }
  simpl in Hv. apply andb_true_iff in Hv as [Ha Hv]. rewrite app_cons.
  unfold csv_special in Ha. apply negb_true_iff in Ha. rewrite !orb_false_iff in Ha. destruct Ha as [[[Hc Hq] Hn] Hr].
  assert (csv_read (String a (value +:+ rest)) st field record records =
          csv_read (value +:+ rest) Plain (field +:+ String a EmptyString) record records) as ->.
  { cbn [csv_read]. rewrite Hc, Hq, Hn, Hr. by destruct Hst as [-> | ->]. }
  rewrite IH by (done || by right). rewrite snoc_cons. by destruct value.
Qed.

Lemma csv_read_quoted value : ∀ field rest record records,
  csv_read (replace_char dquote (quote +:+ quote) value +:+ quote +:+ rest) Quoted field record records =
  csv_read rest Closed (field +:+ value) record records.
Proof.
  induction value as [|a value IH]; intros field rest record records; cbn [replace_char].
  { by rewrite app_nil_string. }
  destruct (Ascii.eqb_spec a dquote) as [->|Hne].
  - change ((quote +:+ quote)%string +:+ ?x)%string with (String dquote (String dquote x)).
    rewrite !app_cons. cbn [csv_read]. cbn. rewrite <- (snoc_cons field dquote value). apply IH.
  - rewrite app_cons. cbn [csv_read]. rewrite (proj2 (Ascii.eqb_neq _ _) Hne).
    rewrite <- (snoc_cons field a value). apply IH.
Qed.

(** A field and the character after it. *)
Lemma csv_read_field v (a : ascii) rest record records :
  a = ","%char ∨ a = newline →
  csv_read (csv_escape_field v +:+ String a rest) Start EmptyString record records =
  csv_read (String a rest) Closed v record records.
Proof.
  intros Ha. unfold csv_escape_field. destruct (string_forallb _ v) eqn:Hv.
  - rewrite csv_read_plain by (done || by left). change (EmptyString +:+ v)%string with v.
    by destruct Ha as [-> | ->], v.
  - rewrite !string_app_assoc. change (quote +:+ ?x)%string with (String dquote x).
    change (csv_read (String dquote ?x) Start EmptyString record records) with (csv_read x Quoted EmptyString record records).
    change (String dquote ?x) with (quote +:+ x)%string. by rewrite csv_read_quoted.
Qed.

Definition csv_record (values : list string) : string := csv_line (map csv_escape_field values).

Lemma csv_read_record values : ∀ rest record records,
  values ≠ [] →
  csv_read (csv_record values +:+ rest) Start EmptyString record records =
  csv_read rest Start EmptyString [] (records ++ [record ++ values]).
Proof.
  induction values as [|v values IH]; intros rest record records Hne; [done|]. clear Hne.
  destruct values as [|w values].
  - unfold csv_record, csv_line. cbn [map join]. rewrite string_app_assoc. change (line_end +:+ rest)%string with (String newline rest).
    rewrite csv_read_field by by right. done.
  - specialize (IH rest (record ++ [v]) records ltac:(done)). rewrite <- app_assoc in IH. simpl app in IH. rewrite <- IH.
    unfold csv_record, csv_line. cbn [map join]. rewrite !string_app_assoc.
    change ("," +:+ ?x)%string with (String "," x). rewrite csv_read_field by by left. done.
Qed.

(** What is written is read back, whatever the fields hold. *)
Lemma csv_roundtrip records :
  Forall (λ r, r ≠ []) records → csv_parse (concat_strings (map csv_record records)) = Some records.
Proof.
  unfold csv_parse. intros Hf. change records with ([] ++ records) at 2. generalize (@nil (list string)) as done_.
  induction Hf as [|r records Hr Hf IH]; intros done_; simpl; [by rewrite app_nil_r|].
  rewrite csv_read_record, IH by done. by rewrite <- app_assoc.
Qed.

(** Each character by itself. *)
Fixpoint string_flat (f : ascii → string) (s : string) : string :=
  match s with EmptyString => EmptyString | String a r => (f a +:+ string_flat f r)%string end.

Lemma replace_char_app c t x y : replace_char c t (x +:+ y) = (replace_char c t x +:+ replace_char c t y)%string.
Proof.
  induction x as [|a x IH]; [done|]. rewrite app_cons. cbn [replace_char]. rewrite IH.
  destruct (Ascii.eqb a c); [by rewrite string_app_assoc|by rewrite app_cons].
Qed.

Lemma replace_char_flat c t f s : replace_char c t (string_flat f s) = string_flat (λ a, replace_char c t (f a)) s.
Proof. induction s as [|a s IH]; simpl; [done|]. by rewrite replace_char_app, IH. Qed.

Lemma string_flat_id s : string_flat (λ a, String a EmptyString) s = s.
Proof. induction s as [|a s IH]; simpl; [done|]. rewrite IH. done. Qed.

Lemma escape_xml_flat s : escape_xml s = string_flat (λ a, escape_xml (String a EmptyString)) s.
Proof. unfold escape_xml. rewrite <- (string_flat_id s) at 1. by rewrite !replace_char_flat. Qed.

Lemma xml_read_one a s : xml_read (escape_xml (String a EmptyString) +:+ s) = String a <$> xml_read s.
Proof. destruct a as [[] [] [] [] [] [] [] []]; reflexivity. Qed.

(** What is escaped for XML is read back. *)
Lemma xml_roundtrip s : xml_read (escape_xml s) = Some s.
Proof.
  rewrite escape_xml_flat. induction s as [|a s IH]; [done|]. cbn [string_flat]. by rewrite xml_read_one, IH.
Qed.

(** *** What an export holds *)

Section ExportSpec.
Variable env : Env.
Variable hash_order : ∀ A, list A → list A.
Variable api_keys : list string.
Variable export_max_rows : Z.
Variable parse_map : string → option (gmap string string).
Variables compress_gzip compress_brotli : string → result string AppError.

Local Abbreviation export := (export_events env hash_order api_keys export_max_rows parse_map compress_gzip compress_brotli).

Definition export_given (p : ExportParams) : list given :=
  [one (KEq "contract_id") (BText <$> ex_contract_id p);
   one (KEq "event_type") ((λ t, BText (event_type_str t)) <$> ex_event_type p);
   one (KGe "ledger") (BI64 <$> ex_from_ledger p); one (KLe "ledger") (BI64 <$> ex_to_ledger p);
   one (KGe "timestamp") (BTime <$> ex_from_timestamp p); one (KLe "timestamp") (BTime <$> ex_to_timestamp p)]%string.

Lemma export_aligned p :
  Forall well_given (export_given p) ∧ export_conditions p = fold_left push (flags (export_given p)) ([], 1) ∧
  export_binds p = values (export_given p).
Proof.
  split_and!.
  - repeat (apply Forall_cons; split); try apply Forall_nil; try done; by apply well_one.
  - unfold export_conditions, flags, export_given. simpl. by rewrite !present_fmap.
  - unfold export_binds, export_count_binds, values, export_given. simpl. by rewrite !value_one, app_nil_r, <- !app_assoc.
Qed.

(** The events of an export: the oldest that match. *)
Definition exported (p : ExportParams) (rows : list Row) : list Row :=
  take (Z.to_nat export_max_rows)
    (order_by (sql env) [key "ASC" "ledger"; key "ASC" "id"]%string
       (List.filter (λ r, forallb (satisfied env r) (export_given p)) rows)).

Lemma fetch_count_refused conds binds : Z.of_nat (length binds) ≠ conds_params conds → fails (fetch_count env conds binds).
Proof.
  intros Hn s. unfold fetch_count, fetch, stmt. destruct (db_fault _ _); [done|]. by rewrite (proj2 (Z.eqb_neq _ _) Hn).
Qed.

Lemma export_params p : conds_params (export_conditions p).1 = Z.of_nat (length (export_binds p)).
Proof.
  destruct (export_aligned p) as (Hw & -> & ->). apply (given_where env (export_given p) [] Hw).
Qed.

Lemma bind1_length o : length (bind1 o) = if present o then 1%nat else 0%nat.
Proof. by destruct o. Qed.

(** An export between two times never succeeds, whatever the events and the
    database: its count query takes the times but is not given them. *)
Theorem timed_export_never_served p h :
  present (ex_from_timestamp p) || present (ex_to_timestamp p) = true → fails (export p h).
Proof.
  intros Ht. assert (Z.of_nat (length (export_count_binds p)) ≠ conds_params (export_conditions p).1) as Hn.
  { rewrite export_params. unfold export_binds. rewrite !length_app, !bind1_length, !present_fmap.
    destruct (present (ex_from_timestamp p)), (present (ex_to_timestamp p)); cbn in *; [lia|lia|lia|discriminate]. }
  unfold export_events. do 4 (apply fails_bind_r; intros ?). by apply fails_bind_l, fetch_count_refused.
Qed.

Lemma fetch_limited_healthy q binds n s :
  healthy (pg env) → 0 ≤ n → Z.of_nat (length binds) = query_params q →
  fetch_limited env q binds n s = (Ok (select (sql env) q binds (db s)), mkSt (db s) (S (ops s)) (trace s)).
Proof.
  intros Hh Hn Hl. unfold fetch_limited. apply stmt_healthy; [done|]. by rewrite (proj2 (Z.eqb_eq _ _) Hl), (proj2 (Z.ltb_ge _ _) Hn).
Qed.

Lemma fetch_count_healthy conds binds s :
  healthy (pg env) → Z.of_nat (length binds) = conds_params conds →
  fetch_count env conds binds s =
    (Ok (Z.of_nat (length (matching (sql env) conds binds (db s)))), mkSt (db s) (S (ops s)) (trace s)).
Proof. intros Hh Hl. unfold fetch_count, fetch. apply stmt_healthy; [done|]. by rewrite (proj2 (Z.eqb_eq _ _) Hl). Qed.

Lemma plain_escaped v : string_forallb (λ a, negb (csv_special a)) v = true → csv_escape_field v = v.
Proof. unfold csv_escape_field. by intros ->. Qed.

Lemma show_i_plain n : string_forallb (λ a, negb (csv_special a)) (show_i n) = true.
Proof.
  apply show_i_chars; [done|]. intros d Hd.
  assert (d = 0 ∨ d = 1 ∨ d = 2 ∨ d = 3 ∨ d = 4 ∨ d = 5 ∨ d = 6 ∨ d = 7 ∨ d = 8 ∨ d = 9) as Hc by lia.
  by repeat destruct Hc as [-> | Hc]; [..|subst].
Qed.

(** The fields of a row's line are all escaped: the ledger needs not be. *)
Lemma csv_row_record r : csv_line (map (csv_value env r) default_cols) = csv_record (map (csv_text env r) default_cols).
Proof.
  unfold csv_record. rewrite map_map. f_equal. apply map_ext_in. intros col Hcol. unfold csv_value.
  destruct (String.eqb_spec col "ledger") as [->|_]; [|done]. symmetry. apply plain_escaped, show_i_plain.
Qed.

Definition plain_headers (fm : option (gmap string string)) : Prop :=
  Forall (λ n, string_forallb (λ a, negb (csv_special a)) n = true) (header_names fm).

Lemma csv_body_reads fm rows :
  plain_headers fm →
  csv_parse (csv_body env fm rows) = Some (header_names fm :: map (λ r, map (csv_text env r) default_cols) rows).
Proof.
  intros Hp. rewrite <- csv_roundtrip.
  - unfold csv_body. cbn [map concat_strings foldr]. f_equal. f_equal.
    + unfold csv_record. f_equal. rewrite <- (map_id (header_names fm)) at 1. apply map_ext_in.
      intros n Hn. symmetry. apply plain_escaped. unfold plain_headers in Hp. rewrite Forall_forall in Hp.
      by apply Hp, list_elem_of_In.
    + unfold concat_strings. f_equal. rewrite map_map. apply map_ext. intros r. apply csv_row_record.
  - constructor; [done|]. apply Forall_forall. intros x (r & -> & _)%list_elem_of_fmap. done.
Qed.

(** C31. An export as CSV without times reads back, whatever its events hold, as the
    header and one record for each of the oldest matching events, and its range
    counts all the matching ones.  The new names of the columns must be plain
    text: they are not escaped. *)
Theorem export_reads_back p h s fm :
  healthy (pg env) → 0 ≤ export_max_rows ≤ i_max 64 → validate_export api_keys p = Ok () →
  export_format p = Ok Csv → field_map hash_order parse_map p = Ok fm → plain_headers fm →
  ex_from_timestamp p = None → ex_to_timestamp p = None →
  let rows := exported p (db s) in
  let total := Z.of_nat (length (List.filter (λ r, forallb (satisfied env r) (export_given p)) (db s))) in
  ∃ text,
    csv_parse text = Some (header_names fm :: map (λ r, map (csv_text env r) default_cols) rows) ∧
    (export p h s).1 =
      (let? b := encode_body compress_gzip compress_brotli h text in
       Ok (mkDownload "text/csv" ("events.csv" +:+ suffix b.2)%string
             ("items 0-" +:+ show_i (Z.of_nat (length rows) - 1) +:+ "/" +:+ show_i total)%string b.2 b.1)).
Proof.
  intros Hh Hmax Hv Hf Hfm Hp Hft Htt rows total. exists (csv_body env fm rows). split; [by apply csv_body_reads|].
  destruct (export_aligned p) as (Hw & Hc & Hb).
  destruct (given_page env (export_given p) default_cols [key "ASC" "ledger"; key "ASC" "id"]%string export_max_rows (db s) Hw)
    as [Hn Hsel].
  assert (export_count_binds p = export_binds p) as Hcount.
  { unfold export_binds. rewrite Hft, Htt. simpl. by rewrite app_nil_r. }
  assert (wrap_i 64 export_max_rows = export_max_rows) as Hwrap by (apply wrap_i_small; unfold in_i, i_max in *; simpl in *; lia).
  unfold export_events. rewrite Hv, Hf, !bind_of_ok, Hwrap. rewrite <- Hc, <- Hb in Hn, Hsel.
  assert (select (sql env) (export_query p) (export_binds p ++ [BI64 export_max_rows]) (db s) = rows) as Hsel' by exact Hsel.
  rewrite (bind_ok _ _ _ _ _ (fetch_limited_healthy (export_query p) _ export_max_rows s Hh (proj1 Hmax) Hn)).
  rewrite Hfm, bind_of_ok, Hcount. rewrite Hsel'.
  rewrite (bind_ok _ _ _ _ _ (fetch_count_healthy _ _ _ Hh (eq_sym (export_params p)))).
  cbn [db]. unfold mbind, M_bind, of_result. 
  assert (matching (sql env) (export_conditions p).1 (export_binds p) (db s) =
          List.filter (λ r, forallb (satisfied env r) (export_given p)) (db s)) as ->.
  { unfold matching. apply filter_ext_list. intros r. rewrite Hc, Hb.
    rewrite <- (app_nil_r (values _)). apply (given_where env (export_given p) [] Hw). }
  by destruct (encode_body _ _ _ _) as [[? ?]|].
Qed.

End ExportSpec.

(** *** The feed and its cache *)

Section FeedSpec.
Variable env : Env.

Definition feed_given (p : PaginationParams) (tenant : option string) : list given :=
  [one (KEq "contract_id") (BText <$> contract_id p);
   one (KEq "event_type") ((λ t, BText (event_type_str t)) <$> event_type p);
   one (KGe "ledger") (BI64 <$> from_ledger p); one (KLe "ledger") (BI64 <$> to_ledger p);
   one (KEq "tenant_id") (BText <$> tenant)]%string.

Lemma feed_aligned p tenant :
  Forall well_given (feed_given p tenant) ∧
  feed_conditions p tenant = fold_left push (flags (feed_given p tenant)) ([], 1) ∧
  feed_binds p tenant = values (feed_given p tenant).
Proof.
  split_and!.
  - repeat (apply Forall_cons; split); try apply Forall_nil; try done; by apply well_one.
  - unfold feed_conditions, flags, feed_given. simpl. by rewrite !present_fmap.
  - unfold feed_binds, values, feed_given. simpl. by rewrite !value_one, app_nil_r.
Qed.

(** The rows of a feed: the newest that match and belong to the tenant. *)
Definition feed_rows (p : PaginationParams) (tenant : option string) (rows : list Row) : list Row :=
  take (Z.to_nat (feed_limit p))
    (order_by (sql env) feed_order (List.filter (λ r, forallb (satisfied env r) (feed_given p tenant)) rows)).

(** A feed made for a request from one of the tables of [history] and its time. *)
Definition made_from (history : list (Z * list Row)) (k : FeedKey) (feed : string) (t : Z) : Prop :=
  ∃ p tenant rows now, cache_key p tenant = k ∧ (t, rows) ∈ history ∧
    feed = render_atom_feed env (feed_rows p tenant rows) now.

Definition cache_sound (history : list (Z * list Row)) (c : FeedCache) : Prop :=
  ∀ k e, cache_get k c = Some e → ∃ t, expires_at e = t + sixty_seconds ∧ made_from history k (data e) t.

(** Requests with one key ask for the same rows. *)
Lemma feed_rows_key p p' tenant tenant' rows :
  cache_key p tenant = cache_key p' tenant' → feed_rows p tenant rows = feed_rows p' tenant' rows.
Proof.
  unfold cache_key, feed_rows, feed_given, feed_limit, limit.
  intros E. injection E as -> -> -> -> -> ->. done.
Qed.

Lemma cache_get_insert k e c k' :
  cache_get k' (cache_insert k e c) = if bool_decide (k = k') then Some e else cache_get k' c.
Proof. unfold cache_get, cache_insert. simpl. by destruct (bool_decide _). Qed.

Lemma cache_sound_mono history h c : cache_sound history c → cache_sound (h :: history) c.
Proof.
  intros Hc k e He. destruct (Hc k e He) as (t & Ht & p & tenant & rows & now & Hk & Hin & Hd).
  exists t. split; [done|]. exists p, tenant, rows, now. split_and!; [done|by right|done].
Qed.

Lemma fresh_feed_spec p tenant c s feed c' s' :
  fresh_feed env p tenant c s = (Ok (feed, c'), s') →
  ∃ u, feed = render_atom_feed env (feed_rows p tenant (db s)) u ∧
    c' = cache_insert (cache_key p tenant) (mkEntry feed (now (pg env) (S (S (ops s))) + sixty_seconds)) c ∧
    ops s' = S (S (S (ops s))).
Proof.
  destruct (feed_aligned p tenant) as (Hw & Hc & Hb).
  destruct (given_page env (feed_given p tenant)
    ["id"; "contract_id"; "event_type"; "tx_hash"; "ledger"; "timestamp"; "event_data"]%string feed_order (feed_limit p) (db s) Hw)
    as [Hn Hsel]. rewrite <- Hc, <- Hb in Hn, Hsel.
  unfold fresh_feed, mbind, M_bind. unfold fetch_all, fetch, stmt. destruct (db_fault _ _); [done|].
  assert (Z.of_nat (length (feed_binds p tenant ++ [BI64 (feed_limit p)])) = query_params (feed_query p tenant)) as Hn' by exact Hn.
  rewrite (proj2 (Z.eqb_eq _ _) Hn'). intros E. injection E as <- <- <-. cbn [ops db].
  eexists. split_and!; [|done|done]. unfold feed_query, feed_rows. by rewrite <- Hsel.
Qed.

(** Whoever asks for a feed gets the newest matching events of his own tenant,
    as the table was less than a minute ago; and so will the next, whatever the
    cache is asked. *)
Theorem feed_fresh p tenant c s feed c' s' history :
  cache_sound history c → get_events_feed env p tenant c s = (Ok (feed, c'), s') →
  ∃ n, (ops s ≤ n < ops s')%nat ∧ let now := now (pg env) n in let history := (now, db s) :: history in
    cache_sound history c' ∧
    ∃ t rows u, (t, rows) ∈ history ∧ now < t + sixty_seconds ∧
      feed = render_atom_feed env (feed_rows p tenant rows) u.
Proof.
  intros Hs. unfold get_events_feed. unfold of_result, mbind at 1 2 3 4, M_bind at 1 2 3 4.
  destruct (each validate_contract_id _); [|done]. destruct (each _ (from_ledger p)); [|done].
  destruct (each _ (to_ledger p)); [|done]. destruct (check _ _); [|done].
  assert (∀ s0, db s0 = db s → (ops s ≤ ops s0)%nat → fresh_feed env p tenant c s0 = (Ok (feed, c'), s') →
    ∃ n, (ops s ≤ n < ops s')%nat ∧
      let now := now (pg env) n in let history := (now, db s) :: history in cache_sound history c' ∧
      ∃ t rows u, (t, rows) ∈ history ∧ now < t + sixty_seconds ∧
        feed = render_atom_feed env (feed_rows p tenant rows) u) as Hfresh.
  { intros s0 E0 Ho (u & Hfeed & Hc' & Hops)%fresh_feed_spec. rewrite E0 in Hfeed. exists (S (S (ops s0))).
    split; [lia|]. intros t history'. split.
    - intros k e. rewrite Hc', cache_get_insert. case_bool_decide as Ek; [|by apply cache_sound_mono].
      intros [= <-]. exists t. split; [done|]. exists p, tenant, (db s), u. split_and!; [done|by left|done].
    - exists t, (db s), u. split_and!; [by left|unfold sixty_seconds; lia|done]. }
  destruct (cache_get _ _) as [e|] eqn:Eg; [|by apply Hfresh].
  unfold mbind, M_bind, clock. destruct (Z.ltb_spec (now (pg env) (ops s)) (expires_at e)) as [Hlt|]; [|apply Hfresh; simpl; [done|lia]].
  intros E. injection E as <- <- <-. exists (ops s). split; [simpl; lia|]. split; [by apply cache_sound_mono|].
  destruct (Hs _ _ Eg) as (t & Ht & p' & tenant' & rows & u & Hk & Hin & Hd). exists t, rows, u.
  split_and!; [by right|lia|]. by rewrite Hd, (feed_rows_key p p' tenant tenant').
Qed.

End FeedSpec.

(** *** Batches *)

Section BatchSpec.
Variable env : Env.
Variable batch_events_max_size : Z.
Variable new_v4 : nat → string.

Definition batch_given (f : BatchEventFilter) : list given :=
  [one (KEq "contract_id") (BText <$> bf_contract_id f); one (KEq "event_type") (BText <$> bf_event_type f);
   one (KGe "ledger") (BI64 <$> bf_from_ledger f); one (KLe "ledger") (BI64 <$> bf_to_ledger f);
   one (KEq "tx_hash") (BText <$> bf_tx_hash f)]%string.

(** The matches of a filter, the newest first. *)
Definition batch_rows (f : BatchEventFilter) (rows : list Row) : list Row :=
  order_by (sql env) newest_first (List.filter (λ r, forallb (satisfied env r) (batch_given f)) rows).

Lemma batch_select f rows :
  Z.of_nat (length (batch_binds f)) = query_params (batch_query f) ∧
  select (sql env) (batch_query f) (batch_binds f) rows = batch_rows f rows.
Proof.
  assert (Forall well_given (batch_given f)) as Hw
    by (repeat (apply Forall_cons; split); try apply Forall_nil; try done; by apply well_one).
  assert (batch_conditions f = (fold_left push (flags (batch_given f)) ([], 1)).1) as Hc.
  { unfold batch_conditions, flags, batch_given. simpl. by rewrite !present_fmap. }
  assert (batch_binds f = values (batch_given f)) as Hb.
  { unfold batch_binds, values, batch_given. simpl. by rewrite !value_one, app_nil_r. }
  destruct (given_where env (batch_given f) [] Hw) as (Hh & _ & Hn). rewrite app_nil_r in Hh. split.
  - unfold query_params, batch_query. cbn [q_where q_limit q_offset default]. rewrite Hc, Hn, Hb. simpl. lia.
  - unfold select, batch_query, batch_rows. cbn [q_where q_order q_limit q_offset]. rewrite !count_at_none, Hc, Hb.
    f_equal. unfold matching. by apply filter_ext_list.
Qed.

(** The reference: each filter takes its newest matches from what is left of the budget. *)
Fixpoint batch_parts (remaining : Z) (filters : list BatchEventFilter) (rows : list Row) : list Row :=
  match filters with
  | [] => []
  | f :: rest =>
      let part := take (Z.to_nat (batch_limit f remaining)) (batch_rows f rows) in
      part ++ batch_parts (remaining - Z.of_nat (length part)) rest rows
  end.

Lemma batch_parts_bounded filters : ∀ remaining rows,
  Z.of_nat (length (batch_parts remaining filters rows)) ≤ Z.max 0 remaining.
Proof.
  induction filters as [|f filters IH]; intros remaining rows; simpl; [lia|]. rewrite length_app.
  set (part := take _ _). specialize (IH (remaining - Z.of_nat (length part)) rows).
  assert (Z.of_nat (length part) ≤ Z.max 0 remaining); [|lia]. unfold part. rewrite length_take. unfold batch_limit. lia.
Qed.

Lemma batch_parts_none remaining filters rows : remaining ≤ 0 → batch_parts remaining filters rows = [].
Proof.
  intros Hr. pose proof (batch_parts_bounded filters remaining rows). destruct (batch_parts _ _ _); [done|simpl in *; lia].
Qed.

Lemma batch_loop_spec max_total filters : ∀ all s,
  healthy (pg env) → Forall (λ f, 0 ≤ default 1000 (bf_limit f)) filters →
  ∃ n, batch_loop env max_total filters all s =
    (Ok (all ++ map (event_json env default_cols) (batch_parts (max_total - Z.of_nat (length all)) filters (db s))),
     mkSt (db s) n (trace s)).
Proof.
  induction filters as [|f filters IH]; intros all s Hh Hf; cbn [batch_loop].
  { simpl. rewrite app_nil_r. by destruct s; eexists. }
  apply Forall_cons in Hf as [Hf Hfs]. cbv beta in Hf. destruct (Z.leb_spec (max_total - Z.of_nat (length all)) 0) as [Hr|Hr].
  { rewrite batch_parts_none by lia. simpl. rewrite app_nil_r. by destruct s; eexists. }
  cbn [batch_parts].
  set (remaining := max_total - Z.of_nat (length all)) in *. destruct (batch_select f (db s)) as [Hn Hs].
  assert (0 ≤ batch_limit f remaining) as Hl by (unfold batch_limit; lia).
  set (part := take (Z.to_nat (batch_limit f remaining)) (batch_rows f (db s))).
  assert (map_err query_failed (fetch_slice env (batch_query f) (batch_binds f) (batch_limit f remaining) 0) s =
    (Ok part, mkSt (db s) (S (ops s)) (trace s))) as Hfetch.
  { unfold map_err, fetch_slice. rewrite (stmt_healthy (pg env) _ s part (db s) Hh); [done|].
    by rewrite (proj2 (Z.eqb_eq _ _) Hn), (proj2 (Z.ltb_ge _ _) Hl), Hs. }
  destruct (IH (all ++ map (event_json env default_cols) part) (mkSt (db s) (S (ops s)) (trace s)) Hh Hfs) as [n E].
  exists n. rewrite (bind_ok _ _ _ _ _ Hfetch). change default_cols with batch_columns in *.
  rewrite rows_to_json_ok, bind_of_ok. etrans; [exact E|]. rewrite length_app, length_map. cbn [db trace].
  replace (max_total - Z.of_nat (length all + length part)) with (remaining - Z.of_nat (length part)) by (unfold remaining; lia).
  by rewrite map_app, app_assoc.
Qed.

(** C30. With a healthy database a batch of one to a hundred filters in the JSON
    format, whose limits are not negative, answers the events of the reference,
    at most as many as the configured maximum, however many the filters ask for. *)
Theorem batch_query_bounded filters s :
  healthy (pg env) → (0 < length filters ≤ 100)%nat → Forall (λ f, 0 ≤ default 1000 (bf_limit f)) filters →
  0 ≤ batch_events_max_size ≤ i_max 64 →
  let events := batch_parts batch_events_max_size filters (db s) in
  (batch_query_events env batch_events_max_size new_v4 filters "json" s).1 =
    Ok (BatchJson (new_v4 (ops s)) (Z.of_nat (length events)) (map (event_json env default_cols) events)) ∧
  Z.of_nat (length events) ≤ batch_events_max_size.
Proof.
  intros Hh [H1 H2] Hf Hm events. split; [|pose proof (batch_parts_bounded filters batch_events_max_size (db s)); subst events; lia].
  unfold batch_query_events. rewrite (proj2 (Nat.ltb_lt _ _) H1), (proj2 (Nat.leb_le _ _) H2).
  unfold check. rewrite !bind_of_ok. change (to_lowercase "json") with "json"%string. cbn [String.eqb Ascii.eqb Bool.eqb orb].
  rewrite bind_of_ok.
  assert (wrap_i 64 batch_events_max_size = batch_events_max_size) as ->
    by (apply wrap_i_small; unfold in_i, i_max in *; simpl in *; lia).
  unfold mbind at 1, M_bind at 1, oracle. destruct (batch_loop_spec batch_events_max_size filters []
    (mkSt (db s) (S (ops s)) (trace s)) Hh Hf) as [n E].
  rewrite (bind_ok _ _ _ _ _ E). cbn [app length]. rewrite Z.sub_0_r, length_map. done.
Qed.

End BatchSpec.

(** *** Buckets of time *)

Section TemporalSpec.
Variable env : Env.
Variable date_trunc : string → Z → result Z string.
Variable min_utc : Z.

Lemma interval_spaced p u : interval p = Ok u → contains " " u = true.
Proof. unfold interval. repeat case_match; by intros [= <-]. Qed.

Lemma starts_refused u rows :
  (∀ t, is_ok (date_trunc u t) = false) → is_ok (starts date_trunc u rows) = match rows with [] => true | _ => false end.
Proof. intros Hu. destruct rows as [|r rows]; simpl; [done|]. specialize (Hu (EventStore.c_timestamp (cols r))). by destruct (date_trunc _ _). Qed.

Lemma temporal_params from to p : conds_params (temporal_conditions p) = Z.of_nat (length (temporal_binds from to p)).
Proof.
  unfold temporal_conditions, temporal_binds. by destruct (tp_contract_id p), (tp_event_type p).
Qed.

Lemma fetch_grouped_healthy {A} conds binds limit offset (f : list Row → result (list A) string) s :
  healthy (pg env) → conds_params conds = Z.of_nat (length binds) → 0 ≤ limit → 0 ≤ offset →
  fetch_grouped env conds binds limit offset f s =
    (match f (matching (sql env) conds binds (db s)) with
     | Ok l => Ok (take (Z.to_nat limit) (drop (Z.to_nat offset) l))
     | Err e => Err (App (Database e))
     end, mkSt (db s) (S (ops s)) (trace s)).
Proof.
  intros Hh Hn Hl Ho. unfold fetch_grouped, stmt. rewrite Hh, Hn, Z.eqb_refl, (proj2 (Z.ltb_ge _ _) Hl), (proj2 (Z.ltb_ge _ _) Ho).
  simpl. by destruct (f _).
Qed.

(** Counts by window are never answered once there is something to count:
    PostgreSQL does not know a unit like '1 hour'. *)
Theorem temporal_counts_never_served p s from to u :
  (∀ unit t, contains " " unit = true → is_ok (date_trunc unit t) = false) →
  healthy (pg env) → window env min_utc (now (pg env) (ops s)) p = Ok (from, to) →
  each validate_contract_id (tp_contract_id p) = Ok () → tp_aggregate p = Some true → interval p = Ok u →
  Z.max (default 1 (tp_page p)) 1 ≤ 2 ^ 53 →
  match matching (sql env) (temporal_conditions p) (temporal_binds from to p) (db s) with
  | [] => (get_temporal_events env date_trunc min_utc p s).1 = Ok (from, to, [], [])
  | _ => is_ok (get_temporal_events env date_trunc min_utc p s).1 = false
  end.
Proof.
  intros Hu Hh Hw Hc Ha Hi Hp. set (limit := clamp 1 1000 (default 100 (tp_limit p))).
  set (page := Z.max (default 1 (tp_page p)) 1) in *.
  assert (1 ≤ limit ≤ 1000) as Hl by (apply clamp_range; lia).
  assert (wrap_i 64 ((page - 1) * limit) = (page - 1) * limit) as Hwrap.
  { apply wrap_i_small; unfold in_i, i_max; simpl; assert (1 ≤ page) by lia; nia. }
  assert (0 ≤ (page - 1) * limit) as Ho by (assert (1 ≤ page) by lia; nia).
  unfold get_temporal_events. rewrite (bind_ok (clock (pg env)) _ s (now (pg env) (ops s)) (mkSt (db s) (S (ops s)) (trace s)) eq_refl), Hw, bind_of_ok.
  unfold lift_app. fold limit page. rewrite Hc, Hi, Ha, Hwrap. cbn [from_option id result_map_err]. rewrite !bind_of_ok.
  pose proof (starts_refused u (matching (sql env) (temporal_conditions p) (temporal_binds from to p) (db s))
    (λ t, Hu u t (interval_spaced p u Hi))) as Hst.
  set (s1 := mkSt _ _ _). pose proof (fetch_grouped_healthy (temporal_conditions p) (temporal_binds from to p) limit
    ((page - 1) * limit) (λ rows, let? l := starts date_trunc u rows in Ok (buckets l)) s1 Hh
    (temporal_params from to p) ltac:(lia) Ho) as Hf. cbn [s1 db] in Hf. cbv beta in Hf.
  destruct (matching _ _ _ _) as [|r rows].
  - rewrite (bind_ok _ _ _ _ _ Hf). cbn. unfold buckets. by rewrite drop_nil, take_nil.
  - unfold mbind, M_bind. rewrite Hf. by destruct (starts _ _ _).
Qed.

End TemporalSpec.

(** ** Concrete runs *)

Definition all_events : ExportParams := mkExport None None None None None None None None.
Definition since_zero : ExportParams := mkExport None None None None None None (Some 0) None.
Definition no_map (_ : string) : option (gmap string string) := None.

Definition demo_exported : list Row :=
  [demo_event 1 5 "a,b" "contract" tx_a Null (Some "acme"); demo_event 2 4 "C1" "system" tx_b Null None]%string.

Definition demo_export_state : St (list Row) Ev := mkSt demo_exported 0 [].

Lemma export_reads_back_witness :
  ∃ text : string, csv_parse text = Some (default_cols :: map (λ r, map (csv_text demo_env r) default_cols)
      [demo_event 2 4 "C1" "system" tx_b Null None; demo_event 1 5 "a,b" "contract" tx_a Null (Some "acme")]%string) ∧
    (export_events demo_env same_order ["k"%string] 10 no_map Ok Ok all_events [] demo_export_state).1 =
      Ok (mkDownload "text/csv" "events.csv" "items 0-1/2" None text).
Proof.
  destruct (export_reads_back demo_env same_order ["k"%string] 10 no_map Ok Ok all_events [] demo_export_state None)
    as (text & H1 & H2); [done|by vm_compute|done|done|done|by repeat constructor|done|done|].
  exists text. split; [rewrite H1; by vm_compute|]. rewrite H2. by vm_compute.
Defined.

Lemma timed_export_never_served_witness :
  fails (export_events demo_env same_order ["k"%string] 10 no_map Ok Ok since_zero []).
Proof. by apply timed_export_never_served. Defined.

Definition feed_params : PaginationParams := demo_params None None None.

(** A feed made for a tenant is given again from the cache after the table has changed. *)
Definition demo_feed : string := render_atom_feed demo_env (feed_rows demo_env feed_params (Some "acme"%string) demo_exported) 1.
Definition demo_cache : FeedCache :=
  cache_insert (cache_key feed_params (Some "acme"%string)) (mkEntry demo_feed (2 + sixty_seconds)) [].

Lemma feed_fresh_witness :
  ∃ n, (0 ≤ n < 1)%nat ∧
    let history := [(Z.of_nat n, []); (2, demo_exported)] in
    cache_sound demo_env history demo_cache ∧
    ∃ t rows u, (t, rows) ∈ history ∧ Z.of_nat n < t + sixty_seconds ∧
      demo_feed = render_atom_feed demo_env (feed_rows demo_env feed_params (Some "acme"%string) rows) u.
Proof.
  apply (feed_fresh demo_env feed_params (Some "acme"%string) demo_cache (mkSt [] 0 []) demo_feed demo_cache (mkSt [] 1 [])
    [(2, demo_exported)]).
  - intros k e. unfold demo_cache. rewrite cache_get_insert. case_bool_decide as E; [|done]. intros [= <-]. exists 2.
    split; [done|]. exists feed_params, (Some "acme"%string), demo_exported, 1. split_and!; [done|by left|done].
  - by vm_compute.
Defined.

Definition demo_show_nat (n : nat) : string := show_i (Z.of_nat n).
Definition demo_filters : list BatchEventFilter :=
  [mkFilter (Some "C1"%string) None None None None None; mkFilter None None (Some 1) None None (Some 50)].

Lemma batch_query_bounded_witness :
  let events := batch_parts demo_env 3 demo_filters demo_rows in
  (batch_query_events demo_env 3 demo_show_nat demo_filters "json" demo_state).1 =
    Ok (BatchJson (demo_show_nat 0) 3 (map (event_json demo_env default_cols) events)) ∧ Z.of_nat (length events) ≤ 3.
Proof.
  assert (Z.of_nat (length (batch_parts demo_env 3 demo_filters demo_rows)) = 3) as E by by vm_compute. intros events.
  destruct (batch_query_bounded demo_env 3 demo_show_nat demo_filters demo_state) as [H1 H2];
    [done|simpl; lia|by repeat constructor|by vm_compute|].
  split; [|exact H2]. etrans; [exact H1|]. change (db demo_state) with demo_rows. by rewrite E.
Defined.

(** PostgreSQL's [date_trunc] on hours, which is all it knows here. *)
Definition trunc_hours (u : string) (t : Z) : result Z string :=
  if String.eqb u "hour" then Ok (t / 3600000000 * 3600000000) else Err ("unit " +:+ u +:+ " not recognized")%string.

Definition hourly : TemporalParams := mkTemporal (Some "2s"%string) None None None None None (Some true) None None None.

Lemma temporal_counts_never_served_witness :
  is_ok (get_temporal_events demo_env trunc_hours (-10 ^ 18) hourly demo_state).1 = false.
Proof.
  apply (temporal_counts_never_served demo_env trunc_hours (-10 ^ 18) hourly demo_state (-2000000) 0 "1 hour");
    [|done|by vm_compute|done|done|done|by apply Z.leb_le; vm_compute].
  intros u t Hu. unfold trunc_hours. by destruct (String.eqb_spec u "hour") as [->|].
Defined.

End EventsExport.
