(* ===== verification/EventsAdmin.v ===== *)
(** The handlers that change events (handlers/events.rs): bulk insertion,
    anonymization, deletion and masking, and the replay of ledgers from the RPC
    (handlers/mod.rs [execute_replay_job]).

    The state is the table of events.  SHA-256, the standard library's default
    hasher, generated ids, the RPC and [crate::error::with_deadlock_retry],
    which the crate does not declare, are parameters. *)

From S2P Require Import Prelude Text Model Pg EventStore ApiParams EventsQuery.

Module EventsAdmin.
Import ApiParams EventsQuery.

(** What the outside sees: requests to the RPC and jobs that are started. *)
Inductive Ev : Type :=
| Fetched (start_ledger : Z)
| ReplayStarted (from_ledger to_ledger : Z)
| MaskStarted (contract_ids : option (list string)) (job_id : string).

Definition row_key (r : Row) : string * string * string := EventStore.key_of (cols r).

(** ** The unique indexes of the table *)

Definition unique_indexes : list (list string) := [["id"]; ["tx_hash"; "contract_id"; "event_type"]]%string.

Definition same_columns (a b : list string) : bool := forallb (λ c, mem c b) a && forallb (λ c, mem c a) b.

(** An [ON CONFLICT] clause names the columns of a unique index, or the statement is refused. *)
Definition has_arbiter (target : list string) : bool := existsb (same_columns target) unique_indexes.

(** [INSERT .. ON CONFLICT (target) DO NOTHING] of a row with a new id, with its [rows_affected]. *)
Definition insert_or_skip (target : list string) (new : Z → Row) (now : Z) (rows : list Row) : result (Z * list Row) string :=
  if negb (has_arbiter target) then
    Err "there is no unique or exclusion constraint matching the ON CONFLICT specification"%string
  else if bool_decide (row_key (new now) ∈ map row_key rows) then Ok (0, rows)
  else Ok (1, rows ++ [new now]).

(** [UPDATE .. WHERE id = $n]: refused when two rows would have one key. *)
Definition update_by_id (id : Z) (f : Row → Row) (rows : list Row) : result (() * list Row) string :=
  let rows' := map (λ r, if row_id r =? id then f r else r) rows in
  if bool_decide (NoDup (map row_key rows')) then Ok ((), rows')
  else Err "duplicate key value violates unique constraint idx_events_tx_hash_contract"%string.

Section EventsAdmin.
Variable pg : PgEnv.
Variable new_v4 : nat → Z.
Variable sha256_hex : string → string.

Local Abbreviation M := (Pg.M (list Row) Ev AppError).

(** ** Bulk insertion *)

Definition MAX_BATCH_SIZE : nat := 1000.

Record BulkEventInput : Type := mkInput {
  in_contract_id : string;
  in_event_type : string;
  in_tx_hash : string;
  in_ledger : Z;
  in_timestamp : Z;
  in_event_data : Value;
  in_event_data_normalized : option Value;
  in_ledger_hash : option string;
  in_successful : option bool;
}.

Record BulkInsertResponse : Type := mkBulk { inserted : Z; skipped : Z; failed : Z; errors : list string }.

(** A row of the given columns; the others have the table's defaults (an empty fingerprint is NULL). *)
Definition new_row (id created_at : Z) (contract_id event_type tx_hash : string) (ledger timestamp : Z) (event_data : Value)
    (normalized : option Value) (ledger_hash : option string) (in_successful_call : bool) : Row :=
  mkRow (EventStore.mkRow id created_at
    (EventStore.mkColumns contract_id event_type tx_hash ledger timestamp event_data ledger_hash in_successful_call None None
       "" None None "mainnet" None None None None None)) normalized 1 false.

Definition bulk_row (e : BulkEventInput) (id now : Z) : Row :=
  new_row id now (in_contract_id e) (in_event_type e) (in_tx_hash e) (in_ledger e) (in_timestamp e) (in_event_data e)
    (in_event_data_normalized e) (in_ledger_hash e) (default false (in_successful e)).

Definition bulk_target : list string := ["contract_id"; "tx_hash"; "ledger"; "event_type"]%string.

Definition is_event_type (t : string) : bool := mem t ["contract"; "diagnostic"; "system"]%string.

Definition add_failure (e : string) (a : BulkInsertResponse) : BulkInsertResponse :=
  mkBulk (inserted a) (skipped a) (failed a + 1) (errors a ++ [e]).

Fixpoint bulk_loop (events : list BulkEventInput) (a : BulkInsertResponse) : M BulkInsertResponse :=
  match events with
  | [] => mret a
  | e :: rest =>
      match validate_contract_id (in_contract_id e), validate_tx_hash (in_tx_hash e) with
      | Err x, _ => bulk_loop rest (add_failure ("Invalid contract_id: " +:+ Errors.display x)%string a)
      | _, Err x => bulk_loop rest (add_failure ("Invalid tx_hash: " +:+ Errors.display x)%string a)
      | Ok _, Ok _ =>
          if negb (is_event_type (in_event_type e)) then
            bulk_loop rest (add_failure ("Invalid event_type: " +:+ in_event_type e)%string a)
          else
            n ← counter;
            r ← attempt (E := string) (stmt pg (insert_or_skip bulk_target (bulk_row e (new_v4 n))));
            bulk_loop rest
              match r with
              | Ok n => if 0 <? n then mkBulk (inserted a + 1) (skipped a) (failed a) (errors a)
                        else mkBulk (inserted a) (skipped a + 1) (failed a) (errors a)
              | Err x => add_failure ("Database error: " +:+ x)%string a
              end
      end
  end.

Definition bulk_insert_events (events : list BulkEventInput) : M BulkInsertResponse :=
  of_result (check (negb (length events =? 0)%nat) (Validation "events list cannot be empty")) ;;
  of_result (check (length events <=? MAX_BATCH_SIZE)%nat (Validation "events list exceeds maximum of 1000 events")) ;;
  bulk_loop events (mkBulk 0 0 0 []).

(** ** Anonymization and deletion *)

Definition anonymized_data : Value := Object [("anonymized"%string, Bool true)].

(** [SET anonymized = TRUE, event_data = $1, tx_hash = $2]. *)
Definition anonymize_row (hashed_tx : string) (r : Row) : Row :=
  let c := cols r in
  mkRow (EventStore.mkRow (row_id r) (EventStore.row_created_at (stored r))
           (EventStore.mkColumns (EventStore.c_contract_id c) (EventStore.c_event_type c) hashed_tx
              (EventStore.c_ledger c) (EventStore.c_timestamp c) anonymized_data (EventStore.c_ledger_hash c)
              (EventStore.c_in_successful_call c) (EventStore.c_event_data_decoded c) (EventStore.c_tenant_id c)
              (EventStore.c_fingerprint c) (EventStore.c_compressed c) (EventStore.c_compression_algo c) (EventStore.c_chain_id c)
              (EventStore.c_tx_index c) (EventStore.c_op_index c) (EventStore.c_event_index c) (EventStore.c_sep41 c)
              (EventStore.c_asset c)))
    (r_normalized r) (r_schema_version r) true.

Definition find_row (id : Z) (rows : list Row) : option Row := List.find (λ r, row_id r =? id) rows.

Definition anonymize_statement (id : Z) (tx_hash : string) : M () :=
  stmt pg (λ _, update_by_id id (anonymize_row (sha256_hex tx_hash))).

(** The id of the event that is anonymized afterwards. *)
Definition anonymize_event (id : Z) : M Z :=
  row ← query pg (λ _, find_row id);
  match row with
  | None => throw NotFound
  | Some r =>
      if r_anonymized r then mret id
      else anonymize_statement id (EventStore.c_tx_hash (cols r)) ;; mret id
  end.

Definition of_contract (contract_id : string) (r : Row) : bool := String.eqb (EventStore.c_contract_id (cols r)) contract_id.

Fixpoint anonymize_all (found : list (Z * string)) : M () :=
  match found with
  | [] => mret ()
  | (id, tx_hash) :: rest => anonymize_statement id tx_hash ;; anonymize_all rest
  end.

Definition parse_bool (s : string) : option bool :=
  if String.eqb s "true" then Some true else if String.eqb s "false" then Some false else None.

(** The action and the number of events; the rows are found in the order of the database. *)
Variable row_order : list Row → list Row.

Definition delete_contract_events (contract_id : string) (anonymize_only : option string) : M (string * Z) :=
  of_result (validate_contract_id contract_id) ;;
  if default false (anonymize_only ≫= parse_bool) then
    found ← query pg (λ _ rows,
      map (λ r, (row_id r, EventStore.c_tx_hash (cols r)))
        (row_order (List.filter (λ r, of_contract contract_id r && negb (r_anonymized r)) rows)));
    anonymize_all found ;;
    mret ("anonymized"%string, Z.of_nat (length found))
  else
    count ← stmt pg (λ _ rows,
      Ok (length (List.filter (of_contract contract_id) rows), List.filter (λ r, negb (of_contract contract_id r)) rows));
    mret ("deleted"%string, Z.of_nat count).

(** ** Masking *)

Variable default_hash : string → Z.

Fixpoint hex_digits (fuel : nat) (n : Z) : string :=
  match fuel with
  | O => EmptyString
  | S f =>
      let high := if n <? 16 then EmptyString else hex_digits f (n / 16) in
      let digit := if n mod 16 <? 10 then 48 + n mod 16 else 87 + n mod 16 in
      (high +:+ String (ascii_of_nat (Z.to_nat digit)) EmptyString)%string
  end.

(** [format!("G{:x}", hash)[..56]], [None] for a slice that is out of range. *)
Definition masked_address (s : string) : option string :=
  let text := ("G" +:+ hex_digits 16 (default_hash s))%string in
  if (56 <=? String.length text)%nat then Some (String.substring 0 56 text) else None.

Definition names_address (k : string) : bool :=
  let key_lower := to_lowercase k in contains "address" key_lower || contains "account" key_lower.

(** [None] is a panic. *)
Fixpoint mask_event_data (data : Value) : option Value :=
  match data with
  | Object obj =>
      let fix entries (l : list (string * Value)) : option (list (string * Value)) :=
        match l with
        | [] => Some []
        | (key, value) :: rest =>
            masked ← mask_event_data value;
            masked ← match masked with
                     | VString s => if names_address key then VString <$> masked_address s else Some masked
                     | _ => Some masked
                     end;
            rest ← entries rest;
            Some ((key, masked) :: rest)
        end in
      Object <$> entries obj
  | Array arr =>
      let fix elements (l : list Value) : option (list Value) :=
        match l with
        | [] => Some []
        | value :: rest => masked ← mask_event_data value; rest ← elements rest; Some (masked :: rest)
        end in
      Array <$> elements arr
  | _ => Some data
  end.

(** [SET event_data = $1]. *)
Definition set_event_data (v : Value) (r : Row) : Row :=
  let c := cols r in
  mkRow (EventStore.mkRow (row_id r) (EventStore.row_created_at (stored r))
           (EventStore.mkColumns (EventStore.c_contract_id c) (EventStore.c_event_type c) (EventStore.c_tx_hash c)
              (EventStore.c_ledger c) (EventStore.c_timestamp c) v (EventStore.c_ledger_hash c)
              (EventStore.c_in_successful_call c) (EventStore.c_event_data_decoded c) (EventStore.c_tenant_id c)
              (EventStore.c_fingerprint c) (EventStore.c_compressed c) (EventStore.c_compression_algo c) (EventStore.c_chain_id c)
              (EventStore.c_tx_index c) (EventStore.c_op_index c) (EventStore.c_event_index c) (EventStore.c_sep41 c)
              (EventStore.c_asset c)))
    (r_normalized r) (r_schema_version r) (r_anonymized r).

(** The job ends by a panic with [None]. *)
Fixpoint mask_rows (rows : list Row) : M (option ()) :=
  match rows with
  | [] => mret (Some ())
  | r :: rest =>
      match mask_event_data (EventStore.c_event_data (cols r)) with
      | None => mret None
      | Some masked =>
          stmt (E := AppError) pg (λ _, update_by_id (row_id r) (set_event_data masked)) ;;
          mask_rows rest
      end
  end.

Definition by_id (a b : Row) : comparison := Z.compare (row_id a) (row_id b).

Definition mask_events_background (contract_ids : option (list string)) : M (option ()) :=
  rows ← query pg (λ _ rows,
    take 1000 (Prelude.sort_by by_id (List.filter (λ r,
      match contract_ids with
      | Some (_ :: _ as ids) => mem (EventStore.c_contract_id (cols r)) ids
      | _ => true
      end) rows)));
  mask_rows rows.

Definition start_mask_events (contract_ids : option (list string)) (new_id : nat → string) : M string :=
  job_id ← oracle (λ n, Ok (new_id n));
  call (λ _, job_id) (MaskStarted contract_ids).

(** ** Replay *)

Record Refusal : Type := mkRefusal { status : Z; error : string }.

#[local] Instance Refusal_from_sqlx : FromSqlx Refusal := λ e, mkRefusal 500 (Errors.display (Database e)).

Definition get_indexed_ledger_range : Pg.M (list Row) Ev Refusal (option Z * option Z) :=
  query pg (λ _ rows,
    let ledgers := map row_ledger rows in
    (match ledgers with [] => None | l :: rest => Some (fold_left Z.min rest l) end,
     match ledgers with [] => None | l :: rest => Some (fold_left Z.max rest l) end)).

Definition show_range (a b : Z) : string := ("[" +:+ show_i a +:+ ", " +:+ show_i b +:+ "]")%string.

(** What a range has to do with the indexed window: a refusal or a warning. *)
Definition check_window (from to : Z) (range : option Z * option Z) : result (option string) Refusal :=
  match range with
  | (None, None) =>
      Err (mkRefusal 400 "requested range is entirely outside the indexed window: no events have been indexed yet")
  | (Some lo, Some hi) =>
      if to <? lo then
        Err (mkRefusal 400 ("requested range " +:+ show_range from to +:+ " is entirely before the indexed window " +:+
                            show_range lo hi)%string)
      else if hi <? from then
        Err (mkRefusal 400 ("requested range " +:+ show_range from to +:+ " is entirely after the indexed window " +:+
                            show_range lo hi)%string)
      else if (from <? lo) || (hi <? to) then
        Ok (Some ("requested range " +:+ show_range from to +:+ " is partially outside the indexed window " +:+
                  show_range lo hi +:+ "; only ledgers " +:+ show_range (Z.max from lo) (Z.min to hi) +:+
                  " will be replayed")%string)
      else Ok None
  | _ => Ok None
  end.

(** The warning of an accepted replay, whose job is started. *)
Definition replay_events (is_active_indexer : bool) (from_ledger to_ledger : Z) : Pg.M (list Row) Ev Refusal (option string) :=
  of_result (if to_ledger <? from_ledger then Err (mkRefusal 400 "from_ledger must be <= to_ledger") else Ok ()) ;;
  let range_size := wrap_u 64 (to_ledger - from_ledger + 1) in
  of_result (if 10000 <? range_size then Err (mkRefusal 400 "ledger range cannot exceed 10,000 ledgers") else Ok ()) ;;
  of_result (if is_active_indexer then Ok () else Err (mkRefusal 403 "replay endpoint only available on active indexer")) ;;
  range ← get_indexed_ledger_range;
  warning ← of_result (check_window (wrap_i 64 from_ledger) (wrap_i 64 to_ledger) range);
  call (λ _, ()) (λ _, ReplayStarted from_ledger to_ledger) ;;
  mret warning.

Variable parse_from_rfc3339 : string → option Z.
(** A retry of a statement that runs into a deadlock. *)
Variable with_deadlock_retry : ∀ A, nat → Pg.M (list Row) Ev string A → Pg.M (list Row) Ev string A.

Definition replay_target : list string := ["tx_hash"; "contract_id"; "event_type"]%string.

Definition replay_row (e : SorobanEvent) (timestamp id now : Z) : Row :=
  new_row id now (ev_contract_id e) (ev_event_type e) (ev_tx_hash e) (ev_ledger e) timestamp
    (EventStore.event_data_of e) None None true.

Definition store_event_with_idempotency (e : SorobanEvent) : Pg.M (list Row) Ev string Z :=
  if i_max 64 <? ev_ledger e then throw "out of range integral type conversion attempted"%string
  else match parse_from_rfc3339 (ev_ledger_closed_at e) with
  | None => throw "input contains invalid characters"%string
  | Some timestamp =>
      n ← counter;
      with_deadlock_retry Z 3 (stmt pg (insert_or_skip replay_target (replay_row e timestamp (new_v4 n))))
  end.

(** The answer of the RPC to the [n]th request, from a ledger on. *)
Variable rpc : nat → Z → result GetEventsResult string.

Fixpoint store_each (events : list SorobanEvent) : Pg.M (list Row) Ev string () :=
  match events with
  | [] => mret ()
  | e :: rest => attempt (E := string) (store_event_with_idempotency e) ;; store_each rest
  end.

(** [None] when the fuel runs out. *)
Fixpoint replay_loop (fuel : nat) (current_ledger to_ledger : Z) : Pg.M (list Row) Ev string (option ()) :=
  match fuel with
  | O => mret None
  | S fuel =>
      if current_ledger <=? to_ledger then
        r ← call (λ n, rpc n current_ledger) (λ _, Fetched current_ledger);
        result ← of_result r;
        store_each (ger_events result) ;;
        if current_ledger <=? ger_latest_ledger result
        then replay_loop fuel (wrap_u 64 (ger_latest_ledger result + 1)) to_ledger
        else mret (Some ())
      else mret (Some ())
  end.

Definition execute_replay_job (fuel : nat) (from_ledger to_ledger : Z) : Pg.M (list Row) Ev string (option ()) :=
  replay_loop fuel from_ledger to_ledger.

(** ** Bulk insertion *)

Lemma bulk_loop_inserts_nothing events : ∀ a s,
  ∃ errs o, bulk_loop events a s =
    (Ok (mkBulk (inserted a) (skipped a) (failed a + Z.of_nat (length events)) errs), mkSt (db s) o (trace s)) ∧
    length errs = (length (errors a) + length events)%nat.
Proof.
  induction events as [|e events IH]; intros a s.
  { exists (errors a), (ops s). simpl. rewrite Z.add_0_r, Nat.add_0_r. by destruct a, s. }
  assert (∀ x s0, db s0 = db s → trace s0 = trace s → ∃ errs o,
    bulk_loop events (add_failure x a) s0 =
      (Ok (mkBulk (inserted a) (skipped a) (failed a + Z.of_nat (length (e :: events))) errs), mkSt (db s) o (trace s)) ∧
    length errs = (length (errors a) + length (e :: events))%nat) as Hfail.
  { intros x s0 Hd Ht. destruct (IH (add_failure x a) s0) as (errs & o & E & Hl). rewrite Hd, Ht in E. exists errs, o. split.
    - rewrite E. unfold add_failure. cbn [inserted skipped failed length]. do 3 f_equal. lia.
    - rewrite Hl. unfold add_failure. cbn [errors]. rewrite length_app. simpl. lia. }
  cbn [bulk_loop]. destruct (validate_contract_id _); [|by apply Hfail]. destruct (validate_tx_hash _); [|by apply Hfail].
  destruct (negb (is_event_type _)); [by apply Hfail|].
  unfold mbind, M_bind, counter, attempt, stmt, insert_or_skip. change (has_arbiter bulk_target) with false. cbn [negb].
  by destruct (db_fault pg (ops s)); apply Hfail.
Qed.

(** A bulk insertion stores nothing and fails every event: its ON CONFLICT
    clause names no unique index, so that PostgreSQL refuses every statement. *)
Theorem bulk_inserts_nothing events s :
  (0 < length events ≤ 1000)%nat →
  ∃ errs o, bulk_insert_events events s =
    (Ok (mkBulk 0 0 (Z.of_nat (length events)) errs), mkSt (db s) o (trace s)) ∧ length errs = length events.
Proof.
  intros [H0 H1]. unfold bulk_insert_events. rewrite (proj2 (Nat.leb_le _ _)) by (unfold MAX_BATCH_SIZE; lia).
  rewrite (proj2 (Nat.eqb_neq _ _)) by lia. unfold check. cbn [negb]. rewrite !bind_of_ok.
  apply (bulk_loop_inserts_nothing events (mkBulk 0 0 0 []) s).
Qed.

(** ** Anonymization *)

Definition unique_ids (rows : list Row) : Prop := NoDup (map row_id rows).
Definition unique_row_keys (rows : list Row) : Prop := NoDup (map row_key rows).

Lemma find_row_some id rows r : find_row id rows = Some r → r ∈ rows ∧ row_id r = id.
Proof. unfold find_row. intros [Hr Hid]%find_some. split; [by apply list_elem_of_In|by apply Z.eqb_eq]. Qed.

Definition update_row (id : Z) (f : Row → Row) (r : Row) : Row := if row_id r =? id then f r else r.

Lemma update_other id f rows : id ∉ map row_id rows → map (update_row id f) rows = rows.
Proof.
  intros Hn. rewrite <- (map_id rows) at 2. apply map_ext_in. intros r Hr. unfold update_row.
  destruct (Z.eqb_spec (row_id r) id) as [E|]; [|done]. exfalso. apply Hn. rewrite <- E. by apply list_elem_of_fmap_2, list_elem_of_In.
Qed.

Lemma find_row_update id f rows :
  (∀ r, row_id (f r) = row_id r) → find_row id (map (update_row id f) rows) = f <$> find_row id rows.
Proof.
  intros Hf. unfold find_row. induction rows as [|x rows IH]; [done|]. cbn [map List.find]. unfold update_row at 1 2.
  destruct (Z.eqb_spec (row_id x) id) as [E|E].
  - by rewrite Hf, E, Z.eqb_refl.
  - by rewrite (proj2 (Z.eqb_neq _ _) E).
Qed.

(** An update that gives one row a key of its own keeps the keys distinct. *)
Lemma update_keys_unique id f rows r :
  unique_ids rows → unique_row_keys rows → r ∈ rows → row_id r = id → row_key (f r) ∉ map row_key rows →
  unique_row_keys (map (update_row id f) rows).
Proof.
  unfold unique_ids, unique_row_keys. induction rows as [|x rows IH]; intros Hi Hk Hr Hid Hf; [by apply elem_of_nil in Hr|].
  simpl in *. apply NoDup_cons in Hi as [Hxi Hi]. apply NoDup_cons in Hk as [Hxk Hk].
  apply not_elem_of_cons in Hf as [Hfx Hf]. apply elem_of_cons in Hr as [<-|Hr].
  - unfold update_row at 1. rewrite Hid, Z.eqb_refl, update_other by (by rewrite <- Hid). by constructor.
  - unfold update_row at 1. destruct (Z.eqb_spec (row_id x) id) as [E|_].
    { exfalso. apply Hxi. rewrite E, <- Hid. by apply list_elem_of_fmap_2. }
    constructor; [|by apply IH]. intros (y & Hy & Hin)%list_elem_of_fmap. apply list_elem_of_fmap in Hin as (z & -> & Hz).
    unfold update_row in Hy. destruct (Z.eqb_spec (row_id z) id) as [E|_].
    + assert (z = r) as -> by (apply (nodup_map_inj row_id rows); congruence). by apply Hfx.
    + apply Hxk. rewrite Hy. by apply list_elem_of_fmap_2.
Qed.

Lemma update_by_id_ok id f rows r :
  unique_ids rows → unique_row_keys rows → r ∈ rows → row_id r = id → row_key (f r) ∉ map row_key rows →
  update_by_id id f rows = Ok ((), map (update_row id f) rows).
Proof.
  intros Hi Hk Hr Hid Hf. unfold update_by_id. rewrite bool_decide_true; [done|].
  by apply (update_keys_unique id f rows r).
Qed.

Definition retry_first : Prop := ∀ A n m s x s', m s = (Ok x, s') → with_deadlock_retry A n m s = (Ok x, s').

(** An event that has been anonymized is stored again, with its data, when its
    ledger is replayed: the new hash has freed its key.  And it is not all
    anonymized: the decoded and normalized data, which the API serves, are kept. *)
Theorem anonymized_event_returns id r e timestamp s :
  healthy pg → retry_first → unique_ids (db s) → unique_row_keys (db s) →
  find_row id (db s) = Some r → r_anonymized r = false →
  event_key e = row_key r → ev_ledger e ≤ i_max 64 → parse_from_rfc3339 (ev_ledger_closed_at e) = Some timestamp →
  sha256_hex (EventStore.c_tx_hash (cols r)) ≠ EventStore.c_tx_hash (cols r) →
  row_key (anonymize_row (sha256_hex (EventStore.c_tx_hash (cols r))) r) ∉ map row_key (db s) →
  ∃ s1 s2 r1 r2, anonymize_event id s = (Ok id, s1) ∧ store_event_with_idempotency e s1 = (Ok 1, s2) ∧
    db s2 = db s1 ++ [r2] ∧ row_key r2 = row_key r ∧ EventStore.c_event_data (cols r2) = EventStore.event_data_of e ∧
    r_anonymized r2 = false ∧
    find_row id (db s1) = Some r1 ∧ EventStore.c_event_data (cols r1) = anonymized_data ∧
    EventStore.c_event_data_decoded (cols r1) = EventStore.c_event_data_decoded (cols r) ∧ r_normalized r1 = r_normalized r.
Proof.
  intros Hh Hretry Hi Hk Hfind Ha Hkey Hl Hts Hsha Hfresh. destruct (find_row_some _ _ _ Hfind) as [Hr Hid].
  set (hashed := sha256_hex _) in *.
  pose proof (update_by_id_ok id (anonymize_row hashed) (db s) r Hi Hk Hr Hid Hfresh) as Hup.
  set (s1 := mkSt (map (update_row id (anonymize_row hashed)) (db s)) (S (S (ops s))) (trace s)).
  assert (row_key r ∉ map row_key (db s1)) as Hfree.
  { intros (y & Hy & Hin)%list_elem_of_fmap. apply list_elem_of_fmap in Hin as (z & -> & Hz). unfold update_row in Hy.
    destruct (Z.eqb_spec (row_id z) id) as [E|E].
    - assert (z = r) as -> by (apply (nodup_map_inj row_id (db s)); [done|done|done|congruence]). unfold row_key, EventStore.key_of in Hy.
      injection Hy as Hy. by apply Hsha.
    - assert (z = r) as -> by (by apply (nodup_map_inj row_key (db s))). done. }
  assert (find_row id (db s1) = Some (anonymize_row hashed r)) as Hfind1.
  { unfold s1. cbn [db]. by rewrite find_row_update, Hfind. }
  set (r2 := replay_row e timestamp (new_v4 (S (S (ops s)))) (now pg (S (S (ops s))))).
  exists s1, (mkSt (db s1 ++ [r2]) (S (S (S (ops s)))) (trace s)), (anonymize_row hashed r), r2.
  assert (row_key r2 = row_key r) as Hr2 by by rewrite <- Hkey.
  split_and!; try done.
  - unfold anonymize_event. rewrite (bind_ok _ _ _ _ _ (query_healthy pg _ s Hh)), Hfind, Ha.
    unfold anonymize_statement. fold hashed.
    by rewrite (bind_ok _ _ _ _ _ (stmt_healthy pg (λ _, update_by_id id (anonymize_row hashed)) (mkSt (db s) (S (ops s)) (trace s))
      _ _ Hh Hup)).
  - unfold store_event_with_idempotency. rewrite (proj2 (Z.ltb_ge _ _) Hl), Hts.
    rewrite (bind_ok counter _ s1 (S (S (ops s))) s1) by done. apply Hretry. apply (stmt_healthy pg _ s1 1 (db s1 ++ [r2]) Hh).
    unfold insert_or_skip. change (has_arbiter replay_target) with true. cbn [negb].
    rewrite bool_decide_false; [done|]. change (row_key r2 ∉ map row_key (db s1)). by rewrite Hr2.
Qed.

(** ** Deletion *)

(** What anonymization leaves of a row, and what it does not touch. *)
Definition erased (r r' : Row) : Prop :=
  row_id r' = row_id r ∧ EventStore.c_contract_id (cols r') = EventStore.c_contract_id (cols r) ∧
  r_anonymized r' = true ∧ EventStore.c_event_data (cols r') = anonymized_data.

Lemma anonymize_statement_spec id tx s s' :
  anonymize_statement id tx s = (Ok (), s') →
  db s' = map (update_row id (anonymize_row (sha256_hex tx))) (db s) ∧ trace s' = trace s.
Proof.
  unfold anonymize_statement, stmt, update_by_id. destruct (db_fault _ _); [done|].
  case_bool_decide; [|done]. by intros [= <-].
Qed.

Lemma anonymize_all_spec found : ∀ s s',
  anonymize_all found s = (Ok (), s') →
  Forall2 (λ r r', if bool_decide (row_id r ∈ map fst found) then erased r r' else r' = r) (db s) (db s').
Proof.
  induction found as [|[id tx] found IH]; intros s s'; cbn [anonymize_all map fst].
  { intros [= <-]. induction (db s); by constructor. }
  unfold mbind at 1, M_bind at 1. destruct (anonymize_statement id tx s) as [[[]|] s1] eqn:E1; [|done].
  apply anonymize_statement_spec in E1 as [Hd _]. intros H2. specialize (IH _ _ H2). rewrite Hd in IH. clear -IH.
  apply Forall2_fmap_l in IH. eapply Forall2_impl; [exact IH|]. intros r r' Hr. unfold compose in Hr. cbv beta in Hr.
  unfold update_row in Hr. destruct (Z.eqb_spec (row_id r) id) as [E|E].
  - rewrite bool_decide_true by (rewrite E; by left). revert Hr. by case_bool_decide; [|intros ->].
  - revert Hr. case_bool_decide as H1; case_bool_decide as H2; try done.
    + intros _. exfalso. apply H2. by right.
    + intros _. exfalso. apply elem_of_cons in H2 as [|]; done.
Qed.

(** A deletion that succeeds has removed exactly the events of the contract; an
    anonymization has erased the data of exactly those that were not yet
    anonymized, and both count them. *)
Theorem delete_contract_erases contract_id anonymize_only s action n s' :
  (∀ rows, row_order rows ≡ₚ rows) → unique_ids (db s) →
  delete_contract_events contract_id anonymize_only s = (Ok (action, n), s') →
  (action = "deleted"%string ∧ db s' = List.filter (λ r, negb (of_contract contract_id r)) (db s) ∧
   n = Z.of_nat (length (List.filter (of_contract contract_id) (db s)))) ∨
  (action = "anonymized"%string ∧
   Forall2 (λ r r', if of_contract contract_id r && negb (r_anonymized r) then erased r r' else r' = r) (db s) (db s') ∧
   n = Z.of_nat (length (List.filter (λ r, of_contract contract_id r && negb (r_anonymized r)) (db s)))).
Proof.
  intros Horder Hi. unfold delete_contract_events, of_result, mbind at 1, M_bind at 1.
  destruct (validate_contract_id _); [|done]. destruct (default false _).
  - set (p := λ r, of_contract contract_id r && negb (r_anonymized r)).
    unfold query, stmt, mbind, M_bind. destruct (db_fault _ _); [done|].
    set (found := map _ _). destruct (anonymize_all found _) as [[[]|] s1] eqn:E; [|done].
    intros E2. injection E2 as <- <- <-. right. apply anonymize_all_spec in E. cbn [db] in E. split_and!; [done| |].
    + apply Forall2_same_length_lookup_2; [by eapply Forall2_length|]. intros i r r' Hr Hr'.
      pose proof (Forall2_lookup_lr _ _ _ _ _ _ E Hr Hr') as H. cbv beta in H. fold (p r).
      assert (bool_decide (row_id r ∈ map fst found) = p r) as Hp; [|by rewrite Hp in H].
      apply eq_true_iff_eq. rewrite bool_decide_eq_true. unfold found. rewrite map_map. cbn [fst].
      rewrite (Permutation_map row_id (Horder _)). split.
      * intros (y & Ex & Hx)%list_elem_of_fmap. apply list_elem_of_In, filter_In in Hx as [Hx Hpx].
        assert (y = r) as Eyr; [|by rewrite <- Eyr]. apply (nodup_map_inj row_id (db s)); [done| | |done].
        -- by apply list_elem_of_In.
        -- by eapply list_elem_of_lookup_2.
      * intros Hpr. apply list_elem_of_fmap_2, list_elem_of_In, filter_In. split; [|done].
        apply list_elem_of_In. by eapply list_elem_of_lookup_2.
    + unfold found. rewrite length_map. by rewrite (Permutation_length (Horder _)).
  - unfold stmt, mbind, M_bind. destruct (db_fault _ _); [done|]. intros E. injection E as <- <- <-. by left.
Qed.

(** ** Masking *)

(** A text under a key that names an address or an account. *)
Fixpoint has_address (data : Value) : bool :=
  match data with
  | Object obj =>
      existsb (λ kv, has_address kv.2 ||
        match kv.2 with VString _ => names_address kv.1 | _ => false end) obj
  | Array arr => existsb has_address arr
  | _ => false
  end.

Lemma hex_digits_length fuel : ∀ n, (String.length (hex_digits fuel n) ≤ fuel)%nat.
Proof.
  induction fuel as [|f IH]; intros n; [simpl; lia|]. cbn [hex_digits]. rewrite string_length_app. cbn [String.length].
  specialize (IH (n / 16)). destruct (n <? 16); simpl; lia.
Qed.

Lemma masked_address_panics s : masked_address s = None.
Proof.
  unfold masked_address. pose proof (hex_digits_length 16 (default_hash s)) as Hl.
  rewrite string_length_app, (proj2 (Nat.leb_gt _ _)); [done|]. change (String.length "G") with 1%nat. lia.
Qed.

(** Masking never masks anything: data with an address makes it panic, and
    other data is returned as it is. *)
Theorem masking_never_masks data : mask_event_data data = if has_address data then None else Some data.
Proof.
  induction data as [| | | |l IH|l IH] using Value_nested_ind; try done.
  - cbn [mask_event_data has_address]. match goal with |- _ <$> ?f l = _ => set (elements := f) end.
    assert (elements l = if existsb has_address l then None else Some l) as ->; [|by destruct (existsb _ _)].
    induction IH as [|v l Hv _ IHl]; [done|]. cbn [elements existsb]. rewrite Hv. destruct (has_address v); [done|].
    cbn. fold elements. rewrite IHl. by destruct (existsb _ _).
  - cbn [mask_event_data has_address]. match goal with |- _ <$> ?f l = _ => set (entries := f) end. set (bad := λ kv : string * Value, _ || _).
    assert (entries l = if existsb bad l then None else Some l) as ->; [|by destruct (existsb _ _)].
    induction IH as [|[k v] l Hv _ IHl]; [done|]. cbn [entries existsb]. unfold bad at 1. cbn [fst snd] in *. rewrite Hv.
    destruct (has_address v); [done|]. cbn [orb mbind option_bind]. fold entries. rewrite IHl.
    destruct v as [|b|m|t|a|o]; simpl; try (by destruct (existsb bad l)).
    destruct (names_address k); [by rewrite masked_address_panics|]. simpl. by destruct (existsb bad l).
Qed.

Lemma set_event_data_same r : set_event_data (EventStore.c_event_data (cols r)) r = r.
Proof. unfold set_event_data, row_id, cols. by destruct r as [[? ? []] ? ? ?]. Qed.

Lemma mask_rows_keeps all rows : ∀ s,
  unique_ids all → rows ⊆ all → db s = all → db (mask_rows rows s).2 = all.
Proof.
  induction rows as [|r rows IH]; intros s Hi Hsub Hd; [done|]. cbn [mask_rows]. rewrite masking_never_masks.
  destruct (has_address _); [done|]. unfold mbind, M_bind, stmt. destruct (db_fault _ _); [done|].
  assert (map (update_row (row_id r) (set_event_data (EventStore.c_event_data (cols r)))) all = all) as Hsame.
  { rewrite <- (map_id all) at 2. apply map_ext_in. intros x Hx%list_elem_of_In. unfold update_row.
    destruct (Z.eqb_spec (row_id x) (row_id r)) as [E|]; [|done].
    assert (x = r) as ->; [|apply set_event_data_same]. apply (nodup_map_inj row_id all); [done|done| |done]. apply Hsub. by left. }
  unfold update_by_id. rewrite Hd. change (map _ all) with (map (update_row (row_id r) (set_event_data (EventStore.c_event_data (cols r)))) all).
  rewrite Hsame. case_bool_decide; [|done]. cbn [fst snd]. apply IH; [done| |done].
  intros x Hx. apply Hsub. by right.
Qed.

(** The masking job leaves the table as it was, whatever it holds and whatever fails. *)
Theorem masking_job_changes_nothing contract_ids s :
  unique_ids (db s) → db (mask_events_background contract_ids s).2 = db s.
Proof.
  intros Hi. unfold mask_events_background, query, stmt, mbind, M_bind. destruct (db_fault _ _); [done|].
  apply mask_rows_keeps; [done| |done]. intros x Hx. apply elem_of_take in Hx as (i & Hx & _).
  apply list_elem_of_lookup_2 in Hx. rewrite sort_by_permutation in Hx. apply list_elem_of_In, filter_In in Hx as [Hx _].
  by apply list_elem_of_In.
Qed.

(** ** Replay *)

(** A retry ends with the last attempt, after attempts that have changed nothing. *)
Definition retry_last : Prop := ∀ A n m s,
  (∀ s, is_ok (m s).1 = false → db (m s).2 = db s ∧ trace (m s).2 = trace s) →
  ∃ o, with_deadlock_retry A n m s = m (mkSt (db s) o (trace s)).

Lemma store_event_adds e s :
  retry_last → let s' := (store_event_with_idempotency e s).2 in
  (length (db s) ≤ length (db s') ≤ S (length (db s)))%nat ∧ trace s' = trace s.
Proof.
  intros Hretry. unfold store_event_with_idempotency. destruct (i_max 64 <? _); [split; simpl; done || lia|].
  destruct (parse_from_rfc3339 _) as [t|]; [|split; simpl; done || lia]. rewrite (bind_ok counter _ s (ops s) s) by done.
  set (m := stmt pg _). destruct (Hretry Z 3%nat m s) as [o ->].
  - intros s0. unfold m, stmt. destruct (db_fault _ _); [done|]. by destruct (insert_or_skip _ _ _ _) as [[]|].
  - unfold m, stmt. destruct (db_fault _ _); [split; simpl; done || lia|]. unfold insert_or_skip. cbn [db ops trace].
    destruct (negb _); [split; simpl; done || lia|]. case_bool_decide; cbn [snd db trace]; rewrite ?length_app; cbn [length]; split; done || lia.
Qed.

Lemma store_each_adds events : ∀ s,
  retry_last → ∃ s', store_each events s = (Ok (), s') ∧
    (length (db s) ≤ length (db s') ≤ length (db s) + length events)%nat ∧ trace s' = trace s.
Proof.
  induction events as [|e events IH]; intros s Hretry; [exists s; simpl; split_and!; done || lia|].
  cbn [store_each length]. unfold mbind, M_bind, attempt. pose proof (store_event_adds e s Hretry) as [Hl Ht].
  destruct (store_event_with_idempotency e s) as [r s1]. simpl in Hl, Ht.
  destruct (IH s1 Hretry) as (s' & E & Hl' & Ht'). exists s'. rewrite E. split_and!; [done|lia|lia|congruence].
Qed.

(** A replay of ledgers that the RPC has all closed asks the RPC once, for the
    first ledger, and stores no more than the events of that page: the latest
    ledger the RPC answers is its own, not that of the page. *)
Theorem replay_stops_after_one_page from_ledger to_ledger page s :
  retry_last → from_ledger ≤ to_ledger → rpc (ops s) from_ledger = Ok page →
  to_ledger ≤ ger_latest_ledger page < u_max 64 → 0 ≤ from_ledger →
  ∃ s', execute_replay_job 2 from_ledger to_ledger s = (Ok (Some ()), s') ∧
    trace s' = trace s ++ [Fetched from_ledger] ∧
    (length (db s') ≤ length (db s) + length (ger_events page))%nat.
Proof.
  intros Hretry Hle Hrpc Hlatest Hpos. unfold execute_replay_job. cbn [replay_loop]. rewrite (proj2 (Z.leb_le _ _) Hle).
  set (s1 := mkSt (db s) (S (ops s)) (trace s ++ [Fetched from_ledger])).
  rewrite (bind_ok _ _ s (rpc (ops s) from_ledger) s1) by done. rewrite Hrpc, bind_of_ok.
  destruct (store_each_adds (ger_events page) s1 Hretry) as (s' & E & Hl & Ht). exists s'.
  rewrite (bind_ok _ _ _ _ _ E), (proj2 (Z.leb_le from_ledger _)) by lia.
  rewrite wrap_u_small by (unfold in_u, u_max in *; lia). rewrite (proj2 (Z.leb_gt _ to_ledger)) by lia.
  split_and!; [done|done|]. simpl in Hl. lia.
Qed.

(** The job ends: every page takes it past the latest ledger it was told. *)
Theorem replay_terminates fuel : ∀ from_ledger to_ledger s,
  (∀ n l page, rpc n l = Ok page → ger_latest_ledger page < u_max 64) →
  0 ≤ from_ledger → Z.max 0 (to_ledger - from_ledger + 1) < Z.of_nat fuel →
  (execute_replay_job fuel from_ledger to_ledger s).1 ≠ Ok None.
Proof.
  unfold execute_replay_job. induction fuel as [|fuel IH]; intros from to s Hrpc Hpos Hfuel; [lia|]. cbn [replay_loop].
  destruct (Z.leb_spec from to) as [Hle|]; [|done].
  rewrite (bind_ok _ _ s (rpc (ops s) from) (mkSt (db s) (S (ops s)) (trace s ++ [Fetched from]))) by done.
  destruct (rpc (ops s) from) as [page|e] eqn:E; [|done]. rewrite bind_of_ok. unfold mbind at 1, M_bind at 1.
  destruct (store_each _ _) as [[]]; [|done]. destruct (Z.leb_spec from (ger_latest_ledger page)) as [Hl|]; [|done].
  specialize (Hrpc _ _ _ E) as Hu. rewrite wrap_u_small by (unfold in_u, u_max in *; lia).
  apply IH; [done|lia|lia].
Qed.

(** ** The window of a replay *)

Lemma fold_min_spec l : ∀ x y, fold_left Z.min l x ≤ y ↔ x ≤ y ∨ ∃ z, z ∈ l ∧ z ≤ y.
Proof.
  induction l as [|a l IH]; intros x y; simpl; [set_solver|]. rewrite IH. split.
  - intros [H|(z & Hz & H)]; [|right; exists z; split; [by right|done]]. destruct (Z.le_ge_cases x a); [left; lia|right; exists a; split; [by left|lia]].
  - intros [H|(z & [->|Hz]%elem_of_cons & H)]; [left; lia|left; lia|right; by exists z].
Qed.

Lemma fold_max_spec l : ∀ x y, y ≤ fold_left Z.max l x ↔ y ≤ x ∨ ∃ z, z ∈ l ∧ y ≤ z.
Proof.
  induction l as [|a l IH]; intros x y; simpl; [set_solver|]. rewrite IH. split.
  - intros [H|(z & Hz & H)]; [|right; exists z; split; [by right|done]]. destruct (Z.le_ge_cases a x); [left; lia|right; exists a; split; [by left|lia]].
  - intros [H|(z & [->|Hz]%elem_of_cons & H)]; [left; lia|left; lia|right; by exists z].
Qed.

Definition some_ledger (P : Z → Prop) (rows : list Row) : Prop := ∃ r, r ∈ rows ∧ P (row_ledger r).

Lemma some_ledger_cons P r rows : some_ledger P (r :: rows) ↔ P (row_ledger r) ∨ ∃ z, z ∈ map row_ledger rows ∧ P z.
Proof.
  unfold some_ledger. split.
  - intros (x & [->|Hx]%elem_of_cons & H); [by left|right]. exists (row_ledger x). split; [by apply list_elem_of_fmap_2|done].
  - intros [H|(z & (x & -> & Hx)%list_elem_of_fmap & H)]; [exists r|exists x]; (split; [|done]); [by left|by right].
Qed.

(** A replay is accepted exactly when the range meets the indexed window, and
    without a warning exactly when the window covers it; its job is started then. *)
Theorem replay_window_spec from_ledger to_ledger s :
  healthy pg → 0 ≤ from_ledger ≤ to_ledger → to_ledger ≤ i_max 64 → to_ledger - from_ledger < 10000 →
  let meets := some_ledger (λ l, l ≤ to_ledger) (db s) ∧ some_ledger (λ l, from_ledger ≤ l) (db s) in
  let covered := some_ledger (λ l, l ≤ from_ledger) (db s) ∧ some_ledger (λ l, to_ledger ≤ l) (db s) in
  match replay_events true from_ledger to_ledger s with
  | (Ok w, s') => meets ∧ (w = None ↔ covered) ∧ trace s' = trace s ++ [ReplayStarted from_ledger to_ledger]
  | (Err e, s') => ¬ meets ∧ status e = 400 ∧ trace s' = trace s
  end.
Proof.
  intros Hh [H0 Hle] Hmax Hrange meets covered. subst meets covered. unfold replay_events. rewrite (proj2 (Z.ltb_ge _ _) Hle), bind_of_ok.
  rewrite wrap_u_small by (unfold in_u, u_max; simpl in *; unfold i_max in *; simpl in *; lia).
  rewrite (proj2 (Z.ltb_ge 10000 _)), !bind_of_ok by lia. rewrite !wrap_i_small by (unfold in_i, i_max in *; simpl in *; lia).
  unfold get_indexed_ledger_range. rewrite (bind_ok _ _ _ _ _ (query_healthy pg _ s Hh)).
  destruct (db s) as [|r rows] eqn:Ed.
  { simpl. split_and!; [|done|done]. intros [(x & Hx & _) _]. by apply elem_of_nil in Hx. }
  cbn [map]. set (lo := fold_left Z.min _ _). set (hi := fold_left Z.max _ _).
  assert (∀ y, some_ledger (λ l, l ≤ y) (r :: rows) ↔ lo ≤ y) as Hlo
    by (intros y; rewrite some_ledger_cons; symmetry; apply fold_min_spec).
  assert (∀ y, some_ledger (λ l, y ≤ l) (r :: rows) ↔ y ≤ hi) as Hhi
    by (intros y; rewrite some_ledger_cons; symmetry; apply fold_max_spec).
  unfold check_window.
  destruct (Z.ltb_spec to_ledger lo); [simpl; rewrite Hlo, Hhi; split_and!; [lia|done|done]|].
  destruct (Z.ltb_spec hi from_ledger); [simpl; rewrite Hlo, Hhi; split_and!; [lia|done|done]|].
  destruct (Z.ltb_spec from_ledger lo), (Z.ltb_spec hi to_ledger); simpl; rewrite !Hlo, !Hhi; split_and!; try done;
    lia || (split; [done|lia]).
Qed.

End EventsAdmin.

(** ** Concrete runs *)

Definition demo_pg : PgEnv := mkPgEnv Z.of_nat (λ _, None).
Definition demo_tx : string := "aaaaaaaaaaaaaaaaaaaaaaaaaaaaaaaaaaaaaaaaaaaaaaaaaaaaaaaaaaaaaaaa".
Definition demo_contract : string := "CAAAAAAAAAAAAAAAAAAAAAAAAAAAAAAAAAAAAAAAAAAAAAAAAAAAAAAA".

(** The event of an account, as it was indexed. *)
Definition demo_event : SorobanEvent :=
  mkSorobanEvent None None demo_contract "contract" demo_tx 7 "t" None true (Object [("account", VString "GA")]%string) None None.
Definition demo_row : Row :=
  new_row 1 0 demo_contract "contract" demo_tx 7 5 (EventStore.event_data_of demo_event) (Some (VString "GA"%string)) None true.

Definition demo_input : BulkEventInput := mkInput demo_contract "contract" demo_tx 7 5 Null None None None.
Definition hashed (s : string) : string := ("h" +:+ s)%string.
Definition at_five (_ : string) : option Z := Some 5.
Definition no_retry (A : Type) (_ : nat) (m : Pg.M (list Row) Ev string A) : Pg.M (list Row) Ev string A := m.
Definition demo_ids (n : nat) : Z := Z.of_nat n + 100.
Definition demo_rpc (_ : nat) (_ : Z) : result GetEventsResult string := Ok (mkGetEventsResult [demo_event] 50 None None).

Lemma bulk_inserts_nothing_witness :
  ∃ errs o, bulk_insert_events demo_pg demo_ids [demo_input] (mkSt [] 0 []) = (Ok (mkBulk 0 0 1 errs), mkSt [] o []) ∧
    length errs = 1%nat.
Proof. apply (bulk_inserts_nothing demo_pg demo_ids [demo_input] (mkSt [] 0 [])). simpl. lia. Defined.

Lemma anonymized_event_returns_witness :
  ∃ s1 s2 r1 r2, anonymize_event demo_pg hashed 1 (mkSt [demo_row] 0 []) = (Ok 1, s1) ∧
    store_event_with_idempotency demo_pg demo_ids at_five no_retry demo_event s1 = (Ok 1, s2) ∧
    db s2 = db s1 ++ [r2] ∧ row_key r2 = row_key demo_row ∧
    EventStore.c_event_data (cols r2) = EventStore.event_data_of demo_event ∧
    r_anonymized r2 = false ∧
    find_row 1 (db s1) = Some r1 ∧ EventStore.c_event_data (cols r1) = anonymized_data ∧
    EventStore.c_event_data_decoded (cols r1) = None ∧ r_normalized r1 = Some (VString "GA"%string).
Proof.
  apply (anonymized_event_returns demo_pg demo_ids hashed at_five no_retry 1 demo_row demo_event 5 (mkSt [demo_row] 0 []));
    [done|by intros A n m s x s'|apply NoDup_singleton|apply NoDup_singleton|done|done|done|done|done|done|].
  apply not_elem_of_cons. split; [by vm_compute|]. apply not_elem_of_nil.
Defined.

Lemma delete_contract_erases_witness :
  let s' := (delete_contract_events demo_pg hashed (λ l, l) demo_contract (Some "true"%string) (mkSt [demo_row] 0 [])).2 in
  Forall2 (λ r r', if of_contract demo_contract r && negb (r_anonymized r) then erased r r' else r' = r) [demo_row] (db s').
Proof.
  set (run := delete_contract_events _ _ _ _ _ _).
  destruct (delete_contract_erases demo_pg hashed (λ l, l) demo_contract (Some "true"%string) (mkSt [demo_row] 0 [])
    "anonymized" 1 run.2) as [(H & _)|(_ & H & _)]; [done|apply NoDup_singleton|by vm_compute|done|exact H].
Defined.

Lemma masking_job_changes_nothing_witness :
  db (mask_events_background demo_pg (λ _, 7) None (mkSt [demo_row] 0 [])).2 = [demo_row].
Proof. apply (masking_job_changes_nothing demo_pg (λ _, 7) None (mkSt [demo_row] 0 [])). apply NoDup_singleton. Defined.

Lemma replay_stops_after_one_page_witness :
  ∃ s', execute_replay_job demo_pg demo_ids at_five no_retry demo_rpc 2 3 40 (mkSt [] 0 []) = (Ok (Some ()), s') ∧
    trace s' = [Fetched 3] ∧ (length (db s') ≤ 1)%nat.
Proof.
  apply (replay_stops_after_one_page demo_pg demo_ids at_five no_retry demo_rpc 3 40
    (mkGetEventsResult [demo_event] 50 None None) (mkSt [] 0 [])); [|lia|done|simpl; unfold u_max; simpl; lia|lia].
  intros A n m [d o t] _. by exists o.
Defined.

Lemma replay_terminates_witness :
  (execute_replay_job demo_pg demo_ids at_five no_retry demo_rpc 39 3 40 (mkSt [] 0 [])).1 ≠ Ok None.
Proof.
  apply (replay_terminates demo_pg demo_ids at_five no_retry demo_rpc 39); [|lia|lia].
  intros n l page [= <-]. by vm_compute.
Defined.

Lemma replay_window_spec_witness :
  match replay_events demo_pg true 5 9 (mkSt [demo_row] 0 []) with
  | (Ok w, s') => trace s' = [ReplayStarted 5 9]
  | _ => False
  end.
Proof.
  pose proof (replay_window_spec demo_pg 5 9 (mkSt [demo_row] 0 []) ltac:(done) ltac:(lia) ltac:(unfold i_max; simpl; lia) ltac:(lia)) as H.
  destruct (replay_events _ _ _ _ _) as [[w|e] s'] eqn:E; [exact (proj2 (proj2 H))|]. vm_compute in E. discriminate E.
Defined.

End EventsAdmin.
