(* ===== verification/EventRouter.v ===== *)
(** event_router.rs: routing of events to publishing destinations, with
    batches, a token bucket, retries and a dead-letter queue for each.

    The destinations ([DestinationSink]), the dead-letter queue and the clock
    answer by step number; every publication, parking and sleep leaves a trace.
    A HashMap is iterated in the order [hash_order] gives it. *)

From S2P Require Import Prelude Text F64 Model.

Module EventRouter.

(** ** Routing rules *)

Inductive RouteMatcher : Type :=
| All
| ContractId (ids : list string)
| EventType (types : list string)
| MinLedger (min : Z)
| AllOf (inner : list RouteMatcher)
| AnyOf (inner : list RouteMatcher).

(** [contains]. *)
Definition mem (s : string) (l : list string) : bool := bool_decide (s ∈ l).

Fixpoint matches (m : RouteMatcher) (event : SorobanEvent) : bool :=
  match m with
  | All => true
  | ContractId ids => mem (ev_contract_id event) ids
  | EventType types => mem (ev_event_type event) types
  | MinLedger min => min <=? ev_ledger event
  | AllOf inner => forallb (λ m, matches m event) inner
  | AnyOf inner => existsb (λ m, matches m event) inner
  end.

Record RoutingRule : Type := mkRule {
  destination : string;
  matcher : RouteMatcher;
  topic : option string;
  enabled : bool;
}.

Definition rule_for (event : SorobanEvent) (r : RoutingRule) : bool := enabled r && matches (matcher r) event.

Fixpoint resolve_loop (rules : list RoutingRule) (event : SorobanEvent) (seen : list string) : list string :=
  match rules with
  | [] => seen
  | r :: rest =>
      resolve_loop rest event
        (if rule_for event r && negb (mem (destination r) seen) then seen ++ [destination r] else seen)
  end.

Definition resolve_destinations (rules : list RoutingRule) (event : SorobanEvent) : list string := resolve_loop rules event [].

Definition resolve_topic (rules : list RoutingRule) (dest : string) (event : SorobanEvent) (default_topic : string) : string :=
  default default_topic
    (head (omap topic (List.filter (λ r, enabled r && String.eqb (destination r) dest && matches (matcher r) event) rules))).

(** [tx_hash:contract_id:ledger]. *)
Definition idempotency_key (e : SorobanEvent) : string :=
  (ev_tx_hash e +:+ ":" +:+ ev_contract_id e +:+ ":" +:+ show_i (ev_ledger e))%string.

(** ** Rate limiting *)

Record RateLimiter : Type := mkLimiter { capacity : f64; tokens : f64; refill_per_sec : f64; last_refill : Z }.

Definition new_limiter (capacity refill_per_sec : f64) (now : Z) : RateLimiter :=
  mkLimiter capacity capacity refill_per_sec now.

(** Nanoseconds as seconds. *)
Definition as_secs_f64 (ns : Z) : f64 := F64.div (F64.of_Z ns) (F64.of_Z 1000000000).

Definition try_acquire (n : f64) (now1 now2 : Z) (l : RateLimiter) : bool * RateLimiter :=
  let elapsed := as_secs_f64 (now1 - last_refill l) in
  let t := F64.min (F64.add (tokens l) (F64.mul elapsed (refill_per_sec l))) (capacity l) in
  if F64.leb n t then (true, mkLimiter (capacity l) (F64.sub t n) (refill_per_sec l) now2)
  else (false, mkLimiter (capacity l) t (refill_per_sec l) now2).

(** ** The router *)

Inductive DeliveryStatus : Type := Delivered | Retrying | DeadLettered | Throttled.

#[export] Instance DeliveryStatus_eq_dec : EqDecision DeliveryStatus.
Proof. solve_decision. Defined.

Record DestinationMetrics : Type := mkMetrics {
  published : Z;
  failed : Z;
  retried : Z;
  dead_lettered : Z;
  throttled : Z;
  total_latency_ms : Z;
  batches : Z;
  healthy : Z;
}.

Definition new_metrics : DestinationMetrics := mkMetrics 0 0 0 0 0 0 0 1.

Definition avg_latency_ms (m : DestinationMetrics) : f64 :=
  if batches m =? 0 then F64.of_Z 0 else F64.div (F64.of_Z (total_latency_ms m)) (F64.of_Z (batches m)).

Record DeliveryBatch : Type := mkBatch { b_events : list SorobanEvent; b_keys : list string }.

Record RouterConfig : Type := mkConfig {
  max_batch_size : Z;
  max_retries : nat;
  retry_backoff_base_ms : Z;
  rate_limit_per_sec : f64;
}.

Definition default_config : RouterConfig := mkConfig 100 3 100 (F64.of_Z 1000).

Record Destination : Type := mkDestination { metrics : DestinationMetrics; limiter : RateLimiter }.

Inductive Ev : Type :=
| Published (name : string) (batch : DeliveryBatch) (ok : bool)
| Slept (ms : Z)
| Parked (name : string) (batch : DeliveryBatch) (reason : string) (ok : bool).

(** The outside: times in nanoseconds, and answers, by step number. *)
Record Env : Type := mkEnv {
  now : nat → Z;
  publish_batch : nat → string → DeliveryBatch → result () string;
  dead_letter : option (nat → string → DeliveryBatch → string → result () string);
  health_check : nat → string → result () string;
}.

Record World : Type := mkWorld { destinations : gmap string Destination; step : nat; trace : list Ev }.

(** [impl Fn(&mut World) -> A]. *)
Definition Run (A : Type) : Type := World → A * World.

#[export] Instance Run_ret : MRet Run := λ A x w, (x, w).
#[export] Instance Run_bind : MBind Run := λ A B k m w, let '(x, w) := m w in k x w.

Definition observe {A} (f : nat → A) (log : A → list Ev) : Run A := λ w,
  let x := f (step w) in (x, mkWorld (destinations w) (S (step w)) (trace w ++ log x)).

Definition with_destinations {A} (f : gmap string Destination → A * gmap string Destination) : Run A := λ w,
  let '(x, ds) := f (destinations w) in (x, mkWorld ds (step w) (trace w)).

Definition update (name : string) (f : Destination → Destination) : Run () :=
  with_destinations (λ ds, ((), alter f name ds)).

Definition count (f : DestinationMetrics → DestinationMetrics) (name : string) : Run () :=
  update name (λ d, mkDestination (f (metrics d)) (limiter d)).

(** [fetch_add] on an [AtomicU64]. *)
Definition add_u64 (a b : Z) : Z := wrap_u 64 (a + b).

Definition count_published (n latency : Z) (m : DestinationMetrics) : DestinationMetrics :=
  mkMetrics (add_u64 (published m) n) (failed m) (retried m) (dead_lettered m) (throttled m)
    (add_u64 (total_latency_ms m) latency) (add_u64 (batches m) 1) 1.
Definition count_failed (n : Z) (m : DestinationMetrics) : DestinationMetrics :=
  mkMetrics (published m) (add_u64 (failed m) n) (retried m) (dead_lettered m) (throttled m) (total_latency_ms m) (batches m) (healthy m).
Definition count_retried (m : DestinationMetrics) : DestinationMetrics :=
  mkMetrics (published m) (failed m) (add_u64 (retried m) 1) (dead_lettered m) (throttled m) (total_latency_ms m) (batches m) (healthy m).
Definition count_dead (n : Z) (m : DestinationMetrics) : DestinationMetrics :=
  mkMetrics (published m) (failed m) (retried m) (add_u64 (dead_lettered m) n) (throttled m) (total_latency_ms m) (batches m) (healthy m).
Definition count_throttled (n : Z) (m : DestinationMetrics) : DestinationMetrics :=
  mkMetrics (published m) (failed m) (retried m) (dead_lettered m) (add_u64 (throttled m) n) (total_latency_ms m) (batches m) (healthy m).
Definition set_healthy (h : Z) (m : DestinationMetrics) : DestinationMetrics :=
  mkMetrics (published m) (failed m) (retried m) (dead_lettered m) (throttled m) (total_latency_ms m) (batches m) h.

Section Router.
Variable env : Env.
Variable cfg : RouterConfig.
Variable rules : list RoutingRule.
Variable hash_order : ∀ A, list A → list A.

Definition clock : Run Z := observe (now env) (λ _, []).
Definition sleep (ms : Z) : Run () := observe (λ _, ()) (λ _, [Slept ms]).

(** [register]. *)
Definition register (name : string) : Run () :=
  t ← clock;
  with_destinations (λ ds,
    ((), <[name := mkDestination new_metrics (new_limiter (rate_limit_per_sec cfg) (rate_limit_per_sec cfg) t)]> ds)).

(** [slice::chunks]. *)
Fixpoint chunks {A} (fuel n : nat) (l : list A) : list (list A) :=
  match fuel, l with
  | O, _ | _, [] => []
  | S fuel, _ => take n l :: chunks fuel n (drop n l)
  end.

Definition batch (events : list SorobanEvent) : list DeliveryBatch :=
  map (λ chunk, mkBatch chunk (map idempotency_key chunk))
    (chunks (length events) (Z.to_nat (Z.max (max_batch_size cfg) 1)) events).

Definition add_to_group (e : SorobanEvent) (g : gmap string (list SorobanEvent)) (d : string) : gmap string (list SorobanEvent) :=
  <[d := default [] (g !! d) ++ [e]]> g.

Definition partition_by_destination (events : list SorobanEvent) : gmap string (list SorobanEvent) :=
  fold_left (λ g e, fold_left (add_to_group e) (resolve_destinations rules e) g) events ∅.

Definition batch_len (b : DeliveryBatch) : Z := Z.of_nat (length (b_events b)).

(** [base * 2_u64.pow(attempt)], wrapping. *)
Definition backoff_ms (attempt : nat) : Z :=
  wrap_u 64 (retry_backoff_base_ms cfg * wrap_u 64 (2 ^ Z.of_nat attempt)).

(** The attempts from number [attempt] on, [more] of them after this one; the
    last error when all fail. *)
Fixpoint attempts (more attempt : nat) (name : string) (b : DeliveryBatch) : Run (option string) :=
  started ← clock;
  r ← observe (λ n, publish_batch env n name b)
        (λ r, [Published name b (is_ok r)]);
  match r with
  | Ok _ =>
      ended ← clock;
      count (count_published (batch_len b) (wrap_u 64 ((ended - started) / 1000000))) name ;;
      mret None
  | Err e =>
      count (count_failed (batch_len b)) name ;;
      match more with
      | O => mret (Some e)
      | S more =>
          count count_retried name ;;
          sleep (backoff_ms attempt) ;;
          attempts more (S attempt) name b
      end
  end.

Definition acquire (name : string) (n : Z) : Run bool :=
  now1 ← clock;
  now2 ← clock;
  with_destinations (λ ds,
    match ds !! name with
    | Some d =>
        let '(ok, l) := try_acquire (F64.of_Z n) now1 now2 (limiter d) in
        (ok, <[name := mkDestination (metrics d) l]> ds)
    | None => (false, ds)
    end).

Definition deliver (name : string) (b : DeliveryBatch) : Run DeliveryStatus :=
  admitted ← acquire name (batch_len b);
  if negb admitted then
    count (count_throttled (batch_len b)) name ;;
    mret Throttled
  else
    r ← attempts (max_retries cfg) 0 name b;
    match r with
    | None => mret Delivered
    | Some last_error =>
        count (set_healthy 0) name ;;
        match dead_letter env with
        | Some park =>
            p ← observe (λ n, park n name b last_error) (λ p, [Parked name b last_error (is_ok p)]);
            match p with
            | Ok _ => count (count_dead (batch_len b)) name ;; mret DeadLettered
            | Err _ => mret Retrying
            end
        | None => mret Retrying
        end
    end.

Fixpoint deliver_all (name : string) (bs : list DeliveryBatch) (status : DeliveryStatus) : Run DeliveryStatus :=
  match bs with
  | [] => mret status
  | b :: rest =>
      s ← deliver name b;
      deliver_all name rest (if decide (s = Delivered) then status else s)
  end.

Fixpoint route_groups (groups : list (string * list SorobanEvent)) (outcomes : gmap string DeliveryStatus) :
    Run (gmap string DeliveryStatus) :=
  match groups with
  | [] => mret outcomes
  | (name, routed) :: rest =>
      known ← with_destinations (λ ds, (bool_decide (is_Some (ds !! name)), ds));
      if known : bool then
        status ← deliver_all name (batch routed) Delivered;
        route_groups rest (<[name := status]> outcomes)
      else route_groups rest outcomes
  end.

Definition route (events : list SorobanEvent) : Run (gmap string DeliveryStatus) :=
  route_groups (hash_order _ (map_to_list (partition_by_destination events))) ∅.

Fixpoint check_all (names : list string) : Run (list (string * bool)) :=
  match names with
  | [] => mret []
  | name :: rest =>
      h ← observe (λ n, is_ok (health_check env n name)) (λ _, []);
      count (set_healthy (if h : bool then 1 else 0)) name ;;
      l ← check_all rest;
      mret ((name, h) :: l)
  end.

Definition health_checks : Run (list (string * bool)) :=
  names ← with_destinations (λ ds, (hash_order _ (map fst (map_to_list ds)), ds));
  check_all names.

End Router.

(** *** The dashboard *)

Record Snapshot : Type := mkSnapshot {
  sn_destination : string;
  sn_published : Z;
  sn_failed : Z;
  sn_retried : Z;
  sn_dead_lettered : Z;
  sn_throttled : Z;
  sn_avg_latency_ms : f64;
  sn_healthy : bool;
}.

Definition snapshot (name : string) (m : DestinationMetrics) : Snapshot :=
  mkSnapshot name (published m) (failed m) (retried m) (dead_lettered m) (throttled m) (avg_latency_ms m) (healthy m =? 1).

Definition by_name (a b : Snapshot) : comparison := String.compare (sn_destination a) (sn_destination b).

Definition metrics_snapshot (w : World) : list Snapshot :=
  Prelude.sort_by by_name (map (λ nd, snapshot nd.1 (metrics nd.2)) (map_to_list (destinations w))).

Definition failing_destinations (threshold : f64) (w : World) : list Snapshot :=
  List.filter (λ s,
    let total := wrap_u 64 (sn_published s + sn_failed s) in
    (0 <? total) && F64.gtb (F64.div (F64.of_Z (sn_failed s)) (F64.of_Z total)) threshold) (metrics_snapshot w).

(** ** Which destinations an event goes to *)

Lemma resolve_loop_spec rules e : ∀ seen,
  NoDup seen → NoDup (resolve_loop rules e seen) ∧
  ∀ d, d ∈ resolve_loop rules e seen ↔ d ∈ seen ∨ ∃ r, r ∈ rules ∧ rule_for e r = true ∧ destination r = d.
Proof.
  induction rules as [|r rules IH]; intros seen Hn; cbn [resolve_loop].
  { split; [done|]. intros d. split; [by left|]. intros [|(r & Hr & _)]; [done|by apply elem_of_nil in Hr]. }
  match goal with |- context [resolve_loop rules e ?s] => set (seen' := s) end.
  assert (NoDup seen' ∧ ∀ d, d ∈ seen' ↔ d ∈ seen ∨ (rule_for e r = true ∧ destination r = d)) as [Hn' Hs].
  { unfold seen', mem. destruct (rule_for e r); simpl; [|split; [done|intuition congruence]].
    case_bool_decide as Hin; simpl.
    - split; [done|]. intros d. split; [by left|]. by intros [|[_ <-]].
    - split; [apply NoDup_app; split_and!; [done|set_solver|apply NoDup_singleton]|].
      intros d. rewrite elem_of_app, list_elem_of_singleton. intuition congruence. }
  destruct (IH seen' Hn') as [H1 H2]. split; [done|]. intros d. rewrite H2, Hs. split.
  - intros [[H|[H E]]|(x & Hx & H)]; [by left|right; exists r|right; exists x]; (split; [|done]); [by left|by right].
  - intros [H|(x & [->|Hx]%elem_of_cons & H)]; [by left; left|by left; right|right; by exists x].
Qed.

Lemma resolve_NoDup rules e : NoDup (resolve_destinations rules e).
Proof. apply resolve_loop_spec, NoDup_nil_2. Qed.

(** An event goes to the destinations of the enabled rules that match it. *)
Lemma resolve_elem rules e d :
  d ∈ resolve_destinations rules e ↔ ∃ r, r ∈ rules ∧ rule_for e r = true ∧ destination r = d.
Proof.
  unfold resolve_destinations. rewrite (proj2 (resolve_loop_spec rules e [] NoDup_nil_2) d).
  split; [intros [H|H]; [by apply elem_of_nil in H|done]|by right].
Qed.

Definition goes_to (rules : list RoutingRule) (d : string) (e : SorobanEvent) : bool :=
  existsb (λ r, rule_for e r && String.eqb (destination r) d) rules.

Lemma goes_to_elem rules d e : goes_to rules d e = true ↔ d ∈ resolve_destinations rules e.
Proof.
  unfold goes_to. rewrite existsb_exists, resolve_elem. split.
  - intros (r & Hr%list_elem_of_In & [H1 H2%String.eqb_eq]%andb_true_iff). by exists r.
  - intros (r & Hr & H1 & <-). exists r. by rewrite <- list_elem_of_In, H1, String.eqb_refl.
Qed.

Lemma add_to_groups_lookup e ds : ∀ g d,
  NoDup ds →
  fold_left (add_to_group e) ds g !! d =
    if bool_decide (d ∈ ds) then Some (default [] (g !! d) ++ [e]) else g !! d.
Proof.
  induction ds as [|x ds IH]; intros g d Hn; cbn [fold_left]; [by case_bool_decide as Hin; [apply elem_of_nil in Hin|]|].
  apply NoDup_cons in Hn as [Hx Hn]. rewrite IH by done. unfold add_to_group. destruct (decide (d = x)) as [->|Hne].
  - rewrite lookup_insert_eq, bool_decide_false, bool_decide_true by (done || by left). done.
  - rewrite lookup_insert_ne by done. do 2 case_bool_decide; try done; set_solver.
Qed.

Lemma partition_lookup rules events : ∀ g d,
  fold_left (λ g e, fold_left (add_to_group e) (resolve_destinations rules e) g) events g !! d =
    match List.filter (goes_to rules d) events with
    | [] => g !! d
    | l => Some (default [] (g !! d) ++ l)
    end.
Proof.
  induction events as [|e events IH]; intros g d; [done|]. cbn [fold_left List.filter]. rewrite IH.
  rewrite add_to_groups_lookup by apply resolve_NoDup. destruct (goes_to rules d e) eqn:Eg.
  - rewrite bool_decide_true by by apply goes_to_elem.
    destruct (List.filter _ events) as [|y l]; [done|]. simpl. by rewrite <- app_assoc.
  - rewrite bool_decide_false; [done|]. intros H%goes_to_elem. congruence.
Qed.

(** ** Batches *)

Lemma chunks_spec {A} fuel : ∀ n (l : list A),
  (length l ≤ fuel)%nat → (0 < n)%nat →
  concat (chunks fuel n l) = l ∧ Forall (λ c, (0 < length c ≤ n)%nat) (chunks fuel n l).
Proof.
  induction fuel as [|fuel IH]; intros n l Hl Hn.
  { destruct l; simpl in *; [done|lia]. }
  destruct l as [|x l]; [done|]. cbn [chunks concat].
  destruct (IH n (drop n (x :: l))) as [H1 H2]; [rewrite length_drop; simpl in *; lia|done|]. split.
  - by rewrite H1, take_drop.
  - constructor; [|done]. rewrite length_take. simpl. lia.
Qed.

Lemma batch_spec cfg events :
  concat (map b_events (batch cfg events)) = events ∧
  Forall (λ b, b_keys b = map idempotency_key (b_events b) ∧
               0 < batch_len b ≤ Z.max (max_batch_size cfg) 1) (batch cfg events).
Proof.
  unfold batch. rewrite map_map. cbn [b_events]. rewrite map_id.
  destruct (chunks_spec (length events) (Z.to_nat (Z.max (max_batch_size cfg) 1)) events) as [H1 H2]; [done|lia|].
  split; [done|]. apply Forall_fmap. eapply Forall_impl; [exact H2|]. intros c Hc. cbv beta in Hc. unfold compose, batch_len. simpl.
  split; [done|lia].
Qed.

(** ** Deliveries *)

Section Deliveries.
Variable env : Env.
Variable cfg : RouterConfig.
Variable rules : list RoutingRule.
Variable hash_order : ∀ A, list A → list A.

(** [k] attempts that fail, from number [from], each followed by its backoff. *)
Definition failures (name : string) (b : DeliveryBatch) (from k : nat) : list Ev :=
  concat (map (λ i, [Published name b false; Slept (backoff_ms cfg i)]) (seq from k)).

(** How the delivery of a batch can go, and the trace it leaves. *)
Inductive delivery (name : string) (b : DeliveryBatch) : DeliveryStatus → list Ev → Prop :=
| is_throttled : delivery name b Throttled []
| is_delivered k :
    (k ≤ max_retries cfg)%nat → delivery name b Delivered (failures name b 0 k ++ [Published name b true])
| is_parked reason :
    delivery name b DeadLettered
      (failures name b 0 (max_retries cfg) ++ [Published name b false; Parked name b reason true])
| is_not_parked reason :
    delivery name b Retrying
      (failures name b 0 (max_retries cfg) ++ [Published name b false; Parked name b reason false])
| is_dropped :
    dead_letter env = None → delivery name b Retrying (failures name b 0 (max_retries cfg) ++ [Published name b false]).

Definition known (w : World) : gset string := dom (destinations w).

(** Whatever the state, [m] ends with a result and a trace that satisfy [P],
    and with the same destinations. *)
Definition leaves {A} (m : Run A) (P : A → list Ev → Prop) : Prop :=
  ∀ w, ∃ x w' tr, m w = (x, w') ∧ known w' = known w ∧ trace w' = trace w ++ tr ∧ P x tr.

Lemma leaves_ret {A} (x : A) (P : A → list Ev → Prop) : P x [] → leaves (mret x) P.
Proof. intros HP w. exists x, w, []. by rewrite app_nil_r. Qed.

Lemma leaves_bind {A B} (m : Run A) (k : A → Run B) Q P :
  leaves m Q → (∀ x tr, Q x tr → leaves (k x) (λ y tr', P y (tr ++ tr'))) → leaves (m ≫= k) P.
Proof.
  intros Hm Hk w. destruct (Hm w) as (x & w1 & tr1 & E1 & K1 & T1 & Q1).
  destruct (Hk x tr1 Q1 w1) as (y & w2 & tr2 & E2 & K2 & T2 & P2). exists y, w2, (tr1 ++ tr2).
  unfold mbind, Run_bind. rewrite E1. split_and!; [done|congruence| |done]. by rewrite T2, T1, app_assoc.
Qed.

Lemma leaves_observe {A} (f : nat → A) log (P : A → list Ev → Prop) :
  (∀ n, P (f n) (log (f n))) → leaves (observe f log) P.
Proof. intros HP w. eexists _, _, _. by split_and!. Qed.

Lemma leaves_count f name (P : () → list Ev → Prop) : P () [] → leaves (count f name) P.
Proof.
  intros HP w. eexists _, _, []. split; [done|]. rewrite app_nil_r. split_and!; [|done|done]. apply dom_alter_L.
Qed.

Lemma leaves_step {A B} (m : Run A) (k : A → Run B) (P : B → list Ev → Prop) :
  leaves m (λ _ tr, tr = []) → (∀ x, leaves (k x) P) → leaves (m ≫= k) P.
Proof. intros Hm Hk. eapply leaves_bind; [exact Hm|]. intros x tr ->. apply Hk. Qed.

Lemma leaves_clock : leaves (clock env) (λ _ tr, tr = []).
Proof. by apply leaves_observe. Qed.

Lemma leaves_acquire name n : leaves (acquire env name n) (λ _ tr, tr = []).
Proof.
  apply leaves_step; [apply leaves_clock|intros t1]. apply leaves_step; [apply leaves_clock|intros t2]. intros w.
  unfold with_destinations. destruct (destinations w !! name) as [d|] eqn:E; cycle 1.
  { eexists _, _, []. rewrite app_nil_r. split_and!; done. }
  destruct (try_acquire _ _ _ _) as [ok l]. eexists _, _, []. rewrite app_nil_r. split_and!; try done.
  unfold known. simpl. rewrite dom_insert_L. apply elem_of_dom_2 in E. set_solver.
Qed.

Lemma leaves_conseq {A} (m : Run A) (P Q : A → list Ev → Prop) : leaves m P → (∀ x tr, P x tr → Q x tr) → leaves m Q.
Proof. intros Hm HPQ w. destruct (Hm w) as (x & w' & tr & H1 & H2 & H3 & H4). exists x, w', tr. eauto. Qed.

(** The attempts from number [from]: some failures, then a success or the last failure. *)
Lemma attempts_spec name b more : ∀ from,
  leaves (attempts env cfg more from name b) (λ r tr,
    match r with
    | None => ∃ k, (k ≤ more)%nat ∧ tr = failures name b from k ++ [Published name b true]
    | Some _ => tr = failures name b from more ++ [Published name b false]
    end).
Proof.
  induction more as [|more IH]; intros from; cbn [attempts]; (apply leaves_step; [apply leaves_clock|intros started]);
    (eapply leaves_bind; [apply (leaves_observe _ _ (λ r tr, tr = [Published name b (is_ok r)])); done|]);
    intros [[]|e] tr ->; cbn [is_ok].
  1, 3: apply leaves_step; [apply leaves_clock|intros ended]; apply leaves_step; [by apply leaves_count|intros _];
    apply leaves_ret; exists O; split; [lia|done].
  - apply leaves_step; [by apply leaves_count|intros _]. by apply leaves_ret.
  - apply leaves_step; [by apply leaves_count|intros _]. apply leaves_step; [by apply leaves_count|intros _].
    eapply leaves_bind; [apply (leaves_observe _ _ (λ _ tr, tr = [Slept (backoff_ms cfg from)])); done|]. intros [] tr ->.
    eapply leaves_conseq; [apply IH|]. intros [x|] tr; [by intros ->|]. intros (k & Hk & ->). exists (S k). split; [lia|done].
Qed.

Lemma deliver_spec name b : leaves (deliver env cfg name b) (delivery name b).
Proof.
  unfold deliver. apply leaves_step; [apply leaves_acquire|]. intros [|]; cbn [negb]; cycle 1.
  { apply leaves_step; [by apply leaves_count|intros _]. apply leaves_ret. constructor. }
  eapply leaves_bind; [apply attempts_spec|]. intros [e|] tr; cycle 1.
  { intros (k & Hk & ->). apply leaves_ret. rewrite app_nil_r. by constructor. }
  intros ->. apply leaves_step; [by apply leaves_count|intros _]. destruct (dead_letter env) as [park|] eqn:Ed; cycle 1.
  { apply leaves_ret. rewrite app_nil_r. by constructor. }
  eapply leaves_bind; [apply (leaves_observe _ _ (λ r tr, tr = [Parked name b e (is_ok r)])); done|]. intros [[]|x] tr ->.
  - apply leaves_step; [by apply leaves_count|intros _]. apply leaves_ret. rewrite app_nil_r, <- app_assoc. constructor.
  - apply leaves_ret. rewrite app_nil_r, <- app_assoc. constructor.
Qed.

(** The status of a destination: that of its last batch that was not delivered. *)
Definition summary (l : list DeliveryStatus) (first : DeliveryStatus) : DeliveryStatus :=
  fold_left (λ st s, if decide (s = Delivered) then st else s) l first.

(** The deliveries of some batches, in turn. *)
Definition deliveries (name : string) (bs : list DeliveryBatch) (l : list (DeliveryStatus * list Ev)) : Prop :=
  Forall2 (λ b st, delivery name b st.1 st.2) bs l.

Lemma deliver_all_spec name bs : ∀ first,
  leaves (deliver_all env cfg name bs first) (λ status tr,
    ∃ l, deliveries name bs l ∧ status = summary (map fst l) first ∧ tr = concat (map snd l)).
Proof.
  induction bs as [|b bs IH]; intros first; cbn [deliver_all].
  { apply leaves_ret. exists []. split_and!; [constructor|done|done]. }
  eapply leaves_bind; [apply deliver_spec|]. intros s tr Hd. eapply leaves_conseq; [apply IH|].
  intros status tr' (l & Hl & -> & ->). exists ((s, tr) :: l). split_and!; [by constructor|done|done].
Qed.

(** What routing did for one destination. *)
Record Outcome : Type := mkOutcome { o_name : string; o_deliveries : list (DeliveryStatus * list Ev) }.

Lemma route_groups_spec groups : ∀ outcomes w,
  ∃ os out w', route_groups env cfg groups outcomes w = (out, w') ∧
    trace w' = trace w ++ concat (map snd (concat (map o_deliveries os))) ∧
    map o_name os = List.filter (λ d, bool_decide (d ∈ known w)) (map fst groups) ∧
    Forall (λ o, ∃ routed, (o_name o, routed) ∈ groups ∧ deliveries (o_name o) (batch cfg routed) (o_deliveries o)) os ∧
    (NoDup (map fst groups) → ∀ d, d ∉ map o_name os → out !! d = outcomes !! d) ∧
    (NoDup (map fst groups) → Forall (λ o, out !! o_name o = Some (summary (map fst (o_deliveries o)) Delivered)) os).
Proof.
  induction groups as [|[name routed] groups IH]; intros outcomes w; cbn [route_groups].
  { exists [], outcomes, w. split_and!; try done. by rewrite app_nil_r. }
  unfold mbind at 1, Run_bind at 1, with_destinations. cbv zeta.
  assert (bool_decide (is_Some (destinations w !! name)) = bool_decide (name ∈ known w)) as ->
    by (apply bool_decide_ext; symmetry; apply elem_of_dom).
  replace (mkWorld _ _ _) with w by by destruct w. cbn [map fst List.filter]. case_bool_decide as Hk; cycle 1.
  { destruct (IH outcomes w) as (os & out & w' & E & T & N & F & H1 & H2). exists os, out, w'. split_and!; try done.
    - eapply Forall_impl; [exact F|]. intros o (r & Hr & Hd). exists r. split; [by right|done].
    - intros [_ Hn]%NoDup_cons. by apply H1.
    - intros [_ Hn]%NoDup_cons. by apply H2. }
  unfold mbind at 1, Run_bind at 1. destruct (deliver_all_spec name (batch cfg routed) Delivered w)
    as (status & w1 & tr & E1 & K1 & T1 & l & Hl & -> & ->). rewrite E1.
  destruct (IH (<[name := summary (map fst l) Delivered]> outcomes) w1) as (os & out & w' & E & T & N & F & H1 & H2).
  rewrite K1 in N. exists (mkOutcome name l :: os), out, w'. split_and!; [done| | | | |].
  - rewrite T, T1. cbn [map o_deliveries concat]. by rewrite map_app, concat_app, app_assoc.
  - cbn [map o_name]. by rewrite N.
  - constructor; [exists routed; split; [by left|done]|]. eapply Forall_impl; [exact F|].
    intros o (r & Hr & Hd). exists r. split; [by right|done].
  - intros [_ Hn]%NoDup_cons d Hd. cbn [map o_name] in Hd. apply not_elem_of_cons in Hd as [Hne Hd].
    rewrite H1 by done. by apply lookup_insert_ne.
  - intros [Hx Hn]%NoDup_cons. constructor; [|by apply H2]. cbn [o_name o_deliveries]. rewrite H1; [by rewrite lookup_insert_eq|done|].
    rewrite N. intros Hin. apply Hx. apply list_elem_of_In, filter_In in Hin as [Hin _]. by apply list_elem_of_In.
Qed.

Hypothesis hash_order_perm : ∀ A (l : list A), hash_order A l ≡ₚ l.

(** C33. Routing accounts for every event and destination.  Each known destination
    that a rule sends an event to gets exactly the events the rules send it, in
    order, in batches that are each delivered within the attempts, throttled
    without an attempt, parked, or given up after every attempt; nothing else is
    published, and its status is that of its last batch that was not delivered. *)
Theorem route_accounts events w :
  ∃ os out w', route env cfg rules hash_order events w = (out, w') ∧
    trace w' = trace w ++ concat (map snd (concat (map o_deliveries os))) ∧
    NoDup (map o_name os) ∧
    (∀ d, d ∈ map o_name os ↔ d ∈ known w ∧ ∃ e, e ∈ events ∧ d ∈ resolve_destinations rules e) ∧
    Forall (λ o, ∃ bs, deliveries (o_name o) bs (o_deliveries o) ∧
              concat (map b_events bs) = List.filter (goes_to rules (o_name o)) events ∧
              Forall (λ b, b_keys b = map idempotency_key (b_events b) ∧ 0 < batch_len b ≤ Z.max (max_batch_size cfg) 1) bs ∧
              out !! o_name o = Some (summary (map fst (o_deliveries o)) Delivered)) os.
Proof.
  unfold route. set (groups := hash_order _ _).
  destruct (route_groups_spec groups ∅ w) as (os & out & w' & E & T & N & F & _ & H2).
  assert (NoDup (map fst groups)) as Hn.
  { unfold groups. rewrite (Permutation_map fst (hash_order_perm _ _)). apply NoDup_fst_map_to_list. }
  assert (∀ d l, (d, l) ∈ groups ↔ l = List.filter (goes_to rules d) events ∧ l ≠ []) as Hg.
  { intros d l. unfold groups. rewrite hash_order_perm, elem_of_map_to_list. unfold partition_by_destination.
    rewrite partition_lookup, lookup_empty. destruct (List.filter _ events); simpl; intuition congruence. }
  exists os, out, w'. split_and!; [done|done| | |].
  - rewrite N. by apply NoDup_ListNoDup, List.NoDup_filter, NoDup_ListNoDup.
  - intros d. rewrite N, list_elem_of_In, filter_In, bool_decide_eq_true, <- list_elem_of_In.
    assert (d ∈ map fst groups ↔ ∃ e, e ∈ events ∧ d ∈ resolve_destinations rules e) as ->; [|tauto].
    rewrite list_elem_of_fmap. split.
    + intros ([d' l] & -> & [-> Hne]%Hg). cbn [fst]. destruct (List.filter _ events) as [|e l] eqn:Ef; [done|].
      assert (e ∈ List.filter (goes_to rules d') events) as He by (rewrite Ef; by left).
      apply list_elem_of_In, filter_In in He as [He Hgo]. exists e. by rewrite list_elem_of_In, <- goes_to_elem.
    + intros (e & He & Hgo%goes_to_elem). exists (d, List.filter (goes_to rules d) events). split; [done|]. apply Hg. split; [done|].
      intros Ef. assert (e ∈ List.filter (goes_to rules d) events) as Hin
        by (apply list_elem_of_In, filter_In; by rewrite <- list_elem_of_In).
      rewrite Ef in Hin. by apply elem_of_nil in Hin.
  - specialize (H2 Hn). rewrite Forall_forall in F, H2 |- *. intros o Ho. destruct (F o Ho) as (routed & [-> _]%Hg & Hd).
    exists (batch cfg (List.filter (goes_to rules (o_name o)) events)). destruct (batch_spec cfg (List.filter (goes_to rules (o_name o)) events)).
    split_and!; [done|done|done|by apply H2].
Qed.

End Deliveries.

(** Two events of one transaction and contract have one key, whatever they are:
    a destination that honours the keys publishes one of them. *)
Lemma idempotency_key_collides e e' :
  ev_tx_hash e = ev_tx_hash e' → ev_contract_id e = ev_contract_id e' → ev_ledger e = ev_ledger e' →
  idempotency_key e = idempotency_key e'.
Proof. unfold idempotency_key. by intros -> -> ->. Qed.

Lemma register_known env cfg name w : known (register env cfg name w).2 = {[name]} ∪ known w.
Proof. apply dom_insert_L. Qed.

(** *** A destination that fails twice *)

Definition sample_event (tx : string) : SorobanEvent :=
  mkSorobanEvent None None "C1" "contract" tx 7 "" None true Null None None.

Definition sample_env : Env :=
  mkEnv (λ n, Z.of_nat n * 1000000)
    (λ n _ _, if bool_decide (n < 5)%nat then Err "down" else Ok ())
    None (λ _ _, Ok ()).

Definition sample_config : RouterConfig := mkConfig 1 3 100 (F64.of_Z 1000).

Definition sample_world : World := (register sample_env sample_config "kafka" (mkWorld ∅ 0 [])).2.

Lemma sample_known : known sample_world = {["kafka"]}.
Proof. unfold sample_world. rewrite register_known. unfold known. cbn [destinations]. rewrite dom_empty_L. apply union_empty_r_L. Qed.

Lemma route_accounts_witness :
  let rules := [mkRule "kafka" (ContractId ["C1"]) None true; mkRule "kafka" All None true] in
  (∃ os out w', route sample_env sample_config rules (λ _ l, l) [sample_event "a"; sample_event "b"] sample_world = (out, w') ∧
    map o_name os = ["kafka"]) ∧
  trace (route sample_env sample_config rules (λ _ l, l) [sample_event "a"; sample_event "b"] sample_world).2 =
    (let b t := mkBatch [sample_event t] [(t +:+ ":C1:7")%string] in
     [Published "kafka" (b "a") false; Slept 100; Published "kafka" (b "a") true; Published "kafka" (b "b") true]).
Proof.
  intros rules. split; [|vm_compute; reflexivity].
  destruct (route_accounts sample_env sample_config rules (λ _ l, l) (λ A l, reflexivity l)
    [sample_event "a"; sample_event "b"] sample_world) as (os & out & w' & E & T & N & M & _).
  exists os, out, w'. split; [exact E|].
  assert (∀ d, d ∈ map o_name os ↔ d = "kafka") as Hd.
  { intros d. rewrite M. split.
    - intros [Hk _]. rewrite sample_known in Hk. by apply elem_of_singleton in Hk.
    - intros ->. split; [rewrite sample_known; by apply elem_of_singleton|]. exists (sample_event "a"). split; [by left|]. apply goes_to_elem. vm_compute. reflexivity. }
  destruct (map o_name os) as [|x [|y l]].
  - assert ("kafka" ∈ @nil string) as H by by apply Hd. inversion H.
  - f_equal. apply Hd. by left.
  - apply NoDup_cons in N as [Hx _]. assert (x = "kafka") as -> by (apply Hd; by left).
    assert (y = "kafka") as -> by (apply Hd; right; by left). exfalso. apply Hx. by left.
Defined.

End EventRouter.
