(* ===== verification/Notifications.v ===== *)
(** Notifications: batching (notification_batching.rs), deduplication
    (notification_dedup.rs), limits of a channel (notification_rate_limit.rs),
    delivery with retries and its receipts (notification_delivery.rs) and the
    dispatcher of the channels (notification_channel.rs).

    Times are nanoseconds for [Instant] and microseconds for the database.  The
    limiter of the governor crate and the channels themselves are parameters. *)

From S2P Require Import Prelude F64 Model Pg RetryPolicy.

(** ** Batches *)

Module Batching.

Record BatchConfig : Type := mkConfig {
  enabled : bool;
  max_batch_size : Z;
  max_batch_window : Z;
  max_concurrent_batches : Z;
  dedup_enabled : bool;
}.

Definition default_config : BatchConfig := mkConfig true 50 5000000000 10 true.

Record QueuedNotification : Type := mkQueued {
  id : string;
  dedup_key : option string;
  channel : string;
  payload : string;
}.

Inductive FlushReason : Type := SizeThreshold | TimeWindow | Manual.

Record FlushedBatch : Type := mkFlushed {
  notifications : list QueuedNotification;
  duplicates_dropped : Z;
  reason : FlushReason;
}.

Record BatchMetrics : Type := mkMetrics {
  notifications_enqueued : Z;
  notifications_delivered : Z;
  batches_flushed : Z;
  m_duplicates_dropped : Z;
  delivery_failures : Z;
}.

Definition no_metrics : BatchMetrics := mkMetrics 0 0 0 0 0.

Definition average_batch_size (m : BatchMetrics) : f64 :=
  if batches_flushed m =? 0 then F64.of_Z 0
  else F64.div (F64.of_Z (notifications_delivered m)) (F64.of_Z (batches_flushed m)).

Record NotificationBatcher : Type := mkBatcher {
  config : BatchConfig;
  pending : list QueuedNotification;
  seen_dedup_keys : gset string;
  batch_started_at : option Z;
  metrics : BatchMetrics;
}.

Definition with_metrics (c : BatchConfig) (m : BatchMetrics) : NotificationBatcher := mkBatcher c [] ∅ None m.
Definition new (c : BatchConfig) : NotificationBatcher := with_metrics c no_metrics.

Definition count_enqueued (m : BatchMetrics) : BatchMetrics :=
  mkMetrics (add_u 64 (notifications_enqueued m) 1) (notifications_delivered m) (batches_flushed m) (m_duplicates_dropped m) (delivery_failures m).
Definition count_duplicate (m : BatchMetrics) : BatchMetrics :=
  mkMetrics (notifications_enqueued m) (notifications_delivered m) (batches_flushed m) (add_u 64 (m_duplicates_dropped m) 1) (delivery_failures m).
Definition count_flush (n : Z) (m : BatchMetrics) : BatchMetrics :=
  mkMetrics (notifications_enqueued m) (add_u 64 (notifications_delivered m) n) (add_u 64 (batches_flushed m) 1) (m_duplicates_dropped m) (delivery_failures m).
Definition count_failure (m : BatchMetrics) : BatchMetrics :=
  mkMetrics (notifications_enqueued m) (notifications_delivered m) (batches_flushed m) (m_duplicates_dropped m) (add_u 64 (delivery_failures m) 1).

Definition pending_count (b : NotificationBatcher) : Z := Z.of_nat (length (pending b)).

Definition flush (r : FlushReason) (b : NotificationBatcher) : FlushedBatch * NotificationBatcher :=
  (mkFlushed (pending b) 0 r, mkBatcher (config b) [] ∅ None (count_flush (pending_count b) (metrics b))).

(** [&mut self -> Option<FlushedBatch>]. *)
Definition flushed (p : FlushedBatch * NotificationBatcher) : option FlushedBatch * NotificationBatcher := (Some p.1, p.2).

Definition is_duplicate (n : QueuedNotification) (b : NotificationBatcher) : bool :=
  dedup_enabled (config b) && match dedup_key n with Some k => bool_decide (k ∈ seen_dedup_keys b) | None => false end.

(** The key that [insert] remembers. *)
Definition remember (n : QueuedNotification) (b : NotificationBatcher) : gset string :=
  match dedup_key n with
  | Some k => if dedup_enabled (config b) then {[k]} ∪ seen_dedup_keys b else seen_dedup_keys b
  | None => seen_dedup_keys b
  end.

Definition add (now : Z) (n : QueuedNotification) (b : NotificationBatcher) : option FlushedBatch * NotificationBatcher :=
  if negb (enabled (config b)) then (Some (mkFlushed [n] 0 Manual), b)
  else if is_duplicate n b then
    (None, mkBatcher (config b) (pending b) (seen_dedup_keys b) (batch_started_at b) (count_duplicate (metrics b)))
  else
    let b' := mkBatcher (config b) (pending b ++ [n]) (remember n b) (Some (default now (batch_started_at b))) (count_enqueued (metrics b)) in
    if max_batch_size (config b) <=? pending_count b' then flushed (flush SizeThreshold b') else (None, b').

Definition poll_time_window (now : Z) (b : NotificationBatcher) : option FlushedBatch * NotificationBatcher :=
  if negb (enabled (config b)) || (pending_count b =? 0) then (None, b)
  else
    match batch_started_at b with
    | Some started => if max_batch_window (config b) <=? Z.max 0 (now - started) then flushed (flush TimeWindow b) else (None, b)
    | None => (None, b)
    end.

Definition flush_now (b : NotificationBatcher) : option FlushedBatch * NotificationBatcher :=
  if pending_count b =? 0 then (None, b) else flushed (flush Manual b).

Inductive BatchDeliveryError : Type :=
| Timeout (d : Z)
| ChannelRejected (m : string)
| ConcurrencyLimitExceeded (n : Z).

Inductive BatchErrorAction : Type := RetryWhole | SplitAndRetry | RequeueLater.

Definition handle_batch_error (batch : FlushedBatch) (e : BatchDeliveryError) (m : BatchMetrics) : BatchErrorAction * BatchMetrics :=
  (match e with
   | Timeout _ => if 1 <? Z.of_nat (length (notifications batch)) then SplitAndRetry else RetryWhole
   | ConcurrencyLimitExceeded _ => RequeueLater
   | ChannelRejected _ => RetryWhole
   end, count_failure m).

(** ** What the batcher does with a sequence of calls *)

Inductive Op : Type :=
| Add (now : Z) (n : QueuedNotification)
| Poll (now : Z)
| FlushNow.

Definition step (o : Op) (b : NotificationBatcher) : option FlushedBatch * NotificationBatcher :=
  match o with
  | Add now n => add now n b
  | Poll now => poll_time_window now b
  | FlushNow => flush_now b
  end.

Fixpoint run (ops : list Op) (b : NotificationBatcher) : list FlushedBatch * NotificationBatcher :=
  match ops with
  | [] => ([], b)
  | o :: rest =>
      let '(f, b1) := step o b in
      let '(out, b2) := run rest b1 in
      (option_list f ++ out, b2)
  end.

Definition added (ops : list Op) : list QueuedNotification :=
  omap (λ o, match o with Add _ n => Some n | _ => None end) ops.

(** The reference: the first notification of each key. *)
Definition fresh_among (l : list QueuedNotification) (n : QueuedNotification) : bool :=
  match dedup_key n with
  | Some k => negb (bool_decide (Some k ∈ map dedup_key l))
  | None => true
  end.

Definition keep_first (l : list QueuedNotification) : list QueuedNotification :=
  fold_left (λ kept n, if fresh_among kept n then kept ++ [n] else kept) l [].

Definition deduplicated (c : BatchConfig) (l : list QueuedNotification) : list QueuedNotification :=
  if dedup_enabled c then keep_first l else l.

(** The state of a batcher that holds the notifications [group] since its last flush. *)
Definition holds (group : list QueuedNotification) (b : NotificationBatcher) : Prop :=
  pending b = deduplicated (config b) group ∧
  (dedup_enabled (config b) = true → ∀ k, k ∈ seen_dedup_keys b ↔ Some k ∈ map dedup_key (pending b)) ∧
  (pending b = [] → group = []) ∧
  (is_Some (batch_started_at b) ↔ pending b ≠ []) ∧
  pending_count b < Z.max 1 (max_batch_size (config b)).

Lemma keep_first_snoc l n :
  keep_first (l ++ [n]) = if fresh_among (keep_first l) n then keep_first l ++ [n] else keep_first l.
Proof. unfold keep_first. by rewrite fold_left_app. Qed.

Lemma keep_first_nil l : keep_first l = [] → l = [].
Proof.
  induction l as [|n l _] using rev_ind; [done|]. rewrite keep_first_snoc.
  assert (fresh_among [] n = true) as Hf by (unfold fresh_among; by destruct (dedup_key n)).
  destruct (keep_first l) as [|x k]; [by rewrite Hf|by case_match].
Qed.

(** What one call gives to the batch and to the next state. *)
Lemma step_holds o b group :
  enabled (config b) = true → holds group b →
  config (step o b).2 = config b ∧
  match (step o b).1 with
  | None => holds (group ++ added [o]) (step o b).2
  | Some f =>
      notifications f = deduplicated (config b) (group ++ added [o]) ∧
      0 < Z.of_nat (length (notifications f)) ≤ Z.max 1 (max_batch_size (config b)) ∧ holds [] (step o b).2
  end.
Proof.
  intros He Hh. pose proof Hh as (Hp & Hs & Hn & Ht & Hl).
  assert (∀ r b0, config (flush r b0).2 = config b0 ∧ holds [] (flush r b0).2) as Hflush.
  { intros r b0. split; [done|]. unfold holds, deduplicated, pending_count, flush. simpl. split_and!.
    - by destruct (dedup_enabled (config b0)).
    - set_solver.
    - done.
    - split; [by intros []|done].
    - lia. }
  unfold pending_count in *. destruct o as [now n|now|]; cbn [step]; cycle 1.
  - change (added [Poll now]) with (@nil QueuedNotification). rewrite app_nil_r.
    unfold poll_time_window, pending_count. rewrite He. simpl.
    destruct (Z.eqb_spec (Z.of_nat (length (pending b))) 0); [by split|].
    destruct (batch_started_at b); [|by split]. destruct (_ <=? _); [|by split]. simpl. split; [done|].
    split_and!; [done|lia|lia|apply (Hflush TimeWindow b)].
  - change (added [FlushNow]) with (@nil QueuedNotification). rewrite app_nil_r.
    unfold flush_now, pending_count. destruct (Z.eqb_spec (Z.of_nat (length (pending b))) 0); [by split|].
    simpl. split; [done|]. split_and!; [done|lia|lia|apply (Hflush Manual b)].
  - change (added [Add now n]) with [n].
    unfold add. rewrite He. cbn [negb].
    assert (deduplicated (config b) (group ++ [n]) = if is_duplicate n b then pending b else pending b ++ [n]) as Hd.
    { unfold deduplicated, is_duplicate in *. destruct (dedup_enabled (config b)); simpl; [|by rewrite Hp].
      rewrite keep_first_snoc, <- Hp. unfold fresh_among. destruct (dedup_key n) as [k|]; [|done]. specialize (Hs eq_refl k).
      do 2 case_bool_decide; simpl; try done; tauto. }
    destruct (is_duplicate n b) eqn:Ei; simpl.
    + split; [done|]. split_and!; try done. intros Hpe. exfalso. cbn [pending] in Hpe. unfold is_duplicate in Ei.
      destruct (dedup_enabled (config b)); [|done]. destruct (dedup_key n) as [k|]; [|done].
      apply bool_decide_eq_true, (Hs eq_refl) in Ei. rewrite Hpe in Ei. by apply elem_of_nil in Ei.
    + set (b' := mkBatcher _ _ _ _ _). assert (pending_count b' = Z.of_nat (length (pending b)) + 1) as Hc.
      { unfold pending_count, b'. simpl. rewrite length_app. simpl. lia. }
      rewrite Hc. destruct (Z.leb_spec (max_batch_size (config b)) (Z.of_nat (length (pending b)) + 1)); simpl.
      * split; [done|]. rewrite Hd. split; [done|]. split; [rewrite length_app; simpl; lia|apply (Hflush SizeThreshold b')].
      * split; [done|]. unfold holds. rewrite Hc. simpl. split_and!; [done| | | |lia].
        -- intros Hde k. specialize (Hs Hde k). unfold remember. rewrite Hde, map_app. simpl. rewrite elem_of_app, list_elem_of_singleton.
           destruct (dedup_key n) as [k'|]; set_solver.
        -- by intros []%app_eq_nil.
        -- split; [by intros _ []%app_eq_nil|by eexists].
Qed.

(** C34. A batcher delivers what it was given, in order and without the repetitions
    within a batch: the notifications added so far fall into consecutive groups,
    one for each batch that was flushed and one that is pending, and a batch is its
    group without the repeated keys, never empty and never over the limit. *)
Theorem batcher_refines ops c m :
  enabled c = true →
  let '(out, b) := run ops (with_metrics c m) in
  ∃ groups last,
    concat groups ++ last = added ops ∧
    map notifications out = map (deduplicated c) groups ∧
    pending b = deduplicated c last ∧
    Forall (λ f, 0 < Z.of_nat (length (notifications f)) ≤ Z.max 1 (max_batch_size c)) out ∧
    pending_count b < Z.max 1 (max_batch_size c).
Proof.
  intros He.
  assert (∀ ops b group, config b = c → holds group b →
    let '(out, b') := run ops b in
    ∃ groups last, concat groups ++ last = group ++ added ops ∧ map notifications out = map (deduplicated c) groups ∧
      config b' = c ∧ holds last b' ∧
      Forall (λ f, 0 < Z.of_nat (length (notifications f)) ≤ Z.max 1 (max_batch_size c)) out) as Hrun.
  { clear ops m. induction ops as [|o ops IH]; intros b group Hc Hh; cbn [run].
    { exists [], group. unfold added. simpl. by rewrite (app_nil_r group). }
    destruct (step_holds o b group) as [Hc1 Hf]; [by rewrite Hc|done|]. destruct (step o b) as [f b1]. cbn [fst snd] in Hc1, Hf.
    assert (added (o :: ops) = added [o] ++ added ops) as -> by (unfold added; by rewrite <- omap_app).
    rewrite Hc in Hc1, Hf. destruct f as [f|].
    - destruct Hf as (Hn & Hl & Hh1). specialize (IH b1 [] Hc1 Hh1). destruct (run ops b1) as [out b2].
      destruct IH as (groups & last & E & M & C2 & H2 & F2). exists ((group ++ added [o]) :: groups), last.
      split_and!; [|simpl; by rewrite M, Hn|done|done|by constructor]. cbn [concat]. by rewrite <- !app_assoc, E.
    - specialize (IH b1 _ Hc1 Hf). destruct (run ops b1) as [out b2]. destruct IH as (groups & last & E & M & C2 & H2 & F2).
      exists groups, last. by rewrite app_assoc. }
  specialize (Hrun ops (with_metrics c m) [] eq_refl). destruct (run ops (with_metrics c m)) as [out b].
  destruct Hrun as (groups & last & E & M & C & (Hp & _ & _ & _ & Hl) & F).
  - unfold holds, deduplicated, pending_count, with_metrics. simpl.
    split_and!; [by destruct (dedup_enabled c)|set_solver|done|split; [by intros []|done]|lia].
  - exists groups, last. rewrite C in Hp, Hl. done.
Qed.

Definition queued (k : option string) (p : string) : QueuedNotification := mkQueued p k "webhook" p.

Lemma batcher_refines_witness :
  let ops := [Add 0 (queued (Some "a") "1"); Add 1 (queued (Some "a") "2"); Add 2 (queued (Some "b") "3"); Add 3 (queued (Some "a") "4")] in
  let c := mkConfig true 2 1000 10 true in
  (∃ groups last, concat groups ++ last = added ops ∧
     map notifications (run ops (new c)).1 = map (deduplicated c) groups) ∧
  map notifications (run ops (new c)).1 = [[queued (Some "a") "1"; queued (Some "b") "3"]].
Proof.
  intros ops c. split; [|vm_compute; reflexivity]. pose proof (batcher_refines ops c no_metrics eq_refl) as H.
  unfold new. destruct (run ops (with_metrics c no_metrics)) as [out b]. destruct H as (groups & last & E & M & _).
  exists groups, last. split; [exact E|exact M].
Defined.

End Batching.

(** ** Limits of a channel *)

Module ChannelLimit.

Record RateLimitConfig : Type := mkConfig { max_per_minute : option Z; max_per_hour : option Z }.

Definition is_some {A} (o : option A) : bool := match o with Some _ => true | None => false end.

Definition is_enabled (c : RateLimitConfig) : bool := is_some (max_per_minute c) || is_some (max_per_hour c).

(** The limiter of the governor crate: a quota of [n] per period, a check that
    takes a token or refuses, and the wait for one. *)
Class Governor (L : Type) : Type := {
  per_minute_of : Z → L;
  per_hour_of : Z → L;
  limiter_check : Z → L → bool * L;
  until_ready : Z → L → L;
}.

Section ChannelLimit.
Context {L : Type} `{!Governor L}.

Record ChannelRateLimiter : Type := mkLimiter { per_minute : option L; per_hour : option L }.

(** [NonZeroU32::new]. *)
Definition non_zero (n : Z) : option Z := if n =? 0 then None else Some n.

Definition from_config (c : RateLimitConfig) : option ChannelRateLimiter :=
  if negb (is_enabled c) then None
  else Some (mkLimiter (per_minute_of <$> (max_per_minute c ≫= non_zero)) (per_hour_of <$> (max_per_hour c ≫= non_zero))).

Definition check_one (now : Z) (o : option L) : bool * option L :=
  match o with
  | Some l => let '(ok, l') := limiter_check now l in (ok, Some l')
  | None => (true, None)
  end.

Definition check (now1 now2 : Z) (r : ChannelRateLimiter) : bool * ChannelRateLimiter :=
  let '(minute_ok, m) := check_one now1 (per_minute r) in
  let '(hour_ok, h) := check_one now2 (per_hour r) in
  (minute_ok && hour_ok, mkLimiter m h).

(** One limiter of [acquire]: whether it had to wait. *)
Definition acquire_one (now1 now2 : Z) (o : option L) : bool * option L :=
  match o with
  | Some l => let '(ok, l') := limiter_check now1 l in if ok : bool then (false, Some l') else (true, Some (until_ready now2 l'))
  | None => (false, None)
  end.

(** The number of the counter rate_limited_total is the third component. *)
Definition acquire (now1 now2 now3 now4 : Z) (r : ChannelRateLimiter) (rate_limited_total : Z) : bool * ChannelRateLimiter * Z :=
  let '(w1, m) := acquire_one now1 now2 (per_minute r) in
  let '(w2, h) := acquire_one now3 now4 (per_hour r) in
  let rate_limited := w1 || w2 in
  (rate_limited, mkLimiter m h, if rate_limited then rate_limited_total + 1 else rate_limited_total).

(** A limit of zero is no limit. *)
Lemma zero_is_unlimited m r now1 now2 :
  from_config (mkConfig (Some 0) m) = Some r → default 0 m = 0 → check now1 now2 r = (true, r).
Proof. intros [= <-] Hm. destruct m as [n|]; [simpl in Hm; subst n|]; reflexivity. Qed.

(** A notification that only the hour refuses still takes a token of the minute. *)
Lemma refused_takes_minute_token now1 now2 lm lh lm' lh' :
  limiter_check now1 lm = (true, lm') → limiter_check now2 lh = (false, lh') →
  check now1 now2 (mkLimiter (Some lm) (Some lh)) = (false, mkLimiter (Some lm') (Some lh')).
Proof. unfold check, check_one. simpl. by intros -> ->. Qed.

End ChannelLimit.
End ChannelLimit.

(** ** Delivery with retries, and the channels of the dispatcher *)

Module Delivery.

Inductive NotificationError : Type :=
| Transient (m : string)
| InvalidTarget (m : string)
| Configuration (m : string).

Definition display (e : NotificationError) : string :=
  match e with
  | Transient m => "transient delivery error: " +:+ m
  | InvalidTarget m => "invalid delivery target: " +:+ m
  | Configuration m => "channel misconfigured: " +:+ m
  end%string.

Inductive DeliveryOutcome : Type := Delivered | TargetInvalid.

(** The counters notification_delivery_success and _failure, and the number of
    latencies recorded for each channel. *)
Record Counters : Type := mkCounters { success : Z; failure : Z; latencies : gmap string Z }.

Definition record {A E} (name : string) (r : result A E) (c : Counters) : Counters :=
  mkCounters (if is_ok r then success c + 1 else success c) (if is_ok r then failure c else failure c + 1) (<[name := default 0 (latencies c !! name) + 1]> (latencies c)).

Section Retries.
Variable policy : RetryPolicy.RetryPolicy.
(** The jitter's hash and the channel's answer, by attempt. *)
Variable hash : Z → Z.
Variable deliver : Z → result DeliveryOutcome NotificationError.

(** The attempts from number [attempt] on, [more] of them: the result and the sleeps. *)
Fixpoint attempts (more : nat) (attempt : Z) (last : result DeliveryOutcome NotificationError) :
    result DeliveryOutcome NotificationError * list Z :=
  match more with
  | O => (last, [])
  | S more =>
      match deliver attempt with
      | Ok outcome => (Ok outcome, [])
      | Err (Transient m) =>
          let '(r, sleeps) := attempts more (attempt + 1) (Err (Transient m)) in
          (r, if attempt <? RetryPolicy.max_attempts policy
              then RetryPolicy.calculate_backoff policy (hash attempt) attempt :: sleeps else sleeps)
      | Err e => (Err e, [])
      end
  end.

Definition deliver_with_retry (name : string) (c : Counters) : result DeliveryOutcome NotificationError * list Z * Counters :=
  let '(r, sleeps) := attempts (Z.to_nat (RetryPolicy.max_attempts policy)) 1 (Err (Transient "no attempts made")) in
  (r, sleeps, record name r c).

Definition transient (r : result DeliveryOutcome NotificationError) : bool :=
  match r with Err (Transient _) => true | _ => false end.

Definition backoff (attempt : Z) : Z := RetryPolicy.calculate_backoff policy (hash attempt) attempt.

Lemma delivery_attempts_spec more : ∀ from last,
  from + Z.of_nat more = RetryPolicy.max_attempts policy →
  ∃ j, (j ≤ more)%nat ∧
    attempts (S more) from last = (deliver (from + Z.of_nat j), map (λ i, backoff (from + Z.of_nat i)) (seq 0 j)) ∧
    (∀ i, (i < j)%nat → transient (deliver (from + Z.of_nat i)) = true) ∧
    (transient (deliver (from + Z.of_nat j)) = true → j = more).
Proof.
  induction more as [|more IH]; intros from last Hm.
  { exists O. rewrite Z.add_0_r. split; [done|]. split_and!; [|lia|done]. cbn [attempts].
    destruct (deliver from) as [|[]]; [done| |done|done]. rewrite (proj2 (Z.ltb_ge _ _)) by lia. done. }
  destruct (transient (deliver from)) eqn:Et.
  - destruct (deliver from) as [|[m| |]] eqn:Ed; try done.
    destruct (IH (from + 1) (Err (Transient m))) as (j & Hj & E & Ht & Hl); [lia|]. exists (S j).
    replace (from + Z.of_nat (S j)) with (from + 1 + Z.of_nat j) by lia. split_and!; [lia| | |intros H; f_equal; auto].
    + remember (S more) as n. cbn [attempts]. rewrite Ed, E, (proj2 (Z.ltb_lt _ _)) by lia. subst n. f_equal.
      cbn [seq map]. rewrite Z.add_0_r. f_equal. rewrite <- seq_shift, map_map. apply map_ext. intros i. f_equal. lia.
    + intros [|i] Hi; [by rewrite Z.add_0_r, Ed|]. replace (from + Z.of_nat (S i)) with (from + 1 + Z.of_nat i) by lia. apply Ht. lia.
  - exists O. rewrite Z.add_0_r, Et. split_and!; [lia| |lia|done]. cbn [attempts]. by destruct (deliver from) as [|[]].
Qed.

(** The driver stops at the first attempt that is not a transient failure, or
    at the last one: its answer is the result, each attempt before it is followed
    by its backoff, and exactly one of the two counters goes up. *)
Theorem deliver_with_retry_spec name c :
  0 < RetryPolicy.max_attempts policy →
  ∃ k, 1 ≤ k ≤ RetryPolicy.max_attempts policy ∧
    deliver_with_retry name c = (deliver k, map (λ i, backoff (1 + Z.of_nat i)) (seq 0 (Z.to_nat (k - 1))), record name (deliver k) c) ∧
    (∀ i, 1 ≤ i < k → transient (deliver i) = true) ∧
    (transient (deliver k) = true → k = RetryPolicy.max_attempts policy).
Proof.
  intros Hm. unfold deliver_with_retry. destruct (Z.to_nat (RetryPolicy.max_attempts policy)) as [|more] eqn:En; [lia|].
  destruct (delivery_attempts_spec more 1 (Err (Transient "no attempts made"))) as (j & Hj & E & Ht & Hl); [lia|].
  exists (1 + Z.of_nat j). rewrite E. split_and!; [lia|lia| | |].
  - do 4 f_equal. lia.
  - intros i Hi. replace i with (1 + Z.of_nat (Z.to_nat (i - 1))) by lia. apply Ht. lia.
  - intros H. rewrite (Hl H). lia.
Qed.

(** Without attempts nothing is sent and the delivery counts as failed. *)
Lemma no_attempts_fail name c :
  RetryPolicy.max_attempts policy = 0 →
  deliver_with_retry name c = (Err (Transient "no attempts made"), [], record name (Err (Transient "no attempts made") : result DeliveryOutcome _) c).
Proof. unfold deliver_with_retry. by intros ->. Qed.

End Retries.

(** *** The dispatcher *)

Record Channel : Type := mkChannel {
  channel_name : string;
  accepts : SorobanEvent → bool;
  send_event_notification : SorobanEvent → result string NotificationError;
}.

Record ChannelOutcome : Type := mkOutcome { o_channel : string; o_result : result string NotificationError }.

Record NotificationDispatcher : Type := mkDispatcher { channels : list Channel }.

Definition register (ch : Channel) (d : NotificationDispatcher) : NotificationDispatcher := mkDispatcher (channels d ++ [ch]).
Definition channel_names (d : NotificationDispatcher) : list string := map channel_name (channels d).

(** [dispatch]: the outcomes in the order of the channels ([join_all]). *)
Definition dispatch (d : NotificationDispatcher) (event : SorobanEvent) (c : Counters) : list ChannelOutcome * Counters :=
  let outcomes := map (λ ch, mkOutcome (channel_name ch) (send_event_notification ch event))
                    (List.filter (λ ch, accepts ch event) (channels d)) in
  (outcomes, fold_left (λ c o, record (o_channel o) (o_result o) c) outcomes c).

(** What the broadcast channel gives. *)
Inductive Recv : Type := Received (e : SorobanEvent) | Lagged (skipped : Z) | Closed.

(** [spawn]: the outcomes of each event, and whether the task has ended. *)
Fixpoint consume (d : NotificationDispatcher) (msgs : list Recv) (c : Counters) : list (SorobanEvent * list ChannelOutcome) * Counters * bool :=
  match msgs with
  | [] => ([], c, false)
  | Closed :: _ => ([], c, true)
  | Lagged _ :: rest => consume d rest c
  | Received e :: rest =>
      let '(out, c1) := dispatch d e c in
      let '(outs, c2, ended) := consume d rest c1 in
      ((e, out) :: outs, c2, ended)
  end.

(** The events received before the channel closes. *)
Fixpoint received (msgs : list Recv) : list SorobanEvent :=
  match msgs with
  | [] | Closed :: _ => []
  | Lagged _ :: rest => received rest
  | Received e :: rest => e :: received rest
  end.

Lemma record_all outcomes : ∀ c,
  success (fold_left (λ c o, record (o_channel o) (o_result o) c) outcomes c) +
  failure (fold_left (λ c o, record (o_channel o) (o_result o) c) outcomes c) = success c + failure c + Z.of_nat (length outcomes).
Proof. induction outcomes as [|o l IH]; intros c; simpl; [lia|]. rewrite IH. unfold record. simpl. destruct (is_ok _); lia. Qed.

(** Every event received before the channel closes is sent once to each channel
    that accepts it, in the order received, and each sending is counted. *)
Theorem dispatcher_sends d msgs c :
  let '(outs, c', _) := consume d msgs c in
  map fst outs = received msgs ∧
  Forall (λ eo, map o_channel eo.2 = map channel_name (List.filter (λ ch, accepts ch eo.1) (channels d))) outs ∧
  success c' + failure c' = success c + failure c + Z.of_nat (length (concat (map snd outs))).
Proof.
  revert c. induction msgs as [|[e|n|] msgs IH]; intros c; simpl.
  - split_and!; [done|constructor|lia].
  - pose proof (record_all (dispatch d e c).1 c) as Hr. unfold dispatch in *. cbn [fst] in Hr.
    set (outs1 := map _ (List.filter _ _)) in *. specialize (IH (fold_left (λ c o, record (o_channel o) (o_result o) c) outs1 c)).
    destruct (consume d msgs _) as [[outs c'] ended]. destruct IH as (E & F & N). cbn [map fst snd concat].
    rewrite length_app. split_and!; [by rewrite E| |lia]. constructor; [|done]. cbn [fst snd]. unfold outs1. by rewrite map_map.
  - apply IH.
  - split_and!; [done|constructor|lia].
Qed.

Definition flaky (attempt : Z) : result DeliveryOutcome NotificationError :=
  if attempt <? 3 then Err (Transient "timeout") else Ok Delivered.

Lemma deliver_with_retry_spec_witness :
  deliver_with_retry RetryPolicy.default_policy (λ _, 0) flaky "email" (mkCounters 0 0 ∅) =
    (Ok Delivered, [1000; 2000], mkCounters 1 0 {["email" := 1]}) ∧
  ∃ k, 1 ≤ k ≤ 3 ∧ (transient (flaky k) = true → k = 3).
Proof.
  split; [vm_compute; reflexivity|].
  destruct (deliver_with_retry_spec RetryPolicy.default_policy (λ _, 0) flaky "email" (mkCounters 0 0 ∅) ltac:(done)) as (k & Hk & _ & _ & Hl).
  exists k. split; [exact Hk|exact Hl].
Defined.

End Delivery.

(** ** Deduplication and receipts *)

Module Receipts.

Inductive DeliveryStatus : Type := Success | Failure.

Definition as_str (s : DeliveryStatus) : string := match s with Success => "success" | Failure => "failure" end.

(** The columns of an event that these statements read and write. *)
Record EventRow : Type := mkEvent {
  e_id : string;
  e_tx_hash : string;
  e_contract_id : string;
  e_event_type : string;
  e_notified_at : option Z;
}.

Record DeliveryReceiptExtended : Type := mkReceipt {
  id : string;
  channel_type : string;
  channel_config_id : option string;
  event_id : option string;
  status : string;
  delivered_at : Z;
  error : option string;
  channel_metadata : option Value;
  retry_count : Z;
  latency_ms : option Z;
}.

(** [DeliveryReceipt]: the columns before the extension. *)
Record DeliveryReceipt : Type := mkPlain {
  p_id : string;
  p_channel_type : string;
  p_channel_config_id : option string;
  p_event_id : option string;
  p_status : string;
  p_delivered_at : Z;
  p_error : option string;
}.

Definition plain (r : DeliveryReceiptExtended) : DeliveryReceipt :=
  mkPlain (id r) (channel_type r) (channel_config_id r) (event_id r) (status r) (delivered_at r) (error r).

Record Db : Type := mkDb { events : list EventRow; notification_deliveries : list DeliveryReceiptExtended }.

(** The counters deduplicated_total, delivery_success and delivery_failure. *)
Inductive Ev : Type := Deduplicated | DeliverySuccess | DeliveryFailure.

Section Receipts.
Variable pg : PgEnv.
(** [gen_random_uuid()], by step number, and the iteration order of a map. *)
Variable gen_random_uuid : nat → string.
Variable hash_order : ∀ A, list A → list A.
(** The first and the last time that chrono represents. *)
Variables min_utc max_utc : Z.
(** How sqlx reads a NUMERIC, a sum over a number, as an [f64]. *)
Variable decode_numeric : Z * Z → result f64 string.

Local Abbreviation M := (Pg.M Db Ev string).

Definition count (e : Ev) : M () := call (λ _, ()) (λ _, e).

(** *** Deduplication *)

Definition is_row_of (e : SorobanEvent) (r : EventRow) : bool :=
  String.eqb (e_tx_hash r) (ev_tx_hash e) && String.eqb (e_contract_id r) (ev_contract_id e) && String.eqb (e_event_type r) (ev_event_type e).

Definition is_some {A} (o : option A) : bool := match o with Some _ => true | None => false end.

Definition already_notified (e : SorobanEvent) : M bool :=
  notified ← query pg (λ _ d, (λ r, is_some (e_notified_at r)) <$> List.find (is_row_of e) (events d));
  mret (default false notified).

Definition mark (e : SorobanEvent) (now : Z) (r : EventRow) : EventRow :=
  if is_row_of e r && negb (is_some (e_notified_at r))
  then mkEvent (e_id r) (e_tx_hash r) (e_contract_id r) (e_event_type r) (Some now) else r.

Definition mark_notified (e : SorobanEvent) : M () :=
  execute pg (λ now d, mkDb (map (mark e now) (events d)) (notification_deliveries d)).

Definition should_deliver (e : SorobanEvent) : M bool :=
  r ← attempt (E := string) (already_notified e);
  match r with
  | Ok true => count Deduplicated ;; mret false
  | Ok false => mret true
  | Err _ => mret true
  end.

(** *** Receipts *)

Definition insert_receipt (r : string → Z → DeliveryReceiptExtended) : M () :=
  n ← counter;
  execute pg (λ now d, mkDb (events d) (notification_deliveries d ++ [r (gen_random_uuid n) now])).

Definition count_status (s : DeliveryStatus) : M () :=
  count match s with Success => DeliverySuccess | Failure => DeliveryFailure end.

Definition record_delivery_with_metadata (channel : string) (config_id event : option string) (s : DeliveryStatus)
    (err : option string) (metadata : option Value) (retries : Z) (latency : option Z) : M () :=
  count_status s ;;
  r ← attempt (E := string) (insert_receipt (λ i now, mkReceipt i channel config_id event (as_str s) now err metadata retries latency));
  mret ().

(** The columns it does not name have their defaults. *)
Definition record_delivery (channel : string) (config_id event : option string) (s : DeliveryStatus) (err : option string) : M () :=
  count_status s ;;
  r ← attempt (E := string) (insert_receipt (λ i now, mkReceipt i channel config_id event (as_str s) now err None 0 None));
  mret ().

Definition resolve_event_id (e : SorobanEvent) : M (option string) :=
  r ← attempt (E := string) (query pg (λ _ d, e_id <$> List.find (is_row_of e) (events d)));
  mret match r with Ok o => o | Err _ => None end.

(** [ORDER BY delivered_at DESC]; equal times keep the order of the table. *)
Definition latest_first (l : list DeliveryReceiptExtended) : list DeliveryReceiptExtended :=
  sort_by (cmp_on (λ r, - delivered_at r) Z.compare) l.

Definition is_or_any (o : option string) (s : string) : bool := match o with Some x => String.eqb s x | None => true end.

Definition query_deliveries (channel st : option string) (limit : Z) : M (list DeliveryReceipt) :=
  stmt pg (λ _ d,
    if limit <? 0 then Err "LIMIT must not be negative"%string
    else Ok (map plain (take (Z.to_nat limit)
           (latest_first (List.filter (λ r, is_or_any channel (channel_type r) && is_or_any st (status r)) (notification_deliveries d)))), d)).

Definition get_receipts_by_event (event : string) : M (list DeliveryReceiptExtended) :=
  query pg (λ _ d, latest_first (List.filter (λ r, bool_decide (event_id r = Some event)) (notification_deliveries d))).

(** [Utc::now() - Duration::days(n)] in microseconds; [None] is a panic. *)
Definition days_before (now n : Z) : option Z :=
  if decide (Z.abs (n * 86400) ≤ i_max 64 / 1000 ∧ min_utc ≤ now - n * 86400000000 ≤ max_utc)
  then Some (now - n * 86400000000) else None.

(** [None] in place of a number of rows is a panic. *)
Definition purge_old_receipts (retention_days : Z) : M (option nat) :=
  now ← clock pg;
  match days_before now retention_days with
  | None => mret None
  | Some cutoff =>
      n ← execute_count pg (λ _ d,
        let old := List.filter (λ r, delivered_at r <? cutoff) (notification_deliveries d) in
        (length old, mkDb (events d) (List.filter (λ r, negb (delivered_at r <? cutoff)) (notification_deliveries d))));
      mret (Some n)
  end.

(** *** Statistics *)

(** A row of notification_delivery_stats; the average of an INT column is a NUMERIC. *)
Record StatsRow : Type := mkStatsRow {
  s_channel_type : string;
  s_status : string;
  s_count : Z;
  s_avg_latency_ms : option (Z * Z);
}.

Definition latencies (l : list DeliveryReceiptExtended) : list Z := omap latency_ms l.

Definition average (l : list Z) : option (Z * Z) :=
  match l with [] => None | _ => Some (fold_right Z.add 0 l, Z.of_nat (length l)) end.

Definition group_of (rs : list DeliveryReceiptExtended) (k : string * string) : list DeliveryReceiptExtended :=
  List.filter (λ r, bool_decide ((channel_type r, status r) = k)) rs.

Definition by_channel_and_status : string * string → string * string → comparison := cmp_pair String.compare String.compare.

(** The view, ordered by channel and status. *)
Definition notification_delivery_stats (rs : list DeliveryReceiptExtended) : list StatsRow :=
  map (λ k, let g := group_of rs k in mkStatsRow k.1 k.2 (Z.of_nat (length g)) (average (latencies g)))
    (sort_by by_channel_and_status (remove_dups (map (λ r, (channel_type r, status r)) rs))).

Record ReceiptStats : Type := mkStats {
  rs_channel_type : string;
  total_deliveries : Z;
  successful : Z;
  failed : Z;
  success_rate : f64;
  rs_avg_latency_ms : option f64;
}.

(** [try_get::<Option<f64>>]: NULL, or what the database library reads. *)
Definition get_avg (o : option (Z * Z)) : result (option f64) string :=
  match o with
  | None => Ok None
  | Some x => match decode_numeric x with Ok v => Ok (Some v) | Err e => Err e end
  end.

(** An entry of the map: successes, failures and the latency. *)
Abbreviation Entry := (Z * Z * option f64)%type.

Definition add_row (m : gmap string Entry) (r : StatsRow) (avg : option f64) : gmap string Entry :=
  let '(s, f, l) := default (0, 0, None) (m !! s_channel_type r) in
  <[s_channel_type r :=
     if String.eqb (s_status r) "success" then (s + s_count r, f, match l with None => avg | Some _ => l end)
     else if String.eqb (s_status r) "failure" then (s, f + s_count r, l)
     else (s + s_count r, f, l)]> m.

Fixpoint pivot (rows : list StatsRow) (m : gmap string Entry) : result (gmap string Entry) string :=
  match rows with
  | [] => Ok m
  | r :: rest =>
      match get_avg (s_avg_latency_ms r) with
      | Ok avg => pivot rest (add_row m r avg)
      | Err e => Err e
      end
  end.

Definition stats_of (ce : string * Entry) : ReceiptStats :=
  let '(channel, (s, f, l)) := ce in
  let t := s + f in
  mkStats channel t s f (if 0 <? t then F64.div (F64.of_Z s) (F64.of_Z t) else F64.of_Z 0) l.

Definition get_receipt_stats : M (list ReceiptStats) :=
  rows ← query pg (λ _ d, notification_delivery_stats (notification_deliveries d));
  m ← of_result (pivot rows ∅);
  mret (map stats_of (hash_order _ (map_to_list m))).

(** *** An event is notified once *)

Lemma find_mark e now l :
  is_some (List.find (is_row_of e) (map (mark e now) l)) = is_some (List.find (is_row_of e) l) ∧
  ∀ r, List.find (is_row_of e) (map (mark e now) l) = Some r → is_some (e_notified_at r) = true.
Proof.
  assert (∀ r, is_row_of e (mark e now r) = is_row_of e r) as Hm by (intros r; unfold mark; by destruct (_ && _)).
  induction l as [|r l [IH1 IH2]]; [done|]. simpl. rewrite Hm. destruct (is_row_of e r) eqn:Er; [|done]. split; [done|].
  intros r' [= <-]. unfold mark. rewrite Er. simpl. by destruct (is_some (e_notified_at r)) eqn:En.
Qed.

(** Marking is idempotent, moves no time that is set, and ends the deliveries of
    an event that is stored; an event that is not stored is delivered every time. *)
Lemma marked_event_is_skipped e s :
  healthy pg →
  let '(r, s') := (mark_notified e ;; should_deliver e) s in
  r = Ok (negb (is_some (List.find (is_row_of e) (events (db s))))) ∧
  events (db s') = map (mark e (now pg (ops s))) (events (db s)) ∧
  map (mark e (now pg (ops s'))) (events (db s')) = events (db s').
Proof.
  intros Hh. unfold mark_notified, should_deliver. rewrite (bind_ok _ _ _ _ _ (execute_healthy _ _ s Hh)).
  unfold attempt, mbind, M_bind, already_notified. unfold mbind, M_bind. rewrite query_healthy by done. cbn [db events].
  destruct (find_mark e (now pg (ops s)) (events (db s))) as [H1 H2]. destruct (List.find (is_row_of e) (map _ _)) as [r|] eqn:Ef.
  - cbn [fmap option_fmap option_map]. specialize (H2 r eq_refl). cbn. rewrite H2, <- H1. cbn. split_and!; [done|done|].
    rewrite map_map. apply map_ext. intros x. unfold mark. destruct (is_row_of e x) eqn:Ex; simpl; [|by rewrite Ex].
    destruct (is_some (e_notified_at x)) eqn:En; simpl; by rewrite ?Ex, ?En; simpl; rewrite ?andb_false_r.
  - cbn. rewrite <- H1. cbn. split_and!; [done|done|]. rewrite map_map. apply map_ext. intros x. unfold mark.
    destruct (is_row_of e x) eqn:Ex; simpl; [|by rewrite Ex].
    destruct (is_some (e_notified_at x)) eqn:En; simpl; by rewrite ?Ex, ?En; simpl; rewrite ?andb_false_r.
Qed.

(** *** Statistics *)

Definition sum_z (l : list Z) : Z := fold_right Z.add 0 l.

Lemma sum_z_add {A} (f g : A → Z) l : sum_z (map (λ x, f x + g x) l) = sum_z (map f l) + sum_z (map g l).
Proof. induction l as [|x l IH]; simpl; [done|]. rewrite IH. lia. Qed.

Lemma sum_z_indicator {A} `{EqDecision A} (x : A) l :
  NoDup l → sum_z (map (λ k, if bool_decide (x = k) then 1 else 0) l) = if bool_decide (x ∈ l) then 1 else 0.
Proof.
  induction 1 as [|y l Hy _ IH]; cbn [map sum_z fold_right]; [by case_bool_decide as H; [apply elem_of_nil in H|]|].
  fold (sum_z (map (λ k, if bool_decide (x = k) then 1 else 0) l)). rewrite IH.
  repeat case_bool_decide; subst; try lia; exfalso; set_solver.
Qed.

Definition key_of (r : DeliveryReceiptExtended) : string * string := (channel_type r, status r).
Definition tally (p : DeliveryReceiptExtended → bool) (rs : list DeliveryReceiptExtended) : Z := Z.of_nat (length (List.filter p rs)).

Lemma sum_groups ks (P : string * string → bool) rs :
  NoDup ks → (∀ r, r ∈ rs → key_of r ∈ ks) →
  sum_z (map (λ k, Z.of_nat (length (group_of rs k))) (List.filter P ks)) = tally (λ r, P (key_of r)) rs.
Proof.
  intros Hn. assert (NoDup (List.filter P ks)) as Hf by by apply NoDup_ListNoDup, List.NoDup_filter, NoDup_ListNoDup.
  induction rs as [|r rs IH]; intros Hin.
  { unfold tally. simpl. clear. induction (List.filter P ks); simpl; lia. }
  unfold tally. simpl. rewrite (map_ext _ (λ k, (if bool_decide (key_of r = k) then 1 else 0) + Z.of_nat (length (group_of rs k)))).
  - rewrite sum_z_add, IH, sum_z_indicator by (done || (intros; apply Hin; by right)). unfold tally.
    assert (bool_decide (key_of r ∈ List.filter P ks) = P (key_of r)) as ->.
    { destruct (P (key_of r)) eqn:Ep; [apply bool_decide_eq_true|apply bool_decide_eq_false]; rewrite list_elem_of_In, filter_In, <- list_elem_of_In.
      - split; [apply Hin; by left|done].
      - intros [_ ?]. congruence. }
    destruct (P (key_of r)); simpl; lia.
  - intros k. unfold group_of. simpl. fold (key_of r). case_bool_decide; simpl; lia.
Qed.

Definition is_failure (st : string) : bool := String.eqb st "failure".

Definition counts (p : StatsRow → bool) (rows : list StatsRow) : Z := sum_z (map s_count (List.filter p rows)).

Lemma counts_cons p r rows : counts p (r :: rows) = (if p r then s_count r else 0) + counts p rows.
Proof. unfold counts. simpl. by destruct (p r). Qed.

Lemma pivot_lookup c rows : ∀ m,
  (∀ e, m !! c = Some e → e.2 = None) →
  fold_left (λ m r, add_row m r None) rows m !! c =
    if existsb (λ r, String.eqb (s_channel_type r) c) rows
    then Some ((default (0, 0, None) (m !! c)).1.1 + counts (λ r, String.eqb (s_channel_type r) c && negb (is_failure (s_status r))) rows,
               (default (0, 0, None) (m !! c)).1.2 + counts (λ r, String.eqb (s_channel_type r) c && is_failure (s_status r)) rows, None)
    else m !! c.
Proof.
  induction rows as [|r rows IH]; intros m Hm; [done|]. cbn [fold_left existsb]. rewrite !counts_cons.
  destruct (String.eqb_spec (s_channel_type r) c) as [<-|Hne]; cycle 1.
  { assert (add_row m r None !! c = m !! c) as E.
    { unfold add_row. destruct (default _ _) as [[a b] l]. by apply lookup_insert_ne. }
    rewrite IH; rewrite E; [|done]. done. }
  assert (∃ a b, default (0, 0, None) (m !! s_channel_type r) = (a, b, None)) as (a & b & E).
  { destruct (m !! s_channel_type r) as [[[a b] l]|]; [|by exists 0, 0]. exists a, b. simpl. f_equal. apply (Hm _ eq_refl). }
  assert (add_row m r None !! s_channel_type r =
    Some (if is_failure (s_status r) then a else a + s_count r, if is_failure (s_status r) then b + s_count r else b, None)) as El.
  { unfold add_row. rewrite E, lookup_insert_eq. unfold is_failure.
    destruct (String.eqb_spec (s_status r) "success") as [->|]; [done|]. by destruct (String.eqb (s_status r) "failure"). }
  rewrite IH; rewrite El; [|by intros e [= <-]]. cbn [orb default andb fst snd]. rewrite E. cbn [fst snd].
  destruct (existsb _ rows) eqn:Ex.
  - destruct (is_failure (s_status r)); cbn [negb Datatypes.id fst snd]; do 3 f_equal; lia.
  - assert (∀ q : string → bool, counts (λ x, String.eqb (s_channel_type x) (s_channel_type r) && q (s_status x)) rows = 0) as H0.
    { intros q. unfold counts. rewrite filter_none; [done|]. intros x Hx. apply andb_false_iff. left.
      apply not_true_iff_false. intros Ht. apply not_true_iff_false in Ex. apply Ex, existsb_exists. exists x. by rewrite <- list_elem_of_In. }
    rewrite (H0 (λ st, negb (is_failure st))), (H0 is_failure). destruct (is_failure (s_status r)); cbn [negb Datatypes.id fst snd]; do 3 f_equal; lia.
Qed.

(** The type table of sqlx: an [f64] is read from FLOAT8 only. *)
Hypothesis numeric_refused : ∀ x, is_ok (decode_numeric x) = false.

Lemma pivot_spec rows : ∀ m,
  if existsb (λ r, is_some (s_avg_latency_ms r)) rows then ∃ e, pivot rows m = Err e
  else pivot rows m = Ok (fold_left (λ m r, add_row m r None) rows m).
Proof.
  induction rows as [|r rows IH]; intros m; [done|]. simpl.
  destruct (s_avg_latency_ms r) as [x|]; simpl; [|apply IH]. specialize (numeric_refused x).
  destruct (decode_numeric x) as [v|e]; [done|by exists e].
Qed.

Definition keys_of (rs : list DeliveryReceiptExtended) : list (string * string) :=
  sort_by by_channel_and_status (remove_dups (map key_of rs)).

Lemma keys_of_spec rs : NoDup (keys_of rs) ∧ ∀ k, k ∈ keys_of rs ↔ k ∈ map key_of rs.
Proof.
  unfold keys_of. split; [rewrite sort_by_permutation; apply NoDup_remove_dups|].
  intros k. by rewrite sort_by_permutation, elem_of_remove_dups.
Qed.

Lemma counts_view rs (P : string → string → bool) :
  counts (λ r, P (s_channel_type r) (s_status r)) (notification_delivery_stats rs) = tally (λ r, P (channel_type r) (status r)) rs.
Proof.
  destruct (keys_of_spec rs) as [Hn Hk]. unfold counts, notification_delivery_stats. fold key_of. fold (keys_of rs).
  rewrite filter_map, map_map. cbn [s_channel_type s_status s_count].
  rewrite (sum_groups (keys_of rs) (λ k, P k.1 k.2) rs Hn); [done|]. intros r Hr. by apply Hk, list_elem_of_fmap_2.
Qed.

Lemma view_has_latency rs :
  existsb (λ r, is_some (s_avg_latency_ms r)) (notification_delivery_stats rs) = existsb (λ r, is_some (latency_ms r)) rs.
Proof.
  destruct (keys_of_spec rs) as [_ Hk]. apply eq_true_iff_eq. rewrite !existsb_exists. split.
  - intros (x & Hx & Ha). unfold notification_delivery_stats in Hx. apply in_map_iff in Hx as (k & <- & _). cbn [s_avg_latency_ms] in Ha.
    destruct (latencies (group_of rs k)) as [|t l] eqn:El; [done|].
    assert (t ∈ latencies (group_of rs k)) as Ht by (rewrite El; by left).
    apply list_elem_of_omap in Ht as (r & Hr & Hl). apply list_elem_of_In, filter_In in Hr as [Hr _]. exists r. by rewrite Hl.
  - intros (r & Hr & Hl). exists (let g := group_of rs (key_of r) in
      mkStatsRow (key_of r).1 (key_of r).2 (Z.of_nat (length g)) (average (latencies g))). split.
    + unfold notification_delivery_stats. apply in_map_iff. exists (key_of r). split; [done|]. apply list_elem_of_In.
      apply Hk, list_elem_of_fmap_2. by apply list_elem_of_In.
    + cbn [s_avg_latency_ms]. destruct (latency_ms r) as [t|] eqn:El; [|done].
      assert (t ∈ latencies (group_of rs (key_of r))) as Ht.
      { apply list_elem_of_omap. exists r. split; [|done]. apply list_elem_of_In, filter_In. split; [done|].
        by apply bool_decide_eq_true. }
      destruct (latencies _); [by apply elem_of_nil in Ht|done].
Qed.

Lemma view_has_channel rs c :
  existsb (λ r, String.eqb (s_channel_type r) c) (notification_delivery_stats rs) = bool_decide (c ∈ map channel_type rs).
Proof.
  destruct (keys_of_spec rs) as [_ Hk]. apply eq_true_iff_eq. rewrite existsb_exists, bool_decide_eq_true, list_elem_of_fmap. split.
  - intros (x & Hx & <-%String.eqb_eq). unfold notification_delivery_stats in Hx. apply in_map_iff in Hx as (k & <- & Hin).
    apply list_elem_of_In, Hk, list_elem_of_fmap in Hin as (r & -> & Hr). by exists r.
  - intros (r & -> & Hr). unfold notification_delivery_stats. eexists. split.
    + apply in_map_iff. exists (key_of r). split; [reflexivity|]. apply list_elem_of_In. by apply Hk, list_elem_of_fmap_2.
    + by apply String.eqb_eq.
Qed.

Hypothesis hash_order_perm : ∀ A (l : list A), hash_order A l ≡ₚ l.

(** The statistics of the receipts: one row for each channel that has any, with
    the numbers of its receipts by status; but as soon as one receipt has a
    latency, the average is a NUMERIC that cannot be read, and there are no
    statistics at all. *)
Theorem receipt_stats_spec s :
  healthy pg →
  let rs := notification_deliveries (db s) in
  if existsb (λ r, is_some (latency_ms r)) rs then is_ok (get_receipt_stats s).1 = false
  else ∃ l, (get_receipt_stats s).1 = Ok l ∧ NoDup (map rs_channel_type l) ∧
    (∀ c, c ∈ map rs_channel_type l ↔ c ∈ map channel_type rs) ∧
    Forall (λ x,
      let mine r := String.eqb (channel_type r) (rs_channel_type x) in
      successful x = tally (λ r, mine r && negb (is_failure (status r))) rs ∧
      failed x = tally (λ r, mine r && is_failure (status r)) rs ∧
      total_deliveries x = successful x + failed x ∧ rs_avg_latency_ms x = None) l.
Proof.
  intros Hh rs. unfold get_receipt_stats. rewrite (bind_ok _ _ _ _ _ (query_healthy _ _ s Hh)). fold rs.
  pose proof (pivot_spec (notification_delivery_stats rs) ∅) as Hp. rewrite view_has_latency in Hp.
  destruct (existsb _ rs); [destruct Hp as [e Hp]; by rewrite Hp|]. rewrite Hp, bind_of_ok. cbn [fst mret M_ret].
  set (m := fold_left _ _ _). assert (∀ c, m !! c = if bool_decide (c ∈ map channel_type rs) then
    Some (tally (λ r, String.eqb (channel_type r) c && negb (is_failure (status r))) rs,
          tally (λ r, String.eqb (channel_type r) c && is_failure (status r)) rs, None) else None) as Hm.
  { intros c. unfold m. rewrite pivot_lookup by (intros e; by rewrite lookup_empty). rewrite view_has_channel, lookup_empty.
    cbn [default fst snd]. by rewrite (counts_view rs (λ ch st, String.eqb ch c && negb (is_failure st))),
      (counts_view rs (λ ch st, String.eqb ch c && is_failure st)). }
  assert (map rs_channel_type (map stats_of (hash_order _ (map_to_list m))) = map fst (hash_order _ (map_to_list m))) as Hc.
  { rewrite map_map. apply map_ext. by intros [c [[a b] l]]. }
  eexists. split; [done|]. rewrite Hc. split_and!.
  - rewrite (Permutation_map fst (hash_order_perm _ _)). apply NoDup_fst_map_to_list.
  - intros c. rewrite (Permutation_map fst (hash_order_perm _ _)), list_elem_of_fmap. specialize (Hm c). split.
    + intros ([c' e] & -> & He%elem_of_map_to_list). cbn [fst] in *. rewrite He in Hm. by case_bool_decide.
    + intros H. rewrite bool_decide_true in Hm by done. eexists (c, _). split; [done|]. by apply elem_of_map_to_list.
  - rewrite hash_order_perm. apply Forall_fmap, Forall_forall.
    intros [c e] He%elem_of_map_to_list. rewrite Hm in He. case_bool_decide; [|done]. by injection He as <-.
Qed.

End Receipts.

Definition receipt (i c st : string) (l : option Z) : DeliveryReceiptExtended := mkReceipt i c None None st 0 None None 0 l.

Lemma receipt_stats_spec_witness :
  let pg := mkPgEnv (λ _, 0) (λ _, None) in
  let order := λ A (l : list A), l in
  let decode := λ _ : Z * Z, @Err f64 string "mismatched types" in
  let one := mkDb [] [receipt "1" "email" "success" None; receipt "2" "email" "failure" None; receipt "3" "sms" "success" None] in
  let two := mkDb [] (receipt "4" "push" "success" (Some 12) :: notification_deliveries one) in
  is_ok (get_receipt_stats pg order decode (mkSt two 0 [])).1 = false ∧
  ∃ l, (get_receipt_stats pg order decode (mkSt one 0 [])).1 = Ok l ∧ NoDup (map rs_channel_type l).
Proof.
  intros pg order decode one two. split.
  - exact (receipt_stats_spec pg order decode (λ _, eq_refl) (λ A l, reflexivity l) (mkSt two 0 []) (λ _, eq_refl)).
  - destruct (receipt_stats_spec pg order decode (λ _, eq_refl) (λ A l, reflexivity l) (mkSt one 0 []) (λ _, eq_refl)) as (l & E & N & _).
    exists l. split; [exact E|exact N].
Defined.

End Receipts.
