(* ===== verification/NotificationAdmin.v ===== *)
(** Administration of notifications (notification_admin.rs): maintenance
    windows, the audit log, versions of templates and health checks of channels.

    Times are microseconds.  Generated ids, the requests that check a webhook
    and the text of a JSON value are parameters. *)

From S2P Require Import Prelude Model Pg.

Module NotificationAdmin.

(** ** Tables *)

Record MaintenanceWindow : Type := mkWindow {
  w_id : string;
  w_start_time : Z;
  w_end_time : Z;
  w_contract_ids : list string;
  w_description : option string;
  w_created_at : Z;
}.

Record AuditLogEntry : Type := mkAudit {
  a_id : string;
  a_channel_type : string;
  a_recipient : string;
  a_event_id : option string;
  a_triggered_at : Z;
  a_delivered_at : option Z;
  a_status : string;
  a_error : option string;
}.

Record NotificationTemplate : Type := mkTemplate {
  t_id : string;
  t_name : string;
  t_version : Z;
  t_subject : string;
  t_body : string;
  t_is_active : bool;
  t_created_at : Z;
}.

(** notification_channels: the columns that are read. *)
Record ChannelRow : Type := mkChannel { c_id : string; c_name : string; c_channel_type : string; c_config : Value }.

Record Db : Type := mkDb {
  maintenance_windows : list MaintenanceWindow;
  notification_audit_log : list AuditLogEntry;
  notification_templates : list NotificationTemplate;
  notification_channels : list ChannelRow;
}.

Definition with_windows (l : list MaintenanceWindow) (d : Db) : Db :=
  mkDb l (notification_audit_log d) (notification_templates d) (notification_channels d).
Definition with_audit (l : list AuditLogEntry) (d : Db) : Db :=
  mkDb (maintenance_windows d) l (notification_templates d) (notification_channels d).
Definition with_templates (l : list NotificationTemplate) (d : Db) : Db :=
  mkDb (maintenance_windows d) (notification_audit_log d) l (notification_channels d).

(** Counters, gauges and requests. *)
Inductive Ev : Type :=
| MaintenanceSuppressed
| ChannelHealth (name kind : string) (healthy : bool)
| HealthRequest (url : string) (healthy : bool).

(** A response: its status and what the body holds. *)
Inductive Response (A : Type) : Type :=
| Created (x : A)
| Json (x : A)
| NoContent
| Failed (status : Z) (error : string).
Arguments Created {A} x.
Arguments Json {A} x.
Arguments NoContent {A}.
Arguments Failed {A} status error.

Section NotificationAdmin.
Variable pg : PgEnv.
Variable gen_random_uuid : nat → string.
(** The status of a GET within ten seconds ([None] when it fails). *)
Variable get_status : nat → string → option Z.
(** The text of a JSON value that is not a string ([->>]). *)
Variable json_text : Value → string.
(** How sqlx reads an INT4 as an [i64]. *)
Variable decode_int4 : Z → result Z string.

Local Abbreviation M := (Pg.M Db Ev string).

(** A handler's [match] on the result of a statement. *)
Definition answer {A B} (m : M A) (ok : A → Response B) (message : string) : M (Response B) :=
  r ← attempt (E := string) m;
  mret match r with Ok x => ok x | Err _ => Failed 500 message end.

(** ** Maintenance windows *)

Record CreateMaintenanceWindow : Type := mkCreateWindow {
  start_time : Z;
  end_time : Z;
  contract_ids : list string;
  description : option string;
}.

Definition insert_window (body : CreateMaintenanceWindow) : M MaintenanceWindow :=
  n ← counter;
  stmt pg (λ now d,
    if end_time body <=? start_time body then Err "violates check constraint chk_window_order"%string
    else let w := mkWindow (gen_random_uuid n) (start_time body) (end_time body) (contract_ids body) (description body) now in
         Ok (w, with_windows (maintenance_windows d ++ [w]) d)).

Definition create_maintenance_window (body : CreateMaintenanceWindow) : M (Response MaintenanceWindow) :=
  if end_time body <=? start_time body then mret (Failed 400 "end_time must be after start_time")
  else answer (insert_window body) Created "Failed to create maintenance window".

Definition list_maintenance_windows : M (Response (list MaintenanceWindow)) :=
  answer (query pg (λ now d,
    sort_by (cmp_on w_start_time Z.compare) (List.filter (λ w, now <=? w_end_time w) (maintenance_windows d))))
    Json "Failed to list maintenance windows".

Definition delete_maintenance_window (id : string) : M (Response ()) :=
  answer (execute_count pg (λ _ d,
      (length (List.filter (λ w, String.eqb (w_id w) id) (maintenance_windows d)),
       with_windows (List.filter (λ w, negb (String.eqb (w_id w) id)) (maintenance_windows d)) d)))
    (λ n, if (n =? 0)%nat then Failed 404 "Not found" else NoContent)
    "Failed to delete maintenance window".

(** A window that is open at a time and covers a contract; no contracts means all. *)
Definition covers (now : Z) (contract_id : string) (w : MaintenanceWindow) : bool :=
  (w_start_time w <=? now) && (now <=? w_end_time w) &&
  match w_contract_ids w with [] => true | l => bool_decide (contract_id ∈ l) end.

Definition is_under_maintenance (contract_id : string) : M bool :=
  now ← clock pg;
  r ← attempt (E := string) (query pg (λ _ d, Z.of_nat (length (List.filter (covers now contract_id) (maintenance_windows d)))));
  if 0 <? match r with Ok n => n | Err _ => 0 end then
    call (λ _, ()) (λ _, MaintenanceSuppressed) ;; mret true
  else mret false.

(** ** The audit log *)

Record AuditLogQuery : Type := mkAuditQuery {
  from : option Z;
  to : option Z;
  channel_type : option string;
  status : option string;
  limit : Z;
  offset : Z;
}.

Definition default_limit : Z := 100.

Definition is_or_any (o : option string) (s : string) : bool := match o with Some x => String.eqb s x | None => true end.

Definition audit_selects (p : AuditLogQuery) (a : AuditLogEntry) : bool :=
  match from p with Some t => t <=? a_triggered_at a | None => true end &&
  match to p with Some t => a_triggered_at a <=? t | None => true end &&
  is_or_any (channel_type p) (a_channel_type a) && is_or_any (status p) (a_status a).

Record AuditPage : Type := mkAuditPage { data : list AuditLogEntry; page_limit : Z; page_offset : Z }.

Definition get_audit_log (p : AuditLogQuery) : M (Response AuditPage) :=
  let lim := Z.max (Z.min (limit p) 1000) 1 in
  let off := Z.max (offset p) 0 in
  answer (query pg (λ _ d,
      take (Z.to_nat lim) (drop (Z.to_nat off)
        (sort_by (cmp_on (λ a, - a_triggered_at a) Z.compare) (List.filter (audit_selects p) (notification_audit_log d))))))
    (λ rows, Json (mkAuditPage rows lim off)) "Failed to query audit log".

Definition audit_statuses : list string := ["pending"; "delivered"; "failed"]%string.

Definition insert_audit (r : string → Z → AuditLogEntry) : M () :=
  n ← counter;
  stmt pg (λ now d,
    let a := r (gen_random_uuid n) now in
    if bool_decide (a_status a ∈ audit_statuses) then Ok ((), with_audit (notification_audit_log d ++ [a]) d)
    else Err "violates check constraint"%string).

Definition record_audit_entry (channel recipient : string) (event_id : option string) (st : string) (err : option string) : M () :=
  delivered_at ← (if String.eqb st "delivered" then t ← clock pg; mret (Some t) else mret None);
  r ← attempt (E := string) (insert_audit (λ i now, mkAudit i channel recipient event_id now delivered_at st err));
  mret ().

(** One turn of [purge_old_audit_log_entries]. *)
Definition purge_audit_once (retention_days : Z) : M () :=
  r ← attempt (E := string) (execute pg (λ now d,
        with_audit (List.filter (λ a, negb (a_triggered_at a <? now - retention_days * 86400000000)) (notification_audit_log d)) d));
  mret ().

(** ** Versions of templates *)

Record CreateTemplate : Type := mkCreateTemplate { name : string; subject : string; body : string }.

Definition versions (n : string) (d : Db) : list Z :=
  map t_version (List.filter (λ t, String.eqb (t_name t) n) (notification_templates d)).

(** [SELECT COALESCE(MAX(version), 0) + 1], an INT4, read as an [i64]. *)
Definition select_next_version (n : string) : M Z :=
  next ← query pg (λ _ d, fold_left Z.max (versions n d) 0 + 1);
  of_result (decode_int4 next).

(** [INSERT .. RETURNING]; (name, version) is unique. *)
Definition insert_template (b : CreateTemplate) (version : Z) : M NotificationTemplate :=
  n ← counter;
  stmt pg (λ now d,
    if bool_decide (version ∈ versions (name b) d) then Err "duplicate key value violates unique constraint"%string
    else let t := mkTemplate (gen_random_uuid n) (name b) version (subject b) (body b) false now in
         Ok (t, with_templates (notification_templates d ++ [t]) d)).

Definition create_template (b : CreateTemplate) : M (Response NotificationTemplate) :=
  r ← attempt (E := string) (select_next_version (name b));
  let next_version := wrap_i 32 match r with Ok v => v | Err _ => 1 end in
  answer (insert_template b next_version) Created "Failed to create template".

Definition list_template_versions (n : string) : M (Response (list NotificationTemplate)) :=
  answer (query pg (λ _ d,
      sort_by (cmp_on (λ t, - t_version t) Z.compare) (List.filter (λ t, String.eqb (t_name t) n) (notification_templates d))))
    Json "Failed to list template versions".

Definition set_active (a : bool) (t : NotificationTemplate) : NotificationTemplate :=
  mkTemplate (t_id t) (t_name t) (t_version t) (t_subject t) (t_body t) a (t_created_at t).

Definition deactivate (n : string) (t : NotificationTemplate) : NotificationTemplate :=
  if String.eqb (t_name t) n then set_active false t else t.

Definition is_version (n : string) (v : Z) (t : NotificationTemplate) : bool := String.eqb (t_name t) n && (t_version t =? v).

Definition activate (n : string) (v : Z) (t : NotificationTemplate) : NotificationTemplate :=
  if is_version n v t then set_active true t else t.

Definition tables : M Db := λ s, (Ok (db s), s).
(** What a transaction that is dropped, or whose commit fails, leaves. *)
Definition rollback (d : Db) : M () := λ s, (Ok (), mkSt d (ops s) (trace s)).

Definition activate_template_version (n : string) (version : Z) : M (Response NotificationTemplate) :=
  before ← tables;
  begin ← attempt (E := string) (execute pg (λ _ d, d));
  match begin with
  | Err _ => mret (Failed 500 "Database error")
  | Ok _ =>
      r1 ← attempt (E := string) (execute pg (λ _ d, with_templates (map (deactivate n) (notification_templates d)) d));
      match r1 with
      | Err _ => rollback before ;; mret (Failed 500 "Database error")
      | Ok _ =>
          r2 ← attempt (E := string) (stmt pg (λ _ d,
                 Ok (set_active true <$> List.find (is_version n version) (notification_templates d),
                     with_templates (map (activate n version) (notification_templates d)) d)));
          match r2 with
          | Ok (Some t) =>
              c ← attempt (E := string) (execute pg (λ _ d, d));
              match c with Ok _ => mret () | Err _ => rollback before end ;;
              mret (Json t)
          | Ok None => rollback before ;; mret (Failed 404 "Template version not found")
          | Err _ => rollback before ;; mret (Failed 500 "Database error")
          end
      end
  end.

(** ** Health checks of the channels *)

(** [config->>'url']: of the last entry of the name. *)
Definition config_url (v : Value) : option string :=
  match v with
  | Object l =>
      match List.find (λ kv, String.eqb kv.1 "url") l with
      | Some (_, Null) | None => None
      | Some (_, VString s) => Some s
      | Some (_, x) => Some (json_text x)
      end
  | _ => None
  end.

Definition check_webhook_health (url : string) : M bool :=
  call (λ n, match get_status n url with Some st => (200 <=? st) && (st <? 300) | None => false end) (HealthRequest url).

Fixpoint check_webhooks (l : list (string * string)) : M () :=
  match l with
  | [] => mret ()
  | (n, url) :: rest =>
      healthy ← check_webhook_health url;
      call (λ _, ()) (λ _, ChannelHealth n "webhook" healthy) ;;
      check_webhooks rest
  end.

Fixpoint check_emails (healthy : bool) (l : list string) : M () :=
  match l with
  | [] => mret ()
  | n :: rest => call (λ _, ()) (λ _, ChannelHealth n "email" healthy) ;; check_emails healthy rest
  end.

(** [fetch_all(..).unwrap_or_default()]. *)
Definition or_empty {A} (m : M (list A)) : M (list A) :=
  r ← attempt (E := string) m;
  mret match r with Ok l => l | Err _ => [] end.

Definition webhook_channels (d : Db) : list (string * string) :=
  omap (λ c, if String.eqb (c_channel_type c) "webhook" then (λ u, (c_name c, u)) <$> config_url (c_config c) else None)
    (notification_channels d).

Definition email_channels (d : Db) : list string :=
  map c_name (List.filter (λ c, String.eqb (c_channel_type c) "email") (notification_channels d)).

Definition check_all_channels (email_health_check_address : option string) : M () :=
  webhooks ← or_empty (query pg (λ _ d, webhook_channels d));
  check_webhooks webhooks ;;
  emails ← or_empty (query pg (λ _ d, email_channels d));
  check_emails match email_health_check_address with Some _ => true | None => false end emails.

(** ** Windows *)

(** A notification is suppressed exactly while a window covers its contract; when
    the windows cannot be read it is not. *)
Lemma is_under_maintenance_spec contract s :
  let '(r, s') := is_under_maintenance contract s in
  db s' = db s ∧
  r = Ok (match db_fault pg (S (ops s)) with
          | None => existsb (covers (now pg (ops s)) contract) (maintenance_windows (db s))
          | Some _ => false
          end).
Proof.
  unfold is_under_maintenance. unfold mbind, M_bind, clock, attempt, query, stmt. cbn [db ops trace].
  destruct (db_fault pg (S (ops s))); [done|]. cbn. induction (maintenance_windows (db s)) as [|w l IH]; [done|]. simpl.
  destruct (covers _ contract w); simpl; [done|apply IH].
Qed.

(** ** Templates *)

Definition template_key (t : NotificationTemplate) : string * Z := (t_name t, t_version t).

(** What activation makes of the templates: one version of the name, the others off. *)
Definition only_active (n : string) (v : Z) (t : NotificationTemplate) : NotificationTemplate :=
  if String.eqb (t_name t) n then set_active (t_version t =? v) t else t.

Lemma activate_deactivate n v l : map (activate n v) (map (deactivate n) l) = map (only_active n v) l.
Proof.
  rewrite map_map. apply map_ext. intros t. unfold activate, deactivate, only_active, is_version.
  destruct (String.eqb (t_name t) n) eqn:E; simpl; rewrite E; [|done]. simpl. by destruct (t_version t =? v).
Qed.

Lemma find_deactivate n v l : List.find (is_version n v) (map (deactivate n) l) = deactivate n <$> List.find (is_version n v) l.
Proof.
  induction l as [|t l IH]; [done|]. simpl.
  assert (is_version n v (deactivate n t) = is_version n v t) as ->.
  { unfold deactivate, is_version. by destruct (String.eqb (t_name t) n) eqn:E; simpl; rewrite ?E. }
  by destruct (is_version n v t).
Qed.

(** Activation is all or nothing: a template that exists becomes the only active
    version of its name, and in every other case, failures included, the tables are
    as before; a commit that fails, though, is answered like one that succeeds. *)
Theorem activation_is_atomic n v s :
  let '(r, s') := activate_template_version n v s in
  match r with
  | Ok (Json t) =>
      (∃ t0, List.find (is_version n v) (notification_templates (db s)) = Some t0 ∧ t = set_active true t0) ∧
      db s' = match db_fault pg (S (S (S (ops s)))) with
              | Some _ => db s
              | None => with_templates (map (only_active n v) (notification_templates (db s))) (db s)
              end
  | Ok (Failed 404 _) => db s' = db s ∧ List.find (is_version n v) (notification_templates (db s)) = None
  | Ok (Failed _ _) => db s' = db s ∧ ∃ i e, (i < 3)%nat ∧ db_fault pg (ops s + i) = Some e
  | _ => False
  end.
Proof.
  unfold activate_template_version, tables, rollback, attempt, execute, stmt, mbind, M_bind, mret, M_ret. cbn [db ops trace].
  destruct (db_fault pg (ops s)) as [e0|] eqn:E0.
  { split; [done|]. exists O, e0. rewrite Nat.add_0_r. split; [lia|done]. }
  cbn [db ops trace]. destruct (db_fault pg (S (ops s))) as [e1|] eqn:E1.
  { cbn. split; [done|]. exists 1%nat, e1. replace (ops s + 1)%nat with (S (ops s)) by lia. split; [lia|done]. }
  cbn [db ops trace]. destruct (db_fault pg (S (S (ops s)))) as [e2|] eqn:E2.
  { cbn. split; [done|]. exists 2%nat, e2. replace (ops s + 2)%nat with (S (S (ops s))) by lia. split; [lia|done]. }
  cbn [db ops trace notification_templates with_templates]. rewrite find_deactivate, activate_deactivate.
  destruct (List.find (is_version n v) (notification_templates (db s))) as [t0|] eqn:Ef; cbn; [|done].
  assert (set_active true (deactivate n t0) = set_active true t0) as -> by (unfold deactivate; by destruct (String.eqb _ _)).
  destruct (db_fault pg (S (S (S (ops s))))); cbn; (split; [by exists t0|done]).
Qed.

(** The type table of sqlx: an [i64] is read from INT8 only. *)
Hypothesis int4_refused : ∀ v, is_ok (decode_int4 v) = false.

(** Every template is created as version 1, so a name never gets a second
    version: the new template is refused by the table and the handler fails. *)
Theorem one_version_per_name b s :
  healthy pg →
  let '(r, s') := create_template b s in
  if bool_decide (1 ∈ versions (name b) (db s)) then db s' = db s ∧ r = Ok (Failed 500 "Failed to create template")
  else ∃ t, r = Ok (Created t) ∧ t_name t = name b ∧ t_version t = 1 ∧
         db s' = with_templates (notification_templates (db s) ++ [t]) (db s).
Proof.
  intros Hh. unfold create_template, answer, insert_template, select_next_version, attempt, of_result, mbind, M_bind, mret, M_ret.
  rewrite query_healthy by done. cbn [db ops trace]. set (next := fold_left Z.max _ _ + 1).
  specialize (int4_refused next). destruct (decode_int4 next); [done|].
  change (wrap_i 32 1) with 1. unfold counter, stmt. rewrite Hh. cbn [db ops trace].
  by case_bool_decide; [|eexists; split_and!].
Qed.

End NotificationAdmin.

(** *** Two templates of one name *)

Definition sample_pg : PgEnv := mkPgEnv (λ _, 7) (λ _, None).
Definition welcome : CreateTemplate := mkCreateTemplate "welcome" "Hi" "Hello".
Definition no_tables : Db := mkDb [] [] [] [].

Lemma one_version_per_name_witness :
  let decode := λ _ : Z, @Err Z string "mismatched types" in
  let first := create_template sample_pg (λ _, "u1") decode welcome (mkSt no_tables 0 []) in
  let second := create_template sample_pg (λ _, "u2") decode welcome first.2 in
  first.1 = Ok (Created (mkTemplate "u1" "welcome" 1 "Hi" "Hello" false 7)) ∧
  second.1 = Ok (Failed 500 "Failed to create template") ∧ db second.2 = db first.2.
Proof.
  intros decode first second. split; [vm_compute; reflexivity|].
  pose proof (one_version_per_name sample_pg (λ _, "u2") decode (λ _, eq_refl) welcome first.2 (λ _, eq_refl)) as H.
  fold second in H. destruct second as [r s']. vm_compute in H. destruct H as [H1 H2]. split; [exact H2|exact H1].
Defined.

End NotificationAdmin.
