(* ===== verification/ZeroTrust.v ===== *)
(** zero_trust.rs: signed requests, key rotation, policies and the access log.

    The keyed hash and the hex encoder are those of [Signing]; the parser of IP
    addresses is that of [CallbackUrl].  Times are microseconds; the parser of
    ISO 8601 times (chrono) and [str::to_uppercase] are parameters. *)

From S2P Require Import Prelude Text CallbackUrl Signing.

Module ZeroTrust.
Import CallbackUrl.

Definition newline : string := String (ascii_of_nat 10) EmptyString.

(** ** Signed requests *)

Section RequestSignature.
Context `{C : Signing.Crypto}.
Variable parse_time : string → option Z.

Definition MAX_TIMESTAMP_AGE_SECS : Z := 300.

Definition canonical_payload (method path timestamp body : string) : string :=
  (method +:+ newline +:+ path +:+ newline +:+ timestamp +:+ newline +:+ body)%string.

Definition sign (secret method path timestamp body : string) : string :=
  Signing.hex_encode (Signing.hmac_sha256 secret (canonical_payload method path timestamp body)).

(** [num_seconds] truncates. *)
Definition is_timestamp_fresh (now : Z) (timestamp : string) : bool :=
  match parse_time timestamp with
  | None => false
  | Some ts => Z.abs (Z.quot (now - ts) 1000000) <=? MAX_TIMESTAMP_AGE_SECS
  end.

Definition verify (now : Z) (secret method path timestamp body provided_sig : string) : bool :=
  if negb (is_timestamp_fresh now timestamp) then false
  else String.eqb (sign secret method path timestamp body) provided_sig.

End RequestSignature.

(** ** Key rotation *)

Record ApiKeySet : Type := mkKeySet { primary : string; secondary : option string; rotated_at : option Z }.

Definition new_key_set (p : string) : ApiKeySet := mkKeySet p None None.

Definition is_valid (key : string) (k : ApiKeySet) : bool :=
  String.eqb (primary k) key || match secondary k with Some s => String.eqb s key | None => false end.

Definition rotate (now : Z) (new_key : string) (k : ApiKeySet) : ApiKeySet := mkKeySet new_key (Some (primary k)) (Some now).

(** The counter soroban_pulse_api_key_rotations_total is the second component. *)
Definition rotate_with_metrics (now : Z) (new_key : string) (k : ApiKeySet) (rotations : Z) : ApiKeySet * Z :=
  (rotate now new_key k, rotations + 1).

Definition is_in_grace_period (now grace_period_secs : Z) (k : ApiKeySet) : bool :=
  match rotated_at k with Some r => Z.quot (now - r) 1000000 <? grace_period_secs | None => false end.

(** ** Policies *)

Inductive ChallengeMethod : Type := Mfa | Reauthenticate | Captcha.

Inductive AccessDecision : Type :=
| Allow
| Deny (reason : string)
| Challenge (m : ChallengeMethod).

Record RequestContext : Type := mkContext {
  ip_address : string;
  api_key_hash : string;
  path : string;
  method : string;
  timestamp : Z;
  user_agent : option string;
}.

(** [PolicyRule::evaluate]. *)
Definition PolicyRule : Type := RequestContext → option AccessDecision.

Record PolicyEvaluator : Type := mkEvaluator { rules : list PolicyRule }.

Definition new_evaluator : PolicyEvaluator := mkEvaluator [].
Definition add_rule (r : PolicyRule) (e : PolicyEvaluator) : PolicyEvaluator := mkEvaluator (rules e ++ [r]).

Fixpoint first_decision (rs : list PolicyRule) (ctx : RequestContext) : AccessDecision :=
  match rs with
  | [] => Deny "no matching policy rule"
  | r :: rest => match r ctx with Some d => d | None => first_decision rest ctx end
  end.

Definition evaluate (e : PolicyEvaluator) (ctx : RequestContext) : AccessDecision := first_decision (rules e) ctx.

(** *** Filters of addresses *)

Record IpFilterEntry : Type := mkEntry { network : IpAddr; prefix_len : Z }.

Definition parse_entry (entry : string) : option IpFilterEntry :=
  match split_once "/" entry with
  | Some (addr, len) =>
      n ← parse_ip (trim addr);
      p ← parse_u 8 (trim len);
      if width n <? p then None else Some (mkEntry n p)
  | None => n ← parse_ip (trim entry); Some (mkEntry n (width n))
  end.

(** The mask of [p] bits of [w]: [MAX << (w - p)], or 0. *)
Definition mask (w p : Z) : Z := if p =? 0 then 0 else wrap_u w (Z.shiftl (u_max w) (w - p)).

Definition entry_contains (e : IpFilterEntry) (candidate : IpAddr) : bool :=
  match network e, candidate with
  | V4 _ _ _ _, V4 _ _ _ _ => Z.land (value (network e)) (mask 32 (prefix_len e)) =? Z.land (value candidate) (mask 32 (prefix_len e))
  | V6 _, V6 _ => Z.land (value (network e)) (mask 128 (prefix_len e)) =? Z.land (value candidate) (mask 128 (prefix_len e))
  | _, _ => false
  end.

Definition parse_ip_filter_list (entries : list string) : list IpFilterEntry := omap parse_entry entries.

Definition listed (entries : list IpFilterEntry) (candidate : IpAddr) : bool := existsb (λ e, entry_contains e candidate) entries.

Definition IpDenyListRule (denied_ips : list string) : PolicyRule := λ ctx,
  match parse_ip (ip_address ctx) with
  | None => None
  | Some c =>
      if listed (parse_ip_filter_list denied_ips) c
      then Some (Deny ("IP address " +:+ ip_address ctx +:+ " is blocked")%string) else None
  end.

Definition IpAllowListRule (allowed_ips : list string) : PolicyRule := λ ctx,
  match parse_ip (ip_address ctx) with
  | None => Some (Deny "Unparseable client IP address")
  | Some c =>
      if listed (parse_ip_filter_list allowed_ips) c then None
      else Some (Deny ("IP address " +:+ ip_address ctx +:+ " is not on the allow list")%string)
  end.

Definition mutating : list string := ["POST"; "PUT"; "PATCH"; "DELETE"]%string.

Definition MutationChallengeRule (to_uppercase : string → string) : PolicyRule := λ ctx,
  if bool_decide (to_uppercase (method ctx) ∈ mutating) then Some (Challenge Mfa) else None.

Definition AllowedKeysRule (allowed_key_hashes : list string) : PolicyRule := λ ctx,
  if bool_decide (api_key_hash ctx ∈ allowed_key_hashes) then Some Allow else None.

(** ** The access log *)

Record AccessLogEntry : Type := mkEntryOf { context : RequestContext; decision : AccessDecision; recorded_at : Z }.

Record AccessLogger : Type := mkLogger { entries : list AccessLogEntry; capacity : nat }.

Definition new_logger (c : nat) : AccessLogger := mkLogger [] c.

(** [None] is a panic: [remove(0)] of an empty vector. *)
Definition record (now : Z) (ctx : RequestContext) (d : AccessDecision) (l : AccessLogger) : option AccessLogger :=
  let entry := mkEntryOf ctx d now in
  if (capacity l <=? length (entries l))%nat then
    match entries l with
    | [] => None
    | _ :: rest => Some (mkLogger (rest ++ [entry]) (capacity l))
    end
  else Some (mkLogger (entries l ++ [entry]) (capacity l)).

Definition recent_entries (limit : nat) (l : AccessLogger) : list AccessLogEntry := take limit (rev (entries l)).

Definition entries_for_key (key_hash : string) (limit : nat) (l : AccessLogger) : list AccessLogEntry :=
  take limit (List.filter (λ e, String.eqb (api_key_hash (context e)) key_hash) (rev (entries l))).

(** ** Signed requests: what a signature binds *)

Definition no_newline (s : string) : bool := string_forallb (λ a, negb (Ascii.eqb a (ascii_of_nat 10))) s.

Lemma app_newline_inj a a' b b' :
  no_newline a = true → no_newline a' = true →
  (a +:+ newline +:+ b = a' +:+ newline +:+ b')%string → a = a' ∧ b = b'.
Proof.
  revert a'. induction a as [|x a IH]; intros [|x' a'] Ha Ha' H; simpl in *.
  - by injection H.
  - injection H as <- _. done.
  - injection H as -> _. done.
  - injection H as <- H. apply andb_true_iff in Ha as [_ Ha], Ha' as [_ Ha']. destruct (IH a' Ha Ha' H) as [-> ->]. done.
Qed.

(** When the method, path and time of both requests have no line break, a
    signature that verifies for both, under keys of one block, binds them: they are
    the same request, or two messages with one keyed hash are known. *)
Lemma request_signature_binds `{C : Signing.Crypto} `{!Signing.CryptoLaws C} secret m p t b m' p' t' b' :
  no_newline m = true → no_newline p = true → no_newline t = true →
  no_newline m' = true → no_newline p' = true → no_newline t' = true →
  sign secret m p t b = sign secret m' p' t' b' →
  (m, p, t, b) = (m', p', t', b') ∨
  Signing.collision (Signing.key_block secret, canonical_payload m p t b) (Signing.key_block secret, canonical_payload m' p' t' b').
Proof.
  intros Hm Hp Ht Hm' Hp' Ht' Hs%Signing.hex_encode_inj.
  destruct (decide (canonical_payload m p t b = canonical_payload m' p' t' b')) as [E|Hne]; cycle 1.
  { right. split; [intros [=]; done|done]. }
  left. unfold canonical_payload in E.
  apply app_newline_inj in E as [-> E]; [|done..]. apply app_newline_inj in E as [-> E]; [|done..].
  by apply app_newline_inj in E as [-> ->].
Qed.

(** Otherwise it does not: a line break in the body moves into the time, and one
    in the path into the method, without a change of the signature. *)
Theorem request_signature_ambiguous `{C : Signing.Crypto} secret m p t b x :
  sign secret m p t (x +:+ newline +:+ b) = sign secret m p (t +:+ newline +:+ x) b ∧
  sign secret m (p +:+ newline +:+ x) t b = sign secret (m +:+ newline +:+ p) x t b.
Proof.
  unfold sign, canonical_payload. split; by rewrite !string_app_assoc.
Qed.

(** ** Rotation *)

(** After a rotation exactly the new key and the one before it are valid, and
    this does not depend on the time: the old key outlives any grace period, until
    the next rotation. *)
Lemma rotation_keeps_previous now new k key :
  is_valid key (rotate now new k) = (String.eqb new key || String.eqb (primary k) key).
Proof. done. Qed.

(** ** Filters of addresses *)

Lemma mask_high w p : 0 < w → 0 ≤ p ≤ w → mask w p = Z.ldiff (Z.ones w) (Z.ones (w - p)).
Proof.
  intros Hw Hp. assert (∀ x y, (∀ n, 0 ≤ n → Z.testbit x n = Z.testbit y n) → x = y) as Hext by apply Z.bits_inj'.
  assert (u_max w = Z.ones w) as Hu by (unfold u_max; by rewrite Z.ones_equiv, Z.sub_1_r).
  unfold mask. destruct (Z.eqb_spec p 0) as [->|Hne]; apply Hext; intros n Hn; rewrite Z.ldiff_spec.
  - rewrite Z.testbit_0_l, Z.sub_0_r. by destruct (Z.testbit _ n).
  - unfold wrap_u. rewrite <- Z.land_ones, Z.land_spec, Z.shiftl_spec, Hu by lia. destruct (Z.ltb_spec n (w - p)).
    + rewrite Z.testbit_neg_r, (Z.ones_spec_low (w - p)) by lia. by rewrite andb_false_r.
    + rewrite (Z.ones_spec_high (w - p)) by lia. destruct (Z.ltb_spec n w).
      * rewrite !Z.ones_spec_low by lia. done.
      * rewrite (Z.ones_spec_high w n) by lia. by rewrite andb_false_r.
Qed.

Lemma value_width ip : valid_ip ip → in_u (width ip) (value ip).
Proof.
  destruct ip as [a b c d|s]; simpl.
  - rewrite !Forall_cons. unfold in_u. intros (Ha & Hb & Hc & Hd & _). lia.
  - intros [Hl Hf]. do 8 (destruct s as [|? s]; [done|]). destruct s; [|done]. rewrite !Forall_cons in Hf. unfold in_u in *.
    destruct Hf as (?&?&?&?&?&?&?&?&_). simpl. lia.
Qed.

Lemma masked_eq w p x y :
  0 < w → 0 ≤ p ≤ w → in_u w x → in_u w y →
  (Z.land x (mask w p) =? Z.land y (mask w p)) = (Z.shiftr y (w - p) =? Z.shiftr x (w - p)).
Proof.
  intros Hw Hp Hx Hy. rewrite mask_high, !land_high by (done || lia).
  apply eq_true_iff_eq. rewrite !Z.eqb_eq. split; [|by intros ->].
  intros H%(f_equal (λ z, Z.shiftr z (w - p))). by rewrite !Z.shiftr_shiftl_l, Z.sub_diag, !Z.shiftl_0_r in H by lia.
Qed.

Lemma entry_contains_spec e c :
  valid_ip (network e) → valid_ip c → 0 ≤ prefix_len e ≤ width (network e) →
  entry_contains e c = in_net c (network e, prefix_len e).
Proof.
  intros Hn%value_width Hc%value_width Hp. unfold entry_contains, in_net.
  destruct (network e) as [a b c' d|s] eqn:En, c as [a' b' c'' d'|s']; cbn [width] in *; try done; rewrite masked_eq by (done || lia); done.
Qed.

Lemma parse_entry_valid s e : parse_entry s = Some e → valid_ip (network e) ∧ 0 ≤ prefix_len e ≤ width (network e).
Proof.
  unfold parse_entry. destruct (split_once "/" s) as [[addr len]|].
  - destruct (parse_ip (trim addr)) as [n|] eqn:En; [|done]. simpl. destruct (parse_u 8 (trim len)) as [p|] eqn:Ep; [|done]. simpl.
    destruct (Z.ltb_spec (width n) p); [done|]. intros [= <-]. simpl. split; [by apply parse_ip_valid in En|].
    apply parse_u_range in Ep as []. lia.
  - destruct (parse_ip (trim s)) as [n|] eqn:En; [|done]. intros [= <-]. simpl. split; [by apply parse_ip_valid in En|].
    destruct n; simpl; lia.
Qed.

(** The networks that a list of filters names; entries that do not parse name none. *)
Definition networks (l : list string) : list (IpAddr * Z) := map (λ e, (network e, prefix_len e)) (parse_ip_filter_list l).

Lemma listed_spec l c : valid_ip c → listed (parse_ip_filter_list l) c = existsb (in_net c) (networks l).
Proof.
  intros Hc. unfold listed, networks. assert (∀ e, e ∈ parse_ip_filter_list l → valid_ip (network e) ∧ 0 ≤ prefix_len e ≤ width (network e)) as Hv.
  { intros e (s & _ & Hs)%list_elem_of_omap. by eapply parse_entry_valid. }
  induction (parse_ip_filter_list l) as [|e es IH]; [done|]. simpl. rewrite IH by (intros; apply Hv; by right).
  destruct (Hv e) as [H1 H2]; [by left|]. by rewrite entry_contains_spec.
Qed.

(** C37. The deny and the allow list decide by membership in their networks, bit for
    bit; an address that does not parse passes the deny list and fails the allow
    list. *)
Theorem ip_rules_spec l ctx :
  (IpDenyListRule l ctx = None ↔ (∀ c, parse_ip (ip_address ctx) = Some c → existsb (in_net c) (networks l) = false)) ∧
  (IpAllowListRule l ctx = None ↔ (∃ c, parse_ip (ip_address ctx) = Some c ∧ existsb (in_net c) (networks l) = true)).
Proof.
  unfold IpDenyListRule, IpAllowListRule. destruct (parse_ip (ip_address ctx)) as [c|] eqn:Ec.
  - rewrite listed_spec by by apply parse_ip_valid in Ec. destruct (existsb _ _) eqn:Ee; split; split; try done.
    + intros H. specialize (H c eq_refl). congruence.
    + intros _. by exists c.
    + by intros _ c' [= <-].
    + intros (c' & [= <-] & H). congruence.
  - split; split; try done. by intros (c & ? & _).
Qed.

Example in_block : IpDenyListRule ["203.0.113.0/24"] (mkContext "203.0.113.77" "" "" "" 0 None) = Some (Deny "IP address 203.0.113.77 is blocked").
Proof. reflexivity. Qed.

(** ** Policies *)

(** The first rule that decides wins; with no such rule, access is denied. *)
Lemma evaluate_spec e ctx :
  (∃ pre r post d, rules e = pre ++ r :: post ∧ Forall (λ r, r ctx = None) pre ∧ r ctx = Some d ∧ evaluate e ctx = d) ∨
  (Forall (λ r, r ctx = None) (rules e) ∧ evaluate e ctx = Deny "no matching policy rule").
Proof.
  unfold evaluate. induction (rules e) as [|r rs IH]; simpl; [by right|]. destruct (r ctx) as [d|] eqn:Er.
  - left. by exists [], r, rs, d.
  - destruct IH as [(pre & r' & post & d & -> & F & Hr & Hd)|[F Hd]].
    + left. exists (r :: pre), r', post, d. split_and!; [done|by constructor|done|done].
    + right. split; [by constructor|done].
Qed.

(** A denial that comes first in the chain cannot be undone by later rules. *)
Lemma deny_list_first l rs ctx c :
  parse_ip (ip_address ctx) = Some c → existsb (in_net c) (networks l) = true →
  ∃ reason, evaluate (mkEvaluator (IpDenyListRule l :: rs)) ctx = Deny reason.
Proof.
  intros Hp Hn. unfold evaluate. simpl. unfold IpDenyListRule. rewrite Hp, listed_spec by by apply parse_ip_valid in Hp.
  rewrite Hn. by eexists.
Qed.

(** ** The access log *)

Definition log_all (l : AccessLogger) (es : list AccessLogEntry) : option AccessLogger :=
  fold_left (λ o e, l ← o; record (recorded_at e) (context e) (decision e) l) es (Some l).

(** A logger with room keeps the latest entries, as many as its capacity; one
    without room panics at its first entry. *)
Theorem access_log_keeps_latest c es :
  (0 < c)%nat →
  ∃ l, log_all (new_logger c) es = Some l ∧ capacity l = c ∧ entries l = drop (length es - c) es.
Proof.
  intros Hc. unfold log_all. induction es as [|e es IH] using rev_ind; [by eexists|].
  destruct IH as (l & E & Hcap & He). rewrite fold_left_app. simpl. rewrite E. cbn [mbind option_bind]. unfold record.
  assert (mkEntryOf (context e) (decision e) (recorded_at e) = e) as -> by by destruct e.
  rewrite Hcap, He, <- push_latest by done.
  destruct (c <=? length (drop (length es - c) es))%nat eqn:Ef; [|by eexists].
  destruct (drop (length es - c) es) as [|x rest]; [apply Nat.leb_le in Ef; simpl in Ef; lia|by eexists].
Qed.

Lemma no_room_panics now ctx d : record now ctx d (new_logger 0) = None.
Proof. done. Qed.

Definition visit (n : Z) : AccessLogEntry := mkEntryOf (mkContext "10.0.0.1" "k" "/" "GET" n None) Allow n.

Lemma access_log_keeps_latest_witness :
  (∃ l, log_all (new_logger 2) [visit 1; visit 2; visit 3] = Some l ∧ entries l = [visit 2; visit 3]) ∧
  entries_for_key "k" 1 (mkLogger [visit 2; visit 3] 2) = [visit 3].
Proof.
  split; [|reflexivity]. destruct (access_log_keeps_latest 2 [visit 1; visit 2; visit 3]) as (l & E & _ & H); [lia|].
  exists l. split; [exact E|exact H].
Defined.

End ZeroTrust.
