(* ===== verification/FeatureFlags.v ===== *)
(** feature_flags.rs and the handlers of handlers/mod.rs that show the flags:
    evaluation with targets and a rollout, variants, counters, and the watcher that
    rolls flags back.

    The standard library's default hasher, generated ids and the text of an
    [f64] are parameters; times are microseconds. *)

From S2P Require Import Prelude F64 Model Pg.

Module FeatureFlags.

Record FeatureFlagContext : Type := mkContext {
  contract_id : option string;
  user_id : option string;
  ip_address : option string;
  region : option string;
}.

(** A row of feature_flags. *)
Record FeatureFlag : Type := mkFlag {
  id : string;
  name : string;
  enabled : bool;
  auto_rollback : bool;
  flag_threshold : f64;
  flag_description : option string;
  updated_at : Z;
  rollout_percentage : option Z;
  target_contract_ids : option (list string);
  target_user_ids : option (list string);
  target_ips : option (list string);
  target_regions : option (list string);
}.

Record AuditEntry : Type := mkAudit {
  a_id : string;
  a_flag_id : string;
  a_action : string;
  a_reason : option string;
  a_triggered_by : string;
  a_created_at : Z;
}.

Record RequestLog : Type := mkRequestLog { rl_status : Z; rl_created_at : Z }.

(** No migration creates request_logs: [None] is a database without it. *)
Record Db : Type := mkDb {
  feature_flags : list FeatureFlag;
  feature_flag_audit : list AuditEntry;
  request_logs : option (list RequestLog);
}.

(** The gauge of the error rate and the counter of rollbacks. *)
Inductive Ev : Type := ErrorRate (rate : f64) | RolledBack (flag : string).

Section FeatureFlags.
Variable pg : PgEnv.
Variable gen_random_uuid : nat → string.
(** [DefaultHasher] over the strings that were hashed. *)
Variable default_hash : list string → Z.
(** [format!("{:.2}", x)]. *)
Variable show_2 : f64 → string.

Local Abbreviation M := (Pg.M Db Ev string).

(** ** Evaluation *)

Definition compute_rollout_hash (flag_name : string) (c : FeatureFlagContext) : Z :=
  default_hash
    (flag_name ::
     match contract_id c, user_id c, ip_address c with
     | Some x, _, _ => [x]
     | None, Some x, _ => [x]
     | None, None, Some x => [x]
     | None, None, None => []
     end).

Definition is_some {A} (o : option A) : bool := match o with Some _ => true | None => false end.

(** A list that is set and holds the context's value. *)
Definition target_matched (targets : option (list string)) (x : option string) : bool :=
  match targets, x with
  | Some l, Some v => bool_decide (v ∈ l)
  | _, _ => false
  end.

Definition has_targeting (f : FeatureFlag) : bool :=
  is_some (target_contract_ids f) || is_some (target_user_ids f) || is_some (target_ips f) || is_some (target_regions f).

Definition targeted (f : FeatureFlag) (c : FeatureFlagContext) : bool :=
  target_matched (target_contract_ids f) (contract_id c) || target_matched (target_user_ids f) (user_id c) ||
  target_matched (target_ips f) (ip_address c) || target_matched (target_regions f) (region c).

Definition bucket (flag_name : string) (c : FeatureFlagContext) : Z := compute_rollout_hash flag_name c mod 100.

(** The column rollout_percentage may be NULL, which the row's type has no place for. *)
Definition decode_flag (o : option FeatureFlag) : result (option (FeatureFlag * Z)) string :=
  match o with
  | None => Ok None
  | Some f =>
      match rollout_percentage f with
      | Some pct => Ok (Some (f, pct))
      | None => Err "unexpected null"%string
      end
  end.

Definition evaluate (flag_name : string) (c : FeatureFlagContext) (row : option (FeatureFlag * Z)) : bool :=
  match row with
  | None => false
  | Some (f, rollout_pct) =>
      if negb (enabled f) then false
      else if has_targeting f && negb (targeted f c) then false
      else bucket flag_name c <? rollout_pct
  end.

Definition find_flag (flag_name : string) (d : Db) : option FeatureFlag :=
  List.find (λ f, String.eqb (name f) flag_name) (feature_flags d).

Definition is_feature_enabled (flag_name : string) (c : FeatureFlagContext) : M bool :=
  row ← query pg (λ _ d, find_flag flag_name d);
  row ← of_result (decode_flag row);
  mret (evaluate flag_name c row).

(** [GET /v1/features]; [None] is a missing flag_name. *)
Definition get_feature_flag_status (params : gmap string string) : M (option (string * bool * FeatureFlagContext)) :=
  match params !! "flag_name"%string with
  | None => mret None
  | Some flag_name =>
      let c := mkContext (params !! "contract_id"%string) (params !! "user_id"%string)
                 (params !! "ip_address"%string) (params !! "region"%string) in
      enabled ← is_feature_enabled flag_name c;
      mret (Some (flag_name, enabled, c))
  end.

(** ** Variants *)

Record FlagVariant : Type := mkVariant { v_name : string; weight : Z }.

#[export] Instance FlagVariant_eq_dec : EqDecision FlagVariant.
Proof. solve_decision. Defined.

(** The variant whose part of the weights holds [bucket]; the last one otherwise. *)
Fixpoint pick (bucket : Z) (vs : list FlagVariant) (last : option FlagVariant) : option FlagVariant :=
  match vs with
  | [] => last
  | v :: rest => if bucket <? weight v then Some v else pick (bucket - weight v) rest (Some v)
  end.

(** The sum of the weights, a [u32]. *)
Definition total_weight (vs : list FlagVariant) : Z := fold_left (λ t v, add_u 32 t (weight v)) vs 0.

Definition assign_variant (flag_name : string) (c : FeatureFlagContext) (vs : list FlagVariant) : option FlagVariant :=
  match vs with
  | [] => None
  | _ =>
      let t := total_weight vs in
      if t =? 0 then None else pick (compute_rollout_hash flag_name c mod t) vs None
  end.

(** ** Counters *)

Record FlagCounters : Type := mkCounters {
  evaluations : Z;
  n_enabled : Z;
  n_disabled : Z;
  variant_assignments : gmap string Z;
}.

Abbreviation FlagMetrics := (gmap string FlagCounters).

Definition new_counters : FlagCounters := mkCounters 0 0 0 ∅.

Definition counters_for (m : FlagMetrics) (flag_name : string) : FlagCounters := default new_counters (m !! flag_name).

Definition record_evaluation (flag_name : string) (on : bool) (m : FlagMetrics) : FlagMetrics :=
  let c := counters_for m flag_name in
  <[flag_name := mkCounters (add_u 64 (evaluations c) 1) (if on then add_u 64 (n_enabled c) 1 else n_enabled c)
                   (if on then n_disabled c else add_u 64 (n_disabled c) 1) (variant_assignments c)]> m.

Definition record_variant_assignment (flag_name variant_name : string) (m : FlagMetrics) : FlagMetrics :=
  let c := counters_for m flag_name in
  <[flag_name := mkCounters (evaluations c) (n_enabled c) (n_disabled c)
                   (<[variant_name := add_u 64 (default 0 (variant_assignments c !! variant_name)) 1]> (variant_assignments c))]> m.

Record FlagMetricsSnapshot : Type := mkSnapshot {
  s_flag_name : string;
  s_evaluations : Z;
  s_enabled : Z;
  s_disabled : Z;
  s_enabled_rate : f64;
  s_variant_assignments : gmap string Z;
}.

Definition snapshot_of (nc : string * FlagCounters) : FlagMetricsSnapshot :=
  let '(n, c) := nc in
  mkSnapshot n (evaluations c) (n_enabled c) (n_disabled c)
    (if evaluations c =? 0 then F64.of_Z 0 else F64.div (F64.of_Z (n_enabled c)) (F64.of_Z (evaluations c)))
    (variant_assignments c).

(** In the order of the map. *)
Definition snapshot (m : FlagMetrics) : list FlagMetricsSnapshot := map snapshot_of (map_to_list m).

(** The result and the counters, unchanged when the flag cannot be read. *)
Definition is_feature_enabled_with_metrics (flag_name : string) (c : FeatureFlagContext) (m : FlagMetrics) :
    M (bool * FlagMetrics) :=
  r ← is_feature_enabled flag_name c;
  mret (r, record_evaluation flag_name r m).

(** ** The watcher *)

Record FeatureFlagWatcher : Type := mkWatcher { window_secs : Z; rollback_threshold : f64 }.

(** 0.05 is the closest double. *)
Definition DEFAULT_ROLLBACK_THRESHOLD : f64 := F64.div (F64.of_Z 5) (F64.of_Z 100).
Definition new_watcher : FeatureFlagWatcher := mkWatcher 300 DEFAULT_ROLLBACK_THRESHOLD.

(** The sums of the window: a SUM of no rows is NULL. *)
Definition error_counts (w : FeatureFlagWatcher) (now : Z) (l : list RequestLog) : option Z * Z :=
  let recent := List.filter (λ r, now - window_secs w * 1000000 <? rl_created_at r) l in
  (match recent with [] => None | _ => Some (Z.of_nat (length (List.filter (λ r, 500 <=? rl_status r) recent))) end,
   Z.of_nat (length recent)).

(** A NULL is not an [i64]: the row is refused like a failed query, and [.ok()] drops both. *)
Definition current_error_rate (w : FeatureFlagWatcher) : M (option f64) :=
  r ← attempt (E := string) (stmt pg (λ now d,
        match request_logs d with
        | None => Err "relation request_logs does not exist"%string
        | Some l =>
            match error_counts w now l with
            | (Some e, t) => Ok ((e, t), d)
            | (None, _) => Err "unexpected null"%string
            end
        end));
  mret match r with
       | Ok (errors, total) => if total =? 0 then None else Some (F64.div (F64.of_Z errors) (F64.of_Z total))
       | Err _ => None
       end.

Definition switch_off (i : string) (now : Z) (f : FeatureFlag) : FeatureFlag :=
  if String.eqb (id f) i
  then mkFlag (id f) (name f) false (auto_rollback f) (flag_threshold f) (flag_description f) now (rollout_percentage f)
         (target_contract_ids f) (target_user_ids f) (target_ips f) (target_regions f)
  else f.

Definition percent (x : f64) : string := show_2 (F64.mul x (F64.of_Z 100)).

Definition reason_of (w : FeatureFlagWatcher) (rate : f64) : string :=
  ("Auto-rollback: error rate " +:+ percent rate +:+ "% exceeded threshold " +:+ percent (rollback_threshold w) +:+ "%")%string.

(** The row of the audit references a flag that exists. *)
Definition insert_audit (i reason : string) : M () :=
  n ← counter;
  stmt pg (λ now d,
    if existsb (λ f, String.eqb (FeatureFlags.id f) i) (feature_flags d)
    then Ok ((), mkDb (feature_flags d)
                   (feature_flag_audit d ++ [mkAudit (gen_random_uuid n) i "rollback" (Some reason) "auto-rollback" now]) (request_logs d))
    else Err "violates foreign key constraint"%string).

Fixpoint rollback_loop (w : FeatureFlagWatcher) (rate : f64) (flags : list (string * string)) : M () :=
  match flags with
  | [] => mret ()
  | (i, n) :: rest =>
      r ← attempt (E := string) (execute pg (λ now d, mkDb (map (switch_off i now) (feature_flags d)) (feature_flag_audit d) (request_logs d)));
      match r with
      | Err _ => rollback_loop w rate rest
      | Ok _ =>
          call (λ _, ()) (λ _, RolledBack n) ;;
          a ← attempt (E := string) (insert_audit i (reason_of w rate));
          rollback_loop w rate rest
      end
  end.

Definition rolls_back (f : FeatureFlag) : bool := enabled f && auto_rollback f.

Definition rollback_enabled_flags (w : FeatureFlagWatcher) (rate : f64) : M () :=
  r ← attempt (E := string) (query pg (λ _ d, map (λ f, (id f, name f)) (List.filter rolls_back (feature_flags d))));
  match r with
  | Err _ => mret ()
  | Ok flags => rollback_loop w rate flags
  end.

Definition run_once (w : FeatureFlagWatcher) : M () :=
  r ← current_error_rate w;
  match r with
  | Some rate =>
      call (λ _, ()) (λ _, ErrorRate rate) ;;
      if F64.gtb rate (rollback_threshold w) then rollback_enabled_flags w rate else mret ()
  | None => mret ()
  end.

(** ** The admin's view *)

Definition list_feature_flags : M (list FeatureFlag) :=
  query pg (λ _ d, sort_by (cmp_on name String.compare) (feature_flags d)).

(** The entries with the names of their flags, latest first. *)
Definition get_feature_flag_audit : M (list (string * AuditEntry)) :=
  query pg (λ _ d,
    take 100 (sort_by (cmp_on (λ na, - a_created_at na.2) Z.compare)
      (concat (map (λ a, map (λ f, (name f, a)) (List.filter (λ f, String.eqb (id f) (a_flag_id a)) (feature_flags d)))
         (feature_flag_audit d))))).

(** ** Evaluation *)

(** A context that a rule of the flag names, when it has rules. *)
Definition admits (f : FeatureFlag) (c : FeatureFlagContext) : Prop :=
  has_targeting f = true →
  (∃ l x, target_contract_ids f = Some l ∧ contract_id c = Some x ∧ x ∈ l) ∨
  (∃ l x, target_user_ids f = Some l ∧ user_id c = Some x ∧ x ∈ l) ∨
  (∃ l x, target_ips f = Some l ∧ ip_address c = Some x ∧ x ∈ l) ∨
  (∃ l x, target_regions f = Some l ∧ region c = Some x ∧ x ∈ l).

Lemma target_matched_spec o x :
  target_matched o x = true ↔ ∃ l v, o = Some l ∧ x = Some v ∧ v ∈ l.
Proof.
  unfold target_matched. destruct o as [l|], x as [v|]; try (split; [done|by intros (? & ? & ? & ? & ?)]).
  rewrite bool_decide_eq_true. naive_solver.
Qed.

Lemma targeted_spec f c : (has_targeting f && negb (targeted f c) = false) ↔ admits f c.
Proof.
  unfold admits. rewrite andb_false_iff, negb_false_iff. unfold targeted. rewrite !orb_true_iff, !target_matched_spec.
  destruct (has_targeting f); intuition congruence.
Qed.

(** A flag is on for a context exactly when it exists, is enabled, has no
    targets or one that names the context, and the context's bucket of a hundred is
    below the rollout: more rollout never takes a context away, none turns
    everyone off and a hundred turns on everyone the targets admit. *)
Theorem flag_evaluation_spec flag_name c s :
  healthy pg →
  match find_flag flag_name (db s) with
  | None => (is_feature_enabled flag_name c s).1 = Ok false
  | Some f =>
      match rollout_percentage f with
      | None => is_ok (is_feature_enabled flag_name c s).1 = false
      | Some pct =>
          0 ≤ bucket flag_name c < 100 ∧
          ∃ on, (is_feature_enabled flag_name c s).1 = Ok on ∧
            (on = true ↔ enabled f = true ∧ admits f c ∧ bucket flag_name c < pct)
      end
  end.
Proof.
  intros Hh. unfold is_feature_enabled. rewrite (bind_ok _ _ _ _ _ (query_healthy _ _ s Hh)).
  destruct (find_flag flag_name (db s)) as [f|]; [|done]. unfold decode_flag. destruct (rollout_percentage f) as [pct|]; [|done].
  rewrite bind_of_ok. split; [by apply Z.mod_pos_bound|]. eexists. split; [done|]. simpl. rewrite <- targeted_spec.
  destruct (enabled f); simpl; [|by split; [|by intros []]]. destruct (has_targeting f && negb (targeted f c)); simpl.
  - split; [done|by intros (_ & ? & _)].
  - rewrite Z.ltb_lt. intuition.
Qed.

(** ** Variants *)

Definition weights (vs : list FlagVariant) : Z := fold_right (λ v t, weight v + t) 0 vs.

Lemma pick_last vs : ∀ b o o', 0 ≤ b < weights vs → pick b vs o = pick b vs o'.
Proof. destruct vs as [|v vs]; intros b o o' Hb; simpl in *; [lia|done]. Qed.

Lemma weights_nonneg vs : Forall (λ v, 0 ≤ weight v) vs → 0 ≤ weights vs.
Proof. induction 1; simpl; lia. Qed.

Lemma pick_elem vs : ∀ b o v, 0 ≤ b < weights vs → pick b vs o = Some v → v ∈ vs.
Proof.
  induction vs as [|v0 vs IH]; intros b o v Hb Hp; simpl in *; [lia|].
  destruct (Z.ltb_spec b (weight v0)); [injection Hp as <-; by left|]. right. eapply IH; [|exact Hp]. lia.
Qed.

(** The buckets of [0 .. weights vs) that go to [v]. *)
Definition share (vs : list FlagVariant) (o : option FlagVariant) (v : FlagVariant) : Z :=
  Z.of_nat (length (List.filter (λ b, bool_decide (pick b vs o = Some v)) (seqZ 0 (weights vs)))).

Lemma seqZ_weights v vs :
  Forall (λ v, 0 ≤ weight v) (v :: vs) →
  seqZ 0 (weights (v :: vs)) = seqZ 0 (weight v) ++ map (λ x, weight v + x) (seqZ 0 (weights vs)).
Proof.
  intros [Hv Hvs]%Forall_cons. simpl. rewrite seqZ_app by (done || by apply weights_nonneg). f_equal.
  rewrite Z.add_comm. symmetry. apply (fmap_add_seqZ (weight v) 0 (weights vs)).
Qed.

Lemma share_spec vs : ∀ o v,
  Forall (λ v, 0 ≤ weight v) vs → NoDup vs → share vs o v = if bool_decide (v ∈ vs) then weight v else 0.
Proof.
  induction vs as [|v0 vs IH]; intros o v Hw Hn.
  { case_bool_decide as Hin; [by apply elem_of_nil in Hin|done]. }
  unfold share. rewrite seqZ_weights by done. apply Forall_cons in Hw as [H0 Hw]. apply NoDup_cons in Hn as [H0n Hn].
  rewrite List.filter_app, length_app, filter_map, length_map, Nat2Z.inj_add.
  assert (List.filter (λ x, bool_decide (pick (weight v0 + x) (v0 :: vs) o = Some v)) (seqZ 0 (weights vs)) =
          List.filter (λ x, bool_decide (pick x vs (Some v0) = Some v)) (seqZ 0 (weights vs))) as ->.
  { apply filter_ext_in. intros x [Hx _]%list_elem_of_In%elem_of_seqZ. simpl. rewrite (proj2 (Z.ltb_ge _ _)) by lia.
    by replace (weight v0 + x - weight v0) with x by lia. }
  specialize (IH (Some v0) v Hw Hn). unfold share in IH. rewrite IH.
  assert (∀ b, b ∈ seqZ 0 (weight v0) → pick b (v0 :: vs) o = Some v0) as Hfirst.
  { intros b Hb%elem_of_seqZ. simpl. by rewrite (proj2 (Z.ltb_lt _ _)) by lia. }
  destruct (decide (v = v0)) as [->|Hne].
  - rewrite (bool_decide_false (v0 ∈ vs)) by done. rewrite bool_decide_true by by left.
    rewrite filter_all by (intros b Hb; rewrite Hfirst by done; by apply bool_decide_eq_true). rewrite length_seqZ. lia.
  - rewrite filter_none by (intros b Hb; rewrite Hfirst by done; apply bool_decide_eq_false; congruence).
    simpl. repeat case_bool_decide; set_solver.
Qed.

Lemma total_weight_no_overflow vs :
  Forall (λ v, 0 ≤ weight v) vs → weights vs < 2 ^ 32 → total_weight vs = weights vs.
Proof.
  intros Hw Hs. unfold total_weight.
  assert (∀ t, 0 ≤ t → t + weights vs < 2 ^ 32 → fold_left (λ t v, add_u 32 t (weight v)) vs t = t + weights vs) as H; [|by rewrite H].
  clear Hs. induction Hw as [|v vs Hv Hw IH]; intros t Ht Hs; simpl in *; [lia|]. pose proof (weights_nonneg vs Hw).
  unfold add_u. rewrite wrap_u_small by (unfold in_u; lia). rewrite IH by lia. lia.
Qed.

(** As long as the weights fit a [u32], a context gets the variant of its hash
    modulo their sum, and each variant has exactly its weight of the residues: the
    assignment is deterministic and proportional, and a weight of zero is never
    assigned. *)
Theorem variants_are_proportional vs :
  Forall (λ v, 0 ≤ weight v) vs → NoDup vs → weights vs < 2 ^ 32 →
  (∀ flag_name c, assign_variant flag_name c vs =
     if weights vs =? 0 then None else pick (compute_rollout_hash flag_name c mod weights vs) vs None) ∧
  ∀ v, v ∈ vs → share vs None v = weight v.
Proof.
  intros Hw Hn Hs. split.
  - intros flag_name c. unfold assign_variant. rewrite total_weight_no_overflow by done. by destruct vs.
  - intros v Hv. by rewrite share_spec, bool_decide_true.
Qed.

(** ** Rollbacks *)

(** Nothing creates the table of requests: without it there is no error rate,
    and the watcher never does anything. *)
Theorem rollback_never_happens w s :
  request_logs (db s) = None → (run_once w s).1 = Ok () ∧ db (run_once w s).2 = db s ∧ trace (run_once w s).2 = trace s.
Proof.
  intros Hn. unfold run_once, current_error_rate, attempt, stmt, mbind, M_bind, mret, M_ret.
  destruct (db_fault pg (ops s)); [done|]. by rewrite Hn.
Qed.

Lemma Forall2_impl_in {A B} (R S : A → B → Prop) l k : Forall2 R l k → (∀ x y, x ∈ l → R x y → S x y) → Forall2 S l k.
Proof.
  induction 1 as [|x y l k Hxy Hlk IH]; intros HS; constructor; [apply HS; [by left|done]|].
  apply IH. intros x' y' Hx. apply HS. by right.
Qed.

Lemma NoDup_map_inj {A B} (f : A → B) l x y : NoDup (map f l) → x ∈ l → y ∈ l → f x = f y → x = y.
Proof.
  induction l as [|z l IH]; intros Hn Hx Hy E; [by apply elem_of_nil in Hx|]. cbn [map] in Hn. apply NoDup_cons in Hn as [Hz Hn].
  apply elem_of_cons in Hx as [->|Hx], Hy as [->|Hy]; [done| | |by apply IH]; destruct Hz.
  - rewrite E. by apply list_elem_of_fmap_2.
  - rewrite <- E. by apply list_elem_of_fmap_2.
Qed.

Definition ids_off (ids : list string) (f f' : FeatureFlag) : Prop :=
  if bool_decide (id f ∈ ids) then ∃ t, f' = switch_off (id f) t f else f' = f.

Lemma switch_off_id i t f : id (switch_off i t f) = id f.
Proof. unfold switch_off. by destruct (String.eqb _ _). Qed.

Lemma existsb_switch_off i j t l :
  existsb (λ f, String.eqb (id f) j) (map (switch_off i t) l) = existsb (λ f, String.eqb (id f) j) l.
Proof. induction l as [|f l IH]; [done|]. simpl. by rewrite switch_off_id, IH. Qed.

Lemma switch_off_idem i t t' f : id f = i → switch_off i t' (switch_off i t f) = switch_off i t' f.
Proof. intros <-. unfold switch_off at 2 3. rewrite String.eqb_refl. unfold switch_off. simpl. by rewrite String.eqb_refl. Qed.

(** The flags of a list that exist are switched off, each with one entry in the
    audit and one rollback counted. *)
Lemma rollback_loop_spec w rate flags : ∀ s,
  healthy pg → Forall (λ x, existsb (λ f, String.eqb (id f) x.1) (feature_flags (db s)) = true) flags →
  ∃ audit, Forall2 (λ x a, a_flag_id a = x.1 ∧ a_reason a = Some (reason_of w rate)) flags audit ∧
    feature_flag_audit (db (rollback_loop w rate flags s).2) = feature_flag_audit (db s) ++ audit ∧
    Forall2 (ids_off (map fst flags)) (feature_flags (db s)) (feature_flags (db (rollback_loop w rate flags s).2)) ∧
    trace (rollback_loop w rate flags s).2 = trace s ++ map (λ x, RolledBack x.2) flags.
Proof.
  induction flags as [|[i n] flags IH]; intros s Hh Hx.
  { exists []. simpl. rewrite !app_nil_r. split_and!; [constructor|done| |done].
    clear Hx. induction (feature_flags (db s)) as [|f l IHl]; [constructor|]. by constructor. }
  apply Forall_cons in Hx as [Hi Hx]. cbn [fst] in Hi. cbn [rollback_loop].
  set (d1 := mkDb (map (switch_off i (now pg (ops s))) (feature_flags (db s))) (feature_flag_audit (db s)) (request_logs (db s))).
  set (a := mkAudit (gen_random_uuid (S (S (ops s)))) i "rollback" (Some (reason_of w rate)) "auto-rollback" (now pg (S (S (ops s))))).
  set (s1 := mkSt (mkDb (feature_flags d1) (feature_flag_audit d1 ++ [a]) (request_logs d1)) (S (S (S (ops s)))) (trace s ++ [RolledBack n])).
  rewrite (bind_ok _ _ _ _ _ (attempt_ok _ _ _ _ (execute_healthy pg _ s Hh))). fold d1.
  rewrite (bind_ok (call (λ _, ()) (λ _, RolledBack n)) _ (mkSt d1 (S (ops s)) (trace s)) () (mkSt d1 (S (S (ops s))) (trace s ++ [RolledBack n])) eq_refl).
  assert (insert_audit i (reason_of w rate) (mkSt d1 (S (S (ops s))) (trace s ++ [RolledBack n])) = (Ok (), s1)) as Ha1.
  { unfold insert_audit. rewrite (bind_ok counter _ _ _ _ eq_refl). apply stmt_healthy; [done|]. cbn [db ops feature_flags d1].
    by rewrite existsb_switch_off, Hi. }
  rewrite (bind_ok _ _ _ _ _ (attempt_ok _ _ _ _ Ha1)).
  destruct (IH s1 Hh) as (audit & Ha & Hau & Hf & Ht).
  { eapply Forall_impl; [exact Hx|]. intros x Hxx. cbn [s1 d1 db feature_flags]. by rewrite existsb_switch_off. }
  exists (a :: audit).
  split_and!.
  - by constructor.
  - rewrite Hau. cbn [s1 d1 db feature_flag_audit]. by rewrite <- app_assoc.
  - revert Hf. cbn [s1 d1 db feature_flags]. rewrite Forall2_fmap_l. intros Hf. eapply Forall2_impl; [exact Hf|]. clear. intros f f'. unfold compose. unfold ids_off.
    rewrite switch_off_id. cbn [map fst]. destruct (decide (id f = i)) as [Ef|Hne].
    + rewrite (bool_decide_true (id f ∈ i :: _)) by (rewrite Ef; by left). case_bool_decide as Hin.
      * intros (t & ->). exists t. rewrite <- Ef. by apply switch_off_idem.
      * intros ->. eexists. by rewrite <- Ef.
    + assert (switch_off i (now pg (ops s)) f = f) as ->.
      { unfold switch_off. by rewrite (proj2 (String.eqb_neq _ _) Hne). }
      repeat case_bool_decide; set_solver.
  - rewrite Ht. cbn [s1 trace map]. by rewrite <- app_assoc.
Qed.

(** With a table of requests the watcher does roll back: above the threshold
    every enabled flag that allows it is off afterwards, and no other flag changes. *)
Lemma rollback_switches_off w rate s :
  healthy pg → NoDup (map id (feature_flags (db s))) →
  Forall2 (λ f f', if rolls_back f then ∃ t, f' = switch_off (id f) t f else f' = f)
    (feature_flags (db s)) (feature_flags (db (rollback_enabled_flags w rate s).2)).
Proof.
  intros Hh Hn. unfold rollback_enabled_flags, attempt, mbind, M_bind. rewrite query_healthy by done. cbn beta iota.
  set (flags := map _ (List.filter rolls_back _)). set (s1 := mkSt _ _ _).
  destruct (rollback_loop_spec w rate flags s1 Hh) as (audit & _ & _ & Hf & _).
  { apply Forall_forall. intros x (f & -> & Hf)%list_elem_of_fmap. apply list_elem_of_In, filter_In in Hf as [Hf _].
    apply existsb_exists. exists f. split; [done|]. by apply String.eqb_eq. }
  cbn [s1 db] in Hf. assert (map fst flags = map id (List.filter rolls_back (feature_flags (db s)))) as Hids by (unfold flags; by rewrite map_map).
  rewrite Hids in Hf. clear Hids. apply (Forall2_impl_in _ _ _ _ Hf). intros f f' Hin. unfold ids_off.
  assert (bool_decide (id f ∈ map id (List.filter rolls_back (feature_flags (db s)))) = rolls_back f) as ->; [|done].
  destruct (rolls_back f) eqn:Er; [apply bool_decide_eq_true|apply bool_decide_eq_false].
  - apply list_elem_of_fmap_2, list_elem_of_In, filter_In. by rewrite <- list_elem_of_In.
  - intros (g & Eg & [Hg Hr]%list_elem_of_In%filter_In)%list_elem_of_fmap. apply list_elem_of_In in Hg.
    assert (f = g) as -> by by eapply NoDup_map_inj. congruence.
Qed.

End FeatureFlags.

(** *** A context and its flags *)

Definition beta_flag : FeatureFlag :=
  mkFlag "f1" "beta" true true (F64.of_Z 0) None 0 (Some 40) (Some ["C1"]) None None (Some ["eu"]).
Definition sample_db : Db := mkDb [beta_flag] [] None.
Definition steady : PgEnv := mkPgEnv (λ _, 0) (λ _, None).
(** A hash by length. *)
Definition length_hash (l : list string) : Z := Z.of_nat (length (concat (map String.list_ascii_of_string l))) * 7.

Lemma flag_evaluation_spec_witness :
  let enabled_for c := (is_feature_enabled steady length_hash "beta" c (mkSt sample_db 0 [] : St Db Ev)).1 in
  (let c := mkContext (Some "C9") None None (Some "eu") in
   bucket length_hash "beta" c = 42 ∧ ∃ on, enabled_for c = Ok on ∧ (on = true ↔ enabled beta_flag = true ∧ admits beta_flag c ∧ 42 < 40)) ∧
  enabled_for (mkContext None None None (Some "eu")) = Ok true ∧
  enabled_for (mkContext (Some "C2") None None None) = Ok false.
Proof.
  split; [|split; vm_compute; reflexivity]. split; [vm_compute; reflexivity|].
  destruct (flag_evaluation_spec steady length_hash "beta" (mkContext (Some "C9") None None (Some "eu")) (mkSt sample_db 0 []) (λ _, eq_refl)) as [_ H].
  exact H.
Defined.

Lemma variants_are_proportional_witness :
  let vs := [mkVariant "a" 1; mkVariant "b" 3; mkVariant "c" 0] in
  share vs None (mkVariant "b" 3) = 3 ∧ share vs None (mkVariant "c" 0) = 0 ∧
  assign_variant length_hash "x" (mkContext None (Some "u") None None) vs = Some (mkVariant "b" 3).
Proof.
  intros vs. assert (Forall (λ v, 0 ≤ weight v) vs) as Hw by (repeat constructor; simpl; lia).
  assert (NoDup vs) as Hn by (apply (bool_decide_unpack _); vm_compute; exact I).
  destruct (variants_are_proportional length_hash vs Hw Hn eq_refl) as [_ H].
  split; [apply H; right; left|]. split; [apply H; right; right; left|]. vm_compute. reflexivity.
Defined.

Lemma rollback_never_happens_witness :
  request_logs sample_db = None ∧
  db (run_once steady (λ _, "u") (λ _, "5.00") new_watcher (mkSt sample_db 0 [])).2 = sample_db.
Proof.
  split; [reflexivity|]. apply (rollback_never_happens steady (λ _, "u") (λ _, "5.00") new_watcher (mkSt sample_db 0 []) eq_refl).
Defined.

End FeatureFlags.
