(* ===== verification/JobScheduler.v ===== *)
(** job_scheduler.rs: the registry of background tasks.

    A handle of the runtime is a parameter, with what it says about its task at a
    given time ([finished]).  Registering changes the registry under its lock and
    then publishes the number of running tasks in two further steps, so the calls
    of several threads interleave. *)

From S2P Require Import Prelude Model.

Module JobScheduler.

Inductive JobStatus : Type := Running | Completed | Stopped.
Inductive JobKind : Type := LongRunning | OneShot.

#[export] Instance JobStatus_eq_dec : EqDecision JobStatus.
Proof. solve_decision. Defined.

Section Scheduler.
Context {JoinHandle : Type}.

Record Job : Type := mkJob { name : string; kind : JobKind; handle : JoinHandle }.
Record JobInfo : Type := mkInfo { i_name : string; i_kind : JobKind; i_status : JobStatus }.

(** [JobScheduler] and the gauge background_jobs_alive. *)
Record State : Type := mkState { jobs_ : list Job; gauge : Z }.

Definition new : State := mkState [] 0.

Section Now.
Variable finished : JoinHandle → bool.

Definition status (j : Job) : JobStatus :=
  match finished (handle j), kind j with
  | false, _ => Running
  | true, OneShot => Completed
  | true, LongRunning => Stopped
  end.

Definition jobs (s : State) : list JobInfo := map (λ j, mkInfo (name j) (kind j) (status j)) (jobs_ s).

Definition alive_count (s : State) : Z := Z.of_nat (length (List.filter (λ j, negb (finished (handle j))) (jobs_ s))).

Definition jobs_alive (s : State) : bool := forallb (λ j, negb (bool_decide (status j = Stopped))) (jobs_ s).

Definition publish_metrics (s : State) : State := mkState (jobs_ s) (alive_count s).

Definition push (j : Job) (s : State) : State := mkState (jobs_ s ++ [j]) (gauge s).

Definition register (n : string) (k : JobKind) (h : JoinHandle) (s : State) : State := publish_metrics (push (mkJob n k h) s).

(** [tokio::spawn] gives the handle. *)
Definition spawn (n : string) (h : JoinHandle) : State → State := register n LongRunning h.
Definition spawn_oneshot (n : string) (h : JoinHandle) : State → State := register n OneShot h.
Definition adopt (n : string) (h : JoinHandle) : State → State := register n LongRunning h.

(** The first job of the name, and the others. *)
Fixpoint remove_first (n : string) (l : list Job) : option (Job * list Job) :=
  match l with
  | [] => None
  | j :: rest =>
      if String.eqb (name j) n then Some (j, rest)
      else match remove_first n rest with Some (x, rest') => Some (x, j :: rest') | None => None end
  end.

Definition take (n : string) (s : State) : option JoinHandle * State :=
  match remove_first n (jobs_ s) with
  | None => (None, s)
  | Some (j, rest) => (Some (handle j), publish_metrics (mkState rest (gauge s)))
  end.

(** The handles that are aborted, in order. *)
Definition shutdown_all (s : State) : list JoinHandle * State :=
  (map handle (jobs_ s), publish_metrics (mkState [] (gauge s))).

Record JobList : Type := mkList { l_jobs : list JobInfo; total : Z; alive : Z; healthy : bool }.

(** [GET /v1/admin/jobs]. *)
Definition list_jobs (s : State) : JobList * State :=
  let l := jobs s in
  (mkList l (Z.of_nat (length l)) (Z.of_nat (length (List.filter (λ i, bool_decide (i_status i = Running)) l))) (jobs_alive s),
   publish_metrics s).

(** The list is in the order of registration, its numbers agree with each other
    and with the gauge, and it is healthy exactly when no task that should run for
    ever has ended. *)
Theorem list_jobs_spec s :
  let '(l, s') := list_jobs s in
  map i_name (l_jobs l) = map name (jobs_ s) ∧ jobs_ s' = jobs_ s ∧
  0 ≤ alive l ≤ total l ∧ alive l = gauge s' ∧
  (healthy l = true ↔ ∀ j, j ∈ jobs_ s → kind j = LongRunning → finished (handle j) = false).
Proof.
  unfold list_jobs. cbn [l_jobs alive total healthy]. unfold jobs.
  assert (length (List.filter (λ i, bool_decide (i_status i = Running)) (map (λ j, mkInfo (name j) (kind j) (status j)) (jobs_ s))) =
          length (List.filter (λ j, negb (finished (handle j))) (jobs_ s))) as Hl.
  { rewrite filter_map, length_map. f_equal. apply filter_ext. intros j. cbn [i_status]. unfold status.
    destruct (finished (handle j)), (kind j); done. }
  rewrite Hl, length_map, map_map. split_and!; [done|done|lia| |done|].
  - pose proof (sublist_length _ _ (bool_filter_sublist (λ j, negb (finished (handle j))) (jobs_ s))). lia.
  - unfold jobs_alive. rewrite forallb_forall. split.
    + intros H j Hj Hk. apply list_elem_of_In, H in Hj. unfold status in Hj. rewrite Hk in Hj. by destruct (finished (handle j)).
    + intros H j Hj. apply list_elem_of_In in Hj. specialize (H j Hj). unfold status.
      destruct (finished (handle j)), (kind j); try done. by specialize (H eq_refl).
Qed.

(** Taking a task gives the handle of the first one of its name and leaves the
    others in their order. *)
Lemma take_spec n s :
  match take n s with
  | (None, s') => s' = s ∧ n ∉ map name (jobs_ s)
  | (Some h, s') => ∃ pre j post, jobs_ s = (pre ++ j :: post) ∧ jobs_ s' = (pre ++ post) ∧
      name j = n ∧ handle j = h ∧ n ∉ map name pre ∧ gauge s' = alive_count s'
  end.
Proof.
  unfold take.
  assert (∀ l, match remove_first n l with
    | None => n ∉ map name l
    | Some (j, rest) => ∃ pre post, l = pre ++ j :: post ∧ rest = pre ++ post ∧ name j = n ∧ n ∉ map name pre
    end) as H.
  { induction l as [|j l IH]; simpl; [by apply not_elem_of_nil|]. destruct (String.eqb_spec (name j) n) as [E|Hne].
    - exists [], l. split_and!; [done|done|done|by apply not_elem_of_nil].
    - destruct (remove_first n l) as [[x rest]|].
      + destruct IH as (pre & post & -> & -> & Hn & Hp). exists (j :: pre), post. split_and!; [done|done|done|]. simpl. set_solver.
      + set_solver. }
  specialize (H (jobs_ s)). destruct (remove_first n (jobs_ s)) as [[j rest]|]; [|done].
  destruct H as (pre & post & E & -> & Hn & Hp). by exists pre, j, post.
Qed.

(** ** Threads *)

(** A registration in progress: it has to push, to count, or to set the gauge. *)
Inductive Thread : Type := ToPush (j : Job) | ToCount | ToSet (n : Z) | Done.

Definition run_step (t : Thread) (s : State) : Thread * State :=
  match t with
  | ToPush j => (ToCount, push j s)
  | ToCount => (ToSet (alive_count s), s)
  | ToSet n => (Done, mkState (jobs_ s) n)
  | Done => (Done, s)
  end.

(** The threads run in the order of a schedule. *)
Fixpoint run (schedule : list nat) (ts : list Thread) (s : State) : list Thread * State :=
  match schedule with
  | [] => (ts, s)
  | i :: rest =>
      match ts !! i with
      | Some t => let '(t', s') := run_step t s in run rest (<[i := t']> ts) s'
      | None => run rest ts s
      end
  end.

(** Alone, the steps of a thread are [register]. *)
Lemma run_register n k h s : run [0; 0; 0]%nat [ToPush (mkJob n k h)] s = ([Done], register n k h s).
Proof. done. Qed.

(** No task is lost, whatever the order. *)
Lemma run_keeps_jobs schedule : ∀ ts s,
  let '(ts', s') := run schedule ts s in
  jobs_ s' ++ omap (λ t, match t with ToPush j => Some j | _ => None end) ts' ≡ₚ
  jobs_ s ++ omap (λ t, match t with ToPush j => Some j | _ => None end) ts.
Proof.
  set (f := λ t, match t with ToPush j => Some j | _ => None end).
  induction schedule as [|i rest IH]; intros ts s; cbn [run]; [done|]. destruct (ts !! i) as [t|] eqn:Ei; [|apply IH].
  destruct (run_step t s) as [t' s'] eqn:Er. specialize (IH (<[i := t']> ts) s'). destruct (run rest _ _) as [ts2 s2].
  etrans; [exact IH|]. rewrite <- (take_drop_middle ts i t Ei) at 2.
  rewrite (insert_take_drop ts i t') by by apply lookup_lt_Some in Ei. rewrite !omap_app. cbn [omap list_omap].
  destruct t; simpl in Er; injection Er as <- <-; simpl; try done. cbn [push jobs_]. solve_Permutation.
Qed.

End Now.
End Scheduler.

(** But the gauge can be left behind: of two registrations at once, the older
    count may be the last one to be set. *)
Lemma gauge_left_behind :
  ∃ schedule s', run (λ _ : nat, false) schedule [ToPush (mkJob "a" LongRunning 0%nat); ToPush (mkJob "b" LongRunning 1%nat)] new = ([Done; Done], s') ∧
    alive_count (λ _, false) s' = 2 ∧ gauge s' = 1.
Proof. exists [0; 0; 1; 1; 1; 0]%nat. by eexists. Qed.

End JobScheduler.
