(* ===== verification/SloTracker.v ===== *)
(** slo_tracker.rs: objectives, their samples over a rolling window, and the
    report of their budgets.

    Times are nanoseconds since the epoch.  The maps are iterated in the order of
    [map_to_list]; the report is sorted by a total order, so the order does not
    show.  The periodic evaluation is [generate_report] and [emit_report]. *)

From S2P Require Import Prelude F64.

Module SloTracker.

Inductive SliType : Type := Latency | ErrorRate | Availability | ThroughputSaturation.

Definition sli_as_str (t : SliType) : string :=
  match t with
  | Latency => "latency"
  | ErrorRate => "error_rate"
  | Availability => "availability"
  | ThroughputSaturation => "throughput_saturation"
  end.

Inductive SloStatus : Type := Met | AtRisk | Breached.

#[export] Instance SloStatus_eq_dec : EqDecision SloStatus.
Proof. solve_decision. Defined.

Definition status_as_str (s : SloStatus) : string :=
  match s with Met => "met" | AtRisk => "at_risk" | Breached => "breached" end.

Record SloDefinition : Type := mkDefinition {
  name : string;
  description : string;
  component : string;
  sli_type : SliType;
  target : f64;
  window_secs : Z;
}.

Definition zero : f64 := F64.of_Z 0.
Definition one : f64 := F64.of_Z 1.
(** [f64::MIN_POSITIVE]. *)
Definition MIN_POSITIVE : f64 := S754_finite false 4503599627370496 (-1074).

Definition error_budget (d : SloDefinition) : f64 :=
  match sli_type d with
  | ErrorRate | Availability => F64.max (F64.sub one (target d)) zero
  | Latency | ThroughputSaturation => one
  end.

Definition is_good (d : SloDefinition) (value : f64) : bool :=
  match sli_type d with
  | ErrorRate | Availability => F64.leb (target d) value
  | Latency | ThroughputSaturation => F64.leb value (target d)
  end.

Record SliSample : Type := mkSample { timestamp : Z; value : f64 }.

Record SloReport : Type := mkReport {
  r_name : string;
  r_description : string;
  r_component : string;
  r_sli_type : string;
  r_target : f64;
  r_window_secs : Z;
  completion_ratio : f64;
  error_budget_consumed : f64;
  error_budget_remaining : f64;
  burn_rate : f64;
  r_status : SloStatus;
  r_sample_count : Z;
  good_count : Z;
  last_sli_value : f64;
  r_generated_at : Z;
}.

Record SloStatusCounts : Type := mkCounts { met : Z; at_risk : Z; breached : Z }.

Record SloAggregateReport : Type := mkAggregate { generated_at : Z; slos : list SloReport; counts : SloStatusCounts }.

Record SloTracker : Type := mkTracker {
  definitions : gmap string SloDefinition;
  samples : gmap string (list SliSample);
}.

Definition new : SloTracker := mkTracker ∅ ∅.

Definition register (d : SloDefinition) (t : SloTracker) : bool * SloTracker :=
  match definitions t !! name d with
  | Some _ => (false, t)
  | None => (true, mkTracker (<[name d := d]> (definitions t)) (<[name d := []]> (samples t)))
  end.

Definition hours (n : Z) : Z := n * 60 * 60.

Definition default_slo_definitions : list SloDefinition :=
  [mkDefinition "http_availability" "Fraction of HTTP responses that are not 5xx errors" "http" ErrorRate (F64.lit 99 100) (hours 24);
   mkDefinition "http_p99_latency" "99% of HTTP requests complete within target latency" "http" Latency (F64.lit 25 100) (hours 24);
   mkDefinition "indexer_lag" "Indexer lag measured in ledgers stays within bound" "indexer" ThroughputSaturation (F64.of_Z 100) (hours 1);
   mkDefinition "webhook_delivery_success" "Webhook deliveries succeed at the documented rate" "webhook" ErrorRate (F64.lit 95 100) (hours 1);
   mkDefinition "notification_delivery_latency" "Notification p95 delivery latency stays under 30 s" "notification" Latency (F64.of_Z 30) (hours 1);
   mkDefinition "replica_replay_lag" "Streaming replica replay lag stays under the warning bound" "replica" ThroughputSaturation (F64.of_Z 30) (hours 1)].

(** [entry(..).or_insert_with(..)], then [insert]. *)
Definition add_default (t : SloTracker) (d : SloDefinition) : SloTracker :=
  mkTracker (<[name d := d]> (definitions t)) (<[name d := default [] (samples t !! name d)]> (samples t)).

Definition with_defaults : SloTracker := fold_left add_default default_slo_definitions new.

Definition slo_names (t : SloTracker) : list string := sort_by String.compare (map fst (map_to_list (definitions t))).
Definition definition_count (t : SloTracker) : Z := Z.of_nat (size (definitions t)).
Definition definition (n : string) (t : SloTracker) : option SloDefinition := definitions t !! n.
Definition sample_count (n : string) (t : SloTracker) : Z := Z.of_nat (length (default [] (samples t !! n))).

(** ** Recording *)

Definition MAX_SAMPLES_PER_SLO : nat := Z.to_nat 65536.

Definition UNIX_EPOCH : Z := 0.
Definition second : Z := 1000000000.

(** [SystemTime::checked_sub]: the seconds are an [i64]. *)
Definition checked_sub (now window : Z) : option Z :=
  if now - window * second <? - 2 ^ 63 * second then None else Some (now - window * second).

(** Pops from the front while it is older than [cutoff]. *)
Fixpoint evict (cutoff : Z) (q : list SliSample) : list SliSample :=
  match q with
  | [] => []
  | front :: rest => if timestamp front <? cutoff then evict cutoff rest else q
  end.

(** Pops from the front while there are more than [max]. *)
Definition bound (max : nat) (q : list SliSample) : list SliSample := drop (length q - max) q.

Definition record_sample (now1 now2 : Z) (slo_name : string) (v : f64) (t : SloTracker) : bool * SloTracker :=
  match definitions t !! slo_name with
  | None => (false, t)
  | Some d =>
      let queue := default [] (samples t !! slo_name) ++ [mkSample now1 v] in
      let cutoff := default UNIX_EPOCH (checked_sub now2 (window_secs d)) in
      (true, mkTracker (definitions t) (<[slo_name := bound MAX_SAMPLES_PER_SLO (evict cutoff queue)]> (samples t)))
  end.

(** ** Reports *)

Definition status_rank (s : SloStatus) : Z := match s with Breached => 2 | AtRisk => 1 | Met => 0 end.

Definition excess_ratio (d : SloDefinition) (v : f64) : f64 :=
  match sli_type d with
  | ErrorRate | Availability => one
  | Latency | ThroughputSaturation =>
      if F64.leb (target d) zero then one
      else F64.max (F64.div (F64.sub v (target d)) (target d)) zero
  end.

Definition is_infinite (x : f64) : bool := match x with S754_infinity _ => true | _ => false end.
Definition is_finite (x : f64) : bool := match x with S754_infinity _ | S754_nan => false | _ => true end.

Definition classify_status (_target completion_ratio burn_rate : f64) : SloStatus :=
  if is_infinite burn_rate || F64.leb (F64.of_Z 2) burn_rate then Breached
  else if F64.leb one burn_rate || F64.ltb completion_ratio one then AtRisk
  else Met.

Record Sums : Type := mkSums { total : Z; good : Z; bad_excess_ratio : f64; last_value : f64 }.

Definition add_sample (d : SloDefinition) (a : Sums) (s : SliSample) : Sums :=
  if is_good d (value s) then mkSums (total a + 1) (good a + 1) (bad_excess_ratio a) (value s)
  else mkSums (total a + 1) (good a) (F64.add (bad_excess_ratio a) (excess_ratio d (value s))) (value s).

Definition sums (d : SloDefinition) (q : list SliSample) : Sums := fold_left (add_sample d) q (mkSums 0 0 zero S754_nan).

Definition compute_report_for (t : SloTracker) (d : SloDefinition) (now_secs : Z) : SloReport :=
  let a := sums d (default [] (samples t !! name d)) in
  let completion := if total a =? 0 then one else F64.div (F64.of_Z (good a)) (F64.of_Z (total a)) in
  let bad_ratio := F64.max (F64.sub one completion) zero in
  let condition_ratio :=
    match sli_type d with
    | ErrorRate | Availability => bad_ratio
    | Latency | ThroughputSaturation =>
        if total a =? 0 then zero else F64.div (bad_excess_ratio a) (F64.of_Z (total a))
    end in
  let budget := F64.max (error_budget d) MIN_POSITIVE in
  let rate :=
    if F64.leb budget zero then (if F64.gtb condition_ratio zero then F64.infinity else zero)
    else F64.div condition_ratio budget in
  mkReport (name d) (description d) (component d) (sli_as_str (sli_type d)) (target d) (window_secs d)
    completion (F64.div condition_ratio budget) (F64.max (F64.sub one condition_ratio) zero) rate
    (classify_status (target d) completion rate) (total a) (good a) (last_value a) now_secs.

(** [status_rank(b).cmp(status_rank(a)).then(a.name.cmp(b.name))]. *)
Definition by_severity : SloReport → SloReport → comparison :=
  cmp_on (λ r, (status_rank (r_status r), r_name r)) (cmp_pair (flip_cmp Z.compare) String.compare).

Definition count_status (c : SloStatusCounts) (r : SloReport) : SloStatusCounts :=
  match r_status r with
  | Met => mkCounts (met c + 1) (at_risk c) (breached c)
  | AtRisk => mkCounts (met c) (at_risk c + 1) (breached c)
  | Breached => mkCounts (met c) (at_risk c) (breached c + 1)
  end.

Definition generate_report (now_secs : Z) (t : SloTracker) : SloAggregateReport :=
  let reports := sort_by by_severity (map (λ nd, compute_report_for t nd.2 now_secs) (map_to_list (definitions t))) in
  mkAggregate now_secs reports (fold_left count_status reports (mkCounts 0 0 0)).

(** The gauges and counters that are published: name, labels and value. *)
Inductive Metric : Type :=
| Gauge (metric : string) (labels : list string) (v : f64)
| Counter (metric : string) (labels : list string).

Definition emit_slo (r : SloReport) : list Metric :=
  let labels := [r_name r; r_component r] in
  [Gauge "soroban_pulse_slo_completion_ratio" labels (completion_ratio r);
   Gauge "soroban_pulse_slo_error_budget_remaining" labels (error_budget_remaining r);
   Gauge "soroban_pulse_slo_error_budget_consumed" labels (error_budget_consumed r);
   Gauge "soroban_pulse_slo_burn_rate" labels (if is_finite (burn_rate r) then burn_rate r else F64.of_Z 100);
   Gauge "soroban_pulse_sli_current_value" labels (if is_finite (last_sli_value r) then last_sli_value r else zero)] ++
  (if decide (r_status r = Met) then []
   else [Counter "soroban_pulse_slo_evaluation_total" [r_name r; status_as_str (r_status r)]]).

Definition emit_report (a : SloAggregateReport) : list Metric :=
  [Gauge "soroban_pulse_slo_tracked_count" [] (F64.of_Z (Z.of_nat (length (slos a))));
   Gauge "soroban_pulse_slo_met_count" [] (F64.of_Z (met (counts a)));
   Gauge "soroban_pulse_slo_at_risk_count" [] (F64.of_Z (at_risk (counts a)));
   Gauge "soroban_pulse_slo_breached_count" [] (F64.of_Z (breached (counts a)))] ++
  concat (map emit_slo (slos a)).

(** ** The window *)

(** Samples in the order of their times. *)
Definition ordered (q : list SliSample) : Prop := StronglySorted (λ a b, timestamp a ≤ timestamp b) q.

Lemma evict_spec cutoff q : ordered q → evict cutoff q = List.filter (λ s, cutoff <=? timestamp s) q.
Proof.
  induction 1 as [|s q Hq IH Hs]; [done|]. simpl. destruct (Z.ltb_spec (timestamp s) cutoff).
  - by rewrite (proj2 (Z.leb_gt _ _)), IH by lia.
  - rewrite (proj2 (Z.leb_le _ _)) by lia. f_equal. symmetry. apply filter_all. intros x Hx.
    rewrite Forall_forall in Hs. specialize (Hs x Hx). apply Z.leb_le. lia.
Qed.

Lemma max_samples : Z.of_nat MAX_SAMPLES_PER_SLO = 65536.
Proof. by apply Z2Nat.id. Qed.

(** As long as the clock does not go back, recording keeps exactly the latest
    samples of the window, up to the bound, in order. *)
Theorem record_keeps_window now1 now2 n v t d :
  definitions t !! n = Some d →
  ordered (default [] (samples t !! n) ++ [mkSample now1 v]) →
  let '(ok, t') := record_sample now1 now2 n v t in
  let cutoff := default UNIX_EPOCH (checked_sub now2 (window_secs d)) in
  let inside := List.filter (λ s, cutoff <=? timestamp s) (default [] (samples t !! n) ++ [mkSample now1 v]) in
  ok = true ∧ definitions t' = definitions t ∧
  samples t' !! n = Some (drop (length inside - MAX_SAMPLES_PER_SLO) inside) ∧
  ordered (default [] (samples t' !! n)) ∧ sample_count n t' ≤ 65536 ∧
  ∀ n', n' ≠ n → samples t' !! n' = samples t !! n'.
Proof.
  intros Hd Ho. unfold record_sample. rewrite Hd. cbv zeta. cbn [samples definitions]. rewrite evict_spec by done. unfold sample_count. cbn [samples].
  rewrite lookup_insert_eq. cbn [default]. unfold bound.
  split_and!; [done|done|done| | |].
  - apply sorted_drop, sorted_filter, Ho.
  - rewrite <- max_samples. cbn [default from_option id]. rewrite length_drop. lia.
  - intros n' Hne. by rewrite lookup_insert_ne.
Qed.

(** Only recording evicts: without a new sample the report keeps counting samples
    that left the window, however long ago. *)
Lemma report_ignores_window t d now1 now2 :
  compute_report_for t d now2 =
  let r := compute_report_for t d now1 in
  mkReport (r_name r) (r_description r) (r_component r) (r_sli_type r) (r_target r) (r_window_secs r) (completion_ratio r)
    (error_budget_consumed r) (error_budget_remaining r) (burn_rate r) (r_status r) (r_sample_count r) (good_count r)
    (last_sli_value r) now2.
Proof. done. Qed.

(** ** The report *)

(** Each definition is stored under its name. *)
Definition well_named (t : SloTracker) : Prop := ∀ n d, definitions t !! n = Some d → name d = n.

Lemma register_well_named d t : well_named t → well_named (register d t).2.
Proof.
  unfold register. intros Ht. destruct (definitions t !! name d); [done|]. intros n d'. simpl.
  destruct (decide (n = name d)) as [->|Hne]; [by rewrite lookup_insert_eq; intros [= <-]|]. rewrite lookup_insert_ne by done. apply Ht.
Qed.

Lemma sums_count d q : ∀ a,
  total (fold_left (add_sample d) q a) = total a + Z.of_nat (length q) ∧
  good (fold_left (add_sample d) q a) = good a + Z.of_nat (length (List.filter (λ s, is_good d (value s)) q)).
Proof.
  induction q as [|s q IH]; intros a; simpl; [lia|]. destruct (IH (add_sample d a s)) as [-> ->]. unfold add_sample.
  destruct (is_good d (value s)); simpl; lia.
Qed.

Lemma by_severity_le x y :
  cmp_le by_severity x y →
  status_rank (r_status y) < status_rank (r_status x) ∨ (r_status x = r_status y ∧ cmp_le String.compare (r_name x) (r_name y)).
Proof.
  unfold cmp_le, cmp_leb, by_severity, cmp_on, cmp_pair, flip_cmp. cbn [fst snd].
  destruct (Z.compare_spec (status_rank (r_status y)) (status_rank (r_status x))) as [E|Hlt|Hgt]; cbn [cmp_then].
  - intros H. right. split; [|exact H]. by destruct (r_status x), (r_status y).
  - intros _. by left.
  - done.
Qed.

Lemma counts_add_up l : ∀ c,
  met (fold_left count_status l c) + at_risk (fold_left count_status l c) + breached (fold_left count_status l c) =
  met c + at_risk c + breached c + Z.of_nat (length l) ∧
  breached (fold_left count_status l c) = breached c + Z.of_nat (length (List.filter (λ r, bool_decide (r_status r = Breached)) l)).
Proof.
  induction l as [|r l IH]; intros c; simpl; [lia|]. destruct (IH (count_status c r)) as [-> ->]. unfold count_status.
  destruct (r_status r); simpl; lia.
Qed.

(** A report covers every objective once, the worst status first and then by
    name; its numbers add up, and those of an objective are the samples it holds
    and how many of them are good. *)
Theorem generate_report_spec now_secs t :
  well_named t →
  let a := generate_report now_secs t in
  NoDup (map r_name (slos a)) ∧
  (∀ n, n ∈ map r_name (slos a) ↔ is_Some (definitions t !! n)) ∧
  StronglySorted (λ x y, status_rank (r_status y) < status_rank (r_status x) ∨
     (r_status x = r_status y ∧ cmp_le String.compare (r_name x) (r_name y))) (slos a) ∧
  met (counts a) + at_risk (counts a) + breached (counts a) = Z.of_nat (length (slos a)) ∧
  Forall (λ r, ∃ d, definitions t !! r_name r = Some d ∧
     let q := default [] (samples t !! r_name r) in
     r_sample_count r = Z.of_nat (length q) ∧ good_count r = Z.of_nat (length (List.filter (λ s, is_good d (value s)) q))) (slos a).
Proof.
  intros Ht. unfold generate_report. cbn [slos counts]. set (l := map _ (map_to_list _)).
  assert (map r_name l = map fst (map_to_list (definitions t))) as Hnames.
  { unfold l. rewrite map_map. apply map_ext_in. intros [n d] Hin. apply list_elem_of_In, elem_of_map_to_list in Hin. by apply Ht. }
  assert (sort_by by_severity l ≡ₚ l) as Hp by apply sort_by_permutation.
  split_and!.
  - rewrite (Permutation_map r_name Hp), Hnames. apply NoDup_fst_map_to_list.
  - intros n. rewrite (Permutation_map r_name Hp), Hnames, list_elem_of_fmap. split.
    + intros ([n' d] & -> & H%elem_of_map_to_list). by exists d.
    + intros [d H%elem_of_map_to_list]. by exists (n, d).
  - pose proof (sort_on_sorted (λ r, (status_rank (r_status r), r_name r)) (cmp_pair (flip_cmp Z.compare) String.compare) l) as Hs.
    fold by_severity in Hs. refine (StronglySorted_impl _ _ _ _ Hs).
    exact by_severity_le.
  - destruct (counts_add_up (sort_by by_severity l) (mkCounts 0 0 0)) as [-> _]. done.
  - rewrite Hp. apply Forall_fmap, Forall_forall. intros [n d] H%elem_of_map_to_list. unfold compose. cbn [snd].
    exists d. assert (name d = n) as <- by by apply Ht.
    change (r_name (compute_report_for t d now_secs)) with (name d). split; [done|]. unfold compute_report_for. cbn [r_sample_count good_count].
    unfold sums. destruct (sums_count d (default [] (samples t !! name d)) (mkSums 0 0 zero S754_nan)) as [-> ->]. split; simpl; lia.
Qed.

End SloTracker.
