(* ===== verification/PoolTuner.v ===== *)
(** db_pool/adaptive.rs: the tuner of the connection pool, its counters and its
    configuration with a history.

    One turn of the background task is [cycle]; the pool's size and idle
    connections, the clock and the answer to the ping are its inputs. *)

From S2P Require Import Prelude F64.

Module PoolTuner.

Definition WINDOW_SIZE : nat := 60.
Definition SCALE_UP_FRACTION : f64 := F64.lit 7 10.
Definition SCALE_DOWN_FRACTION : f64 := F64.lit 8 10.
Definition HIGH_WATER : f64 := F64.lit 75 100.
Definition LOW_WATER : f64 := F64.lit 25 100.
Definition zero : f64 := F64.of_Z 0.
Definition one : f64 := F64.of_Z 1.

(** ** Configuration *)

Record AdaptivePoolConfig : Type := mkConfig {
  max_connections_ceiling : Z;
  min_connections_floor : Z;
  adaptive_enabled : bool;
  health_checks_enabled : bool;
  health_check_interval_secs : Z;
  stale_connection_age_secs : Z;
  sample_interval_secs : Z;
  ab_testing_enabled : bool;
  config_variant : string;
  config_version : Z;
}.

Definition default_config : AdaptivePoolConfig := mkConfig 200 1 true true 30 600 15 false "default" 1.

(** ** Counters *)

Record AdvancedPoolCounters : Type := mkCounters {
  acquire_timeouts : Z;
  health_check_failures : Z;
  stale_cleaned : Z;
  acquire_latency_sum_us : Z;
  acquire_latency_count : Z;
  peak_queue_depth : Z;
}.

Definition new_counters : AdvancedPoolCounters := mkCounters 0 0 0 0 0 0.

Definition record_acquire (latency_us : Z) (c : AdvancedPoolCounters) : AdvancedPoolCounters :=
  mkCounters (acquire_timeouts c) (health_check_failures c) (stale_cleaned c)
    (add_u 64 (acquire_latency_sum_us c) (wrap_u 64 latency_us)) (add_u 64 (acquire_latency_count c) 1) (peak_queue_depth c).
Definition record_timeout (c : AdvancedPoolCounters) : AdvancedPoolCounters :=
  mkCounters (add_u 64 (acquire_timeouts c) 1) (health_check_failures c) (stale_cleaned c)
    (acquire_latency_sum_us c) (acquire_latency_count c) (peak_queue_depth c).
Definition record_health_failure (c : AdvancedPoolCounters) : AdvancedPoolCounters :=
  mkCounters (acquire_timeouts c) (add_u 64 (health_check_failures c) 1) (stale_cleaned c)
    (acquire_latency_sum_us c) (acquire_latency_count c) (peak_queue_depth c).
Definition add_stale (n : Z) (c : AdvancedPoolCounters) : AdvancedPoolCounters :=
  mkCounters (acquire_timeouts c) (health_check_failures c) (add_u 64 (stale_cleaned c) n)
    (acquire_latency_sum_us c) (acquire_latency_count c) (peak_queue_depth c).
Definition record_stale_cleaned (c : AdvancedPoolCounters) : AdvancedPoolCounters := add_stale 1 c.
Definition update_queue_depth (depth : Z) (c : AdvancedPoolCounters) : AdvancedPoolCounters :=
  if peak_queue_depth c <? depth then
    mkCounters (acquire_timeouts c) (health_check_failures c) (stale_cleaned c)
      (acquire_latency_sum_us c) (acquire_latency_count c) depth
  else c.

Definition avg_acquire_latency_ms (c : AdvancedPoolCounters) : f64 :=
  if acquire_latency_count c =? 0 then zero
  else F64.div (F64.div (F64.of_Z (acquire_latency_sum_us c)) (F64.of_Z (acquire_latency_count c))) (F64.of_Z 1000).

(** [acquire_with_tracking]: the pool's answer within the timeout, or none. *)
Definition acquire_with_tracking {C} (answer : option (result C string)) (latency_us : Z) (c : AdvancedPoolCounters) :
    result C string * AdvancedPoolCounters :=
  match answer with
  | Some r => (r, record_acquire latency_us c)
  | None => (Err "pool timed out"%string, record_timeout c)
  end.

(** ** The window *)

Record UtilizationWindow : Type := mkWindow { samples : list f64; capacity : nat }.

Definition new_window (c : nat) : UtilizationWindow := mkWindow [] c.

Definition push (s : f64) (w : UtilizationWindow) : UtilizationWindow :=
  mkWindow ((if (capacity w <=? length (samples w))%nat then tail (samples w) else samples w) ++ [s]) (capacity w).

Definition len (w : UtilizationWindow) : f64 := F64.of_Z (Z.of_nat (length (samples w))).

Definition fraction (p : f64 → bool) (w : UtilizationWindow) : f64 :=
  match samples w with
  | [] => zero
  | _ => F64.div (F64.of_Z (Z.of_nat (length (List.filter p (samples w))))) (len w)
  end.

Definition fraction_above (threshold : f64) : UtilizationWindow → f64 := fraction (λ s, F64.leb threshold s).
Definition fraction_below (threshold : f64) : UtilizationWindow → f64 := fraction (λ s, F64.ltb s threshold).

Definition average (w : UtilizationWindow) : f64 :=
  match samples w with [] => zero | _ => F64.div (F64.sum (samples w)) (len w) end.

Definition is_full (w : UtilizationWindow) : bool := (capacity w <=? length (samples w))%nat.

Definition standard_deviation (w : UtilizationWindow) : f64 :=
  if (length (samples w) <? 2)%nat then zero
  else
    let avg := average w in
    F64.sqrt (F64.div (F64.sum (map (λ s, F64.powi (F64.sub s avg) 2) (samples w)))
                  (F64.of_Z (Z.of_nat (length (samples w) - 1)))).

(** ** The forecast *)

Record DemandPredictor : Type := mkPredictor { alpha : f64; last_observation : f64; level : f64; trend : f64; beta : f64 }.

Definition new_predictor : DemandPredictor := mkPredictor (F64.lit 2 10) zero zero zero (F64.lit 1 10).

Definition update (observation : f64) (p : DemandPredictor) : f64 * DemandPredictor :=
  let new_level := F64.add (F64.mul (alpha p) observation) (F64.mul (F64.sub one (alpha p)) (F64.add (level p) (trend p))) in
  let new_trend := F64.add (F64.mul (beta p) (F64.sub new_level (level p))) (F64.mul (F64.sub one (beta p)) (trend p)) in
  (F64.add new_level new_trend, mkPredictor (alpha p) observation new_level new_trend (beta p)).

(** ** The state that handlers share *)

Record TuningSnapshot : Type := mkSnapshot {
  s_recommended_min : Z;
  s_recommended_max : Z;
  avg_utilization : f64;
  scale_up_advised : bool;
  scale_down_advised : bool;
  s_config_version : Z;
  timestamp_secs : Z;
  predicted_utilization : f64;
  utilization_std_dev : f64;
}.

Record AdaptiveTunerState : Type := mkState {
  latest_snapshot : option TuningSnapshot;
  counters : AdvancedPoolCounters;
  current_config : AdaptivePoolConfig;
  config_history : list AdaptivePoolConfig;
}.

Definition detached (config : AdaptivePoolConfig) : AdaptiveTunerState := mkState None new_counters config [].

Definition apply_config (new_config : AdaptivePoolConfig) (s : AdaptiveTunerState) : AdaptiveTunerState :=
  let history := config_history s in
  mkState (latest_snapshot s) (counters s) new_config
    ((if (5 <=? length history)%nat then tail history else history) ++ [current_config s]).

(** The last element and those before it. *)
Definition pop_back {A} (l : list A) : option (A * list A) :=
  match rev l with [] => None | x :: rest => Some (x, rev rest) end.

Definition rollback (s : AdaptiveTunerState) : result AdaptivePoolConfig string * AdaptiveTunerState :=
  match pop_back (config_history s) with
  | None => (Err "no previous configuration to roll back to"%string, s)
  | Some (prev, history) => (Ok prev, mkState (latest_snapshot s) (counters s) prev history)
  end.

(** ** One turn of the tuner *)

Record Tuner : Type := mkTuner {
  window : UtilizationWindow;
  last_health_check : Z;
  recommended_min : Z;
  recommended_max : Z;
  predictor : DemandPredictor;
}.

Definition new_tuner (now current_max current_min : Z) : Tuner :=
  mkTuner (new_window WINDOW_SIZE) now current_min current_max new_predictor.

(** What the turn reads: the pool, the clocks (nanoseconds; seconds of the epoch)
    and whether the ping fails. *)
Record Reading : Type := mkReading { size : Z; idle : Z; now : Z; now2 : Z; epoch_secs : Z; ping_fails : bool }.

(** Ceiling and floor of a double. *)
Definition floor_z (x : f64) : Z :=
  match x with
  | S754_finite s m e => let v := if s then Zneg m else Zpos m in if 0 <=? e then v * 2 ^ e else v / 2 ^ (- e)
  | _ => 0
  end.
Definition to_u32 (x : f64) (z : Z) : Z :=
  match x with
  | S754_infinity s => if s then 0 else u_max 32
  | S754_nan => 0
  | _ => clamp 0 (u_max 32) z
  end.
Definition ceil_u32 (x : f64) : Z := to_u32 x (- floor_z (F64.opp x)).
Definition floor_u32 (x : f64) : Z := to_u32 x (floor_z x).

Definition grown (recommended ceiling : Z) : Z := Z.min (ceil_u32 (F64.mul (F64.of_Z recommended) (F64.lit 125 100))) ceiling.
Definition shrunk (recommended floor : Z) : Z := Z.max (floor_u32 (F64.mul (F64.of_Z recommended) (F64.lit 75 100))) floor.

Definition f64_max0 (x : f64) : f64 := if F64.ltb zero x then x else zero.

Section Cycle.
(** The pool's configured limits. *)
Variables current_max current_min : Z.

Definition active (r : Reading) : Z := sat_sub_u (size r) (wrap_u 32 (idle r)).

Definition utilization (r : Reading) : f64 :=
  if 0 <? current_max then F64.div (F64.of_Z (active r)) (F64.of_Z current_max) else zero.

Definition queue_depth (r : Reading) : Z :=
  let a := F64.of_Z (active r) in
  let limit := F64.mul (F64.of_Z current_max) (F64.lit 9 10) in
  if F64.gtb a limit then F64.to_u 64 (f64_max0 (F64.sub a limit)) else 0.

Definition scale_up (c : AdaptivePoolConfig) (w : UtilizationWindow) : bool :=
  adaptive_enabled c && is_full w && F64.leb SCALE_UP_FRACTION (fraction_above HIGH_WATER w).
Definition scale_down (c : AdaptivePoolConfig) (w : UtilizationWindow) : bool :=
  adaptive_enabled c && is_full w && F64.leb SCALE_DOWN_FRACTION (fraction_below LOW_WATER w).

(** The new recommendations [(min, max)]. *)
Definition recommend (c : AdaptivePoolConfig) (w : UtilizationWindow) (rmin rmax : Z) : Z * Z :=
  if scale_up c w then (rmin, let new_max := grown rmax (max_connections_ceiling c) in if rmax <? new_max then new_max else rmax)
  else if scale_down c w then (let new_min := shrunk rmin (min_connections_floor c) in if new_min <? rmin then new_min else rmin, rmax)
  else (rmin, rmax).

Definition second : Z := 1000000000.

Definition health_due (c : AdaptivePoolConfig) (t : Tuner) (r : Reading) : bool :=
  health_checks_enabled c && (health_check_interval_secs c * second <=? Z.max 0 (now r - last_health_check t)).

Definition stale_estimate (c : AdaptivePoolConfig) (before : AdaptivePoolConfig) (r : Reading) : Z :=
  if (current_min <? wrap_u 32 (idle r)) &&
     (epoch_secs r mod Z.max (stale_connection_age_secs c) 1 <? Z.max (sample_interval_secs before) 1)
  then wrap_u 32 (idle r) - current_min else 0.

(** [before] is the configuration before the sleep, which sets the interval; the
    turn uses the one after it. *)
Definition cycle (before : AdaptivePoolConfig) (r : Reading) (t : Tuner) (s : AdaptiveTunerState) : Tuner * AdaptiveTunerState :=
  let c := current_config s in
  let u := utilization r in
  let w := push u (window t) in
  let counters1 := update_queue_depth (queue_depth r) (counters s) in
  let '(rmin, rmax) := recommend c w (recommended_min t) (recommended_max t) in
  let due := health_due c t r in
  let counters2 := if due && ping_fails r then record_health_failure counters1 else counters1 in
  let counters3 := add_stale (stale_estimate c before r) counters2 in
  let '(predicted, p) := update u (predictor t) in
  (mkTuner w (if due then now2 r else last_health_check t) rmin rmax p,
   mkState (Some (mkSnapshot rmin rmax (average w) (scale_up c w) (scale_down c w) (config_version c) (epoch_secs r)
                    predicted (standard_deviation w)))
     counters3 c (config_history s)).

(** ** What holds of every run *)

Lemma recommend_spec c w rmin rmax :
  let '(rmin', rmax') := recommend c w rmin rmax in
  rmax ≤ rmax' ≤ Z.max rmax (max_connections_ceiling c) ∧ Z.min rmin (min_connections_floor c) ≤ rmin' ≤ rmin.
Proof.
  unfold recommend, grown, shrunk. destruct (scale_up c w); [|destruct (scale_down c w)]; cbv zeta; [| |lia].
  - destruct (Z.ltb_spec rmax (Z.min (ceil_u32 (F64.mul (F64.of_Z rmax) (F64.lit 125 100))) (max_connections_ceiling c))); lia.
  - destruct (Z.ltb_spec (Z.max (floor_u32 (F64.mul (F64.of_Z rmin) (F64.lit 75 100))) (min_connections_floor c)) rmin); lia.
Qed.

(** A turn, or a change of the configuration by a handler in between. *)
Inductive Input : Type :=
| Turn (before : AdaptivePoolConfig) (r : Reading)
| Apply (c : AdaptivePoolConfig)
| Rollback.

Definition input (i : Input) (ts : Tuner * AdaptiveTunerState) : Tuner * AdaptiveTunerState :=
  match i with
  | Turn before r => cycle before r ts.1 ts.2
  | Apply c => (ts.1, apply_config c ts.2)
  | Rollback => (ts.1, (rollback ts.2).2)
  end.

Definition run (inputs : list Input) (ts : Tuner * AdaptiveTunerState) : Tuner * AdaptiveTunerState := fold_left (λ ts i, input i ts) inputs ts.

(** The configurations within bounds, now and in the history. *)
Definition bounded (ceiling floor : Z) (s : AdaptiveTunerState) : Prop :=
  Forall (λ c, max_connections_ceiling c ≤ ceiling ∧ floor ≤ min_connections_floor c) (current_config s :: config_history s).

Definition input_bounded (ceiling floor : Z) (i : Input) : Prop :=
  match i with Apply c => max_connections_ceiling c ≤ ceiling ∧ floor ≤ min_connections_floor c | _ => True end.

Lemma pop_back_spec {A} (l : list A) : match pop_back l with None => l = [] | Some (x, r) => l = r ++ [x] end.
Proof.
  unfold pop_back. destruct (rev l) as [|x r] eqn:E; apply (f_equal (@rev A)) in E; rewrite rev_involutive in E; done.
Qed.

Lemma Forall_tail {A} (P : A → Prop) l : Forall P l → Forall P (tail l).
Proof. destruct 1; [constructor|done]. Qed.

Lemma input_spec ceiling floor i ts :
  bounded ceiling floor ts.2 → input_bounded ceiling floor i → (length (config_history ts.2) ≤ 5)%nat →
  bounded ceiling floor (input i ts).2 ∧ (length (config_history (input i ts).2) ≤ 5)%nat ∧
  recommended_max ts.1 ≤ recommended_max (input i ts).1 ≤ Z.max (recommended_max ts.1) ceiling ∧
  Z.min (recommended_min ts.1) floor ≤ recommended_min (input i ts).1 ≤ recommended_min ts.1.
Proof.
  destruct ts as [t s]. intros Hb Hi Hl. unfold bounded in *. cbn [fst snd] in *. destruct i as [before r|c|]; cbn [input fst snd].
  - unfold cycle. pose proof (recommend_spec (current_config s) (push (utilization r) (window t)) (recommended_min t) (recommended_max t)) as Hr.
    destruct (recommend _ _ _ _) as [rmin rmax]. destruct (update _ _) as [pr p].
    cbn [fst snd current_config config_history recommended_min recommended_max]. pose proof (proj1 (proj1 (Forall_cons _ _ _) Hb)) as Hc. cbv beta in Hc. split_and!; [done|done|lia..].
  - apply Forall_cons in Hb as [Hc Hh]. cbv beta in Hc. unfold apply_config. cbn [current_config config_history]. split_and!; try lia.
    + constructor; [done|]. apply Forall_app. split; [|by constructor]. destruct (_ <=? _)%nat; [by apply Forall_tail|done].
    + rewrite length_app. cbn [length]. destruct (Nat.leb_spec 5 (length (config_history s))) as [H|H]; [|lia].
      destruct (config_history s); simpl in *; lia.
  - unfold rollback. pose proof (pop_back_spec (config_history s)) as Hp. destruct (pop_back _) as [[prev h]|]; [|by split_and!; lia || done].
    cbn [snd fst current_config config_history]. rewrite Hp in Hb, Hl. apply Forall_cons in Hb as [_ [Hh Hx]%Forall_app].
    rewrite length_app in Hl. apply Forall_cons in Hx as [Hx _]. simpl in Hl. split_and!; [by constructor|lia..].
Qed.

(** Whatever the pool does and however the configuration is changed, the
    recommended maximum only grows and stays below the configured ceilings, the
    recommended minimum only shrinks and stays above the floors, so they never
    cross; and at most five configurations are remembered. *)
Theorem recommendations_bounded ceiling floor inputs ts :
  bounded ceiling floor ts.2 → Forall (input_bounded ceiling floor) inputs → (length (config_history ts.2) ≤ 5)%nat →
  let '(t', s') := run inputs ts in
  recommended_max ts.1 ≤ recommended_max t' ≤ Z.max (recommended_max ts.1) ceiling ∧
  Z.min (recommended_min ts.1) floor ≤ recommended_min t' ≤ recommended_min ts.1 ∧
  (recommended_min ts.1 ≤ recommended_max ts.1 → recommended_min t' ≤ recommended_max t') ∧
  (length (config_history s') ≤ 5)%nat.
Proof.
  intros Hb Hi Hl. revert ts Hb Hl. induction Hi as [|i inputs Hi His IH]; intros ts Hb Hl; simpl.
  - destruct ts. simpl in *. lia.
  - destruct (input_spec ceiling floor i ts Hb Hi Hl) as (Hb' & Hl' & Hmax & Hmin). specialize (IH (input i ts) Hb' Hl').
    unfold run in *. destruct (fold_left _ inputs (input i ts)) as [t' s']. lia.
Qed.

End Cycle.

(** Rolling back undoes the last change, and the newest five can be undone. *)
Lemma rollback_undoes c s :
  (length (config_history s) < 5)%nat →
  rollback (apply_config c s) = (Ok (current_config s), s).
Proof.
  intros Hl. unfold rollback, apply_config. cbn [config_history]. rewrite (proj2 (Nat.leb_gt _ _)) by done.
  unfold pop_back. rewrite rev_app_distr. simpl. rewrite rev_involutive. by destruct s.
Qed.

(** The window holds the latest samples. *)
Lemma window_keeps_latest l c : (0 < c)%nat → samples (fold_left (λ w s, push s w) l (new_window c)) = drop (length l - c) l.
Proof.
  intros Hc.
  assert (capacity (fold_left (λ w s, push s w) l (new_window c)) = c ∧ samples (fold_left (λ w s, push s w) l (new_window c)) = drop (length l - c) l) as [_ H]; [|done].
  induction l as [|s l [IH1 IH2]] using rev_ind; [done|]. rewrite fold_left_app. cbn [fold_left]. set (w := fold_left _ l _) in *. split; [done|].
  unfold push. cbn [samples]. rewrite IH1, IH2. by apply push_latest.
Qed.

(** *** Two busy turns, a change and its undoing *)

Definition busy (n : Z) : Reading := mkReading 10 0 (n * second) (n * second) n false.
Definition sample_inputs : list Input :=
  [Turn default_config (busy 1); Apply (default_config); Turn default_config (busy 2); Rollback].
Definition sample_start : Tuner * AdaptiveTunerState := (new_tuner 0 10 2, detached default_config).

Lemma recommendations_bounded_witness :
  let '(t, s) := run 10 2 sample_inputs sample_start in
  10 ≤ recommended_max t ≤ Z.max 10 (max_connections_ceiling default_config) ∧
  recommended_min t ≤ recommended_max t ∧ (length (config_history s) ≤ 5)%nat ∧ length (samples (window t)) = 2%nat.
Proof.
  pose proof (recommendations_bounded 10 2 (max_connections_ceiling default_config) (min_connections_floor default_config) sample_inputs sample_start) as H.
  assert (length (samples (window (run 10 2 sample_inputs sample_start).1)) = 2%nat) as Hw by (vm_compute; reflexivity).
  destruct (run 10 2 sample_inputs sample_start) as [t s].
  destruct H as (H1 & _ & H2 & H3).
  - repeat constructor; done.
  - repeat constructor; done.
  - simpl. lia.
  - split_and!; [apply H1..|apply H2; simpl; lia|done|done].
Defined.

End PoolTuner.
