(* ===== verification/Anomaly.v ===== *)
(** anomaly_detection.rs: baselines, the three detectors and their alerts,
    seasonal baselines, forecasts, correlations and the tuning of thresholds.

    Times are microseconds.  Generated ids and the correlation of an alert with
    incidents (incident_correlation.rs) are parameters; a sort whose comparison is
    no order, which a NaN makes of it, is that of [Prelude.sort_by]. *)

From S2P Require Import Prelude Text F64 Pg.

Module Anomaly.

Inductive DetectionMethod : Type := ZScore | IQR | MAD.

Definition method_str (m : DetectionMethod) : string := match m with ZScore => "zscore" | IQR => "iqr" | MAD => "mad" end.

Definition zero : f64 := F64.of_Z 0.
Definition one : f64 := F64.of_Z 1.
Definition size {A} (l : list A) : f64 := F64.of_Z (Z.of_nat (length l)).

(** ** Statistics *)

Record Statistics : Type := mkStatistics {
  mean : f64;
  std_dev : f64;
  min : f64;
  max : f64;
  median : f64;
  q1 : f64;
  q3 : f64;
  mad : f64;
}.

(** [(p * (len - 1) as f64) as usize], at most the last index. *)
Definition percentile_index (n : nat) (p : f64) : nat :=
  Nat.min (Z.to_nat (F64.to_u 64 (F64.mul p (F64.of_Z (Z.of_nat (n - 1)))))) (n - 1).

Definition calculate_percentile (sorted_values : list f64) (p : f64) : f64 :=
  match sorted_values with
  | [] => zero
  | _ => default zero (sorted_values !! percentile_index (length sorted_values) p)
  end.

Definition mean_of (l : list f64) : f64 := F64.div (F64.sum l) (size l).
Definition variance_of (l : list f64) : f64 := F64.div (F64.sum (map (λ x, F64.powi (F64.sub x (mean_of l)) 2) l)) (size l).

Definition half : f64 := F64.lit 1 2.

Definition statistics (values : list f64) : Statistics :=
  let sorted := sort_by F64.partial_cmp values in
  let m := calculate_percentile sorted half in
  let deviations := map (λ x, F64.abs (F64.sub x m)) sorted in
  mkStatistics (mean_of values) (F64.sqrt (variance_of values))
    (default zero (head sorted)) (default zero (last sorted)) m
    (calculate_percentile sorted (F64.lit 1 4)) (calculate_percentile sorted (F64.lit 3 4))
    (calculate_percentile deviations half).

(** ** Detectors *)

Definition detect_zscore_anomaly (b : Statistics) (value threshold : f64) : option f64 :=
  if F64.eqb (std_dev b) zero then None
  else
    let zscore := F64.div (F64.abs (F64.sub value (mean b))) (std_dev b) in
    if F64.gtb zscore threshold then Some zscore else None.

Definition detect_iqr_anomaly (b : Statistics) (value multiplier : f64) : option f64 :=
  let iqr := F64.sub (q3 b) (q1 b) in
  let lower_bound := F64.sub (q1 b) (F64.mul multiplier iqr) in
  let upper_bound := F64.add (q3 b) (F64.mul multiplier iqr) in
  if F64.ltb value lower_bound then Some (F64.abs (F64.sub lower_bound value))
  else if F64.gtb value upper_bound then Some (F64.abs (F64.sub value upper_bound))
  else None.

Definition detect_mad_anomaly (b : Statistics) (value threshold : f64) : option f64 :=
  if F64.eqb (mad b) zero then None
  else
    let modified_zscore := F64.div (F64.abs (F64.sub value (median b))) (F64.mul (F64.lit 14826 10000) (mad b)) in
    if F64.gtb modified_zscore threshold then Some modified_zscore else None.

(** ** Tables *)

Record MetricSample : Type := mkMetric { m_subscription : string; m_name : string; m_value : option f64; m_timestamp : Z }.

Record Baseline : Type := mkBaseline {
  b_id : string;
  b_subscription : string;
  b_metric : string;
  b_stats : Statistics;
  b_sample_count : Z;
  b_window_days : Z;
  b_created_at : Z;
}.

Record Alert : Type := mkAlert {
  a_id : string;
  a_subscription : string;
  a_event : string;
  a_metric : string;
  a_value : f64;
  a_range : f64 * f64;
  a_method : string;
  a_score : f64;
  a_severity : string;
  a_alerting_enabled : bool;
  a_acknowledged : bool;
  a_created_at : Z;
}.

Record Feedback : Type := mkFeedback { f_alert : string; f_label : string; f_notes : option string; f_created_at : Z }.

Record Db : Type := mkDb {
  metric_history : list MetricSample;
  baseline_statistics : list Baseline;
  anomaly_alerts : list Alert;
  anomaly_alert_feedback : list Feedback;
}.

(** A signal for the incidents, and whether it was taken. *)
Inductive Ev : Type := Correlated (alert severity : string) (ok : bool).

Inductive AlertFeedback : Type := TruePositive | FalsePositive | Missed.

#[export] Instance AlertFeedback_eq_dec : EqDecision AlertFeedback.
Proof. solve_decision. Defined.

Section Anomaly.
Variable pg : PgEnv.
Variable new_v4 : nat → string.
(** [incident_correlation::ingest_signal]. *)
Variable ingest_signal : nat → Alert → bool.
(** The first and the last time that chrono represents. *)
Variables min_utc max_utc : Z.

Local Abbreviation M := (Pg.M Db Ev string).

(** A failed statement with the message of its caller. *)
Definition with_message {A} (message : string) (m : M A) : M A :=
  r ← attempt (E := string) m;
  of_result match r with Ok x => Ok x | Err e => Err (message +:+ e)%string end.

(** [Utc::now() - Duration::days(n)], [n] an [i32]; [None] is a panic. *)
Definition cutoff (now n : Z) : option Z :=
  let t := now - n * 86400000000 in if (min_utc <=? t) && (t <=? max_utc) then Some t else None.

Definition by_time (a b : MetricSample) : comparison := cmp_on m_timestamp Z.compare a b.

Definition history (sub metric : string) (since : Z) (d : Db) : list f64 :=
  omap m_value (sort_by by_time
    (List.filter (λ x, String.eqb (m_subscription x) sub && String.eqb (m_name x) metric && (since <=? m_timestamp x)) (metric_history d))).

Definition is_baseline_of (sub metric : string) (b : Baseline) : bool := String.eqb (b_subscription b) sub && String.eqb (b_metric b) metric.

(** The insertion; (subscription_id, metric_name) is unique (an unknown
    subscription is one of the failures of the statement). *)
Definition insert_baseline (b : Baseline) : M () :=
  stmt pg (λ _ d,
    if existsb (is_baseline_of (b_subscription b) (b_metric b)) (baseline_statistics d)
    then Err "duplicate key value violates unique constraint"%string
    else Ok ((), mkDb (metric_history d) (baseline_statistics d ++ [b]) (anomaly_alerts d) (anomaly_alert_feedback d))).

(** A panic is [None]. *)
Definition calculate_baseline (sub metric : string) (training_window_days : Z) : M (option Baseline) :=
  now ← clock pg;
  match cutoff now training_window_days with
  | None => mret None
  | Some since =>
      values ← with_message "Failed to fetch metric history: " (query pg (λ _ d, history sub metric since d));
      match values with
      | [] => throw ("No data available for metric: " +:+ metric +:+ " in the last " +:+ show_i training_window_days +:+ " days")%string
      | _ =>
          n ← counter;
          t ← clock pg;
          let b := mkBaseline (new_v4 n) sub metric (statistics values) (Z.of_nat (length values)) training_window_days t in
          with_message "Failed to store baseline statistics: " (insert_baseline b) ;;
          mret (Some b)
      end
  end.

(** ** Alerts *)

Definition severity (score : f64) : string :=
  if F64.gtb score (F64.of_Z 5) then "critical" else if F64.gtb score (F64.of_Z 3) then "high"
  else if F64.gtb score (F64.of_Z 2) then "medium" else "low".

Definition record_anomaly_alert (sub event metric : string) (value : f64) (range : f64 * f64) (m : DetectionMethod) (score : f64)
    (alerting_enabled : bool) : M Alert :=
  n ← counter;
  t ← clock pg;
  let a := mkAlert (new_v4 n) sub event metric value range (method_str m) score (severity score) alerting_enabled false t in
  with_message "Failed to record anomaly alert: "
    (execute pg (λ _ d, mkDb (metric_history d) (baseline_statistics d) (anomaly_alerts d ++ [a]) (anomaly_alert_feedback d))) ;;
  call (λ n, ingest_signal n a) (Correlated (a_id a) (a_severity a)) ;;
  mret a.

(** ** Seasons *)

Inductive SeasonalPeriod : Type := HourOfDay | DayOfWeek.

(** The hour; the days from Monday (the epoch was a Thursday). *)
Definition bucket_of (p : SeasonalPeriod) (ts : Z) : Z :=
  match p with
  | HourOfDay => (ts / 3600000000) mod 24
  | DayOfWeek => (ts / 86400000000 + 3) mod 7
  end.

Definition bucket_count (p : SeasonalPeriod) : nat := match p with HourOfDay => 24 | DayOfWeek => 7 end.

Record SeasonalBaseline : Type := mkSeasonal { bucket : Z; s_mean : f64; s_std_dev : f64; s_sample_count : Z }.

Definition in_bucket (p : SeasonalPeriod) (samples : list (Z * f64)) (i : nat) : list f64 :=
  map snd (List.filter (λ x, bucket_of p x.1 =? Z.of_nat i) samples).

Definition learn_seasonal_baselines (samples : list (Z * f64)) (p : SeasonalPeriod) : list SeasonalBaseline :=
  omap (λ i,
    match in_bucket p samples i with
    | [] => None
    | values => Some (mkSeasonal (Z.of_nat i) (mean_of values) (F64.sqrt (variance_of values)) (Z.of_nat (length values)))
    end) (seq 0 (bucket_count p)).

Definition detect_seasonal_anomaly (bs : list SeasonalBaseline) (p : SeasonalPeriod) (ts : Z) (value threshold : f64) : option f64 :=
  b ← List.find (λ b, bucket b =? bucket_of p ts) bs;
  if F64.eqb (s_std_dev b) zero then None
  else
    let score := F64.div (F64.abs (F64.sub value (s_mean b))) (s_std_dev b) in
    if F64.gtb score threshold then Some score else None.

(** ** Forecasts *)

Record HoltForecaster : Type := mkHolt { alpha : f64; beta : f64; level : f64; trend : f64; mean_abs_error : f64; observations : Z }.

(** [f64::EPSILON]. *)
Definition EPSILON : f64 := F64.div one (F64.of_Z (2 ^ 52)).

Definition new_holt (a b initial_value : f64) : HoltForecaster :=
  mkHolt (F64.clamp (F64.lit 1 100) one a) (F64.clamp zero one b) initial_value zero zero 1.

Definition forecast (steps : Z) (h : HoltForecaster) : f64 := F64.add (level h) (F64.mul (trend h) (F64.of_Z steps)).

Definition prediction_interval (steps : Z) (k : f64) (h : HoltForecaster) : f64 * f64 :=
  let point := forecast steps h in
  let margin := F64.mul (F64.mul k (F64.max (mean_abs_error h) EPSILON)) (F64.lit 5 4) in
  (F64.sub point margin, F64.add point margin).

Definition observe (value : f64) (h : HoltForecaster) : f64 * HoltForecaster :=
  let err := F64.sub value (forecast 1 h) in
  let l := F64.add (F64.mul (alpha h) value) (F64.mul (F64.sub one (alpha h)) (F64.add (level h) (trend h))) in
  let t := F64.add (F64.mul (beta h) (F64.sub l (level h))) (F64.mul (F64.sub one (beta h)) (trend h)) in
  let n := F64.of_Z (observations h) in
  (err, mkHolt (alpha h) (beta h) l t
          (F64.div (F64.add (F64.mul (mean_abs_error h) n) (F64.abs err)) (F64.add n one)) (observations h + 1)).

Definition fit (values : list f64) (a b : f64) : option HoltForecaster :=
  match values with
  | [] => None
  | first :: rest => Some (fold_left (λ h v, (observe v h).2) rest (new_holt a b first))
  end.

Definition is_anomalous (value k : f64) (h : HoltForecaster) : bool :=
  if observations h <? 3 then false
  else let '(lower, upper) := prediction_interval 1 k h in F64.ltb value lower || F64.gtb value upper.

Definition linear_slope (values : list f64) : f64 :=
  let n := length values in
  if (n <? 2)%nat then zero
  else
    let mean_x := F64.div (F64.of_Z (Z.of_nat (n - 1))) (F64.of_Z 2) in
    let mean_y := mean_of values in
    let '(numerator, denominator) :=
      fold_left (λ '(num, den) '(i, y),
        let dx := F64.sub (F64.of_Z (Z.of_nat i)) mean_x in
        (F64.add num (F64.mul dx (F64.sub y mean_y)), F64.add den (F64.mul dx dx)))
        (imap pair values) (zero, zero) in
    if F64.eqb denominator zero then zero else F64.div numerator denominator.

Record TrendBreak : Type := mkBreak { index : nat; slope_before : f64; slope_after : f64; magnitude : f64 }.

(** [values[from .. from + n]]. *)
Definition slice (values : list f64) (from n : nat) : list f64 := take n (drop from values).

Definition detect_trend_breaks (values : list f64) (window : nat) (min_magnitude : f64) : list TrendBreak :=
  if (window <? 2)%nat || (length values <? window * 2)%nat then []
  else
    omap (λ i,
      let before := linear_slope (slice values (i - window) window) in
      let after := linear_slope (slice values i window) in
      let m := F64.abs (F64.sub after before) in
      if F64.leb min_magnitude m then Some (mkBreak i before after m) else None)
      (seq window (length values - window * 2 + 1)).

(** ** Correlations *)

Definition pearson_correlation (a b : list f64) : option f64 :=
  if negb (length a =? length b)%nat || (length a <? 2)%nat then None
  else
    let '(cov, var_a, var_b) :=
      fold_left (λ '(cov, va, vb) '(x, y),
        let da := F64.sub x (mean_of a) in
        let db := F64.sub y (mean_of b) in
        (F64.add cov (F64.mul da db), F64.add va (F64.mul da da), F64.add vb (F64.mul db db)))
        (combine a b) (zero, zero, zero) in
    if F64.eqb var_a zero || F64.eqb var_b zero then None
    else Some (F64.div cov (F64.mul (F64.sqrt var_a) (F64.sqrt var_b))).

Record MetricCorrelation : Type := mkCorrelation { source_metric : string; target_metric : string; coefficient : f64; lag : nat }.

(** The lags from [lag] on, [more] of them, until the series are too short. *)
Fixpoint best_lag (source target : list f64) (more lag : nat) (best : option (f64 * nat)) : option (f64 * nat) :=
  match more with
  | O => best
  | S more =>
      if (length source <=? lag)%nat || (length target <=? lag)%nat then best
      else
        let len := Nat.min (length source - lag) (length target - lag) in
        if (len <? 2)%nat then best
        else
          let best' :=
            match pearson_correlation (take len source) (slice target lag len) with
            | Some c =>
                if match best with Some (c0, _) => F64.gtb (F64.abs c) (F64.abs c0) | None => true end then Some (c, lag) else best
            | None => best
            end in
          best_lag source target more (S lag) best'
  end.

Definition correlate_metrics (source_name : string) (source : list f64) (candidates : list (string * list f64)) (max_lag : nat)
    (min_coefficient : f64) : list MetricCorrelation :=
  sort_by (λ a b, F64.partial_cmp (F64.abs (coefficient b)) (F64.abs (coefficient a)))
    (omap (λ '(target_name, target),
       match best_lag source target (S max_lag) 0 None with
       | Some (c, lag) => if F64.leb min_coefficient (F64.abs c) then Some (mkCorrelation source_name target_name c lag) else None
       | None => None
       end) candidates).

Record CausalEdge : Type := mkEdge { cause : string; effect : string; confidence : f64 }.

Definition build_causal_graph (l : list MetricCorrelation) : list CausalEdge :=
  map (λ c, mkEdge (source_metric c) (target_metric c) (F64.abs (coefficient c))) (List.filter (λ c, (0 <? lag c)%nat) l).

Record RootCauseHypothesis : Type := mkRoot {
  anomalous_metric : string;
  likely_cause : option string;
  r_confidence : f64;
  supporting_edges : list CausalEdge;
}.

(** [max_by]: the last of the greatest. *)
Definition max_edge (l : list CausalEdge) : option CausalEdge :=
  fold_left (λ best e,
    match best with
    | None => Some e
    | Some b => if match F64.partial_cmp (confidence b) (confidence e) with Gt => true | _ => false end then Some b else Some e
    end) l None.

Definition infer_root_cause (metric : string) (edges : list CausalEdge) : RootCauseHypothesis :=
  let supporting := List.filter (λ e, String.eqb (effect e) metric) edges in
  let best := max_edge supporting in
  mkRoot metric (cause <$> best) (default zero (confidence <$> best)) supporting.

(** ** Tuning *)

Record AlertTuner : Type := mkTuner {
  t_metric : string;
  threshold : f64;
  min_threshold : f64;
  max_threshold : f64;
  target_false_positive_rate : f64;
  feedback : list AlertFeedback;
  window : nat;
}.

Definition new_tuner (metric : string) (t : f64) : AlertTuner :=
  mkTuner metric t (F64.lit 3 2) (F64.of_Z 8) (F64.lit 5 100) [] 100.

Definition record_feedback (f : AlertFeedback) (t : AlertTuner) : AlertTuner :=
  mkTuner (t_metric t) (threshold t) (min_threshold t) (max_threshold t) (target_false_positive_rate t)
    ((if (length (feedback t) =? window t)%nat then tail (feedback t) else feedback t) ++ [f]) (window t).

Definition count (f : AlertFeedback) (t : AlertTuner) : nat := length (List.filter (λ x, bool_decide (x = f)) (feedback t)).
Definition of_nat (n : nat) : f64 := F64.of_Z (Z.of_nat n).

Definition false_positive_rate (t : AlertTuner) : f64 :=
  let fired := (count TruePositive t + count FalsePositive t)%nat in
  if (fired =? 0)%nat then zero else F64.div (of_nat (count FalsePositive t)) (of_nat fired).

Definition accuracy (t : AlertTuner) : f64 :=
  match feedback t with [] => zero | _ => F64.div (of_nat (count TruePositive t)) (size (feedback t)) end.

Definition set_threshold (x : f64) (t : AlertTuner) : AlertTuner :=
  mkTuner (t_metric t) x (min_threshold t) (max_threshold t) (target_false_positive_rate t) (feedback t) (window t).

Definition tune (t : AlertTuner) : f64 * AlertTuner :=
  if (length (feedback t) <? 10)%nat then (threshold t, t)
  else
    let fpr := false_positive_rate t in
    let missed := F64.div (of_nat (count Missed t)) (size (feedback t)) in
    let x :=
      if F64.gtb fpr (target_false_positive_rate t) then
        F64.mul (threshold t) (F64.add one (F64.min (F64.sub fpr (target_false_positive_rate t)) half))
      else if F64.gtb missed (F64.lit 5 100) then
        F64.mul (threshold t) (F64.sub one (F64.min missed (F64.lit 1 4)))
      else threshold t in
    let x := F64.clamp (min_threshold t) (max_threshold t) x in
    (x, set_threshold x t).

Definition label (f : AlertFeedback) : string :=
  match f with TruePositive => "true_positive" | FalsePositive => "false_positive" | Missed => "missed" end.

Definition of_label (s : string) : option AlertFeedback :=
  if String.eqb s "true_positive" then Some TruePositive
  else if String.eqb s "false_positive" then Some FalsePositive
  else if String.eqb s "missed" then Some Missed else None.

(** The alert must exist. *)
Definition record_alert_feedback (alert : string) (f : AlertFeedback) (notes : option string) : M () :=
  t ← clock pg;
  with_message "Failed to record alert feedback: "
    (stmt pg (λ _ d,
      if existsb (λ a, String.eqb (a_id a) alert) (anomaly_alerts d) then
        Ok ((), mkDb (metric_history d) (baseline_statistics d) (anomaly_alerts d) (anomaly_alert_feedback d ++ [mkFeedback alert (label f) notes t]))
      else Err "violates foreign key constraint"%string)).

(** The latest hundred labels of a metric, latest first. *)
Definition labels (sub metric : string) (d : Db) : list string :=
  take 100 (map f_label (sort_by (cmp_on (λ f, - f_created_at f) Z.compare)
    (List.filter (λ f, existsb (λ a, String.eqb (a_id a) (f_alert f) && String.eqb (a_subscription a) sub && String.eqb (a_metric a) metric)
                         (anomaly_alerts d)) (anomaly_alert_feedback d)))).

Definition tune_threshold_from_history (sub metric : string) (current_threshold : f64) : M f64 :=
  rows ← with_message "Failed to load alert feedback: " (query pg (λ _ d, labels sub metric d));
  mret (tune (fold_left (λ t f, record_feedback f t) (omap of_label (rev rows)) (new_tuner metric current_threshold))).1.

End Anomaly.

(** ** Percentiles *)

Lemma percentile_index_lt n p : (0 < n)%nat → (percentile_index n p < n)%nat.
Proof. unfold percentile_index. lia. Qed.

(** A percentile of mapped values at the same rank is the mapped percentile. *)
Lemma percentile_map (f : f64 → f64) l p :
  l ≠ [] → calculate_percentile (map f l) p = f (calculate_percentile l p).
Proof.
  intros Hl. assert (0 < length l)%nat as Hn by (destruct l; simpl; [done|lia]).
  destruct (lookup_lt_is_Some_2 l (percentile_index (length l) p)) as [x Hx]; [by apply percentile_index_lt|].
  unfold calculate_percentile. rewrite length_map.
  assert (map f l !! percentile_index (length l) p = Some (f x)) as Hm by (rewrite list_lookup_fmap, Hx; done).
  destruct l as [|y l]; [done|]. rewrite Hx. simpl map in *. by rewrite Hm.
Qed.

Lemma mul_nan x : F64.mul x S754_nan = S754_nan.
Proof. by destruct x as [[]|[]| |[]]. Qed.

Lemma div_nan x : F64.div x S754_nan = S754_nan.
Proof. by destruct x as [[]|[]| |[]]. Qed.

Lemma ltb_nan x : F64.ltb x S754_nan = false.
Proof. by destruct x as [[]|[]| |[]]. Qed.

(** The deviations stay in the order of the values, so the one at the rank of
    the median is that of the median from itself. *)
Lemma mad_is_zero values : mad (statistics values) = S754_nan ∨ ∃ s, mad (statistics values) = S754_zero s.
Proof.
  unfold statistics. cbn [mad]. set (l := sort_by _ values). destruct (decide (l = [])) as [->|Hl]; [right; by exists false|].
  rewrite percentile_map by done. destruct (sub_diag (calculate_percentile l half)) as [->|[s ->]]; [by left|right; by exists false].
Qed.

(** The median absolute deviation of a baseline is always zero (or no number),
    so the MAD detector finds no anomaly in any value at any threshold. *)
Theorem mad_never_detects values value threshold :
  detect_mad_anomaly (statistics values) value threshold = None.
Proof.
  unfold detect_mad_anomaly. destruct (mad_is_zero values) as [->|[s ->]].
  - rewrite mul_nan, div_nan. unfold F64.gtb. by rewrite ltb_nan.
  - by destruct s.
Qed.

Example zscore_does_detect :
  let b := statistics (map F64.of_Z [10; 11; 12; 13; 14]) in
  is_Some (detect_zscore_anomaly b (F64.of_Z 100) (F64.of_Z 3)) ∧ mad b = zero.
Proof. vm_compute. eauto. Qed.

(** ** One baseline for a metric *)

Section Baselines.
Variable pg : PgEnv.
Variable new_v4 : nat → string.
Variables min_utc max_utc : Z.

Lemma insert_baseline_refused b s :
  existsb (is_baseline_of (b_subscription b) (b_metric b)) (baseline_statistics (db s)) = true →
  is_ok (insert_baseline pg b s).1 = false ∧ db (insert_baseline pg b s).2 = db s.
Proof. intros Hb. unfold insert_baseline, stmt. destruct (db_fault _ _); [done|]. by rewrite Hb. Qed.

(** A metric that has a baseline never gets a newer one: whatever the history
    and the training window, the calculation returns no baseline and the stored
    one stays. *)
Theorem baseline_is_final sub metric days s :
  existsb (is_baseline_of sub metric) (baseline_statistics (db s)) = true →
  let '(r, s') := calculate_baseline pg new_v4 min_utc max_utc sub metric days s in
  db s' = db s ∧ match r with Ok (Some _) => False | _ => True end.
Proof.
  intros Hb. unfold calculate_baseline, with_message, attempt, of_result, query, counter, clock, throw, mbind, M_bind, mret, M_ret.
  destruct (cutoff _ _ _ _) as [since|]; [|done].
  unfold stmt. cbn [db ops trace]. destruct (db_fault pg _) as [e|]; [done|]. cbn [db ops trace].
  destruct (history _ _ _ _) as [|v vs]; [done|].
  match goal with |- context [insert_baseline pg ?b ?st] =>
    destruct (insert_baseline_refused b st Hb) as [H1 H2]; destruct (insert_baseline pg b st) as [[x|e] s2] end;
    [done|]. by split.
Qed.
End Baselines.

(** ** Seasons *)

Lemma bucket_of_bound p ts : 0 ≤ bucket_of p ts < Z.of_nat (bucket_count p).
Proof. destruct p; simpl; apply Z.mod_pos_bound; lia. Qed.

Definition total (bs : list SeasonalBaseline) : Z := fold_right (λ b n, s_sample_count b + n) 0 bs.

Lemma win_total_cons b bs : total (b :: bs) = s_sample_count b + total bs.
Proof. done. Qed.

Lemma win_total_app l k : total (l ++ k) = total l + total k.
Proof. induction l; simpl; [done|]. unfold total in *. simpl. rewrite IHl. lia. Qed.

(** The baselines of the first [n] buckets count the samples of these buckets. *)
Lemma total_upto p samples n :
  total (omap (λ i,
    match in_bucket p samples i with
    | [] => None
    | values => Some (mkSeasonal (Z.of_nat i) (mean_of values) (F64.sqrt (variance_of values)) (Z.of_nat (length values)))
    end) (seq 0 n)) = Z.of_nat (length (List.filter (λ x, bucket_of p x.1 <? Z.of_nat n) samples)).
Proof.
  induction n as [|n IH].
  - simpl. induction samples as [|x l IH]; [done|]. simpl. pose proof (bucket_of_bound p x.1).
    rewrite (proj2 (Z.ltb_ge _ _)) by lia. done.
  - rewrite seq_S, omap_app, win_total_app, IH. cbn [Nat.add].
    assert (length (List.filter (λ x, bucket_of p x.1 <? Z.of_nat (S n))%Z samples)
      = length (List.filter (λ x, bucket_of p x.1 <? Z.of_nat n)%Z samples) + length (in_bucket p samples n))%nat as ->.
    { unfold in_bucket. rewrite length_map. clear IH. induction samples as [|x l IH]; [done|]. simpl.
      destruct (Z.ltb_spec (bucket_of p x.1) (Z.of_nat (S n))), (Z.ltb_spec (bucket_of p x.1) (Z.of_nat n)),
        (Z.eqb_spec (bucket_of p x.1) (Z.of_nat n)); simpl; lia. }
    rewrite Nat2Z.inj_add. f_equal. simpl. by destruct (in_bucket p samples n).
Qed.

(** Every sample counts in exactly one seasonal baseline. *)
Lemma seasonal_counts samples p : total (learn_seasonal_baselines samples p) = Z.of_nat (length samples).
Proof.
  unfold learn_seasonal_baselines. rewrite total_upto. do 2 f_equal. apply filter_all.
  intros x _. apply Z.ltb_lt. apply bucket_of_bound.
Qed.

(** ** Tuning *)

Lemma record_feedback_length f t :
  (0 < window t)%nat → (length (feedback t) ≤ window t)%nat →
  window (record_feedback f t) = window t ∧ (length (feedback (record_feedback f t)) ≤ window t)%nat.
Proof.
  intros Hw Hl. split; [done|]. simpl. rewrite length_app. simpl. destruct (Nat.eqb_spec (length (feedback t)) (window t)) as [E|]; [|lia].
  destruct (feedback t); simpl in *; lia.
Qed.

Lemma clamp_bounded lo hi x : F64.ltb lo lo = false → F64.ltb hi hi = false → F64.ltb hi lo = false →
  F64.ltb (F64.clamp lo hi x) lo = false ∧ F64.gtb (F64.clamp lo hi x) hi = false.
Proof.
  unfold F64.clamp, F64.gtb, F64.ltb. intros H1 H2 H3. destruct (SFltb x lo) eqn:E.
  - by rewrite H3.
  - destruct (SFltb hi x) eqn:E2; [done|]. done.
Qed.

(** Whatever the operators answer, a tuner remembers at most a hundred answers;
    below ten it leaves the threshold alone, and from ten on the threshold is
    neither below 1.5 nor above 8. *)
Theorem tuned_threshold_bounded metric initial fs :
  let t := fold_left (λ t f, record_feedback f t) fs (new_tuner metric initial) in
  let x := (tune t).1 in
  (length (feedback t) ≤ 100)%nat ∧ feedback t = drop (length fs - 100) fs ∧
  if (length fs <? 10)%nat then x = initial
  else F64.ltb x (F64.lit 3 2) = false ∧ F64.gtb x (F64.of_Z 8) = false.
Proof.
  cbv zeta. set (w := λ l, fold_left (λ t f, record_feedback f t) l (new_tuner metric initial)).
  assert (feedback (w fs) = drop (length fs - 100) fs ∧ window (w fs) = 100%nat ∧ threshold (w fs) = initial ∧
    min_threshold (w fs) = F64.lit 3 2 ∧ max_threshold (w fs) = F64.of_Z 8) as (Hf & _ & Ht & Hmin & Hmax).
  { induction fs as [|f fs (Hf & Hw & IH) ] using rev_ind; [done|]. unfold w in *. rewrite fold_left_app. cbn [fold_left].
    split_and!; [|done|apply IH..]. cbn [record_feedback feedback]. rewrite Hw, Hf, <- push_latest by lia.
    f_equal. rewrite length_drop. destruct (Nat.eqb_spec (length fs - (length fs - 100)) 100), (Nat.leb_spec 100 (length fs - (length fs - 100))); done || lia. }
  change (fold_left _ fs _) with (w fs). rewrite Hf, length_drop. split_and!; [lia|done|]. unfold tune. rewrite Hf, length_drop.
  destruct (Nat.ltb_spec (length fs - (length fs - 100)) 10), (Nat.ltb_spec (length fs) 10); [done|lia|lia|].
  cbn [fst]. rewrite Hmin, Hmax. apply clamp_bounded; vm_compute; reflexivity.
Qed.

(** *** A metric calculated twice *)

Definition sample_pg : PgEnv := mkPgEnv (λ _, 0) (λ _, None).
Definition history_of_two : list MetricSample :=
  [mkMetric "s" "latency" (Some (F64.of_Z 1)) 0; mkMetric "s" "latency" (Some (F64.of_Z 3)) 0].

Lemma baseline_is_final_witness :
  let calc := calculate_baseline sample_pg (λ _, "b1") (- 10 ^ 18) (10 ^ 18) "s" "latency" 30 in
  let s1 := (calc (mkSt (mkDb history_of_two [] [] []) 0 [])).2 in
  length (baseline_statistics (db s1)) = 1%nat ∧ db (calc s1).2 = db s1.
Proof.
  intros calc s1. split; [vm_compute; reflexivity|].
  pose proof (baseline_is_final sample_pg (λ _, "b1") (- 10 ^ 18) (10 ^ 18) "s" "latency" 30 s1 eq_refl) as H.
  fold calc in H. destruct (calc s1) as [r s2]. apply H.
Defined.

End Anomaly.
