(* ===== verification/SchemaRegistry.v ===== *)
(** schema_validator.rs and the schema endpoints of handlers/mod.rs and
    handlers/events.rs: the registry of the contracts' JSON schemas, its cache of
    compiled schemas, their versions, and the comparison of two schemas.

    The compiler and validator of the jsonschema library, the text of a JSON value
    and the order in which a HashMap or HashSet is iterated are parameters. *)

From S2P Require Import Prelude Text F64 Model Pg ApiParams.

Module SchemaRegistry.

(** ** The differences of two schemas *)

Inductive ValidationMode : Type := Strict | Lenient.
Inductive CompatibilityMode : Type := Backward | Forward | Full | NoCheck.

#[export] Instance ValidationMode_eq_dec : EqDecision ValidationMode.
Proof. solve_decision. Defined.

Inductive SchemaChange : Type :=
| FieldAdded (field : string) (required : bool)
| FieldRemoved (field : string) (required : bool)
| FieldTypeChanged (field from to : string)
| FieldBecameRequired (field : string)
| FieldBecameOptional (field : string).

#[export] Instance SchemaChange_eq_dec : EqDecision SchemaChange.
Proof. solve_decision. Defined.

Definition is_breaking (c : SchemaChange) : bool :=
  match c with
  | FieldAdded _ required => required
  | FieldRemoved _ required => required
  | FieldTypeChanged _ _ _ => true
  | FieldBecameRequired _ => true
  | FieldBecameOptional _ => false
  end.

Definition required_str (required : bool) : string := if required then "required" else "optional".

Definition describe (c : SchemaChange) : string :=
  match c with
  | FieldAdded f r => "added " +:+ required_str r +:+ " field '" +:+ f +:+ "'"
  | FieldRemoved f r => "removed " +:+ required_str r +:+ " field '" +:+ f +:+ "'"
  | FieldTypeChanged f from to => "field '" +:+ f +:+ "' changed type from " +:+ from +:+ " to " +:+ to
  | FieldBecameRequired f => "field '" +:+ f +:+ "' is now required"
  | FieldBecameOptional f => "field '" +:+ f +:+ "' is now optional"
  end.

Definition migration_step (c : SchemaChange) : string :=
  match c with
  | FieldAdded f _ => "Give '" +:+ f +:+ "' a default, or ship it as optional first and require it in a later version"
  | FieldRemoved f _ => "Mark '" +:+ f +:+ "' deprecated for one release before removing it"
  | FieldTypeChanged f from to =>
      "Introduce a new field for the " +:+ to +:+ " form of '" +:+ f +:+ "' instead of changing it from " +:+ from +:+ " in place"
  | FieldBecameRequired f => "Backfill '" +:+ f +:+ "' on existing producers before making it required"
  | FieldBecameOptional f => "Consumers of '" +:+ f +:+ "' must tolerate its absence"
  end.

Record CompatibilityReport : Type := mkReport {
  compatible : bool;
  report_mode : CompatibilityMode;
  changes : list SchemaChange;
  breaking_changes : list string;
  migration_guidance : list string;
  deprecation_warnings : list string;
}.

(** The entries of ["properties"], if it is an object. *)
Definition properties (schema : Value) : list (string * Value) :=
  match value_get schema "properties" with Some (Object l) => l | _ => [] end.

Definition as_array (v : Value) : option (list Value) := match v with Array l => Some l | _ => None end.
Definition as_bool (v : Value) : option bool := match v with Bool b => Some b | _ => None end.

Definition schema_required (schema : Value) : gset string :=
  match value_get schema "required" ≫= as_array with Some items => list_to_set (omap as_str items) | None => ∅ end.

Definition is_deprecated (def : Value) : bool := default false (value_get def "deprecated" ≫= as_bool).

Definition deprecated_fields (schema : Value) : list string :=
  map (λ kv, "field '" +:+ kv.1 +:+ "' is deprecated and will be removed")%string
    (List.filter (λ kv, is_deprecated kv.2) (properties schema)).

Section Differences.
(** [Value::to_string]. *)
Variable json_text : Value → string.
Variable hash_order : ∀ A, list A → list A.

Definition type_text (def : Value) : string := match value_get def "type" with Some t => json_text t | None => "any" end.

Definition schema_properties (schema : Value) : gmap string string :=
  fold_left (λ m kv, <[kv.1 := type_text kv.2]> m) (properties schema) ∅.

Definition diff_schemas (old new : Value) : list SchemaChange :=
  let old_props := schema_properties old in
  let new_props := schema_properties new in
  let old_required := schema_required old in
  let new_required := schema_required new in
  omap (λ '(field, new_type),
    match old_props !! field with
    | None => Some (FieldAdded field (bool_decide (field ∈ new_required)))
    | Some old_type => if String.eqb old_type new_type then None else Some (FieldTypeChanged field old_type new_type)
    end) (hash_order _ (map_to_list new_props)) ++
  omap (λ '(field, _),
    if bool_decide (is_Some (new_props !! field)) then None
    else Some (FieldRemoved field (bool_decide (field ∈ old_required)))) (hash_order _ (map_to_list old_props)) ++
  omap (λ field,
    if bool_decide (is_Some (old_props !! field)) && bool_decide (field ∉ old_required) then Some (FieldBecameRequired field) else None)
    (hash_order _ (elements new_required)) ++
  omap (λ field,
    if bool_decide (is_Some (new_props !! field)) && bool_decide (field ∉ new_required) then Some (FieldBecameOptional field) else None)
    (hash_order _ (elements old_required)).

Definition violates (mode : CompatibilityMode) (c : SchemaChange) : bool :=
  match mode with
  | NoCheck => false
  | Backward => match c with FieldAdded _ true | FieldBecameRequired _ | FieldTypeChanged _ _ _ => true | _ => false end
  | Forward => match c with FieldRemoved _ true | FieldTypeChanged _ _ _ => true | _ => false end
  | Full => is_breaking c
  end.

Definition check_compatibility (old new : Value) (mode : CompatibilityMode) : CompatibilityReport :=
  let changes := diff_schemas old new in
  let breaking := List.filter (violates mode) changes in
  mkReport (match map describe breaking with [] => true | _ => false end) mode changes
    (map describe breaking) (map migration_step breaking) (deprecated_fields new).

(** ** What the differences mean *)

Hypothesis hash_order_perm : ∀ A (l : list A), hash_order A l ≡ₚ l.

Lemma in_hash_order {A} (x : A) l : x ∈ hash_order A l ↔ x ∈ l.
Proof. by rewrite hash_order_perm. Qed.

(** The differences are exactly these. *)
Definition differs (old new : Value) (c : SchemaChange) : Prop :=
  let old_props := schema_properties old in
  let new_props := schema_properties new in
  match c with
  | FieldAdded f r => is_Some (new_props !! f) ∧ old_props !! f = None ∧ r = bool_decide (f ∈ schema_required new)
  | FieldRemoved f r => is_Some (old_props !! f) ∧ new_props !! f = None ∧ r = bool_decide (f ∈ schema_required old)
  | FieldTypeChanged f from to => old_props !! f = Some from ∧ new_props !! f = Some to ∧ from ≠ to
  | FieldBecameRequired f => f ∈ schema_required new ∧ is_Some (old_props !! f) ∧ f ∉ schema_required old
  | FieldBecameOptional f => f ∈ schema_required old ∧ is_Some (new_props !! f) ∧ f ∉ schema_required new
  end.

Lemma diff_schemas_spec old new c : c ∈ diff_schemas old new ↔ differs old new c.
Proof.
  unfold diff_schemas. rewrite !elem_of_app, !list_elem_of_omap. setoid_rewrite in_hash_order. unfold differs. split.
  - intros [([f t] & Hf%elem_of_map_to_list & H)|[([f t] & Hf%elem_of_map_to_list & H)|[(f & Hf%elem_of_elements & H)|(f & Hf%elem_of_elements & H)]]].
    + destruct (schema_properties old !! f) as [t'|] eqn:Eo; [|by simplify_eq]. destruct (String.eqb_spec t' t); by simplify_eq.
    + case_bool_decide as Hn; [done|]. simplify_eq. split_and!; [done| |done]. by apply eq_None_not_Some.
    + repeat case_bool_decide; simplify_eq/=; done.
    + repeat case_bool_decide; simplify_eq/=; done.
  - destruct c as [f r|f r|f from to|f|f].
    + intros ([t Ht] & Ho & ->). left. exists (f, t). rewrite elem_of_map_to_list. split; [done|]. by rewrite Ho.
    + intros ([t Ht] & Hn & ->). right; left. exists (f, t). rewrite elem_of_map_to_list. split; [done|].
      rewrite bool_decide_false; [done|]. rewrite Hn. by intros [].
    + intros (Ho & Hn & Hne). left. exists (f, to). rewrite elem_of_map_to_list. split; [done|]. rewrite Ho. by destruct (String.eqb_spec from to).
    + intros (Hn & Ho & Hr). right; right; left. exists f. rewrite elem_of_elements. split; [done|]. by rewrite !bool_decide_true.
    + intros (Hn & Ho & Hr). right; right; right. exists f. rewrite elem_of_elements. split; [done|]. by rewrite !bool_decide_true.
Qed.

Lemma compatible_spec old new mode :
  compatible (check_compatibility old new mode) = true ↔ ∀ c, differs old new c → violates mode c = false.
Proof.
  cbn [compatible check_compatibility]. setoid_rewrite <- diff_schemas_spec. induction (diff_schemas old new) as [|c l IH]; simpl.
  - split; [|done]. intros _ c Hc. by apply elem_of_nil in Hc.
  - destruct (violates mode c) eqn:E; simpl.
    + split; [done|]. intros H. rewrite H in E by left. done.
    + rewrite IH. split; intros H x Hx; [apply elem_of_cons in Hx as [->|Hx]; auto|apply H; by right].
Qed.

(** ** Documents *)

(** What the texts of types admit. *)
Variable has_type : string → Value → Prop.

(** A document has the required fields, and its fields have their declared types. *)
Definition conforms (schema : Value) (d : gmap string Value) : Prop :=
  (∀ f, f ∈ schema_required schema → is_Some (d !! f)) ∧
  (∀ f t v, schema_properties schema !! f = Some t → d !! f = Some v → has_type t v).

(** It has no other fields than the declared ones. *)
Definition closed (schema : Value) (d : gmap string Value) : Prop := ∀ f, is_Some (d !! f) → is_Some (schema_properties schema !! f).

Definition requires_declared (schema : Value) : Prop := ∀ f, f ∈ schema_required schema → is_Some (schema_properties schema !! f).

(** The types of common fields agree when no type has changed. *)
Lemma types_kept old new f t t' :
  (∀ a b, ¬ differs old new (FieldTypeChanged f a b)) → schema_properties old !! f = Some t → schema_properties new !! f = Some t' → t = t'.
Proof. intros H Ho Hn. destruct (decide (t = t')); [done|]. by edestruct H. Qed.

(** A backward-compatible schema accepts every document of the old one, if what
    it requires it declares. *)
Theorem backward_reads_old old new d :
  compatible (check_compatibility old new Backward) = true → requires_declared new → closed old d →
  conforms old d → conforms new d.
Proof.
  rewrite compatible_spec. intros Hc Hd Hcl [Hr Ht]. split.
  - intros f Hf. destruct (decide (f ∈ schema_required old)) as [|Hno]; [by apply Hr|].
    destruct (schema_properties old !! f) as [t|] eqn:Eo.
    + by assert (differs old new (FieldBecameRequired f)) as H%Hc by (simpl; rewrite Eo; eauto).
    + assert (differs old new (FieldAdded f true)) as H%Hc; [|done]. split_and!; [by apply Hd|done|]. by rewrite bool_decide_true.
  - intros f t v Hn Hv. destruct (Hcl f) as [t' Ho]; [by eexists|]. rewrite <- (types_kept old new f t' t); [by eapply Ht| |done|done].
    intros a b H%Hc. done.
Qed.

(** A forward-compatible schema's documents are those of the old one up to what
    has become optional: the check lets a required field become optional, and
    exactly the documents that leave one out are refused by the old schema. *)
Theorem forward_reads_new old new d :
  compatible (check_compatibility old new Forward) = true → requires_declared old → closed new d → conforms new d →
  (conforms old d ↔ ∀ f, FieldBecameOptional f ∈ changes (check_compatibility old new Forward) → is_Some (d !! f)).
Proof.
  rewrite compatible_spec. intros Hc Hd Hcl [Hr Ht]. cbn [changes check_compatibility]. setoid_rewrite diff_schemas_spec. split.
  - intros [Hro _] f (Hf & _). by apply Hro.
  - intros Hopt. split.
    + intros f Hf. destruct (decide (f ∈ schema_required new)) as [|Hno]; [by apply Hr|].
      destruct (schema_properties new !! f) as [t|] eqn:En.
      * apply Hopt. simpl. by rewrite En.
      * assert (differs old new (FieldRemoved f true)) as H%Hc; [|done]. split_and!; [by apply Hd|done|]. by rewrite bool_decide_true.
    + intros f t v Ho Hv. destruct (Hcl f) as [t' Hn]; [by eexists|]. rewrite (types_kept old new f t t'); [by eapply Ht| |done|done].
      intros a b H%Hc. done.
Qed.

End Differences.
(** ** Test data and documentation *)

(** [sample_for], given the generator of objects. *)
Definition sample_for (generate : Value → Value) (def : Value) : Value :=
  match value_get def "example" with
  | Some example => example
  | None =>
      match (value_get def "enum" ≫= as_array) ≫= (λ l, head l) with
      | Some first => first
      | None =>
          match value_get def "type" ≫= as_str with
          | Some "string" => VString "example"
          | Some "integer" => Number (PosInt 0)
          | Some "number" => Number (Float (F64.of_Z 0))
          | Some "boolean" => Bool false
          | Some "array" => Array []
          | Some "object" => generate def
          | _ => Null
          end%string
      end
  end.

Definition add_sample (generate : Value → Value) (required : gset string) (out : list (string * Value)) (kv : string * Value) : list (string * Value) :=
  if negb (bool_decide (required = ∅)) && negb (bool_decide (kv.1 ∈ required)) then out
  else entry_insert kv.1 (sample_for generate kv.2) out.

(** The recursion descends into the schema: its depth is enough fuel. *)
Fixpoint generate (fuel : nat) (schema : Value) : Value :=
  match fuel with
  | O => Null
  | S fuel => Object (fold_left (add_sample (generate fuel) (schema_required schema)) (properties schema) [])
  end.

Definition generate_test_data (schema : Value) : Value := generate (depth_of schema) schema.

Definition newline : string := String "010"%char EmptyString.

Definition document_field (required : gset string) (kv : string * Value) : string :=
  let ty := default "any"%string (value_get kv.2 "type" ≫= as_str) in
  let req := if bool_decide (kv.1 ∈ required) then "yes" else "no" in
  let notes := default ""%string (value_get kv.2 "description" ≫= as_str) in
  let notes := if is_deprecated kv.2 then ("DEPRECATED. " +:+ notes)%string else notes in
  ("| " +:+ kv.1 +:+ " | " +:+ ty +:+ " | " +:+ req +:+ " | " +:+ trim notes +:+ " |" +:+ newline)%string.

Definition document_schema (contract_id : string) (version : Z) (schema : Value) : string :=
  ("# Schema: " +:+ contract_id +:+ newline +:+ newline +:+ "Version: " +:+ show_i version +:+ newline +:+ newline +:+
   match value_get schema "description" ≫= as_str with Some d => d +:+ newline +:+ newline | None => "" end +:+
   "| Field | Type | Required | Notes |" +:+ newline +:+ "|---|---|---|---|" +:+ newline +:+
   join "" (map (document_field (schema_required schema)) (properties schema)))%string.

Lemma properties_depth schema name def : (name, def) ∈ properties schema → (depth_of def < depth_of schema)%nat.
Proof.
  unfold properties, value_get. destruct schema as [| | | | |l]; [by intros []%elem_of_nil..|].
  destruct (List.find _ l) as [[k v]|] eqn:E; cbn [option_map snd]; [|by intros []%elem_of_nil].
  destruct v as [| | | | |ps]; try by intros []%elem_of_nil.
  intros Hin. apply find_some in E as [E _]. apply list_elem_of_In in E. cbn [depth_of].
  pose proof (proj1 (max_list_with_spec (λ kv : string * Value, depth_of kv.2) l _) (Nat.le_refl _)) as H1.
  pose proof (proj1 (max_list_with_spec (λ kv : string * Value, depth_of kv.2) ps _) (Nat.le_refl _)) as H2.
  rewrite Forall_forall in H1, H2. specialize (H1 _ E). specialize (H2 _ Hin). cbn [snd depth_of] in *. lia.
Qed.

Lemma sample_for_ext g g' def : g def = g' def → sample_for g def = sample_for g' def.
Proof. unfold sample_for. intros ->. done. Qed.

Lemma generate_enough fuel : ∀ schema, (depth_of schema ≤ fuel)%nat → generate fuel schema = generate_test_data schema.
Proof.
  assert (∀ n m schema, (depth_of schema ≤ n)%nat → (depth_of schema ≤ m)%nat → generate n schema = generate m schema) as H.
  { intros n. induction n as [|n IH]; intros [|m] schema Hn Hm; [by destruct schema|by destruct schema; simpl in *; lia..|].
    cbn [generate]. f_equal. generalize (@nil (string * Value)). assert (∀ kv, kv ∈ properties schema → (depth_of kv.2 < depth_of schema)%nat) as Hd.
    { intros [k v]. apply properties_depth. }
    induction (properties schema) as [|kv l IHl]; intros out; [done|]. cbn [fold_left]. rewrite IHl by (intros; apply Hd; by right).
    f_equal. unfold add_sample. specialize (Hd kv ltac:(by left)). rewrite (sample_for_ext (generate n) (generate m)); [done|]. apply IH; lia. }
  intros schema Hf. by apply H.
Qed.

(** The sample document of a schema is what the mutual recursion of the code says,
    which ends on every schema: the samples of the declared fields that are
    required, or of all of them when none is. *)
Theorem test_data_spec schema :
  generate_test_data schema = Object (fold_left (add_sample generate_test_data (schema_required schema)) (properties schema) []) ∧
  ∀ f, is_Some (value_get (generate_test_data schema) f) ↔
       f ∈ map fst (properties schema) ∧ (schema_required schema = ∅ ∨ f ∈ schema_required schema).
Proof.
  assert (generate_test_data schema = Object (fold_left (add_sample generate_test_data (schema_required schema)) (properties schema) [])) as Heq.
  { rewrite <- (generate_enough (S (depth_of schema))) by lia. cbn [generate]. f_equal. generalize (@nil (string * Value)).
    assert (∀ kv, kv ∈ properties schema → (depth_of kv.2 < depth_of schema)%nat) as Hd by (intros [k v]; apply properties_depth).
    induction (properties schema) as [|kv l IHl]; intros out; [done|]. cbn [fold_left]. rewrite IHl by (intros; apply Hd; by right).
    f_equal. unfold add_sample. specialize (Hd kv ltac:(by left)). rewrite (sample_for_ext (generate (depth_of schema)) generate_test_data); [done|].
    apply generate_enough. lia. }
  split; [done|]. intros f. rewrite Heq.
  assert (∀ l out, is_Some (value_get (Object (fold_left (add_sample generate_test_data (schema_required schema)) l out)) f) ↔
    (f ∈ map fst l ∧ (schema_required schema = ∅ ∨ f ∈ schema_required schema)) ∨ is_Some (value_get (Object out) f)) as H.
  { induction l as [|[k v] l IH]; intros out; cbn [fold_left map fst].
    - split; [by right|]. intros [[[]%elem_of_nil _]|]; done.
    - rewrite IH. unfold add_sample. cbn [fst snd]. rewrite elem_of_cons.
      destruct (bool_decide_reflect (schema_required schema = ∅)), (bool_decide_reflect (k ∈ schema_required schema)); cbn [negb andb];
        rewrite ?value_get_insert; destruct (String.eqb_spec k f) as [->|]; intuition (try congruence; eauto). }
  rewrite H. split; [|by left]. intros [|[? [=]]]; done.
Qed.

(** ** The registry *)

(** A row of contract_schemas; its key is the contract. *)
Record SchemaRow : Type := mkSchema {
  schema : Value;
  version : Z;
  description : option string;
  created_at : Z;
  updated_at : Z;
}.

Record SchemaInfo : Type := mkInfo { i_contract_id : string; i_version : Z; i_description : option string; i_updated_at : Z }.

Record SchemaVersion : Type := mkVersion {
  v_contract_id : string;
  v_version : Z;
  v_schema : Value;
  v_description : option string;
  v_created_at : Z;
}.

(** The counters of a contract: passes, failures, last check. *)
Record MetricsRow : Type := mkMetrics { pass_count : Z; fail_count : Z; last_checked : Z }.

Inductive Ev : Type := ValidationPass (contract_id : string) | ValidationFail (contract_id : string).

Section Registry.
Variable pg : PgEnv.
Variable json_text : Value → string.
Variable hash_order : ∀ A, list A → list A.

(** [JSONSchema]: the compiler of draft 7, and the two ways to validate ([None] is [Ok]). *)
Variable JSONSchema : Type.
Variable compile : Value → result JSONSchema string.
Variable is_valid : JSONSchema → Value → bool.
Variable validate : JSONSchema → Value → option (list ValidationErrorDetail).

(** The tables, and the cache of the process. *)
Record Db : Type := mkDb {
  contract_schemas : gmap string SchemaRow;
  contract_schema_versions : list SchemaVersion;
  schema_validation_metrics : gmap string MetricsRow;
  cache : gmap string JSONSchema;
}.

Local Abbreviation M := (Pg.M Db Ev string).

Definition with_cache (f : gmap string JSONSchema → gmap string JSONSchema) : M () := λ s,
  (Ok (), mkSt (mkDb (contract_schemas (db s)) (contract_schema_versions (db s)) (schema_validation_metrics (db s)) (f (cache (db s))))
            (ops s) (trace s)).

Definition read_cache : M (gmap string JSONSchema) := λ s, (Ok (cache (db s)), s).

Definition load_one (c : gmap string JSONSchema) (row : string * Value) : gmap string JSONSchema :=
  match compile row.2 with Ok x => <[row.1 := x]> c | Err _ => c end.

(** The rows in some order: their keys differ. *)
Definition load_schemas : M () :=
  schemas ← query pg (λ _ d, map (λ kv, (kv.1, schema kv.2)) (map_to_list (contract_schemas d)));
  with_cache (fold_left load_one schemas).

(** Rust's [a.or(b)]: COALESCE. *)
Definition coalesce {A} (a b : option A) : option A := match a with Some x => Some x | None => b end.

(** The upsert, with the trigger that counts updates; the version is an INTEGER. *)
Definition upsert_schema (contract_id : string) (v : Value) (desc : option string) : M () :=
  stmt pg (λ t d,
    let put row := Ok ((), mkDb (<[contract_id := row]> (contract_schemas d)) (contract_schema_versions d) (schema_validation_metrics d) (cache d)) in
    match contract_schemas d !! contract_id with
    | None => put (mkSchema v 1 desc t t)
    | Some old =>
        if version old =? i_max 32 then Err "integer out of range"%string
        else put (mkSchema v (version old + 1) (coalesce desc (description old)) (created_at old) t)
    end).

(** The second step of a registration and of a deletion, each under the lock of
    the cache: other requests may come between it and the statement. *)
Definition cache_insert (contract_id : string) (compiled : JSONSchema) : M () := with_cache (<[contract_id := compiled]>).
Definition cache_remove (contract_id : string) : M () := with_cache (delete contract_id).

Definition register_schema_with_desc (contract_id : string) (v : Value) (desc : option string) : M () :=
  compiled ← of_result match compile v with Ok c => Ok c | Err e => Err ("Invalid JSON Schema: " +:+ e)%string end;
  upsert_schema contract_id v desc ;;
  cache_insert contract_id compiled.

Definition register_schema (contract_id : string) (v : Value) : M () := register_schema_with_desc contract_id v None.
Definition register_schema_described : string → Value → option string → M () := register_schema_with_desc.

Definition count (e : Ev) : M () := call (λ _, ()) (λ _, e).

Definition validate_event_data (contract_id : string) (data : Value) : M (option (bool * list ValidationErrorDetail)) :=
  c ← read_cache;
  match c !! contract_id with
  | None => mret None
  | Some compiled =>
      let valid := is_valid compiled data in
      match (if valid then None else validate compiled data) with
      | Some errors => count (ValidationFail contract_id) ;; mret (Some (false, errors))
      | None => count (ValidationPass contract_id) ;; mret (Some (valid, []))
      end
  end.

(** A failed query is no row. *)
Definition optional {A} (m : M (option A)) : M (option A) :=
  r ← attempt (E := string) m; mret match r with Ok x => x | Err _ => None end.

Definition get_schema (contract_id : string) : M (option Value) :=
  optional (query pg (λ _ d, schema <$> contract_schemas d !! contract_id)).

Definition info_of (contract_id : string) (r : SchemaRow) : SchemaInfo := mkInfo contract_id (version r) (description r) (updated_at r).

Definition get_schema_info (contract_id : string) : M (option SchemaInfo) :=
  optional (query pg (λ _ d, info_of contract_id <$> contract_schemas d !! contract_id)).

Definition list_schemas : M (list SchemaInfo) :=
  query pg (λ _ d, sort_by (cmp_on i_contract_id String.compare) (map (λ kv, info_of kv.1 kv.2) (map_to_list (contract_schemas d)))).

(** The deletion takes the counters along. *)
Definition delete_row (contract_id : string) (d : Db) : nat * Db :=
  match contract_schemas d !! contract_id with
  | None => (O, d)
  | Some _ => (1%nat, mkDb (delete contract_id (contract_schemas d)) (contract_schema_versions d) (delete contract_id (schema_validation_metrics d)) (cache d))
  end.

Definition delete_schema (contract_id : string) : M bool :=
  n ← execute_count pg (λ _, delete_row contract_id);
  if (0 <? n)%nat then cache_remove contract_id ;; mret true else mret false.

Definition record_validation_metrics (contract_id : string) (pass_delta fail_delta : Z) : M () :=
  stmt pg (λ t d,
    let put row := Ok ((), mkDb (contract_schemas d) (contract_schema_versions d) (<[contract_id := row]> (schema_validation_metrics d)) (cache d)) in
    match contract_schemas d !! contract_id, schema_validation_metrics d !! contract_id with
    | None, _ => Err "violates foreign key constraint"%string
    | Some _, None => put (mkMetrics pass_delta fail_delta t)
    | Some _, Some m =>
        let p := pass_count m + pass_delta in
        let f := fail_count m + fail_delta in
        if bool_decide (in_i 64 p) && bool_decide (in_i 64 f) then put (mkMetrics p f t) else Err "bigint out of range"%string
    end).

(** ** Versions *)

Record ValidationOutcome : Type := mkOutcome { valid : bool; accepted : bool; mode : ValidationMode; errors : list ValidationErrorDetail }.

Definition validate_with_mode (contract_id : string) (data : Value) (m : ValidationMode) : M (option ValidationOutcome) :=
  o ← validate_event_data contract_id data;
  mret ((λ '(v, es), mkOutcome v (v || bool_decide (m = Lenient)) m es) <$> o).

Definition of_contract (contract_id : string) (v : SchemaVersion) : bool := String.eqb (v_contract_id v) contract_id.

Definition max_version (contract_id : string) (d : Db) : Z :=
  match map v_version (List.filter (of_contract contract_id) (contract_schema_versions d)) with
  | [] => 0
  | v :: l => fold_left Z.max l v
  end.

Definition archive_version (contract_id : string) (v : Value) (desc : option string) : M () :=
  stmt pg (λ t d,
    let n := max_version contract_id d + 1 in
    if i_max 32 <? n then Err "integer out of range"%string
    else Ok ((), mkDb (contract_schemas d) (contract_schema_versions d ++ [mkVersion contract_id n v desc t]) (schema_validation_metrics d) (cache d))).

Definition mode_str (m : CompatibilityMode) : string :=
  match m with Backward => "Backward" | Forward => "Forward" | Full => "Full" | NoCheck => "None" end.

Definition register_schema_checked (contract_id : string) (v : Value) (desc : option string) (m : CompatibilityMode) : M CompatibilityReport :=
  existing ← get_schema contract_id;
  let report := match existing with
                | Some old => check_compatibility json_text hash_order old v m
                | None => mkReport true m [] [] [] (deprecated_fields v)
                end in
  if negb (compatible report) then
    throw ("Schema for " +:+ contract_id +:+ " is not " +:+ mode_str m +:+ "-compatible: " +:+ join "; " (breaking_changes report))%string
  else
    register_schema_with_desc contract_id v desc ;;
    archive_version contract_id v desc ;;
    mret report.

Definition versions_of (contract_id : string) (d : Db) : list SchemaVersion :=
  sort_by (cmp_on v_version Z.compare) (List.filter (of_contract contract_id) (contract_schema_versions d)).

Definition list_versions (contract_id : string) : M (list SchemaVersion) := query pg (λ _, versions_of contract_id).

Definition get_version (contract_id : string) (n : Z) : M (option SchemaVersion) :=
  optional (query pg (λ _ d, List.find (λ v, of_contract contract_id v && (v_version v =? n)) (contract_schema_versions d))).

Record CompatibilityMatrixEntry : Type := mkEntry { from_version : Z; to_version : Z; e_compatible : bool; e_breaking : list string }.

Definition compatibility_matrix (contract_id : string) (m : CompatibilityMode) : M (list CompatibilityMatrixEntry) :=
  versions ← list_versions contract_id;
  match last versions with
  | None => mret []
  | Some latest =>
      mret (map (λ old,
        let r := check_compatibility json_text hash_order (v_schema old) (v_schema latest) m in
        mkEntry (v_version old) (v_version latest) (compatible r) (breaking_changes r)) (take (length versions - 1) versions))
  end.

Definition discover (prefix : option string) : M (list SchemaInfo) :=
  all ← list_schemas;
  mret match prefix with Some p => List.filter (λ i, starts_with p (i_contract_id i)) all | None => all end.

(** ** The endpoints *)

Inductive Answer : Type :=
| Registered (contract_id : string) (version : Z)
| Schemas (l : list SchemaInfo)
| Schema (v : Value)
| Deleted
| ValidData.

(** The errors of the registry as those of a handler. *)
Definition handler {A} (f : string → AppError) (m : M A) : Pg.M Db Ev AppError A := λ s,
  let '(r, s) := m s in (result_map_err f r, s).

(** [present] is whether the state holds a validator. *)
Definition validator_of (present : bool) : Pg.M Db Ev AppError () :=
  of_result (if present then Ok () else Err (Internal "Schema validator not initialized")).

Definition register_contract_schema (present : bool) (contract_id : string) (v : Value) (desc : option string) : Pg.M Db Ev AppError Answer :=
  of_result (ApiParams.validate_contract_id contract_id) ;;
  validator_of present ;;
  handler (λ e, Validation ("Invalid schema: " +:+ e)%string) (register_schema_described contract_id v desc) ;;
  info ← handler Internal (get_schema_info contract_id);
  mret (Registered contract_id match info with Some i => i_version i | None => 1 end).

Definition list_contract_schemas (present : bool) : Pg.M Db Ev AppError Answer :=
  validator_of present ;;
  l ← handler Internal list_schemas;
  mret (Schemas l).

Definition get_contract_schema (present : bool) (contract_id : string) : Pg.M Db Ev AppError Answer :=
  of_result (ApiParams.validate_contract_id contract_id) ;;
  validator_of present ;;
  o ← handler Internal (get_schema contract_id);
  of_result match o with Some v => Ok (Schema v) | None => Err NotFound end.

Definition delete_contract_schema (present : bool) (contract_id : string) : Pg.M Db Ev AppError Answer :=
  of_result (ApiParams.validate_contract_id contract_id) ;;
  validator_of present ;;
  deleted ← handler Internal (delete_schema contract_id);
  of_result (if deleted : bool then Ok Deleted else Err NotFound).

Definition validate_event_data_against_schema (present : bool) (contract_id : string) (data : Value) : Pg.M Db Ev AppError Answer :=
  of_result (ApiParams.validate_contract_id contract_id) ;;
  validator_of present ;;
  o ← handler Internal (validate_event_data contract_id data);
  of_result match o with
            | None => Err NotFound
            | Some (true, _) => Ok ValidData
            | Some (false, errors) =>
                Err (ValidationWithDetails ("Event data validation failed with " +:+ show_u (Z.of_nat (length errors)) +:+ " error(s)")%string errors)
            end.

(** ** The cache *)

(** The cache holds exactly the schemas of the table that compile. *)
Definition compiled (r : SchemaRow) : option JSONSchema := match compile (schema r) with Ok c => Some c | Err _ => None end.
Definition synced (d : Db) : Prop := cache d = omap compiled (contract_schemas d).

Lemma synced_insert d id r c vs ms :
  synced d → compile (schema r) = Ok c → synced (mkDb (<[id := r]> (contract_schemas d)) vs ms (<[id := c]> (cache d))).
Proof.
  unfold synced. cbn. intros -> Hc. apply map_eq. intros i. rewrite lookup_omap. destruct (decide (id = i)) as [->|Hne].
  - rewrite !lookup_insert_eq. cbn. unfold compiled. by rewrite Hc.
  - rewrite !lookup_insert_ne by done. by rewrite lookup_omap.
Qed.

Lemma synced_delete d id vs ms : synced d → synced (mkDb (delete id (contract_schemas d)) vs ms (delete id (cache d))).
Proof.
  unfold synced. cbn. intros ->. apply map_eq. intros i. rewrite lookup_omap. destruct (decide (id = i)) as [->|Hne].
  - by rewrite !lookup_delete_eq.
  - rewrite !lookup_delete_ne by done. by rewrite lookup_omap.
Qed.

Lemma load_insert (m : gmap string SchemaRow) : ∀ (l : list (string * Value)) c, NoDup (map fst l) → (∀ id v, (id, v) ∈ l → ∃ r, m !! id = Some r ∧ schema r = v) →
  ∀ i, fold_left load_one l c !! i =
    match (if decide (i ∈ map fst l) then m !! i ≫= compiled else None) with Some x => Some x | None => c !! i end.
Proof.
  intros l. induction l as [|[id v] l IH]; intros c Hn Hm i; [done|]. cbn [fold_left map fst]. apply NoDup_cons in Hn as [Hx Hn].
  rewrite IH; [unfold load_one; cbn [fst snd]|done|intros; apply Hm; by right]. destruct (Hm id v) as (r & Hr & Hv); [by left|].
  assert (compiled r = match compile v with Ok x => Some x | Err _ => None end) as Hcr by (unfold compiled; by rewrite Hv).
  destruct (decide (i = id)) as [->|Hne].
  - rewrite decide_False, decide_True by (done || by left). rewrite Hr. cbn. rewrite Hcr. destruct (compile v); [by rewrite lookup_insert_eq|done].
  - assert ((if decide (i ∈ map fst l) then m !! i ≫= compiled else None) = (if decide (i ∈ id :: map fst l) then m !! i ≫= compiled else None)) as ->.
    { destruct (decide (i ∈ map fst l)); [rewrite decide_True; [done|by right]|rewrite decide_False; [done|by rewrite not_elem_of_cons]]. }
    destruct (if decide _ then _ else _); [done|]. destruct (compile v); [by rewrite lookup_insert_ne|done].
Qed.

(** Loading into an empty cache. *)
Lemma load_synced s s' : cache (db s) = ∅ → load_schemas s = (Ok (), s') → synced (db s').
Proof.
  intros Hc. unfold load_schemas, query, stmt, with_cache, mbind, M_bind. destruct (db_fault pg (ops s)); [done|]. intros [= <-].
  unfold synced. cbn. rewrite Hc. apply map_eq. intros i. rewrite lookup_omap.
  rewrite (load_insert (contract_schemas (db s))).
  - rewrite map_map, lookup_empty. cbn. destruct (decide (i ∈ map (λ x, x.1) (map_to_list (contract_schemas (db s))))) as [Hi|Hi].
    + destruct (contract_schemas (db s) !! i); [|done]. cbn. by destruct (compiled _).
    + destruct (contract_schemas (db s) !! i) as [r|] eqn:E; [|done]. exfalso. apply Hi. apply list_elem_of_fmap.
      exists (i, r). by rewrite elem_of_map_to_list.
  - rewrite map_map. apply NoDup_fst_map_to_list.
  - intros id v ([i' r] & [= -> ->] & Hr%elem_of_map_to_list)%list_elem_of_fmap. by exists r.
Qed.

(** What a registration that the table takes leaves. *)
Definition registered (contract_id : string) (v : Value) (desc : option string) (d d' : Db) (r : SchemaRow) (c : JSONSchema) : Prop :=
  let old := contract_schemas d !! contract_id in
  compile v = Ok c ∧ schema r = v ∧
  version r = match old with Some o => version o + 1 | None => 1 end ∧
  description r = coalesce desc (old ≫= description) ∧
  d' = mkDb (<[contract_id := r]> (contract_schemas d)) (contract_schema_versions d) (schema_validation_metrics d) (<[contract_id := c]> (cache d)).

Lemma register_cases contract_id v desc s :
  let '(r, s') := register_schema_with_desc contract_id v desc s in
  match r with
  | Ok _ => ∃ row c, registered contract_id v desc (db s) (db s') row c ∧ trace s' = trace s ∧ ops s' = S (ops s)
  | Err _ => db s' = db s ∧ trace s' = trace s
  end.
Proof.
  unfold register_schema_with_desc, upsert_schema, cache_insert, with_cache, stmt, of_result, mbind, M_bind.
  destruct (compile v) as [c|e] eqn:Ec; [|done]. destruct (db_fault pg (ops s)); [done|].
  unfold registered. destruct (contract_schemas (db s) !! contract_id) as [o|] eqn:Eo; cbn.
  - destruct (version o =? i_max 32); [done|]. exists (mkSchema v (version o + 1) (coalesce desc (description o)) (created_at o) (now pg (ops s))), c.
    by split_and!.
  - exists (mkSchema v 1 desc (now pg (ops s)) (now pg (ops s))), c. split_and!; try done. by destruct desc.
Qed.

(** A schema whose registration succeeds is in force at once, in the table and in
    the cache, as the next version of its contract, a missing description leaving
    the old one; one whose registration fails, for whatever reason, changes nothing. *)
Theorem registration_in_force contract_id v desc data s :
  let '(r, s') := register_contract_schema true contract_id v desc s in
  (synced (db s) → synced (db s')) ∧
  match r with
  | Ok a => ∃ row c, registered contract_id v desc (db s) (db s') row c ∧
      (a = Registered contract_id (version row) ∨ a = Registered contract_id 1 ∧ is_Some (db_fault pg (S (ops s)))) ∧
      (is_ok (validate_event_data_against_schema true contract_id data s').1 = true ↔ is_valid c data = true)
  | Err _ => db s' = db s
  end.
Proof.
  unfold register_contract_schema. destruct (ApiParams.validate_contract_id contract_id) as [[]|e] eqn:Hid; [|by split].
  unfold validator_of, handler, register_schema_described, get_schema_info, optional, attempt, of_result, mbind, M_bind.
  pose proof (register_cases contract_id v desc s) as Hr.
  destruct (register_schema_with_desc contract_id v desc s) as [[[]|e] s1]; cbn [result_map_err]; [|destruct Hr as [-> _]; by split].
  destruct Hr as (row & c & Hreg & Ht & Ho). pose proof Hreg as (Hc & Hs & _ & _ & Hd).
  assert (∀ s2 : St Db Ev, db s2 = db s1 →
    (is_ok (validate_event_data_against_schema true contract_id data s2).1 = true ↔ is_valid c data = true)) as Hval.
  { intros s2 E2. unfold validate_event_data_against_schema. rewrite Hid.
    unfold validator_of, handler, validate_event_data, read_cache, count, call, of_result, mbind, M_bind. cbn [fst snd].
    rewrite E2, Hd. cbn [cache]. rewrite lookup_insert_eq. destruct (is_valid c data) eqn:Ei; [done|]. by destruct (validate c data). }
  assert (synced (db s) → synced (db s1)) as Hsync.
  { intros H. rewrite Hd. apply synced_insert; [done|by rewrite Hs]. }
  unfold query, stmt. rewrite Ho. destruct (db_fault pg (S (ops s))) as [e|] eqn:Ef; cbn [result_map_err].
  - split; [done|]. exists row, c. split_and!; [done|right; by split|by apply Hval].
  - split; [done|]. exists row, c. split_and!; [done| |by apply Hval]. left. cbn. rewrite Hd. cbn. by rewrite lookup_insert_eq.
Qed.

(** The other operations on the registry. *)
Lemma delete_cases contract_id s :
  let '(r, s') := delete_schema contract_id s in
  (synced (db s) → synced (db s')) ∧
  match r with
  | Ok deleted => deleted = bool_decide (is_Some (contract_schemas (db s) !! contract_id)) ∧
                  contract_schemas (db s') = delete contract_id (contract_schemas (db s))
  | Err _ => db s' = db s
  end.
Proof.
  unfold delete_schema, execute_count, stmt, delete_row, cache_remove, with_cache, mbind, M_bind. destruct (db_fault pg (ops s)); [done|].
  destruct (contract_schemas (db s) !! contract_id) as [r|] eqn:E; cbn.
  - split; [apply synced_delete|done].
  - split_and!; [done|done|]. by rewrite delete_id.
Qed.

(** ** Versions *)

(** The versions of a contract are numbered from one in the order they were stored. *)
Definition numbered (d : Db) : Prop :=
  ∀ id, let l := List.filter (of_contract id) (contract_schema_versions d) in
        map v_version l = map Z.of_nat (seq 1 (length l)).

Lemma max_seq n k : fold_left Z.max (map Z.of_nat (seq (S k) n)) (Z.of_nat k) = Z.of_nat (k + n).
Proof. revert k. induction n as [|n IH]; intros k; simpl; [f_equal; lia|]. rewrite Z.max_r by lia. rewrite IH. f_equal; lia. Qed.

Lemma numbered_max id d : numbered d → max_version id d = Z.of_nat (length (List.filter (of_contract id) (contract_schema_versions d))).
Proof.
  intros Hn. unfold max_version. rewrite (Hn id). destruct (length _) as [|n]; [done|]. cbn [seq map]. by rewrite max_seq.
Qed.

Lemma numbered_sorted id d : numbered d → versions_of id d = List.filter (of_contract id) (contract_schema_versions d).
Proof.
  intros Hn. unfold versions_of. set (l := List.filter _ _). assert (map v_version l = map Z.of_nat (seq 1 (length l))) as Hl by apply Hn.
  assert (NoDup (map v_version l)) as Hnd.
  { rewrite Hl. apply NoDup_fmap; [apply _|]. apply NoDup_ListNoDup, seq_NoDup. }
  apply sort_by_sorted_id; [apply _|done|]. clear Hnd. revert Hl. generalize 1%nat as k. induction l as [|v l IH]; intros k Hl; [constructor|].
  cbn [map length seq] in Hl. injection Hl as Hv Hl. constructor; [by apply (IH (S k))|]. apply Forall_forall. intros w Hw.
  assert (v_version w ∈ map Z.of_nat (seq (S k) (length l))) as (m & Hm & Hi%list_elem_of_In%in_seq)%list_elem_of_fmap
    by (rewrite <- Hl; by apply list_elem_of_fmap_2).
  unfold cmp_le, cmp_leb, cmp_on. rewrite Hv, Hm. destruct (Z.compare_spec (Z.of_nat k) (Z.of_nat m)); done || lia.
Qed.

(** Archiving appends the next version of the contract and touches no other. *)
Lemma archive_cases contract_id v desc s :
  numbered (db s) →
  let '(r, s') := archive_version contract_id v desc s in
  numbered (db s') ∧ contract_schemas (db s') = contract_schemas (db s) ∧ cache (db s') = cache (db s) ∧
  match r with
  | Ok _ => ∃ new, v_schema new = v ∧ v_description new = desc ∧ v_version new = Z.of_nat (S (length (versions_of contract_id (db s)))) ∧
              versions_of contract_id (db s') = versions_of contract_id (db s) ++ [new] ∧
              ∀ id, id ≠ contract_id → versions_of id (db s') = versions_of id (db s)
  | Err _ => db s' = db s
  end.
Proof.
  intros Hn. unfold archive_version, stmt. destruct (db_fault pg (ops s)); [by split_and!|].
  rewrite (numbered_max contract_id) by done. rewrite <- (numbered_sorted contract_id) by done. set (n := length (versions_of contract_id (db s))).
  destruct (_ <? _); [by split_and!|]. cbn [db contract_schemas cache].
  set (new := mkVersion _ _ _ _ _). set (d' := mkDb _ _ _ _).
  assert (∀ id, List.filter (of_contract id) (contract_schema_versions d') = List.filter (of_contract id) (contract_schema_versions (db s)) ++ (if String.eqb contract_id id then [new] else [])) as Hf.
  { intros id. cbn. rewrite List.filter_app. cbn. by destruct (String.eqb contract_id id). }
  assert (numbered d') as Hn'.
  { intros id. rewrite Hf. destruct (String.eqb_spec contract_id id) as [<-|]; [|rewrite app_nil_r; apply Hn]. cbn zeta.
    rewrite map_app, length_app, Hn. cbn [length map]. rewrite Nat.add_1_r, seq_S, map_app. f_equal. cbn. f_equal.
    unfold n. rewrite numbered_sorted by done. lia. }
  split_and!; [done..|]. exists new. rewrite !(numbered_sorted contract_id), Hf, String.eqb_refl by done. split_and!; [done|done| |done|].
  - cbn. unfold n. rewrite numbered_sorted by done. lia.
  - intros id Hne. rewrite !numbered_sorted, Hf by done. destruct (String.eqb_spec contract_id id); [done|]. by rewrite app_nil_r.
Qed.

Lemma numbered_same d d' : contract_schema_versions d' = contract_schema_versions d → numbered d → numbered d'.
Proof. unfold numbered. by intros ->. Qed.

Lemma register_invariant contract_id v desc s :
  let s' := (register_schema_with_desc contract_id v desc s).2 in
  (synced (db s) → synced (db s')) ∧ contract_schema_versions (db s') = contract_schema_versions (db s).
Proof.
  pose proof (register_cases contract_id v desc s) as H. destruct (register_schema_with_desc contract_id v desc s) as [[[]|e] s1]; cbn [snd].
  - destruct H as (row & c & (Hc & Hs & _ & _ & ->) & _). split; [|done]. intros Hy. apply synced_insert; [done|by rewrite Hs].
  - by destruct H as [-> _].
Qed.

(** What a lookup finds: the stored schema, or none when it fails. *)
Lemma get_schema_cases contract_id s :
  let '(r, s') := get_schema contract_id s in
  db s' = db s ∧ ops s' = S (ops s) ∧
  r = Ok (if decide (db_fault pg (ops s) = None) then schema <$> contract_schemas (db s) !! contract_id else None).
Proof.
  unfold get_schema, optional, attempt, query, stmt, mbind, M_bind. destruct (db_fault pg (ops s)); [by rewrite decide_False|by rewrite decide_True].
Qed.

(** C39. A checked registration takes a schema that is compatible with the one in
    force, stores it as the next version of its history and puts it in force; one
    that is refused, or fails before the schema is stored, changes nothing.  But it
    takes any schema when the lookup of the old one fails, and when only the
    archiving fails it answers an error with the schema in force. *)
Theorem checked_registration contract_id v desc m s :
  numbered (db s) →
  let '(r, s') := register_schema_checked contract_id v desc m s in
  let old := contract_schemas (db s) !! contract_id in
  let history := versions_of contract_id (db s) in
  match r with
  | Ok report =>
      (∃ row, schema row = v ∧ contract_schemas (db s') = <[contract_id := row]> (contract_schemas (db s))) ∧
      (∃ new, v_schema new = v ∧ v_version new = Z.of_nat (S (length history)) ∧ versions_of contract_id (db s') = history ++ [new]) ∧
      (db_fault pg (ops s) = None → ∀ o, old = Some o →
         report = check_compatibility json_text hash_order (schema o) v m ∧ compatible report = true)
  | Err _ =>
      db s' = db s ∨
      contract_schema_versions (db s') = contract_schema_versions (db s) ∧
      ∃ row c, registered contract_id v desc (db s) (db s') row c
  end.
Proof.
  intros Hn. unfold register_schema_checked, mbind at 1, M_bind at 1. pose proof (get_schema_cases contract_id s) as Hg.
  destruct (get_schema contract_id s) as [r0 s0]. destruct Hg as (Hd0 & Ho0 & ->). cbv zeta.
  match goal with |- context [compatible ?x] => set (report := x) end.
  destruct (compatible report) eqn:Ec; cbn [negb]; [|unfold throw; cbn; by left].
  unfold mbind, M_bind. pose proof (register_cases contract_id v desc s0) as Hr.
  destruct (register_schema_with_desc contract_id v desc s0) as [[[]|e] s1]; cbn [fst snd]; [|left; by destruct Hr as [-> _]].
  destruct Hr as (row & c & Hreg & _). rewrite Hd0 in Hreg. pose proof Hreg as (_ & Hs & _ & _ & Hd1).
  assert (numbered (db s1)) as Hn1 by (eapply numbered_same; [|exact Hn]; by rewrite Hd1).
  assert (versions_of contract_id (db s1) = versions_of contract_id (db s)) as Hv by (unfold versions_of; by rewrite Hd1).
  pose proof (archive_cases contract_id v desc s1 Hn1) as Ha.
  destruct (archive_version contract_id v desc s1) as [[[]|e] s2]; destruct Ha as (_ & Hcs & _ & Ha).
  - destruct Ha as (new & H1 & _ & H2 & H3 & _). rewrite Hv in H2, H3. unfold mret, M_ret. split_and!.
    + exists row. split; [done|]. by rewrite Hcs, Hd1.
    + by exists new.
    + intros Hf o Ho. split; [|done]. subst report. rewrite decide_True by done. by rewrite Ho.
  - right. split; [by rewrite Ha, Hd1|]. exists row, c. by rewrite Ha.
Qed.

(** ** Every run *)

Inductive Op : Type :=
| Register (contract_id : string) (v : Value) (desc : option string)
| RegisterChecked (contract_id : string) (v : Value) (desc : option string) (m : CompatibilityMode)
| Delete (contract_id : string)
| Validate (contract_id : string) (data : Value)
| RecordMetrics (contract_id : string) (pass fail : Z)
| Archive (contract_id : string) (v : Value) (desc : option string).

Definition exec (o : Op) (s : St Db Ev) : St Db Ev :=
  match o with
  | Register id v desc => (register_schema_with_desc id v desc s).2
  | RegisterChecked id v desc m => (register_schema_checked id v desc m s).2
  | Delete id => (delete_schema id s).2
  | Validate id data => (validate_event_data id data s).2
  | RecordMetrics id p f => (record_validation_metrics id p f s).2
  | Archive id v desc => (archive_version id v desc s).2
  end.

Definition good (d : Db) : Prop := synced d ∧ numbered d.

Lemma exec_good o s : good (db s) → good (db (exec o s)).
Proof.
  intros [Hs Hn]. destruct o as [id v desc|id v desc m|id|id data|id p f|id v desc]; cbn [exec].
  - destruct (register_invariant id v desc s) as [H1 H2]. split; [by apply H1|by apply (numbered_same (db s))].
  - unfold register_schema_checked, mbind at 1, M_bind at 1. pose proof (get_schema_cases id s) as Hg.
    destruct (get_schema id s) as [r0 s0]. destruct Hg as (Hd & _ & ->). cbv zeta. rewrite <- Hd in Hs, Hn.
    match goal with |- context [compatible ?x] => destruct (compatible x) end; [cbn [negb]|done].
    unfold mbind, M_bind. destruct (register_invariant id v desc s0) as [H1 H2].
    destruct (register_schema_with_desc id v desc s0) as [[[]|e] s1]; cbn [snd] in *; [|split; [by apply H1|by apply (numbered_same (db s0))]].
    pose proof (archive_cases id v desc s1 (numbered_same _ _ H2 Hn)) as Ha.
    unfold mret, M_ret. destruct (archive_version id v desc s1) as [[[]|e] s2]; cbn [snd]; destruct Ha as (Hn2 & Hc & Hca & _);
      (split; [unfold synced; rewrite Hc, Hca; by apply H1|done]).
  - pose proof (delete_cases id s) as Hd. split.
    + destruct (delete_schema id s). by apply Hd.
    + eapply numbered_same; [|exact Hn]. unfold delete_schema, execute_count, stmt, delete_row, cache_remove, with_cache, mbind, M_bind.
      destruct (db_fault pg (ops s)); [done|]. by destruct (contract_schemas (db s) !! id).
  - unfold validate_event_data, read_cache, count, call, mbind, M_bind. destruct (cache (db s) !! id); [|done].
    destruct (if is_valid _ _ then _ else _); by split.
  - unfold record_validation_metrics, stmt. destruct (db_fault pg (ops s)); [done|].
    destruct (contract_schemas (db s) !! id); [|done]. destruct (schema_validation_metrics (db s) !! id); [|done].
    destruct (bool_decide _ && bool_decide _); done.
  - pose proof (archive_cases id v desc s Hn) as Ha. destruct (archive_version id v desc s) as [r s'].
    destruct Ha as (Hn' & Hc & Hca & _). cbn [snd]. split; [unfold synced; by rewrite Hc, Hca|done].
Qed.

(** Requests that run one after the other keep table and cache together. *)
Lemma sequential_good ops s : good (db s) → good (db (fold_left (λ s o, exec o s) ops s)).
Proof. revert s. induction ops as [|o ops IH]; intros s Hg; [done|]. cbn [fold_left]. by apply IH, exec_good. Qed.

(** ** Requests side by side *)

(** The steps of the requests being served: a registration or a deletion is the
    statement and then, unless the request is dropped, the change of the cache. *)
Inductive Step : Type :=
| CommitSchema (contract_id : string) (v : Value) (desc : option string)
| CommitDelete (contract_id : string)
| CacheStep (k : nat)
| Abandon (k : nat)
| Checked (contract_id : string) (data : Value)
| Metered (contract_id : string) (pass fail : Z)
| Archived (contract_id : string) (v : Value) (desc : option string).

(** [in_flight]: what the requests whose statement is done will put in the cache
    or ([None]) take out of it.  [raced]: the contracts whose last change was made
    while another one was in flight, or was dropped before its second step. *)
Record Registry : Type := mkRegistry {
  store : St Db Ev;
  in_flight : list (string * option JSONSchema);
  raced : gset string;
}.

Definition flights (id : string) (l : list (string * option JSONSchema)) : list (option JSONSchema) :=
  omap (λ p : string * option JSONSchema, if String.eqb p.1 id then Some p.2 else None) l.

Definition commit (id : string) (o : option JSONSchema) (s : St Db Ev) (r : Registry) : Registry :=
  mkRegistry s (in_flight r ++ [(id, o)])
    (match flights id (in_flight r) with [] => raced r ∖ {[id]} | _ => {[id]} ∪ raced r end).

Definition land (k : nat) (r : Registry) : list (string * option JSONSchema) := take k (in_flight r) ++ drop (S k) (in_flight r).

Definition run_step (x : Step) (r : Registry) : Registry :=
  match x with
  | CommitSchema id v desc =>
      match compile v with
      | Ok c =>
          let '(res, s) := upsert_schema id v desc (store r) in
          match res with Ok _ => commit id (Some c) s r | Err _ => mkRegistry s (in_flight r) (raced r) end
      | Err _ => r
      end
  | CommitDelete id =>
      let '(res, s) := (execute_count pg (λ _, delete_row id) : M nat) (store r) in
      match res with
      | Ok (S _) => commit id None s r
      | _ => mkRegistry s (in_flight r) (raced r)
      end
  | CacheStep k =>
      match in_flight r !! k with
      | Some (id, Some c) => mkRegistry (cache_insert id c (store r)).2 (land k r) (raced r)
      | Some (id, None) => mkRegistry (cache_remove id (store r)).2 (land k r) (raced r)
      | None => r
      end
  | Abandon k =>
      match in_flight r !! k with
      | Some (id, _) => mkRegistry (store r) (land k r) ({[id]} ∪ raced r)
      | None => r
      end
  | Checked id data => mkRegistry (validate_event_data id data (store r)).2 (in_flight r) (raced r)
  | Metered id p f => mkRegistry (record_validation_metrics id p f (store r)).2 (in_flight r) (raced r)
  | Archived id v desc => mkRegistry (archive_version id v desc (store r)).2 (in_flight r) (raced r)
  end.

Definition run_steps (l : list Step) (r : Registry) : Registry := fold_left (λ r x, run_step x r) l r.

(** The whole operation is its two steps with nothing between. *)
Lemma register_two_steps id v desc s :
  store (run_steps [CommitSchema id v desc; CacheStep 0] (mkRegistry s [] ∅)) =
  match compile v with Ok _ => (register_schema_with_desc id v desc s).2 | Err _ => s end.
Proof.
  cbn. unfold register_schema_with_desc, of_result, mbind, M_bind. destruct (compile v) as [c|e]; [|done].
  by destruct (upsert_schema id v desc s) as [[[]|e] s1].
Qed.

(** What the cache should hold for a contract. *)
Definition in_force (id : string) (d : Db) : option JSONSchema := contract_schemas d !! id ≫= compiled.

(** A contract without a race: what is on the way to the cache, if anything, is
    what the table says. *)
Definition on_course (id : string) (r : Registry) : Prop :=
  match flights id (in_flight r) with
  | [] => cache (db (store r)) !! id = in_force id (db (store r))
  | [o] => o = in_force id (db (store r))
  | _ => False
  end.

Definition tracked (r : Registry) : Prop := numbered (db (store r)) ∧ ∀ id, id ∉ raced r → on_course id r.

Lemma flights_app id l k : flights id (l ++ k) = flights id l ++ flights id k.
Proof. unfold flights. by rewrite omap_app. Qed.

Lemma flights_land r k j o :
  in_flight r !! k = Some (j, o) →
  (∀ id, id ≠ j → flights id (land k r) = flights id (in_flight r)) ∧
  ∃ a b, flights j (in_flight r) = a ++ o :: b ∧ flights j (land k r) = a ++ b.
Proof.
  intros Hk. unfold land. pose proof (take_drop_middle _ _ _ Hk) as E. split.
  - intros id Hne. rewrite <- E at 3. rewrite !flights_app. cbn. by destruct (String.eqb_spec j id); [congruence|].
  - exists (flights j (take k (in_flight r))), (flights j (drop (S k) (in_flight r))). rewrite <- E at 1. rewrite !flights_app. cbn.
    by rewrite String.eqb_refl.
Qed.

Lemma commit_tracked id o s r :
  tracked r → numbered (db s) → cache (db s) = cache (db (store r)) → in_force id (db s) = o →
  (∀ j, j ≠ id → contract_schemas (db s) !! j = contract_schemas (db (store r)) !! j) → tracked (commit id o s r).
Proof.
  intros [_ Hr] Hn Hc Ho Ht. split; [done|]. intros j. unfold commit, on_course. cbn [raced in_flight store].
  rewrite flights_app. cbn. destruct (String.eqb_spec id j) as [<-|Hne].
  - destruct (flights id (in_flight r)) as [|x l]; [done|]. rewrite not_elem_of_union, not_elem_of_singleton. by intros [].
  - rewrite app_nil_r. intros Hj. assert (j ∉ raced r) as Hj'.
    { intros Hin. apply Hj. destruct (flights id (in_flight r)); set_solver. }
    specialize (Hr j Hj'). unfold on_course, in_force in *. by rewrite Hc, Ht by done.
Qed.

(** Steps on the tables that are not the schemas'. *)
Lemma same_tracked s r :
  tracked r → numbered (db s) → cache (db s) = cache (db (store r)) → contract_schemas (db s) = contract_schemas (db (store r)) →
  tracked (mkRegistry s (in_flight r) (raced r)).
Proof. intros [_ Hr] Hn Hc Ht. split; [done|]. intros j Hj. specialize (Hr j Hj). unfold on_course, in_force in *. cbn. by rewrite Hc, Ht. Qed.

Lemma cache_step_tracked k j o r s :
  tracked r → in_flight r !! k = Some (j, o) →
  db s = mkDb (contract_schemas (db (store r))) (contract_schema_versions (db (store r))) (schema_validation_metrics (db (store r)))
           (partial_alter (λ _, o) j (cache (db (store r)))) →
  tracked (mkRegistry s (land k r) (raced r)).
Proof.
  intros [Hn Hr] Hk Hs. destruct (flights_land r k j o Hk) as (Hne & a & b & Ej & El). split; [cbn; by rewrite Hs|].
  intros id Hid. specialize (Hr id Hid). unfold on_course, in_force in *. cbn [in_flight store]. rewrite Hs. cbn [cache contract_schemas]. destruct (decide (id = j)) as [->|Hd].
  - rewrite Ej in Hr. rewrite El, lookup_partial_alter_eq. destruct a as [|x [|]], b as [|y b]; done.
  - rewrite (Hne id Hd), lookup_partial_alter_ne by done. exact Hr.
Qed.

Lemma abandon_tracked k j o r :
  tracked r → in_flight r !! k = Some (j, o) → tracked (mkRegistry (store r) (land k r) ({[j]} ∪ raced r)).
Proof.
  intros [Hn Hr] Hk. destruct (flights_land r k j o Hk) as (Hne & _). split; [done|]. cbn [raced].
  intros id [Hd Hid]%not_elem_of_union. rewrite not_elem_of_singleton in Hd. specialize (Hr id Hid). unfold on_course in *. cbn [in_flight store].
  by rewrite (Hne id Hd).
Qed.

Lemma upsert_cases id v desc s :
  let '(r, s') := upsert_schema id v desc s in
  match r with
  | Ok _ => ∃ row, schema row = v ∧ contract_schemas (db s') = <[id := row]> (contract_schemas (db s)) ∧
                   cache (db s') = cache (db s) ∧ contract_schema_versions (db s') = contract_schema_versions (db s)
  | Err _ => db s' = db s
  end.
Proof.
  unfold upsert_schema, stmt. destruct (db_fault pg (ops s)); [done|].
  destruct (contract_schemas (db s) !! id) as [old|]; [destruct (version old =? i_max 32); [done|]|];
    (eexists; split; [|split; [reflexivity|done]]; done).
Qed.

Lemma run_step_tracked x r : tracked r → tracked (run_step x r).
Proof.
  intros Hr. pose proof Hr as [Hn _]. destruct x as [id v desc|id|k|k|id data|id p f|id v desc]; cbn [run_step].
  - destruct (compile v) as [c|e] eqn:Ec; [|done]. pose proof (upsert_cases id v desc (store r)) as H.
    destruct (upsert_schema id v desc (store r)) as [[[]|e] s]; [|apply same_tracked; by rewrite ?H].
    destruct H as (row & Hv & Ht & Hc & Hvs). apply commit_tracked; [done|by eapply numbered_same|done| |].
    + unfold in_force. rewrite Ht, lookup_insert_eq. cbn. unfold compiled. by rewrite Hv, Ec.
    + intros j Hj. by rewrite Ht, lookup_insert_ne.
  - unfold execute_count, stmt, delete_row. destruct (db_fault pg (ops (store r))); [by apply same_tracked|].
    destruct (contract_schemas (db (store r)) !! id) eqn:E; [|by apply same_tracked].
    apply commit_tracked; try done; unfold in_force; cbn; [by rewrite lookup_delete_eq|]. intros j Hj. by rewrite lookup_delete_ne.
  - destruct (in_flight r !! k) as [[j [c|]]|] eqn:Ek; [| |done]; by eapply cache_step_tracked.
  - destruct (in_flight r !! k) as [[j o]|] eqn:Ek; [|done]. by eapply abandon_tracked.
  - assert (db (validate_event_data id data (store r)).2 = db (store r)) as E.
    { unfold validate_event_data, read_cache, count, call, mbind, M_bind. destruct (cache (db (store r)) !! id); [|done].
      by destruct (if is_valid _ _ then _ else _). }
    apply same_tracked; by rewrite ?E.
  - unfold record_validation_metrics, stmt. destruct (db_fault pg (ops (store r))); [by apply same_tracked|].
    destruct (contract_schemas (db (store r)) !! id); [|by apply same_tracked].
    destruct (schema_validation_metrics (db (store r)) !! id); [|by apply same_tracked].
    destruct (bool_decide _ && bool_decide _); by apply same_tracked.
  - pose proof (archive_cases id v desc (store r) Hn) as Ha. destruct (archive_version id v desc (store r)) as [res s].
    destruct Ha as (Hn' & Hc & Hca & _). by apply same_tracked.
Qed.

(** C38. The registry after the start of the service, whatever requests are then
    served, however their steps interleave, whichever statements fail and whoever
    drops a request half-way: the history of every contract is numbered from one
    without gaps, and the cache holds for a contract exactly the schema that its
    row compiles to, if no change of the contract is between its statement and its
    cache step and the last one neither overlapped another change of the contract
    nor was dropped.  When the schemas could not be loaded at the start, which is
    only logged, this holds of a contract with a row from its next change on. *)
Theorem registry_invariant steps s0 :
  cache (db s0) = ∅ → numbered (db s0) →
  let '(loaded, s1) := load_schemas s0 in
  let r := run_steps steps (mkRegistry s1 [] (if is_ok loaded then ∅ else dom (contract_schemas (db s1)))) in
  numbered (db (store r)) ∧
  ∀ id, id ∉ raced r → flights id (in_flight r) = [] →
    cache (db (store r)) !! id = contract_schemas (db (store r)) !! id ≫= compiled.
Proof.
  intros Hc Hn. destruct (load_schemas s0) as [loaded s1] eqn:El.
  assert (tracked (mkRegistry s1 [] (if is_ok loaded then ∅ else dom (contract_schemas (db s1))))) as H0.
  { assert (numbered (db s1)) as Hn1.
    { eapply numbered_same; [|exact Hn]. revert El. unfold load_schemas, query, stmt, with_cache, mbind, M_bind.
      destruct (db_fault pg _); by intros [= _ <-]. }
    split; [done|]. intros id Hid. unfold on_course, in_force. cbn. destruct loaded as [[]|e]; cbn in Hid.
    - apply (load_synced s0) in El; [|done]. by rewrite El, lookup_omap.
    - apply not_elem_of_dom in Hid. cbn in Hid. rewrite Hid. revert El. unfold load_schemas, query, stmt, with_cache, mbind, M_bind.
      destruct (db_fault pg _); [|done]. intros [= _ <-]. cbn. by rewrite Hc. }
  cbv zeta. set (r0 := mkRegistry _ _ _) in *. clearbody r0. assert (tracked (run_steps steps r0)) as [H1 H2].
  { unfold run_steps. revert r0 H0. induction steps as [|x steps IH]; intros r0 H0; [done|]. cbn. by apply IH, run_step_tracked. }
  split; [done|]. intros id Hid Hf. specialize (H2 id Hid). unfold on_course in H2. by rewrite Hf in H2.
Qed.

End Registry.
(** ** Examples *)

Definition keep_order (A : Type) (l : list A) : list A := l.
Definition text_of (v : Value) : string := match v with VString s => s | _ => "?" end.
Definition is_text (t : string) (v : Value) : Prop := t = "string" → is_Some (as_str v).

Definition field (t : string) : Value := Object [("type", VString t)].
(** Fields of type string, some of them required. *)
Definition object_schema (fields required : list string) : Value :=
  Object [("properties", Object (map (λ f, (f, field "string")) fields)); ("required", Array (map VString required))].

Lemma only_a l f : f ∈ schema_required (object_schema l ["a"]) → f = "a".
Proof.
  assert (∀ x, schema_required (object_schema x ["a"]) = {["a"]} ∪ ∅) as -> by done. rewrite elem_of_union, elem_of_singleton.
  intros [->|[]%elem_of_empty]. done.
Qed.

(** A new optional field. *)
Lemma backward_reads_old_witness :
  let old := object_schema ["a"] ["a"] in
  let new := object_schema ["a"; "b"] ["a"] in
  let d : gmap string Value := {["a" := VString "x"]} in
  compatible (check_compatibility text_of keep_order old new Backward) = true ∧ conforms text_of is_text new d.
Proof.
  intros old new d. split; [vm_compute; reflexivity|].
  apply (backward_reads_old text_of keep_order (λ A l, Permutation_refl l) is_text old new d).
  - vm_compute; reflexivity.
  - intros f Hf. rewrite (only_a _ _ Hf). by eexists.
  - intros f Hf. assert (f = "a") as ->; [|by eexists]. destruct (decide ("a" = f)); [done|]. subst d. rewrite lookup_singleton_ne in Hf by done. by destruct Hf.
  - split.
    + intros f Hf. rewrite (only_a _ _ Hf). by eexists.
    + intros f t v Ht Hv _. subst d. apply lookup_singleton_Some in Hv as [_ <-]. by eexists.
Defined.

(** A required field becomes optional: both the forward and the full check let it
    pass, and the old schema refuses the empty document, which the new one accepts. *)
Lemma forward_reads_new_witness :
  let old := object_schema ["a"] ["a"] in
  let new := object_schema ["a"] [] in
  compatible (check_compatibility text_of keep_order old new Forward) = true ∧
  compatible (check_compatibility text_of keep_order old new Full) = true ∧
  conforms text_of is_text new ∅ ∧ ¬ conforms text_of is_text old ∅.
Proof.
  intros old new. split; [vm_compute; reflexivity|]. split; [vm_compute; reflexivity|].
  assert (conforms text_of is_text new ∅) as Hn.
  { split; [|by intros f t v _ H]. intros f Hf. assert (schema_required new = ∅) as E by done. rewrite E in Hf. by apply elem_of_empty in Hf. }
  split; [exact Hn|]. intros Ho. revert Ho.
  rewrite (forward_reads_new text_of keep_order (λ A l, Permutation_refl l) is_text old new ∅).
  - intros H. destruct (H "a") as [v Hv]; [|done]. vm_compute. by left.
  - vm_compute; reflexivity.
  - intros f Hf. rewrite (only_a _ _ Hf). by eexists.
  - by intros f [v Hv].
  - exact Hn.
Defined.

Definition sample_pg (fault : nat → option string) : PgEnv := mkPgEnv (λ _, 0) fault.
Definition empty_db : Db Value := mkDb Value ∅ [] ∅ ∅.
Definition one_schema : Db Value := mkDb Value {["C" := mkSchema (object_schema ["a"] ["a"]) 1 None 0 0]} [] ∅ ∅.

Lemma empty_numbered d : contract_schema_versions Value d = [] → numbered Value d.
Proof. intros H id. by rewrite H. Qed.

(** The second registration would be refused, but its lookup fails. *)
Lemma checked_registration_witness :
  let new := object_schema ["a"; "b"] ["a"; "b"] in
  let register fault := register_schema_checked (sample_pg fault) text_of keep_order Value Ok "C" new None Backward (mkSt one_schema 0 []) in
  is_ok (register (λ _, None)).1 = false ∧
  is_ok (register (λ n, if (n =? 0)%nat then Some "timeout" else None)).1 = true ∧
  ∃ row, schema row = new ∧ contract_schemas Value (db (register (λ n, if (n =? 0)%nat then Some "timeout" else None)).2) !! "C" = Some row.
Proof.
  intros new register. split; [vm_compute; reflexivity|]. assert (is_ok (register (λ n, if (n =? 0)%nat then Some "timeout" else None)).1 = true) as Hok
    by (vm_compute; reflexivity).
  split; [exact Hok|].
  pose proof (checked_registration (sample_pg (λ n, if (n =? 0)%nat then Some "timeout" else None)) text_of keep_order Value Ok "C" new None Backward
                (mkSt one_schema 0 []) (empty_numbered one_schema eq_refl)) as H.
  fold (register (λ n, if (n =? 0)%nat then Some "timeout" else None)) in H.
  destruct (register (λ n, if (n =? 0)%nat then Some "timeout" else None)) as [[r|e] s']; [|done].
  destruct H as ((row & Hs & Hc) & _). exists row. split; [exact Hs|]. cbn [snd]. rewrite Hc. apply lookup_insert_eq.
Defined.

Abbreviation toy_steps pg := (run_steps pg Value Ok (λ _ _, true) (λ _ _, None)).

(** The upsert of "E" fails, the deletion of "C" and the registration of "D"
    interleave, and the client of a last registration of "F" goes away. *)
Lemma registry_invariant_witness :
  let pg := sample_pg (λ n, if (n =? 1)%nat then Some "timeout" else None) in
  let new := object_schema ["b"] [] in
  let s1 := (load_schemas pg Value Ok (mkSt one_schema 0 [])).2 in
  let steps := [CommitSchema "E" new None; CommitSchema "D" new None; CommitDelete "C"; Archived "D" new None; CacheStep 1; CacheStep 0;
                CommitSchema "F" new None; Abandon 0] in
  let r := toy_steps pg steps (mkRegistry Value s1 [] ∅) in
  (numbered Value (db (store Value r)) ∧
   cache Value (db (store Value r)) !! "C" = contract_schemas Value (db (store Value r)) !! "C" ≫= compiled Value Ok) ∧
  cache Value (db (store Value r)) !! "C" = None ∧ cache Value (db (store Value r)) !! "D" = Some new ∧
  cache Value (db (store Value r)) !! "E" = None ∧ raced Value r = {["F"]}.
Proof.
  intros pg new s1 steps r. split; [|vm_compute; repeat split; reflexivity].
  pose proof (registry_invariant pg Value Ok (λ _ _, true) (λ _ _, None) steps (mkSt one_schema 0 []) eq_refl (empty_numbered one_schema eq_refl)) as [H1 H2].
  split; [exact H1|]. apply (H2 "C"); [|vm_compute; reflexivity]. intros H. assert (raced Value r = {["F"]}) as E by (vm_compute; reflexivity).
  change ("C" ∈ raced Value r) in H. rewrite E in H. by apply elem_of_singleton in H.
Defined.

(** Two registrations of a contract that overlap, both successful: the cache is
    left with the older schema, and validation goes by it until the next change. *)
Lemma overlapping_registrations :
  let older := object_schema ["a"] [] in
  let newer := object_schema ["b"] [] in
  let r := toy_steps (sample_pg (λ _, None)) [CommitSchema "C" older None; CommitSchema "C" newer None; CacheStep 1; CacheStep 0]
             (mkRegistry Value (mkSt empty_db 0 []) [] ∅) in
  in_flight Value r = [] ∧ cache Value (db (store Value r)) !! "C" = Some older ∧
  schema <$> contract_schemas Value (db (store Value r)) !! "C" = Some newer.
Proof. vm_compute. repeat split. Qed.

End SchemaRegistry.
