(* ===== verification/QueryBuilder.v ===== *)
(** query_builder.rs: the builder of the paginated event query, the filters and
    the validation of its parameters. *)

From S2P Require Import Prelude Text Model.

Module QueryBuilder.

Inductive FilterOp : Type :=
| Equals | NotEquals | GreaterThan | LessThan | GreaterThanOrEqual | LessThanOrEqual | In | Like.

Definition as_sql (op : FilterOp) : string :=
  match op with
  | Equals => "=" | NotEquals => "!=" | GreaterThan => ">" | LessThan => "<"
  | GreaterThanOrEqual => ">=" | LessThanOrEqual => "<=" | In => "IN" | Like => "LIKE"
  end.

Record EventFilters : Type := mkFilters {
  contract_id : option string;
  from_ledger : option Z;
  to_ledger : option Z;
  event_type : option string;
  tenant_id : option string;
}.

Definition no_filters : EventFilters := mkFilters None None None None None.

(** ** Pages *)

Record Pagination : Type := mkPagination { page : Z; p_limit : Z }.

Definition MAX_LIMIT : Z := 1000.
Definition DEFAULT_LIMIT : Z := 20.
Definition default_pagination : Pagination := mkPagination 1 DEFAULT_LIMIT.

Definition offset (p : Pagination) : Z := Z.min (u_max 64) (sat_sub_u (page p) 1 * p_limit p).
Definition limit (p : Pagination) : Z := Z.min (p_limit p) MAX_LIMIT.

(** ** Validation *)

Definition validate_ledger_range (from to : option Z) : result () AppError :=
  match from, to with
  | Some from, Some to =>
      if to <? from then
        Err (ValidationWithDetails "from_ledger must be ≤ to_ledger"
          [mkDetail "/from_ledger" "properties/from_ledger/maximum"
             ("from_ledger (" +:+ show_i from +:+ ") must not exceed to_ledger (" +:+ show_i to +:+ ")")%string])
      else Ok ()
  | _, _ => Ok ()
  end.

Definition validate_pagination (page limit : Z) : result () AppError :=
  let errors :=
    (if page =? 0 then [mkDetail "/page" "properties/page/minimum" "page must be ≥ 1"] else []) ++
    (if limit =? 0 then [mkDetail "/limit" "properties/limit/minimum" "limit must be ≥ 1"] else []) ++
    (if MAX_LIMIT <? limit then
       [mkDetail "/limit" ("properties/limit/maximum (" +:+ show_u MAX_LIMIT +:+ ")")%string ("limit must be ≤ " +:+ show_u MAX_LIMIT)%string]
     else []) in
  match errors with [] => Ok () | _ => Err (ValidationWithDetails "invalid pagination parameters" errors) end.

Definition VALID_EVENT_TYPES : list string := ["contract"; "diagnostic"; "system"]%string.

Definition validate_event_type (t : string) : result () AppError :=
  if existsb (λ v, String.eqb (to_lowercase v) (to_lowercase t)) VALID_EVENT_TYPES then Ok ()
  else Err (ValidationWithDetails ("unknown event_type '" +:+ t +:+ "'")%string
         [mkDetail "/event_type" "properties/event_type/enum" ("must be one of: " +:+ join ", " VALID_EVENT_TYPES)%string]).

(** ** The builder *)

Inductive SortDirection : Type := Asc | Desc.

Record EventQueryBuilder : Type := mkBuilder {
  filters : EventFilters;
  pagination : Pagination;
  sort_column : string;
  sort_direction : SortDirection;
  param_idx : Z;
  where_clauses : list string;
}.

Definition BASE_COLS : string := "id, contract_id, event_type, tx_hash, ledger, timestamp, event_data, created_at".

Definition new_builder : EventQueryBuilder := mkBuilder no_filters default_pagination "ledger" Desc 0 [].

Definition with_where_clause (clause : string) (b : EventQueryBuilder) : EventQueryBuilder :=
  mkBuilder (filters b) (pagination b) (sort_column b) (sort_direction b) (param_idx b) (where_clauses b ++ [clause]).

Definition with_filters (f : EventFilters) (b : EventQueryBuilder) : EventQueryBuilder :=
  mkBuilder f (pagination b) (sort_column b) (sort_direction b) (param_idx b) (where_clauses b).

Definition paginate (page limit : Z) (b : EventQueryBuilder) : EventQueryBuilder :=
  mkBuilder (filters b) (mkPagination page (Z.min limit MAX_LIMIT)) (sort_column b) (sort_direction b) (param_idx b) (where_clauses b).

Definition sort_columns : list string := ["ledger"; "timestamp"; "created_at"; "id"]%string.

Definition sort_by_column (col : string) (d : SortDirection) (b : EventQueryBuilder) : EventQueryBuilder :=
  if existsb (String.eqb col) sort_columns then mkBuilder (filters b) (pagination b) col d (param_idx b) (where_clauses b) else b.

(** [next_param]: the placeholder and the index after it. *)
Definition next_param (i : Z) : string * Z := (("$" +:+ show_u (i + 1))%string, i + 1).

(** A clause for a filter that is set. *)
Definition push_clause {A} (o : option A) (before after : string) (s : list string * Z) : list string * Z :=
  match o with
  | Some _ => let '(p, i) := next_param s.2 in (s.1 ++ [(before +:+ p +:+ after)%string], i)
  | None => s
  end.

Definition build_where_clauses (b : EventQueryBuilder) : string * Z :=
  let f := filters b in
  let s := push_clause (tenant_id f) "tenant_id = " "" ([], param_idx b) in
  let s := push_clause (contract_id f) "contract_id = " "" s in
  let s := push_clause (event_type f) "LOWER(event_type) = LOWER(" ")" s in
  let s := push_clause (from_ledger f) "ledger >= " "" s in
  let s := push_clause (to_ledger f) "ledger <= " "" s in
  let clauses := s.1 ++ where_clauses b in
  (match clauses with [] => "" | _ => "WHERE " +:+ join " AND " clauses end, s.2)%string.

Definition build (b : EventQueryBuilder) : string * string :=
  let '(where_clause, i) := build_where_clauses b in
  let direction := match sort_direction b with Asc => "ASC" | Desc => "DESC" end in
  let order := "ORDER BY " +:+ sort_column b +:+ " " +:+ direction +:+ ", id " +:+ direction in
  let '(limit_param, i) := next_param i in
  let '(offset_param, _) := next_param i in
  ("SELECT " +:+ BASE_COLS +:+ " FROM events " +:+ where_clause +:+ " " +:+ order +:+ " LIMIT " +:+ limit_param +:+ " OFFSET " +:+ offset_param,
   "SELECT COUNT(*) FROM events " +:+ where_clause)%string.

Definition is_set {A} (o : option A) : Z := match o with Some _ => 1 | None => 0 end.

Definition where_param_count (b : EventQueryBuilder) : Z :=
  let f := filters b in is_set (tenant_id f) + is_set (contract_id f) + is_set (event_type f) + is_set (from_ledger f) + is_set (to_ledger f).

Definition build_sql (b : EventQueryBuilder) : string := (build b).1.
Definition bind_count (b : EventQueryBuilder) : Z := where_param_count b + 2.
Definition build_pair (b : EventQueryBuilder) : string * string := build b.

Definition add_complex_filter (column : string) (op : FilterOp) (value : option string) (b : EventQueryBuilder) : EventQueryBuilder :=
  let '(param_str, i) := next_param (param_idx b) in
  let clause := match op, value with
                | In, Some value => column +:+ " IN (" +:+ value +:+ ")"
                | op, _ => column +:+ " " +:+ as_sql op +:+ " " +:+ param_str
                end%string in
  mkBuilder (filters b) (pagination b) (sort_column b) (sort_direction b) i (where_clauses b ++ [clause]).

(** ** Pages partition the rows *)

Lemma validate_pagination_spec page limit :
  0 ≤ page → 0 ≤ limit → (is_ok (validate_pagination page limit) = true ↔ 1 ≤ page ∧ 1 ≤ limit ≤ MAX_LIMIT).
Proof.
  intros Hp Hl. unfold validate_pagination, MAX_LIMIT.
  destruct (Z.eqb_spec page 0), (Z.eqb_spec limit 0), (Z.ltb_spec 1000 limit); simpl; split; intros; (done || lia).
Qed.

(** A page ends where the next one begins, until the offset overflows. *)
Lemma pages_adjacent n size b :
  1 ≤ n → 0 ≤ size → n * Z.min size MAX_LIMIT ≤ u_max 64 →
  let p := pagination (paginate n size b) in
  let next := pagination (paginate (n + 1) size b) in
  offset next = offset p + limit p ∧ limit p ≤ MAX_LIMIT.
Proof.
  intros Hp Hl Hm. unfold offset, limit, sat_sub_u, paginate. cbn [pagination page p_limit]. unfold MAX_LIMIT in *.
  rewrite !Z.max_r by lia. replace (n + 1 - 1) with n by lia.
  assert (0 ≤ Z.min size 1000 ≤ 1000) as Hm' by lia. revert Hm Hm'. generalize (Z.min size 1000). intros m Hm Hm'.
  assert (n * m = (n - 1) * m + m) as E by ring. assert (0 ≤ (n - 1) * m) by nia. revert E Hm H. generalize (n * m) ((n - 1) * m). lia.
Qed.

(** ** Placeholders *)

(** The numbers of the placeholders of a text, in order: a dollar and the digits after it. *)
Fixpoint placeholders_from (current : option Z) (s : string) : list Z :=
  match s with
  | EmptyString => option_list current
  | String a r =>
      match current, digit_val a with
      | Some n, Some d => placeholders_from (Some (n * 10 + d)) r
      | _, _ => option_list current ++ placeholders_from (if Ascii.eqb a "$"%char then Some 0 else None) r
      end
  end.
Definition placeholders (s : string) : list Z := placeholders_from None s.

Definition numbers (from n : Z) : list Z := map (λ i, from + Z.of_nat i) (seq 0 (Z.to_nat n)).

(** Builders without clauses of the caller's. *)
Inductive built : EventQueryBuilder → Prop :=
| built_new : built new_builder
| built_filters f b : built b → built (with_filters f b)
| built_paginate page limit b : built b → built (paginate page limit b)
| built_sort col d b : built b → built (sort_by_column col d b).

Lemma built_spec b : built b → sort_column b ∈ sort_columns ∧ param_idx b = 0 ∧ where_clauses b = [].
Proof.
  induction 1 as [|f b _ IH|page limit b _ IH|col d b _ IH]; [by split_and!; [left| |]|done..|].
  unfold sort_by_column. destruct (existsb _ _) eqn:E; [|done]. destruct IH as (_ & ? & ?). split_and!; [|done|done].
  apply existsb_exists in E as (x & Hx & ->%String.eqb_eq). by apply list_elem_of_In.
Qed.

(** The query of a builder numbers its placeholders from one, filters first, then
    the limit and the offset: as many as it says, and the count query has those of
    the filters; the column it sorts by is one of the four allowed. *)
Theorem build_numbers_params b :
  built b →
  placeholders (build_sql b) = numbers 1 (bind_count b) ∧
  placeholders (build b).2 = numbers 1 (where_param_count b) ∧
  sort_column b ∈ sort_columns.
Proof.
  intros (Hs & Hi & Hw)%built_spec. destruct b as [f p col d i w]. cbn [sort_column param_idx where_clauses] in *. subst i w.
  split_and!; [| |done].
  - unfold build_sql, bind_count, where_param_count, build, build_where_clauses. cbn [filters param_idx where_clauses sort_column sort_direction].
    destruct f as [[] [] [] [] []], d; repeat (apply elem_of_cons in Hs as [->|Hs]; [vm_compute; reflexivity|]); by apply elem_of_nil in Hs.
  - unfold where_param_count, build, build_where_clauses. cbn [filters param_idx where_clauses sort_column sort_direction].
    destruct f as [[] [] [] [] []]; vm_compute; reflexivity.
Qed.

(** A complex filter takes the first number, and the count of the binds does not
    know of it: the filters' numbers are shifted, and one number more is used than
    is said to be. *)
Lemma complex_filter_shifts f :
  let b := add_complex_filter "timestamp" GreaterThan None (with_filters f new_builder) in
  placeholders (build_sql b) = numbers 2 (where_param_count b) ++ [1; where_param_count b + 2; where_param_count b + 3] ∧
  bind_count b = where_param_count b + 2.
Proof. destruct f as [[] [] [] [] []]; vm_compute; split; reflexivity. Qed.

(** One with a list leaves its number out. *)
Lemma complex_in_skips f :
  let b := add_complex_filter "ledger" In (Some "1, 2"%string) (with_filters f new_builder) in
  placeholders (build_sql b) = numbers 2 (bind_count b).
Proof. destruct f as [[] [] [] [] []]; vm_compute; reflexivity. Qed.

Lemma build_numbers_params_witness :
  let b := sort_by_column "id; DROP TABLE events" Asc (paginate 3 5000 (with_filters (mkFilters (Some "C"%string) (Some 1) None None None) new_builder)) in
  placeholders (build_sql b) = [1; 2; 3; 4] ∧ sort_column b = "ledger"%string.
Proof.
  intros b. split; [|reflexivity].
  assert (built b) as Hb by (subst b; repeat constructor).
  assert (numbers 1 (bind_count b) = [1; 2; 3; 4]) as E by (vm_compute; reflexivity). rewrite <- E. clear E.
  destruct (build_numbers_params b Hb) as (H & _). exact H.
Defined.

End QueryBuilder.
