(* ===== verification/Config.v ===== *)
(** config/mod.rs: the settings of the service, read from the environment and
    an optional TOML file.

    [Config] has the 177 fields of the struct, in eight records of consecutive
    fields; [default_config] is its [Default], and [read_env] reads it, field by
    field, with the messages for what could not be parsed in the order of the
    code.  The URLs of the RPC servers are checked by [validate_rpc_url_named].
    ConfigBuild has the checks of a whole configuration and its builder.

    The environment, the files, the toml and url crates, the number parser and
    printer for [f64], and [f64::ln] are the record [Env]. *)

From S2P Require Import Prelude Text F64 Model RetryPolicy.

Module Config.

(** ** What is outside *)

Record Env : Type := mkEnv {
  (** [env::var(key).ok()] *)
  var : string → option string;
  (** [std::fs::read_to_string], an error as its text *)
  read_to_string : string → result string string;
  (** a TOML table, with what [Value::as_str] gives for each of its values *)
  parse_toml : string → option (gmap string (option string));
  (** the url crate: [Url::parse], [scheme], [host_str], the URL with an empty
      user name and without password, and its text *)
  Url : Type;
  parse_url : string → result Url string;
  url_scheme : Url → string;
  host_str : Url → option string;
  without_credentials : Url → Url;
  url_text : Url → string;
  (** [str::parse::<f64>], [{}] of an [f64], and [f64::ln] *)
  parse_f64 : string → option f64;
  show_f64 : f64 → string;
  ln : f64 → f64;
  (** [str::parse::<axum::http::HeaderValue>] succeeds *)
  is_header_value : string → bool;
  (** [serde_json::from_str] of a map of strings *)
  parse_string_map : string → option (gmap string string);
}.

(** ** Errors are collected *)

(** A computation with [errors: &mut Vec<String>], to which it only pushes. *)
Definition M (A : Type) : Type := A * list string.
#[export] Instance M_ret : MRet M := λ _ x, (x, []).
#[export] Instance M_bind : MBind M := λ _ _ k m, let r := k m.1 in (r.1, m.2 ++ r.2).
#[export] Instance M_fmap : FMap M := λ _ _ f m, (f m.1, m.2).
(** [errors.push(e); x] *)
Definition push_error {A} (e : string) (x : A) : M A := (x, [e]).

(** ** Text *)

Definition to_ascii_lowercase (s : string) : string := to_lowercase s.

(** [{:?}] of a string. *)
Definition debug (s : string) : string :=
  String "034" (Errors.escape_all s +:+ String "034" EmptyString).

Definition non_empty (s : string) : bool := negb (is_empty s).
Definition filter_option {A} (p : A → bool) (o : option A) : option A :=
  x ← o; if p x then Some x else None.

(** [.split(sep).map(|s| s.trim().to_string()).filter(|s| !s.is_empty()).collect()] *)
Definition split_trimmed (sep : ascii) (s : string) : list string :=
  List.filter non_empty (map trim (split_on sep s)).

Definition one_of (l : list string) (s : string) : bool := existsb (String.eqb s) l.

(** [matches!(v.to_ascii_lowercase().as_str(), "true" | "1" | "yes" | "y")], and
    the same without ["y"]. *)
Definition is_true (v : string) : bool := one_of ["true"; "1"; "yes"; "y"] (to_ascii_lowercase v).
Definition is_true_no_y (v : string) : bool := one_of ["true"; "1"; "yes"] (to_ascii_lowercase v).

(** ** Roles and environments *)

Inductive Role : Type := All | Api | Indexer.
#[export] Instance Role_eq_dec : EqDecision Role.
Proof. solve_decision. Defined.

Definition role_from_str (s : string) : Role :=
  let s := to_ascii_lowercase (trim s) in
  if String.eqb s "api" then Api else if String.eqb s "indexer" then Indexer else All.

Definition runs_indexer (r : Role) : bool := match r with All | Indexer => true | Api => false end.
Definition runs_http_server (_ : Role) : bool := true.
Definition runs_full_api (r : Role) : bool := match r with All | Api => true | Indexer => false end.

Definition environment_from_str (s : string) : Environment :=
  let s := to_ascii_lowercase s in
  if one_of ["production"; "prod"] s then Production
  else if one_of ["staging"; "stage"] s then Staging else Development.

(** ** Shared state of the indexer and the handlers *)

Record IndexerState : Type := mkIndexerState {
  current_ledger : Z;
  latest_ledger : Z;
  is_active_indexer : bool;
  is_paused : bool;
  started_at : Z;
}.

(** The clock is in seconds since the epoch. *)
Definition new_indexer_state (now : Z) : IndexerState := mkIndexerState 0 0 false false now.
Definition uptime_secs (now : Z) (s : IndexerState) : Z := sat_sub_u now (started_at s).

Record HealthState : Type := mkHealthState {
  last_indexer_poll : Z;
  stall_timeout_secs : Z;
}.

Definition new_health_state (timeout : Z) : HealthState := mkHealthState 0 timeout.
Definition update_last_poll (now : Z) (h : HealthState) : HealthState := mkHealthState now (stall_timeout_secs h).
Definition is_indexer_stalled (now : Z) (h : HealthState) : option Z :=
  if last_indexer_poll h =? 0 then Some 0
  else
    let elapsed := sat_sub_u now (last_indexer_poll h) in
    if stall_timeout_secs h <? elapsed then Some elapsed else None.

(** ** The settings *)

(** [[u8; 32]], [SecretString] *)
Definition Key : Type := list Z.
Definition SecretString : Type := string.

Record ServerConfig : Type := mkServerConfig {
  database_url : string;
  database_replica_url : option string;
  stellar_rpc_url : string;
  stellar_rpc_fallback_urls : list string;
  rpc_headers : list (string * string);
  start_ledger : Z;
  start_ledger_fallback : bool;
  port : Z;
  api_keys : list SecretString;
  admin_api_keys : list SecretString;
  db_max_connections : Z;
  db_min_connections : Z;
  db_idle_timeout_secs : Z;
  db_max_lifetime_secs : Z;
  db_test_before_acquire : bool;
  behind_proxy : bool;
  rpc_connect_timeout_secs : Z;
  rpc_request_timeout_secs : Z;
  allowed_origins : list string;
  rate_limit_per_minute : Z;
  subscription_rate_limit_per_minute : Z;
  rate_limit_key_per_minute : option Z;
  rate_limit_key_per_hour : option Z;
  rate_limit_key_per_day : option Z;
  rate_limit_key_per_month : option Z;
  ip_denylist : list string;
  ip_allowlist : list string;
}.

Record IndexerConfig : Type := mkIndexerConfig {
  indexer_lag_warn_threshold : Z;
  indexer_stall_timeout_secs : Z;
  db_statement_timeout_ms : Z;
  indexer_poll_interval_ms : Z;
  indexer_error_backoff_ms : Z;
  sse_keepalive_interval_ms : Z;
  sse_max_connections : Z;
  sse_drain_timeout_secs : Z;
  sse_multi_max_contract_ids : Z;
  environment : Environment;
  max_body_size_bytes : Z;
  log_sample_rate : Z;
  webhook_url : option string;
  webhook_secret : option string;
  webhook_contract_filter : list string;
  webhook_rate_limit_per_minute : option Z;
  webhook_rate_limit_per_hour : option Z;
  webhook_require_https : bool;
  indexer_event_types : list string;
  event_data_encryption_key : option Key;
  event_data_encryption_key_old : option Key;
  integration_encryption_key : option Key;
  integration_encryption_key_old : option Key;
  index_check_interval_hours : Z;
  health_check_timeout_ms : Z;
}.

Record IngestConfig : Type := mkIngestConfig {
  tls_cert_file : option string;
  tls_key_file : option string;
  bloom_filter_fp_rate : f64;
  bloom_filter_capacity : Z;
  bloom_expected_items : Z;
  bloom_false_positive_rate : f64;
  enable_content_dedup : bool;
  dedup_window_secs : Z;
  kinesis_stream_name : option string;
  aws_region : option string;
  sqs_queue_url : option string;
  sqs_dlq_url : option string;
  sqs_batch_size : Z;
  event_hubs_connection_string : option string;
  event_hub_name : option string;
  event_hubs_partition_strategy : string;
  pubsub_project_id : option string;
  pubsub_topic_id : option string;
  pubsub_enable_message_ordering : bool;
  max_event_data_bytes : Z;
  export_max_rows : Z;
  contract_count_cache_size : Z;
  contract_count_cache_ttl_secs : Z;
  indexer_lock_retry_secs : Z;
  multi_tenant : bool;
  tenant_rate_limit_per_minute : option Z;
  tenant_contract_filter : gmap string (list string);
  indexer_tenant_id : option string;
}.

Record EmailConfig : Type := mkEmailConfig {
  email_smtp_host : option string;
  email_smtp_port : Z;
  email_smtp_user : option string;
  email_smtp_password : option SecretString;
  email_from : option string;
  email_to : list string;
  email_contract_filter : list string;
  email_schedule : string;
  email_daily_digest_hour : Z;
  email_cron : option string;
  email_quiet_hours_start : option string;
  email_quiet_hours_end : option string;
  email_public_base_url : option string;
}.

Record SmsConfig : Type := mkSmsConfig {
  twilio_account_sid : option string;
  twilio_auth_token : option SecretString;
  twilio_from_number : option string;
  sms_to_numbers : list string;
  sms_contract_filter : list string;
  webhook_retry_policy : RetryPolicy.RetryPolicy;
  email_retry_policy : RetryPolicy.RetryPolicy;
  sms_retry_policy : RetryPolicy.RetryPolicy;
}.

Record StoreConfig : Type := mkStoreConfig {
  redis_url : option string;
  redis_stream_key : option string;
  redis_buffer_max_size : Z;
  stats_refresh_interval_secs : Z;
  retention_days : Z;
  pruning_interval_hours : Z;
  sse_replay_limit : Z;
  sse_max_connections_per_ip : Z;
  sse_max_lag_before_disconnect : Z;
  indexer_ignore_checkpoint : bool;
  rpc_max_events_per_page : Z;
  max_ledger_range : Z;
  slow_query_threshold_ms : Z;
  event_transform_script : option string;
  event_transform_timeout_ms : Z;
  webhook_notification_format : string;
  webhook_message_template : option string;
  pagerduty_routing_key : option string;
  pagerduty_service_name : string;
  pagerduty_contract_filter : list string;
  pagerduty_event_type_filter : list string;
  pagerduty_severity_mapping : gmap string string;
  pagerduty_auto_resolve : bool;
  pagerduty_auto_resolve_threshold_minutes : Z;
  stats_cache_ttl_secs : Z;
}.

Record AlertConfig : Type := mkAlertConfig {
  sse_shutdown_grace_period_ms : Z;
  email_max_contracts_in_digest : Z;
  notification_default_priority : string;
  notification_priority_rule_path : option string;
  notification_priority_rule_value : option string;
  notification_priority_rule_priority : option string;
  escalation_primary_channel : option string;
  escalation_channel : option string;
  escalation_delay_minutes : Z;
  oncall_provider : option string;
  oncall_pagerduty_api_key : option SecretString;
  oncall_schedule_id : option string;
  oncall_schedule_cache_ttl_secs : Z;
  event_compression_enabled : bool;
  event_compression_migration_batch_size : Z;
  chain_id : string;
  additional_chain_ids : list string;
  ledger_hash_tracking_enabled : bool;
  ledger_hash_validation_depth : Z;
}.

Record ServiceConfig : Type := mkServiceConfig {
  abi_cache_ttl_secs : Z;
  abi_cache_max_entries : Z;
  sse_ring_buffer_capacity : Z;
  query_cache_ttl_secs : Z;
  query_cache_max_capacity : Z;
  enable_push_preload : bool;
  run_migrations_on_startup : bool;
  serve_dashboard : bool;
  dashboard_dir : string;
  dashboard_connect_src : list string;
  kafka_brokers : option string;
  kafka_topic : option string;
  kafka_batch_size : Z;
  kafka_linger_ms : Z;
  saas_enabled : bool;
  billing_provider : option string;
  billing_api_key : option string;
  default_trial_days : Z;
  saas_public_base_url : option string;
  ml_anomaly_detection_enabled : bool;
  ml_pattern_recognition_enabled : bool;
  ml_intelligent_filtering_enabled : bool;
  ml_model_training_interval_hours : Z;
  ml_min_training_samples : Z;
  ml_confidence_threshold : f64;
  ml_auto_retrain : bool;
  role : Role;
  derived_metrics_config_path : option string;
  derived_metrics_inline : option string;
  derived_metrics_interval_secs : Z;
  correlation_window_secs : Z;
  incident_detector_interval_secs : Z;
}.

Record Config : Type := mkConfig {
  server :> ServerConfig;
  indexing :> IndexerConfig;
  ingest :> IngestConfig;
  email :> EmailConfig;
  sms :> SmsConfig;
  store :> StoreConfig;
  alerts :> AlertConfig;
  services :> ServiceConfig;
}.

(** Constants of the modules the settings are for. *)
Definition DEFAULT_ABI_CACHE_TTL_SECS : Z := 86400.
Definition ABI_CACHE_MAX_ENTRIES : Z := 10000.
Definition DEFAULT_RING_BUFFER_CAPACITY : Z := 10000.
Definition DEFAULT_TTL_SECS : Z := 300.
Definition DEFAULT_MAX_CAPACITY : Z := 1000.

Definition default_severity_mapping : gmap string string :=
  <["system" := "info"]> (<["diagnostic" := "warning"]> (<["contract" := "error"]> ∅)).

Definition default_server : ServerConfig := {|
  database_url := "postgres://localhost/soroban_pulse";
  database_replica_url := None;
  stellar_rpc_url := "https://soroban-testnet.stellar.org";
  stellar_rpc_fallback_urls := [];
  rpc_headers := [];
  start_ledger := 0;
  start_ledger_fallback := false;
  port := 3000;
  api_keys := [];
  admin_api_keys := [];
  db_max_connections := 10;
  db_min_connections := 2;
  db_idle_timeout_secs := 600;
  db_max_lifetime_secs := 1800;
  db_test_before_acquire := true;
  behind_proxy := false;
  rpc_connect_timeout_secs := 5;
  rpc_request_timeout_secs := 30;
  allowed_origins := ["*"];
  rate_limit_per_minute := 60;
  subscription_rate_limit_per_minute := 5;
  rate_limit_key_per_minute := None;
  rate_limit_key_per_hour := None;
  rate_limit_key_per_day := None;
  rate_limit_key_per_month := None;
  ip_denylist := [];
  ip_allowlist := []
|}.

Definition default_indexing : IndexerConfig := {|
  indexer_lag_warn_threshold := 100;
  indexer_stall_timeout_secs := 60;
  db_statement_timeout_ms := 5000;
  indexer_poll_interval_ms := 5000;
  indexer_error_backoff_ms := 10000;
  sse_keepalive_interval_ms := 15000;
  sse_max_connections := 1000;
  sse_drain_timeout_secs := 5;
  sse_multi_max_contract_ids := 100;
  environment := Development;
  max_body_size_bytes := 1024 * 1024;
  log_sample_rate := 1;
  webhook_url := None;
  webhook_secret := None;
  webhook_contract_filter := [];
  webhook_rate_limit_per_minute := None;
  webhook_rate_limit_per_hour := None;
  webhook_require_https := false;
  indexer_event_types := [];
  event_data_encryption_key := None;
  event_data_encryption_key_old := None;
  integration_encryption_key := None;
  integration_encryption_key_old := None;
  index_check_interval_hours := 24;
  health_check_timeout_ms := 2000
|}.

Definition default_ingest : IngestConfig := {|
  tls_cert_file := None;
  tls_key_file := None;
  bloom_filter_fp_rate := F64.lit 1 1000;
  bloom_filter_capacity := 1000000;
  bloom_expected_items := 0;
  bloom_false_positive_rate := F64.lit 1 1000;
  enable_content_dedup := false;
  dedup_window_secs := 3600;
  kinesis_stream_name := None;
  aws_region := None;
  sqs_queue_url := None;
  sqs_dlq_url := None;
  sqs_batch_size := 10;
  event_hubs_connection_string := None;
  event_hub_name := None;
  event_hubs_partition_strategy := "contract_id";
  pubsub_project_id := None;
  pubsub_topic_id := None;
  pubsub_enable_message_ordering := true;
  max_event_data_bytes := 65536;
  export_max_rows := 10000;
  contract_count_cache_size := 1000;
  contract_count_cache_ttl_secs := 30;
  indexer_lock_retry_secs := 30;
  multi_tenant := false;
  tenant_rate_limit_per_minute := None;
  tenant_contract_filter := ∅;
  indexer_tenant_id := None
|}.

Definition default_email : EmailConfig := {|
  email_smtp_host := None;
  email_smtp_port := 587;
  email_smtp_user := None;
  email_smtp_password := None;
  email_from := None;
  email_to := [];
  email_contract_filter := [];
  email_schedule := "immediate";
  email_daily_digest_hour := 9;
  email_cron := None;
  email_quiet_hours_start := None;
  email_quiet_hours_end := None;
  email_public_base_url := None
|}.

Definition default_sms : SmsConfig := {|
  twilio_account_sid := None;
  twilio_auth_token := None;
  twilio_from_number := None;
  sms_to_numbers := [];
  sms_contract_filter := [];
  webhook_retry_policy := RetryPolicy.webhook_default;
  email_retry_policy := RetryPolicy.email_default;
  sms_retry_policy := RetryPolicy.sms_default
|}.

Definition default_store : StoreConfig := {|
  redis_url := None;
  redis_stream_key := None;
  redis_buffer_max_size := 10000;
  stats_refresh_interval_secs := 3600;
  retention_days := 90;
  pruning_interval_hours := 24;
  sse_replay_limit := 1000;
  sse_max_connections_per_ip := 5;
  sse_max_lag_before_disconnect := 0;
  indexer_ignore_checkpoint := false;
  rpc_max_events_per_page := 200;
  max_ledger_range := 100000;
  slow_query_threshold_ms := 1000;
  event_transform_script := None;
  event_transform_timeout_ms := 100;
  webhook_notification_format := "raw";
  webhook_message_template := None;
  pagerduty_routing_key := None;
  pagerduty_service_name := "Soroban Pulse";
  pagerduty_contract_filter := [];
  pagerduty_event_type_filter := [];
  pagerduty_severity_mapping := default_severity_mapping;
  pagerduty_auto_resolve := true;
  pagerduty_auto_resolve_threshold_minutes := 30;
  stats_cache_ttl_secs := 30
|}.

Definition default_alerts : AlertConfig := {|
  sse_shutdown_grace_period_ms := 200;
  email_max_contracts_in_digest := 20;
  notification_default_priority := "medium";
  notification_priority_rule_path := None;
  notification_priority_rule_value := None;
  notification_priority_rule_priority := None;
  escalation_primary_channel := None;
  escalation_channel := None;
  escalation_delay_minutes := 30;
  oncall_provider := None;
  oncall_pagerduty_api_key := None;
  oncall_schedule_id := None;
  oncall_schedule_cache_ttl_secs := 300;
  event_compression_enabled := false;
  event_compression_migration_batch_size := 500;
  chain_id := "mainnet";
  additional_chain_ids := [];
  ledger_hash_tracking_enabled := false;
  ledger_hash_validation_depth := 1000
|}.

Definition default_services : ServiceConfig := {|
  abi_cache_ttl_secs := DEFAULT_ABI_CACHE_TTL_SECS;
  abi_cache_max_entries := ABI_CACHE_MAX_ENTRIES;
  sse_ring_buffer_capacity := DEFAULT_RING_BUFFER_CAPACITY;
  query_cache_ttl_secs := DEFAULT_TTL_SECS;
  query_cache_max_capacity := DEFAULT_MAX_CAPACITY;
  enable_push_preload := false;
  run_migrations_on_startup := true;
  serve_dashboard := false;
  dashboard_dir := "web/dist";
  dashboard_connect_src := [];
  kafka_brokers := None;
  kafka_topic := None;
  kafka_batch_size := 16384;
  kafka_linger_ms := 100;
  saas_enabled := false;
  billing_provider := None;
  billing_api_key := None;
  default_trial_days := 14;
  saas_public_base_url := None;
  ml_anomaly_detection_enabled := false;
  ml_pattern_recognition_enabled := false;
  ml_intelligent_filtering_enabled := false;
  ml_model_training_interval_hours := 24;
  ml_min_training_samples := 100;
  ml_confidence_threshold := F64.lit 8 10;
  ml_auto_retrain := true;
  role := All;
  derived_metrics_config_path := None;
  derived_metrics_inline := None;
  derived_metrics_interval_secs := 60;
  correlation_window_secs := 300;
  incident_detector_interval_secs := 30
|}.

(** [Config::default] *)
Definition default_config : Config :=
  mkConfig default_server default_indexing default_ingest default_email default_sms default_store default_alerts default_services.

(** ** Reading a variable *)

Section Read.
Variable env : Env.

Definition Table : Type := gmap string (option string).

(** A table in every case: nothing here is an error. *)
Definition load_config_file : Table :=
  match var env "CONFIG_FILE" with
  | Some p =>
      if is_empty p then ∅
      else match read_to_string env p with
           | Ok contents => default ∅ (parse_toml env contents)
           | Err _ => ∅
           end
  | None => ∅
  end.

(** The environment wins; an empty variable is none; a value of the table that is
    not a string is none either. *)
Definition env_or_file (key : string) (file : Table) : option string :=
  match filter_option non_empty (var env key) with
  | Some v => Some v
  | None => v ← file !! key; v
  end.

Definition env_or_file_or (key : string) (file : Table) (dflt : string) : string := default dflt (env_or_file key file).

Definition or_else {A} (x y : option A) : option A := match x with Some _ => x | None => y end.

(** [Option::and_then] with a function that collects errors. *)
Definition and_then {A B} (o : option A) (f : A → M (option B)) : M (option B) :=
  match o with Some x => f x | None => mret None end.

(** ** Parsing a value *)

Definition parse_int {A} (parse : string → option A) (var raw example : string) : M (option A) :=
  match parse raw with
  | Some v => mret (Some v)
  | None => push_error ("  " +:+ var +:+ "=" +:+ debug raw +:+ " is not a valid integer. Expected a positive integer (e.g., " +:+ example +:+ ").") None
  end.

Definition parse_bool (var raw : string) : M (option bool) :=
  let s := to_ascii_lowercase raw in
  if one_of ["true"; "1"; "yes"; "y"] s then mret (Some true)
  else if one_of ["false"; "0"; "no"; "n"] s then mret (Some false)
  else push_error ("  " +:+ var +:+ "=" +:+ debug raw +:+ " is not a valid boolean. Expected true or false (e.g., true).") None.

Definition parse_int_range (parse : string → option Z) (show : Z → string) (var raw : string) (min max : Z) (example : string) : M (option Z) :=
  let expected := "Expected a value between " +:+ show min +:+ " and " +:+ show max +:+ " (e.g., " +:+ example +:+ ")." in
  match parse raw with
  | Some v =>
      if (min <=? v) && (v <=? max) then mret (Some v)
      else push_error ("  " +:+ var +:+ "=" +:+ show v +:+ " is out of range. " +:+ expected) None
  | None => push_error ("  " +:+ var +:+ "=" +:+ debug raw +:+ " is not a valid integer. " +:+ expected) None
  end.

(** [u8::from_str_radix(hex, 16)]: a plus sign is allowed. *)
Definition hex_val (a : ascii) : option Z :=
  let n := Z.of_nat (nat_of_ascii a) in
  if (48 <=? n) && (n <=? 57) then Some (n - 48)
  else if (97 <=? n) && (n <=? 102) then Some (n - 87)
  else if (65 <=? n) && (n <=? 70) then Some (n - 55) else None.

Definition hex_byte (a b : ascii) : option Z :=
  if Ascii.eqb a "+" then hex_val b else x ← hex_val a; y ← hex_val b; Some (16 * x + y).

(** [std::str::from_utf8] of two bytes: two ASCII characters or one of two bytes. *)
Definition is_utf8 (a b : ascii) : bool :=
  let x := nat_of_ascii a in let y := nat_of_ascii b in
  ((x <? 128) && (y <? 128) || (194 <=? x) && (x <=? 223) && (128 <=? y) && (y <=? 191))%nat.

(** The loop over [chunks(2)], at chunk [i]. *)
Fixpoint hex_key (var : string) (i : Z) (s : string) : M (option Key) :=
  match s with
  | String a (String b r) =>
      if is_utf8 a b then
        match hex_byte a b with
        | Some x => k ← hex_key var (i + 1) r; mret (cons x <$> k)
        | None =>
            push_error ("  " +:+ var +:+ " contains non-hex character at byte " +:+ show_u i +:+ " (" +:+
                        debug (String a (String b EmptyString)) +:+ "). Expected a 64-character lowercase hex string.") None
        end
      else push_error ("  " +:+ var +:+ " contains invalid UTF-8 at byte " +:+ show_u i +:+ ".") None
  | _ => mret (Some [])
  end.

Definition parse_hex_key_checked (var value : string) : M (option Key) :=
  if negb (String.length value =? 64)%nat then
    push_error ("  " +:+ var +:+ " must be exactly 64 hex characters (32 bytes), got " +:+ show_u (Z.of_nat (String.length value)) +:+ " chars.") None
  else hex_key var 0 value.

Fixpoint rpc_headers_of (entries : list string) : M (list (string * string)) :=
  match entries with
  | [] => mret []
  | entry :: rest =>
      match split_once ":" entry with
      | Some (name, value) =>
          let name := trim name in
          let value := trim value in
          if is_empty name then
            _ ← push_error ("  STELLAR_RPC_HEADERS: header name is empty in " +:+ debug entry +:+
                            ". Expected 'Name: Value' format (e.g., X-API-Key: mykey).") ();
            rpc_headers_of rest
          else headers ← rpc_headers_of rest; mret ((name, value) :: headers)
      | None =>
          _ ← push_error ("  STELLAR_RPC_HEADERS: invalid entry " +:+ debug entry +:+
                          ". Expected 'Name: Value' format (e.g., X-API-Key: mykey).") ();
          rpc_headers_of rest
      end
  end.

Definition parse_rpc_headers_checked : M (list (string * string)) :=
  rpc_headers_of (split_trimmed ";" (default "" (var env "STELLAR_RPC_HEADERS"))).

Fixpoint event_types_of (l : list string) : M (list string) :=
  match l with
  | [] => mret []
  | t :: rest =>
      if one_of ["contract"; "diagnostic"; "system"] t then types ← event_types_of rest; mret (t :: types)
      else
        _ ← push_error ("  INDEXER_EVENT_TYPES=" +:+ debug t +:+ " is not a valid event type. Valid values are: contract, diagnostic, system.") ();
        event_types_of rest
  end.

Definition parse_indexer_event_types_checked : M (list string) :=
  event_types_of (map to_lowercase (split_trimmed "," (default "" (var env "INDEXER_EVENT_TYPES")))).

Definition add_segment (m : gmap string (list string)) (segment : string) : gmap string (list string) :=
  match split_once ":" segment with
  | Some (tenant, contracts) =>
      let tenant := trim tenant in
      let contracts := split_trimmed "," contracts in
      if non_empty tenant && negb (bool_decide (contracts = [])) then <[tenant := contracts]> m else m
  | None => m
  end.

Definition parse_tenant_contract_filter : gmap string (list string) :=
  fold_left add_segment (split_trimmed ";" (default "" (var env "TENANT_CONTRACT_FILTER"))) ∅.

Definition resolve_database_url_checked : M string :=
  match var env "DATABASE_URL_FILE" with
  | Some file_path =>
      match read_to_string env file_path with
      | Ok contents => mret (trim contents)
      | Err e => push_error ("  DATABASE_URL_FILE=" +:+ debug file_path +:+ " could not be read: " +:+ e +:+
                             ". Ensure the file exists and is readable.") ""
      end
  | None => mret (default "" (var env "DATABASE_URL"))
  end.

(** ** RPC endpoints *)

Definition read_rpc_fallback_urls : list string :=
  split_trimmed "," (default "" (var env "STELLAR_RPC_FALLBACK_URLS")).

(** The candidates that are new, in order. *)
Fixpoint distinct (primary : string) (others candidates : list string) : list string :=
  match candidates with
  | [] => others
  | url :: rest =>
      if negb (String.eqb url primary) && negb (one_of others url) then distinct primary (others ++ [url]) rest
      else distinct primary others rest
  end.

Definition resolve_rpc_urls (urls_raw : option string) (single_raw : string) (fallbacks : list string) : string * list string :=
  let candidates := split_trimmed "," (default "" urls_raw) in
  let primary := default single_raw (head candidates) in
  (primary, distinct primary [] (tail candidates ++ fallbacks)).

Definition allow_insecure : bool := default false (is_true <$> var env "ALLOW_INSECURE_RPC").

Definition is_loopback (host : string) : bool :=
  one_of ["localhost"; "127.0.0.1"; "::1"] host || ends_with ".local" host.

Definition second_octet (host : string) : option Z := o ← split_on "." host !! 1%nat; parse_u 8 o.

Definition is_private (host : string) : bool :=
  starts_with "10." host || starts_with "192.168." host || starts_with "169.254." host ||
  starts_with "172." host && default false ((λ o, (16 <=? o) && (o <=? 31)) <$> second_octet host).

(** The checks of the parsed URL in turn. *)
Definition check_scheme (shown : string) (url : Url env) : result unit string :=
  let scheme := url_scheme env url in
  if String.eqb scheme "https" then Ok ()
  else if String.eqb scheme "http" then
    if allow_insecure then Ok ()
    else Err (shown +:+ " uses http. Set ALLOW_INSECURE_RPC=true to permit insecure connections, " +:+
              "or use an https URL (e.g., https://soroban-testnet.stellar.org).")
  else Err (shown +:+ " has disallowed scheme '" +:+ scheme +:+
            "'. Only https is permitted (e.g., https://soroban-testnet.stellar.org).").

Definition check_host (shown : string) (url : Url env) : result unit string :=
  let host := default "" (host_str env url) in
  if is_empty host then
    Err (shown +:+ " has an empty host. Expected a valid HTTPS URL (e.g., https://soroban-testnet.stellar.org).")
  else if negb allow_insecure && (is_loopback host || is_private host) then
    Err (shown +:+ " points to a non-routable host '" +:+ host +:+ "'. Set ALLOW_INSECURE_RPC=true to allow this in development.")
  else Ok ().

Definition validate_rpc_url_named (var raw : string) : M (option string) :=
  let shown := "  " +:+ var +:+ "=" +:+ debug raw in
  match parse_url env raw with
  | Err e =>
      push_error (shown +:+ " is not a valid URL: " +:+ e +:+ ". Expected a valid HTTPS URL (e.g., https://soroban-testnet.stellar.org).") None
  | Ok url =>
      match check_scheme shown url with
      | Err e => push_error e None
      | Ok _ =>
          match check_host shown url with
          | Err e => push_error e None
          | Ok _ => mret (Some (url_text env (without_credentials env url)))
          end
      end
  end.

Definition validate_rpc_url_checked (raw : string) : M (option string) := validate_rpc_url_named "STELLAR_RPC_URL" raw.

Fixpoint validate_rpc_fallback_urls (urls : list string) : M (list string) :=
  match urls with
  | [] => mret []
  | u :: rest =>
      o ← validate_rpc_url_named "STELLAR_RPC_FALLBACK_URLS" u;
      l ← validate_rpc_fallback_urls rest;
      mret (match o with Some s => s :: l | None => l end)
  end.

End Read.

(** ** Reading everything *)

Section Fields.
Variable env : Env.
Variable file : Table.

Record ReadServer : Type := mkReadServer {
  r_environment : Environment;
  r_behind_proxy : bool;
  r_start_ledger : Z;
  r_start_ledger_fallback : bool;
  r_port : Z;
  r_allowed_origins : list string;
  r_database_url : string;
  r_stellar_rpc_url : string;
  r_stellar_rpc_fallback_urls : list string;
  r_db_max_connections : Z;
  r_db_min_connections : Z;
  r_db_idle_timeout_secs : Z;
  r_db_max_lifetime_secs : Z;
  r_db_test_before_acquire : bool;
  r_rpc_connect_timeout_secs : Z;
  r_rpc_request_timeout_secs : Z;
  r_rate_limit_per_minute : Z;
  r_subscription_rate_limit_per_minute : Z;
  r_rate_limit_key_per_minute : option Z;
  r_rate_limit_key_per_hour : option Z;
  r_rate_limit_key_per_day : option Z;
  r_rate_limit_key_per_month : option Z;
  r_ip_denylist : list string;
  r_ip_allowlist : list string;
}.

Definition read_server_lets : M ReadServer :=
  let environment := environment_from_str (env_or_file_or env "ENVIRONMENT" file "development") in
  let behind_proxy := default false (is_true <$> env_or_file env "BEHIND_PROXY" file) in
  start_ledger ← default 0 <$> parse_int (parse_u 64) "START_LEDGER" (env_or_file_or env "START_LEDGER" file "0") "0";
  let start_ledger_fallback := default false (is_true <$> env_or_file env "START_LEDGER_FALLBACK" file) in
  port ← default 3000 <$> parse_int (parse_u 16) "PORT" (env_or_file_or env "PORT" file "3000") "3000";
  let allowed_origins := split_trimmed "," (env_or_file_or env "ALLOWED_ORIGINS" file "*") in
  database_url ← resolve_database_url_checked env;
  let '(stellar_rpc_url, stellar_rpc_fallback_urls) := resolve_rpc_urls (env_or_file env "STELLAR_RPC_URLS" file)
    (env_or_file_or env "STELLAR_RPC_URL" file "https://soroban-testnet.stellar.org") (read_rpc_fallback_urls env) in
  db_max_connections ← default 10 <$> parse_int (parse_u 32) "DB_MAX_CONNECTIONS" (env_or_file_or env "DB_MAX_CONNECTIONS" file "10") "10";
  db_min_connections ← default 2 <$> parse_int (parse_u 32) "DB_MIN_CONNECTIONS" (env_or_file_or env "DB_MIN_CONNECTIONS" file "2") "2";
  db_idle_timeout_secs ← default 600 <$> parse_int (parse_u 64) "DB_IDLE_TIMEOUT_SECS" (env_or_file_or env "DB_IDLE_TIMEOUT_SECS" file "600") "600";
  db_max_lifetime_secs ← default 1800 <$> parse_int (parse_u 64) "DB_MAX_LIFETIME_SECS" (env_or_file_or env "DB_MAX_LIFETIME_SECS" file "1800") "1800";
  db_test_before_acquire ← default true <$> parse_bool "DB_TEST_BEFORE_ACQUIRE" (env_or_file_or env "DB_TEST_BEFORE_ACQUIRE" file "true");
  rpc_connect_timeout_secs ← default 5 <$> parse_int (parse_u 64) "RPC_CONNECT_TIMEOUT_SECS" (env_or_file_or env "RPC_CONNECT_TIMEOUT_SECS" file "5") "5";
  rpc_request_timeout_secs ← default 30 <$> parse_int (parse_u 64) "RPC_REQUEST_TIMEOUT_SECS" (env_or_file_or env "RPC_REQUEST_TIMEOUT_SECS" file "30") "30";
  rate_limit_per_minute ← default 60 <$> parse_int (parse_u 32) "RATE_LIMIT_PER_MINUTE" (env_or_file_or env "RATE_LIMIT_PER_MINUTE" file "60") "60";
  subscription_rate_limit_per_minute ← default 5 <$> parse_int_range (parse_u 32) show_u "SUBSCRIPTION_RATE_LIMIT_PER_MINUTE" (env_or_file_or env "SUBSCRIPTION_RATE_LIMIT_PER_MINUTE" file "5") 1 (u_max 32) "5";
  rate_limit_key_per_minute ← filter_option (Z.ltb 0) <$> and_then (env_or_file env "RATE_LIMIT_KEY_PER_MINUTE" file) (λ v, parse_int (parse_u 32) "RATE_LIMIT_KEY_PER_MINUTE" v "1000");
  rate_limit_key_per_hour ← filter_option (Z.ltb 0) <$> and_then (env_or_file env "RATE_LIMIT_KEY_PER_HOUR" file) (λ v, parse_int (parse_u 32) "RATE_LIMIT_KEY_PER_HOUR" v "10000");
  rate_limit_key_per_day ← filter_option (Z.ltb 0) <$> and_then (env_or_file env "RATE_LIMIT_KEY_PER_DAY" file) (λ v, parse_int (parse_u 32) "RATE_LIMIT_KEY_PER_DAY" v "100000");
  rate_limit_key_per_month ← filter_option (Z.ltb 0) <$> and_then (env_or_file env "RATE_LIMIT_KEY_PER_MONTH" file) (λ v, parse_int (parse_u 32) "RATE_LIMIT_KEY_PER_MONTH" v "1000000");
  let ip_denylist := split_trimmed "," (env_or_file_or env "IP_DENYLIST" file "") in
  let ip_allowlist := split_trimmed "," (env_or_file_or env "IP_ALLOWLIST" file "") in
  mret (mkReadServer environment behind_proxy start_ledger start_ledger_fallback port allowed_origins database_url stellar_rpc_url stellar_rpc_fallback_urls db_max_connections db_min_connections db_idle_timeout_secs db_max_lifetime_secs db_test_before_acquire rpc_connect_timeout_secs rpc_request_timeout_secs rate_limit_per_minute subscription_rate_limit_per_minute rate_limit_key_per_minute rate_limit_key_per_hour rate_limit_key_per_day rate_limit_key_per_month ip_denylist ip_allowlist).

Record ReadIndexing : Type := mkReadIndexing {
  r_indexer_lag_warn_threshold : Z;
  r_indexer_stall_timeout_secs : Z;
  r_db_statement_timeout_ms : Z;
  r_indexer_poll_interval_ms : Z;
  r_indexer_error_backoff_ms : Z;
  r_sse_keepalive_interval_ms : Z;
  r_sse_max_connections : Z;
  r_sse_max_connections_per_ip : Z;
  r_sse_drain_timeout_secs : Z;
  r_sse_multi_max_contract_ids : Z;
  r_max_body_size_bytes : Z;
  r_log_sample_rate : Z;
  r_contract_count_cache_size : Z;
  r_contract_count_cache_ttl_secs : Z;
  r_indexer_lock_retry_secs : Z;
  r_export_max_rows : Z;
}.

Definition read_indexing_lets : M ReadIndexing :=
  indexer_lag_warn_threshold ← default 100 <$> parse_int (parse_u 64) "INDEXER_LAG_WARN_THRESHOLD" (env_or_file_or env "INDEXER_LAG_WARN_THRESHOLD" file "100") "100";
  indexer_stall_timeout_secs ← default 60 <$> parse_int (parse_u 64) "INDEXER_STALL_TIMEOUT_SECS" (env_or_file_or env "INDEXER_STALL_TIMEOUT_SECS" file "60") "60";
  db_statement_timeout_ms ← default 5000 <$> parse_int (parse_u 64) "DB_STATEMENT_TIMEOUT_MS" (env_or_file_or env "DB_STATEMENT_TIMEOUT_MS" file "5000") "5000";
  indexer_poll_interval_ms ← default 5000 <$> parse_int_range (parse_u 64) show_u "INDEXER_POLL_INTERVAL_MS" (env_or_file_or env "INDEXER_POLL_INTERVAL_MS" file "5000") 100 60000 "5000";
  indexer_error_backoff_ms ← default 10000 <$> parse_int_range (parse_u 64) show_u "INDEXER_ERROR_BACKOFF_MS" (env_or_file_or env "INDEXER_ERROR_BACKOFF_MS" file "10000") 100 60000 "10000";
  sse_keepalive_interval_ms ← match env_or_file env "SSE_KEEPALIVE_SECS" file with
    | Some secs_str =>
        (λ r, default 15000 ((λ s, s * 1000) <$> r)) <$> parse_int_range (parse_u 64) show_u "SSE_KEEPALIVE_SECS" secs_str 1 60 "15"
    | None =>
        default 15000 <$> parse_int_range (parse_u 64) show_u "SSE_KEEPALIVE_INTERVAL_MS"
          (env_or_file_or env "SSE_KEEPALIVE_INTERVAL_MS" file "15000") 1000 60000 "15000"
    end;
  sse_max_connections ← default 1000 <$> parse_int_range (parse_u 64) show_u "SSE_MAX_CONNECTIONS" (env_or_file_or env "SSE_MAX_CONNECTIONS" file "1000") 1 (u_max 64) "1000";
  sse_max_connections_per_ip ← default 5 <$> parse_int_range (parse_u 64) show_u "SSE_MAX_CONNECTIONS_PER_IP" (env_or_file_or env "SSE_MAX_CONNECTIONS_PER_IP" file "5") 1 (u_max 64) "5";
  sse_drain_timeout_secs ← default 5 <$> parse_int_range (parse_u 64) show_u "SSE_DRAIN_TIMEOUT_SECS" (env_or_file_or env "SSE_DRAIN_TIMEOUT_SECS" file "5") 1 60 "5";
  sse_multi_max_contract_ids ← default 100 <$> parse_int_range (parse_u 64) show_u "SSE_MULTI_MAX_CONTRACT_IDS" (env_or_file_or env "SSE_MULTI_MAX_CONTRACT_IDS" file "100") 1 (u_max 64) "100";
  max_body_size_bytes ← default (1024 * 1024) <$> parse_int (parse_u 64) "MAX_BODY_SIZE_BYTES" (env_or_file_or env "MAX_BODY_SIZE_BYTES" file "1048576") "1048576";
  log_sample_rate ← default 1 <$> parse_int_range (parse_u 32) show_u "LOG_SAMPLE_RATE" (env_or_file_or env "LOG_SAMPLE_RATE" file "1") 1 (u_max 32) "1";
  contract_count_cache_size ← default 1000 <$> parse_int (parse_u 64) "CONTRACT_COUNT_CACHE_SIZE" (env_or_file_or env "CONTRACT_COUNT_CACHE_SIZE" file "1000") "1000";
  contract_count_cache_ttl_secs ← default 30 <$> parse_int (parse_u 64) "CONTRACT_COUNT_CACHE_TTL_SECS" (env_or_file_or env "CONTRACT_COUNT_CACHE_TTL_SECS" file "30") "30";
  indexer_lock_retry_secs ← default 30 <$> parse_int (parse_u 64) "INDEXER_LOCK_RETRY_SECS" (env_or_file_or env "INDEXER_LOCK_RETRY_SECS" file "30") "30";
  export_max_rows ← default 10000 <$> parse_int (parse_u 64) "EXPORT_MAX_ROWS" (env_or_file_or env "EXPORT_MAX_ROWS" file "10000") "10000";
  mret (mkReadIndexing indexer_lag_warn_threshold indexer_stall_timeout_secs db_statement_timeout_ms indexer_poll_interval_ms indexer_error_backoff_ms sse_keepalive_interval_ms sse_max_connections sse_max_connections_per_ip sse_drain_timeout_secs sse_multi_max_contract_ids max_body_size_bytes log_sample_rate contract_count_cache_size contract_count_cache_ttl_secs indexer_lock_retry_secs export_max_rows).

Record ReadServices : Type := mkReadServices {
  r_health_check_timeout_ms : Z;
  r_index_check_interval_hours : Z;
  r_archive_after_days : Z;
  r_batch_tx_max_size : Z;
  r_batch_events_max_size : Z;
  r_aggregation_cache_ttl_secs : Z;
  r_aggregation_cache_max_entries : Z;
  r_event_data_encryption_key : option Key;
  r_event_data_encryption_key_old : option Key;
  r_integration_encryption_key : option Key;
  r_integration_encryption_key_old : option Key;
  r_rpc_headers : list (string * string);
  r_indexer_event_types : list string;
  r_derived_metrics_config_path : option string;
  r_derived_metrics_inline : option string;
  r_derived_metrics_interval_secs : Z;
  r_correlation_window_secs : Z;
  r_incident_detector_interval_secs : Z;
}.

Definition read_services_lets : M ReadServices :=
  health_check_timeout_ms ← default 2000 <$> parse_int (parse_u 64) "HEALTH_CHECK_TIMEOUT_MS" (env_or_file_or env "HEALTH_CHECK_TIMEOUT_MS" file "2000") "2000";
  index_check_interval_hours ← default 24 <$> parse_int (parse_u 64) "INDEX_CHECK_INTERVAL_HOURS" (env_or_file_or env "INDEX_CHECK_INTERVAL_HOURS" file "24") "24";
  archive_after_days ← default 30 <$> parse_int (parse_u 32) "ARCHIVE_AFTER_DAYS" (env_or_file_or env "ARCHIVE_AFTER_DAYS" file "30") "30";
  batch_tx_max_size ← default 100 <$> parse_int (parse_u 64) "BATCH_TX_MAX_SIZE" (env_or_file_or env "BATCH_TX_MAX_SIZE" file "100") "100";
  batch_events_max_size ← default 10000 <$> parse_int (parse_u 64) "BATCH_EVENTS_MAX_SIZE" (env_or_file_or env "BATCH_EVENTS_MAX_SIZE" file "10000") "10000";
  aggregation_cache_ttl_secs ← default 60 <$> parse_int (parse_u 64) "AGGREGATION_CACHE_TTL_SECS" (env_or_file_or env "AGGREGATION_CACHE_TTL_SECS" file "60") "60";
  aggregation_cache_max_entries ← default 1000 <$> parse_int (parse_u 64) "AGGREGATION_CACHE_MAX_ENTRIES" (env_or_file_or env "AGGREGATION_CACHE_MAX_ENTRIES" file "1000") "1000";
  event_data_encryption_key ← and_then (env_or_file env "EVENT_DATA_ENCRYPTION_KEY" file) (parse_hex_key_checked "EVENT_DATA_ENCRYPTION_KEY");
  event_data_encryption_key_old ← and_then (env_or_file env "EVENT_DATA_ENCRYPTION_KEY_OLD" file) (parse_hex_key_checked "EVENT_DATA_ENCRYPTION_KEY_OLD");
  integration_encryption_key ← and_then (env_or_file env "INTEGRATION_ENCRYPTION_KEY" file) (parse_hex_key_checked "INTEGRATION_ENCRYPTION_KEY");
  integration_encryption_key_old ← and_then (env_or_file env "INTEGRATION_ENCRYPTION_KEY_OLD" file) (parse_hex_key_checked "INTEGRATION_ENCRYPTION_KEY_OLD");
  rpc_headers ← parse_rpc_headers_checked env;
  indexer_event_types ← parse_indexer_event_types_checked env;
  let derived_metrics_config_path := filter_option non_empty (trim <$> env_or_file env "DERIVED_METRICS_CONFIG" file) in
  let derived_metrics_inline := filter_option non_empty (trim <$> env_or_file env "DERIVED_METRICS_INLINE" file) in
  derived_metrics_interval_secs ← default 60 <$> parse_int_range (parse_u 64) show_u "DERIVED_METRICS_INTERVAL_SECS" (env_or_file_or env "DERIVED_METRICS_INTERVAL_SECS" file "60") 10 3600 "60";
  let correlation_window_secs := Z.max 60 (Z.min 3600 (default 300 (parse_u 64 (trim (env_or_file_or env "CORRELATION_WINDOW_SECS" file "300"))))) in
  let incident_detector_interval_secs := Z.max 10 (Z.min 300 (default 30 (parse_u 64 (trim (env_or_file_or env "INCIDENT_DETECTOR_INTERVAL_SECS" file "30"))))) in
  mret (mkReadServices health_check_timeout_ms index_check_interval_hours archive_after_days batch_tx_max_size batch_events_max_size aggregation_cache_ttl_secs aggregation_cache_max_entries event_data_encryption_key event_data_encryption_key_old integration_encryption_key integration_encryption_key_old rpc_headers indexer_event_types derived_metrics_config_path derived_metrics_inline derived_metrics_interval_secs correlation_window_secs incident_detector_interval_secs).

Definition read_server (a : ReadServer) (c : ReadServices) : ServerConfig :=
  {|
    database_url := r_database_url a;
    database_replica_url := filter_option non_empty (var env "DATABASE_REPLICA_URL");
    stellar_rpc_url := r_stellar_rpc_url a;
    stellar_rpc_fallback_urls := r_stellar_rpc_fallback_urls a;
    rpc_headers := r_rpc_headers c;
    start_ledger := r_start_ledger a;
    start_ledger_fallback := r_start_ledger_fallback a;
    port := r_port a;
    api_keys := option_list (env_or_file env "API_KEY" file) ++ option_list (env_or_file env "API_KEY_SECONDARY" file);
    admin_api_keys := option_list (env_or_file env "ADMIN_API_KEY" file) ++ option_list (env_or_file env "ADMIN_API_KEY_SECONDARY" file);
    db_max_connections := r_db_max_connections a;
    db_min_connections := r_db_min_connections a;
    db_idle_timeout_secs := r_db_idle_timeout_secs a;
    db_max_lifetime_secs := r_db_max_lifetime_secs a;
    db_test_before_acquire := r_db_test_before_acquire a;
    behind_proxy := r_behind_proxy a;
    rpc_connect_timeout_secs := r_rpc_connect_timeout_secs a;
    rpc_request_timeout_secs := r_rpc_request_timeout_secs a;
    allowed_origins := r_allowed_origins a;
    rate_limit_per_minute := r_rate_limit_per_minute a;
    subscription_rate_limit_per_minute := r_subscription_rate_limit_per_minute a;
    rate_limit_key_per_minute := r_rate_limit_key_per_minute a;
    rate_limit_key_per_hour := r_rate_limit_key_per_hour a;
    rate_limit_key_per_day := r_rate_limit_key_per_day a;
    rate_limit_key_per_month := r_rate_limit_key_per_month a;
    ip_denylist := r_ip_denylist a;
    ip_allowlist := r_ip_allowlist a
  |}.

Definition read_indexing (a : ReadServer) (b : ReadIndexing) (c : ReadServices) : IndexerConfig :=
  {|
    indexer_lag_warn_threshold := r_indexer_lag_warn_threshold b;
    indexer_stall_timeout_secs := r_indexer_stall_timeout_secs b;
    db_statement_timeout_ms := r_db_statement_timeout_ms b;
    indexer_poll_interval_ms := r_indexer_poll_interval_ms b;
    indexer_error_backoff_ms := r_indexer_error_backoff_ms b;
    sse_keepalive_interval_ms := r_sse_keepalive_interval_ms b;
    sse_max_connections := r_sse_max_connections b;
    sse_drain_timeout_secs := r_sse_drain_timeout_secs b;
    sse_multi_max_contract_ids := r_sse_multi_max_contract_ids b;
    environment := r_environment a;
    max_body_size_bytes := r_max_body_size_bytes b;
    log_sample_rate := r_log_sample_rate b;
    webhook_url := filter_option non_empty (var env "WEBHOOK_URL");
    webhook_secret := filter_option non_empty (var env "WEBHOOK_SECRET");
    webhook_contract_filter := split_trimmed "," (default "" (var env "WEBHOOK_CONTRACT_FILTER"));
    webhook_rate_limit_per_minute := filter_option (Z.ltb 0) (v ← var env "WEBHOOK_RATE_LIMIT_PER_MINUTE"; parse_u 32 (trim v));
    webhook_rate_limit_per_hour := filter_option (Z.ltb 0) (v ← var env "WEBHOOK_RATE_LIMIT_PER_HOUR"; parse_u 32 (trim v));
    webhook_require_https := default (is_production_like (r_environment a)) (is_true <$> env_or_file env "WEBHOOK_REQUIRE_HTTPS" file);
    indexer_event_types := r_indexer_event_types c;
    event_data_encryption_key := r_event_data_encryption_key c;
    event_data_encryption_key_old := r_event_data_encryption_key_old c;
    integration_encryption_key := r_integration_encryption_key c;
    integration_encryption_key_old := r_integration_encryption_key_old c;
    index_check_interval_hours := r_index_check_interval_hours c;
    health_check_timeout_ms := r_health_check_timeout_ms c
  |}.

Definition read_ingest (b : ReadIndexing) : M IngestConfig :=
  v_max_event_data_bytes ← default 65536 <$> parse_int (parse_u 64) "MAX_EVENT_DATA_BYTES" (env_or_file_or env "MAX_EVENT_DATA_BYTES" file "65536") "65536";
  mret {|
    tls_cert_file := filter_option non_empty (var env "TLS_CERT_FILE");
    tls_key_file := filter_option non_empty (var env "TLS_KEY_FILE");
    bloom_filter_fp_rate := default (F64.lit 1 1000) (parse_f64 env (env_or_file_or env "BLOOM_FILTER_FP_RATE" file "0.001"));
    bloom_filter_capacity := default 1000000 (parse_u 64 (env_or_file_or env "BLOOM_FILTER_CAPACITY" file "1000000"));
    bloom_expected_items := default 0 (parse_u 64 (env_or_file_or env "BLOOM_EXPECTED_ITEMS" file "0"));
    bloom_false_positive_rate := default (F64.lit 1 1000) (parse_f64 env (env_or_file_or env "BLOOM_FALSE_POSITIVE_RATE" file "0.001"));
    enable_content_dedup := default false (is_true <$> env_or_file env "ENABLE_CONTENT_DEDUP" file);
    dedup_window_secs := default 3600 (parse_u 64 (env_or_file_or env "DEDUP_WINDOW_SECS" file "3600"));
    kinesis_stream_name := filter_option non_empty (var env "KINESIS_STREAM_NAME");
    aws_region := filter_option non_empty (var env "AWS_REGION");
    sqs_queue_url := env_or_file env "SQS_QUEUE_URL" file;
    sqs_dlq_url := env_or_file env "SQS_DLQ_URL" file;
    sqs_batch_size := default 10 (v ← env_or_file env "SQS_BATCH_SIZE" file; parse_u 64 v);
    event_hubs_connection_string := env_or_file env "EVENT_HUBS_CONNECTION_STRING" file;
    event_hub_name := env_or_file env "EVENT_HUB_NAME" file;
    event_hubs_partition_strategy := default "contract_id" (env_or_file env "EVENT_HUBS_PARTITION_STRATEGY" file);
    pubsub_project_id := filter_option non_empty (var env "PUBSUB_PROJECT_ID");
    pubsub_topic_id := filter_option non_empty (var env "PUBSUB_TOPIC_ID");
    pubsub_enable_message_ordering := default true (is_true <$> env_or_file env "PUBSUB_ENABLE_MESSAGE_ORDERING" file);
    max_event_data_bytes := v_max_event_data_bytes;
    export_max_rows := r_export_max_rows b;
    contract_count_cache_size := r_contract_count_cache_size b;
    contract_count_cache_ttl_secs := r_contract_count_cache_ttl_secs b;
    indexer_lock_retry_secs := r_indexer_lock_retry_secs b;
    multi_tenant := default false (is_true <$> env_or_file env "MULTI_TENANT" file);
    tenant_rate_limit_per_minute := filter_option (Z.ltb 0) (v ← env_or_file env "TENANT_RATE_LIMIT_PER_MINUTE" file; parse_u 32 (trim v));
    tenant_contract_filter := parse_tenant_contract_filter env;
    indexer_tenant_id := env_or_file env "INDEXER_TENANT_ID" file
  |}.

Definition read_email : EmailConfig :=
  {|
    email_smtp_host := env_or_file env "EMAIL_SMTP_HOST" file;
    email_smtp_port := default 587 (v ← env_or_file env "EMAIL_SMTP_PORT" file; parse_u 16 v);
    email_smtp_user := env_or_file env "EMAIL_SMTP_USER" file;
    email_smtp_password := env_or_file env "EMAIL_SMTP_PASSWORD" file;
    email_from := env_or_file env "EMAIL_FROM" file;
    email_to := default [] (split_trimmed "," <$> env_or_file env "EMAIL_TO" file);
    email_contract_filter := default [] (split_trimmed "," <$> env_or_file env "EMAIL_CONTRACT_FILTER" file);
    email_schedule := default "immediate" (filter_option non_empty ((to_ascii_lowercase ∘ trim) <$> env_or_file env "EMAIL_SCHEDULE" file));
    email_daily_digest_hour := default 9 (filter_option (λ h, h <=? 23) (v ← env_or_file env "EMAIL_DAILY_DIGEST_HOUR" file; parse_u 32 (trim v)));
    email_cron := filter_option non_empty (trim <$> env_or_file env "EMAIL_CRON" file);
    email_quiet_hours_start := filter_option non_empty (trim <$> env_or_file env "EMAIL_QUIET_HOURS_START" file);
    email_quiet_hours_end := filter_option non_empty (trim <$> env_or_file env "EMAIL_QUIET_HOURS_END" file);
    email_public_base_url := env_or_file env "EMAIL_PUBLIC_BASE_URL" file
  |}.

Definition read_store (b : ReadIndexing) : M StoreConfig :=
  v_max_ledger_range ← default 100000 <$> parse_int (parse_u 64) "MAX_LEDGER_RANGE" (env_or_file_or env "MAX_LEDGER_RANGE" file "100000") "100000";
  v_rpc_max_events_per_page ← default 200 <$> parse_int (parse_u 64) "RPC_MAX_EVENTS_PER_PAGE" (env_or_file_or env "RPC_MAX_EVENTS_PER_PAGE" file "200") "200";
  v_slow_query_threshold_ms ← default 1000 <$> parse_int (parse_u 64) "SLOW_QUERY_THRESHOLD_MS" (env_or_file_or env "SLOW_QUERY_THRESHOLD_MS" file "1000") "1000";
  v_event_transform_timeout_ms ← default 100 <$> parse_int (parse_u 64) "EVENT_TRANSFORM_TIMEOUT_MS" (env_or_file_or env "EVENT_TRANSFORM_TIMEOUT_MS" file "100") "100";
  mret {|
    redis_url := env_or_file env "REDIS_URL" file;
    redis_stream_key := env_or_file env "REDIS_STREAM_KEY" file;
    redis_buffer_max_size := default 10000 (v ← env_or_file env "REDIS_BUFFER_MAX_SIZE" file; parse_u 64 v);
    stats_refresh_interval_secs := default 3600 (v ← env_or_file env "STATS_REFRESH_INTERVAL_SECS" file; parse_u 64 v);
    retention_days := default 90 (v ← env_or_file env "RETENTION_DAYS" file; parse_u 64 v);
    pruning_interval_hours := default 24 (v ← env_or_file env "PRUNING_INTERVAL_HOURS" file; parse_u 64 v);
    sse_replay_limit := default 1000 (v ← or_else (env_or_file env "SSE_REPLAY_MAX_EVENTS" file) (env_or_file env "SSE_REPLAY_LIMIT" file); parse_u 64 v);
    sse_max_connections_per_ip := r_sse_max_connections_per_ip b;
    sse_max_lag_before_disconnect := default 0 (v ← env_or_file env "SSE_MAX_LAG_BEFORE_DISCONNECT" file; parse_u 64 v);
    indexer_ignore_checkpoint := default false (is_true <$> env_or_file env "INDEXER_IGNORE_CHECKPOINT" file);
    rpc_max_events_per_page := v_rpc_max_events_per_page;
    max_ledger_range := v_max_ledger_range;
    slow_query_threshold_ms := v_slow_query_threshold_ms;
    event_transform_script := var env "EVENT_TRANSFORM_SCRIPT";
    event_transform_timeout_ms := v_event_transform_timeout_ms;
    webhook_notification_format := default "raw" (env_or_file env "WEBHOOK_NOTIFICATION_FORMAT" file);
    webhook_message_template := env_or_file env "WEBHOOK_MESSAGE_TEMPLATE" file;
    pagerduty_routing_key := env_or_file env "PAGERDUTY_ROUTING_KEY" file;
    pagerduty_service_name := default "Soroban Pulse" (env_or_file env "PAGERDUTY_SERVICE_NAME" file);
    pagerduty_contract_filter := default [] (split_trimmed "," <$> env_or_file env "PAGERDUTY_CONTRACT_FILTER" file);
    pagerduty_event_type_filter := default [] (split_trimmed "," <$> env_or_file env "PAGERDUTY_EVENT_TYPE_FILTER" file);
    pagerduty_severity_mapping := default default_severity_mapping (v ← env_or_file env "PAGERDUTY_SEVERITY_MAPPING" file; parse_string_map env v);
    pagerduty_auto_resolve := default true (is_true <$> env_or_file env "PAGERDUTY_AUTO_RESOLVE" file);
    pagerduty_auto_resolve_threshold_minutes := default 30 (v ← env_or_file env "PAGERDUTY_AUTO_RESOLVE_THRESHOLD_MINUTES" file; parse_i 64 v);
    stats_cache_ttl_secs := default 30 (v ← env_or_file env "STATS_CACHE_TTL_SECS" file; parse_u 64 v)
  |}.

Definition read_sms : SmsConfig :=
  {|
    twilio_account_sid := env_or_file env "TWILIO_ACCOUNT_SID" file;
    twilio_auth_token := env_or_file env "TWILIO_AUTH_TOKEN" file;
    twilio_from_number := env_or_file env "TWILIO_FROM_NUMBER" file;
    sms_to_numbers := default [] (split_trimmed "," <$> env_or_file env "SMS_TO_NUMBERS" file);
    sms_contract_filter := default [] (split_trimmed "," <$> env_or_file env "SMS_CONTRACT_FILTER" file);
    webhook_retry_policy := RetryPolicy.webhook_default;
    email_retry_policy := RetryPolicy.email_default;
    sms_retry_policy := RetryPolicy.sms_default
  |}.

Definition read_alerts : AlertConfig :=
  {|
    sse_shutdown_grace_period_ms := default 200 (v ← env_or_file env "SSE_SHUTDOWN_GRACE_PERIOD_MS" file; parse_u 64 v);
    email_max_contracts_in_digest := default 20 (v ← env_or_file env "EMAIL_MAX_CONTRACTS_IN_DIGEST" file; parse_u 64 v);
    notification_default_priority := default "medium" (env_or_file env "NOTIFICATION_DEFAULT_PRIORITY" file);
    notification_priority_rule_path := env_or_file env "NOTIFICATION_PRIORITY_RULE_PATH" file;
    notification_priority_rule_value := env_or_file env "NOTIFICATION_PRIORITY_RULE_VALUE" file;
    notification_priority_rule_priority := env_or_file env "NOTIFICATION_PRIORITY_RULE_PRIORITY" file;
    escalation_primary_channel := env_or_file env "ESCALATION_PRIMARY_CHANNEL" file;
    escalation_channel := env_or_file env "ESCALATION_CHANNEL" file;
    escalation_delay_minutes := default 30 (v ← env_or_file env "ESCALATION_DELAY_MINUTES" file; parse_u 64 v);
    oncall_provider := env_or_file env "ONCALL_PROVIDER" file;
    oncall_pagerduty_api_key := env_or_file env "ONCALL_PAGERDUTY_API_KEY" file;
    oncall_schedule_id := env_or_file env "ONCALL_SCHEDULE_ID" file;
    oncall_schedule_cache_ttl_secs := default 300 (v ← env_or_file env "ONCALL_SCHEDULE_CACHE_TTL_SECS" file; parse_u 64 v);
    event_compression_enabled := default false (is_true <$> env_or_file env "EVENT_COMPRESSION_ENABLED" file);
    event_compression_migration_batch_size := default 500 (v ← env_or_file env "EVENT_COMPRESSION_MIGRATION_BATCH_SIZE" file; parse_i 64 v);
    chain_id := env_or_file_or env "CHAIN_ID" file "mainnet";
    additional_chain_ids := default [] (split_trimmed "," <$> env_or_file env "ADDITIONAL_CHAIN_IDS" file);
    ledger_hash_tracking_enabled := default false (is_true <$> env_or_file env "LEDGER_HASH_TRACKING_ENABLED" file);
    ledger_hash_validation_depth := default 1000 (v ← env_or_file env "LEDGER_HASH_VALIDATION_DEPTH" file; parse_u 64 v)
  |}.

Definition read_services (c : ReadServices) : ServiceConfig :=
  {|
    abi_cache_ttl_secs := default DEFAULT_ABI_CACHE_TTL_SECS (v ← env_or_file env "ABI_CACHE_TTL_SECS" file; parse_u 64 v);
    abi_cache_max_entries := default ABI_CACHE_MAX_ENTRIES (v ← env_or_file env "ABI_CACHE_MAX_ENTRIES" file; parse_u 64 v);
    sse_ring_buffer_capacity := default DEFAULT_RING_BUFFER_CAPACITY (v ← env_or_file env "SSE_RING_BUFFER_CAPACITY" file; parse_u 64 v);
    query_cache_ttl_secs := default DEFAULT_TTL_SECS (v ← env_or_file env "QUERY_CACHE_TTL_SECS" file; parse_u 64 v);
    query_cache_max_capacity := default DEFAULT_MAX_CAPACITY (v ← env_or_file env "QUERY_CACHE_MAX_CAPACITY" file; parse_u 64 v);
    enable_push_preload := default false (is_true_no_y <$> env_or_file env "ENABLE_PUSH_PRELOAD" file);
    run_migrations_on_startup := default true (is_true_no_y <$> env_or_file env "RUN_MIGRATIONS_ON_STARTUP" file);
    serve_dashboard := default false (is_true_no_y <$> env_or_file env "SERVE_DASHBOARD" file);
    dashboard_dir := env_or_file_or env "DASHBOARD_DIR" file "web/dist";
    dashboard_connect_src := default [] (split_trimmed "," <$> env_or_file env "DASHBOARD_CONNECT_SRC" file);
    kafka_brokers := env_or_file env "KAFKA_BROKERS" file;
    kafka_topic := env_or_file env "KAFKA_TOPIC" file;
    kafka_batch_size := default 16384 (v ← env_or_file env "KAFKA_BATCH_SIZE" file; parse_u 64 v);
    kafka_linger_ms := default 100 (v ← env_or_file env "KAFKA_LINGER_MS" file; parse_u 64 v);
    saas_enabled := default false (is_true <$> env_or_file env "SAAS_ENABLED" file);
    billing_provider := env_or_file env "BILLING_PROVIDER" file;
    billing_api_key := env_or_file env "BILLING_API_KEY" file;
    default_trial_days := default 14 (v ← env_or_file env "DEFAULT_TRIAL_DAYS" file; parse_i 32 v);
    saas_public_base_url := env_or_file env "SAAS_PUBLIC_BASE_URL" file;
    ml_anomaly_detection_enabled := default false (is_true <$> env_or_file env "ML_ANOMALY_DETECTION_ENABLED" file);
    ml_pattern_recognition_enabled := default false (is_true <$> env_or_file env "ML_PATTERN_RECOGNITION_ENABLED" file);
    ml_intelligent_filtering_enabled := default false (is_true <$> env_or_file env "ML_INTELLIGENT_FILTERING_ENABLED" file);
    ml_model_training_interval_hours := default 24 (v ← env_or_file env "ML_MODEL_TRAINING_INTERVAL_HOURS" file; parse_u 64 v);
    ml_min_training_samples := default 100 (v ← env_or_file env "ML_MIN_TRAINING_SAMPLES" file; parse_i 64 v);
    ml_confidence_threshold := default (F64.lit 8 10) (v ← env_or_file env "ML_CONFIDENCE_THRESHOLD" file; parse_f64 env v);
    ml_auto_retrain := default true (is_true <$> env_or_file env "ML_AUTO_RETRAIN" file);
    role := role_from_str (env_or_file_or env "ROLE" file "all");
    derived_metrics_config_path := r_derived_metrics_config_path c;
    derived_metrics_inline := r_derived_metrics_inline c;
    derived_metrics_interval_secs := r_derived_metrics_interval_secs c;
    correlation_window_secs := r_correlation_window_secs c;
    incident_detector_interval_secs := r_incident_detector_interval_secs c
  |}.

(** [Config::read_env]: the records of a configuration in the order of the struct
    expression. *)
Definition read_config (a : ReadServer) (b : ReadIndexing) (c : ReadServices) : M Config :=
  ingest ← read_ingest b;
  store ← read_store b;
  mret (mkConfig (read_server a c) (read_indexing a b c) ingest read_email read_sms store read_alerts (read_services c)).

End Fields.

Definition read_env (env : Env) : M Config :=
  let file := load_config_file env in
  a ← read_server_lets env file;
  b ← read_indexing_lets env file;
  c ← read_services_lets env file;
  read_config env file a b c.

(** ** What is done with a configuration *)

Record NetworkTarget : Type := mkNetworkTarget {
  nt_chain_id : string;
  nt_rpc_url : string;
}.

Definition ascii_alphanumeric (a : ascii) : bool :=
  let n := nat_of_ascii a in
  ((48 <=? n) && (n <=? 57) || (65 <=? n) && (n <=? 90) || (97 <=? n) && (n <=? 122))%nat.

Fixpoint env_suffix (s : string) : string :=
  match s with
  | EmptyString => EmptyString
  | String a r => let c := Errors.ascii_upper a in String (if ascii_alphanumeric c then c else "_") (env_suffix r)
  end.

Definition network_target (env : Env) (cfg : Config) (id : string) : option NetworkTarget :=
  if String.eqb id (chain_id cfg) then None
  else match var env ("STELLAR_RPC_URL_" +:+ env_suffix id) with
       | Some rpc_url => if non_empty (trim rpc_url) then Some (mkNetworkTarget id rpc_url) else None
       | None => None
       end.

Definition network_targets (env : Env) (cfg : Config) : list NetworkTarget :=
  mkNetworkTarget (chain_id cfg) (stellar_rpc_url cfg) :: omap (network_target env cfg) (additional_chain_ids cfg).

Definition safe_db_url (env : Env) (cfg : Config) : string :=
  match parse_url env (database_url cfg) with
  | Ok u => url_text env (without_credentials env u)
  | Err _ => "<unparseable>"
  end.

Definition safe_rpc_headers (cfg : Config) : list string := map fst (rpc_headers cfg).

End Config.
