(* ===== verification/Leader.v ===== *)
(** indexer.rs, [Indexer::run]: the workers that compete for the PostgreSQL
    advisory lock of their network, in several processes.

    A worker belongs to a process, whose connection pool it shares with the
    other workers of the process (main.rs starts one per network); its lock is
    that of its network ([lock_key_for_chain]).  Lock queries go through the
    pool, so any connection of the process may serve them.  A run of the system
    is a list of [Event]s: which worker takes its next step, what the pool and
    the database answered it, and which connections were closed meanwhile. *)

From S2P Require Import Prelude Model Indexer.

Module Leader.

(** ** Session-level advisory locks of PostgreSQL

    A session is a connection of a process.  A lock is held by one session, as
    often as it was granted; the session's end releases it. *)

Abbreviation Session := (nat * nat)%type.
Abbreviation Locks := (gmap Z (Session * nat)).

Definition pg_try_advisory_lock (ses : Session) (key : Z) (l : Locks) : bool * Locks :=
  match l !! key with
  | None => (true, <[key := (ses, 1%nat)]> l)
  | Some (o, n) => if decide (o = ses) then (true, <[key := (ses, S n)]> l) else (false, l)
  end.

Definition pg_advisory_unlock (ses : Session) (key : Z) (l : Locks) : bool * Locks :=
  match l !! key with
  | None => (false, l)
  | Some (o, n) =>
      if decide (o = ses)
      then (true, match n with S (S m) => <[key := (ses, S m)]> l | _ => delete key l end)
      else (false, l)
  end.

Definition end_session (ses : Session) (l : Locks) : Locks := filter (λ kv, kv.2.1 ≠ ses) l.

(** ** Workers *)

(** Where a worker is in [run]: before [pool.acquire], at the [select!], at the
    query for the lock, in [run_loop], at the query that releases the lock, and
    returned. *)
Inductive Phase : Type := Starting | Waiting | Trying | Leading | Releasing | Returned.

#[export] Instance Phase_eq_dec : EqDecision Phase.
Proof. solve_decision. Defined.

(** The process and the network of a worker. *)
Record Worker : Type := mkWorker { process : nat; chain_id : string }.

#[export] Instance Worker_eq_dec : EqDecision Worker.
Proof. solve_decision. Defined.

Definition lock_key (w : Worker) : Z := Indexer.lock_key_for_chain (chain_id w).

(** The lock table, the phase of each worker (workers are numbered), and
    [is_active_indexer] of each process. *)
Record State : Type := mkState { locks : Locks; phase : nat → Phase; is_active_indexer : nat → bool }.

Definition init : State := mkState ∅ (λ _, Starting) (λ _, false).

Definition upd {A} (i : nat) (x : A) (f : nat → A) (j : nat) : A := if decide (j = i) then x else f j.

Inductive Event : Type :=
| Acquire (i : nat) (ok : bool)                 (* [pool.acquire] *)
| Tick (i : nat)                                (* the interval, or a change that is no shutdown *)
| Shutdown (i : nat)                            (* the shutdown signal while waiting *)
| TryLock (i : nat) (served : option nat)       (* the connection that served the query, if it did not fail *)
| LoopEnds (i : nat)                            (* [run_loop] sees the shutdown signal *)
| Unlock (i : nat) (served : option nat)
| Close (ses : Session).                        (* the pool or the server ends a connection *)

Section System.
Variable workers : list Worker.

Definition set_phase (i : nat) (p : Phase) (s : State) : State := mkState (locks s) (upd i p (phase s)) (is_active_indexer s).
Definition set_active (w : Worker) (b : bool) (s : State) : State :=
  mkState (locks s) (phase s) (upd (process w) b (is_active_indexer s)).
Definition set_locks (l : Locks) (s : State) : State := mkState l (phase s) (is_active_indexer s).

(** [unwrap_or(false)]: a failed query counts as a refusal.  It is taken to have
    had no effect; a lock granted in an answer that is lost is not modelled. *)
Definition try_lock (w : Worker) (served : option nat) (l : Locks) : bool * Locks :=
  match served with
  | Some c => pg_try_advisory_lock (process w, c) (lock_key w) l
  | None => (false, l)
  end.

Definition unlock (w : Worker) (served : option nat) (l : Locks) : Locks :=
  match served with
  | Some c => (pg_advisory_unlock (process w, c) (lock_key w) l).2
  | None => l
  end.

(** One step of [run] for worker [i], if it is there to be made. *)
Definition run_step (i : nat) (w : Worker) (e : Event) (s : State) : option State :=
  match e, phase s i with
  | Acquire _ ok, Starting => Some (set_phase i (if ok then Waiting else Returned) s)
  | Tick _, Waiting => Some (set_phase i Trying s)
  | Shutdown _, Waiting => Some (set_phase i Returned s)
  | TryLock _ served, Trying =>
      let '(acquired, l) := try_lock w served (locks s) in
      Some (set_active w acquired (set_phase i (if acquired then Leading else Waiting) (set_locks l s)))
  | LoopEnds _, Leading => Some (set_phase i Releasing s)
  | Unlock _ served, Releasing =>
      Some (set_active w false (set_phase i Returned (set_locks (unlock w served (locks s)) s)))
  | _, _ => None
  end.

Definition worker_of (e : Event) : option nat :=
  match e with
  | Acquire i _ | Tick i | Shutdown i | TryLock i _ | LoopEnds i | Unlock i _ => Some i
  | Close _ => None
  end.

Definition step (e : Event) (s : State) : option State :=
  match e with
  | Close ses => Some (set_locks (end_session ses (locks s)) s)
  | _ => i ← worker_of e; w ← workers !! i; run_step i w e s
  end.

Fixpoint steps (es : list Event) (s : State) : option State :=
  match es with
  | [] => Some s
  | e :: rest => s' ← step e s; steps rest s'
  end.

(** [run_loop] runs. *)
Definition leads (s : State) (i : nat) : bool := bool_decide (phase s i = Leading).

(** A worker between the grant of its lock and the query that releases it. *)
Definition holding (s : State) (i : nat) : bool := match phase s i with Leading | Releasing => true | _ => false end.


Definition closes (e : Event) : bool := match e with Close _ => true | _ => false end.

(** A connection may end at any time, except while it holds the lock of a
    worker that relies on it. *)
Definition dispensable (ses : Session) (s : State) : Prop :=
  ∀ i w n, workers !! i = Some w → holding s i = true → locks s !! lock_key w ≠ Some (ses, n).

Inductive reach : State → Prop :=
| reach_init : reach init
| reach_step e s s' :
    reach s → step e s = Some s' → (∀ ses, e = Close ses → dispensable ses s) → reach s'.

(** No two workers of a process index the same network. *)
Definition one_per_network : Prop :=
  ∀ i j wi wj, workers !! i = Some wi → workers !! j = Some wj →
    process wi = process wj → lock_key wi = lock_key wj → i = j.

(** ** Lemmas *)

Lemma upd_same {A} i (x : A) f : upd i x f i = x.
Proof. unfold upd. by case_decide. Qed.

Lemma upd_other {A} i j (x : A) f : j ≠ i → upd i x f j = f j.
Proof. unfold upd. by case_decide. Qed.

Lemma try_lock_grant w served l l' :
  try_lock w served l = (true, l') →
  ∃ c, served = Some c ∧ l' = <[lock_key w := (process w, c, match l !! lock_key w with Some (_, n) => S n | None => 1%nat end)]> l
       ∧ ∀ o n, l !! lock_key w = Some (o, n) → o = (process w, c).
Proof.
  unfold try_lock. destruct served as [c|]; [|done]. unfold pg_try_advisory_lock.
  destruct (l !! lock_key w) as [[o n]|] eqn:E; [case_decide; [|done]|]; intros [= <-]; exists c; subst; naive_solver.
Qed.

Lemma try_lock_refuse w served l l' : try_lock w served l = (false, l') → l' = l.
Proof.
  unfold try_lock. destruct served as [c|]; [|naive_solver]. unfold pg_try_advisory_lock.
  destruct (l !! lock_key w) as [[o n]|]; [case_decide|]; naive_solver.
Qed.

Lemma unlock_other w served l k : k ≠ lock_key w → unlock w served l !! k = l !! k.
Proof.
  intros Hk. unfold unlock. destruct served as [c|]; [|done]. unfold pg_advisory_unlock.
  destruct (l !! lock_key w) as [[o n]|]; [case_decide; [|done]|done]. cbn.
  destruct n as [|[|m]]; [by rewrite lookup_delete_ne|by rewrite lookup_delete_ne|by rewrite lookup_insert_ne].
Qed.

Lemma unlock_not_owner w served l o n :
  l !! lock_key w = Some (o, n) → (∀ c, served = Some c → o ≠ (process w, c)) → unlock w served l = l.
Proof.
  intros E Hs. unfold unlock. destruct served as [c|]; [|done]. unfold pg_advisory_unlock. rewrite E.
  case_decide; [|done]. by destruct (Hs c).
Qed.

Lemma unlock_sub w served l k o n : unlock w served l !! k = Some (o, n) → ∃ m, l !! k = Some (o, m).
Proof.
  destruct (decide (k = lock_key w)) as [->|Hk]; [|rewrite unlock_other by done; eauto].
  unfold unlock. destruct served as [c|]; [|eauto]. unfold pg_advisory_unlock.
  destruct (l !! lock_key w) as [[o' m]|] eqn:E; [case_decide|]; cbn; rewrite ?E; try naive_solver.
  destruct m as [|[|m]]; rewrite ?lookup_delete_eq, ?lookup_insert_eq; naive_solver.
Qed.

(** ** The invariant *)

(** Whoever holds its lock has an entry of its process; every entry was granted
    once, to a worker that has not given it back. *)
Record inv (s : State) : Prop := {
  held : ∀ i w, workers !! i = Some w → holding s i = true →
    ∃ c, locks s !! lock_key w = Some ((process w, c), 1%nat);
  granted : ∀ k p c n, locks s !! k = Some ((p, c), n) →
    n = 1%nat ∧ ∃ i w, workers !! i = Some w ∧ process w = p ∧ lock_key w = k ∧
      (phase s i = Leading ∨ phase s i = Releasing ∨ phase s i = Returned) }.

Lemma leader_inv_init : inv init.
Proof. split; cbn; [done|]. intros k p c n. by rewrite lookup_empty. Qed.

(** A step that leaves the locks alone and moves a worker without a lock. *)
Lemma inv_move i p s :
  inv s → (phase s i = Starting ∨ phase s i = Waiting) → (p = Waiting ∨ p = Trying ∨ p = Returned) → inv (set_phase i p s).
Proof.
  intros [Hh Hg] Hi Hp. split.
  - intros j w Hw. unfold holding. cbn. destruct (decide (j = i)) as [->|Hj].
    + rewrite upd_same. destruct Hp as [->|[->| ->]]; done.
    + rewrite upd_other by done. apply (Hh j w Hw).
  - intros k q c n Hk. destruct (Hg k q c n Hk) as [Hn (j & w & Hw & Hq & Hkk & Hph)]. split; [done|].
    exists j, w. split_and!; [done..|]. cbn. rewrite upd_other; [done|]. intros ->. intuition congruence.
Qed.

Lemma inv_active s w b : inv s → inv (set_active w b s).
Proof. by intros [Hh Hg]; split. Qed.

Section Distinct.
Hypothesis distinct : one_per_network.

Lemma inv_refused i s : inv s → phase s i = Trying → inv (set_phase i Waiting s).
Proof.
  intros [Hh Hg] Hi. split.
  - intros j v Hv. unfold holding. cbn. destruct (decide (j = i)) as [->|Hj]; [by rewrite upd_same|].
    rewrite upd_other by done. apply (Hh j v Hv).
  - intros k q c n Hk. destruct (Hg k q c n Hk) as [Hn (j & v & Hv & Hq & Hkk & Hph)]. split; [done|].
    exists j, v. split_and!; [done..|]. cbn. rewrite upd_other; [done|]. intros ->. intuition congruence.
Qed.

(** The lock of a worker at its query is not held by its own process. *)
Lemma trying_not_held i w s o n :
  inv s → workers !! i = Some w → phase s i = Trying → locks s !! lock_key w = Some (o, n) → o.1 ≠ process w.
Proof.
  intros [_ Hg] Hw Hi Hl E. destruct o as [p c]. cbn in E. subst p.
  destruct (Hg _ _ _ _ Hl) as [_ (j & v & Hv & Hp & Hk & Hph)].
  pose proof (distinct j i v w Hv Hw Hp Hk) as ->. intuition congruence.
Qed.

Lemma inv_granted i w s c :
  inv s → workers !! i = Some w → phase s i = Trying → locks s !! lock_key w = None →
  inv (set_phase i Leading (set_locks (<[lock_key w := (process w, c, 1%nat)]> (locks s)) s)).
Proof.
  intros [Hh Hg] Hw Hi Hl. split.
  - intros j v Hv. unfold holding. cbn. destruct (decide (j = i)) as [->|Hj].
    + rewrite upd_same. intros _. simplify_eq. exists c. apply lookup_insert_eq.
    + rewrite upd_other by done. intros Hho. destruct (Hh j v Hv Hho) as [c' E]. exists c'.
      rewrite lookup_insert_ne; [done|]. intros Ek. rewrite Ek in Hl. congruence.
  - intros k p c' n. cbn. destruct (decide (k = lock_key w)) as [->|Hk].
    + rewrite lookup_insert_eq. intros [= <- <- <-]. split; [done|]. exists i, w. rewrite upd_same. auto.
    + rewrite lookup_insert_ne by done. intros E. destruct (Hg _ _ _ _ E) as [Hn (j & v & Hv & Hp & Hkk & Hph)].
      split; [done|]. exists j, v. split_and!; [done..|]. rewrite upd_other; [done|]. intros ->. intuition congruence.
Qed.

Lemma inv_released i w s served :
  inv s → workers !! i = Some w → phase s i = Releasing →
  inv (set_phase i Returned (set_locks (unlock w served (locks s)) s)).
Proof.
  intros [Hh Hg] Hw Hi. split.
  - intros j v Hv. unfold holding. cbn. destruct (decide (j = i)) as [->|Hj]; [by rewrite upd_same|].
    rewrite upd_other by done. intros Hho. destruct (Hh j v Hv Hho) as [c E]. exists c.
    destruct (decide (lock_key v = lock_key w)) as [Ek|Ek]; [|by rewrite unlock_other].
    rewrite (unlock_not_owner w served (locks s) (process v, c) 1); [done|by rewrite <- Ek|].
    intros c' _ [= Ep _]. apply Hj. by apply (distinct j i v w).
  - intros k p c n. cbn. intros E. destruct (unlock_sub _ _ _ _ _ _ E) as [m Em].
    destruct (Hg _ _ _ _ Em) as [-> (j & v & Hv & Hp & Hkk & Hph)]. split.
    + destruct (decide (k = lock_key w)) as [->|Hk]; [|rewrite unlock_other in E by done; congruence].
      revert E. unfold unlock. destruct served as [c'|]; [|congruence]. unfold pg_advisory_unlock. rewrite Em.
      case_decide; cbn; [by rewrite lookup_delete_eq|congruence].
    + exists j, v. split_and!; [done..|]. destruct (decide (j = i)) as [->|Hj]; [rewrite upd_same; auto|by rewrite upd_other].
Qed.

Lemma inv_closed ses s : inv s → dispensable ses s → inv (set_locks (end_session ses (locks s)) s).
Proof.
  intros [Hh Hg] Hd. split; cbn.
  - intros i w Hw Hho. destruct (Hh i w Hw Hho) as [c E]. exists c. apply map_lookup_filter_Some. split; [done|].
    cbn. intros E'. apply (Hd i w 1%nat Hw Hho). by rewrite <- E'.
  - intros k p c n E. apply map_lookup_filter_Some in E as [E _]. exact (Hg k p c n E).
Qed.

Lemma inv_step e s s' :
  inv s → step e s = Some s' → (∀ ses, e = Close ses → dispensable ses s) → inv s'.
Proof.
  intros Hi Hs Hd. destruct e as [i ok|i|i|i served|i|i served|ses];
    [..|injection Hs as <-; by apply inv_closed; [|apply Hd]];
    cbn in Hs; apply bind_Some in Hs as (w & Hw & Hs); cbn in Hs; destruct (phase s i) eqn:Hp; try done.
  - injection Hs as <-. apply inv_move; [done|auto|destruct ok; auto].
  - injection Hs as <-. apply inv_move; auto.
  - injection Hs as <-. apply inv_move; auto.
  - destruct (try_lock w served (locks s)) as [[] l] eqn:E; injection Hs as <-; apply inv_active.
    + apply try_lock_grant in E as (c & -> & -> & Ho). destruct (locks s !! lock_key w) as [[o n]|] eqn:El.
      * destruct (trying_not_held i w s o n Hi Hw Hp El). by rewrite (Ho o n eq_refl).
      * by apply inv_granted.
    + apply try_lock_refuse in E as ->. change (inv (set_phase i Waiting s)). by apply inv_refused.
  - injection Hs as <-. destruct Hi as [Hh Hg]. split.
    + intros j v Hv. unfold holding. cbn. destruct (decide (j = i)) as [->|Hj].
      * intros _. apply (Hh i v Hv). unfold holding. by rewrite Hp.
      * rewrite upd_other by done. apply (Hh j v Hv).
    + intros k q c n Hk. destruct (Hg k q c n Hk) as [Hn (j & v & Hv & Hq & Hkk & Hph)]. split; [done|].
      exists j, v. split_and!; [done..|]. cbn. destruct (decide (j = i)) as [->|Hj]; [rewrite upd_same; auto|by rewrite upd_other].
  - injection Hs as <-. apply inv_active. by apply inv_released.
Qed.

Lemma reach_inv s : reach s → inv s.
Proof. induction 1 as [|e s s' _ IH Hs Hd]; [apply leader_inv_init|by apply (inv_step e s)]. Qed.

End Distinct.
End System.

Section Facts.
Context (ws : list Worker).

Lemma steps_reach es s s' :
  reach ws s → steps ws es s = Some s' → forallb (λ e, negb (closes e)) es = true → reach ws s'.
Proof.
  revert s. induction es as [|e es IH]; cbn; intros s Hr; [by intros [= ->]|].
  intros (s1 & Hs & Hss)%bind_Some [Hc Hcs]%andb_true_iff. apply (IH s1); [|done..].
  apply (reach_step ws e s); [done..|]. by intros ses ->.
Qed.

Lemma step_worker e s s' :
  step ws e s = Some s' → closes e = false → ∃ i w, ws !! i = Some w ∧ worker_of e = Some i ∧ run_step i w e s = Some s'.
Proof.
  intros Hs Hc. destruct e as [j ok|j|j|j served|j|j served|ses]; [..|done];
    cbn in Hs; apply bind_Some in Hs as (w & Hw & Hs); by exists j, w.
Qed.

(** What a step of another worker leaves alone. *)
Lemma run_step_phase i w e s s' j : run_step i w e s = Some s' → j ≠ i → phase s' j = phase s j.
Proof.
  unfold run_step. intros Hs Hj. destruct e, (phase s i); try done; cbn in Hs;
    try (injection Hs as <-; cbn; by rewrite upd_other).
  destruct (try_lock w served (locks s)) as [a l]. injection Hs as <-. cbn. by rewrite upd_other.
Qed.

Lemma run_step_returned i w e s : phase s i = Returned → run_step i w e s = None.
Proof. intros H. unfold run_step. rewrite H. by destruct e. Qed.

(** A lock whose owner has returned stays where it is. *)
Lemma orphan_lock_stays i w c e s s' :
  one_per_network ws → inv ws s → ws !! i = Some w → phase s i = Returned →
  locks s !! lock_key w = Some ((process w, c), 1%nat) →
  step ws e s = Some s' → closes e = false →
  phase s' i = Returned ∧ locks s' !! lock_key w = Some ((process w, c), 1%nat).
Proof.
  intros Hd Hi Hw Hp Hl Hs Hc. destruct (step_worker e s s' Hs Hc) as (j & v & Hv & _ & Hr).
  assert (j ≠ i) as Hji by (intros ->; by rewrite run_step_returned in Hr).
  split; [rewrite (run_step_phase j v e s s' i Hr); auto|].
  assert (∀ c' : nat, lock_key v = lock_key w → (process w, c) ≠ (process v, c')) as Hown.
  { intros c' Ek [= Ep _]. apply Hji. by apply (Hd j i v w). }
  unfold run_step in Hr. destruct e, (phase s j) eqn:Hpj; try done; cbn in Hr; try (injection Hr as <-; exact Hl).
  - destruct (try_lock v served (locks s)) as [[] l] eqn:E; injection Hr as <-; cbn.
    + apply try_lock_grant in E as (c' & _ & -> & Ho). destruct (decide (lock_key v = lock_key w)) as [Ek|Ek].
      * destruct (Hown c' Ek). apply (Ho (process w, c) 1%nat). by rewrite Ek.
      * by rewrite lookup_insert_ne.
    + by apply try_lock_refuse in E as ->.
  - injection Hr as <-. cbn. destruct (decide (lock_key v = lock_key w)) as [Ek|Ek]; [|by rewrite unlock_other].
    rewrite (unlock_not_owner v served (locks s) (process w, c) 1); [done|by rewrite Ek|]. intros c' _. by apply Hown.
Qed.

Lemma orphan_lock_lasts i w c es s s' :
  one_per_network ws → reach ws s → ws !! i = Some w → phase s i = Returned →
  locks s !! lock_key w = Some ((process w, c), 1%nat) →
  steps ws es s = Some s' → forallb (λ e, negb (closes e)) es = true →
  phase s' i = Returned ∧ locks s' !! lock_key w = Some ((process w, c), 1%nat).
Proof.
  intros Hd Hr Hw. revert s Hr. induction es as [|e es IH]; cbn; intros s Hr Hp Hl; [by intros [= ->]|].
  intros (s1 & Hs & Hss)%bind_Some [Hc%negb_true_iff Hcs]%andb_true_iff.
  destruct (orphan_lock_stays i w c e s s1) as [Hp1 Hl1]; try done; [by apply reach_inv|].
  apply (IH s1); [|done..]. apply (reach_step ws e s); [done..|]. by intros ses ->.
Qed.

(** ** The lock *)

(** C13. As long as no connection ends while it holds the lock of a worker that
    relies on it, and no process runs two workers for a network, at most one
    worker in all processes indexes a network, and a connection of its process
    has the network's lock. *)
Theorem leader_unique s i j wi wj
    (Hd : one_per_network ws) (Hr : reach ws s) (Hi : ws !! i = Some wi) (Hj : ws !! j = Some wj)
    (Hk : lock_key wi = lock_key wj) (Hli : holding s i = true) (Hlj : holding s j = true) :
  i = j ∧ ∃ c, locks s !! lock_key wi = Some ((process wi, c), 1%nat).
Proof.
  destruct (reach_inv ws Hd s Hr) as [Hh _].
  destruct (Hh i wi Hi Hli) as [c E], (Hh j wj Hj Hlj) as [c' E']. split; [|by exists c].
  apply (Hd i j wi wj); [done..| |done]. rewrite Hk in E. congruence.
Qed.

(** Nothing ties the lock to the leader: when the pool or the server ends the
    connection that got it, the leader goes on and the next standby leads too. *)
Theorem lost_connection_two_leaders s i j wi wj
    (Hd : one_per_network ws) (Hr : reach ws s) (Hi : ws !! i = Some wi) (Hj : ws !! j = Some wj)
    (Hne : process wi ≠ process wj) (Hk : lock_key wi = lock_key wj)
    (Hli : leads s i = true) (Htj : phase s j = Trying) :
  ∃ ses s', steps ws [Close ses; TryLock j (Some 0%nat)] s = Some s' ∧ leads s' i = true ∧ leads s' j = true.
Proof.
  apply bool_decide_eq_true in Hli. destruct (reach_inv ws Hd s Hr) as [Hh _].
  destruct (Hh i wi Hi) as [c E]; [unfold holding; by rewrite Hli|].
  exists (process wi, c). cbn. rewrite Hj. cbn. rewrite Htj. unfold try_lock, pg_try_advisory_lock. cbn.
  assert (end_session (process wi, c) (locks s) !! lock_key wj = None) as ->.
  { apply map_lookup_filter_None. right. intros x Hx. rewrite <- Hk, E in Hx. injection Hx as <-. cbn. auto. }
  eexists. split; [done|]. unfold leads. cbn. rewrite upd_same, upd_other by congruence. by rewrite Hli.
Qed.

(** The release goes through the pool as well.  Unless it happens to run on the
    connection that was granted the lock, the lock stays, and no worker leads
    the network again until that connection ends. *)
Theorem release_on_other_connection s s1 i w served
    (Hd : one_per_network ws) (Hr : reach ws s) (Hw : ws !! i = Some w) (Hp : phase s i = Releasing)
    (Hs : ∀ c, served = Some c → locks s !! lock_key w ≠ Some ((process w, c), 1%nat))
    (Hu : step ws (Unlock i served) s = Some s1) es s2
    (Hss : steps ws es s1 = Some s2) (Hc : forallb (λ e, negb (closes e)) es = true)
    j v (Hv : ws !! j = Some v) (Hk : lock_key v = lock_key w) :
  leads s2 j = false.
Proof.
  assert (reach ws s1) as Hr1 by (by apply (reach_step ws (Unlock i served) s)).
  destruct (reach_inv ws Hd s Hr) as [Hh _]. destruct (Hh i w Hw) as [c E]; [unfold holding; by rewrite Hp|].
  cbn in Hu. rewrite Hw in Hu. cbn in Hu. rewrite Hp in Hu. injection Hu as <-.
  edestruct (orphan_lock_lasts i w c es) as [Hp2 Hl2]; try done.
  - cbn. by rewrite upd_same.
  - cbn. rewrite (unlock_not_owner w served (locks s) (process w, c) 1); [done..|]. intros c' -> [= <-]. by apply (Hs c).
  - apply bool_decide_eq_false. intros Hlead.
    assert (reach ws s2) as Hr2 by (by eapply steps_reach).
    destruct (reach_inv ws Hd s2 Hr2) as [Hh2 _]. destruct (Hh2 j v Hv) as [c' E']; [unfold holding; by rewrite Hlead|].
    rewrite Hk in E'. assert (j = i) as -> by (apply (Hd j i v w); [done..|congruence|done]). congruence.
Qed.

(** Released on the connection that was granted it, the lock goes to the next
    standby that asks. *)
Theorem release_promotes s s1 i j w v c c'
    (Hd : one_per_network ws) (Hr : reach ws s) (Hw : ws !! i = Some w) (Hv : ws !! j = Some v)
    (Hp : phase s i = Releasing) (Hl : locks s !! lock_key w = Some ((process w, c), 1%nat))
    (Hu : step ws (Unlock i (Some c)) s = Some s1) (Hk : lock_key v = lock_key w) (Ht : phase s j = Trying) :
  ∃ s2, step ws (TryLock j (Some c')) s1 = Some s2 ∧ leads s2 j = true ∧ holding s2 i = false.
Proof.
  assert (j ≠ i) as Hj by congruence.
  cbn in Hu. rewrite Hw in Hu. cbn in Hu. rewrite Hp in Hu. injection Hu as <-. cbn. rewrite Hv. cbn.
  rewrite (upd_other i j) by done. rewrite Ht. unfold try_lock, unlock, pg_try_advisory_lock, pg_advisory_unlock. rewrite Hl.
  rewrite decide_True by done. cbn. rewrite Hk, lookup_delete_eq. eexists. split; [done|].
  unfold leads, holding. cbn. rewrite upd_same, (upd_other j i), upd_same by done. done.
Qed.

(** ** The flag of the status page *)

(** In a process with one worker, [is_active_indexer] says whether it indexes. *)
Theorem flag_of_single_worker s i w
    (Hr : reach ws s) (Hw : ws !! i = Some w)
    (Hone : ∀ j v, ws !! j = Some v → process v = process w → j = i) :
  is_active_indexer s (process w) = holding s i.
Proof.
  induction Hr as [|e s s' _ IH Hs Hd]; [done|].
  destruct (closes e) eqn:Hc; [by destruct e; try done; injection Hs as <-|].
  destruct (step_worker e s s' Hs Hc) as (j & v & Hv & _ & Hrs). clear Hs Hd. unfold run_step in Hrs.
  destruct (decide (j = i)) as [->|Hj].
  - assert (v = w) as -> by congruence. unfold holding in *.
    destruct e, (phase s i) eqn:Hp; try done; cbn in Hrs.
    + injection Hrs as <-. cbn. rewrite upd_same, IH. by destruct ok.
    + injection Hrs as <-. cbn. by rewrite upd_same, IH.
    + injection Hrs as <-. cbn. by rewrite upd_same, IH.
    + destruct (try_lock w served (locks s)) as [[] l]; injection Hrs as <-; cbn; by rewrite !upd_same.
    + injection Hrs as <-. cbn. by rewrite upd_same, IH.
    + injection Hrs as <-. cbn. by rewrite !upd_same.
  - assert (process w ≠ process v) as Hpr by (intros E; apply Hj; by apply (Hone j v)).
    assert (holding s' i = holding s i) as -> by (unfold holding; by rewrite (run_step_phase j v e s s' i) by auto).
    rewrite <- IH. destruct e, (phase s j); try done; cbn in Hrs;
      try (destruct (try_lock v served (locks s)) as [a l]); injection Hrs as <-; cbn; by rewrite ?upd_other.
Qed.

(** The flag is shared by the workers of a process, each of which writes it: a
    worker that is refused the lock of its network clears the flag while another
    one leads. *)
Theorem standby_clears_flag s i j w v served
    (Hw : ws !! i = Some w) (Hv : ws !! j = Some v) (Hpr : process v = process w)
    (Hli : leads s i = true) (Ht : phase s j = Trying) (Hf : (try_lock v served (locks s)).1 = false) :
  ∃ s', step ws (TryLock j served) s = Some s' ∧ leads s' i = true ∧ is_active_indexer s' (process w) = false.
Proof.
  apply bool_decide_eq_true in Hli. cbn. rewrite Hv. cbn. rewrite Ht.
  destruct (try_lock v served (locks s)) as [a l]. cbn in Hf. subst a. eexists. split; [done|].
  unfold leads. cbn. rewrite Hpr, upd_same, upd_other by congruence. by rewrite Hli.
Qed.

(** Session locks are re-entrant: two workers of a process for the same network
    (a network listed twice) can both lead. *)
Theorem same_network_twice s i j w v c n
    (Hw : ws !! i = Some w) (Hv : ws !! j = Some v) (Hpr : process v = process w) (Hk : lock_key v = lock_key w)
    (Hli : leads s i = true) (Ht : phase s j = Trying) (Hl : locks s !! lock_key w = Some ((process w, c), n)) :
  ∃ s', step ws (TryLock j (Some c)) s = Some s' ∧ leads s' i = true ∧ leads s' j = true.
Proof.
  apply bool_decide_eq_true in Hli. cbn. rewrite Hv. cbn. rewrite Ht.
  unfold try_lock, pg_try_advisory_lock. rewrite Hk, Hl, Hpr, decide_True by done. eexists. split; [done|].
  unfold leads. cbn. rewrite upd_same, upd_other by congruence. by rewrite Hli.
Qed.

End Facts.

(** ** Witnesses

    Two processes index mainnet and the first one testnet as well. *)

Definition demo_workers : list Worker := [mkWorker 0 "mainnet"; mkWorker 1 "mainnet"; mkWorker 0 "testnet"].

(** Worker 0 leads mainnet; worker 1 has asked once and asks again. *)
Definition demo_events : list Event :=
  [Acquire 0 true; Tick 0; TryLock 0 (Some 3%nat); Acquire 1 true; Tick 1; TryLock 1 (Some 0%nat); Tick 1].

Definition demo_state : State := default init (steps demo_workers demo_events init).
Definition demo_releasing : State := default init (steps demo_workers [LoopEnds 0] demo_state).
Definition demo_two_networks : State := default init (steps demo_workers [Acquire 2 true; Tick 2] demo_state).

Lemma demo_distinct : one_per_network demo_workers.
Proof.
  intros i j wi wj Hi Hj Hp Hk.
  assert (lock_key (mkWorker 0 "mainnet") ≠ lock_key (mkWorker 0 "testnet")) by (by vm_compute).
  destruct i as [|[|[|i]]], j as [|[|[|j]]]; try discriminate Hi; try discriminate Hj; try reflexivity;
    injection Hi as <-; injection Hj as <-; first [discriminate Hp|by destruct H].
Qed.

Lemma default_some {A} (d : A) o : match o with Some _ => true | None => false end = true → o = Some (default d o).
Proof. by destruct o. Qed.

Lemma demo_reach : reach demo_workers demo_state.
Proof.
  apply (steps_reach demo_workers demo_events init); [apply reach_init| |reflexivity].
  apply default_some. by vm_compute.
Qed.

Lemma demo_releasing_reach : reach demo_workers demo_releasing.
Proof.
  apply (steps_reach demo_workers [LoopEnds 0] demo_state); [apply demo_reach| |reflexivity].
  apply default_some. by vm_compute.
Qed.

Lemma leader_unique_witness : ∃ c, locks demo_state !! Indexer.INDEXER_LOCK_KEY = Some ((0%nat, c), 1%nat).
Proof.
  apply (leader_unique demo_workers demo_state 0 0 (mkWorker 0 "mainnet") (mkWorker 0 "mainnet"));
    [apply demo_distinct|apply demo_reach|by vm_compute..].
Defined.

Lemma lost_connection_two_leaders_witness :
  ∃ ses s', steps demo_workers [Close ses; TryLock 1 (Some 0%nat)] demo_state = Some s' ∧ leads s' 0 = true ∧ leads s' 1 = true.
Proof.
  apply (lost_connection_two_leaders demo_workers demo_state 0 1 (mkWorker 0 "mainnet") (mkWorker 1 "mainnet"));
    [apply demo_distinct|apply demo_reach|by vm_compute..].
Defined.

Lemma release_on_other_connection_witness :
  match steps demo_workers [Unlock 0 (Some 4%nat); TryLock 1 (Some 0%nat); Tick 1; TryLock 1 (Some 1%nat)] demo_releasing with
  | Some s2 => leads s2 1 = false
  | None => False
  end.
Proof.
  destruct (steps demo_workers _ demo_releasing) as [s2|] eqn:E; [|by vm_compute in E].
  change (steps demo_workers [Unlock 0 (Some 4%nat); TryLock 1 (Some 0%nat); Tick 1; TryLock 1 (Some 1%nat)] demo_releasing)
    with (s1 ← step demo_workers (Unlock 0 (Some 4%nat)) demo_releasing;
          steps demo_workers [TryLock 1 (Some 0%nat); Tick 1; TryLock 1 (Some 1%nat)] s1) in E.
  apply bind_Some in E as (s1 & E1 & E2).
  apply (release_on_other_connection demo_workers demo_releasing s1 0 (mkWorker 0 "mainnet") (Some 4%nat) demo_distinct
           demo_releasing_reach eq_refl eq_refl) 
           with (es := [TryLock 1 (Some 0%nat); Tick 1; TryLock 1 (Some 1%nat)]) (v := mkWorker 1 "mainnet"); [|exact E1|exact E2|by vm_compute..].
  intros c [= <-]. by vm_compute.
Defined.

Lemma release_promotes_witness :
  match step demo_workers (Unlock 0 (Some 3%nat)) demo_releasing with
  | Some s1 => ∃ s2, step demo_workers (TryLock 1 (Some 7%nat)) s1 = Some s2 ∧ leads s2 1 = true ∧ holding s2 0 = false
  | None => False
  end.
Proof.
  destruct (step demo_workers _ demo_releasing) as [s1|] eqn:E; [|by vm_compute in E].
  apply (release_promotes demo_workers demo_releasing s1 0 1 (mkWorker 0 "mainnet") (mkWorker 1 "mainnet") 3 7);
    [apply demo_distinct|apply demo_releasing_reach|reflexivity..|exact E|by vm_compute|by vm_compute].
Defined.

Lemma flag_of_single_worker_witness : is_active_indexer demo_state 1 = holding demo_state 1.
Proof.
  apply (flag_of_single_worker demo_workers demo_state 1 (mkWorker 1 "mainnet")); [apply demo_reach|by vm_compute|].
  intros [|[|[|j]]] v Hv Hp; cbn in Hv; simplify_eq; done.
Defined.

Lemma standby_clears_flag_witness :
  ∃ s', step demo_workers (TryLock 2 None) demo_two_networks = Some s' ∧ leads s' 0 = true ∧ is_active_indexer s' 0 = false.
Proof. apply (standby_clears_flag demo_workers demo_two_networks 0 2 (mkWorker 0 "mainnet") (mkWorker 0 "testnet")); by vm_compute. Defined.

Lemma same_network_twice_witness :
  let ws := [mkWorker 0 "mainnet"; mkWorker 0 "mainnet"] in
  let s := default init (steps ws [Acquire 0 true; Tick 0; TryLock 0 (Some 3%nat); Acquire 1 true; Tick 1] init) in
  ∃ s', step ws (TryLock 1 (Some 3%nat)) s = Some s' ∧ leads s' 0 = true ∧ leads s' 1 = true.
Proof. intros ws s. apply (same_network_twice ws s 0 1 (mkWorker 0 "mainnet") (mkWorker 0 "mainnet") 3 1); by vm_compute. Defined.

End Leader.
