(* ===== verification/WebhookContent.v ===== *)
(** The content of webhooks: payload templates (webhook_template.rs) and the log
    of requests and responses (webhook_logging.rs).

    The parser and printer of JSON, the text of a number and generated ids are
    parameters. *)

From S2P Require Import Prelude Text Model Pg.

(** ** webhook_template.rs *)

Module WebhookTemplate.

Definition variable_char (a : ascii) : bool :=
  let n := Z.of_nat (nat_of_ascii a) in
  ((97 <=? n) && (n <=? 122)) || ((65 <=? n) && (n <=? 90)) || ((48 <=? n) && (n <=? 57)) ||
  Ascii.eqb a "_" || Ascii.eqb a "." || Ascii.eqb a "[" || Ascii.eqb a "]".

(** The characters of a reference that [validate] looks at: no brackets. *)
Definition plain_char (a : ascii) : bool := variable_char a && negb (Ascii.eqb a "[" || Ascii.eqb a "]").

(** The longest prefix of characters of the class, and the rest. *)
Fixpoint class_run (cls : ascii → bool) (s : string) : string * string :=
  match s with
  | String a r => if cls a then let '(x, y) := class_run cls r in (String a x, y) else (EmptyString, s)
  | EmptyString => (EmptyString, EmptyString)
  end.

(** The expression at the start of a text: two opening braces, characters of the
    class, two closing braces.  The class has no brace, so the greedy match is
    the only one. *)
Definition match_at (cls : ascii → bool) (s : string) : option (string * string) :=
  let! s1 := strip_prefix "{{" s in
  let '(name, s2) := class_run cls s1 in
  if is_empty name then None
  else let! s3 := strip_prefix "}}" s2 in Some (name, s3).

(** [captures_iter]: the names of the leftmost matches that do not overlap. *)
Fixpoint captures_from (cls : ascii → bool) (fuel : nat) (s : string) : list string :=
  match fuel with
  | O => []
  | S f =>
      match match_at cls s, s with
      | Some (name, rest), _ => name :: captures_from cls f rest
      | None, String _ r => captures_from cls f r
      | None, EmptyString => []
      end
  end.

Definition captures_iter (cls : ascii → bool) (s : string) : list string := captures_from cls (S (String.length s)) s.

(** [str::replace] for a pattern that is not empty. *)
Fixpoint replace_from (pat v : string) (fuel : nat) (s : string) : string :=
  match fuel with
  | O => s
  | S f =>
      match strip_prefix pat s, s with
      | Some rest, _ => v +:+ replace_from pat v f rest
      | None, String a r => String a (replace_from pat v f r)
      | None, EmptyString => EmptyString
      end
  end.

Definition replace (pat v s : string) : string := replace_from pat v (S (String.length s)) s.

(** [s.matches(pat).count()]. *)
Fixpoint matches_from (pat : string) (fuel : nat) (s : string) : nat :=
  match fuel with
  | O => O
  | S f =>
      match strip_prefix pat s, s with
      | Some rest, _ => S (matches_from pat f rest)
      | None, String _ r => matches_from pat f r
      | None, EmptyString => O
      end
  end.

Definition matches_count (pat s : string) : nat := matches_from pat (S (String.length s)) s.

Definition placeholder (name : string) : string := "{{" +:+ name +:+ "}}".

(** [WebhookTemplate::validate] *)
Definition validate (template : string) : result () string :=
  if negb (Nat.eqb (matches_count "{{" template) (matches_count "}}" template)) then Err "Unbalanced template braces"
  else match List.find (λ name, negb (string_forallb plain_char name)) (captures_iter plain_char template) with
       | Some name => Err ("Invalid variable reference: " +:+ placeholder name)
       | None => Ok ()
       end.

Section Template.
Variable number_text : number → string.
(** [serde_json::from_str] *)
Variable from_str : string → option Value.

Abbreviation Context := (gmap string string).

Definition child_key (prefix key : string) : string := if is_empty prefix then key else prefix +:+ "." +:+ key.
Definition item_key (prefix : string) (idx : nat) : string := prefix +:+ "[" +:+ show_u (Z.of_nat idx) +:+ "]".

Fixpoint flatten_json (prefix : string) (value : Value) (context : Context) : Context :=
  match value with
  | Object m => foldl (λ c kv, flatten_json (child_key prefix kv.1) kv.2 c) context m
  | Array arr =>
      (fix go (idx : nat) (l : list Value) (c : Context) : Context :=
         match l with
         | [] => c
         | v :: rest => go (S idx) rest (flatten_json (item_key prefix idx) v c)
         end) O arr context
  | VString s => <[prefix := s]> context
  | Number n => <[prefix := number_text n]> context
  | Bool b => <[prefix := if b then "true"%string else "false"%string]> context
  | Null => <[prefix := "null"%string]> context
  end.

Definition extract_context (event : Value) : Context := flatten_json "" event ∅.

Definition value_of (context : Context) (name : string) : string := default EmptyString (context !! name).

(** The text of the payload: the references of the template are replaced one
    after the other. *)
Definition interpolate_text (template : string) (context : Context) : string :=
  foldl (λ res name, replace (placeholder name) (value_of context name) res) template (captures_iter variable_char template).

Definition interpolate_template (template : string) (context : Context) : result Value string :=
  let res := interpolate_text template context in
  Ok match from_str res with Some v => v | None => Object [("result"%string, VString res)] end.

Definition transform (template : string) (event : Value) : result Value string :=
  interpolate_template template (extract_context event).

(** webhook.rs *)
Definition transform_webhook_payload (template : string) (event : Value) : result Value string :=
  let? _ := validate template in transform template event.

End Template.

(** ** Templates as tokens *)

Inductive Token : Type := Lit (s : string) | Var (name : string).

Definition token_text (t : Token) : string := match t with Lit s => s | Var n => placeholder n end.

Fixpoint text (ts : list Token) : string :=
  match ts with [] => EmptyString | t :: rest => token_text t +:+ text rest end.

Fixpoint vars (ts : list Token) : list string :=
  match ts with [] => [] | Lit _ :: rest => vars rest | Var n :: rest => n :: vars rest end.

(** Text that opens no reference, whatever follows it. *)
Fixpoint lit_ok (s : string) : bool :=
  match s with
  | EmptyString => true
  | String a r => negb (Ascii.eqb a "{" && match r with String b _ => Ascii.eqb b "{" | EmptyString => true end) && lit_ok r
  end.

Definition name_ok (n : string) : bool := negb (is_empty n) && string_forallb variable_char n.

Definition token_ok (t : Token) : bool := match t with Lit s => lit_ok s | Var n => name_ok n end.

(** The references replaced by their values, in one pass. *)
Definition render (val : string → string) (ts : list Token) : string :=
  text (map (λ t, match t with Var n => Lit (val n) | _ => t end) ts).

Definition subst (p v : string) (ts : list Token) : list Token :=
  map (λ t, match t with Var n => if String.eqb n p then Lit v else t | _ => t end) ts.

(** ** Lemmas *)

#[local] Arguments variable_char : simpl never.

Lemma variable_char_brace a : variable_char a = true → Ascii.eqb a "{" = false ∧ Ascii.eqb a "}" = false.
Proof. destruct a as [[] [] [] [] [] [] [] []]; vm_compute; auto. Qed.

Lemma strip_cons a p b s :
  strip_prefix (String a p) (String b s) = if Ascii.eqb a b then strip_prefix p s else None.
Proof. done. Qed.

Lemma lit_ok_head a r t :
  lit_ok (String a r) = true → strip_prefix "{{" (String a r +:+ t) = None.
Proof.
  intros [H%negb_true_iff _]%andb_true_iff. change (String a r +:+ t) with (String a (r +:+ t)).
  rewrite strip_cons, Ascii.eqb_sym. destruct (Ascii.eqb a "{"); [|done]. destruct r as [|b r]; [done|].
  change (String b r +:+ t) with (String b (r +:+ t)). rewrite strip_cons, Ascii.eqb_sym. by destruct (Ascii.eqb b "{").
Qed.

Lemma lit_ok_tail a r : lit_ok (String a r) = true → lit_ok r = true.
Proof. cbn. by intros [_ ?]%andb_true_iff. Qed.

Lemma strip_braces pat s : strip_prefix "{{" s = None → strip_prefix ("{{" +:+ pat) s = None.
Proof.
  destruct s as [|a [|b s]]; [done|change ("{{" +:+ pat) with (String "{" (String "{" pat)); rewrite !strip_cons; by case_match|].
  change ("{{" +:+ pat) with (String "{" (String "{" pat)). rewrite !strip_cons.
  destruct (Ascii.eqb "{" a); [|done]. by destruct (Ascii.eqb "{" b).
Qed.

(** What the scanners do on text that opens no reference: nothing. *)
Lemma replace_skip pat v s t f :
  (∀ u, strip_prefix "{{" u = None → strip_prefix pat u = None) → lit_ok s = true →
  replace_from pat v (String.length s + f) (s +:+ t) = s +:+ replace_from pat v f t.
Proof.
  intros Hp. revert f. induction s as [|a s IH]; intros f Hs; [done|].
  change (String.length (String a s) + f)%nat with (S (String.length s + f)). cbn [replace_from].
  rewrite (Hp _ (lit_ok_head a s t Hs)). change (String a s +:+ t) with (String a (s +:+ t)).
  cbv beta iota. by rewrite IH by (by eapply lit_ok_tail).
Qed.

Lemma placeholder_opens p u : strip_prefix "{{" u = None → strip_prefix (placeholder p) u = None.
Proof. apply strip_braces. Qed.

Lemma captures_skip s t f :
  lit_ok s = true → captures_from variable_char (String.length s + f) (s +:+ t) = captures_from variable_char f t.
Proof.
  revert f. induction s as [|a s IH]; intros f Hs; [done|].
  change (String.length (String a s) + f)%nat with (S (String.length s + f)). cbn [captures_from].
  unfold match_at. rewrite (lit_ok_head a s t Hs). cbn [option_bind]. change (String a s +:+ t) with (String a (s +:+ t)).
  cbv beta iota. by rewrite IH by (by eapply lit_ok_tail).
Qed.

Lemma class_run_name n t :
  string_forallb variable_char n = true → class_run variable_char (n +:+ "}}" +:+ t) = (n, "}}" +:+ t).
Proof.
  induction n as [|a n IH]; [done|]. intros [Ha Hn]%andb_true_iff.
  change (String a n +:+ "}}" +:+ t) with (String a (n +:+ "}}" +:+ t)). cbn [class_run]. by rewrite Ha, IH.
Qed.

Lemma placeholder_app n t : placeholder n +:+ t = "{{" +:+ n +:+ "}}" +:+ t.
Proof. unfold placeholder. by rewrite !string_app_assoc. Qed.

Lemma match_at_name n t : name_ok n = true → match_at variable_char (placeholder n +:+ t) = Some (n, t).
Proof.
  intros [Hn Hc]%andb_true_iff. rewrite placeholder_app. unfold match_at. rewrite strip_prefix_app. cbn [option_bind].
  rewrite class_run_name by done. cbv beta iota. rewrite strip_prefix_app. by destruct (is_empty n).
Qed.

(** A placeholder without its first brace opens no reference. *)
Lemma lit_ok_other a r : Ascii.eqb a "{" = false → lit_ok (String a r) = lit_ok r.
Proof. intros H. cbn [lit_ok]. by rewrite H. Qed.

Lemma lit_ok_name n s : string_forallb variable_char n = true → lit_ok (n +:+ s) = lit_ok s.
Proof.
  induction n as [|a n IH]; [done|]. intros [Ha Hn]%andb_true_iff. change (String a n +:+ s) with (String a (n +:+ s)).
  rewrite lit_ok_other by (by apply variable_char_brace in Ha as [? _]). by apply IH.
Qed.

Lemma placeholder_tail n : name_ok n = true → lit_ok ("{" +:+ n +:+ "}}") = true.
Proof.
  intros [Hn Hc]%andb_true_iff. destruct n as [|a n]; [done|].
  change ("{" +:+ String a n +:+ "}}") with (String "{" (String a (n +:+ "}}"))).
  pose proof (lit_ok_name (String a n) "}}" Hc) as H. change (String a n +:+ "}}") with (String a (n +:+ "}}")) in H.
  apply andb_true_iff in Hc as [Ha _]. apply variable_char_brace in Ha as [Ha _].
  change (lit_ok (String "{" (String a (n +:+ "}}")))) with
    (negb (Ascii.eqb "{" "{" && Ascii.eqb a "{") && lit_ok (String a (n +:+ "}}"))). by rewrite Ha, H.
Qed.

Lemma strip_name n p t :
  string_forallb variable_char n = true → string_forallb variable_char p = true → n ≠ p →
  strip_prefix (p +:+ "}}") (n +:+ "}}" +:+ t) = None.
Proof.
  revert p. induction n as [|a n IH]; intros [|b p] Hn Hp Hne; [done|..].
  - apply andb_true_iff in Hp as [Hb _]. apply variable_char_brace in Hb as [_ Hb].
    change (String b p +:+ "}}") with (String b (p +:+ "}}")).
    change ("" +:+ "}}" +:+ t) with (String "}" (String "}" t)). by rewrite strip_cons, Hb.
  - apply andb_true_iff in Hn as [Ha _]. apply variable_char_brace in Ha as [_ Ha].
    change ("" +:+ "}}") with (String "}" (String "}" "")).
    change (String a n +:+ "}}" +:+ t) with (String a (n +:+ "}}" +:+ t)). by rewrite strip_cons, Ascii.eqb_sym, Ha.
  - apply andb_true_iff in Hn as [_ Hn], Hp as [_ Hp].
    change (String a n +:+ "}}" +:+ t) with (String a (n +:+ "}}" +:+ t)).
    change (String b p +:+ "}}") with (String b (p +:+ "}}")). rewrite strip_cons.
    destruct (Ascii.eqb_spec b a) as [->|]; [|done]. apply IH; [done..|congruence].
Qed.

Lemma placeholder_length n : String.length (placeholder n) = S (String.length ("{" +:+ n +:+ "}}")).
Proof. done. Qed.

Lemma text_subst p v ts f :
  name_ok p = true → Forall (λ t, token_ok t = true) ts → (String.length (text ts) < f)%nat →
  replace_from (placeholder p) v f (text ts) = text (subst p v ts).
Proof.
  intros Hp Hts. revert f. induction Hts as [|t ts Ht Hts IH]; intros f Hf; [by destruct f|].
  destruct t as [s|n]; cbn [text token_text] in *; rewrite string_length_app in Hf.
  - replace f with (String.length s + (f - String.length s))%nat by lia. rewrite replace_skip by (done || apply placeholder_opens).
    change (text (subst p v (Lit s :: ts))) with (s +:+ text (subst p v ts)). f_equal. apply IH. lia.
  - cbn [token_ok] in Ht.
    change (text (subst p v (Var n :: ts))) with (token_text (if String.eqb n p then Lit v else Var n) +:+ text (subst p v ts)).
    destruct (String.eqb_spec n p) as [->|Hne]; cbn [token_text].
    + destruct f as [|f]; [lia|]. cbn [replace_from]. rewrite strip_prefix_app. f_equal. apply IH.
      rewrite placeholder_length in Hf. lia.
    + destruct f as [|f]; [lia|]. rewrite placeholder_length in Hf. cbn [replace_from].
      assert (strip_prefix (placeholder p) (placeholder n +:+ text ts) = None) as ->.
      { rewrite placeholder_app. unfold placeholder. cbn. apply andb_true_iff in Hp as [_ Hp], Ht as [_ Ht]. by apply strip_name. }
      change (placeholder n +:+ text ts) with (String "{" (("{" +:+ n +:+ "}}") +:+ text ts)).
      set (w := "{" +:+ n +:+ "}}") in *.
      change (String "{" (replace_from (placeholder p) v f (w +:+ text ts)) = String "{" (w +:+ text (subst p v ts))). f_equal.
      replace f with (String.length w + (f - String.length w))%nat by lia.
      rewrite replace_skip by (apply placeholder_opens || by apply placeholder_tail). f_equal. apply IH. lia.
Qed.

Lemma captures_text ts f :
  Forall (λ t, token_ok t = true) ts → (String.length (text ts) < f)%nat →
  captures_from variable_char f (text ts) = vars ts.
Proof.
  intros Hts. revert f. induction Hts as [|t ts Ht Hts IH]; intros f Hf; [by destruct f|].
  destruct t as [s|n]; cbn [text token_text vars] in *; rewrite string_length_app in Hf.
  - replace f with (String.length s + (f - String.length s))%nat by lia. rewrite captures_skip by done. apply IH. lia.
  - destruct f as [|f]; [lia|]. rewrite placeholder_length in Hf. cbn [captures_from]. rewrite match_at_name by done.
    f_equal. apply IH. lia.
Qed.

Lemma subst_ok p v ts :
  lit_ok v = true → Forall (λ t, token_ok t = true) ts → Forall (λ t, token_ok t = true) (subst p v ts).
Proof.
  intros Hv Hts. apply Forall_map. eapply Forall_impl; [exact Hts|]. intros [s|n]; cbn; [done|]. by case_match.
Qed.

Lemma subst_all val ps ts :
  foldl (λ ts p, subst p (val p) ts) ts ps =
  map (λ t, match t with Var n => if bool_decide (n ∈ ps) then Lit (val n) else t | _ => t end) ts.
Proof.
  revert ts. induction ps as [|p ps IH]; intros ts; cbn [foldl].
  - transitivity (map id ts); [by rewrite map_id|]. apply map_ext. by intros [|].
  - rewrite IH. unfold subst. rewrite map_map. apply map_ext. intros [s|n]; [done|].
    destruct (String.eqb_spec n p) as [->|Hne].
    + by rewrite bool_decide_eq_true_2 by (by left).
    + destruct (decide (n ∈ ps)) as [Hin|Hin].
      * by rewrite !bool_decide_eq_true_2 by (by try right).
      * rewrite !bool_decide_eq_false_2; [done| |done]. rewrite not_elem_of_cons. done.
Qed.

Lemma interpolate_subst val ps ts :
  (∀ p, p ∈ ps → name_ok p = true ∧ lit_ok (val p) = true) → Forall (λ t, token_ok t = true) ts →
  foldl (λ res p, replace (placeholder p) (val p) res) (text ts) ps = text (foldl (λ ts p, subst p (val p) ts) ts ps).
Proof.
  revert ts. induction ps as [|p ps IH]; intros ts Hp Hts; [done|]. cbn [foldl].
  destruct (Hp p) as [Hn Hv]; [by left|]. unfold replace at 2. rewrite text_subst by (done || lia).
  apply IH; [intros q Hq; apply Hp; by right|by apply subst_ok].
Qed.

Lemma vars_elem n ts : n ∈ vars ts ↔ Var n ∈ ts.
Proof.
  induction ts as [|[s|m] ts IH]; cbn [vars]; [by rewrite !elem_of_nil| |]; rewrite !elem_of_cons, IH; naive_solver.
Qed.

Lemma render_vars val ts :
  text (map (λ t, match t with Var n => if bool_decide (n ∈ vars ts) then Lit (val n) else t | _ => t end) ts) = render val ts.
Proof.
  unfold render. f_equal. apply map_ext_in. intros [s|n] Hin; [done|].
  by rewrite bool_decide_eq_true_2 by (apply vars_elem; by apply list_elem_of_In).
Qed.

Lemma class_run_class cls s : string_forallb cls (class_run cls s).1 = true.
Proof.
  induction s as [|a s IH]; [done|]. cbn [class_run]. destruct (cls a) eqn:E; [|done].
  destruct (class_run cls s) as [x y]. cbn in *. by rewrite E.
Qed.

Lemma captures_class cls f s n : n ∈ captures_from cls f s → string_forallb cls n = true.
Proof.
  revert s. induction f as [|f IH]; cbn [captures_from]; intros s; [by rewrite elem_of_nil|].
  destruct (match_at cls s) as [[m rest]|] eqn:E; [|destruct s; [by rewrite elem_of_nil|apply IH]].
  rewrite elem_of_cons. intros [->|Hn]; [|by apply IH in Hn]. revert E. unfold match_at.
  destruct (strip_prefix "{{" s) as [s1|]; [|done]. cbn [option_bind]. pose proof (class_run_class cls s1) as Hc.
  destruct (class_run cls s1) as [x y]. destruct (is_empty x); [done|]. destruct (strip_prefix "}}" y); [|done].
  by intros [= <- _].
Qed.

(** [validate] counts braces; its look at the references can find nothing, as
    the expression has selected their characters. *)
Theorem validate_counts_braces template :
  validate template = if Nat.eqb (matches_count "{{" template) (matches_count "}}" template) then Ok ()
                      else Err "Unbalanced template braces".
Proof.
  unfold validate. destruct (Nat.eqb _ _); [|done]. cbn [negb].
  destruct (List.find _ _) as [n|] eqn:E; [|done]. apply find_some in E as [Hin Hn].
  apply list_elem_of_In, captures_class in Hin. by rewrite Hin in Hn.
Qed.

Section Flatten.
Variable number_text : number → string.

Definition scalar_text (v : Value) : option string :=
  match v with
  | VString s => Some s
  | Number n => Some (number_text n)
  | Bool b => Some (if b then "true"%string else "false"%string)
  | Null => Some "null"%string
  | _ => None
  end.

(** A key without the separators of paths. *)
Definition plain_key (k : string) : bool := string_forallb (λ a, negb (Ascii.eqb a "." || Ascii.eqb a "[")) k.

Lemma plain_key_app x a y : plain_key (x +:+ String a y) = true → Ascii.eqb a "." || Ascii.eqb a "[" = false.
Proof.
  unfold plain_key. induction x as [|b x IH].
  - intros [H _]%andb_true_iff. by apply negb_true_iff in H.
  - intros [_ H]%andb_true_iff. by apply IH.
Qed.

Lemma child_key_other p key k : p ≠ EmptyString → plain_key k = true → child_key p key ≠ k ∧ child_key p key ≠ EmptyString.
Proof.
  intros Hp Hk. destruct p as [|a p]; [done|]. split; [|done]. cbn. intros <-.
  change (String a (p +:+ String "." key)) with (String a p +:+ String "." key) in Hk. by apply plain_key_app in Hk.
Qed.

Lemma item_key_other p i k : p ≠ EmptyString → plain_key k = true → item_key p i ≠ k ∧ item_key p i ≠ EmptyString.
Proof.
  intros Hp Hk. destruct p as [|a p]; [done|]. split; [|done]. intros <-. unfold item_key in Hk.
  change (String a p +:+ "[" +:+ show_u (Z.of_nat i) +:+ "]") with (String a p +:+ String "[" (show_u (Z.of_nat i) +:+ "]")) in Hk.
  by apply plain_key_app in Hk.
Qed.

(** Values below a key do not touch another top-level key. *)
Lemma flatten_other k (Hk : plain_key k = true) v :
  ∀ p c, p ≠ EmptyString → p ≠ k → flatten_json number_text p v c !! k = c !! k.
Proof.
  induction v as [| | | |l IH|l IH] using Value_nested_ind; intros p c Hp Hpk; cbn [flatten_json];
    try (by rewrite lookup_insert_ne).
  - generalize O as i. revert c. induction IH as [|v l Hv _ IHl]; intros c i; [done|].
    destruct (item_key_other p i k Hp Hk). rewrite IHl. by apply Hv.
  - revert c. induction IH as [|kv l Hv _ IHl]; intros c; cbn [foldl]; [done|].
    destruct (child_key_other p kv.1 k Hp Hk). rewrite IHl. by apply Hv.
Qed.

(** A field of the event with a scalar value is what its name refers to. *)
Theorem extract_field (l : list (string * Value)) k v t
    (Hn : NoDup (map fst l)) (He : Forall (λ kv, kv.1 ≠ EmptyString) l) (Hin : (k, v) ∈ l)
    (Hk : plain_key k = true) (Ht : scalar_text v = Some t) :
  extract_context number_text (Object l) !! k = Some t.
Proof.
  assert (k ≠ EmptyString) as Hke by (rewrite Forall_forall in He; by apply (He (k, v))).
  unfold extract_context. cbn [flatten_json]. generalize (∅ : gmap string string) as c.
  induction l as [|[k' v'] l IH]; intros c; [by apply elem_of_nil in Hin|].
  apply Forall_cons in He as [He' He]. cbn in Hn. apply NoDup_cons in Hn as [Hk' Hn]. cbn [foldl fst snd child_key is_empty].
  apply elem_of_cons in Hin as [[= <- <-]|Hin]; [|by apply IH].
  assert (∀ c' : gmap string string, foldl (λ c kv, flatten_json number_text (child_key "" kv.1) kv.2 c) c' l !! k = c' !! k) as ->.
  { clear IH Hn. induction l as [|[k' v'] l IH]; intros c'; cbn [foldl fst snd child_key is_empty]; [done|].
    apply Forall_cons in He as [He He2]. cbn in Hk'. apply not_elem_of_cons in Hk' as [Hne Hk'].
    rewrite IH by done. apply flatten_other; [done..|]. cbn. congruence. }
  destruct v; cbn in *; try done; injection Ht as <-; apply lookup_insert_eq.
Qed.
End Flatten.

(** When neither the text of the template nor a value of the event opens a
    reference, replacing the references one after the other gives every
    reference its value. *)
Theorem transform_substitutes (number_text : number → string) (from_str : string → option Value) ts event
    (Hts : Forall (λ t, token_ok t = true) ts)
    (Hv : ∀ n, n ∈ vars ts → lit_ok (value_of (extract_context number_text event) n) = true) :
  transform number_text from_str (text ts) event =
    Ok (let res := render (value_of (extract_context number_text event)) ts in
        match from_str res with Some v => v | None => Object [("result"%string, VString res)] end).
Proof.
  unfold transform, interpolate_template, interpolate_text, captures_iter.
  rewrite captures_text by (done || lia). rewrite interpolate_subst, subst_all, render_vars; [done| |done].
  intros n Hn. split; [|by apply Hv]. apply vars_elem in Hn. rewrite Forall_forall in Hts. by apply (Hts (Var n)).
Qed.

Definition demo_number (n : number) : string := match n with PosInt z => show_u z | _ => "0" end.

Definition demo_event : Value :=
  Object [("contract_id"%string, VString "CA123"); ("ledger"%string, Number (PosInt 7)); ("value"%string, Object [("to"%string, VString "G")])].

Lemma extract_field_witness : extract_context demo_number demo_event !! "ledger"%string = Some "7"%string.
Proof.
  apply (extract_field demo_number _ "ledger" (Number (PosInt 7)) "7").
  - apply (bool_decide_unpack _). by vm_compute.
  - by repeat constructor.
  - right. by left.
  - by vm_compute.
  - by vm_compute.
Defined.

Lemma transform_substitutes_witness :
  transform demo_number (λ _, None) "c={{contract_id}} l={{ledger}} t={{value.to}} x={{none}}." demo_event =
    Ok (Object [("result"%string, VString "c=CA123 l=7 t=G x=.")]).
Proof.
  set (ts := [Lit "c="; Var "contract_id"; Lit " l="; Var "ledger"; Lit " t="; Var "value.to"; Lit " x="; Var "none"; Lit "."]).
  change "c={{contract_id}} l={{ledger}} t={{value.to}} x={{none}}."%string with (text ts).
  rewrite (transform_substitutes demo_number (λ _, None) ts demo_event).
  - by vm_compute.
  - apply (bool_decide_unpack _). by vm_compute.
  - intros n Hn. apply vars_elem in Hn. subst ts. rewrite !elem_of_cons, elem_of_nil in Hn.
    repeat (destruct Hn as [Hn|Hn]; [first [discriminate Hn|injection Hn as ->; by vm_compute]|]). done.
Defined.

(** A value that looks like a later reference is expanded in its turn. *)
Example value_expanded_again :
  interpolate_text "{{a}} {{b}}" (<["a"%string := "{{b}}"%string]> {["b"%string := "x"%string]}) = "x x"%string.
Proof. by vm_compute. Qed.

(** Values are put into the JSON text as they are: a quote in one ends the string. *)
Example value_not_escaped :
  let q := String (ascii_of_nat 34) EmptyString in
  interpolate_text ("{" +:+ q +:+ "note" +:+ q +:+ ":" +:+ q +:+ "{{n}}" +:+ q +:+ "}")
    {["n"%string := "x" +:+ q +:+ "," +:+ q +:+ "admin" +:+ q +:+ ":" +:+ q +:+ "y"]} =
  "{" +:+ q +:+ "note" +:+ q +:+ ":" +:+ q +:+ "x" +:+ q +:+ "," +:+ q +:+ "admin" +:+ q +:+ ":" +:+ q +:+ "y" +:+ q +:+ "}".
Proof. by vm_compute. Qed.

End WebhookTemplate.

(** ** webhook_logging.rs *)

Module WebhookLogging.

Definition MAX_LOGGED_BODY_BYTES : nat := 16 * 1024.
Definition DEFAULT_RETENTION_DAYS : Z := 30.

Definition SENSITIVE_FIELD_NAMES : list string :=
  ["secret"; "password"; "token"; "api_key"; "apikey"; "authorization"; "x-signature-256"; "x-api-key";
   "private_key"; "access_token"; "refresh_token"; "client_secret"]%string.

Definition is_sensitive_field (name : string) : bool :=
  existsb (λ f, contains f (to_lowercase name)) SENSITIVE_FIELD_NAMES.

#[local] Arguments is_sensitive_field : simpl never.

Definition masked : Value := VString "***".

Fixpoint mask_sensitive (value : Value) : Value :=
  match value with
  | Object m => Object (map (λ kv, (kv.1, if is_sensitive_field kv.1 then masked else mask_sensitive kv.2)) m)
  | Array items => Array (map mask_sensitive items)
  | other => other
  end.

(** The pairs are collected into a map: of two headers of a name the last stays. *)
Definition mask_headers (headers : list (string * string)) : Value :=
  Object (foldl (λ m kv, entry_insert kv.1 (if is_sensitive_field kv.1 then masked else VString kv.2) m) [] headers).

(** The first characters of a UTF-8 text: a byte below 128 or from 192 on begins one. *)
Definition begins_char (a : ascii) : bool :=
  let n := Z.of_nat (nat_of_ascii a) in (n <? 128) || (192 <=? n).

Fixpoint take_chars (n : nat) (s : string) : string :=
  match s with
  | EmptyString => EmptyString
  | String a r =>
      if begins_char a then match n with O => EmptyString | S m => String a (take_chars m r) end
      else String a (take_chars n r)
  end.

Fixpoint count_chars (s : string) : nat :=
  match s with EmptyString => O | String a r => (if begins_char a then 1 else 0) + count_chars r end.

Record WebhookLogEntry : Type := mkEntry {
  url : string;
  request_headers : list (string * string);
  request_body : Value;
  response_status : option Z;
  response_body : option Value;
  duration_ms : Z;
  contract_id : option string;
  event_type : option string;
}.

(** The tables webhook_logs and webhook_log_access_audit; times in microseconds. *)
Record WebhookLogRow : Type := mkLogRow {
  r_id : Z;
  r_url : string;
  r_request_headers : Value;
  r_request_body : Value;
  r_request_truncated : bool;
  r_response_status : option Z;
  r_response_body : option Value;
  r_response_truncated : bool;
  r_duration_ms : Z;
  r_contract_id : option string;
  r_event_type : option string;
  r_created_at : Z;
}.

Record AccessAudit : Type := mkAccess { accessor : string; action : string; filter_summary : string; result_count : Z; at_ : Z }.

Record Db : Type := mkDb { webhook_logs : list WebhookLogRow; webhook_log_access_audit : list AccessAudit }.

Record WebhookLogFilter : Type := mkFilter {
  f_url : option string;
  f_contract_id : option string;
  f_response_status : option Z;
  f_since : option Z;
  f_until : option Z;
  f_limit : Z;
  f_offset : Z;
}.

Definition new_filter : WebhookLogFilter := mkFilter None None None None None 100 0.

Definition is_authorized_to_read_logs (role : string) : bool :=
  String.eqb role "admin" || String.eqb role "operator" || String.eqb role "support".

Definition day_us : Z := 86400 * 1000000.

Section Logging.
Variable pg : PgEnv.
Variable new_v4 : nat → Z.
(** [Value::to_string], the debug text of a filter, and a row as JSON ([None]: not serialized). *)
Variable json_text : Value → string.
Variable summary : WebhookLogFilter → string.
Variable row_text : WebhookLogRow → option string.

Local Abbreviation M := (Pg.M Db Empty_set string).

Definition marker (serialized : string) : Value :=
  Object [("_truncated"%string, Bool true); ("original_size_bytes"%string, Number (PosInt (Z.of_nat (String.length serialized))));
          ("preview"%string, VString (take_chars 512 serialized))].

Definition bound_body (value : Value) : Value * bool :=
  let serialized := json_text value in
  if (String.length serialized <=? MAX_LOGGED_BODY_BYTES)%nat then (value, false) else (marker serialized, true).

Definition log_row (id created_at : Z) (entry : WebhookLogEntry) : WebhookLogRow :=
  let '(bounded_request, request_truncated) := bound_body (mask_sensitive (request_body entry)) in
  let '(bounded_response, response_truncated) :=
    match response_body entry with
    | Some body => let '(b, t) := bound_body (mask_sensitive body) in (Some b, t)
    | None => (None, false)
    end in
  mkLogRow id (url entry) (mask_headers (request_headers entry)) bounded_request request_truncated
    (response_status entry) bounded_response response_truncated (duration_ms entry) (contract_id entry) (event_type entry)
    created_at.

Definition log_exchange (entry : WebhookLogEntry) : M Z :=
  n ← counter;
  execute pg (λ now d, mkDb (webhook_logs d ++ [log_row (new_v4 n) now entry]) (webhook_log_access_audit d)) ;;
  mret (new_v4 n).

(** An [interval] of days is subtracted from [NOW()] (in UTC a day has 24 hours). *)
Definition purge_expired (retention_days : Z) : M nat :=
  execute_count pg (λ now d,
    let expired r := r_created_at r <? now - retention_days * day_us in
    (length (List.filter expired (webhook_logs d)),
     mkDb (List.filter (λ r, negb (expired r)) (webhook_logs d)) (webhook_log_access_audit d))).

(** [$n IS NULL OR p] *)
Definition null_or {A} (o : option A) (p : A → bool) : bool := match o with None => true | Some x => p x end.

Definition log_matches (f : WebhookLogFilter) (r : WebhookLogRow) : bool :=
  null_or (f_url f) (String.eqb (r_url r)) &&
  null_or (f_contract_id f) (λ c, bool_decide (r_contract_id r = Some c)) &&
  null_or (f_response_status f) (λ s, bool_decide (r_response_status r = Some s)) &&
  null_or (f_since f) (λ t, t <=? r_created_at r) &&
  null_or (f_until f) (λ t, r_created_at r <=? t).

Definition by_newest (x y : WebhookLogRow) : comparison := Z.compare (r_created_at y) (r_created_at x).

(** PostgreSQL refuses a negative LIMIT or OFFSET. *)
Definition select_logs (f : WebhookLogFilter) (d : Db) : result (list WebhookLogRow) string :=
  if f_limit f <? 0 then Err "LIMIT must not be negative"%string
  else if f_offset f <? 0 then Err "OFFSET must not be negative"%string
  else Ok (take (Z.to_nat (f_limit f)) (drop (Z.to_nat (f_offset f))
         (sort_by by_newest (List.filter (log_matches f) (webhook_logs d))))).

Definition audit (who what : string) (f : WebhookLogFilter) (n : nat) : M () :=
  r ← attempt (E := string) (execute pg (λ now d,
    mkDb (webhook_logs d) (webhook_log_access_audit d ++ [mkAccess who what (summary f) (wrap_i 32 (Z.of_nat n)) now])));
  mret ().

Definition search (who role : string) (f : WebhookLogFilter) : M (list WebhookLogRow) :=
  if negb (is_authorized_to_read_logs role) then throw ("role '" +:+ role +:+ "' is not authorized to read webhook logs")
  else
    r ← attempt (E := string) (stmt pg (λ _ d, match select_logs f d with Ok rows => Ok (rows, d) | Err e => Err e end));
    match r with
    | Err e => throw ("webhook log search failed: " +:+ e)
    | Ok rows => audit who "search" f (length rows) ;; mret rows
    end.

Definition newline : string := String (ascii_of_nat 10) EmptyString.

Fixpoint lines_text (rows : list WebhookLogRow) : string :=
  match rows with
  | [] => EmptyString
  | r :: rest => match row_text r with Some line => line +:+ newline | None => EmptyString end +:+ lines_text rest
  end.

Definition export_ndjson (who role : string) (f : WebhookLogFilter) : M string :=
  rows ← search who role f;
  audit who "export" f (length rows) ;;
  mret (lines_text rows).

(** ** Masking *)

(** Two values that differ only below sensitive names. *)
Inductive same_public : Value → Value → Prop :=
| public_refl v : same_public v v
| public_array l k : Forall2 same_public l k → same_public (Array l) (Array k)
| public_object l k : Forall2 public_entry l k → same_public (Object l) (Object k)
with public_entry : string * Value → string * Value → Prop :=
| public_value n v w : same_public v w → public_entry (n, v) (n, w)
| public_secret n v w : is_sensitive_field n = true → public_entry (n, v) (n, w).

(** Two header lists that differ only in the values of sensitive names. *)
Definition same_header (h k : string * string) : Prop := h.1 = k.1 ∧ (is_sensitive_field h.1 = true ∨ h.2 = k.2).

(** Two exchanges that differ only in secrets. *)
Definition same_public_entry (x y : WebhookLogEntry) : Prop :=
  url x = url y ∧ Forall2 same_header (request_headers x) (request_headers y) ∧
  same_public (request_body x) (request_body y) ∧ response_status x = response_status y ∧
  option_Forall2 same_public (response_body x) (response_body y) ∧ duration_ms x = duration_ms y ∧
  contract_id x = contract_id y ∧ event_type x = event_type y.

Lemma mask_same v : ∀ w, same_public v w → mask_sensitive v = mask_sensitive w.
Proof.
  induction v as [| | | |l IH|l IH] using Value_nested_ind; intros w H; inversion H as [|? k Hf|? k Hf]; subst; try done.
  - cbn. f_equal. clear H. revert k Hf. induction IH as [|v l Hv _ IHl]; intros k Hf; inversion Hf; subst; [done|].
    cbn. f_equal; [by apply Hv|by apply IHl].
  - cbn. f_equal. clear H. revert k Hf. induction IH as [|[n v] l Hv _ IHl]; intros k Hf; inversion Hf as [|? y ? k' Hy]; subst; [done|].
    cbn. f_equal; [|by apply IHl]. inversion Hy as [? ? w Hs|? ? w Hs]; subst; cbn; [|by rewrite Hs].
    cbn in Hv |- *. by rewrite (Hv w Hs).
Qed.

Lemma mask_headers_same hs ks : Forall2 same_header hs ks → mask_headers hs = mask_headers ks.
Proof.
  unfold mask_headers. intros H. f_equal. generalize (@nil (string * Value)) as m.
  induction H as [|[n v] [n' v'] hs ks [Hn Hv] _ IH]; intros m; [done|]. cbn in *. subst n'.
  destruct Hv as [Hv|Hv]; [by rewrite Hv, IH|subst; apply IH].
Qed.

Lemma log_row_same id t x y : same_public_entry x y → log_row id t x = log_row id t y.
Proof.
  intros (Hu & Hh & Hb & Hs & Hr & Hd & Hc & He). unfold log_row.
  rewrite (mask_same _ _ Hb), (mask_headers_same _ _ Hh), Hu, Hs, Hd, Hc, He.
  destruct Hr as [v w Hr|]; [by rewrite (mask_same _ _ Hr)|done].
Qed.

Lemma take_chars_count n s : (count_chars (take_chars n s) ≤ n)%nat.
Proof.
  revert n. induction s as [|a s IH]; intros n; cbn; [lia|]. destruct (begins_char a) eqn:E.
  - destruct n as [|n]; cbn; [lia|]. rewrite E. specialize (IH n). lia.
  - cbn. rewrite E. apply IH.
Qed.

(** C32. The log has no secrets: exchanges that differ only in the values below
    sensitive names, in the bodies or the headers, leave the same log. *)
Theorem log_hides_secrets x y s (H : same_public_entry x y) : log_exchange x s = log_exchange y s.
Proof.
  unfold log_exchange, mbind, M_bind, counter, execute, stmt. destruct (db_fault pg (ops s)); [done|].
  by rewrite (log_row_same _ _ x y H).
Qed.

(** What is logged of a body is the masked body, if its text has at most 16 KiB,
    and otherwise a marker with its size and at most 512 characters of it. *)
Theorem logged_body_bounded v :
  (bound_body v = (v, false) ∧ (String.length (json_text v) ≤ MAX_LOGGED_BODY_BYTES)%nat) ∨
  ∃ preview, bound_body v = (Object [("_truncated"%string, Bool true);
      ("original_size_bytes"%string, Number (PosInt (Z.of_nat (String.length (json_text v)))));
      ("preview"%string, VString preview)], true) ∧ (count_chars preview ≤ 512)%nat ∧ (MAX_LOGGED_BODY_BYTES < String.length (json_text v))%nat.
Proof.
  unfold bound_body. destruct (Nat.leb_spec (String.length (json_text v)) MAX_LOGGED_BODY_BYTES) as [H|H]; [by left|].
  right. eexists. split; [done|]. split; [apply take_chars_count|done].
Qed.

(** ** Reading the log *)

Lemma audit_ok who what f n s : ∃ s', audit who what f n s = (Ok (), s') ∧ webhook_logs (db s') = webhook_logs (db s).
Proof.
  unfold audit, mbind, M_bind, attempt, execute, stmt. destruct (db_fault pg (ops s)); eexists; split; done.
Qed.

(** A reader is refused, without a trace, unless their role may read the log; a
    search that is served leaves an audit row with the number of its results,
    unless that row cannot be stored. *)
Theorem search_spec who role f s :
  search who role f s =
    if negb (is_authorized_to_read_logs role)
    then (Err ("role '" +:+ role +:+ "' is not authorized to read webhook logs"), s)
    else match db_fault pg (ops s), select_logs f (db s) with
         | Some e, _ | None, Err e => (Err ("webhook log search failed: " +:+ e), mkSt (db s) (S (ops s)) (trace s))
         | None, Ok rows =>
             (Ok rows, mkSt (match db_fault pg (S (ops s)) with
                             | Some _ => db s
                             | None => mkDb (webhook_logs (db s)) (webhook_log_access_audit (db s) ++
                                 [mkAccess who "search" (summary f) (wrap_i 32 (Z.of_nat (length rows))) (now pg (S (ops s)))])
                             end) (S (S (ops s))) (trace s))
         end.
Proof.
  unfold search. destruct (is_authorized_to_read_logs role); [|done]. cbn [negb].
  unfold audit, mbind, M_bind, attempt, execute, stmt. destruct (db_fault pg (ops s)) as [e|]; [done|].
  destruct (select_logs f (db s)) as [rows|e]; [|done]. cbn. by destruct (db_fault pg (S (ops s))).
Qed.

Lemma sorted_take {A} (R : relation A) n l : StronglySorted R l → StronglySorted R (take n l).
Proof.
  intros H. revert n. induction H as [|x l Hl IH Hx]; intros [|n]; try constructor; [apply IH|].
  by apply Forall_take.
Qed.

(** A page of a search has at most [limit] rows, which match the filter, the newest first. *)
Theorem select_logs_page f d rows (H : select_logs f d = Ok rows) :
  Z.of_nat (length rows) ≤ f_limit f ∧ Sorted (cmp_le by_newest) rows ∧
  ∀ r, r ∈ rows → r ∈ webhook_logs d ∧ log_matches f r = true.
Proof.
  unfold select_logs in H. destruct (Z.ltb_spec (f_limit f) 0); [done|]. destruct (Z.ltb_spec (f_offset f) 0); [done|].
  injection H as <-. split; [rewrite length_take; lia|]. split.
  - apply StronglySorted_Sorted, sorted_take, sorted_drop.
    exact (sort_on_sorted r_created_at (flip_cmp Z.compare) _).
  - intros r Hr. eapply elem_of_sublist in Hr; [|apply sublist_take]. eapply elem_of_sublist in Hr; [|apply sublist_drop].
    rewrite sort_by_permutation, list_elem_of_In, filter_In, <- list_elem_of_In in Hr. done.
Qed.

(** After a purge exactly the rows within the retention are left. *)
Theorem purge_keeps_retention days s n s' (H : purge_expired days s = (Ok n, s')) r :
  r ∈ webhook_logs (db s') ↔ r ∈ webhook_logs (db s) ∧ now pg (ops s) - days * day_us ≤ r_created_at r.
Proof.
  revert H. unfold purge_expired, execute_count, stmt. destruct (db_fault pg (ops s)); [done|]. intros [= <- <-].
  cbn. rewrite !list_elem_of_In, filter_In, negb_true_iff, Z.ltb_ge. done.
Qed.

End Logging.

(** ** Witnesses *)

Definition demo_pg : PgEnv := mkPgEnv (λ n, Z.of_nat n * day_us) (λ _, None).

Definition demo_entry (secret : string) : WebhookLogEntry :=
  mkEntry "https://hook" [("X-Signature-256"%string, secret); ("Accept"%string, "*"%string)]
    (Object [("auth"%string, Object [("api_key"%string, VString secret)]); ("ok"%string, Bool true)]) (Some 200) None 12 None None.

Lemma log_hides_secrets_witness :
  let s := mkSt (mkDb [] []) 0 [] in
  log_exchange demo_pg Z.of_nat (λ _, "text"%string) (demo_entry "s1") s =
  log_exchange demo_pg Z.of_nat (λ _, "text"%string) (demo_entry "s2") s.
Proof.
  intros s. apply log_hides_secrets. repeat split; cbn.
  - constructor; [split; [done|left; by vm_compute]|]. constructor; [split; [done|by right]|constructor].
  - apply public_object. constructor; [|constructor; [apply public_value, public_refl|constructor]].
    apply public_value, public_object. constructor; [by apply public_secret; vm_compute|constructor].
  - constructor.
Defined.

Definition demo_row (i at_us : Z) : WebhookLogRow := mkLogRow i "https://hook" Null Null false (Some 200) None false 1 None None at_us.

Definition demo_logs : Db := mkDb [demo_row 1 0; demo_row 2 (30 * day_us); demo_row 3 (90 * day_us)] [].

Lemma select_logs_page_witness :
  Z.of_nat (length [demo_row 3 (90 * day_us); demo_row 2 (30 * day_us)]) ≤ 2.
Proof.
  apply (select_logs_page (mkFilter None None (Some 200) None None 2 0) demo_logs [demo_row 3 (90 * day_us); demo_row 2 (30 * day_us)]).
  by vm_compute.
Defined.

Lemma purge_keeps_retention_witness :
  demo_row 2 (30 * day_us) ∈ webhook_logs (db (purge_expired demo_pg DEFAULT_RETENTION_DAYS (mkSt demo_logs 50 [])).2).
Proof.
  apply (purge_keeps_retention demo_pg DEFAULT_RETENTION_DAYS (mkSt demo_logs 50 []) 1); [by vm_compute|].
  split; [right; by left|by vm_compute].
Defined.

End WebhookLogging.
