(* ===== verification/SubscriptionCheck.v ===== *)
(** subscription_validator.rs: the rules that check a subscription before it is
    deployed.  [validate] runs every rule and collects what it finds; a rule is a
    name and a function, so the engine is the list of its rules. *)

From S2P Require Import Prelude Text Model.

Module SubscriptionCheck.

Inductive Severity : Type := Error | Warning | Info.

#[export] Instance Severity_eq_dec : EqDecision Severity.
Proof. solve_decision. Defined.

Record ValidationFinding : Type := mkFinding {
  rule : string;
  severity : Severity;
  message : string;
  path : option string;
}.

Definition error (rule message : string) : ValidationFinding := mkFinding rule Error message None.
Definition warning (rule message : string) : ValidationFinding := mkFinding rule Warning message None.
Definition with_path (p : string) (f : ValidationFinding) : ValidationFinding :=
  mkFinding (rule f) (severity f) (message f) (Some p).

Record SubscriptionConfig : Type := mkConfig {
  name : string;
  filter : option string;
  schema_version : option string;
  transform : option string;
  max_events_per_second : option Z;
  max_payload_bytes : option Z;
  max_concurrent_deliveries : option Z;
  fields : list string;
  metadata : gmap string string;
}.

(** [dyn ValidationRule] *)
Record ValidationRule : Type := mkRule { rule_name : string; check : SubscriptionConfig → list ValidationFinding }.

Record ValidationReport : Type := mkReport { subscription : string; findings : list ValidationFinding }.

Definition is_error (f : ValidationFinding) : bool := bool_decide (severity f = Error).
Definition has_errors (r : ValidationReport) : bool := existsb is_error (findings r).
Definition errors (r : ValidationReport) : list ValidationFinding := List.filter is_error (findings r).

Definition validate (rules : list ValidationRule) (config : SubscriptionConfig) : ValidationReport :=
  mkReport (name config) (concat (map (λ r, check r config) rules)).

Definition validate_all (rules : list ValidationRule) (configs : list SubscriptionConfig) : list ValidationReport :=
  map (validate rules) configs.

(** ** The rules *)

Definition is_open (a : ascii) : bool := Ascii.eqb a "(" || Ascii.eqb a "[".
Definition is_close (a : ascii) : bool := Ascii.eqb a ")" || Ascii.eqb a "]".

(** The loop over the characters, with an [i32] for the depth; [None]: the early return. *)
Fixpoint bracket_depth (depth : Z) (s : string) : option Z :=
  match s with
  | EmptyString => Some depth
  | String ch r =>
      let d := if is_open ch then wrap_i 32 (depth + 1) else if is_close ch then wrap_i 32 (depth - 1) else depth in
      if d <? 0 then None else bracket_depth d r
  end.

Definition KNOWN_OPERATORS : list string := ["=="; "!="; ">="; "<="; ">"; "<"; "&&"; "||"; "in"; "contains"]%string.

Definition filter_syntax : string := "filter_syntax".

Definition unbalanced : ValidationFinding := with_path "filter" (error filter_syntax "unbalanced brackets in filter").

Definition check_filter (f : string) : list ValidationFinding :=
  if is_empty (trim f) then [with_path "filter" (error filter_syntax "filter expression is empty")]
  else match bracket_depth 0 f with
       | None => [unbalanced]
       | Some depth =>
           (if negb (depth =? 0) then [unbalanced] else []) ++
           (if contains "=" f && negb (existsb (λ op, contains op f) KNOWN_OPERATORS)
            then [warning filter_syntax "filter uses '=' — did you mean '=='?"] else [])
       end.

Definition FilterSyntaxRule : ValidationRule :=
  mkRule filter_syntax (λ c, match filter c with Some f => check_filter f | None => [] end).

Fixpoint count_char (c : ascii) (s : string) : nat :=
  match s with EmptyString => O | String a r => ((if Ascii.eqb a c then 1 else 0) + count_char c r)%nat end.

Definition check_wildcards (n : nat) : list ValidationFinding :=
  if (2 <? n)%nat
  then [warning "performance" ("filter contains " +:+ show_u (Z.of_nat n) +:+ " wildcards; broad wildcard filters degrade throughput")]
  else [].

Definition PerformanceRule : ValidationRule :=
  mkRule "performance" (λ c,
    match filter c with
    | Some f =>
        check_wildcards (count_char "*" f) ++
        (if contains "contains" (to_lowercase f) && (10 <? length (fields c))%nat
         then [warning "performance" "'contains' filter combined with a large field selection may be slow to evaluate"] else [])
    | None => []
    end ++
    match fields c with
    | [] => [warning "performance" "no field projection specified; full-payload delivery increases bandwidth cost"]
    | _ => []
    end).

Definition SUPPORTED_SCHEMA_VERSIONS : list string := ["v1"; "v2"; "v3"]%string.

(** A list of strings as [{:?}] shows it. *)
Definition debug_strings (l : list string) : string :=
  let quote := String (ascii_of_nat 34) EmptyString in
  "[" +:+ join ", " (map (λ s, quote +:+ s +:+ quote) l) +:+ "]".

Definition unsupported (v : string) : ValidationFinding :=
  with_path "schema_version" (error "schema_compatibility"
    ("schema_version '" +:+ v +:+ "' is not supported (supported: " +:+ debug_strings SUPPORTED_SCHEMA_VERSIONS +:+ ")")).

Definition SchemaCompatibilityRule : ValidationRule :=
  mkRule "schema_compatibility" (λ c,
    match schema_version c with
    | None => [warning "schema_compatibility" "no schema_version specified; defaulting to latest may break on upgrade"]
    | Some v => if existsb (String.eqb v) SUPPORTED_SCHEMA_VERSIONS then [] else [unsupported v]
    end).

Definition BANNED_TOKENS : list string := ["os."; "io.open"; "require("; "eval("; "process."]%string.

Definition disallowed (token : string) : ValidationFinding :=
  with_path "transform" (error "transformation" ("transform script uses disallowed construct '" +:+ token +:+ "'")).

Definition TransformationRule : ValidationRule :=
  mkRule "transformation" (λ c,
    match transform c with
    | None => []
    | Some t =>
        map disallowed (List.filter (λ token, contains token t) BANNED_TOKENS) ++
        (if 10000 <? Z.of_nat (String.length t) then [warning "transformation" "transform script exceeds 10KB; consider simplifying"] else [])
    end).

Definition check_rate (o : option Z) : list ValidationFinding :=
  match o with
  | None => [warning "resource_limits" "max_events_per_second not set; subscription is unbounded"]
  | Some v =>
      if v =? 0 then [error "resource_limits" "max_events_per_second must be greater than zero"]
      else if 100000 <? v then [warning "resource_limits" ("max_events_per_second=" +:+ show_u v +:+ " is unusually high")]
      else []
  end.

Definition check_payload (o : option Z) : list ValidationFinding :=
  match o with
  | Some bytes =>
      if 10 * 1024 * 1024 <? bytes
      then [warning "resource_limits" "max_payload_bytes exceeds 10MB; consider payload compression"] else []
  | None => []
  end.

Definition check_concurrency (o : option Z) : list ValidationFinding :=
  match o with
  | Some c => if c =? 0 then [error "resource_limits" "max_concurrent_deliveries must be greater than zero"] else []
  | None => []
  end.

Definition ResourceLimitRule : ValidationRule :=
  mkRule "resource_limits" (λ c,
    check_rate (max_events_per_second c) ++ check_payload (max_payload_bytes c) ++ check_concurrency (max_concurrent_deliveries c)).

(** ** The engine *)

Definition new : list ValidationRule := [].
Definition register (r : ValidationRule) (engine : list ValidationRule) : list ValidationRule := engine ++ [r].

Definition with_default_rules : list ValidationRule :=
  register ResourceLimitRule (register TransformationRule (register SchemaCompatibilityRule
    (register PerformanceRule (register FilterSyntaxRule new)))).

(** ** Balanced brackets *)

(** The brackets of a text: [true] opens and [false] closes, of either kind. *)
Fixpoint brackets (s : string) : list bool :=
  match s with
  | EmptyString => []
  | String a r => (if is_open a then [true] else if is_close a then [false] else []) ++ brackets r
  end.

Inductive balanced : list bool → Prop :=
| balanced_nil : balanced []
| balanced_pair l k : balanced l → balanced k → balanced (true :: l ++ false :: k).

(** The depth after a sequence, as long as it does not fall below zero. *)
Fixpoint depth_after (d : nat) (l : list bool) : option nat :=
  match l with
  | [] => Some d
  | true :: l => depth_after (S d) l
  | false :: l => match d with O => None | S d => depth_after d l end
  end.

Lemma depth_after_app d l k : depth_after d (l ++ k) = depth_after d l ≫= λ e, depth_after e k.
Proof. revert d. induction l as [|[] l IH]; intros d; [done|apply IH|]. destruct d; [done|apply IH]. Qed.

Lemma balanced_depth l : balanced l → ∀ d, depth_after d l = Some d.
Proof.
  induction 1 as [|l k _ IHl _ IHk]; intros d; [done|]. cbn. rewrite depth_after_app, IHl. cbn. apply IHk.
Qed.

(** A sequence that ends at zero from depth [d] closes [d] brackets, with balanced parts between. *)
Fixpoint closed_by (d : nat) (l : list bool) : Prop :=
  match d with
  | O => balanced l
  | S d => ∃ m k, l = m ++ false :: k ∧ balanced m ∧ closed_by d k
  end.

Lemma closed_by_open d l : closed_by (S d) l → closed_by d (true :: l).
Proof.
  cbn [closed_by]. intros (m & k & -> & Hm & Hk). destruct d as [|d]; [by apply balanced_pair|].
  destruct Hk as (m' & k' & -> & Hm' & Hk'). exists (true :: m ++ false :: m'), k'.
  split; [cbn; by rewrite <- app_assoc|]. split; [by apply balanced_pair|done].
Qed.

Lemma depth_zero_closed l : ∀ d, depth_after d l = Some O → closed_by d l.
Proof.
  induction l as [|[] l IH]; intros d; cbn [depth_after].
  - intros [= ->]. apply balanced_nil.
  - intros H. by apply closed_by_open, IH.
  - destruct d as [|d]; [done|]. intros H. exists [], l. repeat split; [apply balanced_nil|by apply IH].
Qed.

Lemma balanced_iff l : balanced l ↔ depth_after O l = Some O.
Proof. split; [intros H; by apply balanced_depth|apply (depth_zero_closed l 0)]. Qed.

Lemma bracket_depth_after s : ∀ d, Z.of_nat (d + String.length s) < 2 ^ 31 →
  bracket_depth (Z.of_nat d) s = Z.of_nat <$> depth_after d (brackets s).
Proof.
  induction s as [|a s IH]; intros d Hd; [done|]. cbn [String.length] in Hd. cbn [bracket_depth brackets].
  destruct (is_open a).
  - rewrite wrap_i_small by (unfold in_i; lia). destruct (Z.ltb_spec (Z.of_nat d + 1) 0); [lia|].
    replace (Z.of_nat d + 1) with (Z.of_nat (S d)) by lia. cbn [app depth_after]. apply IH. lia.
  - destruct (is_close a); [|destruct (Z.ltb_spec (Z.of_nat d) 0); [lia|]; apply IH; lia].
    rewrite wrap_i_small by (unfold in_i; lia). cbn [app depth_after]. destruct d as [|d]; [done|].
    destruct (Z.ltb_spec (Z.of_nat (S d) - 1) 0); [lia|]. replace (Z.of_nat (S d) - 1) with (Z.of_nat d) by lia. apply IH. lia.
Qed.

(** ** What the rules find *)

(** The filter rule reports an error exactly when the filter is blank or its
    brackets, with no regard to their kinds, are not balanced. *)
Theorem filter_rule_spec f (Hl : Z.of_nat (String.length f) < 2 ^ 31) :
  existsb is_error (check_filter f) = false ↔ is_empty (trim f) = false ∧ balanced (brackets f).
Proof.
  unfold check_filter. destruct (is_empty (trim f)); [split; [done|by intros []]|].
  change (bracket_depth 0 f) with (bracket_depth (Z.of_nat 0) f). rewrite bracket_depth_after by (simpl; lia). rewrite balanced_iff.
  destruct (depth_after 0 (brackets f)) as [n|] eqn:E; cbn; [|split; [done|by intros []]].
  destruct (Z.eqb_spec (Z.of_nat n) 0) as [Hn|Hn]; cbn.
  - split; [|by destruct (_ && _)]. intros _. split; [done|]. f_equal. lia.
  - split; [done|]. intros [_ [= ->]]. done.
Qed.

Definition banned (t : string) : bool := existsb (λ token, contains token t) BANNED_TOKENS.

Lemma existsb_map_const {A} (f : A → ValidationFinding) l :
  (∀ x, is_error (f x) = true) → existsb is_error (map f l) = match l with [] => false | _ => true end.
Proof. intros H. destruct l as [|x l]; [done|]. cbn. by rewrite H. Qed.

Lemma filter_existsb {A} (p : A → bool) l : match List.filter p l with [] => false | _ => true end = existsb p l.
Proof. induction l as [|x l IH]; [done|]. cbn. by destruct (p x). Qed.

(** The default rules together: a configuration passes exactly when its filter is
    well formed, its schema version supported, its script free of the banned
    constructs, and its two limits, if given, are not zero. *)
Theorem default_rules_spec c
    (Hl : ∀ f, filter c = Some f → Z.of_nat (String.length f) < 2 ^ 31) :
  has_errors (validate with_default_rules c) = false ↔
    (∀ f, filter c = Some f → is_empty (trim f) = false ∧ balanced (brackets f)) ∧
    (∀ v, schema_version c = Some v → v ∈ SUPPORTED_SCHEMA_VERSIONS) ∧
    (∀ t, transform c = Some t → banned t = false) ∧
    max_events_per_second c ≠ Some 0 ∧ max_concurrent_deliveries c ≠ Some 0.
Proof.
  unfold has_errors, validate. cbn [findings with_default_rules register new app map concat].
  rewrite !existsb_app, !orb_false_iff. cbn [check FilterSyntaxRule PerformanceRule SchemaCompatibilityRule TransformationRule ResourceLimitRule].
  assert (∀ P Q R S T P' Q' R' S' T' : Prop, (P ↔ P') → Q' → (Q ↔ R') → (R ↔ S') → (S ↔ T ∧ T') →
            (P ∧ Q' ∧ Q ∧ R ∧ S ∧ false = false ↔ P' ∧ R' ∧ S' ∧ T ∧ T')) as Hshape by tauto.
  apply Hshape; clear Hshape.
  - destruct (filter c) as [f|]; [|by split]. rewrite filter_rule_spec by auto. naive_solver.
  - rewrite existsb_app. apply orb_false_iff. split; [|by destruct (fields c)].
    destruct (filter c) as [f|]; [|done]. rewrite existsb_app. unfold check_wildcards.
    by destruct (2 <? count_char "*" f)%nat, (contains "contains" (to_lowercase f) && _).
  - destruct (schema_version c) as [v|]; [|by split].
    assert (existsb (String.eqb v) SUPPORTED_SCHEMA_VERSIONS = true ↔ v ∈ SUPPORTED_SCHEMA_VERSIONS) as Hm.
    { rewrite existsb_exists, list_elem_of_In. setoid_rewrite String.eqb_eq. naive_solver. }
    destruct (existsb _ _); [split; [intros _ v' [= <-]; by apply Hm|done]|]. split; [done|]. intros H. assert (false = true) by (apply Hm, H; done). done.
  - destruct (transform c) as [t|]; [|by split]. rewrite existsb_app, existsb_map_const, filter_existsb by done.
    fold (banned t). destruct (10000 <? Z.of_nat (String.length t)); cbn [existsb is_error]; rewrite ?orb_false_r; (split; [by intros H t' [= <-]|intros H; by apply H]).
  - rewrite !existsb_app, !orb_false_iff. unfold check_rate, check_payload, check_concurrency.
    assert (∀ P Q R P' R' : Prop, (P ↔ P') → Q → (R ↔ R') → (P ∧ Q ∧ R ↔ P' ∧ R')) as Hshape by tauto.
    apply Hshape; clear Hshape.
    + destruct (max_events_per_second c) as [v|]; [|by split]. destruct (Z.eqb_spec v 0) as [->|Hv]; [by split|].
      destruct (100000 <? v); (split; [by intros _ [= E]|done]).
    + destruct (max_payload_bytes c) as [b|]; [|done]. by destruct (_ <? b).
    + destruct (max_concurrent_deliveries c) as [v|]; [|by split]. destruct (Z.eqb_spec v 0) as [->|Hv]; [by split|].
      (split; [by intros _ [= E]|done]).
Qed.

(** Kinds of brackets are not matched with each other. *)
Example kinds_not_matched : check_filter "([)]" = [].
Proof. by vm_compute. Qed.

(** The hint at a single = is not given when the text holds the letters of an operator. *)
Example single_eq_missed : check_filter "min = 1" = [] ∧ check_filter "a = 1" ≠ [].
Proof. by vm_compute. Qed.

Definition demo_config : SubscriptionConfig :=
  mkConfig "test-sub" (Some "type == (a)"%string) (Some "v2"%string) (Some "event.amount"%string) (Some 100) (Some 1024) (Some 4)
    ["amount"%string] ∅.

Lemma filter_rule_spec_witness : balanced (brackets "type == (a)").
Proof. apply (filter_rule_spec "type == (a)"); [by vm_compute|by vm_compute]. Defined.

Lemma default_rules_spec_witness : has_errors (validate with_default_rules demo_config) = false.
Proof.
  apply (default_rules_spec demo_config); [by intros f [= <-]|]. cbn [demo_config filter schema_version transform max_events_per_second max_concurrent_deliveries].
  split; [intros f [= <-]; split; [by vm_compute|]; apply (balanced_pair [] []); constructor|].
  split; [intros v [= <-]; by repeat constructor|]. split; [intros t [= <-]; by vm_compute|done].
Defined.

End SubscriptionCheck.
