(* ===== verification/ContractsApi.v ===== *)
(** The handlers about contracts and about the indexer's state (handlers/mod.rs,
    contract_metadata.rs, abi.rs, rpc_meta.rs): the list, search, summary and
    history of contracts, their labels and ABIs, the status page and the pause
    switch.

    The order in which PostgreSQL visits groups is a parameter.  The caches are
    explicit values: a summary is kept for a time, an ABI until it is
    invalidated, evicted or too old.  The decoders of ScVals are parameters. *)

From S2P Require Import Prelude Text Model Pg EventStore ApiParams EventsQuery EventsAdmin.

Module ContractsApi.
Import ApiParams EventsQuery.

(** ** Tables *)

Record ContractMetadata : Type := mkMetadata {
  m_contract_id : string;
  m_name : string;
  m_description : option string;
  m_project_url : option string;
  m_source_repo : option string;
  m_tags : list string;
  m_verified : bool;
}.

Record UpsertContractMetadata : Type := mkUpsert {
  u_name : string;
  u_description : option string;
  u_project_url : option string;
  u_source_repo : option string;
  u_tags : list string;
  u_verified : bool;
}.

(** contract_abis; nothing sets [expires_at]. *)
Record AbiRow : Type := mkAbi {
  a_abi : Value;
  a_created_at : Z;
  a_updated_at : Z;
  a_expires_at : option Z;
  a_source : string;
  a_wasm_hash : option string;
}.

Record Db : Type := mkDb {
  events : list Row;
  contracts : gmap string EventStore.ContractRow;
  contract_metadata : gmap string ContractMetadata;
  contract_abis : gmap string AbiRow;
}.

Definition with_rows (l : list Row) (d : Db) : Db := mkDb l (contracts d) (contract_metadata d) (contract_abis d).
Definition with_metadata (m : gmap string ContractMetadata) (d : Db) : Db := mkDb (events d) (contracts d) m (contract_abis d).
Definition with_abis (m : gmap string AbiRow) (d : Db) : Db := mkDb (events d) (contracts d) (contract_metadata d) m.

Definition contract_of (r : Row) : string := EventStore.c_contract_id (cols r).
Definition rows_of_contract (c : string) (rows : list Row) : list Row := List.filter (λ r, String.eqb (contract_of r) c) rows.
Definition count (l : list Row) : Z := Z.of_nat (length l).
Definition timestamp (r : Row) : Z := EventStore.c_timestamp (cols r).

Definition list_min (l : list Z) : option Z := match l with [] => None | x :: r => Some (foldl Z.min x r) end.
Definition list_max (l : list Z) : option Z := match l with [] => None | x :: r => Some (foldl Z.max x r) end.

Definition of_type (t : string) (rows : list Row) : list Row :=
  List.filter (λ r, String.eqb (EventStore.c_event_type (cols r)) t) rows.

(** ** The state of the indexer, config/mod.rs *)

Record IndexerState : Type := mkIndexer {
  current_ledger : Z;
  latest_ledger : Z;
  is_active_indexer : bool;
  is_paused : bool;
  started_at : Z;
}.

Record HealthState : Type := mkHealth { last_indexer_poll : Z; indexer_stall_timeout_secs : Z }.

(** Seconds of the wall clock. *)
Definition uptime_secs (now : Z) (s : IndexerState) : Z := sat_sub_u now (started_at s).

Definition is_indexer_stalled (now : Z) (h : HealthState) : option Z :=
  if last_indexer_poll h =? 0 then Some 0
  else let elapsed := sat_sub_u now (last_indexer_poll h) in
       if indexer_stall_timeout_secs h <? elapsed then Some elapsed else None.

(** rpc_meta.rs *)
Definition SUPPORTED_PROTOCOL_MIN : Z := 21.
Definition SUPPORTED_PROTOCOL_MAX : Z := 25.
Definition protocol_supported (p : Z) : bool := (SUPPORTED_PROTOCOL_MIN <=? p) && (p <=? SUPPORTED_PROTOCOL_MAX).

Definition detect_gap (checkpoint oldest_ledger : Z) : option (Z * Z) :=
  if (0 <? checkpoint) && (0 <? oldest_ledger) && (checkpoint <? oldest_ledger) then Some (checkpoint, oldest_ledger - 1) else None.

Definition set_paused (b : bool) (s : IndexerState) : IndexerState :=
  mkIndexer (current_ledger s) (latest_ledger s) (is_active_indexer s) b (started_at s).

Definition pause_indexer (s : IndexerState) : result bool AppError * IndexerState :=
  if negb (is_active_indexer s) then (Err (Forbidden "pause endpoint only available on active indexer"), s)
  else (Ok true, set_paused true s).

Definition resume_indexer (s : IndexerState) : result bool AppError * IndexerState :=
  if negb (is_active_indexer s) then (Err (Forbidden "resume endpoint only available on active indexer"), s)
  else (Ok false, set_paused false s).

Record Status : Type := mkStatus {
  st_uptime : Z;
  st_current : Z;
  st_latest : Z;
  st_lag : Z;
  st_total_events : Z;
  st_events_by_type : gmap string Z;
  st_indexer_status : string;
  st_indexer_mode : string;
  st_paused : bool;
}.

Section Contracts.
Variable pg : PgEnv.
(** The order in which the groups of a query are visited. *)
Variable scan : nat → ∀ A, list A → list A.

Local Abbreviation M := (Pg.M Db Empty_set AppError).

(** [unwrap_or(x)] on the result of a statement. *)
Definition or_default {A} (x : A) (m : M A) : M A :=
  r ← attempt (E := AppError) m; mret match r with Ok y => y | Err _ => x end.

Definition type_counts (rows : list Row) : list (string * Z) :=
  map (λ t, (t, count (of_type t rows))) (remove_dups (map (λ r, EventStore.c_event_type (cols r)) rows)).

Definition default_types : gmap string Z :=
  <["contract"%string := 0]> (<["diagnostic"%string := 0]> {["system"%string := 0]}).

Definition status (secs : Z) (s : IndexerState) (h : HealthState) : M Status :=
  total ← or_default 0 (query pg (λ _ d, count (events d)));
  rows ← or_default [] (query pg (λ _ d, scan 2 _ (type_counts (events d))));
  mret (mkStatus (uptime_secs secs s) (current_ledger s) (latest_ledger s) (sat_sub_u (latest_ledger s) (current_ledger s)) total
          (foldl (λ m kv, <[kv.1 := kv.2]> m) default_types rows)
          (match is_indexer_stalled secs h with Some _ => "stalled"%string | None => "running"%string end)
          (if is_active_indexer s then "active"%string else "read_only"%string) (is_paused s)).

(** ** The list of contracts *)

Record ContractSummary : Type := mkSummary {
  cs_contract_id : string;
  cs_event_count : Z;
  cs_first_seen_ledger : Z;
  cs_last_seen_ledger : Z;
  cs_last_event_at : Z;
  cs_deployer : option string;
  cs_wasm_hash : option string;
  cs_deployed_at : option Z;
  cs_label : option string;
}.

(** One group of the query, with the two left joins. *)
Definition summary_of (d : Db) (c : string) : ContractSummary :=
  let rs := rows_of_contract c (events d) in
  let reg := contracts d !! c in
  mkSummary c (count rs) (default 0 (list_min (map row_ledger rs))) (default 0 (list_max (map row_ledger rs)))
    (default 0 (list_max (map timestamp rs)))
    (reg ≫= EventStore.deployer) (reg ≫= EventStore.wasm_hash) (reg ≫= EventStore.deployed_at)
    (m_name <$> contract_metadata d !! c).

Definition contract_ids_of (rows : list Row) : list string := remove_dups (map contract_of rows).

Definition contracts_cmp (s : option SortOrder) : ContractSummary → ContractSummary → comparison :=
  match s with
  | Some Asc => cmp_on cs_event_count Z.compare
  | _ => cmp_on cs_last_seen_ledger (flip_cmp Z.compare)
  end.

Definition grouped (s : option SortOrder) (d : Db) : list ContractSummary :=
  Prelude.sort_by (contracts_cmp s) (scan 0 _ (map (summary_of d) (contract_ids_of (events d)))).

Definition contracts_page (s : option SortOrder) (limit offset : Z) (d : Db) : list ContractSummary :=
  Prelude.sort_by (contracts_cmp s) (scan 1 _ (take (Z.to_nat limit) (drop (Z.to_nat offset) (grouped s d)))).

Definition get_contracts (p : PaginationParams) : M (list ContractSummary * Z * Z * Z) :=
  let lim := limit p in
  rows ← query pg (λ _ d, contracts_page (sort p) lim (offset p) d);
  total ← query pg (λ _ d, Z.of_nat (length (contract_ids_of (events d))));
  mret (rows, total, default 1 (page p), lim).

(** ** Search *)

Record ContractSearchResult : Type := mkFound { cr_contract_id : string; cr_event_count : Z; cr_last_event_at : option Z }.

Definition search_result (rows : list Row) (c : string) : ContractSearchResult :=
  let rs := rows_of_contract c rows in mkFound c (count rs) (list_max (map timestamp rs)).

Definition by_count (x y : ContractSearchResult) : comparison := Z.compare (cr_event_count y) (cr_event_count x).

Definition found (pattern : string) (limit : Z) (rows : list Row) : list ContractSearchResult :=
  take (Z.to_nat limit) (Prelude.sort_by by_count (scan 0 _ (map (search_result rows)
    (List.filter (like_matches pattern) (contract_ids_of rows))))).

Definition get_contracts_search (q : option string) (lim : option Z) : M (list ContractSearchResult * string * Z) :=
  let prefix := trim (default EmptyString q) in
  of_result (check (4 <=? String.length prefix)%nat (Validation "q must be at least 4 characters to prevent full-table scans")) ;;
  of_result (check (string_forallb is_alphanumeric prefix) (Validation "q must contain only alphanumeric characters")) ;;
  let limit := clamp 1 100 (default 20 lim) in
  rows ← query pg (λ _ d, found (prefix +:+ "%") limit (events d));
  mret (rows, prefix, limit).

(** [SELECT COUNT(..) .. LIMIT 1], when there is no bloom filter. *)
Definition check_contract_exists (validate : string → result () AppError) (filter : option (string → bool)) (id : string) :
    M (string * bool * string) :=
  let contract_id := trim id in
  of_result (validate contract_id) ;;
  match filter with
  | Some contains_contract => mret (contract_id, contains_contract contract_id, "bloom_filter"%string)
  | None =>
      n ← query pg (λ _ d, count (rows_of_contract contract_id (events d)));
      mret (contract_id, 0 <? n, "database_query"%string)
  end.

(** ** The summary of a contract *)

Record ContractDetailSummary : Type := mkDetail {
  ds_contract_id : string;
  ds_total_events : Z;
  ds_first_event_at : option Z;
  ds_last_event_at : option Z;
  ds_unique_tx_count : Z;
  ds_min_ledger : option Z;
  ds_max_ledger : option Z;
  ds_contract : Z;
  ds_diagnostic : Z;
  ds_system : Z;
  ds_from_cache : bool;
}.

Definition detail_of (rows : list Row) (c : string) : ContractDetailSummary :=
  let rs := rows_of_contract c rows in
  mkDetail c (count rs) (list_min (map timestamp rs)) (list_max (map timestamp rs))
    (Z.of_nat (length (remove_dups (map (λ r, EventStore.c_tx_hash (cols r)) rs))))
    (list_min (map row_ledger rs)) (list_max (map row_ledger rs))
    (count (of_type "contract" rs)) (count (of_type "diagnostic" rs)) (count (of_type "system" rs)) false.

(** The columns of the materialized view (its last migration) and those the two
    handlers select: PostgreSQL refuses a query that names another column. *)
Definition mv_columns : list string :=
  ["contract_id"; "event_count"; "latest_event_timestamp"; "first_event_timestamp"; "min_ledger"; "max_ledger";
   "unique_tx_count"; "contract_events"; "diagnostic_events"; "system_events"]%string.
Definition summary_columns : list string :=
  ["total_events"; "first_event_at"; "last_event_at"; "min_ledger"; "max_ledger"; "unique_tx_count"; "contract_events";
   "diagnostic_events"; "system_events"; "contract_id"]%string.
Definition history_columns : list string := ["event_count"; "unique_tx_count"; "contract_id"; "event_date"]%string.

Definition missing (columns view : list string) : option string :=
  List.find (λ c, negb (existsb (String.eqb c) view)) columns.

Definition undefined_column (c : string) : string := "column " +:+ c +:+ " does not exist".

(** A query on the view, where [answer] is what it would return. *)
Definition mv_query {A} (view columns : list string) (answer : A) : result A string :=
  match missing columns view with Some c => Err (undefined_column c) | None => Ok answer end.

Abbreviation Cache := (gmap string (ContractDetailSummary * Z)).

(** CONTRACT_SUMMARY_CACHE_TTL_SECS *)
Definition summary_cache_ttl (var : option string) : Z :=
  default 60 (var ≫= parse_u 64) * 1000000.

(** The entry of the cache, if it is young enough at [now]. *)
Definition cached (ttl now : Z) (cache : Cache) (c : string) : option ContractDetailSummary :=
  match cache !! c with Some (summary, inserted_at) => if now - inserted_at <? ttl then Some summary else None | None => None end.

(** What the two queries make: the row of the view, or else the aggregate of the table. *)
Definition query_summary (mv_row : result (option ContractDetailSummary) string) (direct : result (list Row) string) (c : string) :
    result ContractDetailSummary AppError :=
  match mv_row with
  | Ok (Some row) => Ok row
  | _ =>
      match direct with
      | Err e => Err (Database e)
      | Ok rows => if count (rows_of_contract c rows) =? 0 then Err NotFound else Ok (detail_of rows c)
      end
  end.

(** [now] is the clock at the lookup and [later] the one at the insertion. *)
Definition get_contract_summary (ttl now later : Z) (mv_row : result (option ContractDetailSummary) string)
    (direct : result (list Row) string) (c : string) (cache : Cache) : result ContractDetailSummary AppError * Cache :=
  match validate_contract_id c with
  | Err e => (Err e, cache)
  | Ok _ =>
      match cached ttl now cache c with
      | Some s => (Ok s, cache)
      | None =>
          match query_summary mv_row direct c with
          | Err e => (Err e, cache)
          | Ok s => if ds_total_events s =? 0 then (Err NotFound, cache) else (Ok s, <[c := (s, later)]> cache)
          end
      end
  end.

(** ** The history of a contract: days are numbered, a date is parsed outside *)

Record HistoryParams : Type := mkHistory { h_bucket : option string; h_days : option Z; h_from : option string; h_to : option string }.

Definition history_range (parse_date : string → option Z) (today : Z) (p : HistoryParams) : result (Z * Z) AppError :=
  match h_from p, h_to p with
  | None, None =>
      let days := default 30 (h_days p) in
      if (1 <=? days) && (days <=? 366) then Ok (today - (days - 1), today) else Err (Validation "days must be between 1 and 366")
  | Some from, Some to =>
      let? s := ok_or (Validation "from must be YYYY-MM-DD") (parse_date from) in
      let? e := ok_or (Validation "to must be YYYY-MM-DD") (parse_date to) in
      Ok (s, e)
  | None, Some _ => Err (Validation "from is required when to is provided")
  | Some _, None => Err (Validation "to is required when from is provided")
  end.

(** [mv] is the row of the view for a day, if it has one. *)
Definition history_days (mv : Z → option (Z * Z)) (from to : Z) : list (Z * Z * Z) :=
  map (λ i, let day := from + Z.of_nat i in
            (day, default 0 (fst <$> mv day), default 0 (snd <$> mv day)))
    (seq 0 (Z.to_nat (to - from + 1))).

Definition get_contract_stats_history (view : list string) (parse_date : string → option Z) (today : Z) (mv : Db → Z → option (Z * Z))
    (c : string) (p : HistoryParams) : M (list (Z * Z * Z)) :=
  of_result (validate_contract_id c) ;;
  of_result (check (String.eqb (default "1d"%string (h_bucket p)) "1d") (Validation "unsupported bucket: only bucket=1d is supported")) ;;
  range ← of_result (history_range parse_date today p);
  let '(from, to) := range in
  of_result (check (from <=? to) (Validation "from must be <= to")) ;;
  of_result (check (to - from + 1 <=? 366) (Validation "date range cannot exceed 366 daily buckets")) ;;
  stmt pg (λ _ d, match mv_query view history_columns (history_days (mv d) from to) with Ok l => Ok (l, d) | Err e => Err e end).


(** ** Labels: contract_metadata.rs and its handlers *)

Definition labelled (c : string) (u : UpsertContractMetadata) : ContractMetadata :=
  mkMetadata c (u_name u) (u_description u) (u_project_url u) (u_source_repo u) (u_tags u) (u_verified u).

Definition upsert_metadata (c : string) (u : UpsertContractMetadata) : M ContractMetadata :=
  stmt pg (λ _ d, Ok (labelled c u, with_metadata (<[c := labelled c u]> (contract_metadata d)) d)).

Definition upsert_contract_metadata (c : string) (u : UpsertContractMetadata) : M ContractMetadata :=
  of_result (validate_contract_id c) ;; upsert_metadata c u.

Definition delete_contract_metadata (c : string) : M () :=
  of_result (validate_contract_id c) ;;
  n ← execute_count pg (λ _ d, (match contract_metadata d !! c with Some _ => 1%nat | None => 0%nat end,
                               with_metadata (delete c (contract_metadata d)) d));
  if Nat.eqb n 0 then throw NotFound else mret ().

Definition get_contract_metadata (c : string) : M ContractMetadata :=
  of_result (validate_contract_id c) ;;
  o ← query pg (λ _ d, contract_metadata d !! c);
  of_result (ok_or NotFound o).

Definition get_contract_metadata_batch (ids : list string) : M (list ContractMetadata) :=
  match ids with
  | [] => mret []
  | _ => query pg (λ _ d, scan 0 _ (omap (λ c, contract_metadata d !! c) (remove_dups ids)))
  end.

Definition display_name (c : string) (m : option ContractMetadata) : string :=
  match m with Some m => m_name m | None => c end.

(** One statement per entry, each committed on its own. *)
Fixpoint bulk_import (entries : list (string * UpsertContractMetadata)) (n : Z) : M Z :=
  match entries with
  | [] => mret n
  | (c, u) :: rest => upsert_metadata c u ;; bulk_import rest (n + 1)
  end.

(** serde's decoding of an entry *)
Variable metadata_from_value : Value → result UpsertContractMetadata string.

Fixpoint parse_entries (entries : list Value) : result (list (string * UpsertContractMetadata)) AppError :=
  match entries with
  | [] => Ok []
  | e :: rest =>
      let? c := ok_or (Validation "missing contract_id") (value_get e "contract_id" ≫= as_str) in
      let? _ := validate_contract_id c in
      let? u := result_map_err (λ m, Validation ("invalid metadata entry: " +:+ m)) (metadata_from_value e) in
      let? l := parse_entries rest in
      Ok ((c, u) :: l)
  end.

Definition bulk_import_contract_metadata (entries : list Value) : M Z :=
  parsed ← of_result (parse_entries entries); bulk_import parsed 0.

(** ** ABIs: abi.rs, contract_specs.rs and the handlers *)

Abbreviation AbiCache := (gmap string (Value * Z)).

Definition DEFAULT_ABI_CACHE_TTL_US : Z := 86400 * 1000000.

Fixpoint check_abi_entries (i : nat) (l : list Value) : result () string :=
  match l with
  | [] => Ok ()
  | e :: rest =>
      match value_get e "name" ≫= as_str with
      | Some _ => check_abi_entries (S i) rest
      | None => Err ("ABI entry " +:+ show_u (Z.of_nat i) +:+ " is missing a " +:+ String (ascii_of_nat 34) ("name" +:+ String (ascii_of_nat 34) " field"))
      end
  end.

Definition validate_abi (abi : Value) : result () string :=
  match abi with Array entries => check_abi_entries 0 entries | _ => Err "ABI must be a JSON array"%string end.

(** The upsert of the handler: a row that exists keeps its other columns. *)
Definition register_row (abi : Value) (now : Z) (old : option AbiRow) : AbiRow :=
  match old with
  | Some r => mkAbi abi (a_created_at r) now (a_expires_at r) (a_source r) (a_wasm_hash r)
  | None => mkAbi abi now now None "registered" None
  end.

Definition register_contract_abi (c : string) (abi : Value) (cache : AbiCache) : M AbiCache :=
  of_result (validate_contract_id c) ;;
  of_result (result_map_err Validation (validate_abi abi)) ;;
  execute pg (λ now d, with_abis (<[c := register_row abi now (contract_abis d !! c)]> (contract_abis d)) d) ;;
  mret (delete c cache).

(** contract_specs.rs, the statement of [store_spec_for]: a registered row is left alone. *)
Definition onchain_row (abi : Value) (wasm : string) (now : Z) (old : option AbiRow) : option AbiRow :=
  match old with
  | Some r =>
      if String.eqb (a_source r) "onchain"
      then Some (mkAbi abi (a_created_at r) now (a_expires_at r) (a_source r) (Some wasm)) else None
  | None => Some (mkAbi abi now now None "onchain" (Some wasm))
  end.

Definition store_onchain (c : string) (abi : Value) (wasm : string) : M nat :=
  execute_count pg (λ now d,
    match onchain_row abi wasm now (contract_abis d !! c) with
    | Some r => (1%nat, with_abis (<[c := r]> (contract_abis d)) d)
    | None => (0%nat, d)
    end).

Definition get_contract_abi (c : string) : M (Value * Z * Z) :=
  of_result (validate_contract_id c) ;;
  o ← query pg (λ _ d, contract_abis d !! c);
  r ← of_result (ok_or NotFound o);
  mret (a_abi r, a_created_at r, a_updated_at r).

Definition live_abi (now : Z) (r : AbiRow) : option Value :=
  match a_expires_at r with Some t => if now <? t then Some (a_abi r) else None | None => Some (a_abi r) end.

Definition abi_hit (now : Z) (cache : AbiCache) (c : string) : option Value :=
  match cache !! c with Some (abi, t) => if now <? t + DEFAULT_ABI_CACHE_TTL_US then Some abi else None | None => None end.

Definition fetch_contract_abi (now : Z) (cache : AbiCache) (c : string) : M (option Value * AbiCache) :=
  match abi_hit now cache c with
  | Some abi => mret (Some abi, cache)
  | None =>
      row ← or_default None (query pg (λ t d, contract_abis d !! c ≫= live_abi t));
      mret match row with Some abi => (Some abi, <[c := (abi, now)]> cache) | None => (None, cache) end
  end.

Definition get_contract_abi_cached (now : Z) (cache : AbiCache) (c : string) : M (Value * AbiCache) :=
  r ← fetch_contract_abi now cache c;
  match r.1 with Some abi => mret (abi, r.2) | None => throw NotFound end.

(** The name that scval_format.rs reads from a stored topic, the named values it
    reads from a stored ScVal, and serde's decoding of a value that is no ScVal. *)
Variable stored_name : Value → option string.
Variable stored_values : Value → option (list (string * Value)).
Variable decode_scalar : Value → Value.

Definition first_of (o : option string) (k : option string) : option string := match o with Some _ => o | None => k end.

Definition event_name_from_topic (topic : Value) : option string :=
  match topic with
  | Array (f :: _) =>
      first_of (stored_name f) (first_of (as_str f)
        (first_of (value_get f "symbol" ≫= as_str) (value_get f "string" ≫= as_str)))
  | _ => None
  end.

Definition decode_values (value : Value) : list (string * Value) :=
  match stored_values value with
  | Some l => l
  | None => match value with Object l => l | _ => [("0"%string, decode_scalar value)] end
  end.

Definition decode_input (values : list (string * Value)) (i : nat) (input : Value) : string * Value :=
  let name := default ("field_" +:+ show_u (Z.of_nat i)) (value_get input "name" ≫= as_str) in
  (name, default Null (match value_get (Object values) name with
                       | Some v => Some v
                       | None => value_get (Object values) (show_u (Z.of_nat i))
                       end)).

Definition as_array (v : Value) : option (list Value) := match v with Array l => Some l | _ => None end.

Definition decode_event_data (abi event_data : Value) : option Value :=
  topic ← value_get event_data "topic";
  event_name ← event_name_from_topic topic;
  entries ← as_array abi;
  def ← List.find (λ e, bool_decide (value_get e "name" ≫= as_str = Some event_name)) entries;
  inputs ← value_get def "inputs" ≫= as_array;
  value ← value_get event_data "value";
  let values := decode_values value in
  Some (Object (foldl (λ m kv, entry_insert kv.1 kv.2 m) (entry_insert "event" (VString event_name) [])
                  (imap (decode_input values) inputs))).

Definition set_decoded (v : Value) (r : Row) : Row :=
  let c := cols r in
  mkRow (EventStore.mkRow (row_id r) (EventStore.row_created_at (stored r))
    (EventStore.mkColumns (EventStore.c_contract_id c) (EventStore.c_event_type c) (EventStore.c_tx_hash c) (EventStore.c_ledger c)
       (EventStore.c_timestamp c) (EventStore.c_event_data c) (EventStore.c_ledger_hash c) (EventStore.c_in_successful_call c)
       (Some v) (EventStore.c_tenant_id c) (EventStore.c_fingerprint c) (EventStore.c_compressed c) (EventStore.c_compression_algo c)
       (EventStore.c_chain_id c) (EventStore.c_tx_index c) (EventStore.c_op_index c) (EventStore.c_event_index c)
       (EventStore.c_sep41 c) (EventStore.c_asset c)))
    (r_normalized r) (r_schema_version r) (r_anonymized r).

Definition update_decoded (id : Z) (v : Value) (d : Db) : Db :=
  with_rows (map (λ r, if row_id r =? id then set_decoded v r else r) (events d)) d.

(** One update per event that the ABI decodes; a failed one is logged. *)
Fixpoint decode_rows (abi : Value) (rows : list Row) : M () :=
  match rows with
  | [] => mret ()
  | r :: rest =>
      match decode_event_data abi (EventStore.c_event_data (cols r)) with
      | Some v => or_default () (execute pg (λ _ d, update_decoded (row_id r) v d)) ;; decode_rows abi rest
      | None => decode_rows abi rest
      end
  end.

Definition decode_existing_events (c : string) (abi : Value) : M () :=
  rows ← or_default [] (query pg (λ _ d, rows_of_contract c (events d)));
  decode_rows abi rows.

End Contracts.


(** ** Lemmas *)

Lemma pages_take {A} (l : list A) m n :
  concat (map (λ i, take m (drop (i * m) l)) (seq 0 n)) = take (n * m) l.
Proof.
  induction n as [|n IH]; [done|]. rewrite seq_S, map_app, concat_app, IH. cbn [map concat Nat.add].
  rewrite app_nil_r, take_take_drop. f_equal. lia.
Qed.

Lemma concat_map_perm {A B} (f g : A → list B) l : (∀ x, f x ≡ₚ g x) → concat (map f l) ≡ₚ concat (map g l).
Proof. intros H. induction l as [|x l IH]; [done|]. cbn. by rewrite H, IH. Qed.

Lemma contract_ids_elem rows c : c ∈ contract_ids_of rows ↔ ∃ r, r ∈ rows ∧ contract_of r = c.
Proof. unfold contract_ids_of. rewrite elem_of_remove_dups, list_elem_of_In, in_map_iff. setoid_rewrite list_elem_of_In. naive_solver. Qed.

Lemma rows_of_contract_elem c rows r : r ∈ rows_of_contract c rows ↔ r ∈ rows ∧ contract_of r = c.
Proof. unfold rows_of_contract. by rewrite !list_elem_of_In, filter_In, String.eqb_eq. Qed.

Lemma count_pos c rows : 0 < count (rows_of_contract c rows) ↔ c ∈ contract_ids_of rows.
Proof.
  rewrite contract_ids_elem. unfold count. split.
  - destruct (rows_of_contract c rows) as [|r l] eqn:E; [simpl; lia|]. intros _. exists r. apply rows_of_contract_elem.
    rewrite E. by left.
  - intros (r & Hr & Hc). destruct (rows_of_contract c rows) as [|r' l] eqn:E; [|simpl; lia].
    exfalso. apply (elem_of_nil (A := Row) r). rewrite <- E. by apply rows_of_contract_elem.
Qed.

Lemma list_min_spec l m : list_min l = Some m ↔ m ∈ l ∧ ∀ x, x ∈ l → m ≤ x.
Proof.
  assert (∀ l a, foldl Z.min a l ∈ a :: l ∧ ∀ x, x ∈ a :: l → foldl Z.min a l ≤ x) as H.
  { clear. induction l as [|b l IH]; intros a; cbn [foldl].
    - split; [by left|]. intros x [->|Hx%elem_of_nil]%elem_of_cons; [lia|done].
    - destruct (IH (Z.min a b)) as [Hin Hle]. split.
      + apply elem_of_cons in Hin as [->|Hin]; [|by do 2 right]. destruct (Z.min_spec a b) as [[_ ->]|[_ ->]]; [by left|by right; left].
      + intros x Hx. apply elem_of_cons in Hx as [->|Hx]; [specialize (Hle (Z.min a b) ltac:(by left)); lia|].
        apply elem_of_cons in Hx as [->|Hx]; [specialize (Hle (Z.min a b) ltac:(by left)); lia|]. apply Hle. by right. }
  destruct l as [|a l]; cbn; [split; [done|by intros [?%elem_of_nil _]]|]. destruct (H l a) as [Hin Hle]. split.
  - intros [= <-]. done.
  - intros [Hm Hl]. f_equal. specialize (Hle m Hm). specialize (Hl _ Hin). lia.
Qed.

Lemma list_max_min l : list_max l = Z.opp <$> list_min (map Z.opp l).
Proof.
  assert (∀ l a, foldl Z.max a l = - foldl Z.min (- a) (map Z.opp l)) as H.
  { clear. induction l as [|b l IH]; intros a; cbn [foldl map]; [lia|]. rewrite IH. do 2 f_equal. lia. }
  destruct l as [|a l]; [done|]. cbn. by rewrite H.
Qed.

Lemma list_max_spec l m : list_max l = Some m ↔ m ∈ l ∧ ∀ x, x ∈ l → x ≤ m.
Proof.
  rewrite list_max_min, fmap_Some. setoid_rewrite list_min_spec. setoid_rewrite list_elem_of_In. setoid_rewrite in_map_iff. split.
  - intros (k & [(y & <- & Hy) Hk] & ->). rewrite Z.opp_involutive. split; [done|]. intros x Hx.
    specialize (Hk (- x)). assert (- y ≤ - x) by (apply Hk; by exists x). lia.
  - intros [Hm Hx]. exists (- m). split; [|lia]. split; [by exists m|]. intros x (y & <- & Hy). specialize (Hx y Hy). lia.
Qed.

(** ** The list of contracts *)

Section ListFacts.
Context (scan : nat → ∀ A, list A → list A).
Hypothesis scan_perm : ∀ n A (l : list A), scan n A l ≡ₚ l.

Lemma grouped_perm s d : grouped scan s d ≡ₚ map (summary_of d) (contract_ids_of (events d)).
Proof. unfold grouped. by rewrite sort_by_permutation, scan_perm. Qed.

(** The pages of a listing, together, hold every contract once, with the
    aggregates of its events. *)
Theorem contract_pages_cover s d lim n
    (Hl : 0 < lim) (Hn : Z.of_nat (length (contract_ids_of (events d))) ≤ Z.of_nat n * lim) :
  concat (map (λ i, contracts_page scan s lim (Z.of_nat i * lim) d) (seq 0 n)) ≡ₚ
    map (summary_of d) (contract_ids_of (events d)).
Proof.
  rewrite <- (grouped_perm s d). transitivity (take (n * Z.to_nat lim) (grouped scan s d)).
  - rewrite <- pages_take. apply concat_map_perm. intros i. unfold contracts_page.
    rewrite sort_by_permutation, scan_perm. rewrite Z2Nat.inj_mul, Nat2Z.id by lia. done.
  - rewrite take_ge; [done|]. rewrite (Permutation_length (grouped_perm s d)), length_map. nia.
Qed.

(** A page is sorted the way the request asks, and its numbers are those of the
    contract's events. *)
Theorem contracts_page_spec s lim off d :
  Sorted (cmp_le (contracts_cmp s)) (contracts_page scan s lim off d) ∧
  (length (contracts_page scan s lim off d) ≤ Z.to_nat lim)%nat ∧
  ∀ x, x ∈ contracts_page scan s lim off d →
    ∃ c, x = summary_of d c ∧ 0 < cs_event_count x ∧
      (∃ r, r ∈ rows_of_contract c (events d) ∧ cs_first_seen_ledger x = row_ledger r) ∧
      (∀ r, r ∈ rows_of_contract c (events d) →
         cs_first_seen_ledger x ≤ row_ledger r ≤ cs_last_seen_ledger x ∧ timestamp r ≤ cs_last_event_at x).
Proof.
  split; [|split].
  - apply StronglySorted_Sorted. unfold contracts_page. destruct s as [[]|];
      [exact (sort_on_sorted cs_event_count Z.compare _)|exact (sort_on_sorted cs_last_seen_ledger (flip_cmp Z.compare) _)..].
  - unfold contracts_page. rewrite (Permutation_length (sort_by_permutation _ _)), (Permutation_length (scan_perm _ _ _)), length_take. lia.
  - intros x Hx. unfold contracts_page in Hx. rewrite sort_by_permutation, scan_perm in Hx.
    eapply elem_of_sublist in Hx; [|apply sublist_take]. eapply elem_of_sublist in Hx; [|apply sublist_drop].
    rewrite grouped_perm, list_elem_of_In, in_map_iff in Hx. destruct Hx as (c & <- & Hc). exists c. split; [done|].
    apply list_elem_of_In, count_pos in Hc. split; [done|]. cbn. set (rs := rows_of_contract c (events d)) in *.
    assert (∀ f : Row → Z, ∃ m k, list_min (map f rs) = Some m ∧ list_max (map f rs) = Some k) as Hmm.
    { intros f. unfold count in Hc. destruct rs as [|r rs']; [simpl in Hc; lia|]. cbn. eauto. }
    destruct (Hmm row_ledger) as (m & k & Em & Ek), (Hmm timestamp) as (_ & t & _ & Et). rewrite Em, Ek, Et. cbn.
    apply list_min_spec in Em as [Hin Hle]. apply list_max_spec in Ek as [_ Hge]. apply list_max_spec in Et as [_ Ht].
    split.
    + apply list_elem_of_In, in_map_iff in Hin as (r & E & Hr). exists r. split; [by apply list_elem_of_In|done].
    + intros r Hr. assert (∀ f : Row → Z, f r ∈ map f rs) as Hf by (intros f; by apply list_elem_of_In, in_map, list_elem_of_In).
      specialize (Hle _ (Hf row_ledger)). specialize (Hge _ (Hf row_ledger)). specialize (Ht _ (Hf timestamp)). lia.
Qed.

(** A search finds the contracts whose id has the prefix, each with the number of
    its events, the busiest first; all of them, if they are no more than the limit. *)
Theorem search_finds p lim rows (Hp : string_forallb is_alphanumeric p = true) (Hl : 0 ≤ lim) :
  let res := found scan (p +:+ "%") lim rows in
  Sorted (cmp_le by_count) res ∧ Z.of_nat (length res) ≤ lim ∧
  (∀ x, x ∈ res → cr_contract_id x ∈ contract_ids_of rows ∧ starts_with p (cr_contract_id x) = true ∧
     x = search_result rows (cr_contract_id x)) ∧
  (Z.of_nat (length (List.filter (starts_with p) (contract_ids_of rows))) ≤ lim →
     map cr_contract_id res ≡ₚ List.filter (starts_with p) (contract_ids_of rows)).
Proof.
  assert (List.filter (like_matches (p +:+ "%")) (contract_ids_of rows) = List.filter (starts_with p) (contract_ids_of rows)) as E.
  { apply filter_ext. intros c. unfold like_matches. apply like_prefix; [done|]. rewrite string_length_app. simpl. lia. }
  unfold found. rewrite E. set (ids := List.filter (starts_with p) (contract_ids_of rows)).
  set (all := Prelude.sort_by by_count (scan 0%nat _ (map (search_result rows) ids))).
  assert (all ≡ₚ map (search_result rows) ids) as Hall by (unfold all; by rewrite sort_by_permutation, scan_perm).
  cbv zeta. split; [|split; [|split]].
  - apply StronglySorted_Sorted. eapply StronglySorted_app_1_l. rewrite take_drop.
    exact (sort_on_sorted cr_event_count (flip_cmp Z.compare) _).
  - rewrite length_take. lia.
  - intros x Hx. eapply elem_of_sublist in Hx; [|apply sublist_take]. rewrite Hall, list_elem_of_In, in_map_iff in Hx.
    destruct Hx as (c & <- & Hc). unfold ids in Hc. apply filter_In in Hc as [Hc Hs]. apply list_elem_of_In in Hc. done.
  - intros Hle. rewrite take_ge by (rewrite (Permutation_length Hall), length_map; lia).
    rewrite (Permutation_map cr_contract_id Hall), map_map. cbn. by rewrite map_id.
Qed.
End ListFacts.

(** ** The summary *)

(** The columns that the two handlers ask of the view are not there. *)
Lemma view_refuses {A} (x : A) :
  mv_query mv_columns summary_columns x = Err (undefined_column "total_events") ∧
  mv_query mv_columns history_columns x = Err (undefined_column "event_date").
Proof. by split. Qed.

Section Staleness.
(** The events table at every instant, the time from the start of a request to
    its insertion in the cache, and the lifetime of an entry. *)
Context (table : Z → list Row) (latency ttl : Z).

(** What the cache holds at [now]: summaries of the table as it was. *)
Definition fresh (now : Z) (cache : gmap string (ContractDetailSummary * Z)) : Prop :=
  ∀ c s t, cache !! c = Some (s, t) → t ≤ now ∧ ∃ r, t - latency ≤ r ≤ t ∧ s = detail_of (table r) c.

Lemma fresh_insert read later c cache :
  later - latency ≤ read ≤ later → fresh later cache → fresh later (<[c := (detail_of (table read) c, later)]> cache).
Proof.
  intros Hr Hl c' s t. destruct (decide (c = c')) as [<-|Hne]; [|rewrite lookup_insert_ne by done; apply Hl].
  rewrite lookup_insert_eq. intros [= <- <-]. split; [lia|]. by exists read.
Qed.

Lemma cached_fresh now c s cache :
  fresh now cache → cached ttl now cache c = Some s → ∃ r, now - ttl - latency ≤ r ≤ now ∧ s = detail_of (table r) c.
Proof.
  intros Hc. unfold cached. destruct (cache !! c) as [[s0 t0]|] eqn:E; [|done].
  destruct (Z.ltb_spec (now - t0) ttl); [|done]. intros [= <-]. destruct (Hc c s0 t0 E) as [Ht (r & Hr & Es)].
  exists r. split; [lia|done].
Qed.

(** A summary is that of the contract at an instant within the lifetime of an
    entry and the time of a request. *)
Theorem summary_staleness now read later answer direct c cache res cache'
    (Hc : fresh now cache) (Httl : 0 ≤ ttl) (Ht : now ≤ read ≤ later) (Hlat : later - now ≤ latency)
    (Hd : ∀ rows, direct = Ok rows → rows = table read)
    (Hs : get_contract_summary ttl now later (mv_query mv_columns summary_columns answer) direct c cache = (res, cache')) :
  fresh later cache' ∧ ∀ s, res = Ok s → ∃ r, now - ttl - latency ≤ r ≤ later ∧ s = detail_of (table r) c.
Proof.
  assert (fresh later cache) as Hl.
  { intros c' s t E. destruct (Hc c' s t E) as [Htn (r & Hr & Es)]. split; [lia|]. by exists r. }
  revert Hs. unfold get_contract_summary. destruct (validate_contract_id c); [|by intros [= <- <-]].
  destruct (cached ttl now cache c) as [s0|] eqn:E.
  - intros [= <- <-]. split; [done|]. intros s [= <-]. destruct (cached_fresh now c s0 cache Hc E) as (r & Hr & Es).
    exists r. split; [lia|done].
  - rewrite (proj1 (view_refuses answer)). cbn [query_summary]. destruct direct as [rows|e]; [|by intros [= <- <-]].
    destruct (count (rows_of_contract c rows) =? 0); [by intros [= <- <-]|]. cbv beta iota.
    destruct (ds_total_events _ =? 0); intros [= <- <-]; [done|]. rewrite (Hd rows eq_refl).
    split; [apply fresh_insert; [lia|done]|]. intros s [= <-]. exists read. split; [lia|done].
Qed.
End Staleness.

(** ** The history *)

Section HistoryFacts.
Context (pg : PgEnv) (parse_date : string → option Z) (today : Z) (mv : Db → Z → option (Z * Z)).

(** With the view as it is, no history is ever served. *)
Theorem history_never_served c p : fails (get_contract_stats_history pg mv_columns parse_date today mv c p).
Proof.
  unfold get_contract_stats_history. repeat (apply fails_of_result; intros ? _). destruct x1 as [from to].
  repeat (apply fails_of_result; intros ? _). intros s. unfold stmt. by destruct (db_fault pg (ops s)).
Qed.

(** With the columns it asks for, a history has a row for each day of the range, at most 366. *)
Theorem history_covers_range view c p s l s'
    (Hv : missing history_columns view = None)
    (H : get_contract_stats_history pg view parse_date today mv c p s = (Ok l, s')) :
  ∃ from to, history_range parse_date today p = Ok (from, to) ∧ Z.of_nat (length l) = to - from + 1 ∧ (length l ≤ 366)%nat ∧
    ∀ i, (i < length l)%nat → l !! i = Some (from + Z.of_nat i, default 0 (fst <$> mv (db s) (from + Z.of_nat i)),
                                             default 0 (snd <$> mv (db s) (from + Z.of_nat i))).
Proof.
  unfold get_contract_stats_history, mbind, M_bind, of_result in H.
  destruct (validate_contract_id c); [|done]. destruct (check _ _); [|done].
  destruct (history_range parse_date today p) as [[from to]|]; [|done]. exists from, to. split; [done|]. revert H.
  unfold check. destruct (Z.leb_spec from to); [|done]. destruct (Z.leb_spec (to - from + 1) 366); [|done].
  unfold stmt. destruct (db_fault pg (ops s)); [done|]. unfold mv_query. rewrite Hv. intros [= <- _].
  unfold history_days. rewrite length_map, length_seq. split; [lia|]. split; [lia|]. intros i Hi.
  rewrite list_lookup_fmap, lookup_seq_lt by done. done.
Qed.
End HistoryFacts.

(** ** Labels *)

Section LabelFacts.
Context (pg : PgEnv).

Definition apply_label (m : gmap string ContractMetadata) (e : string * UpsertContractMetadata) : gmap string ContractMetadata :=
  <[e.1 := labelled e.1 e.2]> m.

(** An import is not a transaction: what precedes the entry that fails stays. *)
Theorem bulk_import_prefix entries n s :
  ∃ k, (k ≤ length entries)%nat ∧
    contract_metadata (db (bulk_import pg entries n s).2) = foldl apply_label (contract_metadata (db s)) (take k entries) ∧
    ∀ m, (bulk_import pg entries n s).1 = Ok m → k = length entries ∧ m = n + Z.of_nat (length entries).
Proof.
  revert n s. induction entries as [|[c u] rest IH]; intros n s.
  - exists O. split; [done|]. split; [done|]. intros m [= <-]. split; [done|simpl; lia].
  - cbn [bulk_import]. unfold mbind, M_bind, upsert_metadata, stmt. destruct (db_fault pg (ops s)).
    + exists O. split; [lia|]. split; [done|]. by intros m.
    + cbv beta iota. set (s1 := mkSt _ _ _). destruct (IH (n + 1) s1) as (k & Hk & E & Hm). exists (S k).
      split; [simpl; lia|]. split; [exact E|]. intros m Hok. destruct (Hm m Hok) as [-> ->]. split; [done|simpl; lia].
Qed.

(** A label that was stored is the one that is read. *)
Theorem label_round_trip c u s m s1
    (Hh : healthy pg) (H : upsert_contract_metadata pg c u s = (Ok m, s1)) :
  (get_contract_metadata pg c s1).1 = Ok (labelled c u) ∧ m = labelled c u.
Proof.
  revert H. unfold upsert_contract_metadata, get_contract_metadata, mbind, M_bind, of_result, upsert_metadata, query, stmt.
  destruct (validate_contract_id c) eqn:Ev; [|done]. rewrite Hh. intros [= <- <-]. rewrite Hh. cbn.
  rewrite lookup_insert_eq. done.
Qed.

(** ** ABIs *)

(** A registered ABI is served from then on. *)
Theorem registered_abi_served c abi cache s cache1 s1 now
    (Hh : healthy pg) (Hx : ∀ r, contract_abis (db s) !! c = Some r → a_expires_at r = None)
    (H : register_contract_abi pg c abi cache s = (Ok cache1, s1)) :
  (get_contract_abi_cached pg now cache1 c s1).1 = Ok (abi, <[c := (abi, now)]> cache1).
Proof.
  revert H. unfold register_contract_abi, mbind, M_bind, of_result. destruct (validate_contract_id c); [|done].
  destruct (result_map_err Validation (validate_abi abi)); [|done]. unfold execute, stmt. rewrite Hh. intros [= <- <-].
  unfold get_contract_abi_cached, fetch_contract_abi, abi_hit. rewrite lookup_delete_eq.
  unfold mbind, M_bind, or_default, mbind, M_bind, attempt, query, stmt. rewrite Hh. cbn. rewrite lookup_insert_eq. cbn.
  unfold live_abi, register_row. destruct (contract_abis (db s) !! c) as [r|] eqn:E; [|done].
  by rewrite (Hx r eq_refl).
Qed.

(** An ABI that is registered over one read from the chain keeps the mark of the
    latter, and the next refresh replaces it. *)
Theorem registered_abi_overwritten c abi chain wasm cache s cache1 s1 r
    (Hh : healthy pg) (Hr : contract_abis (db s) !! c = Some r) (Hs : a_source r = "onchain"%string)
    (H : register_contract_abi pg c abi cache s = (Ok cache1, s1)) :
  ∃ s2, store_onchain pg c chain wasm s1 = (Ok 1%nat, s2) ∧ a_abi <$> contract_abis (db s2) !! c = Some chain.
Proof.
  revert H. unfold register_contract_abi, mbind, M_bind, of_result. destruct (validate_contract_id c); [|done].
  destruct (result_map_err Validation (validate_abi abi)); [|done]. unfold execute, stmt. rewrite Hh. intros [= <- <-].
  unfold store_onchain, execute_count, stmt. rewrite Hh. cbn. rewrite lookup_insert_eq, Hr. cbn. rewrite Hs. cbn.
  eexists. split; [done|]. cbn. by rewrite lookup_insert_eq.
Qed.

(** Registered first, it stays. *)
Theorem registered_abi_kept c abi chain wasm cache s cache1 s1
    (Hh : healthy pg) (Hr : contract_abis (db s) !! c = None)
    (H : register_contract_abi pg c abi cache s = (Ok cache1, s1)) :
  ∃ s2, store_onchain pg c chain wasm s1 = (Ok 0%nat, s2) ∧ a_abi <$> contract_abis (db s2) !! c = Some abi.
Proof.
  revert H. unfold register_contract_abi, mbind, M_bind, of_result. destruct (validate_contract_id c); [|done].
  destruct (result_map_err Validation (validate_abi abi)); [|done]. unfold execute, stmt. rewrite Hh. intros [= <- <-].
  unfold store_onchain, execute_count, stmt. rewrite Hh. cbn. rewrite lookup_insert_eq, Hr. cbn.
  eexists. split; [done|]. cbn. by rewrite lookup_insert_eq.
Qed.

(** A refresh from the chain does not drop the cached copy: it is served for up
    to a day. *)
Theorem refresh_not_seen c old chain wasm cache t now s s1 n
    (Hc : cache !! c = Some (old, t)) (Ht : now < t + DEFAULT_ABI_CACHE_TTL_US)
    (H : store_onchain pg c chain wasm s = (Ok n, s1)) :
  (get_contract_abi_cached pg now cache c s1).1 = Ok (old, cache).
Proof.
  unfold get_contract_abi_cached, fetch_contract_abi, abi_hit. rewrite Hc. by destruct (Z.ltb_spec now (t + DEFAULT_ABI_CACHE_TTL_US)); [|lia].
Qed.
End LabelFacts.

(** ** Decoding the events that are already there *)

Section Decode.
Context (pg : PgEnv) (stored_name : Value → option string) (stored_values : Value → option (list (string * Value)))
        (decode_scalar : Value → Value).

Local Abbreviation decode := (decode_event_data stored_name stored_values decode_scalar).

(** What decoding with an ABI makes of a row. *)
Definition decoded_row (abi : Value) (r : Row) : Row :=
  match decode abi (EventStore.c_event_data (cols r)) with Some v => set_decoded v r | None => r end.

Lemma decoded_row_id abi r : row_id (decoded_row abi r) = row_id r.
Proof. unfold decoded_row. by destruct (decode abi _). Qed.

Lemma update_decoded_rows id v d :
  events (update_decoded id v d) = map (λ r, if row_id r =? id then set_decoded v r else r) (events d).
Proof. done. Qed.

Lemma or_default_healthy {A} (x : A) f s :
  healthy pg → or_default x (query pg f) s = (Ok (f (now pg (ops s)) (db s)), mkSt (db s) (S (ops s)) (trace s)).
Proof. intros Hh. unfold or_default, mbind, M_bind, attempt, query, stmt. by rewrite Hh. Qed.

Lemma decode_rows_healthy abi rows s (Hh : healthy pg) :
  NoDup (map row_id rows) → NoDup (map row_id (events (db s))) →
  (∀ r, r ∈ rows → r ∈ events (db s)) →
  ∃ s', decode_rows pg stored_name stored_values decode_scalar abi rows s = (Ok (), s') ∧
    events (db s') = map (λ r, if bool_decide (row_id r ∈ map row_id rows) then decoded_row abi r else r) (events (db s)).
Proof.
  revert s. induction rows as [|r rows IH]; intros s Hn He Hin.
  - exists s. split; [done|]. transitivity (map id (events (db s))); [by rewrite map_id|]. apply map_ext. intros r. by rewrite bool_decide_eq_false_2 by apply not_elem_of_nil.
  - cbn [map] in Hn. apply NoDup_cons in Hn as [Hr Hn]. cbn [decode_rows].
    assert (∀ x, x ∈ events (db s) → row_id x = row_id r → x = r) as Hinj.
    { intros x Hx E. apply (nodup_map_inj row_id (events (db s))); [done..| |done]. apply Hin. by left. }
    destruct (decode abi (EventStore.c_event_data (cols r))) as [v|] eqn:E.
    + unfold mbind, M_bind, or_default, mbind, M_bind, attempt, execute, stmt. rewrite Hh.
      set (s1 := mkSt _ _ _). assert (events (db s1) = map (λ x, if row_id x =? row_id r then decoded_row abi x else x) (events (db s))) as E1.
      { cbn. apply map_ext_in. intros x Hx%list_elem_of_In. destruct (Z.eqb_spec (row_id x) (row_id r)) as [Ex|]; [|done].
        rewrite (Hinj x Hx Ex). unfold decoded_row. by rewrite E. }
      destruct (IH s1) as (s' & Es & Ev); [done| | |].
      * rewrite E1, map_map. rewrite (map_ext _ row_id); [done|]. intros x. case_match; [apply decoded_row_id|done].
      * intros x Hx. rewrite E1, list_elem_of_In, in_map_iff. exists x. split; [|apply list_elem_of_In, Hin; by right].
        destruct (Z.eqb_spec (row_id x) (row_id r)) as [Ex|]; [|done]. destruct Hr. rewrite <- Ex. by apply list_elem_of_In, in_map, list_elem_of_In.
      * exists s'. split; [exact Es|]. rewrite Ev, E1, map_map. apply map_ext_in. intros x Hx%list_elem_of_In.
        destruct (Z.eqb_spec (row_id x) (row_id r)) as [Ex|Ex].
        -- rewrite decoded_row_id, Ex, bool_decide_eq_false_2 by done. by rewrite bool_decide_eq_true_2 by (by left).
        -- destruct (decide (row_id x ∈ map row_id rows)); [rewrite !bool_decide_eq_true_2; [done|by right|done]|].
           rewrite !bool_decide_eq_false_2; [done| |done]. cbn. by rewrite not_elem_of_cons.
    + destruct (IH s) as (s' & Es & Ev); [done|done|intros x Hx; apply Hin; by right|]. exists s'. split; [exact Es|]. rewrite Ev.
      apply map_ext_in. intros x Hx%list_elem_of_In. cbn [map]. destruct (decide (row_id x = row_id r)) as [Ex|Ex].
      * rewrite (Hinj x Hx Ex), bool_decide_eq_false_2 by done. rewrite bool_decide_eq_true_2 by (by left). unfold decoded_row. by rewrite E.
      * destruct (decide (row_id x ∈ map row_id rows)); [rewrite !bool_decide_eq_true_2; [done|by right|done]|].
        rewrite !bool_decide_eq_false_2; [done| |done]. by rewrite not_elem_of_cons.
Qed.

(** Registering an ABI decodes the contract's events that are there, and no others. *)
Theorem existing_events_decoded c abi s (Hh : healthy pg) (Hu : NoDup (map row_id (events (db s)))) :
  ∃ s', decode_existing_events pg stored_name stored_values decode_scalar c abi s = (Ok (), s') ∧
    events (db s') = map (λ r, if String.eqb (contract_of r) c then decoded_row abi r else r) (events (db s)).
Proof.
  unfold decode_existing_events, mbind, M_bind. rewrite or_default_healthy by done.
  set (rows := rows_of_contract c (events (db s))). set (s1 := mkSt _ _ _).
  assert (∀ r, r ∈ events (db s) → (row_id r ∈ map row_id rows ↔ contract_of r = c)) as Hrows.
  { intros r Hr. rewrite list_elem_of_In, in_map_iff. split.
    - intros (x & Ex & Hx%list_elem_of_In). apply rows_of_contract_elem in Hx as [Hx Hc].
      by rewrite <- (nodup_map_inj row_id (events (db s)) x r Hu Hx Hr Ex).
    - intros Hc. exists r. split; [done|]. by apply list_elem_of_In, rows_of_contract_elem. }
  destruct (decode_rows_healthy abi rows s1) as (s' & Es & Ev); [done| |done| |].
  - eapply sublist_NoDup; [exact Hu|]. apply (fmap_sublist row_id), bool_filter_sublist.
  - intros r Hr. by apply rows_of_contract_elem in Hr as [? _].
  - exists s'. split; [exact Es|]. rewrite Ev. apply map_ext_in. intros r Hr%list_elem_of_In.
    destruct (String.eqb_spec (contract_of r) c) as [Hc|Hc].
    + rewrite bool_decide_eq_true_2; [done|]. by apply Hrows.
    + rewrite bool_decide_eq_false_2; [done|]. intros H. by apply Hc, Hrows.
Qed.
End Decode.

(** ** Witnesses *)

Definition demo_pg : PgEnv := mkPgEnv Z.of_nat (λ _, None).
Definition c1 : string := "CAAAAAAAAAAAAAAAAAAAAAAAAAAAAAAAAAAAAAAAAAAAAAAAAAAAAAAA".
Definition c2 : string := "CBBBBBBBBBBBBBBBBBBBBBBBBBBBBBBBBBBBBBBBBBBBBBBBBBBBBBBB".

Definition demo_row (id ledger : Z) (c : string) : Row :=
  EventsAdmin.new_row id 0 c "contract" ("t" +:+ show_u id) ledger (ledger * 5) (Object [("topic", Array [VString "mint"]); ("value", Bool true)]%string)
    None None true.

Definition demo_rows : list Row := [demo_row 1 7 c1; demo_row 2 9 c2; demo_row 3 8 c1].
Definition demo_db : Db := mkDb demo_rows ∅ ∅ ∅.
Definition demo_state : St Db Empty_set := mkSt (Ev := Empty_set) demo_db 0 [].
Definition same_order (_ : nat) (A : Type) (l : list A) : list A := l.

Lemma same_order_perm n A (l : list A) : same_order n A l ≡ₚ l.
Proof. done. Qed.

Lemma contract_pages_cover_witness :
  concat (map (λ i, contracts_page same_order None 1 (Z.of_nat i * 1) demo_db) (seq 0 2)) ≡ₚ map (summary_of demo_db) [c2; c1].
Proof. apply (contract_pages_cover same_order same_order_perm None demo_db 1 2); by vm_compute. Defined.

Lemma contracts_page_spec_witness : (length (contracts_page same_order (Some Asc) 1 0 demo_db) ≤ 1)%nat.
Proof. apply (contracts_page_spec same_order same_order_perm (Some Asc) 1 0 demo_db). Defined.

Lemma search_finds_witness : map cr_contract_id (found same_order "CAAA%" 20 demo_rows) ≡ₚ [c1].
Proof. apply (search_finds same_order same_order_perm "CAAA" 20 demo_rows); by vm_compute. Defined.

Lemma summary_staleness_witness :
  ∃ r, 100 - 60 - 5 ≤ r ≤ 103 ∧ detail_of demo_rows c1 = detail_of ((λ _, demo_rows) r) c1.
Proof.
  set (answer := get_contract_summary 60 100 103 (mv_query mv_columns summary_columns None) (Ok demo_rows) c1 ∅).
  destruct (summary_staleness (λ _, demo_rows) 5 60 100 101 103 None (Ok demo_rows) c1 ∅ answer.1 answer.2) as [_ H];
    [|lia|lia|lia| |apply surjective_pairing|apply H; vm_compute; reflexivity].
  - intros c s t. by rewrite lookup_empty.
  - intros rows E. change (match Ok (E := string) rows with Ok y => y | Err _ => [] end = demo_rows). by rewrite <- E.
Defined.

Definition demo_date (s : string) : option Z := parse_u 64 s.
Definition demo_days (_ : Db) (day : Z) : option (Z * Z) := if day =? 11 then Some (4, 2) else None.
Definition demo_range : HistoryParams := mkHistory None None (Some "10"%string) (Some "12"%string).

Lemma history_covers_range_witness :
  ∃ from to, history_range demo_date 0 demo_range = Ok (from, to) ∧ Z.of_nat 3 = to - from + 1.
Proof.
  destruct (history_covers_range demo_pg demo_date 0 demo_days history_columns c1 demo_range demo_state
    [(10, 0, 0); (11, 4, 2); (12, 0, 0)] (mkSt demo_db 1 [])) as (from & to & Hr & Hl & _); [by vm_compute..|].
  by exists from, to.
Defined.

Lemma run_ok {A B C} (r : result A B * C) x : r.1 = Ok x → r = (Ok x, r.2).
Proof. destruct r as [r c]. by intros [= ->]. Qed.

Definition demo_label : UpsertContractMetadata := mkUpsert "Pool" None None None ["dex"%string] true.

Lemma label_round_trip_witness :
  (get_contract_metadata demo_pg c1 (upsert_contract_metadata demo_pg c1 demo_label demo_state).2).1 = Ok (labelled c1 demo_label).
Proof.
  apply (label_round_trip demo_pg c1 demo_label demo_state (labelled c1 demo_label)
           (upsert_contract_metadata demo_pg c1 demo_label demo_state).2); [done|]. apply run_ok. by vm_compute.
Defined.

Definition demo_abi (n : string) : Value := Array [Object [("inputs", Array [Object [("name", VString "ok")]]); ("name", VString n)]%string].

Definition with_onchain : St Db Empty_set := mkSt (Ev := Empty_set) (with_abis {[c1 := mkAbi (demo_abi "mint") 0 0 None "onchain" None]} demo_db) 0 [].

Lemma registered_abi_served_witness :
  let s1 := (register_contract_abi demo_pg c1 (demo_abi "mint") ∅ demo_state).2 in
  (get_contract_abi_cached demo_pg 9 ∅ c1 s1).1 = Ok (demo_abi "mint", <[c1 := (demo_abi "mint", 9)]> ∅).
Proof.
  apply (registered_abi_served demo_pg c1 (demo_abi "mint") ∅ demo_state ∅); [done|by intros r H; vm_compute in H|].
  apply run_ok. reflexivity.
Defined.

Lemma registered_abi_overwritten_witness :
  let s1 := (register_contract_abi demo_pg c1 (demo_abi "burn") ∅ with_onchain).2 in
  ∃ s2, store_onchain demo_pg c1 (demo_abi "mint") "w" s1 = (Ok 1%nat, s2) ∧ a_abi <$> contract_abis (db s2) !! c1 = Some (demo_abi "mint").
Proof.
  apply (registered_abi_overwritten demo_pg c1 (demo_abi "burn") (demo_abi "mint") "w" ∅ with_onchain ∅ _
    (mkAbi (demo_abi "mint") 0 0 None "onchain" None)); [done|by vm_compute|done|]. apply run_ok. reflexivity.
Defined.

Lemma registered_abi_kept_witness :
  ∃ s2, store_onchain demo_pg c1 (demo_abi "mint") "w" (register_contract_abi demo_pg c1 (demo_abi "burn") ∅ demo_state).2 = (Ok 0%nat, s2) ∧
    a_abi <$> contract_abis (db s2) !! c1 = Some (demo_abi "burn").
Proof.
  apply (registered_abi_kept demo_pg c1 (demo_abi "burn") (demo_abi "mint") "w" ∅ demo_state ∅); [done|by vm_compute|].
  apply run_ok. reflexivity.
Defined.

Lemma refresh_not_seen_witness :
  let cache := {[c1 := (demo_abi "burn", 5)]} in
  (get_contract_abi_cached demo_pg 10 cache c1 (store_onchain demo_pg c1 (demo_abi "mint") "w" with_onchain).2).1 = Ok (demo_abi "burn", cache).
Proof.
  intros cache. apply (refresh_not_seen demo_pg c1 (demo_abi "burn") (demo_abi "mint") "w" cache 5 10 with_onchain _ 1); [by vm_compute|done|].
  apply run_ok. by vm_compute.
Defined.

Lemma existing_events_decoded_witness :
  ∃ s', decode_existing_events demo_pg (λ _, None) (λ _, None) id c1 (demo_abi "mint") demo_state = (Ok (), s') ∧
    map (λ r, EventStore.c_event_data_decoded (cols r)) (events (db s')) =
      [Some (Object [("event", VString "mint"); ("ok", Bool true)]%string); None; Some (Object [("event", VString "mint"); ("ok", Bool true)]%string)].
Proof.
  destruct (existing_events_decoded demo_pg (λ _, None) (λ _, None) id c1 (demo_abi "mint") demo_state) as (s' & E & Ev);
    [done|apply (bool_decide_unpack _); by vm_compute|]. exists s'. split; [exact E|]. rewrite Ev. by vm_compute.
Defined.

End ContractsApi.
