(* ===== verification/LuaReplay.v ===== *)
(** Transformations by Lua scripts (lua_transform.rs) and the handlers that apply
    them to stored events: [lua_preview] and [replay_with_transform]
    (handlers/mod.rs).

    The interpreter is a parameter: a script is a function from the event's table
    to a Lua value.  A table is the list of its entries in the order [pairs]
    visits them. *)

From S2P Require Import Prelude Text F64 Model Pg EventStore ApiParams EventsQuery.

Module LuaReplay.
Import ApiParams EventsQuery.

(** ** Values of Lua *)

Inductive LuaKey : Type := KInt (i : Z) | KStr (s : string) | KNum (f : f64) | KOther.

Inductive LuaValue : Type :=
| LNil
| LBoolean (b : bool)
| LInteger (i : Z)
| LNumber (f : f64)
| LString (s : string)
| LTable (t : list (LuaKey * LuaValue))
| LOther (type_name : string).

Definition is_nil (v : LuaValue) : bool := match v with LNil => true | _ => false end.

Definition key_eqb (a b : LuaKey) : bool :=
  match a, b with
  | KInt i, KInt j => i =? j
  | KStr s, KStr t => String.eqb s t
  | _, _ => false
  end.

Definition get (k : LuaKey) (t : list (LuaKey * LuaValue)) : LuaValue :=
  match List.find (λ kv, key_eqb kv.1 k) t with Some kv => kv.2 | None => LNil end.

(** [table.set] of a key that is not there; setting nil stores nothing. *)
Definition set (k : LuaKey) (v : LuaValue) (t : list (LuaKey * LuaValue)) : list (LuaKey * LuaValue) :=
  if is_nil v then t else t ++ [(k, v)].

(** [Number::as_i64] *)
Definition as_i64 (n : number) : option Z :=
  match n with PosInt n => if n <=? i_max 64 then Some n else None | NegInt n => Some n | Float _ => None end.

Fixpoint json_to_lua (value : Value) : LuaValue :=
  match value with
  | Null => LNil
  | Bool b => LBoolean b
  | Number n =>
      match as_i64 n with
      | Some i => LInteger i
      | None => match n with PosInt k | NegInt k => LNumber (F64.of_Z k) | Float f => LNumber f end
      end
  | VString s => LString s
  | Array arr =>
      LTable ((fix go (i : Z) (l : list Value) (t : list (LuaKey * LuaValue)) : list (LuaKey * LuaValue) :=
                 match l with [] => t | v :: rest => go (i + 1) rest (set (KInt (i + 1)) (json_to_lua v) t) end) 0 arr [])
  | Object obj => LTable (foldl (λ t kv, set (KStr kv.1) (json_to_lua kv.2) t) [] obj)
  end.

(** The scan for an array: positive integer keys only, and the largest. *)
Fixpoint array_index (t : list (LuaKey * LuaValue)) (max : Z) : option Z :=
  match t with
  | [] => Some max
  | (KInt i, _) :: rest => if 0 <? i then array_index rest (Z.max max i) else None
  | _ :: _ => None
  end.

Section Lua.
(** [to_str] on a Lua string that is not UTF-8 fails; the text of a number. *)
Variable utf8 : string → bool.
Variable number_text : f64 → string.

Definition key_text (k : LuaKey) : result (option string) string :=
  match k with
  | KStr s => if utf8 s then Ok (Some s) else Err "invalid utf-8"%string
  | KInt i => Ok (Some (show_i i))
  | KNum f => Ok (Some (number_text f))
  | KOther => Ok None
  end.

(** The elements [1..=n] of a table whose entries are converted already. *)
Fixpoint elements (t : list (LuaKey * result Value string)) (i : Z) (n : nat) : result (list Value) string :=
  match n with
  | O => Ok []
  | S n =>
      let? v := match List.find (λ kv, key_eqb kv.1 (KInt i)) t with Some kv => kv.2 | None => Ok Null end in
      let? rest := elements t (i + 1) n in
      Ok (v :: rest)
  end.

Fixpoint entries (t : list (LuaKey * result Value string)) (obj : list (string * Value)) : result Value string :=
  match t with
  | [] => Ok (Object obj)
  | (k, r) :: rest =>
      let? name := key_text k in
      match name with
      | Some s => let? v := r in entries rest (entry_insert s v obj)
      | None => entries rest obj
      end
  end.

(** JSON has no NaN and no infinity. *)
Definition from_f64 (f : f64) : Value := match f with S754_nan | S754_infinity _ => Null | _ => Number (Float f) end.

Fixpoint lua_to_json (value : LuaValue) : result Value string :=
  match value with
  | LNil => Ok Null
  | LBoolean b => Ok (Bool b)
  | LInteger i => Ok (Number (if 0 <=? i then PosInt i else NegInt i))
  | LNumber f => Ok (from_f64 f)
  | LString s => if utf8 s then Ok (VString s) else Err "invalid utf-8"%string
  | LTable t =>
      let converted := map (λ kv, (kv.1, lua_to_json kv.2)) t in
      match array_index t 0 with
      | Some n => if 0 <? n then let? l := elements converted 1 (Z.to_nat n) in Ok (Array l) else entries converted []
      | None => entries converted []
      end
  | LOther name => Err ("Unsupported Lua type: " +:+ name)
  end.

(** ** Events *)

(** mlua's conversions of a Lua value to a text, a [u64] and a [bool]. *)
Variable to_string : LuaValue → option string.
Variable to_u64 : LuaValue → option Z.
Variable to_bool : LuaValue → option bool.
Variable to_usize : LuaKey → option Z.

Definition u64_to_lua (n : Z) : LuaValue := if n <=? i_max 64 then LInteger n else LNumber (F64.of_Z n).

Definition event_to_lua_table (e : SorobanEvent) : list (LuaKey * LuaValue) :=
  let s k v t := set (KStr k) v t in
  let t := s "contract_id"%string (LString (ev_contract_id e)) [] in
  let t := s "event_type"%string (LString (ev_event_type e)) t in
  let t := s "tx_hash"%string (LString (ev_tx_hash e)) t in
  let t := s "ledger"%string (u64_to_lua (ev_ledger e)) t in
  let t := s "ledger_closed_at"%string (LString (ev_ledger_closed_at e)) t in
  let t := match ev_ledger_hash e with Some h => s "ledger_hash"%string (LString h) t | None => t end in
  let t := s "in_successful_call"%string (LBoolean (ev_in_successful_call e)) t in
  let t := s "value"%string (json_to_lua (ev_value e)) t in
  match ev_topic e with Some topic => s "topic"%string (json_to_lua (Array topic)) t | None => t end.

(** [topic_table.pairs::<usize, _>()]: every value in the order of the pairs. *)
Fixpoint topic_values (t : list (LuaKey * LuaValue)) : result (list Value) string :=
  match t with
  | [] => Ok []
  | (k, v) :: rest =>
      match to_usize k with
      | None => Err "error converting Lua value to usize"%string
      | Some _ => let? j := lua_to_json v in let? l := topic_values rest in Ok (j :: l)
      end
  end.

(** The fields that the literal leaves out are those of the default event. *)
Definition lua_table_to_event (t : list (LuaKey * LuaValue)) (o : SorobanEvent) : result SorobanEvent string :=
  let field k := get (KStr k) t in
  let? value := lua_to_json (field "value"%string) in
  let? topic := match field "topic"%string with
                | LTable l0 => let? l := topic_values l0 in Ok (Some l)
                | _ => Ok (ev_topic o)
                end in
  Ok (mkSorobanEvent None None
        (default (ev_contract_id o) (to_string (field "contract_id"%string)))
        (default (ev_event_type o) (to_string (field "event_type"%string)))
        (default (ev_tx_hash o) (to_string (field "tx_hash"%string)))
        (default (ev_ledger o) (to_u64 (field "ledger"%string)))
        (default (ev_ledger_closed_at o) (to_string (field "ledger_closed_at"%string)))
        (match to_string (field "ledger_hash"%string) with Some h => Some h | None => ev_ledger_hash o end)
        (default (ev_in_successful_call o) (to_bool (field "in_successful_call"%string)))
        value topic None).

(** A script's [transform_event]; an error includes a limit that was hit. *)
Definition Script : Type := list (LuaKey * LuaValue) → result LuaValue string.

Definition type_name (v : LuaValue) : string :=
  match v with
  | LNil => "nil" | LBoolean _ => "boolean" | LInteger _ => "integer" | LNumber _ => "number"
  | LString _ => "string" | LTable _ => "table" | LOther n => n
  end%string.

Definition transform_sync (script : Script) (e : SorobanEvent) : result (option SorobanEvent) string :=
  let? r := script (event_to_lua_table e) in
  match r with
  | LNil => Ok None
  | LTable t => let? e' := lua_table_to_event t e in Ok (Some e')
  | v => Err ("transform_event must return a table or nil, got " +:+ type_name v)
  end.

(** ** JSON of an event (serde's derive) *)

Variable show_uuid : Z → string.

Definition opt_value {A} (f : A → Value) (o : option A) : Value := match o with Some x => f x | None => Null end.

Definition event_to_value (e : SorobanEvent) : Value :=
  Object (foldl (λ m kv, entry_insert kv.1 kv.2 m)
    match ev_id e with Some i => [("id"%string, VString (show_uuid i))] | None => [] end
    [("contractId", VString (ev_contract_id e)); ("type", VString (ev_event_type e)); ("txHash", VString (ev_tx_hash e));
     ("ledger", Number (PosInt (ev_ledger e))); ("ledgerClosedAt", VString (ev_ledger_closed_at e));
     ("ledgerHash", opt_value VString (ev_ledger_hash e)); ("inSuccessfulContractCall", Bool (ev_in_successful_call e));
     ("value", ev_value e); ("topic", opt_value Array (ev_topic e))]%string).

Definition missing (k : string) : string := "missing field `" +:+ k +:+ "`".
Definition wrong (k : string) : string := "invalid type: " +:+ k.

Definition req {A} (v : Value) (k : string) (f : Value → option A) : result A string :=
  match value_get v k with None => Err (missing k) | Some x => match f x with Some y => Ok y | None => Err (wrong k) end end.

(** A field that may be null or, with a default, missing. *)
Definition opt {A} (v : Value) (k : string) (f : Value → option A) : result (option A) string :=
  match value_get v k with
  | None | Some Null => Ok None
  | Some x => match f x with Some y => Ok (Some y) | None => Err (wrong k) end
  end.

Definition as_u64 (v : Value) : option Z := match v with Number (PosInt n) => Some n | _ => None end.
Definition as_bool (v : Value) : option bool := match v with Bool b => Some b | _ => None end.
Definition as_list (v : Value) : option (list Value) := match v with Array l => Some l | _ => None end.

(** The key [id] is read into [rpc_id]. *)
Definition event_from_value (v : Value) : result SorobanEvent string :=
  let? rpc := opt v "id" as_str in
  let? c := req v "contractId" as_str in
  let? ty := req v "type" as_str in
  let? tx := req v "txHash" as_str in
  let? ledger := req v "ledger" as_u64 in
  let? closed := req v "ledgerClosedAt" as_str in
  let? hash := opt v "ledgerHash" as_str in
  let? ok := match value_get v "inSuccessfulContractCall" with
             | None => Ok true
             | Some x => match as_bool x with Some b => Ok b | None => Err (wrong "inSuccessfulContractCall") end
             end in
  let? value := req v "value" Some in
  let? topic := opt v "topic" as_list in
  let? tenant := opt v "tenant_id" as_str in
  Ok (mkSorobanEvent None rpc c ty tx ledger closed hash ok value topic tenant).

(** ** Previews *)

Record LuaPreviewItem : Type := mkItem {
  event_id : Z;
  original : Value;
  transformed : option Value;
  error : option string;
}.

Definition preview_item (run : SorobanEvent → result (option SorobanEvent) string) (placeholder : Z) (e : SorobanEvent) : LuaPreviewItem :=
  match run e with
  | Ok (Some t) => mkItem placeholder (event_to_value e) (Some (event_to_value t)) None
  | Ok None => mkItem placeholder (event_to_value e) None None
  | Err m => mkItem placeholder (event_to_value e) None (Some m)
  end.

Definition set_id (id : Z) (i : LuaPreviewItem) : LuaPreviewItem := mkItem id (original i) (transformed i) (error i).

(** [results.iter_mut().zip(ids)]: as many items as there are ids get theirs. *)
Fixpoint attach (ids : list Z) (items : list LuaPreviewItem) : list LuaPreviewItem :=
  match ids, items with
  | id :: ids, i :: items => set_id id i :: attach ids items
  | _, _ => items
  end.

Section Handlers.
Variable pg : PgEnv.
(** The order in which the table is read, and the placeholder ids. *)
Variable scan : list Row → list Row.
Variable new_v4 : Z.
Variable to_rfc3339 : Z → string.
(** What an event's run gives, with the limits of time, memory and instructions. *)
Variable run : string → SorobanEvent → result (option SorobanEvent) string.
Variable validate_syntax : string → result () string.

(** The events sent on the broadcast channel. *)
Local Abbreviation M := (Pg.M (list Row) SorobanEvent AppError).

Definition preview_events (script : string) (es : list SorobanEvent) : list LuaPreviewItem :=
  map (preview_item (run script) new_v4) es.

Definition preview_event (r : Row) : SorobanEvent :=
  let c := cols r in
  mkSorobanEvent None None (EventStore.c_contract_id c) (to_lowercase (EventStore.c_event_type c)) (EventStore.c_tx_hash c)
    (wrap_u 64 (row_ledger r)) (to_rfc3339 (EventStore.c_timestamp c)) (EventStore.c_ledger_hash c) (EventStore.c_in_successful_call c)
    (EventStore.c_event_data c) (value_get (EventStore.c_event_data c) "topic" ≫= as_list) None.

Definition MAX_PREVIEW_EVENTS : nat := 20.

Definition lua_preview (script : string) (ids : list Z) : M (list LuaPreviewItem) :=
  of_result (check (negb (is_empty (trim script))) (Validation "script must not be empty")) ;;
  of_result (check (negb (Nat.eqb (length ids) 0)) (Validation "event_ids must not be empty")) ;;
  of_result (check (length ids <=? MAX_PREVIEW_EVENTS)%nat (Validation "event_ids must contain at most 20 entries")) ;;
  rows ← query pg (λ _ d, take 20 (List.filter (λ r, bool_decide (row_id r ∈ ids)) (scan d)));
  match rows with
  | [] => throw NotFound
  | _ => mret (attach ids (preview_events script (map preview_event rows)))
  end.

Definition newline : string := String (ascii_of_nat 10) EmptyString.
Definition wrap_script_body (body : string) : string := "function transform_event(event)" +:+ newline +:+ body +:+ newline +:+ "end".

Record ReplayWithTransformRequest : Type := mkReplay {
  from_ledger : option Z;
  to_ledger : option Z;
  from_timestamp : option Z;
  to_timestamp : option Z;
  contract_id : option string;
  transformation_script : string;
  dry_run : bool;
  limit : option Z;
}.

Record ReplayWithTransformResponse : Type := mkReplayed {
  status : string;
  r_dry_run : bool;
  total_events : Z;
  transformed_events : Z;
  skipped_events : Z;
  error_events : Z;
  preview : list LuaPreviewItem;
}.

Definition at_least (o : option Z) (x : Z) : bool := match o with Some y => y <=? x | None => true end.
Definition at_most (o : option Z) (x : Z) : bool := match o with Some y => x <=? y | None => true end.

Definition in_window (q : ReplayWithTransformRequest) (r : Row) : bool :=
  at_least (from_ledger q) (row_ledger r) && at_most (to_ledger q) (row_ledger r) &&
  at_least (from_timestamp q) (EventStore.c_timestamp (cols r)) && at_most (to_timestamp q) (EventStore.c_timestamp (cols r)) &&
  match contract_id q with Some c => String.eqb (EventStore.c_contract_id (cols r)) c | None => true end.

Definition by_ledger : Row → Row → comparison := cmp_on row_ledger Z.compare.

Definition replayed_rows (q : ReplayWithTransformRequest) (d : list Row) : list Row :=
  take (Z.to_nat (clamp 1 1000 (default 100 (limit q)))) (Prelude.sort_by by_ledger (List.filter (in_window q) (scan d))).

Definition replayed_event (r : Row) : SorobanEvent :=
  let c := cols r in
  mkSorobanEvent None None (EventStore.c_contract_id c) (EventStore.c_event_type c) (EventStore.c_tx_hash c)
    (wrap_u 64 (row_ledger r)) (to_rfc3339 (EventStore.c_timestamp c)) None true (EventStore.c_event_data c) None None.

(** [event_tx.send] of what decodes as an event. *)
Fixpoint send_all (items : list LuaPreviewItem) : M () :=
  match items with
  | [] => mret ()
  | i :: rest =>
      match transformed i with
      | Some v => match event_from_value v with
                  | Ok e => call (λ _, e) id ;; send_all rest
                  | Err _ => send_all rest
                  end
      | None => send_all rest
      end
  end.

Definition present {A} (o : option A) : bool := match o with Some _ => true | None => false end.

Definition check_replay (q : ReplayWithTransformRequest) : result () AppError :=
  let? _ := check (negb (is_empty (trim (transformation_script q)))) (Validation "transformation_script must not be empty") in
  let? _ := check (present (from_ledger q) || present (from_timestamp q)) (Validation "either from_ledger or from_timestamp is required") in
  let? _ := check (ordered (from_ledger q) (to_ledger q)) (Validation "from_ledger must be <= to_ledger") in
  let? _ := check (ordered (from_timestamp q) (to_timestamp q)) (Validation "from_timestamp must be <= to_timestamp") in
  result_map_err (λ e, Validation ("invalid transformation script: " +:+ e)) (validate_syntax (wrap_script_body (transformation_script q))).

Definition count_if (p : LuaPreviewItem → bool) (l : list LuaPreviewItem) : Z := Z.of_nat (length (List.filter p l)).

Definition replay_with_transform (q : ReplayWithTransformRequest) : M ReplayWithTransformResponse :=
  of_result (check_replay q) ;;
  rows ← query pg (λ _ d, replayed_rows q d);
  let items := attach (map row_id rows) (preview_events (wrap_script_body (transformation_script q)) (map replayed_event rows)) in
  let total := Z.of_nat (length rows) in
  let ok := count_if (λ i, present (transformed i)) items in
  let bad := count_if (λ i, present (error i)) items in
  (if dry_run q : bool then mret () else send_all items) ;;
  mret (mkReplayed (if dry_run q then "dry_run" else "completed") (dry_run q) total ok (total - ok - bad) bad items).

End Handlers.
End Lua.

(** ** Values that Lua can hold *)

Section RoundTrip.
Context (utf8 : string → bool) (number_text : f64 → string).

Definition number_ok (n : number) : bool :=
  match n with
  | PosInt k => (0 <=? k) && (k <=? i_max 64)
  | NegInt k => k <? 0
  | Float f => match f with S754_nan | S754_infinity _ => false | _ => true end
  end.

Definition not_null (v : Value) : bool := negb (is_null v).

(** The keys of an object, in the order of serde_json's map. *)
Fixpoint keys_sorted (l : list (string * Value)) : bool :=
  match l with
  | [] => true
  | (k, _) :: rest => forallb (λ kv, match String.compare k kv.1 with Lt => true | _ => false end) rest && keys_sorted rest
  end.

(** No empty array, no array that ends in null, no null in an object, and no
    integer above the signed range. *)
Fixpoint lua_safe (v : Value) : bool :=
  match v with
  | Null | Bool _ => true
  | Number n => number_ok n
  | VString s => utf8 s
  | Array l => match last l with Some v => not_null v | None => false end && forallb lua_safe l
  | Object l => keys_sorted l && forallb (λ kv, utf8 kv.1 && not_null kv.2 && lua_safe kv.2) l
  end.

Lemma json_nil v : is_nil (json_to_lua v) = is_null v.
Proof. destruct v as [| |n| | |]; try done. cbn. destruct (as_i64 n); [done|]. by destruct n. Qed.

(** The entries of an array's table. *)
Fixpoint ents (i : Z) (l : list Value) : list (LuaKey * LuaValue) :=
  match l with
  | [] => []
  | v :: rest => (if is_null v then [] else [(KInt (i + 1), json_to_lua v)]) ++ ents (i + 1) rest
  end.

Lemma json_array l : json_to_lua (Array l) = LTable (ents 0 l).
Proof.
  cbn. f_equal. transitivity (([] : list (LuaKey * LuaValue)) ++ ents 0 l); [|done].
  generalize (@nil (LuaKey * LuaValue)) as t. generalize 0 as i. induction l as [|v l IH]; intros i t; [by rewrite app_nil_r|].
  cbn [ents]. rewrite IH. unfold set. rewrite json_nil. destruct (is_null v); [done|]. by rewrite <- app_assoc.
Qed.

Lemma json_object l : forallb (λ kv, not_null kv.2) l = true → json_to_lua (Object l) = LTable (map (λ kv, (KStr kv.1, json_to_lua kv.2)) l).
Proof.
  intros Hl. cbn. f_equal. transitivity (([] : list (LuaKey * LuaValue)) ++ map (λ kv, (KStr kv.1, json_to_lua kv.2)) l); [|done].
  generalize (@nil (LuaKey * LuaValue)) as t. induction l as [|[k v] l IH]; intros t; cbn [foldl map]; [by rewrite app_nil_r|].
  cbn in Hl. apply andb_true_iff in Hl as [Hv Hl]. rewrite IH by done. unfold set. cbn [fst snd].
  rewrite json_nil. unfold not_null in Hv. apply negb_true_iff in Hv. rewrite Hv. by rewrite <- app_assoc.
Qed.

Lemma array_index_ents l : ∀ i m, 0 ≤ i → m ≤ i → match last l with Some v => not_null v | None => false end = true →
  array_index (ents i l) m = Some (i + Z.of_nat (length l)).
Proof.
  induction l as [|v l IH]; intros i m Hi Hm Hl; [done|]. cbn [ents]. destruct l as [|w l].
  - cbn in Hl. unfold not_null in Hl. apply negb_true_iff in Hl. rewrite Hl. cbn.
    destruct (Z.ltb_spec 0 (i + 1)); [|lia]. f_equal. lia.
  - assert (i + Z.of_nat (length (v :: w :: l)) = i + 1 + Z.of_nat (length (w :: l))) as -> by (simpl; lia).
    destruct (is_null v).
    + apply IH; [lia|lia|done].
    + change ([(KInt (i + 1), json_to_lua v)] ++ ents (i + 1) (w :: l)) with ((KInt (i + 1), json_to_lua v) :: ents (i + 1) (w :: l)).
      cbn [array_index]. destruct (Z.ltb_spec 0 (i + 1)); [|lia]. apply IH; [lia|lia|done].
Qed.

Local Abbreviation conv := (map (λ kv : LuaKey * LuaValue, (kv.1, lua_to_json utf8 number_text kv.2))).

Lemma elements_ents l : ∀ i pre, (∀ kv, kv ∈ pre → ∃ j, kv.1 = KInt j ∧ j ≤ i) →
  Forall (λ v, lua_to_json utf8 number_text (json_to_lua v) = Ok v) l →
  elements (conv (pre ++ ents i l)) (i + 1) (length l) = Ok l.
Proof.
  induction l as [|v l IH]; intros i pre Hpre Hl; [done|]. apply Forall_cons in Hl as [Hv Hl].
  assert (∀ rest, List.find (λ kv, key_eqb kv.1 (KInt (i + 1))) (conv (pre ++ rest)) =
                  List.find (λ kv, key_eqb kv.1 (KInt (i + 1))) (conv rest)) as Hfind.
  { intros rest. clear -Hpre. induction pre as [|kv pre IHp]; [done|]. destruct (Hpre kv) as (j & E & Hj); [by left|].
    destruct kv as [k x]. cbn in E. subst k. cbn [app map List.find fst key_eqb]. destruct (Z.eqb_spec j (i + 1)); [lia|].
    apply IHp. intros kv' H. apply Hpre. by right. }
  cbn [elements length]. rewrite Hfind. destruct (is_null v) eqn:En.
  - destruct v; try done. cbn [ents is_null app].
    assert (List.find (λ kv, key_eqb kv.1 (KInt (i + 1))) (conv (ents (i + 1) l)) = None) as ->.
    { assert (∀ l j, i + 1 ≤ j → List.find (λ kv, key_eqb kv.1 (KInt (i + 1))) (conv (ents j l)) = None) as H; [|by apply H].
      clear. induction l as [|v l IH]; intros j Hj; [done|]. cbn [ents]. destruct (is_null v); [apply IH; lia|].
      cbn. destruct (Z.eqb_spec (j + 1) (i + 1)); [lia|]. apply IH. lia. }
    cbn [result_bind]. rewrite (IH (i + 1) pre); [done| |done]. intros kv H. destruct (Hpre kv H) as (j & E & Hj). exists j. split; [done|lia].
  - cbn [ents]. rewrite En. change ([(KInt (i + 1), json_to_lua v)] ++ ents (i + 1) l) with ((KInt (i + 1), json_to_lua v) :: ents (i + 1) l).
    cbn [map List.find fst snd key_eqb]. rewrite Z.eqb_refl. rewrite Hv. cbn [result_bind].
    assert (pre ++ (KInt (i + 1), json_to_lua v) :: ents (i + 1) l = (pre ++ [(KInt (i + 1), json_to_lua v)]) ++ ents (i + 1) l) as ->
      by (by rewrite <- app_assoc).
    rewrite IH; [done| |done]. intros kv [H|H%list_elem_of_singleton]%elem_of_app.
    + destruct (Hpre kv H) as (j & E & Hj). exists j. split; [done|lia].
    + subst kv. exists (i + 1). split; [done|lia].
Qed.

Lemma entry_insert_last k v l :
  forallb (λ kv, match String.compare kv.1 k with Lt => true | _ => false end) l = true → entry_insert k v l = l ++ [(k, v)].
Proof.
  induction l as [|[k' v'] l IH]; [done|]. cbn. intros [Hk Hl]%andb_true_iff. rewrite String.compare_antisym.
  destruct (String.compare k' k); try done. cbn. by rewrite IH.
Qed.

Lemma entries_sorted l : ∀ obj, keys_sorted l = true →
  (∀ a b, a ∈ obj → b ∈ l → String.compare a.1 b.1 = Lt) →
  Forall (λ kv, utf8 kv.1 = true ∧ lua_to_json utf8 number_text (json_to_lua kv.2) = Ok kv.2) l →
  entries utf8 number_text (conv (map (λ kv, (KStr kv.1, json_to_lua kv.2)) l)) obj = Ok (Object (obj ++ l)).
Proof.
  induction l as [|[k v] l IH]; intros obj Hs Hlt Hl; [by rewrite app_nil_r|].
  cbn [keys_sorted] in Hs. apply andb_true_iff in Hs as [Hk Hs]. apply Forall_cons in Hl as [[Hu Hv] Hl]. cbn [fst snd] in *.
  cbn [map entries key_text fst snd]. rewrite Hu. cbn [result_bind]. rewrite Hv. cbn [result_bind].
  assert (entry_insert k v obj = obj ++ [(k, v)]) as ->.
  { apply entry_insert_last, forallb_forall. intros a Ha%list_elem_of_In. assert (String.compare a.1 k = Lt) as -> by (apply (Hlt a (k, v)); [done|by left]). done. }
  rewrite IH; [by rewrite <- app_assoc|done| |done]. intros a b [Ha|Ha%list_elem_of_singleton]%elem_of_app Hb.
  - apply Hlt; [done|by right].
  - subst a. rewrite forallb_forall in Hk. specialize (Hk b (proj1 (list_elem_of_In _ _) Hb)). cbn in *. by destruct (String.compare k b.1).
Qed.

(** A value that Lua can hold comes back from it unchanged. *)
Theorem lua_round_trip v (H : lua_safe v = true) : lua_to_json utf8 number_text (json_to_lua v) = Ok v.
Proof.
  revert H. induction v as [|b|n|s|l IH|l IH] using Value_nested_ind; intros H; [done|done|..].
  - cbn in H |- *. destruct n as [k|k|f]; cbn in *.
    + apply andb_true_iff in H as [H0 H1]. rewrite H1. cbn. by rewrite H0.
    + destruct (Z.leb_spec 0 k); [|done]. lia.
    + by destruct f.
  - cbn in H |- *. by rewrite H.
  - rewrite json_array. cbn in H. apply andb_true_iff in H as [Hlast Hall]. cbn [lua_to_json].
    rewrite (array_index_ents l 0 0) by (lia || done). rewrite Z.add_0_l.
    destruct l as [|v l']; [done|]. destruct (Z.ltb_spec 0 (Z.of_nat (length (v :: l')))); [|simpl in *; lia].
    assert (elements (conv (ents 0 (v :: l'))) 1 (length (v :: l')) = Ok (v :: l')) as E.
    { apply (elements_ents (v :: l') 0 []); [by intros kv ?%elem_of_nil|].
      rewrite forallb_forall in Hall. rewrite Forall_forall in IH |- *. intros w Hw. apply IH; [done|]. by apply Hall, list_elem_of_In. }
    by rewrite Nat2Z.id, E.
  - cbn in H. apply andb_true_iff in H as [Hs Hall]. rewrite forallb_forall in Hall.
    rewrite json_object.
    2:{ apply forallb_forall. intros kv Hkv. specialize (Hall kv Hkv). by apply andb_true_iff in Hall as [[_ ?]%andb_true_iff _]. }
    cbn [lua_to_json]. assert (entries utf8 number_text (conv (map (λ kv, (KStr kv.1, json_to_lua kv.2)) l)) [] = Ok (Object l)) as E.
    { rewrite entries_sorted; [done|done|by intros a b ?%elem_of_nil|]. rewrite Forall_forall in IH |- *. intros kv Hkv.
      specialize (Hall kv (proj1 (list_elem_of_In _ _) Hkv)). apply andb_true_iff in Hall as [[Hu _]%andb_true_iff Hsafe].
      split; [done|]. by apply IH. }
    rewrite E. by destruct l.
Qed.
End RoundTrip.

(** What Lua does not keep: an empty array is an empty table, which is an object;
    a null is no entry. *)
Example empty_array_becomes_object utf8 number_text :
  lua_to_json utf8 number_text (json_to_lua (Array [])) = Ok (Object []).
Proof. done. Qed.

Example trailing_null_dropped utf8 number_text :
  lua_to_json utf8 number_text (json_to_lua (Array [Bool true; Null])) = Ok (Array [Bool true]).
Proof. done. Qed.

Section Events.
Context (utf8 : string → bool) (number_text : f64 → string).
Context (to_string : LuaValue → option string) (to_u64 : LuaValue → option Z) (to_bool : LuaValue → option bool)
        (to_usize : LuaKey → option Z).

(** mlua converts a value of the type asked for to itself, and nil to no text. *)
Record ConversionLaws : Prop := {
  string_law s : to_string (LString s) = Some s;
  string_nil : to_string LNil = None;
  u64_law n : 0 ≤ n ≤ i_max 64 → to_u64 (LInteger n) = Some n;
  bool_law b : to_bool (LBoolean b) = Some b;
  usize_law i : 0 < i → to_usize (KInt i) = Some i;
}.
Context (L : ConversionLaws).

Lemma topic_values_ents l i :
  0 ≤ i → Forall (λ v, not_null v = true ∧ lua_safe utf8 v = true) l →
  topic_values utf8 number_text to_usize (ents i l) = Ok l.
Proof.
  intros Hi Hl. revert i Hi. induction Hl as [|v l [Hn Hs] _ IH]; intros i Hi; [done|]. cbn [ents].
  unfold not_null in Hn. apply negb_true_iff in Hn. rewrite Hn. cbn [app topic_values].
  rewrite (usize_law L) by lia. rewrite lua_round_trip by done. cbn [result_bind]. by rewrite IH by lia.
Qed.

(** The fields that reach Lua. *)
Definition stripped (e : SorobanEvent) : SorobanEvent :=
  mkSorobanEvent None None (ev_contract_id e) (ev_event_type e) (ev_tx_hash e) (ev_ledger e) (ev_ledger_closed_at e)
    (ev_ledger_hash e) (ev_in_successful_call e) (ev_value e) (ev_topic e) None.

(** A script that returns the event it is given changes nothing, if the event's
    data can be held by Lua. *)
Theorem identity_script e
    (Hl : 0 ≤ ev_ledger e ≤ i_max 64) (Hv : lua_safe utf8 (ev_value e) = true)
    (Ht : ∀ topic, ev_topic e = Some topic → Forall (λ v, not_null v = true ∧ lua_safe utf8 v = true) topic) :
  transform_sync utf8 number_text to_string to_u64 to_bool to_usize (λ t, Ok (LTable t)) e = Ok (Some (stripped e)).
Proof.
  unfold transform_sync. cbn [result_bind]. destruct e as [id rpc c ty tx ledger closed hash ok value topic tenant].
  cbn [ev_ledger ev_value ev_topic] in *. unfold event_to_lua_table, stripped.
  cbn [ev_contract_id ev_event_type ev_tx_hash ev_ledger ev_ledger_closed_at ev_ledger_hash ev_in_successful_call ev_value ev_topic].
  assert (u64_to_lua ledger = LInteger ledger) as -> by (unfold u64_to_lua; destruct (Z.leb_spec ledger (i_max 64)); [done|lia]).
  pose proof (lua_round_trip utf8 number_text value Hv) as Hval.
  pose proof (json_nil value) as Hnil. assert (∀ k t, is_nil (json_to_lua value) = true → set k (json_to_lua value) t = t) as Hset.
  { intros k t E. unfold set. by rewrite E. }
  assert (∀ k t, is_nil (json_to_lua value) = false → set k (json_to_lua value) t = t ++ [(k, json_to_lua value)]) as Hset'.
  { intros k t E. unfold set. by rewrite E. }
  assert (is_nil (json_to_lua value) = true → value = Null) as Hnull by (rewrite Hnil; by destruct value).
  remember (json_to_lua value) as lv.
  assert (match topic with Some tp => topic_values utf8 number_text to_usize (ents 0 tp) = Ok tp | None => True end) as Htv.
  { destruct topic as [tp|]; [|done]. apply topic_values_ents; [lia|by apply Ht]. }
  unfold lua_table_to_event.
  destruct (is_nil lv) eqn:En; [rewrite !Hset by done; rewrite (Hnull eq_refl)|rewrite !Hset' by done];
  destruct hash as [h|], topic as [tp|]; rewrite ?json_array; cbn -[json_to_lua lua_to_json topic_values ents];
    rewrite ?Hval, ?Htv; cbn -[json_to_lua lua_to_json topic_values ents];
    rewrite ?(string_law L), ?(string_nil L), ?(bool_law L), ?(u64_law L) by done; try done.
Qed.
End Events.

Section Json.
Context (show_uuid : Z → string).

(** A broadcast event is the one that was written, but for what serde skips; an
    id in the text is read as that of the RPC. *)
Lemma event_json_round_trip e :
  event_from_value (event_to_value show_uuid e) =
    Ok (mkSorobanEvent None (show_uuid <$> ev_id e) (ev_contract_id e) (ev_event_type e) (ev_tx_hash e) (ev_ledger e) (ev_ledger_closed_at e)
          (ev_ledger_hash e) (ev_in_successful_call e) (ev_value e) (ev_topic e) None).
Proof.
  unfold event_from_value, event_to_value, req, opt. cbn [foldl fst snd]. rewrite !value_get_insert. cbn [String.eqb Ascii.eqb Bool.eqb].
  destruct e as [id rpc c ty tx ledger closed hash ok value topic tenant]. cbn -[value_get].
  destruct id, hash, topic; done.
Qed.
End Json.

(** ** The handlers *)

Section HandlerFacts.
Context (show_uuid : Z → string) (pg : PgEnv) (scan : list Row → list Row) (new_v4 : Z) (to_rfc3339 : Z → string).
Context (run : string → SorobanEvent → result (option SorobanEvent) string) (validate_syntax : string → result () string).

Local Abbreviation item := (preview_item show_uuid).

Lemma attach_length ids items : length (attach ids items) = length items.
Proof. revert ids. induction items as [|i items IH]; intros [|id ids]; cbn; auto. Qed.

Lemma attach_lookup ids items k i :
  items !! k = Some i → attach ids items !! k = Some (match ids !! k with Some id => set_id id i | None => i end).
Proof.
  revert ids k. induction items as [|j items IH]; intros [|id ids] k H; [done|done|exact H|].
  destruct k as [|k]; [by injection H as ->|exact (IH ids k H)].
Qed.

(** The rows of a preview come in the order of the table, and the requested ids
    are attached to them in the order of the request. *)
Theorem preview_labels script ids s items s'
    (H : lua_preview show_uuid pg scan new_v4 to_rfc3339 run script ids s = (Ok items, s')) :
  let rows := take 20 (List.filter (λ r, bool_decide (row_id r ∈ ids)) (scan (db s))) in
  length items = length rows ∧
  ∀ k r, rows !! k = Some r → ∃ i, items !! k = Some i ∧
    original i = event_to_value show_uuid (preview_event to_rfc3339 r) ∧
    event_id i = default new_v4 (ids !! k).
Proof.
  intros rows. revert H. unfold lua_preview, mbind, M_bind, of_result.
  destruct (check _ _); [|done]. destruct (check _ _); [|done]. destruct (check _ _); [|done].
  unfold query, stmt. destruct (db_fault pg (ops s)); [done|]. fold rows. destruct rows as [|r0 rest] eqn:Er; [done|].
  rewrite <- Er. clear Er. clearbody rows. intros [= <- _]. unfold preview_events. split; [by rewrite attach_length, !length_map|].
  intros k r Hk. eexists. split; [apply attach_lookup; rewrite !list_lookup_fmap, Hk; done|].
  unfold preview_item. destruct (run script (preview_event to_rfc3339 r)) as [[t|]|e]; destruct (ids !! k); done.
Qed.

(** So, asked for two events in the other order, it gives each the other's id. *)
Theorem preview_mislabels script a b s
    (Hh : healthy pg) (Hs : is_empty (trim script) = false) (Hscan : scan (db s) = [a; b]) :
  ∃ i j s', lua_preview show_uuid pg scan new_v4 to_rfc3339 run script [row_id b; row_id a] s = (Ok [i; j], s') ∧
    event_id i = row_id b ∧ original i = event_to_value show_uuid (preview_event to_rfc3339 a) ∧
    event_id j = row_id a ∧ original j = event_to_value show_uuid (preview_event to_rfc3339 b).
Proof.
  unfold lua_preview, mbind, M_bind, of_result, check. rewrite Hs. cbn [negb length Nat.eqb Nat.leb MAX_PREVIEW_EVENTS].
  unfold query, stmt. rewrite Hh, Hscan. cbn [List.filter].
  rewrite (bool_decide_eq_true_2 (row_id a ∈ _)) by (right; by left). rewrite (bool_decide_eq_true_2 (row_id b ∈ _)) by (by left).
  cbn [take map preview_events attach]. eexists _, _, _. split; [done|].
  unfold preview_item. destruct (run script (preview_event to_rfc3339 a)) as [[ta|]|ea], (run script (preview_event to_rfc3339 b)) as [[tb|]|eb]; done.
Qed.

(** ** Replay with a transformation *)

(** What is sent for a row whose run gives an event. *)
Definition resent (e : SorobanEvent) : SorobanEvent :=
  mkSorobanEvent None (show_uuid <$> ev_id e) (ev_contract_id e) (ev_event_type e) (ev_tx_hash e) (ev_ledger e) (ev_ledger_closed_at e)
    (ev_ledger_hash e) (ev_in_successful_call e) (ev_value e) (ev_topic e) None.

Definition outcome (script : string) (r : Row) : option SorobanEvent :=
  match run script (replayed_event to_rfc3339 r) with Ok (Some e) => Some (resent e) | _ => None end.

Lemma item_transformed script p e :
  transformed (item (run script) p e) = match run script e with Ok (Some t) => Some (event_to_value show_uuid t) | _ => None end.
Proof. unfold preview_item. by destruct (run script e) as [[t|]|m]. Qed.

Lemma attach_map {A} (f : LuaPreviewItem → A) ids items :
  (∀ id i, f (set_id id i) = f i) → map f (attach ids items) = map f items.
Proof. intros Hf. revert ids. induction items as [|i items IH]; intros [|id ids]; cbn; try done. by rewrite Hf, IH. Qed.

Lemma send_all_trace items s :
  ∃ s', send_all items s = (Ok (), s') ∧ db s' = db s ∧
    trace s' = trace s ++ omap (λ o, o ≫= λ v, match event_from_value v with Ok e => Some e | Err _ => None end) (map transformed items).
Proof.
  revert s. induction items as [|i items IH]; intros s.
  - exists s. cbn. by rewrite app_nil_r.
  - cbn [send_all map omap list_omap]. destruct (transformed i) as [v|]; [|apply IH]. cbn [mbind option_bind].
    destruct (event_from_value v) as [e|m]; [|apply IH]. unfold mbind, M_bind, call.
    destruct (IH (mkSt (db s) (S (ops s)) (trace s ++ [e]))) as (s' & E & Ed & Et). exists s'. split; [exact E|]. split; [done|].
    rewrite Et. cbn. by rewrite <- app_assoc.
Qed.

Lemma count_attach (p : LuaPreviewItem → bool) ids items :
  (∀ id i, p (set_id id i) = p i) → count_if p (attach ids items) = count_if p items.
Proof.
  intros Hp. unfold count_if. revert ids. induction items as [|i items IH]; intros [|id ids]; [done..|]. cbn. rewrite Hp.
  specialize (IH ids). destruct (p i); cbn in *; lia.
Qed.

(** *** The rows of a replay *)

(** What a request asks for. *)
Definition requested (q : ReplayWithTransformRequest) (r : Row) : Prop :=
  (∀ l, from_ledger q = Some l → l ≤ row_ledger r) ∧ (∀ l, to_ledger q = Some l → row_ledger r ≤ l) ∧
  (∀ t, from_timestamp q = Some t → t ≤ EventStore.c_timestamp (cols r)) ∧
  (∀ t, to_timestamp q = Some t → EventStore.c_timestamp (cols r) ≤ t) ∧
  (∀ c, contract_id q = Some c → EventStore.c_contract_id (cols r) = c).

Lemma in_window_requested q r : in_window q r = true ↔ requested q r.
Proof.
  unfold in_window, requested, at_least, at_most. rewrite !andb_true_iff.
  assert (∀ {A} (P : A → Prop) (b : A → bool) (o : option A), (∀ x, b x = true ↔ P x) →
    match o with Some x => b x | None => true end = true ↔ (∀ x, o = Some x → P x)) as Hopt.
  { intros A P b o Hb. destruct o as [x|]; [rewrite Hb|]; naive_solver. }
  rewrite !(Hopt _ _ _ (from_ledger q) (λ x, Z.leb_le x _)), !(Hopt _ _ _ (to_ledger q) (λ x, Z.leb_le _ x)),
    !(Hopt _ _ _ (from_timestamp q) (λ x, Z.leb_le x _)), !(Hopt _ _ _ (to_timestamp q) (λ x, Z.leb_le _ x)),
    !(Hopt _ _ _ (contract_id q) (λ x, String.eqb_eq _ x)). tauto.
Qed.

(** [rows] are the first rows of the table, by ledger, of those requested: as
    many as the limit allows, and [rest] is what is left of the table. *)
Definition selected (q : ReplayWithTransformRequest) (d rows rest : list Row) : Prop :=
  let n := Z.to_nat (clamp 1 1000 (default 100 (limit q))) in
  d ≡ₚ rows ++ rest ∧ (length rows ≤ n)%nat ∧ Forall (requested q) rows ∧
  StronglySorted (λ a b, row_ledger a ≤ row_ledger b) rows ∧
  ∀ r, r ∈ rest → requested q r → length rows = n ∧ Forall (λ x, row_ledger x ≤ row_ledger r) rows.

Lemma by_ledger_le a b : cmp_le by_ledger a b → row_ledger a ≤ row_ledger b.
Proof. unfold cmp_le, cmp_leb, by_ledger, cmp_on. destruct (Z.compare_spec (row_ledger a) (row_ledger b)); (lia || done). Qed.

Lemma replayed_rows_selected q d :
  (∀ l, scan l ≡ₚ l) → ∃ rest, selected q d (replayed_rows scan q d) rest.
Proof.
  intros Hscan. unfold replayed_rows. set (n := Z.to_nat _). set (w := List.filter (in_window q) (scan d)).
  set (l := Prelude.sort_by by_ledger w).
  assert (StronglySorted (cmp_le by_ledger) l) as Hs by (apply sort_on_sorted, _).
  assert (l ≡ₚ w) as Hp by apply sort_by_permutation.
  exists (drop n l ++ List.filter (λ r, negb (in_window q r)) (scan d)). unfold selected. fold n. split_and!.
  - rewrite app_assoc, take_drop, Hp. unfold w. rewrite Permutation_app_comm, bool_filter_partition. by rewrite Hscan.
  - rewrite length_take. lia.
  - apply Forall_take. rewrite Hp. apply Forall_forall. intros r [_ Hr]%elem_of_bool_filter. by apply in_window_requested.
  - rewrite <- (take_drop n l) in Hs. apply StronglySorted_app in Hs as (_ & Hs & _).
    eapply StronglySorted_impl; [|exact Hs]. intros a b Hab. by apply by_ledger_le.
  - intros r [Hr|Hr]%elem_of_app Hq; [|apply elem_of_bool_filter in Hr as [_ Hr]; apply in_window_requested in Hq; by rewrite Hq in Hr].
    split.
    + rewrite length_take. apply list_elem_of_lookup in Hr as [i Hi]. apply lookup_lt_Some in Hi. rewrite length_drop in Hi. lia.
    + rewrite <- (take_drop n l) in Hs. apply StronglySorted_app in Hs as (Hx & _ & _).
      apply Forall_forall. intros x Hin. by apply by_ledger_le, Hx.
Qed.

(** The items of a replay: each has the id of its row. *)
Lemma attach_own_ids script p (rows : list Row) :
  attach (map row_id rows) (map (item (run script) p) (map (replayed_event to_rfc3339) rows)) =
  map (λ r, item (run script) (row_id r) (replayed_event to_rfc3339 r)) rows.
Proof.
  induction rows as [|r rows IH]; [done|]. cbn. f_equal; [|exact IH]. unfold preview_item.
  by destruct (run script (replayed_event to_rfc3339 r)) as [[t|]|m].
Qed.

(** How many rows a script keeps, drops and fails on. *)
Definition outcomes (p : result (option SorobanEvent) string → bool) (script : string) (rows : list Row) : Z :=
  Z.of_nat (length (List.filter (λ r, p (run script (replayed_event to_rfc3339 r))) rows)).

Definition is_kept (r : result (option SorobanEvent) string) : bool := match r with Ok (Some _) => true | _ => false end.
Definition is_dropped (r : result (option SorobanEvent) string) : bool := match r with Ok None => true | _ => false end.
Definition is_failed (r : result (option SorobanEvent) string) : bool := match r with Err _ => true | _ => false end.

Lemma outcomes_total script rows :
  outcomes is_kept script rows + outcomes is_dropped script rows + outcomes is_failed script rows = Z.of_nat (length rows).
Proof.
  unfold outcomes. induction rows as [|r rows IH]; [done|]. cbn [List.filter length].
  destruct (run script (replayed_event to_rfc3339 r)) as [[t|]|m]; cbn [is_kept is_dropped is_failed length]; lia.
Qed.

Lemma count_items (f : LuaPreviewItem → bool) p script rows :
  (∀ id e, f (item (run script) id e) = p (run script e)) →
  count_if f (map (λ r, item (run script) (row_id r) (replayed_event to_rfc3339 r)) rows) = outcomes p script rows.
Proof.
  intros Hf. unfold count_if, outcomes. rewrite filter_map, length_map. do 2 f_equal.
  apply List.filter_ext. intros r. apply Hf.
Qed.

(** C35. A replay with a script runs the script on the first events of the table, by
    ledger, that lie in the requested window of ledgers and times and are of the
    requested contract, at most the limit (clamped to 1 to 1000, 100 without
    one): a requested event is left out only when the limit is reached, and then
    none of those replayed has a later ledger.  It reports on each of these events
    in that order with its id and counts those the script kept, dropped and failed
    on; a dry run sends nothing, and otherwise each event the script returned is
    sent, once, in that order. *)
Theorem replay_with_transform_spec q s resp s'
    (Hscan : ∀ l, scan l ≡ₚ l)
    (H : replay_with_transform show_uuid pg scan new_v4 to_rfc3339 run validate_syntax q s = (Ok resp, s')) :
  let script := wrap_script_body (transformation_script q) in
  ∃ rows rest, selected q (db s) rows rest ∧
    preview resp = map (λ r, item (run script) (row_id r) (replayed_event to_rfc3339 r)) rows ∧
    total_events resp = Z.of_nat (length rows) ∧
    transformed_events resp = outcomes is_kept script rows ∧
    skipped_events resp = outcomes is_dropped script rows ∧
    error_events resp = outcomes is_failed script rows ∧
    db s' = db s ∧
    trace s' = trace s ++ (if dry_run q then [] else omap (outcome script) rows).
Proof.
  intros script. destruct (replayed_rows_selected q (db s) Hscan) as [rest Hsel].
  exists (replayed_rows scan q (db s)), rest. split; [done|]. clear Hsel. revert H. set (rows := replayed_rows scan q (db s)).
  unfold replay_with_transform, mbind, M_bind, of_result.
  destruct (check_replay validate_syntax q); [|done]. unfold query, stmt. destruct (db_fault pg (ops s)); [done|]. cbv beta iota.
  fold rows script. unfold preview_events. rewrite attach_own_ids. set (items := map _ rows). set (s1 := mkSt (db s) _ _).
  destruct (send_all_trace items s1) as (s2 & E2 & Ed2 & Et2).
  assert (omap (λ o, o ≫= λ v, match event_from_value v with Ok e => Some e | Err _ => None end) (map transformed items) =
          omap (outcome script) rows) as Em.
  { unfold items. rewrite map_map. clear. induction rows as [|r rows IH]; [done|].
    cbn [map omap list_omap]. rewrite IH, item_transformed. unfold outcome.
    destruct (run _ (replayed_event to_rfc3339 r)) as [[t|]|m]; cbn; [|done|done]. by rewrite event_json_round_trip. }
  assert (count_if (λ i, present (transformed i)) items = outcomes is_kept script rows) as Ek.
  { apply count_items. intros id e. unfold preview_item. by destruct (run script e) as [[t|]|m]. }
  assert (count_if (λ i, present (error i)) items = outcomes is_failed script rows) as Ef.
  { apply count_items. intros id e. unfold preview_item. by destruct (run script e) as [[t|]|m]. }
  pose proof (outcomes_total script rows) as Ht. rewrite Ek, Ef. clearbody items.
  destruct (dry_run q).
  - intros [= <- <-]. cbn. rewrite app_nil_r. split_and!; (done || lia).
  - rewrite E2. intros [= <- <-]. cbn. rewrite Et2, Em. split_and!; (done || lia).
Qed.
End HandlerFacts.

(** ** Witnesses *)

Definition any_utf8 (_ : string) : bool := true.
Definition no_text (_ : f64) : string := "0".

Definition demo_value : Value :=
  Object [("amount", Number (PosInt 5)); ("topic", Array [VString "mint"; Bool true])]%string.

Lemma lua_round_trip_witness : lua_to_json any_utf8 no_text (json_to_lua demo_value) = Ok demo_value.
Proof. apply (lua_round_trip any_utf8 no_text demo_value). by vm_compute. Defined.

Definition conv_string (v : LuaValue) : option string := match v with LString s => Some s | _ => None end.
Definition conv_u64 (v : LuaValue) : option Z := match v with LInteger n => Some n | _ => None end.
Definition conv_bool (v : LuaValue) : option bool := match v with LBoolean b => Some b | _ => None end.
Definition conv_usize (k : LuaKey) : option Z := match k with KInt i => Some i | _ => None end.

Definition demo_event : SorobanEvent :=
  mkSorobanEvent (Some 4) (Some "7-1"%string) "CAAA" "contract" "ab" 9 "t" (Some "h"%string) true demo_value (Some [VString "mint"]) None.

Lemma identity_script_witness :
  transform_sync any_utf8 no_text conv_string conv_u64 conv_bool conv_usize (λ t, Ok (LTable t)) demo_event =
    Ok (Some (stripped demo_event)).
Proof.
  apply (identity_script any_utf8 no_text conv_string conv_u64 conv_bool conv_usize); [by constructor|by vm_compute|done|].
  intros topic [= <-]. apply Forall_cons. split; [done|by apply Forall_nil].
Defined.

Definition demo_row (id ledger : Z) (c : string) : Row :=
  mkRow (EventStore.mkRow id 0 (EventStore.mkColumns c "contract" "ab" ledger 0 demo_value None true None None "f" None None "s" None None None None None))
    None 1 false.
Definition demo_rows : list Row := [demo_row 1 7 "CAAA"; demo_row 2 9 "CBBB"; demo_row 3 8 "CAAA"].
Definition demo_pg : PgEnv := mkPgEnv (λ _, 0) (λ _, None).
Definition demo_uuid (i : Z) : string := show_i i.
Definition demo_time (_ : Z) : string := "t".
Definition demo_syntax (_ : string) : result () string := Ok ().

(** Keeps the events of one contract and fails in ledger 9. *)
Definition demo_script (_ : string) (e : SorobanEvent) : result (option SorobanEvent) string :=
  if ev_ledger e =? 9 then Err "boom"%string else if String.eqb (ev_contract_id e) "CAAA" then Ok (Some e) else Ok None.

Definition same_order (l : list Row) : list Row := l.
Definition demo_state : St (list Row) SorobanEvent := mkSt demo_rows 0 [].

Definition demo_ids : list Z := [2; 1].
Abbreviation demo_preview := (lua_preview demo_uuid demo_pg same_order 99 demo_time demo_script "x").

Lemma run_result {A B C} (r : result A B * C) x : r.1 = Ok x → r = (Ok x, r.2).
Proof. destruct r as [r c]. by intros [= ->]. Qed.

Definition items_of (r : result (list LuaPreviewItem) AppError) : list LuaPreviewItem := match r with Ok l => l | Err _ => [] end.

Lemma preview_labels_witness : length (items_of (demo_preview demo_ids demo_state).1) = 2%nat.
Proof.
  apply (preview_labels demo_uuid demo_pg same_order 99 demo_time demo_script "x" demo_ids demo_state
           (items_of (demo_preview demo_ids demo_state).1) (demo_preview demo_ids demo_state).2).
  apply run_result. by vm_compute.
Defined.

Lemma preview_mislabels_witness :
  ∃ i j s', demo_preview [2; 1] (mkSt [demo_row 1 7 "CAAA"; demo_row 2 9 "CBBB"] 0 []) = (Ok [i; j], s') ∧ event_id i = 2.
Proof.
  destruct (preview_mislabels demo_uuid demo_pg same_order 99 demo_time demo_script "x" (demo_row 1 7 "CAAA") (demo_row 2 9 "CBBB")
    (mkSt [demo_row 1 7 "CAAA"; demo_row 2 9 "CBBB"] 0 [])) as (i & j & s' & H & Hi & _); [done|by vm_compute|done|].
  by exists i, j, s'.
Defined.

Definition demo_replay (dry : bool) : ReplayWithTransformRequest := mkReplay (Some 5) (Some 9) None None None "return event" dry None.
Abbreviation demo_run dry :=
  (replay_with_transform demo_uuid demo_pg same_order 99 demo_time demo_script demo_syntax (demo_replay dry) demo_state).
Definition replayed_of (r : result ReplayWithTransformResponse AppError) : ReplayWithTransformResponse :=
  match r with Ok x => x | Err _ => mkReplayed "" false 0 0 0 0 [] end.

Example demo_counts :
  let r := replayed_of (demo_run false).1 in (total_events r, transformed_events r, skipped_events r, error_events r) = (3, 2, 0, 1).
Proof. by vm_compute. Qed.

Example demo_sent : map ev_ledger (trace (demo_run false).2) = [7; 8] ∧ trace (demo_run true).2 = [].
Proof. by vm_compute. Qed.

Lemma replay_with_transform_spec_witness :
  let resp := replayed_of (demo_run false).1 in
  (∃ rows rest, selected (demo_replay false) demo_rows rows rest ∧
     skipped_events resp = outcomes demo_time demo_script is_dropped (wrap_script_body "return event") rows) ∧
  total_events resp = 3 ∧ map event_id (preview resp) = [1; 3; 2].
Proof.
  split; [|by vm_compute].
  destruct (replay_with_transform_spec demo_uuid demo_pg same_order 99 demo_time demo_script demo_syntax (demo_replay false) demo_state
    (replayed_of (demo_run false).1) (demo_run false).2) as (rows & rest & Hsel & _ & _ & _ & Hskip & _).
  - done.
  - apply run_result. by vm_compute.
  - exists rows, rest. by split.
Defined.
End LuaReplay.
