(* ===== verification/Routes.v ===== *)
(** The HTTP service as it is put together: the table of routes and the order of
    the layers (routes.rs), the address filter (middleware/ip_access.rs), the
    small middlewares (middleware/http_utils.rs, middleware/response_middleware.rs)
    and the builder of stacks (middleware/builder.rs).

    axum dispatches a request by its path and then by its method; layers that are
    put on a router run after the path has been found, the last one first.  The
    matching of paths (matchit) is an interface with its laws, for which there is
    an instance. *)

From S2P Require Import Prelude Text Model Pg ApiParams ApiKeys ZeroTrust.

Module Routes.
Import ApiParams ApiKeys.

(** ** Paths and patterns *)

Inductive Seg : Type := Static (s : string) | Param | Rest.

#[export] Instance Seg_eq_dec : EqDecision Seg.
Proof. solve_decision. Defined.

Abbreviation Pattern := (list Seg).

Definition seg_of (s : string) : Seg :=
  if starts_with "{*" s then Rest else if starts_with "{" s then Param else Static s.

Definition pattern_of (p : string) : Pattern := map seg_of (split_on "/" p).

(** A parameter stands for one segment that is not empty, a rest for one or more. *)
Fixpoint matches (ps : Pattern) (segs : list string) : bool :=
  match ps, segs with
  | [], [] => true
  | Static s :: ps, x :: segs => String.eqb s x && matches ps segs
  | Param :: ps, x :: segs => negb (is_empty x) && matches ps segs
  | [Rest], x :: segs => negb (is_empty x && match segs with [] => true | _ => false end)
  | _, _ => false
  end.

Definition static (ps : Pattern) : bool := forallb (λ s, match s with Static _ => true | _ => false end) ps.

(** What axum's path router promises: the pattern it finds matches, it finds one
    if there is one, and a path that is written out wins over patterns. *)
Class PathRouter : Type := find_path : list Pattern → list string → option Pattern.

Class PathRouterLaws (R : PathRouter) : Prop := {
  find_sound ps segs p : find_path ps segs = Some p → p ∈ ps ∧ matches p segs = true;
  find_complete ps segs p : p ∈ ps → matches p segs = true → ∃ q, find_path ps segs = Some q;
  find_static ps segs p : p ∈ ps → static p = true → matches p segs = true → find_path ps segs = Some p;
}.

(** An instance: literal segments before parameters, from left to right. *)
Fixpoint prefers (p q : Pattern) : bool :=
  match p, q with
  | Static _ :: p, Static _ :: q | Param :: p, Param :: q => prefers p q
  | Static _ :: _, _ :: _ => true
  | Param :: _, Rest :: _ => true
  | _, _ => false
  end.

Definition best_match : PathRouter := λ ps segs,
  foldl (λ o p, if matches p segs then match o with Some q => if prefers p q then Some p else o | None => Some p end else o)
    None ps.

(** ** The table of routes *)

Inductive Guard : Type := Open | AdminAuth | RequireAdmin.

Record Endpoint : Type := mkEndpoint { pattern : string; e_method : string; handler : string; guard : Guard }.

#[export] Instance Guard_eq_dec : EqDecision Guard.
Proof. solve_decision. Defined.
#[export] Instance Endpoint_eq_dec : EqDecision Endpoint.
Proof. solve_decision. Defined.

(** [Router::route] of one pattern with its methods, for a list of patterns. *)
Definition endpoints (g : Guard) (l : list (string * list (string * string))) : list Endpoint :=
  concat (map (λ r, map (λ m, mkEndpoint r.1 m.1 m.2 g) r.2) l).

Definition admin_routes : list Endpoint := endpoints AdminAuth [
  ("/admin/lua/preview", [("POST", "handlers::lua_preview")]);
  ("/admin/replay", [("POST", "handlers::replay_events")]);
  ("/admin/reencrypt", [("POST", "handlers::start_reencrypt")]);
  ("/admin/token-transfers/backfill", [("POST", "token_events::backfill_token_transfers")]);
  ("/admin/event-addresses/backfill", [("POST", "account_events::backfill_event_addresses")]);
  ("/admin/sep41/backfill", [("POST", "sep41::backfill_sep41")]);
  ("/admin/contracts/{contract_id}/abi", [("POST", "handlers::register_contract_abi"); ("GET", "handlers::get_contract_abi")]);
  ("/admin/contracts/{contract_id}/metadata", [("POST", "handlers::upsert_contract_metadata"); ("DELETE", "handlers::delete_contract_metadata")]);
  ("/admin/contracts/metadata/import", [("POST", "handlers::bulk_import_contract_metadata")]);
  ("/admin/events/{id}/anonymize", [("POST", "handlers::anonymize_event")]);
  ("/admin/indexer/pause", [("POST", "handlers::pause_indexer")]);
  ("/admin/indexer/resume", [("POST", "handlers::resume_indexer")]);
  ("/admin/contracts/{contract_id}/schema", [("POST", "handlers::register_contract_schema"); ("GET", "handlers::get_contract_schema"); ("DELETE", "handlers::delete_contract_schema")]);
  ("/admin/contracts/{contract_id}/validate", [("POST", "handlers::validate_event_data_against_schema")]);
  ("/admin/schemas", [("GET", "handlers::list_contract_schemas")]);
  ("/admin/pool-config", [("GET", "handlers::get_pool_tuning_guide")]);
  ("/admin/pool-config/statistics", [("GET", "handlers::get_pool_statistics")]);
  ("/admin/pool-config/health", [("GET", "handlers::get_pool_health")]);
  ("/contracts/{id}/resources", [("GET", "handlers::get_contract_resources")]);
  ("/admin/indexer/gaps", [("GET", "handlers::get_indexer_gaps")]);
  ("/admin/pool-config/adaptive", [("GET", "handlers::get_adaptive_pool_status")]);
  ("/admin/pool-config/adaptive/config", [("PUT", "handlers::update_adaptive_pool_config")]);
  ("/admin/pool-config/adaptive/rollback", [("POST", "handlers::rollback_adaptive_pool_config")]);
  ("/admin/statistics/report", [("GET", "handlers::get_statistics_report")]);
  ("/admin/statistics/stale", [("GET", "handlers::detect_stale_statistics")]);
  ("/admin/statistics/health", [("GET", "handlers::get_statistics_health")]);
  ("/admin/statistics/refresh", [("POST", "handlers::refresh_statistics")]);
  ("/admin/statistics/jobs", [("GET", "handlers::get_analysis_jobs")]);
  ("/admin/slo/report", [("GET", "handlers::get_slo_report")]);
  ("/admin/jobs", [("GET", "job_scheduler::list_jobs")]);
  ("/admin/slo/sample", [("POST", "handlers::record_slo_sample")]);
  ("/admin/backup/verification/report", [("GET", "handlers::get_backup_verification_report")]);
  ("/admin/backup/verification/trigger", [("POST", "handlers::trigger_backup_verification")]);
  ("/admin/alerts/silences", [("POST", "handlers::create_alert_silence"); ("GET", "handlers::get_alert_silences")]);
  ("/admin/alerts/silences/{silence_id}", [("DELETE", "handlers::delete_alert_silence")]);
  ("/admin/push/analytics", [("GET", "push_notification::get_push_analytics")]);
  ("/admin/webhook/circuit-breaker", [("GET", "handlers::get_circuit_breaker_stats")]);
  ("/admin/webhook/circuit-breaker/{endpoint}", [("GET", "handlers::get_endpoint_circuit_breaker_stats")]);
  ("/admin/webhook/circuit-breaker/{endpoint}/reset", [("POST", "handlers::reset_circuit_breaker")]);
  ("/admin/events/export", [("POST", "handlers::start_event_export"); ("GET", "handlers::list_export_jobs")]);
  ("/admin/events/export/{job_id}", [("GET", "handlers::get_export_job_status")]);
  ("/admin/events/export/{job_id}/download", [("GET", "handlers::download_export_file")]);
  ("/admin/events/export/cleanup", [("POST", "handlers::cleanup_export_files")])]%string.

Definition api_key_routes : list Endpoint := endpoints RequireAdmin [
  ("/admin/api-keys", [("POST", "api_keys::create_api_key"); ("GET", "api_keys::list_api_keys")]);
  ("/admin/api-keys/{id}", [("DELETE", "api_keys::revoke_api_key")])]%string.

Definition deprecated_routes : list Endpoint := endpoints Open [
  ("/events", [("GET", "handlers::get_events")]);
  ("/events/stream", [("GET", "handlers::stream_events")]);
  ("/events/contract/{contract_id}", [("GET", "handlers::get_events_by_contract")]);
  ("/events/contract/{contract_id}/stream", [("GET", "handlers::stream_events_by_contract")]);
  ("/events/tx/{tx_hash}", [("GET", "handlers::get_events_by_tx")]);
  ("/contracts", [("GET", "handlers::get_contracts")])]%string.

Definition health_routes : list Endpoint := endpoints Open [
  ("/health", [("GET", "handlers::health")]);
  ("/healthz/live", [("GET", "handlers::health_live")]);
  ("/healthz/ready", [("GET", "handlers::health_ready")]);
  ("/healthz/postgres", [("GET", "handlers::health_postgres")]);
  ("/healthz/rpc", [("GET", "handlers::health_rpc")]);
  ("/healthz/external/{service}", [("GET", "handlers::health_external")]);
  ("/unsubscribe", [("GET", "handlers::unsubscribe")]);
  ("/metrics", [("GET", "handlers::metrics")]);
  ("/v1/meta", [("GET", "meta::get_meta")])]%string.

Definition root_routes : list Endpoint := endpoints Open [
  ("/status", [("GET", "handlers::status")]);
  ("/openapi.json", [("GET", "handlers::openapi_json")]);
  ("/docs", [("GET", "handlers::swagger_ui")])]%string.

Definition v1_event_routes : list Endpoint := endpoints Open [
  ("/events", [("GET", "handlers::get_events")]);
  ("/events/feed.rss", [("GET", "handlers::get_events_feed")]);
  ("/events/stats", [("GET", "handlers::get_event_stats")]);
  ("/contracts/{contract_id}/stats/history", [("GET", "handlers::get_contract_stats_history")]);
  ("/contracts/{contract_id}/stats", [("GET", "contract_resource_stats::get_contract_resource_stats")]);
  ("/events/diff", [("GET", "handlers::get_events_diff")]);
  ("/events/export", [("GET", "handlers::export_events")]);
  ("/events/timeseries", [("GET", "handlers::get_timeseries")]);
  ("/events/temporal", [("GET", "handlers::get_temporal_events")]);
  ("/events/recent", [("GET", "handlers::get_recent_events")]);
  ("/events/stream", [("GET", "handlers::stream_events")]);
  ("/events/stream/multi", [("GET", "handlers::stream_events_multi")]);
  ("/events/ws", [("GET", "handlers::ws_stream_events")]);
  ("/events/contract/{contract_id}", [("GET", "handlers::get_events_by_contract")]);
  ("/events/contract/{contract_id}/stream", [("GET", "handlers::stream_events_by_contract")]);
  ("/events/tx/batch", [("POST", "handlers::get_events_by_tx_batch")]);
  ("/admin/events/bulk", [("POST", "handlers::bulk_insert_events")]);
  ("/events/tx/{tx_hash}/related", [("GET", "handlers::get_related_events_by_tx")]);
  ("/events/tx/{tx_hash}", [("GET", "handlers::get_events_by_tx")]);
  ("/events/ledger-hash/{hash}", [("GET", "handlers::get_events_by_ledger_hash")]);
  ("/contracts", [("GET", "handlers::get_contracts")]);
  ("/contracts/search", [("GET", "handlers::get_contracts_search")]);
  ("/contracts/exists", [("GET", "handlers::check_contract_exists")]);
  ("/config", [("GET", "handlers::get_config")]);
  ("/rate-limit/status", [("GET", "handlers::get_rate_limit_status")]);
  ("/admin/config/reload", [("POST", "handlers::reload_config")]);
  ("/config/anonymization", [("GET", "handlers::get_anonymization_config")]);
  ("/config/anonymization/rules", [("POST", "handlers::upsert_anonymization_rule")]);
  ("/config/anonymization/rules/{name}", [("DELETE", "handlers::delete_anonymization_rule")]);
  ("/config/anonymization/scan", [("POST", "handlers::scan_event_for_pii")]);
  ("/cross-chain/trace/{tx_hash}", [("GET", "handlers::get_cross_chain_trace")]);
  ("/cross-chain/causality", [("GET", "handlers::analyze_causality")]);
  ("/contracts/{contract_id}/metadata", [("GET", "handlers::get_contract_metadata")]);
  ("/contracts/{contract_id}/summary", [("GET", "handlers::get_contract_summary")]);
  ("/contracts/{contract_id}/event-counts", [("GET", "handlers::get_contract_event_counts")]);
  ("/admin/replay", [("POST", "handlers::replay_events")]);
  ("/replay/with-transform", [("POST", "handlers::replay_with_transform")]);
  ("/admin/reencrypt", [("POST", "handlers::start_reencrypt")]);
  ("/admin/mask-events", [("POST", "handlers::start_mask_events")]);
  ("/admin/mask-events/{job_id}", [("GET", "handlers::get_mask_job_status")]);
  ("/admin/notifications/channels", [("POST", "handlers::create_notification_channel")]);
  ("/admin/contracts/{contract_id}/abi", [("POST", "handlers::register_contract_abi"); ("GET", "handlers::get_contract_abi")])]%string.

Definition v1_subscription_routes : list Endpoint := endpoints Open [
  ("/admin/contracts/{contract_id}/metadata", [("POST", "handlers::upsert_contract_metadata"); ("DELETE", "handlers::delete_contract_metadata")]);
  ("/admin/contracts/metadata/import", [("POST", "handlers::bulk_import_contract_metadata")]);
  ("/admin/events/{id}/anonymize", [("POST", "handlers::anonymize_event")]);
  ("/admin/events/contract/{contract_id}", [("DELETE", "handlers::delete_contract_events")]);
  ("/admin/indexer/pause", [("POST", "handlers::pause_indexer")]);
  ("/admin/indexer/resume", [("POST", "handlers::resume_indexer")]);
  ("/admin/contracts/{contract_id}/schema", [("POST", "handlers::register_contract_schema"); ("GET", "handlers::get_contract_schema"); ("DELETE", "handlers::delete_contract_schema")]);
  ("/admin/contracts/{contract_id}/validate", [("POST", "handlers::validate_event_data_against_schema")]);
  ("/admin/schemas", [("GET", "handlers::list_contract_schemas")]);
  ("/notifications/email/bounce", [("POST", "handlers::email_bounce_webhook")]);
  ("/subscriptions", [("POST", "subscriptions::create_subscription")]);
  ("/subscriptions/{id}", [("GET", "subscriptions::get_subscription"); ("DELETE", "subscriptions::cancel_subscription")]);
  ("/subscriptions/{id}/ack", [("POST", "subscriptions::ack_subscription")]);
  ("/subscriptions/{id}/email", [("GET", "subscriptions::get_subscription_email"); ("PUT", "subscriptions::update_subscription_email")]);
  ("/subscriptions/{id}/push", [("GET", "push_notification::get_subscription_push"); ("PUT", "push_notification::update_subscription_push")]);
  ("/subscriptions/{id}/push/preferences", [("GET", "push_notification::get_notification_preferences"); ("PUT", "push_notification::update_notification_preferences")]);
  ("/subscriptions/{id}/batch", [("GET", "subscriptions::get_subscription_batch_config"); ("PUT", "subscriptions::update_subscription_batch_config"); ("POST", "subscriptions::deliver_batch")]);
  ("/subscriptions/{id}/pause", [("POST", "subscriptions::pause_subscription")]);
  ("/subscriptions/{id}/resume", [("POST", "subscriptions::resume_subscription")]);
  ("/subscriptions/{id}/pause-status", [("GET", "subscriptions::get_pause_resume_status")]);
  ("/admin/subscriptions/{subscription_id}/anomaly-config", [("POST", "handlers::create_anomaly_config")]);
  ("/admin/subscriptions/{subscription_id}/anomaly-alerts", [("GET", "handlers::get_anomaly_alerts")]);
  ("/admin/subscriptions/{subscription_id}/anomaly-alerts/{alert_id}/acknowledge", [("POST", "handlers::acknowledge_anomaly_alert")]);
  ("/subscriptions/{id}/integrations/github", [("POST", "integration_handlers::setup_github_integration"); ("GET", "integration_handlers::get_github_integration"); ("DELETE", "integration_handlers::delete_github_integration")]);
  ("/subscriptions/{id}/integrations/discord", [("POST", "integration_handlers::setup_discord_integration"); ("GET", "integration_handlers::get_discord_integration"); ("DELETE", "integration_handlers::delete_discord_integration")]);
  ("/subscriptions/{id}/integrations/slack", [("POST", "integration_handlers::setup_slack_integration"); ("GET", "integration_handlers::get_slack_integration"); ("DELETE", "integration_handlers::delete_slack_integration")]);
  ("/subscriptions/{id}/integrations/telegram", [("POST", "integration_handlers::setup_telegram_integration"); ("GET", "integration_handlers::get_telegram_integration"); ("DELETE", "integration_handlers::delete_telegram_integration")]);
  ("/subscriptions/{id}/integrations/pagerduty", [("POST", "integration_handlers::setup_pagerduty_integration"); ("GET", "integration_handlers::get_pagerduty_integration"); ("DELETE", "integration_handlers::delete_pagerduty_integration")]);
  ("/subscriptions/{id}/integrations/pagerduty/incidents", [("GET", "integration_handlers::list_pagerduty_incidents")]);
  ("/subscriptions/{id}/integrations/pagerduty/incidents/acknowledge", [("POST", "integration_handlers::acknowledge_pagerduty_incident")]);
  ("/subscriptions/{id}/integrations/pagerduty/incidents/resolve", [("POST", "integration_handlers::resolve_pagerduty_incident")])]%string.

Definition v1_service_routes : list Endpoint := endpoints Open [
  ("/notifications/email/track/{token}", [("GET", "handlers::track_email_open")]);
  ("/admin/notifications/email/stats", [("GET", "handlers::get_email_stats")]);
  ("/notifications/email/click/{token}", [("GET", "handlers::track_email_click")]);
  ("/admin/notifications/email/ab-test/results", [("GET", "handlers::get_ab_test_results")]);
  ("/admin/notifications/suppress", [("POST", "handlers::add_suppression")]);
  ("/admin/notifications/suppress/{id}", [("DELETE", "handlers::remove_suppression")]);
  ("/admin/replication/status", [("GET", "handlers::get_replication_status")]);
  ("/admin/feature-flags", [("GET", "handlers::list_feature_flags")]);
  ("/admin/feature-flags/audit", [("GET", "handlers::get_feature_flag_audit")]);
  ("/admin/indexes/fragmentation", [("GET", "handlers::get_index_fragmentation")]);
  ("/admin/indexes/{index_name}/reindex", [("POST", "handlers::reindex_index")]);
  ("/networks", [("GET", "handlers::list_networks")]);
  ("/ledgers/{ledger}/hash", [("GET", "handlers::get_ledger_hash")]);
  ("/ledgers/verify-chain", [("GET", "handlers::verify_ledger_hash_chain")]);
  ("/admin/compression/stats", [("GET", "handlers::compression_stats")]);
  ("/admin/compression/migrate", [("POST", "handlers::start_compression_migration")]);
  ("/tokens/{contract_id}/transfers", [("GET", "token_events::get_token_transfers")]);
  ("/accounts/{address}/events", [("GET", "account_events::get_account_events")]);
  ("/events/sep41", [("GET", "sep41::get_sep41_events")]);
  ("/contracts/{contract_id}/versions", [("GET", "contract_versions::get_contract_versions")]);
  ("/contracts/{contract_id}", [("GET", "contract_tracker::get_contract")]);
  ("/contracts/{contract_id}/spec", [("GET", "contract_specs::get_contract_spec")]);
  ("/contracts/{contract_id}/abi/cached", [("GET", "handlers::get_contract_abi_cached")]);
  ("/features", [("GET", "handlers::get_feature_flag_status")]);
  ("/admin/audit-logs", [("GET", "handlers::get_audit_logs")]);
  ("/analytics/trending", [("GET", "handlers::get_trending_events")]);
  ("/analytics/correlations", [("GET", "handlers::get_event_correlations")]);
  ("/export/csv", [("GET", "handlers::export_events_csv")]);
  ("/export/json", [("GET", "handlers::export_events_json")]);
  ("/export/parquet", [("GET", "handlers::export_events_parquet")]);
  ("/export/schedule", [("POST", "handlers::schedule_export_job")]);
  ("/export/jobs/{job_id}", [("GET", "handlers::get_export_job_status_db")]);
  ("/export/history", [("GET", "handlers::get_export_history")]);
  ("/push/{contract_id}/schema", [("GET", "push_preload::get_push_schema")]);
  ("/push/{contract_id}/abi", [("GET", "push_preload::get_push_abi")]);
  ("/events/batch/retrieve", [("POST", "batch_operations::batch_retrieve_events")]);
  ("/events/batch/delete", [("POST", "batch_operations::batch_delete_events")]);
  ("/events/batch/tag", [("POST", "batch_operations::batch_tag_events")]);
  ("/events/batch/subscriptions", [("POST", "batch_operations::batch_update_subscriptions")]);
  ("/events/batch/transform", [("POST", "batch_operations::batch_transform_events")]);
  ("/events/batch/progress/{job_id}", [("GET", "batch_operations::get_batch_progress")]);
  ("/stats/stream", [("GET", "stream_statistics::get_stream_stats")]);
  ("/stats/stream/throughput", [("GET", "stream_statistics::get_stream_throughput")]);
  ("/stats/stream/{contract_id}", [("GET", "stream_statistics::get_contract_stream_stats")]);
  ("/events/filter", [("POST", "filter_dsl::get_events_with_dsl")]);
  ("/admin/dsl/compile", [("POST", "filter_dsl::compile_dsl_filter")]);
  ("/admin/dsl/filters", [("POST", "filter_dsl::save_dsl_filter"); ("GET", "filter_dsl::list_dsl_filters")])]%string.

(** [Router::nest]. *)
Definition nest (prefix : string) (l : list Endpoint) : list Endpoint :=
  map (λ e, mkEndpoint (prefix +:+ pattern e) (e_method e) (handler e) (guard e)) l.

(** The files of the dashboard, when it is served. *)
Definition dashboard_routes (serve : bool) : list Endpoint :=
  if serve then endpoints Open [("/ui", [("GET", "dashboard")]); ("/ui/", [("GET", "dashboard")]); ("/ui/{*path}", [("GET", "dashboard")])]%string else [].

(** [admin_routes] is built, but nothing merges it. *)
Definition v1 : list Endpoint := v1_event_routes ++ v1_subscription_routes ++ v1_service_routes ++ api_key_routes.

Definition rate_limited_routes : list Endpoint := root_routes ++ nest "/v1" v1 ++ deprecated_routes.

Definition router (serve_dashboard : bool) : list Endpoint :=
  health_routes ++ dashboard_routes serve_dashboard ++ rate_limited_routes.

(** Two routes that axum refuses to have in one router: the same method for the
    same pattern, or patterns that differ in the names of parameters only. *)
Definition conflict (a b : Endpoint) : bool :=
  bool_decide (pattern_of (pattern a) = pattern_of (pattern b)) &&
  (negb (String.eqb (pattern a) (pattern b)) || String.eqb (e_method a) (e_method b)).

(** [Router::merge] panics on a conflict. *)
Fixpoint assembles (l : list Endpoint) : bool :=
  match l with [] => true | e :: rest => negb (existsb (conflict e) rest) && assembles rest end.

(** ** Serving a request *)

(** What has become of a request: refused with a status, or handled; and whether
    the answer has passed the layer of the security headers. *)
Inductive Reply : Type :=
| Refused (status : Z) (error : string) (security_headers : bool)
| Handled (handler : string) (e : Extensions).

Record Filters : Type := mkFilters { ip_denylist : list string; ip_allowlist : list string }.

(** [ip_access_control_middleware] *)
Definition ip_rule (f : Filters) : option ZeroTrust.PolicyRule :=
  match ip_denylist f, ip_allowlist f with
  | _ :: _, _ => Some (ZeroTrust.IpDenyListRule (ip_denylist f))
  | [], _ :: _ => Some (ZeroTrust.IpAllowListRule (ip_allowlist f))
  | [], [] => None
  end.

Definition ip_denied (f : Filters) (req : Request) : bool :=
  match ip_rule f with
  | None => false
  | Some rule =>
      match rule (ZeroTrust.mkContext (extract_client_ip (headers req)) "" (path req) (method req) 0 None) with
      | Some (ZeroTrust.Deny _) => true
      | _ => false
      end
  end.

Section Serve.
Context `{R : PathRouter}.
Variable pg : PgEnv.
Variable hash_api_key : string → string.
Variable st : AuthState.
Variable filters : Filters.
Variable table : list Endpoint.
(** The refusals of the rate limit per key (RateLimiter), which is outside the
    security headers, and of the limit per client, which is inside. *)
Variable key_limited : Request → Extensions → bool.
Variable client_limited : string → Request → bool.

(** [head_middleware] *)
Definition effective_method (m : string) : string := if String.eqb m "HEAD" then "GET" else m.

Definition admin_gate (g : Guard) (req : Request) (e : Extensions) : AuthResult :=
  match g with
  | Open => Pass e
  | AdminAuth => admin_auth (admin_api_keys st) req e
  | RequireAdmin => require_admin (admin_api_keys st) req e
  end.

Definition is_limited (p : string) : bool := existsb (λ x, String.eqb (pattern x) p) rate_limited_routes.

(** The route: its limit per client, its gate, and the handler of the method. *)
Definition run_route (p : Pattern) (req : Request) (e : Extensions) : Reply :=
  let here := List.filter (λ x, bool_decide (pattern_of (pattern x) = p)) table in
  match here with
  | [] => Refused 404 "not found" true
  | x :: _ =>
      if is_limited (pattern x) && client_limited (pattern x) req then Refused 429 "rate limit exceeded" true else
      match admin_gate (guard x) req e with
      | Deny s m => Refused s m true
      | Pass e =>
          match List.find (λ x, String.eqb (e_method x) (effective_method (method req))) here with
          | Some x => Handled (handler x) e
          | None => Refused 405 "method not allowed" true
          end
      end
  end.

Definition dispatch (req : Request) (e : Extensions) : Reply :=
  match find_path (map (λ x, pattern_of (pattern x)) table) (split_on "/" (path req)) with
  | None => Refused 404 "not found" true
  | Some p => run_route p req e
  end.

(** The layers from the outside in: authentication, the address filter, the
    limit per key, the security headers, the route. *)
Definition serve (req : Request) : M Db () string Reply :=
  a ← auth_middleware pg hash_api_key st req;
  mret (match a with
        | Deny s m => Refused s m false
        | Pass e =>
            if ip_denied filters req then Refused 403 "ip-policy" false else
            if key_limited req e then Refused 429 "rate limit exceeded" false else
            dispatch req e
        end).
End Serve.

(** ** Limits per client *)

(** One token is replenished every [replenish_ms], up to [burst]. *)
Definition replenish_ms (rate_limit_per_minute : Z) : Z := Z.max 1 (60000 / Z.max 1 rate_limit_per_minute).
Definition burst (rate_limit_per_minute : Z) : Z := Z.max 1 rate_limit_per_minute.

(** [GovernorConfigBuilder::finish] has no answer for a period or a burst of zero. *)
Definition finish (period burst : Z) : option (Z * Z) := if (0 <? period) && (0 <? burst) then Some (period, burst) else None.

Definition governor (multi_tenant : bool) (tenant_limit : option Z) (rate_limit_per_minute : Z) : option (Z * Z) :=
  let limit := if multi_tenant then default rate_limit_per_minute tenant_limit else rate_limit_per_minute in
  finish (replenish_ms limit) (burst limit).

(** [ApiKeyExtractor::extract], the bucket of a request in multi-tenant mode. *)
Definition bucket_key (h : HeaderMap) : option string := extract_api_key_from_headers h.

(** ** Responses *)

Record Response : Type := mkResponse { status : Z; resp_headers : list (string * string); body : string }.

(** [HeaderMap::insert], with the name in lower case. *)
Definition set_header (k v : string) (r : Response) : Response :=
  mkResponse (status r) (List.filter (λ h, negb (String.eqb h.1 k)) (resp_headers r) ++ [(k, v)]) (body r).

Definition quote : string := String (ascii_of_nat 34) EmptyString.

(** [deprecation_middleware]; a path that is no header value gets the link of the events. *)
Definition deprecation (header_value : string → bool) (path : string) (r : Response) : Response :=
  let successor p := ("<" +:+ p +:+ ">; rel=" +:+ quote +:+ "successor-version" +:+ quote)%string in
  let link := successor ("/v1" +:+ path)%string in
  set_header "link" (if header_value link then link else successor "/v1/events"%string)
    (set_header "sunset" "Sat, 24 Oct 2026 00:00:00 GMT" (set_header "deprecation" "true" r)).

(** [rate_limit_reject_middleware], with the printer of JSON. *)
Definition rate_limit_reject (to_string : Value → string) (correlation_id : string) (r : Response) : Response :=
  if status r =? 429 then
    mkResponse 429 (("content-type", "application/json") :: List.filter (λ h, negb (String.eqb h.1 "content-type")) (resp_headers r))%string
      (to_string (Object [("code", VString "RATE_LIMIT_EXCEEDED"); ("correlation_id", VString correlation_id);
                          ("error", VString "rate limit exceeded")]%string))
  else r.

(** [head_middleware]: the answer to the GET, without its body. *)
Definition head_response (is_head : bool) (r : Response) : Response :=
  if is_head then
    let r := set_header "content-length" (show_u (Z.of_nat (String.length (body r)))) r in
    mkResponse (status r) (resp_headers r) ""
  else r.

(** [cache_middleware], which only the builder of stacks uses. *)
Definition cache_control (path query : string) : option string :=
  if ends_with "/tx/" path || (contains "/tx/" path && negb (contains "?" path)) then
    Some "public, max-age=3600, immutable"%string
  else if String.eqb path "/v1/events" || String.eqb path "/events" then
    Some (if contains "to_ledger" query then "public, max-age=60" else "public, max-age=5, stale-while-revalidate=10")%string
  else if contains "/contract/" path then Some "public, max-age=5, stale-while-revalidate=10"%string
  else None.

Definition cache_response (sha256_hex : string → string) (path query : string) (r : Response) : Response :=
  match cache_control path query with
  | None => r
  | Some c => set_header "etag" (quote +:+ String.substring 0 16 (sha256_hex (body r)) +:+ quote) (set_header "cache-control" c r)
  end.

(** [build_cors] *)
Record Cors : Type := mkCors { any_origin : bool; origins : list string; cors_methods : list string; max_age : Z; vary_origin : bool }.

Definition build_cors (header_value : string → bool) (allowed_origins : list string) : Cors :=
  if existsb (String.eqb "*") allowed_origins then mkCors true [] ["GET"; "POST"]%string 86400 false
  else mkCors false (List.filter header_value allowed_origins) ["GET"; "POST"]%string 86400 true.

(** ** The builder of stacks (middleware/builder.rs) *)

Inductive Layer : Type := SecurityHeaders | RequestId | Head | Tracing | Auth | AdminAuthLayer | Cache.

#[export] Instance Layer_eq_dec : EqDecision Layer.
Proof. solve_decision. Defined.

Record MiddlewareStack : Type := mkStack {
  with_security_headers : bool; with_request_id : bool; with_tracing : bool; with_head : bool; with_cache : bool;
  auth_state : bool; admin_auth_state : bool;
}.

Definition new_stack : MiddlewareStack := mkStack false false false false false false false.

(** One of the [with_] methods. *)
Definition with_layer (l : Layer) (s : MiddlewareStack) : MiddlewareStack :=
  let '(mkStack a b c d e f g) := s in
  match l with
  | SecurityHeaders => mkStack true b c d e f g
  | RequestId => mkStack a true c d e f g
  | Tracing => mkStack a b true d e f g
  | Head => mkStack a b c true e f g
  | Cache => mkStack a b c d true f g
  | Auth => mkStack a b c d e true g
  | AdminAuthLayer => mkStack a b c d e f true
  end.

(** [apply]: each [layer] call wraps what is there; the result from the outside in. *)
Definition apply (s : MiddlewareStack) : list Layer :=
  let add (on : bool) (l : Layer) (ls : list Layer) := if on then l :: ls else ls in
  add (with_security_headers s) SecurityHeaders (add (with_request_id s) RequestId (add (with_head s) Head
    (add (with_tracing s) Tracing (add (auth_state s) Auth (add (admin_auth_state s) AdminAuthLayer
    (add (with_cache s) Cache [])))))).


(** ** The path router *)

Lemma prefers_static p q segs :
  static p = true → matches p segs = true → matches q segs = true → prefers q p = false ∧ (q ≠ p → prefers p q = true).
Proof.
  revert q segs. induction p as [|[s| |] p IH]; intros q segs Hs Hp Hq; [|destruct segs as [|x segs]; [done|]|done..].
  - destruct segs; [|done]. destruct q as [|[| |] [|]]; done.
  - cbn in Hs, Hp. apply andb_true_iff in Hp as [->%String.eqb_eq Hp].
    destruct q as [|[t| |] q]; [done| |done..]. cbn in Hq. apply andb_true_iff in Hq as [->%String.eqb_eq Hq].
    cbn. destruct (IH q segs Hs Hp Hq) as [H1 H2]. split; [done|]. intros Hn. apply H2. intros ->. by apply Hn.
Qed.

Definition best_step (segs : list string) (o : option Pattern) (p : Pattern) : option Pattern :=
  if matches p segs then match o with Some q => if prefers p q then Some p else o | None => Some p end else o.

Lemma best_step_spec segs o p :
  match best_step segs o p with
  | Some q => q = p ∧ matches p segs = true ∨ o = Some q
  | None => o = None ∧ matches p segs = false
  end.
Proof. unfold best_step. destruct (matches p segs), o as [q|]; try done; [destruct (prefers p q)|..]; auto. Qed.

Lemma best_fold segs ps : ∀ o,
  match foldl (best_step segs) o ps with
  | Some q => q ∈ ps ∧ matches q segs = true ∨ o = Some q
  | None => o = None ∧ ∀ p, p ∈ ps → matches p segs = false
  end.
Proof.
  induction ps as [|p ps IH]; intros o.
  - cbn. destruct o as [q|]; [by right|]. split; [done|]. by intros p ?%elem_of_nil.
  - cbn [foldl]. specialize (IH (best_step segs o p)). pose proof (best_step_spec segs o p) as Hp.
    destruct (foldl _ _ _) as [q|].
    + destruct IH as [[Hq Hm]|Hq]; [left; split; [by right|done]|]. rewrite Hq in Hp.
      destruct Hp as [[-> Hm]|Hp]; [left; split; [by left|done]|by right].
    + destruct IH as [Hq Hm]. rewrite Hq in Hp. destruct Hp as [Ho Hp]. split; [done|].
      intros q H. apply elem_of_cons in H as [->|H]; [done|by apply Hm].
Qed.

Lemma best_static segs p ps : static p = true → matches p segs = true →
  ∀ o, (∀ q, o = Some q → matches q segs = true) → p ∈ ps ∨ o = Some p → foldl (best_step segs) o ps = Some p.
Proof.
  intros Hs Hm. induction ps as [|q ps IH]; intros o Ho Hp; cbn [foldl].
  - destruct Hp as [Hp|Hp]; [by apply elem_of_nil in Hp|done].
  - assert (∀ x, best_step segs o q = Some x → matches x segs = true) as Ho'.
    { intros x E. pose proof (best_step_spec segs o q) as H. rewrite E in H. destruct H as [[-> H]|H]; [done|by apply Ho]. }
    apply IH; [done|]. destruct Hp as [Hp| -> ]; [apply elem_of_cons in Hp as [<-|Hp]; [|by left]|].
    + right. unfold best_step. rewrite Hm. destruct o as [x|]; [|done].
      destruct (decide (x = p)) as [->|Hn]; [by destruct (prefers p p)|].
      destruct (prefers_static p x segs Hs Hm (Ho x eq_refl)) as [_ H]. by rewrite H.
    + right. unfold best_step. destruct (matches q segs) eqn:Eq; [|done].
      by destruct (prefers_static p q segs Hs Hm Eq) as [-> _].
Qed.

#[export] Instance best_match_laws : PathRouterLaws best_match.
Proof.
  split; unfold find_path, best_match; intros ps segs p.
  - intros E. pose proof (best_fold segs ps None) as H. change (foldl _ None ps) with (foldl (best_step segs) None ps) in E.
    rewrite E in H. by destruct H as [H|H].
  - intros Hp Hm. pose proof (best_fold segs ps None) as H. change (foldl _ None ps) with (foldl (best_step segs) None ps).
    destruct (foldl _ None ps) as [q|]; [by exists q|]. destruct H as [_ H]. by rewrite H in Hm.
  - intros Hp Hs Hm. by apply (best_static segs p ps Hs Hm None); [|left].
Qed.

(** ** The table *)

(** The table as it is built is one that axum accepts. *)
Lemma router_assembles b : assembles (router b) = true.
Proof. destruct b; by vm_compute. Qed.

(** [admin_routes] could not be merged into the versioned routes as it is:
    fifteen of its routes are there already, without the gate. *)
Lemma admin_routes_conflict b :
  assembles (health_routes ++ dashboard_routes b ++ root_routes ++ nest "/v1" (v1 ++ admin_routes) ++ deprecated_routes) = false ∧
  length (List.filter (λ a, existsb (λ x, String.eqb (pattern a) (pattern x) && String.eqb (e_method a) (e_method x)) v1) admin_routes) = 15%nat.
Proof. destruct b; by vm_compute. Qed.

(** The routes of a pattern have one gate. *)
Definition uniform (l : list Endpoint) : bool :=
  forallb (λ a, forallb (λ b, negb (bool_decide (pattern_of (pattern a) = pattern_of (pattern b))) ||
    match guard a, guard b with Open, Open | AdminAuth, AdminAuth | RequireAdmin, RequireAdmin => true | _, _ => false end) l) l.

Lemma router_uniform b : uniform (router b) = true.
Proof. destruct b; by vm_compute. Qed.

Lemma uniform_guard l a b : uniform l = true → a ∈ l → b ∈ l → pattern_of (pattern a) = pattern_of (pattern b) → guard a = guard b.
Proof.
  unfold uniform. intros H Ha Hb E. rewrite forallb_forall in H. specialize (H a (proj1 (list_elem_of_In _ _) Ha)).
  rewrite forallb_forall in H. specialize (H b (proj1 (list_elem_of_In _ _) Hb)). rewrite bool_decide_eq_true_2 in H by done.
  cbn in H. by destruct (guard a), (guard b).
Qed.

Definition is_key_management (h : string) : bool :=
  mem h ["api_keys::create_api_key"; "api_keys::list_api_keys"; "api_keys::revoke_api_key"]%string.

(** Of the routes under /v1/admin only the management of keys has a gate. *)
Lemma admin_guards b :
  forallb (λ x, match guard x with
                | RequireAdmin => is_key_management (handler x)
                | Open => negb (is_key_management (handler x))
                | AdminAuth => false
                end) (router b) = true.
Proof. destruct b; by vm_compute. Qed.

(** ** Who is served *)

Lemma starts_with_spec p s : starts_with p s = true → ∃ r, s = (p +:+ r)%string.
Proof.
  revert s. induction p as [|a p IH]; intros s; [by exists s|]. destruct s as [|c s]; [done|]. unfold starts_with. cbn.
  destruct (ascii_dec a c) as [->|]; [|done]. intros H. destruct (IH s H) as [r ->]. by exists r.
Qed.

#[local] Arguments router : simpl never.
#[local] Arguments dispatch : simpl never.

Section Served.
Context {R : PathRouter} {L : PathRouterLaws R} (pg : PgEnv) (hash_api_key : string → string) (st : AuthState) (filters : Filters).
Context (key_limited : Request → Extensions → bool) (client_limited : string → Request → bool) (b : bool).

Local Abbreviation serve := (serve pg hash_api_key st filters (router b) key_limited client_limited).

(** Where a handler comes from: a route of the table for the path and the
    method, whose gate let the request through. *)
Lemma dispatch_handled req e0 h e :
  dispatch st (router b) client_limited req e0 = Handled h e →
  ∃ x, x ∈ router b ∧ handler x = h ∧ e_method x = effective_method (method req) ∧
    matches (pattern_of (pattern x)) (split_on "/" (path req)) = true ∧ admin_gate st (guard x) req e0 = Pass e.
Proof.
  unfold dispatch. destruct (find_path _ _) as [p|] eqn:Ef; [|done]. apply find_sound in Ef as [_ Hm].
  unfold run_route. set (here := List.filter _ _). assert (∀ x, x ∈ here → x ∈ router b ∧ pattern_of (pattern x) = p) as Hh.
  { intros x Hx. apply list_elem_of_In, filter_In in Hx as [Hx Hp]. apply bool_decide_eq_true in Hp. by split; [apply list_elem_of_In|]. }
  destruct here as [|y rest] eqn:Eh; [done|]. destruct (_ && _); [done|].
  destruct (admin_gate st (guard y) req e0) as [e'|] eqn:Eg; [|done].
  destruct (List.find _ (y :: rest)) as [x|] eqn:Ex; [|done]. intros [= <- <-]. apply find_some in Ex as [Hx Hmeth].
  destruct (Hh x) as [Hx1 Hx2]; [by apply list_elem_of_In|]. destruct (Hh y) as [Hy1 Hy2]; [by left|].
  exists x. split_and!; [done|done|by apply String.eqb_eq in Hmeth|by rewrite Hx2|].
  rewrite (uniform_guard (router b) x y); [done|apply router_uniform|done|done|by rewrite Hx2, Hy2].
Qed.

Lemma admin_gate_same g req e0 e : admin_gate st g req e0 = Pass e → e = e0.
Proof.
  destruct g; cbn; [by intros [= ->]|unfold admin_auth; destruct (admin_api_keys st); [by intros [= ->]|]|]; unfold require_admin;
  (destruct (has_admin_scoped_key e0); [by intros [= ->]|]); (destruct (extract_api_key_from_headers _) as [k|]; [|done]);
  destruct (key_matches_any k _); [by intros [= ->]|done|by intros [= ->]|done].
Qed.

Lemma serve_handled req s h e :
  (serve req s).1 = Ok (Handled h e) →
  (auth_middleware pg hash_api_key st req s).1 = Ok (Pass e) ∧ ip_denied filters req = false ∧ key_limited req e = false ∧
  dispatch st (router b) client_limited req e = Handled h e.
Proof.
  unfold serve, mbind, M_bind. destruct (auth_middleware pg hash_api_key st req s) as [[[e0|n m]|x] s1]; [|done|done].
  cbn. intros [= H]. destruct (ip_denied filters req); [done|]. destruct (key_limited req e0) eqn:Ek; [done|].
  destruct (dispatch_handled req e0 h e H) as (x & _ & _ & _ & _ & Hg). apply admin_gate_same in Hg as ->. done.
Qed.

Definition is_admin_credential (req : Request) (e : Extensions) : Prop :=
  has_admin_scoped_key e = true ∨
  ∃ key, extract_api_key_from_headers (headers req) = Some key ∧ key ∈ admin_api_keys st.

(** C36. A handler is reached only by a request that passed authentication (unless its
    path is public) and the address filter, over a route of the table for its
    path and method; and the management of API keys only with the credential of
    an administrator, whatever the database answers. *)
Theorem served_is_authorised req s h e (H : (serve req s).1 = Ok (Handled h e)) :
  (is_public_path (path req) = true ∨ by_scoped_key hash_api_key st req (db s) e ∨ by_env_key hash_api_key st req e ∨
   auth_enabled st = false ∧ e = mkExt (Some "anonymous"%string) None None) ∧
  ip_denied filters req = false ∧
  (∃ x, x ∈ router b ∧ handler x = h ∧ e_method x = effective_method (method req) ∧
    matches (pattern_of (pattern x)) (split_on "/" (path req)) = true) ∧
  (is_key_management h = true → is_admin_credential req e).
Proof.
  destruct (serve_handled req s h e H) as (Ha & Hip & _ & Hd). destruct (dispatch_handled req e h e Hd) as (x & Hx & Hh & Hm & Hp & Hg).
  split_and!; [|done|by exists x|].
  - destruct (is_public_path (path req)) eqn:Ep; [by left|right]. by apply (auth_middleware_pass pg hash_api_key st req s e).
  - intros Hk. pose proof (admin_guards b) as Hall. rewrite forallb_forall in Hall. specialize (Hall x (proj1 (list_elem_of_In _ _) Hx)).
    rewrite Hh, Hk in Hall. destruct (guard x); [done..|]. cbn in Hg. unfold require_admin in Hg.
    destruct (has_admin_scoped_key e) eqn:Es; [by left|right].
    destruct (extract_api_key_from_headers (headers req)) as [key|]; [|done].
    rewrite key_matches_any_spec in Hg. case_bool_decide; [by exists key|done].
Qed.

(** The route that the path router finds is served, when its gate is open. *)
Lemma dispatch_open req e x :
  x ∈ router b → guard x = Open → e_method x = effective_method (method req) →
  find_path (map (λ x, pattern_of (pattern x)) (router b)) (split_on "/" (path req)) = Some (pattern_of (pattern x)) →
  (∀ p, client_limited p req = false) →
  ∃ y, y ∈ router b ∧ pattern_of (pattern y) = pattern_of (pattern x) ∧ e_method y = e_method x ∧
    dispatch st (router b) client_limited req e = Handled (handler y) e.
Proof.
  intros Hx Hg Hm Hf Hc. unfold dispatch. rewrite Hf. unfold run_route. set (here := List.filter _ _).
  assert (x ∈ here) as Hxh.
  { apply list_elem_of_In, filter_In. split; [by apply list_elem_of_In|by apply bool_decide_eq_true_2]. }
  assert (∀ y, y ∈ here → y ∈ router b ∧ pattern_of (pattern y) = pattern_of (pattern x)) as Hh.
  { intros y Hy. apply list_elem_of_In, filter_In in Hy as [Hy Hp]. apply bool_decide_eq_true in Hp. by split; [apply list_elem_of_In|]. }
  destruct here as [|y rest] eqn:Eh; [by apply elem_of_nil in Hxh|]. rewrite Hc, andb_false_r.
  destruct (Hh y) as [Hy Hpy]; [by left|]. rewrite (uniform_guard (router b) y x), Hg by (done || apply router_uniform). cbn [admin_gate].
  destruct (List.find _ (y :: rest)) as [z|] eqn:Ez.
  - apply find_some in Ez as [Hz Hmz]. apply String.eqb_eq in Hmz. destruct (Hh z) as [Hz1 Hz2]; [by apply list_elem_of_In|].
    exists z. split_and!; [done|done|by rewrite Hm|done].
  - exfalso. apply list_elem_of_In in Hxh. pose proof (find_none _ _ Ez x Hxh) as H. cbn in H. by rewrite Hm, String.eqb_refl in H.
Qed.

(** Two routes of the table with one pattern and one method are the same. *)
Lemma assembles_unique l x y :
  assembles l = true → x ∈ l → y ∈ l → pattern_of (pattern x) = pattern_of (pattern y) → e_method x = e_method y → x = y.
Proof.
  induction l as [|z l IH]; [by intros _ ?%elem_of_nil|]. cbn. intros [Hc Ha]%andb_true_iff Hx Hy Hp Hm.
  apply negb_true_iff in Hc. assert (∀ w, w ∈ l → conflict z w = false) as Hn.
  { intros w Hw. apply not_true_is_false. intros E. assert (existsb (conflict z) l = true) as E'; [|by rewrite E' in Hc].
    apply existsb_exists. exists w. split; [by apply list_elem_of_In|done]. }
  assert (∀ w, w ∈ l → pattern_of (pattern z) = pattern_of (pattern w) → e_method z = e_method w → False) as Hno.
  { intros w Hw Ew Emw. specialize (Hn w Hw). unfold conflict in Hn. rewrite bool_decide_eq_true_2 in Hn by done.
    rewrite Emw, String.eqb_refl, orb_true_r in Hn. done. }
  apply elem_of_cons in Hx as [->|Hx], Hy as [->|Hy]; [done| | |by apply IH].
  - by destruct (Hno y Hy).
  - by destruct (Hno x Hx).
Qed.

(** The administration is open to everyone: with any of the configured keys, an
    administrator's or not, every route under /v1/admin but the management of
    keys is served. *)
Theorem any_key_administers req s x key
    (Hx : x ∈ router b) (Ha : starts_with "/v1/admin/" (pattern x) = true) (Hn : is_key_management (handler x) = false)
    (Hm : e_method x = effective_method (method req))
    (Hf : find_path (map (λ x, pattern_of (pattern x)) (router b)) (split_on "/" (path req)) = Some (pattern_of (pattern x)))
    (Hp : is_public_path (path req) = false)
    (Hk : extract_api_key_from_headers (headers req) = Some key) (Hsp : starts_with KEY_PREFIX key = false) (Hin : key ∈ api_keys st)
    (Ht : multi_tenant st = false) (Hip : ip_denied filters req = false)
    (Hl : ∀ e, key_limited req e = false) (Hc : ∀ p, client_limited p req = false) :
  ∃ e, (serve req s).1 = Ok (Handled (handler x) e) ∧ has_admin_scoped_key e = false.
Proof.
  assert (guard x = Open) as Hg.
  { pose proof (admin_guards b) as Hall. rewrite forallb_forall in Hall. specialize (Hall x (proj1 (list_elem_of_In _ _) Hx)).
    rewrite Hn in Hall. by destruct (guard x). }
  set (e := mkExt (Some (from_api_key hash_api_key key)) None None). exists e. split; [|done].
  assert ((auth_middleware pg hash_api_key st req s).1 = Ok (Pass e)) as Hauth.
  { unfold auth_middleware. rewrite Hp. unfold mbind, M_bind, lookup_scoped_key. rewrite Hk, Hsp.
    assert (env_result hash_api_key st (Some key) = Pass e) as He.
    { unfold env_result, auth_enabled. destruct (api_keys st) as [|k ks] eqn:Eks; [by apply elem_of_nil in Hin|]. rewrite orb_true_r.
      rewrite <- Eks in *. rewrite (key_matches_any_spec key (api_keys st)), (bool_decide_eq_true_2 (key ∈ api_keys st)) by done.
      rewrite orb_true_r. cbn [negb default]. by rewrite Ht. }
    destruct (has_pool st); cbn; by rewrite He. }
  unfold serve, mbind, M_bind. destruct (auth_middleware pg hash_api_key st req s) as [r s1]. cbn in Hauth. subst r. cbn.
  rewrite Hip, Hl. destruct (dispatch_open req e x Hx Hg Hm Hf Hc) as (y & Hy & Hpy & Hmy & Hd). rewrite Hd.
  by rewrite (assembles_unique (router b) y x (router_assembles b) Hy Hx Hpy Hmy).
Qed.

(** A key of the table needs the admin scope for them. *)
Theorem scoped_key_administers req s h e k
    (H : (serve req s).1 = Ok (Handled h e)) (Ha : starts_with "/v1/admin/" (path req) = true) (Hk : scoped_key e = Some k) :
  has_scope k Admin = true.
Proof.
  destruct (serve_handled req s h e H) as (Hauth & _). assert (is_public_path (path req) = false) as Hp.
  { apply not_true_is_false. intros E. unfold is_public_path, is_dashboard_path in E.
    repeat apply orb_true_iff in E as [E|E]; try (apply String.eqb_eq in E; by rewrite E in Ha);
    apply starts_with_spec in E as [r E]; apply starts_with_spec in Ha as [t Ha]; rewrite E in Ha; discriminate Ha. }
  destruct (auth_middleware_pass pg hash_api_key st req s e Hp Hauth) as [Hb|[Hb|[_ ->]]]; [| |done].
  - destruct Hb as (key & r & _ & _ & _ & _ & Hs & Hsk & _). rewrite Hk in Hsk. injection Hsk as ->.
    unfold required_scope in Hs. by rewrite Ha, orb_true_r in Hs.
  - destruct Hb as (key & _ & _ & Hsk & _). by rewrite Hk in Hsk.
Qed.

(** The handlers that are in the router that is never merged only. *)
Definition unreachable_handlers : list string :=
  List.filter (λ h, negb (mem h (map handler (router b)))) (map handler admin_routes).

Theorem unmerged_never_served req s h e (Hh : h ∈ unreachable_handlers) : (serve req s).1 ≠ Ok (Handled h e).
Proof.
  intros H. destruct (serve_handled req s h e H) as (_ & _ & _ & Hd). destruct (dispatch_handled req e h e Hd) as (x & Hx & <- & _).
  unfold unreachable_handlers in Hh. apply list_elem_of_In, filter_In in Hh as [_ Hh]. apply negb_true_iff in Hh.
  assert (mem (handler x) (map handler (router b)) = true) as E; [|congruence].
  unfold mem. apply existsb_exists. exists (handler x). split; [by apply in_map, list_elem_of_In|apply String.eqb_refl].
Qed.

(** A refusal by the authentication, the address filter or the limit per key has
    no security headers. *)
Lemma refused_without_headers req s n m :
  (auth_middleware pg hash_api_key st req s).1 = Ok (Deny n m) → (serve req s).1 = Ok (Refused n m false).
Proof. unfold serve, mbind, M_bind. by destruct (auth_middleware _ _ _ _ _) as [[[|]|] ?]; cbn; intros [= -> ->]. Qed.
End Served.

(** ** Addresses *)

(** The lists are exclusive: with a deny list the allow list is not looked at. *)
Lemma allowlist_ignored f l req : ip_denylist f ≠ [] → ip_denied f req = ip_denied (mkFilters (ip_denylist f) l) req.
Proof. unfold ip_denied, ip_rule. cbn. by destruct (ip_denylist f). Qed.

(** The address is what the client says it is, behind a proxy or not. *)
Example spoofed_address :
  let blocked := mkFilters ["203.0.113.0/24"]%string [] in
  ip_denied blocked (mkRequest "GET" "/v1/events" [("x-real-ip", "203.0.113.7")]%string) = true ∧
  ip_denied blocked (mkRequest "GET" "/v1/events" [("x-forwarded-for", "198.51.100.1"); ("x-real-ip", "203.0.113.7")]%string) = false ∧
  ip_denied blocked (mkRequest "GET" "/v1/events" []) = false.
Proof. by vm_compute. Qed.

(** ** Limits *)

(** The limiter can always be built: the branch without one is never taken. *)
Lemma governor_total mt t n : ∃ period size, governor mt t n = Some (period, size) ∧ 0 < period ∧ 0 < size.
Proof.
  unfold governor, finish. set (m := if mt then _ else _). unfold replenish_ms, burst.
  destruct (Z.ltb_spec 0 (Z.max 1 (60000 / Z.max 1 m))); [|lia]. destruct (Z.ltb_spec 0 (Z.max 1 m)); [|lia]. eauto.
Qed.

(** For a limit of up to 60000 a minute replenishes at least that many tokens and
    less than twice as many. *)
Theorem replenish_bounds n (Hn : 1 ≤ n ≤ 60000) : replenish_ms n * n ≤ 60000 < replenish_ms n * (2 * n).
Proof.
  unfold replenish_ms. rewrite (Z.max_r 1 n) by lia. pose proof (Z.div_mod 60000 n ltac:(lia)) as E.
  pose proof (Z.mod_pos_bound 60000 n ltac:(lia)). assert (1 ≤ 60000 / n) by (apply Z.div_le_lower_bound; lia).
  rewrite Z.max_r by lia. nia.
Qed.

(** A limit of zero, which is said to disable the limiter, allows one request a minute. *)
Example zero_limits_to_one : governor false None 0 = Some (60000, 1).
Proof. done. Qed.

(** ** Other middlewares *)

(** The order of the calls does not matter to a stack. *)
Lemma with_layer_comm a b s : with_layer a (with_layer b s) = with_layer b (with_layer a s).
Proof. by destruct s, a, b. Qed.

Definition layer_rank (l : Layer) : nat :=
  match l with SecurityHeaders => 0 | RequestId => 1 | Head => 2 | Tracing => 3 | Auth => 4 | AdminAuthLayer => 5 | Cache => 6 end.

Definition has_layer (k : Layer) (s : MiddlewareStack) : bool :=
  match k with
  | SecurityHeaders => with_security_headers s | RequestId => with_request_id s | Tracing => with_tracing s | Head => with_head s
  | Cache => with_cache s | Auth => auth_state s | AdminAuthLayer => admin_auth_state s
  end.

Lemma in_apply k s : bool_decide (k ∈ apply s) = has_layer k s.
Proof. by destruct s as [[] [] [] [] [] [] []], k. Qed.

Lemma has_with_layer k l s : has_layer k (with_layer l s) = bool_decide (k = l) || has_layer k s.
Proof. by destruct s, l, k. Qed.

(** A stack has the layers that were asked for, in any order, from the security
    headers to the cache. *)
Theorem stack_order ls :
  (∀ l, l ∈ apply (foldr with_layer new_stack ls) ↔ l ∈ ls) ∧
  StronglySorted (λ a b, (layer_rank a < layer_rank b)%nat) (apply (foldr with_layer new_stack ls)).
Proof.
  split.
  - intros k. transitivity (has_layer k (foldr with_layer new_stack ls) = true);
      [rewrite <- in_apply; symmetry; apply bool_decide_eq_true|]. induction ls as [|l ls IH]; cbn [foldr].
    + split; [by destruct k|by intros ?%elem_of_nil].
    + rewrite has_with_layer, orb_true_iff, bool_decide_eq_true, elem_of_cons, IH. done.
  - generalize (foldr with_layer new_stack ls) as s. intros s. destruct s as [[] [] [] [] [] [] []]; vm_compute; repeat constructor.
Qed.

(** The lookup of a transaction's related events, which change as events are
    added, is cacheable for an hour as immutable. *)
Example related_events_immutable : cache_control "/v1/events/tx/ab12/related" "" = Some "public, max-age=3600, immutable"%string.
Proof. by vm_compute. Qed.

(** ** Witnesses *)

Definition demo_filters : Filters := mkFilters [] [].
Definition single_tenant : AuthState := mkAuth ["legacy"%string] ["root"%string] ∅ false true false.
Definition no_limit {A B} (_ : A) (_ : B) : bool := false.
Definition anonymize : Endpoint := mkEndpoint "/v1/admin/events/{id}/anonymize" "POST" "handlers::anonymize_event" Open.
Definition anonymize_request : Request := mkRequest "POST" "/v1/admin/events/7/anonymize" [("X-Api-Key", "legacy")]%string.

Abbreviation demo_serve st := (serve (R := best_match) demo_env demo_hash st demo_filters (router false) no_limit no_limit).

Lemma served_is_authorised_witness :
  let req := mkRequest "GET" "/v1/admin/api-keys" [("X-Api-Key", "root")]%string in
  let e := mkExt (Some (from_api_key demo_hash "root")) None None in
  (demo_serve single_tenant req (mkSt [] 0 [])).1 = Ok (Handled "api_keys::list_api_keys" e) ∧ is_admin_credential single_tenant req e.
Proof.
  intros req e. assert ((demo_serve single_tenant req (mkSt [] 0 [])).1 = Ok (Handled "api_keys::list_api_keys" e)) as H by by vm_compute.
  split; [done|].
  by apply (served_is_authorised (R := best_match) demo_env demo_hash single_tenant demo_filters no_limit no_limit false req (mkSt [] 0 [])
    "api_keys::list_api_keys" e H).
Defined.

(** With the key of a client: the stored data of an event is erased. *)
Lemma any_key_administers_witness :
  ∃ e, (demo_serve single_tenant anonymize_request (mkSt [] 0 [])).1 = Ok (Handled "handlers::anonymize_event" e) ∧
    has_admin_scoped_key e = false.
Proof.
  apply (any_key_administers (R := best_match) demo_env demo_hash single_tenant demo_filters no_limit no_limit false anonymize_request
    (mkSt [] 0 []) anonymize "legacy"); try by vm_compute.
  - apply (bool_decide_unpack _). by vm_compute.
  - by left.
Defined.

(** Without configured API keys nothing needs a key, although there is one for
    administrators. *)
Example open_without_keys :
  (demo_serve (mkAuth [] ["root"%string] ∅ false true false) (mkRequest "DELETE" "/v1/admin/events/contract/C1" []) (mkSt [] 0 [])).1 =
    Ok (Handled "handlers::delete_contract_events" (mkExt (Some "anonymous"%string) None None)).
Proof. by vm_compute. Qed.

(** The pixel and the links of e-mails need a key. *)
Example tracking_needs_key :
  (demo_serve single_tenant (mkRequest "GET" "/v1/notifications/email/track/t1" []) (mkSt [] 0 [])).1 = Ok (Refused 401 "unauthorized" false).
Proof. by vm_compute. Qed.

Lemma scoped_key_administers_witness :
  let k := mkScoped 0 "ops" [Admin] None in
  has_scope k Admin = true.
Proof.
  pose (rows := [mkRow 0 "ops" zeros64 ["admin"%string] None 0 None None]).
  pose (req := mkRequest "POST" "/v1/admin/replay" [("X-Api-Key", "sp_2z")]%string).
  pose (e := mkExt (Some "key:0000000000000000"%string) None (Some (mkScoped 0 "ops" [Admin] None))).
  apply (scoped_key_administers (R := best_match) demo_env demo_hash single_tenant demo_filters no_limit no_limit false req (mkSt rows 0 [])
    "handlers::replay_events" e); by vm_compute.
Defined.

Lemma unmerged_never_served_witness :
  (demo_serve single_tenant (mkRequest "POST" "/v1/admin/lua/preview" [("X-Api-Key", "root")]%string) (mkSt [] 0 [])).1 ≠
    Ok (Handled "handlers::lua_preview" (mkExt None None None)).
Proof.
  apply (unmerged_never_served (R := best_match) demo_env demo_hash single_tenant demo_filters no_limit no_limit false).
  apply (bool_decide_unpack _). by vm_compute.
Defined.

Example unreachable_count : length (unreachable_handlers true) = 34%nat.
Proof. by vm_compute. Qed.

Lemma replenish_bounds_witness : replenish_ms 50000 * 50000 ≤ 60000.
Proof. apply (replenish_bounds 50000). lia. Defined.

End Routes.
