(* ===== verification/Encryption.v ===== *)
(** Encryption at rest: the envelopes of encryption.rs, the credentials of
    integrations (integration_secrets.rs), and the jobs that rotate keys
    (reencrypt.rs).

    AES-256-GCM, base64 and the JSON text of a value are an interface with its
    laws; that a ciphertext does not open with another key is one of them.

    Whether the crate is built with the feature [encryption] is a parameter:
    Cargo.toml does not declare the feature, so that the builds it describes
    have the functions of the other case, which return what they are given. *)

From S2P Require Import Prelude F64 Text Model Pg.

Module Encryption.

(** ** The crates *)

Class Codec (Key : Type) : Type := {
  aead_seal : Key → string → string → string;            (* key, nonce, plaintext *)
  aead_open : Key → string → string → option string;     (* key, nonce, ciphertext *)
  b64_encode : string → string;
  b64_decode : string → result string string;
  to_vec : Value → string;
  from_slice : string → result Value string;
  utf8 : string → bool;
}.

(** The values that JSON texts carry: the law of the printer is for these. *)
Class CodecLaws {Key} (C : Codec Key) (printable : Value → Prop) : Prop := {
  open_seal k n p : aead_open k n (aead_seal k n p) = Some p;
  open_other k k' n p : k ≠ k' → aead_open k' n (aead_seal k n p) = None;
  b64_round s : b64_decode (b64_encode s) = Ok s;
  json_round v : printable v → from_slice (to_vec v) = Ok v;
}.

(** A fallible map over a list that counts. *)
Section MapSt.
Context {A B E : Type} (f : A → nat → result B E * nat).

Fixpoint map_st (l : list A) (n : nat) : result (list B) E * nat :=
  match l with
  | [] => (Ok [], n)
  | x :: rest =>
      match f x n with
      | (Err e, n) => (Err e, n)
      | (Ok y, n) => let '(r, n) := map_st rest n in (let? r := r in Ok (y :: r), n)
      end
  end.
End MapSt.

Section Crypto.
Context {Key : Type} `{C : Codec Key}.

Definition NONCE_LEN : nat := 12.

(** ** The key store *)

Record KeyStore : Type := mkStore { current_version : Z; keys : gmap Z Key }.

Definition new_store (k : Key) : KeyStore := mkStore 1 {[1 := k]}.
Definition rotate (k : Key) (s : KeyStore) : KeyStore * Z :=
  let v := current_version s + 1 in (mkStore v (<[v := k]> (keys s)), v).
Definition get_key (v : Z) (s : KeyStore) : option Key := keys s !! v.
Definition get_current_key (s : KeyStore) : option Key := keys s !! current_version s.

(** The global store: without [init_key_store] it begins with a key of zeros. *)
Definition rotate_encryption_key (zeros : Key) (k : Key) (global : option KeyStore) : KeyStore * Z :=
  rotate k (default (new_store zeros) global).

(** ** Envelopes *)

Definition envelope (key : Key) (version : Z) (nonce plaintext : string) : Value :=
  Object [("data", VString (b64_encode (aead_seal key nonce plaintext))); ("encrypted", Bool true);
          ("key_version", Number (PosInt version)); ("nonce", VString (b64_encode nonce))]%string.

(** [inner::encrypt]. *)
Definition inner_encrypt (key : Key) (version : Z) (nonce : string) (plaintext : Value) : Value :=
  envelope key version nonce (to_vec plaintext).

Definition try_decrypt_with_key (key : Key) (nonce ciphertext : string) : result string string :=
  match aead_open key nonce ciphertext with Some p => Ok p | None => Err "aead::Error"%string end.

Definition is_envelope (v : Value) : bool := match value_get v "encrypted" with Some (Bool true) => true | _ => false end.

Definition missing (k : string) : string := "missing '" +:+ k +:+ "' field in encrypted envelope".

Definition field (v : Value) (k : string) : result string string :=
  match value_get v k ≫= as_str with Some s => Ok s | None => Err (missing k) end.

(** The plaintext of an envelope, with the key or else the old one. *)
Definition open_envelope (key : Key) (old_key : option Key) (v : Value) : result string string :=
  let? data := field v "data" in
  let? nonce := field v "nonce" in
  let? ciphertext := b64_decode data in
  let? nonce := b64_decode nonce in
  if negb (Nat.eqb (String.length nonce) NONCE_LEN)
  then Err ("invalid nonce length: " +:+ show_u (Z.of_nat (String.length nonce)))%string else
  match try_decrypt_with_key key nonce ciphertext with
  | Ok p => Ok p
  | Err e => match old_key with Some k => try_decrypt_with_key k nonce ciphertext | None => Err e end
  end.

(** [inner::decrypt]. *)
Definition inner_decrypt (key : Key) (old_key : option Key) (value : Value) : result Value string :=
  if is_envelope value then let? p := open_envelope key old_key value in from_slice p else Ok value.

(** The feature [encryption]: without it both are stubs. *)
Variable feature : bool.

Definition encrypt (key : Key) (version : Z) (nonce : string) (plaintext : Value) : Value :=
  if feature then inner_encrypt key version nonce plaintext else plaintext.

Definition decrypt (key : Key) (old_key : option Key) (value : Value) : result Value string :=
  if feature then inner_decrypt key old_key value else Ok value.

(** ** Secrets in text columns *)

Definition PREFIX : string := "enc:v1:".

Definition is_encrypted (stored : string) : bool := starts_with PREFIX stored.

Definition encrypt_secret (key : Key) (version : Z) (nonce plaintext : string) : string :=
  PREFIX +:+ b64_encode (to_vec (envelope key version nonce plaintext)).

Definition decrypt_secret (key : Key) (old_key : option Key) (stored : string) : result string string :=
  match strip_prefix PREFIX stored with
  | None => Ok stored
  | Some encoded =>
      let? bytes := b64_decode encoded in
      let? v := from_slice bytes in
      if negb (is_envelope v) then Err "not an encrypted envelope"%string else
      let? p := open_envelope key old_key v in
      if utf8 p then Ok p else Err "invalid utf-8"%string
  end.

(** [chars().collect()] of a UTF-8 text. *)
Definition begins_char (a : ascii) : bool := let n := nat_of_ascii a in (n <? 128)%nat || (192 <=? n)%nat.

Fixpoint chars (s : string) : list string :=
  match s with
  | EmptyString => []
  | String a r =>
      match chars r with
      | c :: rest => if match c with String b _ => begins_char b | _ => true end then String a "" :: c :: rest else String a c :: rest
      | [] => [String a ""]
      end
  end.

Definition mask_secret (plaintext : string) : string :=
  let cs := chars plaintext in
  if (length cs <=? 8)%nat then "****"%string else "****" +:+ join "" (drop (length cs - 4) cs).

(** [PartialEq] of serde_json's values. *)
Definition number_eqb (x y : number) : bool :=
  match x, y with
  | PosInt n, PosInt m | NegInt n, NegInt m => n =? m
  | Float f, Float g => F64.eqb f g
  | _, _ => false
  end.

Fixpoint value_eq (x y : Value) : bool :=
  match x, y with
  | Null, Null => true
  | Bool a, Bool b => Bool.eqb a b
  | Number n, Number m => number_eqb n m
  | VString s, VString t => String.eqb s t
  | Array l, Array m =>
      (fix go l m := match l, m with [], [] => true | x :: l, y :: m => value_eq x y && go l m | _, _ => false end) l m
  | Object l, Object m =>
      (fix go (l m : list (string * Value)) :=
         match l, m with
         | [], [] => true
         | (j, x) :: l, (k, y) :: m => String.eqb j k && value_eq x y && go l m
         | _, _ => false
         end) l m
  | _, _ => false
  end.

(** ** Integration credentials *)

Inductive SecretError : Type := NotConfigured | Crypto (e : string).

Record Keys : Type := mkKeys { current : Key; old : option Key; version : Z }.

Definition init_keys (current old : option Key) : option Keys :=
  (λ c, mkKeys c old (match old with Some _ => 2 | None => 1 end)) <$> current.

Definition is_configured (ks : option Keys) : bool := match ks with Some _ => true | None => false end.
Definition rotation_configured (ks : option Keys) : bool := match ks with Some k => match old k with Some _ => true | None => false end | None => false end.

(** The nonces are drawn one after the other. *)
Variable nonce : nat → string.
Variable ks : option Keys.

Definition seal (n : nat) (plaintext : string) : result string SecretError :=
  match ks with Some k => Ok (encrypt_secret (current k) (version k) (nonce n) plaintext) | None => Err NotConfigured end.

Definition seal_opt (n : nat) (o : option string) : result (option string) SecretError :=
  match o with Some s => let? x := seal n s in Ok (Some x) | None => Ok None end.

Definition open (stored : string) : result string SecretError :=
  if negb (is_encrypted stored) then Ok stored else
  match ks with
  | None => Err NotConfigured
  | Some k => result_map_err Crypto (decrypt_secret (current k) (old k) stored)
  end.

Definition mask_stored (stored : string) : string := match open stored with Ok p => mask_secret p | Err _ => "****"%string end.
Definition mask_stored_opt (o : option string) : option string := mask_stored <$> o.

Definition SENSITIVE_CONFIG_KEYS : list string :=
  ["access_token"; "api_key"; "api_secret"; "auth_token"; "bot_token"; "client_secret"; "password"; "routing_key"; "secret";
   "signing_secret"; "token"; "webhook_url"]%string.

Definition is_sensitive_key (k : string) : bool := existsb (String.eqb (to_lowercase k)) SENSITIVE_CONFIG_KEYS.

(** [f] with the number of strings it has been called on; the entries are the
    object's, in the order of its keys. *)
Fixpoint map_sensitive (f : nat → string → result string SecretError) (v : Value) (n : nat) : result Value SecretError * nat :=
  match v with
  | Object m =>
      let '(r, n) := map_st (λ kx n,
         let '(y, n) := match kx.2 with
                        | VString s => if is_sensitive_key kx.1 then (let? t := f n s in Ok (VString t), S n) else (Ok (VString s), n)
                        | _ => map_sensitive f kx.2 n
                        end in
         (let? y := y in Ok (kx.1, y), n)) m n in
      (let? m := r in Ok (Object m), n)
  | Array l => let '(r, n) := map_st (map_sensitive f) l n in (let? l := r in Ok (Array l), n)
  | other => (Ok other, n)
  end.

Definition seal_config (n : nat) (config : Value) : result Value SecretError :=
  (map_sensitive (λ n s, if is_encrypted s then Ok s else seal n s) config n).1.
Definition open_config (config : Value) : result Value SecretError := (map_sensitive (λ _, open) config 0%nat).1.
Definition mask_config (config : Value) : Value :=
  match (map_sensitive (λ _ s, Ok (mask_stored s)) config 0%nat).1 with Ok v => v | Err _ => Null end.

Definition reseal (n : nat) (stored : string) : result string SecretError := let? p := open stored in seal n p.

(** ** Rotation of the key of the credentials (reencrypt.rs) *)

Record Credential : Type := mkCredential { c_id : Z; encrypted_data : option Value }.

Record RotationCheckpoint : Type := mkCheckpoint {
  last_processed_id : option Z;
  total_rows : Z;
  completed_rows : Z;
  finished : bool;
}.

Record Db : Type := mkDb { credentials : list Credential; checkpoint : option RotationCheckpoint }.

Variable pg : PgEnv.
(** The version of the global key store, which the envelopes are tagged with. *)
Variable key_version : Z.

Local Abbreviation M := (Pg.M Db Empty_set string).

Definition ROTATION_BATCH_SIZE : nat := 100.

Definition after {A} (id : A → Z) (last : option Z) (x : A) : bool := match last with Some l => l <? id x | None => true end.

Definition with_data (c : Credential) : bool := match encrypted_data c with Some _ => true | None => false end.

(** The next batch of ids after the checkpoint. *)
Definition next_ids (last : option Z) (d : Db) : list Z :=
  take ROTATION_BATCH_SIZE (sort_by Z.compare (map c_id (List.filter (λ c, with_data c && after c_id last c) (credentials d)))).

Definition set_data (id : Z) (v : Value) (d : Db) : Db :=
  mkDb (map (λ c, if c_id c =? id then mkCredential id (Some v) else c) (credentials d)) (checkpoint d).

Definition save_checkpoint (cp : RotationCheckpoint) : M () := execute pg (λ _ d, mkDb (credentials d) (Some cp)).

(** [SELECT encrypted_data .. FOR UPDATE] with [fetch_one]. *)
Definition select_data (id : Z) : M (option Value) :=
  stmt pg (λ _ d, match List.find (λ c, c_id c =? id) (credentials d) with
                  | Some c => Ok (encrypted_data c, d)
                  | None => Err "no rows returned by a query that expected to return at least one row"%string
                  end).

Definition decrypt_either (old_key new_key : Key) (v : Value) : result Value string :=
  match decrypt old_key None v with
  | Ok x => Ok x
  | Err e => match decrypt new_key None v with Ok x => Ok x | Err _ => Err e end
  end.

Definition failed_credential (id : Z) (e : string) : string :=
  "failed to decrypt credential " +:+ show_i id +:+ " with old key: " +:+ e.

Definition rotate_one (old_key new_key : Key) (id : Z) : M Z :=
  data ← select_data id;
  match data with
  | None => mret 0
  | Some v =>
      match decrypt_either old_key new_key v with
      | Err e => throw (failed_credential id e)
      | Ok plain => n ← counter; execute pg (λ _, set_data id (encrypt new_key key_version (nonce n) plain)) ;; mret 1
      end
  end.

Fixpoint rotate_ids (old_key new_key : Key) (ids : list Z) (batch_rotated : Z) : M Z :=
  match ids with
  | [] => mret batch_rotated
  | id :: rest => n ← rotate_one old_key new_key id; rotate_ids old_key new_key rest (batch_rotated + n)
  end.

Definition last_of (ids : list Z) : option Z := last ids.

(** The rows of a batch and its checkpoint, together. *)
Definition rotate_batch (old_key new_key : Key) (ids : list Z) (total completed : Z) : M Z :=
  transaction pg (
    n ← rotate_ids old_key new_key ids 0;
    save_checkpoint (mkCheckpoint (last_of ids) total (completed + n) (total <=? completed + n)) ;;
    mret n).

Definition finish_rotation (last_id : option Z) (total completed : Z) : M () :=
  transaction pg (save_checkpoint (mkCheckpoint last_id total completed true)).

(** The batches; [None]: out of fuel. *)
Fixpoint rotate_loop (fuel : nat) (old_key new_key : Key) (last_id : option Z) (total completed rotated : Z) : M (option Z) :=
  match fuel with
  | O => mret None
  | S fuel =>
      ids ← query pg (λ _, next_ids last_id);
      match ids with
      | [] => finish_rotation last_id total completed ;; mret (Some rotated)
      | _ =>
          n ← rotate_batch old_key new_key ids total completed;
          rotate_loop fuel old_key new_key (last_of ids) total (completed + n) (rotated + n)
      end
  end.

Definition count_credentials (d : Db) : Z := Z.of_nat (length (List.filter with_data (credentials d))).

(** [rotate_credentials_inner]; the table of checkpoints is made if it is not there. *)
Definition rotate_credentials (fuel : nat) (old_key new_key : Key) : M (option Z) :=
  execute pg (λ _ d, d) ;;
  execute pg (λ _ d, d) ;;
  cp ← query pg (λ _, checkpoint);
  match cp with
  | Some (mkCheckpoint last total completed false) => rotate_loop fuel old_key new_key last total completed 0
  | _ =>
      total ← query pg (λ _, count_credentials);
      rotate_loop fuel old_key new_key None total 0 0
  end.

Definition verify_old_key_rejected (old_key : Key) : M bool :=
  rows ← query pg (λ _ d, omap encrypted_data (credentials d));
  mret (forallb (λ v, negb (is_ok (decrypt old_key None v))) rows).

(** ** Re-encryption of the events *)

Inductive JobEvent : Type := Remaining (n : Z) | ReencryptError.

Local Abbreviation J := (Pg.M (list (Z * Value)) JobEvent string).

(** [event_data->>'encrypted' = 'true']. *)
Definition marked (v : Value) : bool :=
  match value_get v "encrypted" with Some (Bool true) => true | Some (VString s) => String.eqb s "true" | _ => false end.

Definition encrypted_events (rows : list (Z * Value)) : list (Z * Value) := List.filter (λ r, marked r.2) rows.

Definition event_page (limit offset : nat) (rows : list (Z * Value)) : list (Z * Value) :=
  take limit (drop offset (sort_by (cmp_on fst Z.compare) (encrypted_events rows))).

Definition set_event (id : Z) (v : Value) (rows : list (Z * Value)) : list (Z * Value) :=
  map (λ r, if r.1 =? id then (id, v) else r) rows.

(** One event: its failures are counted and passed over. *)
Definition reencrypt_event (new_key old_key : Key) (r : Z * Value) : J Z :=
  match decrypt new_key (Some old_key) r.2 with
  | Err _ => call (λ _, ()) (λ _, ReencryptError) ;; mret 0
  | Ok p =>
      n ← counter;
      u ← attempt (execute pg (λ _, set_event r.1 (encrypt new_key key_version (nonce n) p)) : J ());
      match u with Ok _ => mret 1 | Err _ => call (λ _, ()) (λ _, ReencryptError) ;; mret 0 end
  end.

Fixpoint reencrypt_events (new_key old_key : Key) (rows : list (Z * Value)) (reencrypted : Z) : J Z :=
  match rows with
  | [] => mret reencrypted
  | r :: rest => n ← reencrypt_event new_key old_key r; reencrypt_events new_key old_key rest (reencrypted + n)
  end.

(** [total as usize - offset], which wraps in a release build. *)
Definition remaining (total : Z) (offset : nat) : Z := wrap_u 64 (total - Z.of_nat offset).

Fixpoint reencrypt_loop (fuel : nat) (new_key old_key : Key) (batch_size offset : nat) (total reencrypted : Z) : J (option Z) :=
  match fuel with
  | O => mret None
  | S fuel =>
      rows ← query pg (λ _, event_page batch_size offset);
      match rows with
      | [] => mret (Some reencrypted)
      | _ =>
          n ← reencrypt_events new_key old_key rows reencrypted;
          let offset := (offset + batch_size)%nat in
          call (λ _, ()) (λ _, Remaining (remaining total offset)) ;;
          reencrypt_loop fuel new_key old_key batch_size offset total n
      end
  end.

Definition run_reencrypt_job (fuel : nat) (new_key old_key : Key) (batch_size : nat) : J (option Z) :=
  total ← query pg (λ _ rows, Z.of_nat (length (encrypted_events rows)));
  call (λ _, ()) (λ _, Remaining total) ;;
  reencrypt_loop fuel new_key old_key batch_size 0 total 0.

Definition has_old_key_rows : J bool := query pg (λ _ rows, negb (Nat.eqb (length (encrypted_events rows)) 0)).

(** ** Backfill and re-encryption of the integration credentials *)

(** The columns of [CREDENTIAL_COLUMNS], in its order, and the channels. *)
Record Secrets : Type := mkSecrets { columns : list (list (Z * option string)); configs : list (Z * Value) }.

Definition CREDENTIAL_COLUMNS : list (string * string) :=
  [("github_integrations", "access_token"); ("discord_integrations", "webhook_url"); ("slack_integrations", "webhook_url");
   ("slack_integrations", "bot_token"); ("slack_integrations", "signing_secret"); ("telegram_integrations", "bot_token");
   ("pagerduty_integrations", "routing_key"); ("pagerduty_integrations", "api_key")]%string.

Local Abbreviation S_ := (Pg.M Secrets JobEvent string).

Definition secret_page (only_plaintext : bool) (last : Z) (limit : nat) (col : list (Z * option string)) : list (Z * string) :=
  take limit (sort_by (cmp_on fst Z.compare)
    (omap (λ r : Z * option string, match r.2 with
             | Some s => if negb (only_plaintext && is_encrypted s) && (last <? r.1) then Some (r.1, s) else None
             | None => None
             end) col)).

Definition set_cell (id : Z) (v : string) (col : list (Z * option string)) : list (Z * option string) :=
  map (λ r, if r.1 =? id then (id, Some v) else r) col.

Definition set_column (i : nat) (id : Z) (v : string) (d : Secrets) : Secrets := mkSecrets (alter (set_cell id v) i (columns d)) (configs d).

Fixpoint reseal_rows (i : nat) (rows : list (Z * string)) (rewritten : Z) : S_ Z :=
  match rows with
  | [] => mret rewritten
  | (id, stored) :: rest =>
      n ← counter;
      match reseal n stored with
      | Ok sealed => execute pg (λ _, set_column i id sealed) ;; reseal_rows i rest (rewritten + 1)
      | Err _ => call (λ _, ()) (λ _, ReencryptError) ;; reseal_rows i rest rewritten
      end
  end.

Fixpoint rewrite_column (fuel : nat) (batch_size : nat) (only_plaintext : bool) (i : nat) (last_id rewritten : Z) : S_ (option Z) :=
  match fuel with
  | O => mret None
  | S fuel =>
      rows ← query pg (λ _ d, secret_page only_plaintext last_id batch_size (default [] (columns d !! i)));
      match last rows with
      | None => mret (Some rewritten)
      | Some (id, _) => n ← reseal_rows i rows rewritten; rewrite_column fuel batch_size only_plaintext i id n
      end
  end.

Fixpoint rewrite_columns (fuel batch_size : nat) (only_plaintext : bool) (cols : list nat) (rewritten : Z) : S_ (option Z) :=
  match cols with
  | [] => mret (Some rewritten)
  | i :: rest =>
      n ← rewrite_column fuel batch_size only_plaintext i 0 rewritten;
      match n with Some n => rewrite_columns fuel batch_size only_plaintext rest n | None => mret None end
  end.

Definition config_page (last : Z) (limit : nat) (rows : list (Z * Value)) : list (Z * Value) :=
  take limit (sort_by (cmp_on fst Z.compare) (List.filter (λ r, last <? r.1) rows)).

Fixpoint reseal_configs (only_plaintext : bool) (rows : list (Z * Value)) (rewritten : Z) : S_ Z :=
  match rows with
  | [] => mret rewritten
  | (id, config) :: rest =>
      n ← counter;
      match (if only_plaintext then seal_config n config else (map_sensitive reseal config n).1) with
      | Ok sealed =>
          if value_eq sealed config then reseal_configs only_plaintext rest rewritten else
          execute pg (λ _ d, mkSecrets (columns d) (set_event id sealed (configs d))) ;; reseal_configs only_plaintext rest (rewritten + 1)
      | Err _ => call (λ _, ()) (λ _, ReencryptError) ;; reseal_configs only_plaintext rest rewritten
      end
  end.

Fixpoint rewrite_configs (fuel batch_size : nat) (only_plaintext : bool) (last_id rewritten : Z) : S_ (option Z) :=
  match fuel with
  | O => mret None
  | S fuel =>
      rows ← query pg (λ _ d, config_page last_id batch_size (configs d));
      match last rows with
      | None => mret (Some rewritten)
      | Some (id, _) => n ← reseal_configs only_plaintext rows rewritten; rewrite_configs fuel batch_size only_plaintext id n
      end
  end.

Definition NOT_CONFIGURED : string := "INTEGRATION_ENCRYPTION_KEY is not configured; refusing to store credentials in plaintext".

Definition rewrite_all (fuel batch_size : nat) (only_plaintext : bool) : S_ (option Z) :=
  if negb (is_configured ks) then throw NOT_CONFIGURED else
  n ← rewrite_columns fuel batch_size only_plaintext (seq 0 (length CREDENTIAL_COLUMNS)) 0;
  match n with Some n => rewrite_configs fuel batch_size only_plaintext 0 n | None => mret None end.

Definition backfill_plaintext (fuel : nat) : S_ (option Z) :=
  if negb (is_configured ks) then mret (Some 0) else rewrite_all fuel 500 true.

End Crypto.

(** ** Envelopes *)

Section EnvelopeFacts.
Context {Key : Type} `{!EqDecision Key} `{C : Codec Key} {printable : Value → Prop} `{L : !CodecLaws C printable}.

Lemma open_envelope_spec k o k0 ver n p :
  String.length n = NONCE_LEN →
  open_envelope k o (envelope k0 ver n p) =
    match try_decrypt_with_key k n (aead_seal k0 n p) with
    | Ok x => Ok x
    | Err e => match o with Some k => try_decrypt_with_key k n (aead_seal k0 n p) | None => Err e end
    end.
Proof.
  intros Hn. unfold open_envelope, envelope, field, value_get. cbn [List.find fst snd String.eqb Ascii.eqb Bool.eqb option_map option_bind mbind as_str result_bind].
  cbn. rewrite b64_round. cbn. rewrite b64_round. cbn. by rewrite Hn.
Qed.

Lemma try_same k n p : try_decrypt_with_key k n (aead_seal k n p) = Ok p.
Proof. unfold try_decrypt_with_key. by rewrite open_seal. Qed.

Lemma try_other k k0 n p : k0 ≠ k → try_decrypt_with_key k n (aead_seal k0 n p) = Err "aead::Error"%string.
Proof. intros H. unfold try_decrypt_with_key. by rewrite open_other. Qed.

(** A value sealed under a key. *)
Definition sealed (k : Key) (v : Value) (e : Value) : Prop :=
  ∃ ver n, String.length n = NONCE_LEN ∧ printable v ∧ e = inner_encrypt k ver n v.

(** A credential that is [v], under the key or not encrypted yet. *)
Definition plain (v : Value) (e : Value) : Prop := is_envelope e = false ∧ printable v ∧ e = v.

Lemma decrypt_plain k o v e : plain v e → inner_decrypt k o e = Ok v.
Proof. intros (H & _ & ->). unfold inner_decrypt. by rewrite H. Qed.

Lemma decrypt_sealed k o v e : sealed k v e → inner_decrypt k o e = Ok v.
Proof.
  intros (ver & n & Hn & Hv & ->). unfold inner_decrypt, inner_encrypt. change (is_envelope (envelope _ _ _ _)) with true. cbn iota.
  rewrite open_envelope_spec, try_same by done. cbn. by apply json_round.
Qed.

Lemma decrypt_old_sealed k k0 v e : sealed k0 v e → inner_decrypt k (Some k0) e = Ok v.
Proof.
  destruct (decide (k0 = k)) as [->|Hne]; [apply decrypt_sealed|]. intros (ver & n & Hn & Hv & ->).
  unfold inner_decrypt, inner_encrypt. change (is_envelope (envelope _ _ _ _)) with true. cbn iota.
  rewrite open_envelope_spec, try_other, try_same by done. cbn. by apply json_round.
Qed.

Lemma decrypt_other k k0 v e : k0 ≠ k → sealed k0 v e → is_ok (inner_decrypt k None e) = false.
Proof.
  intros Hne (ver & n & Hn & Hv & ->). unfold inner_decrypt, inner_encrypt. change (is_envelope (envelope _ _ _ _)) with true. cbn iota.
  by rewrite open_envelope_spec, try_other by done.
Qed.

(** What a rotation from [old] to [new] may find for [v], and what it leaves. *)
Definition held (feature : bool) (old new : Key) (v e : Value) : Prop :=
  if feature then plain v e ∨ sealed old v e ∨ sealed new v e else e = v.

Definition rewritten (feature : bool) (new : Key) (v e : Value) : Prop := if feature then sealed new v e else e = v.

Lemma rewritten_held feature old new v e : rewritten feature new v e → held feature old new v e.
Proof. destruct feature; [|done]. by right; right. Qed.

Lemma held_rewritten feature old new ver n v e :
  String.length n = NONCE_LEN → held feature old new v e → rewritten feature new v (encrypt feature new ver n v).
Proof.
  destruct feature; [|done]. intros Hn H. exists ver, n. split; [done|]. split; [|done].
  by destruct H as [(_ & ? & _)|[(? & ? & _ & ? & _)|(? & ? & _ & ? & _)]].
Qed.

Lemma decrypt_either_held feature old new v e :
  old ≠ new → held feature old new v e → decrypt_either feature old new e = Ok v.
Proof.
  intros Hne. destruct feature; [|by intros ->]. unfold decrypt_either, decrypt.
  intros [H|[H|H]]; [by rewrite (decrypt_plain old None v e H)|by rewrite (decrypt_sealed old None v e H)|].
  pose proof (decrypt_other old new v e (not_eq_sym Hne) H) as E. destruct (inner_decrypt old None e); [done|].
  by rewrite (decrypt_sealed new None v e H).
Qed.

Lemma decrypt_held feature old new v e : held feature old new v e → decrypt feature new (Some old) e = Ok v.
Proof.
  destruct feature; [|by intros ->].
  intros [H|[H|H]]; [by apply decrypt_plain|by apply decrypt_old_sealed|by apply decrypt_sealed].
Qed.

(** A rotation keeps the older versions. *)
Lemma rotate_keeps v k (s : KeyStore (Key := Key)) : v ≤ current_version s → get_key v (rotate k s).1 = get_key v s.
Proof. intros H. unfold get_key, rotate. cbn. by rewrite lookup_insert_ne by lia. Qed.

Lemma rotate_current (k : Key) (s : KeyStore) : get_current_key (rotate k s).1 = Some k.
Proof. unfold get_current_key, rotate. cbn. by rewrite lookup_insert_eq. Qed.
End EnvelopeFacts.

(** ** Batches by id *)

(** What a batch leaves out lies after its last element. *)
Lemma take_sorted_covers (l : list Z) n z x :
  StronglySorted (cmp_le Z.compare) l → NoDup l → last (take n l) = Some z → x ∈ l → x ≤ z → x ∈ take n l.
Proof.
  intros Hs Hn Hz Hx Hle. rewrite <- (take_drop n l) in Hx. apply elem_of_app in Hx as [Hx|Hx]; [done|].
  exfalso. apply last_Some_elem_of in Hz. rewrite <- (take_drop n l) in Hs, Hn. apply StronglySorted_app in Hs as (Hyx & _ & _).
  specialize (Hyx z x Hz Hx). unfold cmp_le, cmp_leb in Hyx.
  assert (x = z) as -> by (destruct (Z.compare_spec z x); try lia; done).
  apply NoDup_app in Hn as (_ & Hd & _). by apply (Hd z).
Qed.

Lemma filter_le {A} (p q : A → bool) l : (∀ y, p y = true → q y = true) → (length (List.filter p l) ≤ length (List.filter q l))%nat.
Proof.
  intros H. induction l as [|y l IH]; [done|]. cbn. destruct (p y) eqn:Ep; [rewrite (H y Ep); cbn; lia|]. destruct (q y); cbn; lia.
Qed.

Lemma filter_shrinks {A} (p q : A → bool) l x :
  (∀ y, p y = true → q y = true) → x ∈ l → q x = true → p x = false → (length (List.filter p l) < length (List.filter q l))%nat.
Proof.
  intros H Hx Hq Hp. apply list_elem_of_split in Hx as (l1 & l2 & ->). rewrite !List.filter_app, !length_app. cbn. rewrite Hq, Hp. cbn.
  pose proof (filter_le p q l1 H). pose proof (filter_le p q l2 H). lia.
Qed.

(** ** The rotation *)

Section Rotation.
Context {Key : Type} `{!EqDecision Key} `{C : Codec Key} {printable : Value → Prop} `{L : !CodecLaws C printable}.
Context (feature : bool) (nonce : nat → string) (pg : PgEnv) (key_version : Z) (old new : Key).
Context (nonce_len : ∀ n, String.length (nonce n) = NONCE_LEN) (keys_differ : old ≠ new).
(** What the credentials are. *)
Context (content : Z → option Value).

Local Abbreviation M := (Pg.M Db Empty_set string).
Local Abbreviation rotate_one := (rotate_one feature nonce pg key_version old new).
Local Abbreviation rotate_ids := (rotate_ids feature nonce pg key_version old new).
Local Abbreviation rotate_loop fuel := (rotate_loop feature nonce pg key_version fuel old new).

(** Every credential is sealed under one of the keys or not encrypted yet;
    without the feature it is the value itself. *)
Definition readable (d : Db) : Prop :=
  NoDup (map c_id (credentials d)) ∧
  ∀ c, c ∈ credentials d →
    match encrypted_data c with
    | None => content (c_id c) = None
    | Some e => ∃ v, content (c_id c) = Some v ∧
                  held (printable := printable) feature old new v e
    end.

(** A credential that is done. *)
Definition done_one (c : Credential) : Prop := ∀ e, encrypted_data c = Some e → ∃ v, content (c_id c) = Some v ∧ rewritten (printable := printable) feature new v e.

Definition done_id (d : Db) (id : Z) : Prop := ∀ c, c ∈ credentials d → c_id c = id → done_one c.

(** Everything up to the last id of a batch. *)
Definition done_to (last : option Z) (d : Db) : Prop := ∀ l id, last = Some l → id ≤ l → done_id d id.

Definition resumable (d : Db) : Prop :=
  match checkpoint d with Some (mkCheckpoint last _ _ false) => done_to last d | _ => True end.

(** The tables have the same credentials, and what was done is done. *)
Definition grows (d d' : Db) : Prop :=
  map (λ c, (c_id c, with_data c)) (credentials d') = map (λ c, (c_id c, with_data c)) (credentials d) ∧
  (readable d → readable d') ∧ ∀ id, readable d → done_id d id → done_id d' id.

#[local] Instance grows_preorder : PreOrder grows.
Proof.
  split; [by intros d|]. intros a b c (E1 & R1 & D1) (E2 & R2 & D2). split_and!; [by rewrite E2|auto|auto].
Qed.

Lemma readable_ext d cp : readable (mkDb (credentials d) cp) ↔ readable d.
Proof. done. Qed.

Lemma in_set_data id v d c :
  c ∈ credentials (set_data id v d) → (c = mkCredential id (Some v) ∧ ∃ c0, c0 ∈ credentials d ∧ c_id c0 = id) ∨ c ∈ credentials d ∧ c_id c ≠ id.
Proof.
  intros (c0 & -> & Hc)%list_elem_of_fmap. destruct (Z.eqb_spec (c_id c0) id) as [E|E]; [left|right; done]. split; [done|by exists c0].
Qed.

Lemma set_data_grows id e v n d c :
  c ∈ credentials d → c_id c = id → encrypted_data c = Some e → decrypt_either feature old new e = Ok v → readable d →
  grows d (set_data id (encrypt feature new key_version (nonce n) v) d) ∧ done_id (set_data id (encrypt feature new key_version (nonce n) v) d) id.
Proof.
  intros Hc Hid He Hv Hr. destruct Hr as [Hn Hall]. pose proof (Hall c Hc) as Hrow. rewrite He in Hrow. destruct Hrow as (v' & Hcont & Hs).
  rewrite (decrypt_either_held feature old new v' e) in Hv by done. injection Hv as ->.
  pose proof (held_rewritten feature old new key_version (nonce n) v e (nonce_len n) Hs) as Hnew.
  pose proof (rewritten_held feature old new _ _ Hnew) as Hheld.
  assert (∀ c0, c0 ∈ credentials d → c_id c0 = id → c0 = c) as Huniq by (intros c0 H0 E0; apply (nodup_map_inj c_id (credentials d)); [done..|congruence]).
  split; [|intros c' Hc' E'; destruct (in_set_data _ _ _ _ Hc') as [[-> _]|[_ H]]; [intros e' [= <-]; exists v; by rewrite <- Hid|done]].
  split_and!.
  - unfold set_data. cbn. rewrite map_map. apply map_ext_in. intros c0 H0%list_elem_of_In. destruct (Z.eqb_spec (c_id c0) id) as [E|]; [|done].
    rewrite (Huniq c0 H0 E). cbn. unfold with_data. by rewrite He, Hid.
  - intros _. split.
    + unfold set_data. cbn. rewrite map_map. erewrite map_ext; [exact Hn|]. intros c0. by destruct (Z.eqb_spec (c_id c0) id) as [<-|].
    + intros c' Hc'. destruct (in_set_data _ _ _ _ Hc') as [[-> _]|[H _]]; [|by apply Hall]. cbn. exists v. by rewrite <- Hid.
  - intros id' _ Hd c' Hc' E'. destruct (in_set_data _ _ _ _ Hc') as [[-> _]|[H _]]; [|by apply Hd]. intros e' [= <-]. cbn. exists v. by rewrite <- Hid.
Qed.

Lemma find_row id d c : List.find (λ c, c_id c =? id) (credentials d) = Some c → c ∈ credentials d ∧ c_id c = id.
Proof. intros [H1 H2]%find_some. split; [by apply list_elem_of_In|by apply Z.eqb_eq]. Qed.

Lemma rotate_one_grows id s :
  readable (db s) → grows (db s) (db (rotate_one id s).2) ∧ (is_ok (rotate_one id s).1 = true → done_id (db (rotate_one id s).2) id).
Proof.
  intros Hr. unfold rotate_one, mbind, M_bind, select_data, stmt. destruct (db_fault pg (ops s)); [by split|].
  destruct (List.find _ _) as [c|] eqn:Ec; [|by split]. apply find_row in Ec as [Hc Hid]. cbn [db ops trace].
  destruct (encrypted_data c) as [e|] eqn:Ee.
  - destruct (decrypt_either feature old new e) as [v|m] eqn:Ev; [|by split]. unfold counter, execute, stmt. cbn [db ops trace].
    destruct (db_fault pg (S (ops s))); cbn; [by split|].
    destruct (set_data_grows id e v (S (ops s)) (db s) c Hc Hid Ee Ev Hr). by split.
  - split; [done|]. intros _ c' Hc' E' e'. assert (c' = c) as -> by (apply (nodup_map_inj c_id (credentials (db s))); [apply Hr|done..|congruence]).
    by rewrite Ee.
Qed.

Lemma rotate_ids_grows ids : ∀ n s, readable (db s) →
  grows (db s) (db (rotate_ids ids n s).2) ∧ (is_ok (rotate_ids ids n s).1 = true → ∀ id, id ∈ ids → done_id (db (rotate_ids ids n s).2) id).
Proof.
  induction ids as [|id ids IH]; intros n s Hr; [split; [done|by intros _ id ?%elem_of_nil]|].
  change (rotate_ids (id :: ids) n) with (k ← rotate_one id; rotate_ids ids (n + k)). unfold mbind, M_bind.
  pose proof (rotate_one_grows id s Hr) as [Hg Hd]. destruct (rotate_one id s) as [[k|e] s1]; cbn in *; [|by split].
  assert (readable (db s1)) as Hr1 by (by apply Hg). destruct (IH (n + k) s1 Hr1) as [Hg2 Hd2].
  split; [by etrans|]. intros Ho id' [->|Hin]%elem_of_cons; [|by apply Hd2]. by apply Hg2, Hd.
Qed.

Definition ids_after (last : option Z) (d : Db) : list Z := map c_id (List.filter (λ c, with_data c && after c_id last c) (credentials d)).

Lemma in_ids_after last d c : c ∈ credentials d → with_data c = true → after c_id last c = true → c_id c ∈ ids_after last d.
Proof. intros Hc Hw Ha. apply list_elem_of_fmap_2, list_elem_of_In, filter_In. split; [by apply list_elem_of_In|by rewrite Hw, Ha]. Qed.

Lemma with_data_some c e : encrypted_data c = Some e → with_data c = true.
Proof. unfold with_data. by intros ->. Qed.

Lemma batch_covers last d l id :
  readable d → last_of (next_ids last d) = Some l → done_to last d →
  (∀ id, id ∈ next_ids last d → done_id d id) → id ≤ l → done_id d id.
Proof.
  intros [Hn Hall] Hl Hd Hb Hle c Hc Hid e He. destruct (after c_id last c) eqn:Ea.
  - apply (Hb id); [|done..]. unfold last_of, next_ids in *. apply (take_sorted_covers _ _ l); [apply sort_by_sorted, _| |done| |done].
    + rewrite sort_by_permutation. eapply sublist_NoDup; [exact Hn|]. apply (fmap_sublist c_id), bool_filter_sublist.
    + rewrite sort_by_permutation, <- Hid. by eapply in_ids_after; [|eapply with_data_some|].
  - unfold after in Ea. destruct last as [l0|]; [|done]. apply Z.ltb_ge in Ea. by apply (Hd l0 (c_id c)).
Qed.

Lemma no_more_done last d id : next_ids last d = [] → done_to last d → done_id d id.
Proof.
  intros Hn Hd c Hc Hid e He. destruct (after c_id last c) eqn:Ea.
  - exfalso. assert (c_id c ∈ sort_by Z.compare (ids_after last d)) as H.
    { rewrite sort_by_permutation. by eapply in_ids_after; [|eapply with_data_some|]. }
    unfold next_ids in Hn. fold (ids_after last d) in Hn. destruct (sort_by _ _); [by apply elem_of_nil in H|done].
  - unfold after in Ea. destruct last as [l0|]; [|done]. apply Z.ltb_ge in Ea. by apply (Hd l0 (c_id c)).
Qed.

(** The batches depend on which credentials there are only. *)
Definition rows_of (d : Db) : list (Z * bool) := map (λ c, (c_id c, with_data c)) (credentials d).

Lemma ids_after_rows last d d' : rows_of d' = rows_of d → ids_after last d' = ids_after last d.
Proof.
  intros E. unfold ids_after. set (p := λ k : Z * bool, k.2 && after fst last k).
  assert (∀ l, map c_id (List.filter (λ c, with_data c && after c_id last c) l) = map fst (List.filter p (map (λ c, (c_id c, with_data c)) l))) as H.
  { intros l. rewrite filter_map, map_map. done. }
  unfold rows_of in E. by rewrite !H, E.
Qed.

Lemma next_ids_grows last d d' : grows d d' → next_ids last d' = next_ids last d.
Proof. intros [H _]. unfold next_ids. f_equal. f_equal. by apply (ids_after_rows last d d'). Qed.

(** Each batch leaves fewer. *)
Lemma ids_after_shrinks last d l :
  last_of (next_ids last d) = Some l → (length (ids_after (Some l) d) < length (ids_after last d))%nat.
Proof.
  intros Hl. assert (l ∈ ids_after last d) as Hin.
  { rewrite <- (sort_by_permutation Z.compare). eapply elem_of_sublist; [|apply sublist_take]. by apply last_Some_elem_of. }
  apply list_elem_of_fmap in Hin as (c & -> & Hc%list_elem_of_In%filter_In). destruct Hc as [Hc [Hw Ha]%andb_prop].
  unfold ids_after. rewrite !length_map. eapply (filter_shrinks _ _ _ c); [|by apply list_elem_of_In| |].
  - intros c' [Hw' Ha']%andb_prop. rewrite Hw'. unfold after in *. destruct last as [l0|]; [|done]. apply Z.ltb_lt in Ha, Ha'. apply Z.ltb_lt. lia.
  - cbn beta. by rewrite Hw, Ha.
  - unfold after. by rewrite Z.ltb_irrefl, andb_false_r.
Qed.

Lemma done_to_grows last d d' : grows d d' → readable d → done_to last d → done_to last d'.
Proof. intros (_ & _ & H) Hr Hd l id E Hle. apply H; [done|]. by apply (Hd l). Qed.

(** The credentials there are. *)
Context (rows : list (Z * bool)).

(** What holds of the tables whenever the job stops. *)
Definition safe (d : Db) : Prop := readable d ∧ resumable d ∧ rows_of d = rows.

Lemma transaction_safe {A} (m : M A) s :
  safe (db s) → (∀ x s1, m (mkSt (db s) (S (ops s)) (trace s)) = (Ok x, s1) → safe (db s1)) → safe (db (transaction pg m s).2) ∧
  ∀ x, (transaction pg m s).1 = Ok x → ∃ s1, m (mkSt (db s) (S (ops s)) (trace s)) = (Ok x, s1) ∧ db (transaction pg m s).2 = db s1.
Proof.
  intros Hs Hm. unfold transaction, execute, stmt, mbind, M_bind. destruct (db_fault pg (ops s)); [by split|].
  destruct (m (mkSt (db s) (S (ops s)) (trace s))) as [[x|e] s1] eqn:Em; [|by split]. destruct (db_fault pg (ops s1)); [by split|].
  cbn. split; [by apply (Hm x s1)|]. intros y [= <-]. by exists s1.
Qed.

Lemma finish_safe last total completed s :
  safe (db s) → safe (db (finish_rotation pg last total completed s).2) ∧
  ((finish_rotation pg last total completed s).1 = Ok () → credentials (db (finish_rotation pg last total completed s).2) = credentials (db s)).
Proof.
  intros Hs. unfold finish_rotation. destruct (transaction_safe (save_checkpoint pg (mkCheckpoint last total completed true)) s Hs) as [H1 H2].
  - intros x s2. unfold save_checkpoint, execute, stmt. destruct (db_fault _ _); [done|]. intros [= <- <-]. by split_and!; [apply Hs| |apply Hs].
  - split; [exact H1|]. intros E. destruct (H2 () E) as (s3 & E3 & ->). revert E3. unfold save_checkpoint, execute, stmt.
    destruct (db_fault _ _); [done|]. by intros [= <-].
Qed.

Lemma rotate_batch_safe last total completed s :
  safe (db s) → done_to last (db s) →
  safe (db (rotate_batch feature nonce pg key_version old new (next_ids last (db s)) total completed s).2) ∧
  ∀ n, (rotate_batch feature nonce pg key_version old new (next_ids last (db s)) total completed s).1 = Ok n →
    done_to (last_of (next_ids last (db s))) (db (rotate_batch feature nonce pg key_version old new (next_ids last (db s)) total completed s).2) ∧
    rows_of (db (rotate_batch feature nonce pg key_version old new (next_ids last (db s)) total completed s).2) = rows_of (db s).
Proof.
  intros Hs Hd. unfold rotate_batch. set (body := rotate_ids _ 0 ≫= _).
  assert (∀ n s2, body (mkSt (db s) (S (ops s)) (trace s)) = (Ok n, s2) → safe (db s2) ∧ done_to (last_of (next_ids last (db s))) (db s2) ∧
    rows_of (db s2) = rows_of (db s)) as Hbody.
  { intros n s2. unfold body, mbind, M_bind. set (s1' := mkSt _ _ _). destruct Hs as (Hr & Hres & Hrows).
    destruct (rotate_ids_grows (next_ids last (db s)) 0 s1' Hr) as [Hg Hdone].
    destruct (rotate_ids _ 0 s1') as [[k|e] s3]; [|done]. cbn in Hg, Hdone. unfold save_checkpoint, execute, stmt.
    destruct (db_fault pg (ops s3)); [done|]. intros [= <- <-]. cbn [db].
    assert (done_to (last_of (next_ids last (db s))) (db s3)) as Hto.
    { intros l id El Hle. pose proof Hg as (Hkeys & Hr3 & _).
      assert (∀ id, id ∈ next_ids last (db s) → done_id (db s3) id) as Hb by (by apply Hdone).
      rewrite <- (next_ids_grows last (db s) (db s3) Hg) in El, Hb.
      apply (batch_covers last (db s3) l); [by apply Hr3|done|by apply (done_to_grows last (db s))|done|done]. }
    assert (rows_of (mkDb (credentials (db s3)) (checkpoint (db s3))) = rows_of (db s)) as Hrows3 by apply Hg.
    split_and!; [split_and!; [by apply Hg|cbn; by destruct (_ <=? _)|by rewrite <- Hrows]|done|done]. }
  destruct (transaction_safe body s Hs) as [H1 H2]; [intros x s2 E; by apply (Hbody x s2)|].
  split; [exact H1|]. intros n E. destruct (H2 n E) as (s3 & E3 & ->). by apply (Hbody n s3).
Qed.

(** What a run leaves, whether it fails or not. *)
Definition rotated_all (r : result (option Z) string * St Db Empty_set) : Prop :=
  safe (db r.2) ∧ ∀ n, r.1 = Ok (Some n) → ∀ id, done_id (db r.2) id.

Lemma rotate_loop_safe fuel : ∀ last total completed rotated s,
  safe (db s) → done_to last (db s) → rotated_all (rotate_loop fuel last total completed rotated s).
Proof.
  induction fuel as [|fuel IH]; intros last total completed rotated s Hs Hd; [by split|].
  cbn [Encryption.rotate_loop]. unfold mbind at 1, M_bind at 1, query, stmt. destruct (db_fault pg (ops s)); [by split|]. cbv beta iota.
  set (s1 := mkSt _ _ _). destruct (next_ids last (db s)) as [|i ids] eqn:En; cbv iota.
  - destruct (finish_safe last total completed s1 Hs) as [H1 H2]. unfold mbind, M_bind.
    destruct (finish_rotation pg last total completed s1) as [[[]|e] s2]; cbn in *; [|by split]. split; [done|]. intros n [= <-] id c Hc.
    cbn in Hc. rewrite H2 in Hc by done. by apply (no_more_done last (db s)).
  - destruct (rotate_batch_safe last total completed s1 Hs Hd) as [H1 H2]. change (db s1) with (db s) in H1, H2. rewrite En in H1, H2.
    unfold mbind at 1, M_bind at 1. destruct (rotate_batch _ _ _ _ _ _ _ _ _ s1) as [[n|e] s2]; cbn in H1, H2; [|by split].
    destruct (H2 n eq_refl) as [H3 _]. by apply IH.
Qed.

(** As many batches as credentials are enough. *)
Lemma rotate_loop_stops fuel : ∀ last total completed rotated s,
  safe (db s) → done_to last (db s) → (length (ids_after last (db s)) < fuel)%nat →
  (rotate_loop fuel last total completed rotated s).1 ≠ Ok None.
Proof.
  induction fuel as [|fuel IH]; intros last total completed rotated s Hs Hd Hf; [lia|].
  cbn [Encryption.rotate_loop]. unfold mbind at 1, M_bind at 1, query, stmt. destruct (db_fault pg (ops s)); [done|]. cbv beta iota.
  set (s1 := mkSt _ _ _). destruct (next_ids last (db s)) as [|i ids] eqn:En; cbv iota.
  - unfold mbind, M_bind. by destruct (finish_rotation pg last total completed s1) as [[[]|e] s2].
  - destruct (rotate_batch_safe last total completed s1 Hs Hd) as [H1 H2]. change (db s1) with (db s) in H1, H2. rewrite En in H1, H2.
    unfold mbind at 1, M_bind at 1. destruct (rotate_batch _ _ _ _ _ _ _ _ _ s1) as [[n|e] s2]; cbn in H1, H2; [|done].
    destruct (H2 n eq_refl) as [H3 H4]. apply IH; [done..|]. rewrite (ids_after_rows _ _ _ H4).
    assert (is_Some (last_of (i :: ids))) as [l El] by (apply last_is_Some; done). rewrite El.
    enough (length (ids_after (Some l) (db s)) < length (ids_after last (db s)))%nat by lia. apply ids_after_shrinks. by rewrite En.
Qed.

Lemma done_to_none d : done_to None d.
Proof. by intros l id. Qed.

Lemma rotate_credentials_cases fuel s (P : result (option Z) string * St Db Empty_set → Prop) :
  safe (db s) →
  (∀ e n, P (Err e, mkSt (db s) n (trace s))) →
  (∀ last total completed n, done_to last (db s) → P (rotate_loop fuel last total completed 0 (mkSt (db s) n (trace s)))) →
  P (rotate_credentials feature nonce pg key_version fuel old new s).
Proof.
  intros (Hr & Hres & _) He Hl. unfold rotate_credentials, execute, query, stmt, mbind, M_bind.
  destruct (db_fault pg (ops s)); [apply He|]. cbn [db ops trace]. destruct (db_fault pg _); [apply He|]. cbn [db ops trace].
  destruct (db_fault pg _); [apply He|]. cbn [db ops trace].
  unfold resumable in Hres. destruct (checkpoint (db s)) as [[last total completed [|]]|]; [|by apply Hl|];
    (destruct (db_fault pg _); [apply He|]; cbn [db ops trace]; apply Hl, done_to_none).
Qed.

Local Abbreviation rotate_credentials fuel := (rotate_credentials feature nonce pg key_version fuel old new).

Lemma rotation_safe fuel s : safe (db s) → rotated_all (rotate_credentials fuel s).
Proof. intros Hs. apply rotate_credentials_cases; [done|by split|]. intros. by apply rotate_loop_safe. Qed.

Lemma rotation_returns fuel s : safe (db s) → (length (credentials (db s)) < fuel)%nat → (rotate_credentials fuel s).1 ≠ Ok None.
Proof.
  intros Hs Hf. apply rotate_credentials_cases; [done..|]. intros. apply rotate_loop_stops; [done..|]. cbn [db].
  unfold ids_after. rewrite length_map.
  match goal with |- (length (List.filter ?p ?l) < _)%nat => pose proof (List.filter_length_le p l) end. lia.
Qed.

(** A run that comes to its end has every credential under the new key. *)
Lemma rotated_all_result r n c e :
  rotated_all r → r.1 = Ok (Some n) → c ∈ credentials (db r.2) → encrypted_data c = Some e →
  ∃ v, content (c_id c) = Some v ∧ rewritten (printable := printable) feature new v e.
Proof. intros [_ H] Hn Hc He. by apply (H n Hn (c_id c) c Hc eq_refl e He). Qed.

(** The job, run again [k] times with the same keys. *)
Fixpoint run_again (fuel k : nat) (s : St Db Empty_set) : result (option Z) string * St Db Empty_set :=
  match k with
  | O => rotate_credentials fuel s
  | S k => rotate_credentials fuel (run_again fuel k s).2
  end.

Lemma safe_length d : safe d → length (credentials d) = length rows.
Proof. intros (_ & _ & <-). unfold rows_of. by rewrite length_map. Qed.

Lemma run_again_all fuel k s :
  safe (db s) → (length (credentials (db s)) < fuel)%nat →
  rotated_all (run_again fuel k s) ∧ (run_again fuel k s).1 ≠ Ok None.
Proof.
  intros Hs Hf. rewrite safe_length in Hf by done. induction k as [|k [[IH _] _]]; simpl.
  - split; [by apply rotation_safe|]. apply rotation_returns; [done|]. by rewrite safe_length.
  - split; [by apply rotation_safe|]. apply rotation_returns; [done|]. by rewrite safe_length.
Qed.

(** Without the feature the tables determine the credentials. *)
Lemma readable_stub d :
  feature = false → readable d →
  credentials d = map (λ k : Z * bool, mkCredential k.1 (if k.2 then content k.1 else None)) (rows_of d).
Proof.
  intros Ef [_ Hall]. unfold rows_of. rewrite map_map, <- (map_id (credentials d)) at 1. apply map_ext_in.
  intros c Hc%list_elem_of_In. specialize (Hall c Hc). unfold with_data. destruct c as [id [e|]]; cbn in *; [|done].
  destruct Hall as (v & -> & Hv). unfold held in Hv. by rewrite Ef in Hv; subst.
Qed.
End Rotation.

(** C29. The rotation of the credentials' key from [old] to [new], started with no
    run unfinished on credentials that each are under one of the keys or not
    encrypted yet, and run any number of times with the same two keys, whatever
    fails: the same credentials are there and each still opens, with the old key
    or the new one, to what it held; there is an end to the batches.  In a build
    with the feature [encryption], when the last run reports success each opens
    with the new key and not with the old one; in a build without it, the only
    kind Cargo.toml allows, not a credential is changed. *)
Theorem rotation_keeps_credentials {Key} `{!EqDecision Key} `{C : Codec Key} {printable : Value → Prop}
    `{L : !CodecLaws C printable} (feature : bool) nonce pg key_version (old new : Key) content fuel k s :
  (∀ n, String.length (nonce n) = NONCE_LEN) → old ≠ new →
  readable (printable := printable) feature old new content (db s) →
  match checkpoint (db s) with Some cp => finished cp = true | None => True end →
  (length (credentials (db s)) < fuel)%nat →
  let r := run_again feature nonce pg key_version old new fuel k s in
  r.1 ≠ Ok None ∧ rows_of (db r.2) = rows_of (db s) ∧
  (∀ c e, c ∈ credentials (db r.2) → encrypted_data c = Some e →
     ∃ v, content (c_id c) = Some v ∧ decrypt_either feature old new e = Ok v) ∧
  (if feature then
     ∀ n c e, r.1 = Ok (Some n) → c ∈ credentials (db r.2) → encrypted_data c = Some e →
       ∃ v, content (c_id c) = Some v ∧ decrypt feature new None e = Ok v ∧ is_ok (decrypt feature old None e) = false
   else credentials (db r.2) = credentials (db s)).
Proof.
  intros Hlen Hne Hr Hcp Hf r.
  assert (safe (printable := printable) feature old new content (rows_of (db s)) (db s)) as Hs.
  { split_and!; [done| |done]. unfold resumable. by destruct (checkpoint (db s)) as [[? ? ? [|]]|]. }
  destruct (run_again_all feature nonce pg key_version old new Hlen Hne content _ fuel k s Hs Hf) as [Hall Hret].
  fold r in Hall, Hret. pose proof Hall as [(Hr' & _ & Hrows) _]. split_and!; [done|done| |].
  - intros c e Hc He. destruct Hr' as [_ Hr']. specialize (Hr' c Hc). rewrite He in Hr'. destruct Hr' as (v & Hv & H).
    exists v. split; [done|]. by apply decrypt_either_held.
  - destruct feature eqn:Ef.
    + intros n c e Hn Hc He. destruct (rotated_all_result _ _ _ _ _ _ n c e Hall Hn Hc He) as (v & Hv & H).
      exists v. split; [done|]. split; [by apply decrypt_sealed|]. by apply (decrypt_other old new v e (not_eq_sym Hne)).
    + by rewrite (readable_stub false old new content _ eq_refl Hr'), (readable_stub false old new content _ eq_refl Hr), Hrows.
Qed.

(** ** Re-encryption of the events *)

Section EventJob.
Context {Key : Type} `{!EqDecision Key} `{C : Codec Key} {printable : Value → Prop} `{L : !CodecLaws C printable}.
Context (feature : bool) (nonce : nat → string) (pg : PgEnv) (key_version : Z) (old new : Key).
Context (nonce_len : ∀ n, String.length (nonce n) = NONCE_LEN).
(** What the events are. *)
Context (content : Z → option Value).

(** A row that opens to the content of its event. *)
Definition row_ok (r : Z * Value) : Prop :=
  ∃ v, content r.1 = Some v ∧
    held (printable := printable) feature old new v r.2.

Definition events_ok (d : list (Z * Value)) : Prop := Forall row_ok d.

(** The job keeps the events. *)
Definition kept (v v' : list (Z * Value) * list JobEvent) : Prop := map fst v'.1 = map fst v.1 ∧ (events_ok v.1 → events_ok v'.1).

#[local] Instance kept_preorder : PreOrder kept.
Proof. split; [by intros v|]. intros a b c [E1 H1] [E2 H2]. split; [by rewrite E2|auto]. Qed.

Lemma row_decrypts r v : content r.1 = Some v → row_ok r → decrypt feature new (Some old) r.2 = Ok v.
Proof.
  intros Hv (v' & Hv' & H). assert (v' = v) as -> by congruence.
  by apply decrypt_held.
Qed.

Lemma set_event_kept id v e n d tr tr' :
  content id = Some v → held (printable := printable) feature old new v e → kept (d, tr) (set_event id (encrypt feature new key_version (nonce n) v) d, tr').
Proof.
  intros Hv Hp. split; cbn; [|unfold events_ok; rewrite !Forall_forall; intros Hd r Hr].
  - unfold set_event. rewrite map_map. apply map_ext. intros r. by destruct (Z.eqb_spec r.1 id) as [<-|].
  - apply list_elem_of_fmap in Hr as (r0 & -> & Hr0). destruct (Z.eqb_spec r0.1 id) as [E|]; [|by apply Hd].
    exists v. split; [done|]. by eapply rewritten_held, held_rewritten.
Qed.

Lemma reencrypt_event_kept r : row_ok r → preserves kept (reencrypt_event feature nonce pg key_version new old r).
Proof.
  intros Hr. assert (Hr' := Hr). destruct Hr as (v & Hv & Hs). unfold reencrypt_event. rewrite (row_decrypts r v) by done.
  apply preserves_bind; [apply _|apply preserves_counter, _|]. intros n.
  apply preserves_bind; [apply _|apply preserves_attempt, preserves_execute; [apply _|]; intros t d tr; by eapply set_event_kept|].
  intros [|]; [apply preserves_ret, _|].
  apply preserves_bind; [apply _|apply preserves_call; by split|intros; apply preserves_ret, _].
Qed.

Lemma reencrypt_events_kept rows : Forall row_ok rows → ∀ n, preserves kept (reencrypt_events feature nonce pg key_version new old rows n).
Proof.
  induction 1 as [|r rows Hr _ IH]; intros n; [apply preserves_ret, _|].
  apply preserves_bind; [apply _|by apply reencrypt_event_kept|]. intros k. apply IH.
Qed.

Lemma page_ok limit offset d : events_ok d → Forall row_ok (event_page limit offset d).
Proof.
  intros Hd. unfold event_page. apply Forall_take, Forall_drop. rewrite sort_by_permutation.
  apply Forall_forall. intros r Hr%list_elem_of_In%filter_In. unfold events_ok in Hd. rewrite Forall_forall in Hd. apply Hd, list_elem_of_In, Hr.
Qed.

Lemma page_end limit offset d : (length d ≤ offset)%nat → event_page limit offset d = [].
Proof.
  intros H. unfold event_page. rewrite drop_ge, take_nil; [done|]. rewrite sort_by_permutation. unfold encrypted_events.
  pose proof (List.filter_length_le (λ r, marked r.2) d). lia.
Qed.

Lemma kept_length v v' : kept v v' → length v'.1 = length v.1.
Proof. intros [E _]. rewrite <- (length_map fst v'.1), E. apply length_map. Qed.

(** A run of the loop: it keeps the events, and with enough fuel it ends. *)
Definition ran (enough : Prop) (s : St (list (Z * Value)) JobEvent) (r : result (option Z) string * St (list (Z * Value)) JobEvent) : Prop :=
  kept (view s) (view r.2) ∧ (enough → r.1 ≠ Ok None).

Lemma reencrypt_loop_ran batch_size total fuel : ∀ offset n s, events_ok (db s) →
  ran ((0 < batch_size)%nat ∧ (length (db s) - offset < fuel)%nat) s
      (reencrypt_loop feature nonce pg key_version fuel new old batch_size offset total n s).
Proof.
  induction fuel as [|fuel IH]; intros offset n s Hs; [split; [reflexivity|lia]|].
  cbn [reencrypt_loop]. unfold mbind at 1, M_bind at 1, query, stmt. destruct (db_fault pg (ops s)); [by split|]. cbv beta iota.
  set (s1 := mkSt _ _ _). pose proof (page_ok batch_size offset (db s) Hs) as Hp. destruct (event_page batch_size offset (db s)) as [|r rows] eqn:Ep; cbv iota.
  { by split. }
  unfold mbind at 1, M_bind at 1. pose proof (reencrypt_events_kept _ Hp n s1) as H1.
  destruct (reencrypt_events _ _ _ _ _ _ _ _ s1) as [[k|e] s2]; [|by split].
  assert (kept (view s) (view s2)) as H2 by exact H1. clear H1. unfold mbind, M_bind, call. set (s3 := mkSt (db s2) _ _).
  destruct (IH (offset + batch_size)%nat k s3) as [H3 H4]; [by apply H2|]. split.
  - etrans; [exact H2|]. etrans; [|exact H3]. by split.
  - intros [Hb Hf]. pose proof (kept_length _ _ H2) as El. cbn in El. assert (offset < length (db s))%nat as Ho.
    { destruct (decide (offset < length (db s))%nat); [done|]. rewrite page_end in Ep by lia. done. }
    apply H4. cbn. lia.
Qed.

(** The job over the events, whatever fails: every event still opens, with the
    new key and the old one as its fallback, to what it held, there are the
    same events, and there is an end to the pages. *)
Theorem event_job_keeps_events fuel batch_size s :
  events_ok (db s) → (0 < batch_size)%nat → (length (db s) < fuel)%nat →
  let r := run_reencrypt_job feature nonce pg key_version fuel new old batch_size s in
  r.1 ≠ Ok None ∧ map fst (db r.2) = map fst (db s) ∧
  ∀ row, row ∈ db r.2 → ∃ v, content row.1 = Some v ∧ decrypt feature new (Some old) row.2 = Ok v.
Proof.
  intros Hs Hb Hf r. assert (ran True s r) as [[E H1] H2].
  { unfold r, run_reencrypt_job, query, stmt, call, mbind, M_bind. destruct (db_fault pg (ops s)); [by split|]. cbv beta iota zeta.
    set (s1 := mkSt _ _ _). destruct (reencrypt_loop_ran batch_size (Z.of_nat (length (encrypted_events (db s)))) fuel 0 0 s1 Hs) as [H1 H2].
    split; [exact H1|]. intros _. apply H2. split; [done|]. cbn. lia. }
  split_and!; [by apply H2|exact E|]. intros row Hrow. specialize (H1 Hs). unfold events_ok in H1. rewrite Forall_forall in H1.
  specialize (H1 row Hrow). pose proof H1 as (v & Hv & _). exists v. split; [done|]. by apply row_decrypts.
Qed.
End EventJob.

(** ** Integration credentials *)

Section Credentials.
Context {Key : Type} `{!EqDecision Key} `{C : Codec Key} {printable : Value → Prop} `{L : !CodecLaws C printable}.
Context (nonce : nat → string) (nonce_len : ∀ n, String.length (nonce n) = NONCE_LEN).

(** A text that can be sealed: its envelope prints and the text is UTF-8. *)
Definition sealable (p : string) : Prop := utf8 p = true ∧ ∀ k v n, printable (envelope k v (nonce n) p).

Lemma starts_with_app p r : starts_with p (p +:+ r) = true.
Proof. unfold starts_with. induction p as [|a p IH]; [by destruct r|]. change (String a p +:+ r) with (String a (p +:+ r)). cbn. by destruct (ascii_dec a a). Qed.

Lemma encrypt_secret_prefix k v n p : is_encrypted (encrypt_secret k v n p) = true.
Proof. apply starts_with_app. Qed.

Lemma decrypt_encrypt_secret k o k0 v n p :
  sealable p → k0 = k ∨ o = Some k0 → decrypt_secret k o (encrypt_secret k0 v (nonce n) p) = Ok p.
Proof.
  intros [Hu Hp] Hk. unfold decrypt_secret, encrypt_secret. rewrite strip_prefix_app.
  rewrite b64_round. cbn [result_bind]. rewrite json_round by done. cbn [result_bind]. change (is_envelope (envelope _ _ _ _)) with true. cbn [negb].
  rewrite open_envelope_spec by done. destruct (decide (k0 = k)) as [-> |Hne]; [by rewrite try_same; cbn; rewrite Hu|].
  destruct Hk as [| -> ]; [done|]. rewrite try_other, try_same by done. cbn. by rewrite Hu.
Qed.

(** What was sealed opens: with the keys it was sealed under, and after a
    rotation that keeps the old key. *)
Lemma seal_open ks n p t : sealable p → seal nonce ks n p = Ok t → open ks t = Ok p.
Proof.
  intros Hp. unfold seal, open. destruct ks as [k|]; [|done]. intros [= <-]. rewrite encrypt_secret_prefix. cbn.
  by rewrite decrypt_encrypt_secret; [|done|left].
Qed.

Lemma seal_open_rotated k o k' v v' n p t :
  sealable p → seal nonce (Some (mkKeys k o v)) n p = Ok t → open (Some (mkKeys k' (Some k) v')) t = Ok p.
Proof. intros Hp [= <-]. unfold open. rewrite encrypt_secret_prefix. cbn. by rewrite decrypt_encrypt_secret; [|done|right]. Qed.

(** Without keys nothing is stored, and what is encrypted is not read. *)
Lemma seal_unconfigured n p : seal nonce (None : option Keys) n p = Err NotConfigured.
Proof. reflexivity. Qed.

Lemma open_plain ks s : is_encrypted s = false → open ks s = Ok s.
Proof. unfold open. by intros ->. Qed.

(** A masked secret shows its last four characters at the most: secrets that
    agree on these are masked alike. *)
Lemma mask_shows_four p q :
  (8 < length (chars p))%nat → (8 < length (chars q))%nat →
  drop (length (chars p) - 4) (chars p) = drop (length (chars q) - 4) (chars q) → mask_secret p = mask_secret q.
Proof.
  intros Hp Hq E. unfold mask_secret. destruct (Nat.leb_spec (length (chars p)) 8); [lia|]. destruct (Nat.leb_spec (length (chars q)) 8); [lia|]. by rewrite E.
Qed.

(** The strings of a configuration that its sensitive keys hold. *)
Fixpoint sensitive_strings (v : Value) : list string :=
  match v with
  | Object m =>
      concat (map (λ kx, match kx.2 with
                         | VString s => if is_sensitive_key kx.1 then [s] else []
                         | _ => sensitive_strings kx.2
                         end) m)
  | Array l => concat (map sensitive_strings l)
  | _ => []
  end.

Lemma concat_sub {A B} (f : A → list B) l (P : B → Prop) x : x ∈ l → Forall P (concat (map f l)) → Forall P (f x).
Proof. intros Hx. apply list_elem_of_split in Hx as (l1 & l2 & ->). rewrite map_app, concat_app. cbn. rewrite !Forall_app. naive_solver. Qed.
End Credentials.

#[local] Arguments is_sensitive_key : simpl never.

(** [map_sensitive] after [map_sensitive]: [g] after [f] is [h]. *)
Section Composition.
Context (f g h : nat → string → result string SecretError) (P : string → Prop).
Context (composed : ∀ n m k s t, P s → f n s = Ok t → g m t = h k s).

Lemma map_st_composed {A B D} (p : A → nat → result B SecretError * nat) (q : B → nat → result D SecretError * nat) (r : A → nat → result D SecretError * nat) l :
  (∀ x n m k y n', x ∈ l → p x n = (Ok y, n') → (q y m).1 = (r x k).1) →
  ∀ n m k ys n', map_st p l n = (Ok ys, n') → (map_st q ys m).1 = (map_st r l k).1.
Proof.
  induction l as [|x l IH]; intros Hpq n m k ys n'; [by intros [= <- <-]|]. cbn. destruct (p x n) as [[y|e] n1] eqn:Ey; [|done].
  destruct (map_st p l n1) as [[zs|e] n2] eqn:El; [|done]. intros [= <- <-]. cbn. pose proof (Hpq x n m k y n1 ltac:(left) Ey) as Hy.
  destruct (q y m) as [ry m1], (r x k) as [rx k1]. cbn in Hy. subst ry. destruct rx as [d|e]; [|done].
  pose proof (IH (λ x n m k y n' H, Hpq x n m k y n' (list_elem_of_further _ _ _ H)) n1 m1 k1 zs n2 El) as H.
  destruct (map_st q zs m1), (map_st r l k1). cbn in H. by subst.
Qed.

Definition composes (x : Value) : Prop :=
  ∀ n m k y n', Forall P (sensitive_strings x) → map_sensitive f x n = (Ok y, n') → (map_sensitive g y m).1 = (map_sensitive h x k).1.

Lemma map_sensitive_shape x n y n' : as_str x = None → map_sensitive f x n = (Ok y, n') → as_str y = None.
Proof.
  destruct x as [| | | |l|l]; cbn; try by intros _ [= <- <-].
  - done.
  - intros _. by destruct (map_st _ l n) as [[ys|e] n1]; [intros [= <- <-]|].
  - intros _. by destruct (map_st _ l n) as [[ys|e] n1]; [intros [= <- <-]|].
Qed.

Lemma map_sensitive_composed x : composes x.
Proof.
  induction x as [|b|i|s|l IH|l IH] using Value_nested_ind; intros n m k y n' Hp; try by intros [= <- <-].
  - cbn. destruct (map_st (map_sensitive f) l n) as [[ys|e] n1] eqn:El; [|done]. intros [= <- <-]. cbn.
    rewrite Forall_forall in IH.
    pose proof (map_st_composed (map_sensitive f) (map_sensitive g) (map_sensitive h) l
      (λ x n m k y n' Hx, IH x Hx n m k y n' (concat_sub _ _ _ _ Hx Hp)) n m k ys n1 El) as H.
    destruct (map_st (map_sensitive g) ys m), (map_st (map_sensitive h) l k). cbn in *. by subst.
  - cbn. set (p := λ kx n, _). destruct (map_st p l n) as [[ys|e] n1] eqn:El; [|done]. intros [= <- <-]. cbn. set (q := λ kx n, _). set (r := λ kx n, _).
    enough ((map_st q ys m).1 = (map_st r l k).1) as H by (destruct (map_st q ys m), (map_st r l k); cbn in *; by subst).
    eapply (map_st_composed p q r); [|exact El]. clear El. intros [j x] a b c [j' z] a' Hx. rewrite Forall_forall in IH. specialize (IH (j, x) Hx).
    pose proof (concat_sub _ _ _ _ Hx Hp) as Hs. unfold p, q, r. cbn [fst snd] in *. destruct (as_str x) as [s|] eqn:Es.
    + destruct x as [| | |s'| |]; try done. destruct (is_sensitive_key j) eqn:Ej.
      * destruct (f a s') as [t|e] eqn:Et; [|done]. intros [= <- <- <-]. rewrite Ej. inversion Hs; subst. by rewrite (composed a b c s' t).
      * intros [= <- <- <-]. by rewrite Ej.
    + replace (match x with VString _ => _ | _ => map_sensitive f x a end) with (map_sensitive f x a) by (by destruct x).
      replace (match x with VString _ => _ | _ => map_sensitive h x c end) with (map_sensitive h x c) by (by destruct x).
      destruct (map_sensitive f x a) as [[z'|e] a1] eqn:Ez; [|done]. intros [= <- <- <-]. pose proof (map_sensitive_shape x a z' a1 Es Ez) as Es'.
      replace (match z' with VString _ => _ | _ => map_sensitive g z' b end) with (map_sensitive g z' b) by (by destruct z').
      assert (Forall P (sensitive_strings x)) as Hs' by (by destruct x). pose proof (IH a b c z' a1 Hs' Ez) as H.
      destruct (map_sensitive g z' b), (map_sensitive h x c). cbn in *. by subst.
Qed.
End Composition.

(** The strings of a result. *)
Section Strings.
Context (f : nat → string → result string SecretError) (P Q : string → Prop).
Context (each : ∀ n s t, P s → f n s = Ok t → Q t).

Lemma map_st_strings {A B} (p : A → nat → result B SecretError * nat) (sx : A → list string) (sy : B → list string) l :
  (∀ x n y n', x ∈ l → Forall P (sx x) → p x n = (Ok y, n') → Forall Q (sy y)) →
  ∀ n ys n', Forall P (concat (map sx l)) → map_st p l n = (Ok ys, n') → Forall Q (concat (map sy ys)).
Proof.
  induction l as [|x l IH]; intros Hp n ys n' Hs; [by intros [= <- <-]|]. cbn in *. apply Forall_app in Hs as [Hx Hs].
  destruct (p x n) as [[y|e] n1] eqn:Ey; [|done]. destruct (map_st p l n1) as [[zs|e] n2] eqn:El; [|done]. intros [= <- <-]. cbn.
  apply Forall_app. split; [by apply (Hp x n y n1 ltac:(left))|].
  by apply (IH (λ x n y n' H, Hp x n y n' (list_elem_of_further _ _ _ H)) n1 zs n2).
Qed.

Definition entry_strings (kx : string * Value) : list string :=
  match kx.2 with VString s => if is_sensitive_key kx.1 then [s] else [] | _ => sensitive_strings kx.2 end.

Lemma map_sensitive_strings x : ∀ n y n', Forall P (sensitive_strings x) → map_sensitive f x n = (Ok y, n') → Forall Q (sensitive_strings y).
Proof.
  induction x as [|b|i|s|l IH|l IH] using Value_nested_ind; intros n y n' Hp; try (by intros [= <- <-]); rewrite Forall_forall in IH.
  - cbn. destruct (map_st (map_sensitive f) l n) as [[ys|e] n1] eqn:El; [|done]. intros [= <- <-].
    by apply (map_st_strings (map_sensitive f) sensitive_strings sensitive_strings l (λ x n y n' Hx, IH x Hx n y n') n ys n1).
  - cbn. set (p := λ kx n, _). destruct (map_st p l n) as [[ys|e] n1] eqn:El; [|done]. intros [= <- <-].
    apply (map_st_strings p entry_strings entry_strings l) with n n1; [|done..]. clear El. intros [k x] a [k' z] a' Hx Hs. specialize (IH (k, x) Hx).
    unfold p, entry_strings in *. cbn [fst snd] in *. destruct (as_str x) as [s|] eqn:Es.
    + destruct x as [| | |s'| |]; try done. destruct (is_sensitive_key k) eqn:Ek.
      * destruct (f a s') as [t|e] eqn:Et; [|done]. intros [= <- <- <-]. rewrite Ek. constructor; [|done]. inversion Hs; subst. by eapply each.
      * intros [= <- <- <-]. by rewrite Ek.
    + replace (match x with VString _ => _ | _ => map_sensitive f x a end) with (map_sensitive f x a) by (by destruct x).
      destruct (map_sensitive f x a) as [[z'|e] a1] eqn:Ez; [|done]. intros [= <- <- <-]. pose proof (map_sensitive_shape f x a z' a1 Es Ez) as Es'.
      assert (Forall P (sensitive_strings x)) as Hs' by (by destruct x). pose proof (IH a z' a1 Hs' Ez) as H. by destruct z'.
Qed.
End Strings.

Lemma map_st_id {A} (p : A → nat → result A SecretError * nat) l : (∀ x n, x ∈ l → (p x n).1 = Ok x) → ∀ n, (map_st p l n).1 = Ok l.
Proof.
  induction l as [|x l IH]; intros Hp n; [done|]. cbn. pose proof (Hp x n ltac:(left)) as Hx. destruct (p x n) as [r n1]. cbn in Hx. subst r.
  pose proof (IH (λ x n H, Hp x n (list_elem_of_further _ _ _ H)) n1) as H. destruct (map_st p l n1). cbn in *. by subst.
Qed.

Lemma map_sensitive_id x : ∀ n, (map_sensitive (λ _ s, Ok s) x n).1 = Ok x.
Proof.
  induction x as [|b|i|s|l IH|l IH] using Value_nested_ind; intros n; try done; rewrite Forall_forall in IH; cbn.
  - pose proof (map_st_id _ l (λ x n Hx, IH x Hx n) n) as H. destruct (map_st _ l n). cbn in *. by subst.
  - set (p := λ kx n, _). enough ((map_st p l n).1 = Ok l) as H by (destruct (map_st p l n); cbn in *; by subst).
    apply map_st_id. intros [k x] m Hx. specialize (IH _ Hx m). unfold p. cbn [fst snd] in *.
    destruct x as [| | |s| |]; try done; [by destruct (is_sensitive_key k)|..];
      (destruct (map_sensitive _ _ m) as [r m']; cbn in IH; by subst).
Qed.

(** ** Configurations, and the stored credentials *)

Section Stored.
Context {Key : Type} `{!EqDecision Key} `{C : Codec Key} {printable : Value → Prop} `{L : !CodecLaws C printable}.
Context (nonce : nat → string) (nonce_len : ∀ n, String.length (nonce n) = NONCE_LEN) (ks : option (Keys (Key := Key))).

Local Abbreviation sealable := (sealable (printable := printable) nonce).

(** What a stored text opens to can be sealed again. *)
Definition resealable (s : string) : Prop := ∀ p, open ks s = Ok p → sealable p.

Lemma reseal_opens n s t : resealable s → reseal nonce ks n s = Ok t → open ks t = open ks s ∧ resealable t.
Proof.
  intros Hs. unfold reseal. destruct (open ks s) as [p|e] eqn:Ep; [|done]. cbn. intros Ht. specialize (Hs p Ep).
  pose proof (seal_open nonce nonce_len ks n p t Hs Ht) as E. split; [done|]. unfold resealable. rewrite E. by intros q [= <-].
Qed.

Lemma seal_opens n s t : resealable s → is_encrypted s = false → seal nonce ks n s = Ok t → open ks t = open ks s.
Proof. intros Hs Hp Ht. rewrite (open_plain ks s Hp). apply (seal_open nonce nonce_len ks n s t); [|done]. by apply Hs, open_plain. Qed.

(** A configuration that was sealed opens to what it was. *)
Theorem seal_open_config n config sealed :
  Forall (λ s, is_encrypted s = false ∧ sealable s) (sensitive_strings config) →
  seal_config nonce ks n config = Ok sealed → open_config ks sealed = Ok config.
Proof.
  intros Hs. unfold seal_config, open_config. set (f := λ n s, _). destruct (map_sensitive f config n) as [[y|e] n'] eqn:E; [|done].
  intros [= <-]. rewrite <- (map_sensitive_id config 0%nat).
  apply (map_sensitive_composed f (λ _, open ks) (λ _ s, Ok s) (λ s, is_encrypted s = false ∧ sealable s)) with n n'; [|done..].
  intros a b c s t [H1 H2]. unfold f. rewrite H1. by apply seal_open.
Qed.

Lemma resealed_config (only_plaintext : bool) n config sealed :
  Forall resealable (sensitive_strings config) →
  (if only_plaintext then seal_config nonce ks n config else (map_sensitive (reseal nonce ks) config n).1) = Ok sealed →
  open_config ks sealed = open_config ks config ∧ Forall resealable (sensitive_strings sealed).
Proof.
  intros Hs. unfold open_config. assert (∀ f : nat → string → result string SecretError,
    (∀ n s t, resealable s → f n s = Ok t → open ks t = open ks s ∧ resealable t) → (map_sensitive f config n).1 = Ok sealed →
    (map_sensitive (λ _, open ks) sealed 0%nat).1 = (map_sensitive (λ _, open ks) config 0%nat).1 ∧ Forall resealable (sensitive_strings sealed)) as H.
  { intros f Hf E. destruct (map_sensitive f config n) as [r n'] eqn:Ef. cbn in E. subst r. split.
    - apply (map_sensitive_composed f (λ _, open ks) (λ _, open ks) resealable) with n n'; [|done..]. intros a _ _ s t H1 H2. by apply (Hf a).
    - apply (map_sensitive_strings f resealable resealable) with config n n'; [|done..]. intros a s t H1 H2. by apply (Hf a s). }
  destruct only_plaintext; [unfold seal_config|]; apply H; intros a s t Hr; [|apply reseal_opens; done].
  destruct (is_encrypted s) eqn:E; [by intros [= <-]|]. intros Ht. split; [by apply (seal_opens a)|].
  apply (reseal_opens a s t Hr). unfold reseal. by rewrite (open_plain ks s E).
Qed.

(** ** The rewriting of the tables *)

Context (pg : PgEnv).
(** What the credentials are. *)
Context (texts : list (list (Z * option (result string SecretError)))) (settings : list (Z * result Value SecretError)).
Context (text_ids : Forall (λ col, NoDup (map fst col)) texts) (setting_ids : NoDup (map fst settings)).

Definition text_of (r : Z * option string) : Z * option (result string SecretError) := (r.1, open ks <$> r.2).
Definition setting_of (r : Z * Value) : Z * result Value SecretError := (r.1, open_config ks r.2).

(** The tables hold the credentials. *)
Definition hold (d : Secrets) : Prop :=
  (map (map text_of) (columns d) = texts ∧ map setting_of (configs d) = settings) ∧
  Forall (Forall (λ r, ∀ s, r.2 = Some s → resealable s)) (columns d) ∧ Forall (λ r, Forall resealable (sensitive_strings r.2)) (configs d).

(** A row of a page. *)
Definition cell_ok (i : nat) (r : Z * string) : Prop :=
  resealable r.2 ∧ ∃ col, texts !! i = Some col ∧ (r.1, Some (open ks r.2)) ∈ col.

Definition config_ok (r : Z * Value) : Prop := Forall resealable (sensitive_strings r.2) ∧ setting_of r ∈ settings.

Lemma entry_unique {A} (l : list (Z * A)) i x y : NoDup (map fst l) → (i, x) ∈ l → (i, y) ∈ l → x = y.
Proof. intros Hn Hx Hy. pose proof (nodup_map_inj fst l (i, x) (i, y) Hn Hx Hy eq_refl). congruence. Qed.

Lemma set_cell_holds i id s t d : cell_ok i (id, s) → open ks t = open ks s → resealable t → hold d → hold (set_column i id t d).
Proof.
  intros (Hs & col & Hcol & Hin) Ht Hr ((Et & Ec) & Ht' & Hc'). cbn in *. split; [split; [|done]|split; [|done]].
  - rewrite <- Et at 1. apply list_eq. intros j. cbn. rewrite !list_lookup_fmap.
    destruct (decide (j = i)) as [->|Hne]; [|by rewrite list_lookup_alter_ne]. rewrite list_lookup_alter_eq.
    rewrite <- Et, list_lookup_fmap in Hcol. destruct (columns d !! i) as [c|] eqn:Ei; [|done]. cbn in *. injection Hcol as <-. f_equal.
    unfold set_cell. rewrite map_map. apply map_ext_in. intros r Hr'%list_elem_of_In. destruct (Z.eqb_spec r.1 id) as [E|]; [|done].
    unfold text_of. cbn. rewrite Ht, E. f_equal.
    assert (NoDup (map fst (map text_of c))) as Hn.
    { rewrite Forall_forall in text_ids. apply text_ids. rewrite <- Et. apply list_elem_of_fmap_2. by apply list_elem_of_lookup_2 in Ei. }
    apply (entry_unique (map text_of c) id); [done..|]. rewrite <- E. by apply (list_elem_of_fmap_2 text_of).
  - cbn. apply Forall_alter; [done|]. intros c _ Hc. unfold set_cell. apply Forall_map. eapply Forall_impl; [exact Hc|]. intros r H.
    cbn. destruct (r.1 =? id); [by intros s' [= <-]|done].
Qed.

Lemma set_config_holds id c c' d :
  config_ok (id, c) → open_config ks c' = open_config ks c → Forall resealable (sensitive_strings c') → hold d →
  hold (mkSecrets (columns d) (set_event id c' (configs d))).
Proof.
  intros [Hc Hin] Eo Hr ((Et & Ec) & Ht & Hs). split; [split; [done|]|split; [done|]]; cbn.
  - rewrite <- Ec at 1. unfold set_event. rewrite map_map. apply map_ext_in. intros r Hr'%list_elem_of_In. destruct (Z.eqb_spec r.1 id) as [E|]; [|done].
    unfold setting_of. cbn. rewrite Eo, E. f_equal. apply (entry_unique settings id); [done| |].
    + exact Hin.
    + rewrite <- Ec, <- E. by apply (list_elem_of_fmap_2 setting_of).
  - apply Forall_map. eapply Forall_impl; [exact Hs|]. intros r H. by destruct (r.1 =? id).
Qed.

Definition holding (v v' : Secrets * list JobEvent) : Prop := hold v.1 → hold v'.1.

#[local] Instance holding_preorder : PreOrder holding.
Proof. split; [intros v H; exact H|intros a b c H1 H2 H; by apply H2, H1]. Qed.

Lemma reseal_rows_holds i rows : Forall (cell_ok i) rows → ∀ n, preserves holding (reseal_rows nonce ks pg i rows n).
Proof.
  induction 1 as [|[id s] rows Hr _ IH]; intros n; [apply preserves_ret, _|].
  cbn. apply preserves_bind; [apply _|apply preserves_counter, _|]. intros m. destruct (reseal nonce ks m s) as [t|e] eqn:E.
  - apply preserves_bind; [apply _| |intros; apply IH]. apply preserves_execute; [apply _|]. intros _ d tr. unfold holding. cbn.
    destruct (reseal_opens m s t) as [H1 H2]; [apply Hr|done|]. by apply (set_cell_holds i id s).
  - apply preserves_bind; [apply _|apply preserves_call; intros ? ? ? H; exact H|intros; apply IH].
Qed.

Lemma reseal_configs_holds only_plaintext rows : Forall config_ok rows → ∀ n, preserves holding (reseal_configs nonce ks pg only_plaintext rows n).
Proof.
  induction 1 as [|[id c] rows Hr _ IH]; intros n; [apply preserves_ret, _|].
  cbn. apply preserves_bind; [apply _|apply preserves_counter, _|]. intros m.
  destruct (if only_plaintext then _ else _) as [t|e] eqn:E; [destruct (value_eq t c); [apply IH|]|].
  - apply preserves_bind; [apply _| |intros; apply IH]. apply preserves_execute; [apply _|]. intros _ d tr. unfold holding. cbn.
    destruct (resealed_config only_plaintext m c t) as [H1 H2]; [apply Hr|done|]. by apply (set_config_holds id c).
  - apply preserves_bind; [apply _|apply preserves_call; intros ? ? ? H; exact H|intros; apply IH].
Qed.

Lemma secret_page_in only_plaintext last_id limit col r :
  r ∈ secret_page only_plaintext last_id limit col → (r.1, Some r.2) ∈ col ∧ last_id < r.1.
Proof.
  intros H. unfold secret_page in H. eapply elem_of_sublist in H; [|apply sublist_take]. rewrite sort_by_permutation in H.
  apply list_elem_of_omap in H as ([j [s|]] & Hj & H); [|done]. cbn in H. destruct (negb _ && _) eqn:E; [|done].
  apply andb_prop in E as [_ E%Z.ltb_lt]. by injection H as <-.
Qed.

Lemma config_page_in last_id limit rows r : r ∈ config_page last_id limit rows → r ∈ rows ∧ last_id < r.1.
Proof.
  intros H. unfold config_page in H. eapply elem_of_sublist in H; [|apply sublist_take]. rewrite sort_by_permutation in H.
  apply list_elem_of_In, filter_In in H as [H1 H2%Z.ltb_lt]. by rewrite list_elem_of_In.
Qed.

Lemma cells_ok only_plaintext i last_id limit d :
  hold d → Forall (cell_ok i) (secret_page only_plaintext last_id limit (default [] (columns d !! i))).
Proof.
  intros ((Et & _) & Ht & _). apply Forall_forall. intros r [Hr _]%secret_page_in. destruct (columns d !! i) as [c|] eqn:Ei; [|by apply elem_of_nil in Hr].
  cbn in Hr. split.
  - rewrite Forall_forall in Ht. specialize (Ht c (list_elem_of_lookup_2 _ _ _ Ei)). rewrite Forall_forall in Ht. by apply (Ht _ Hr).
  - exists (map text_of c). rewrite <- Et, list_lookup_fmap, Ei. split; [done|]. by apply (list_elem_of_fmap_2 text_of _ (r.1, Some r.2)).
Qed.

Lemma configs_ok last_id limit d : hold d → Forall config_ok (config_page last_id limit (configs d)).
Proof.
  intros ((_ & Ec) & _ & Hc). apply Forall_forall. intros r [Hr _]%config_page_in. split.
  - rewrite Forall_forall in Hc. by apply Hc.
  - rewrite <- Ec. by apply (list_elem_of_fmap_2 setting_of).
Qed.

(** The ids of a table that lie after [last_id]: the fuel of its batches. *)
Definition ids_left {A} (last_id : Z) (l : list (Z * A)) : nat := length (List.filter (λ r, last_id <? r.1) l).

Lemma ids_left_le {A} last_id (l : list (Z * A)) : (ids_left last_id l ≤ length l)%nat.
Proof. apply List.filter_length_le. Qed.

Lemma ids_left_shrinks {A} last_id id (x : A) l : (id, x) ∈ l → last_id < id → (ids_left id l < ids_left last_id l)%nat.
Proof.
  intros Hin Hlt. apply (filter_shrinks _ _ _ (id, x)); [|done|cbn; by apply Z.ltb_lt|cbn; apply Z.ltb_irrefl].
  intros y H%Z.ltb_lt. apply Z.ltb_lt. lia.
Qed.

(** A run that keeps the credentials, and ends if there is fuel. *)
Definition finishes (enough : Prop) (r : result (option Z) string * St Secrets JobEvent) : Prop := hold (db r.2) ∧ (enough → r.1 ≠ Ok None).

Lemma rewrite_column_finishes batch_size only_plaintext i fuel : ∀ last_id n s, hold (db s) →
  finishes (ids_left last_id (default [] (texts !! i)) < fuel)%nat (rewrite_column nonce ks pg fuel batch_size only_plaintext i last_id n s).
Proof.
  induction fuel as [|fuel IH]; intros last_id n s Hs; [split; [done|lia]|].
  cbn [rewrite_column]. unfold mbind at 1, M_bind at 1, query, stmt. destruct (db_fault pg (ops s)); [by split|]. cbv beta iota.
  set (s1 := mkSt _ _ _). pose proof (cells_ok only_plaintext i last_id batch_size (db s) Hs) as Hp. set (rows := secret_page _ _ _ _) in *.
  destruct (last rows) as [[id t]|] eqn:El; [|by split]. unfold mbind, M_bind.
  pose proof (reseal_rows_holds i rows Hp n s1 Hs) as H1. destruct (reseal_rows nonce ks pg i rows n s1) as [[k|e] s2]; [|by split].
  destruct (IH id k s2 H1) as [H2 H3]. split; [done|]. intros Hf. apply H3.
  apply last_Some_elem_of in El. rewrite Forall_forall in Hp. destruct (Hp _ El) as (_ & col & Hcol & Hin). apply secret_page_in in El as [_ Hlt].
  rewrite Hcol in *. change (default [] (Some col)) with col in *. pose proof (ids_left_shrinks last_id id _ col Hin Hlt). lia.
Qed.

Lemma rewrite_columns_finishes fuel batch_size only_plaintext cols : ∀ n s, hold (db s) →
  finishes (Forall (λ col, (length col < fuel)%nat) texts ∧ (0 < fuel)%nat) (rewrite_columns nonce ks pg fuel batch_size only_plaintext cols n s).
Proof.
  induction cols as [|i cols IH]; intros n s Hs; [by split|]. cbn [rewrite_columns]. unfold mbind, M_bind.
  destruct (rewrite_column_finishes batch_size only_plaintext i fuel 0 n s Hs) as [H1 H2].
  destruct (rewrite_column _ _ _ _ _ _ _ _ _ s) as [[[k|]|e] s2]; [by apply IH| |by split].
  split; [done|]. intros [Hf H0]. exfalso. apply H2; [|done]. rewrite Forall_forall in Hf. destruct (texts !! i) as [col|] eqn:Ei; [|done].
  change (default [] (Some col)) with col. pose proof (ids_left_le 0 col) as H3. pose proof (Hf col (list_elem_of_lookup_2 _ _ _ Ei)) as H4. cbv beta in H4. lia.
Qed.

Lemma rewrite_configs_finishes batch_size only_plaintext fuel : ∀ last_id n s, hold (db s) →
  finishes (ids_left last_id settings < fuel)%nat (rewrite_configs nonce ks pg fuel batch_size only_plaintext last_id n s).
Proof.
  induction fuel as [|fuel IH]; intros last_id n s Hs; [split; [done|lia]|].
  cbn [rewrite_configs]. unfold mbind at 1, M_bind at 1, query, stmt. destruct (db_fault pg (ops s)); [by split|]. cbv beta iota.
  set (s1 := mkSt _ _ _). pose proof (configs_ok last_id batch_size (db s) Hs) as Hp. set (rows := config_page _ _ _) in *.
  destruct (last rows) as [[id t]|] eqn:El; [|by split]. unfold mbind, M_bind.
  pose proof (reseal_configs_holds only_plaintext rows Hp n s1 Hs) as H1. destruct (reseal_configs nonce ks pg only_plaintext rows n s1) as [[k|e] s2]; [|by split].
  destruct (IH id k s2 H1) as [H2 H3]. split; [done|]. intros Hf. apply H3.
  apply last_Some_elem_of in El. rewrite Forall_forall in Hp. destruct (Hp _ El) as (_ & Hin). apply config_page_in in El as [_ Hlt].
  pose proof (ids_left_shrinks last_id id _ settings Hin Hlt). lia.
Qed.

(** C40. The backfill and the re-encryption of the integration credentials,
    whatever fails: each text and each channel's configuration opens to what it
    opened to before, and with as much fuel as the largest table has rows the
    run ends. *)
Theorem rewriting_keeps_secrets fuel batch_size only_plaintext s :
  hold (db s) → Forall (λ col, (length col < fuel)%nat) texts → (length settings < fuel)%nat →
  let r := rewrite_all nonce ks pg fuel batch_size only_plaintext s in
  r.1 ≠ Ok None ∧ map (map text_of) (columns (db r.2)) = texts ∧ map setting_of (configs (db r.2)) = settings.
Proof.
  intros Hs Ht Hc r. enough (finishes True r) as [[[H1 H2] _] H3] by (split; [by apply H3|done]).
  unfold r, rewrite_all. destruct (negb (is_configured ks)); [by split|]. unfold mbind, M_bind.
  destruct (rewrite_columns_finishes fuel batch_size only_plaintext (seq 0 (length CREDENTIAL_COLUMNS)) 0 s Hs) as [H1 H2].
  destruct (rewrite_columns _ _ _ _ _ _ _ _ s) as [[[k|]|e] s2]; [|split; [done|]; intros _; apply H2; split; [done|lia]|by split].
  destruct (rewrite_configs_finishes batch_size only_plaintext fuel 0 k s2 H1) as [H3 H4]. split; [done|]. intros _. apply H4.
  pose proof (ids_left_le 0 settings). lia.
Qed.
End Stored.

(** ** A codec for examples: the key before the text *)

Section Toy.
Local Open Scope string_scope.

Definition toy_nonce : string := "nonce-12-chr".

Fixpoint enc_pos (p : positive) : string :=
  match p with xH => "h" | xO p => String "0" (enc_pos p) | xI p => String "1" (enc_pos p) end.

Definition enc_Z (z : Z) : string := match z with Z0 => "z" | Zpos p => String "+" (enc_pos p) | Zneg p => String "-" (enc_pos p) end.

Fixpoint dec_pos (s : string) : option (positive * string) :=
  match s with
  | String "h" r => Some (xH, r)
  | String "0" r => match dec_pos r with Some (p, r) => Some (xO p, r) | None => None end
  | String "1" r => match dec_pos r with Some (p, r) => Some (xI p, r) | None => None end
  | _ => None
  end.

Definition dec_Z (s : string) : option (Z * string) :=
  match s with
  | String "z" r => Some (0, r)
  | String "+" r => match dec_pos r with Some (p, r) => Some (Zpos p, r) | None => None end
  | String "-" r => match dec_pos r with Some (p, r) => Some (Zneg p, r) | None => None end
  | _ => None
  end%Z.

Lemma dec_enc_pos p r : dec_pos (enc_pos p +:+ r) = Some (p, r).
Proof. induction p as [p IH|p IH|]; [| |done]; change (dec_pos _) with (match dec_pos (enc_pos p +:+ r) with Some (p, r) => Some (xI p, r) | None => None end)
  || change (dec_pos _) with (match dec_pos (enc_pos p +:+ r) with Some (p, r) => Some (xO p, r) | None => None end); by rewrite IH. Qed.

Lemma dec_enc_Z z r : dec_Z (enc_Z z +:+ r) = Some (z, r).
Proof.
  destruct z as [|p|p]; [done|..];
    [change (dec_Z _) with (match dec_pos (enc_pos p +:+ r) with Some (p, r) => Some (Zpos p, r) | None => None end)
    |change (dec_Z _) with (match dec_pos (enc_pos p +:+ r) with Some (p, r) => Some (Zneg p, r) | None => None end)]; by rewrite dec_enc_pos.
Qed.

Definition toy_object (version : Z) (data : string) : Value :=
  Object [("data", VString data); ("encrypted", Bool true); ("key_version", Number (PosInt version)); ("nonce", VString toy_nonce)].

#[local] Instance toy : Codec ascii := {
  aead_seal k _ p := String k p;
  aead_open k _ c := match c with String k' p => if Ascii.eqb k k' then Some p else None | EmptyString => None end;
  b64_encode s := s;
  b64_decode s := Ok s;
  to_vec v := match v with
              | VString s => String "s" s
              | Object [(_, VString d); _; (_, Number (PosInt k)); _] => String "e" (enc_Z k +:+ d)
              | _ => ""
              end;
  from_slice s := match s with
                  | String "s" r => Ok (VString r)
                  | String "e" r => match dec_Z r with Some (k, d) => Ok (toy_object k d) | None => Err "expected value" end
                  | _ => Err "expected value"
                  end;
  utf8 _ := true;
}.

Definition toy_printable (v : Value) : Prop := (∃ s, v = VString s) ∨ ∃ k d, v = toy_object k d.

#[local] Instance toy_laws : CodecLaws toy toy_printable.
Proof.
  split.
  - intros k n p. cbn. by rewrite Ascii.eqb_refl.
  - intros k k' n p H. cbn. destruct (Ascii.eqb_spec k' k); congruence.
  - done.
  - intros v [[s ->]|(k & d & ->)]; [done|]. cbn. by rewrite dec_enc_Z.
Qed.

Definition toy_pg : PgEnv := mkPgEnv (λ _, 0%Z) (λ _, None).

(** Two credentials, of which the first run had rotated one. *)
Definition toy_content (i : Z) : option Value := if (i =? 1)%Z then Some (VString "alpha") else if (i =? 2)%Z then Some (VString "beta") else None.

Definition interrupted : Db :=
  mkDb [mkCredential 1 (Some (inner_encrypt "b"%char 1 toy_nonce (VString "alpha"))); mkCredential 2 (Some (inner_encrypt "a"%char 1 toy_nonce (VString "beta")))]
       (Some (mkCheckpoint (Some 1%Z) 2 1 false)).

(** One is under the old key, the other not encrypted yet. *)
Definition untouched : Db :=
  mkDb [mkCredential 1 (Some (inner_encrypt "a"%char 1 toy_nonce (VString "alpha"))); mkCredential 2 (Some (VString "beta"))] None.

Lemma untouched_readable : readable (printable := toy_printable) true "a"%char "b"%char toy_content untouched.
Proof.
  split; [repeat constructor; set_solver|].
  intros c [->|[->|[]%elem_of_nil]%elem_of_cons]%elem_of_cons; eexists; (split; [reflexivity|]).
  - right; left. exists 1%Z, toy_nonce. split; [done|]. split; [left; by eexists|done].
  - left. split; [done|]. split; [left; by eexists|done].
Qed.

(** The sixth operation fails: the first batch is rolled back. *)
Definition toy_pg_faulty : PgEnv := mkPgEnv (λ _, 0%Z) (λ n, if (n =? 6)%nat then Some "connection closed"%string else None).

Lemma rotation_keeps_credentials_witness :
  let r := run_again true (λ _, toy_nonce) toy_pg_faulty 1 "a"%char "b"%char 3 1 (mkSt untouched 0 []) in
  (is_ok (run_again true (λ _, toy_nonce) toy_pg_faulty 1 "a"%char "b"%char 3 0 (mkSt untouched 0 [])).1 = false ∧ r.1 = Ok (Some 2%Z)) ∧
  (∀ c e, c ∈ credentials (db r.2) → encrypted_data c = Some e →
     ∃ v, toy_content (c_id c) = Some v ∧ decrypt true "b"%char None e = Ok v ∧ is_ok (decrypt true "a"%char None e) = false) ∧
  let stub := run_again false (λ _, toy_nonce) toy_pg 1 "a"%char "b"%char 3 0 (mkSt (mkDb [mkCredential 1 (Some (VString "alpha"))] None) 0 []) in
  credentials (db stub.2) = [mkCredential 1 (Some (VString "alpha"))].
Proof.
  intros r. assert (r.1 = Ok (Some 2%Z)) as E by reflexivity. split; [split; [reflexivity|exact E]|]. split.
  - intros c e Hc He.
    pose proof (rotation_keeps_credentials true (λ _, toy_nonce) toy_pg_faulty 1 "a"%char "b"%char toy_content 3 1 (mkSt untouched 0 [])
      (λ _, eq_refl) ltac:(done) untouched_readable I ltac:(cbn; lia)) as (_ & _ & _ & H).
    cbv iota in H. fold r in H. exact (H 2%Z c e E Hc He).
  - clear r E. refine (proj2 (proj2 (proj2 (rotation_keeps_credentials (printable := toy_printable) false (λ _, toy_nonce) toy_pg 1 "a"%char "b"%char
      toy_content 3 0 (mkSt (mkDb [mkCredential 1 (Some (VString "alpha"))] None) 0 []) (λ _, eq_refl) ltac:(done) _ I ltac:(cbn; lia))))).
    split; [repeat constructor; set_solver|]. intros c [->|[]%elem_of_nil]%elem_of_cons. by eexists.
Defined.

(** In a build without the feature the check that follows a rotation says that
    the old key still opens the credentials. *)
Lemma stub_rotation_not_verified :
  let d := mkDb [mkCredential 1 (Some (VString "alpha"))] None in
  let r := rotate_credentials false (λ _, toy_nonce) toy_pg 1 3 "a"%char "b"%char (mkSt d 0 []) in
  r.1 = Ok (Some 1%Z) ∧ credentials (db r.2) = credentials d ∧ (verify_old_key_rejected false toy_pg "a"%char r.2).1 = Ok false.
Proof. vm_compute. auto. Qed.

(** Resumed with another new key, the run passes the credentials over that the
    first one had rotated, and says that it is done. *)
Lemma resumed_with_another_key :
  let r := rotate_credentials true (λ _, toy_nonce) toy_pg 1 3 "a"%char "c"%char (mkSt interrupted 0 []) in
  r.1 = Ok (Some 1%Z) ∧ (verify_old_key_rejected true toy_pg "a"%char r.2).1 = Ok true ∧
  map (λ c, option_map (λ e, is_ok (decrypt true "c"%char (Some "a"%char) e)) (encrypted_data c)) (credentials (db r.2)) = [Some false; Some true].
Proof. vm_compute. auto. Qed.

Lemma toy_sealable p : sealable (printable := toy_printable) (λ _, toy_nonce) p.
Proof. split; [done|]. intros k v n. right. by exists v, (String k p). Qed.

Lemma event_job_keeps_events_witness :
  let rows := [(1%Z, inner_encrypt "a"%char 1 toy_nonce (VString "alpha")); (2%Z, VString "beta")] in
  let r := run_reencrypt_job true (λ _, toy_nonce) toy_pg 1 3 "b"%char "a"%char 10 (mkSt rows 0 []) in
  ∀ row, row ∈ db r.2 → ∃ v, toy_content row.1 = Some v ∧ decrypt true "b"%char (Some "a"%char) row.2 = Ok v.
Proof.
  intros rows r. eapply (event_job_keeps_events (printable := toy_printable) true (λ _, toy_nonce) toy_pg 1 "a"%char "b"%char (λ _, eq_refl) toy_content 3 10 (mkSt rows 0 [])); [|lia|cbn; lia].
  repeat constructor.
  - exists (VString "alpha"). split; [done|]. right; left. exists 1%Z, toy_nonce. split; [done|]. split; [|done]. left. by exists "alpha".
  - exists (VString "beta"). split; [done|]. left. split; [done|]. split; [|done]. left. by exists "beta".
Defined.

(** Keys after a rotation; a plain token and one under the old key; a channel. *)
Definition toy_keys : option (Keys (Key := ascii)) := Some (mkKeys "b"%char (Some "a"%char) 2).

Definition toy_secrets : Secrets :=
  mkSecrets [[(1%Z, Some "plain-token"); (2%Z, Some (encrypt_secret "a"%char 1 toy_nonce "old-token")); (3%Z, None)]]
            [(1%Z, Object [("auth_token", VString "twilio"); ("url", VString "https://example.com")])].

Lemma toy_hold :
  hold (printable := toy_printable) (λ _, toy_nonce) toy_keys (map (map (text_of toy_keys)) (columns toy_secrets)) (map (setting_of toy_keys) (configs toy_secrets)) toy_secrets.
Proof. split; [done|]. split; apply Forall_forall; intros x _; apply Forall_forall; intros y _; [intros s _|]; intros p _; apply toy_sealable. Qed.

Lemma rewriting_keeps_secrets_witness :
  let r := rewrite_all (λ _, toy_nonce) toy_keys toy_pg 4 2 false (mkSt toy_secrets 0 []) in
  r.1 = Ok (Some 3%Z) ∧ map (map (text_of toy_keys)) (columns (db r.2)) = [[(1%Z, Some (Ok "plain-token")); (2%Z, Some (Ok "old-token")); (3%Z, None)]].
Proof.
  intros r. split; [reflexivity|].
  apply (rewriting_keeps_secrets (printable := toy_printable) (λ _, toy_nonce) (λ _, eq_refl) toy_keys toy_pg
           (map (map (text_of toy_keys)) (columns toy_secrets)) (map (setting_of toy_keys) (configs toy_secrets))
           ltac:(cbn; repeat constructor; set_solver) ltac:(cbn; repeat constructor; set_solver) 4 2 false (mkSt toy_secrets 0 [])
           toy_hold ltac:(repeat constructor; cbn; lia) ltac:(cbn; lia)).
Defined.

Lemma seal_open_config_witness :
  let config := Object [("auth_token", VString "twilio"); ("nested", Object [("API_KEY", VString "k")]); ("url", VString "u")] in
  ∃ sealed, seal_config (λ _, toy_nonce) toy_keys 0 config = Ok sealed ∧ open_config toy_keys sealed = Ok config.
Proof.
  intros config. eexists. split; [reflexivity|].
  apply (seal_open_config (printable := toy_printable) (λ _, toy_nonce) (λ _, eq_refl) toy_keys 0); [|reflexivity].
  replace (sensitive_strings config) with ["twilio"; "k"] by (by vm_compute). repeat (apply List.Forall_cons || apply List.Forall_nil); (split; [done|apply toy_sealable]).
Defined.

(** The last report of the job over one event in pages of ten. *)
Lemma remaining_wraps :
  trace (run_reencrypt_job true (λ _, toy_nonce) toy_pg 1 2 "b"%char "a"%char 10 (mkSt [(1%Z, inner_encrypt "a"%char 1 toy_nonce (VString "x"))] 0 [])).2
  = [Remaining 1; Remaining 18446744073709551607].
Proof. reflexivity. Qed.
End Toy.
End Encryption.
