(* ===== verification/Caches.v ===== *)
(** The caches: serialized payloads with versioned keys (serialization_cache.rs,
    handlers_cache.rs, serialization_cache_integration.rs), query results
    (query_cache.rs) and query plans (query_plan_cache.rs).

    The moka crate is an interface with its laws: an entry that is found was
    inserted under its key, has not been invalidated or replaced since, and has
    not outlived its time; entries may disappear at any time. *)

From S2P Require Import Prelude F64 Text Model ApiParams Pg.

Module Caches.

(** ** The moka crate *)

Class Moka (C V : Type) : Type := {
  cempty : C;
  cget : Z → string → C → option V * C;          (* now *)
  cinsert : Z → Z → string → V → C → C;          (* now, time to live *)
  cinvalidate : string → C → C;
  cinvalidate_all : C → C;
  run_pending_tasks : Z → C → C;
  entry_count : C → Z;
}.

(** [holds c k v e]: the cache may answer [v] for [k] until [e]. *)
Class MokaLaws {C V} (M : Moka C V) (holds : C → string → V → Z → Prop) : Prop := {
  empty_holds k v e : ¬ holds cempty k v e;
  get_hit now k c v : (cget now k c).1 = Some v → ∃ e, holds c k v e ∧ now < e;
  get_holds now k c k' v e : holds (cget now k c).2 k' v e → holds c k' v e;
  insert_holds now ttl k v c k' v' e : holds (cinsert now ttl k v c) k' v' e → (k' = k ∧ v' = v ∧ e = now + ttl) ∨ (k' ≠ k ∧ holds c k' v' e);
  invalidate_holds k c k' v e : holds (cinvalidate k c) k' v e → k' ≠ k ∧ holds c k' v e;
  invalidate_all_holds c k v e : ¬ holds (cinvalidate_all c) k v e;
  pending_holds now c k v e : holds (run_pending_tasks now c) k v e → holds c k v e;
}.

(** ** Serialized payloads (serialization_cache.rs) *)

Definition DEFAULT_MAX_CAPACITY : Z := 10000.
Definition DEFAULT_TTL_SECS : Z := 300.
Definition DEFAULT_ENTITY_TYPE : string := "event".

Record Counters : Type := mkCounters {
  total_serializations : Z;
  cache_hits : Z;
  cache_misses : Z;
  total_serialization_time_us : Z;
  invalidations : Z;
  prewarmed_entries : Z;
  bytes_served_from_cache : Z;
  bytes_serialized : Z;
}.

Definition no_counts : Counters := mkCounters 0 0 0 0 0 0 0 0.

Definition hit_rate (c : Counters) : f64 :=
  if cache_hits c + cache_misses c =? 0 then F64.of_Z 0 else F64.div (F64.of_Z (cache_hits c)) (F64.of_Z (cache_hits c + cache_misses c)).

Definition avg_serialization_time_us (c : Counters) : f64 :=
  if total_serializations c =? 0 then F64.of_Z 0 else F64.div (F64.of_Z (total_serialization_time_us c)) (F64.of_Z (total_serializations c)).

Definition estimated_time_saved_us (c : Counters) : f64 := F64.mul (avg_serialization_time_us c) (F64.of_Z (cache_hits c)).

Section Serialized.
Context {C : Type} `{!Moka C string}.

Record SerializedEventCache : Type := mkCache {
  cache : C;
  counters : Counters;
  global_version : Z;
  entity_versions : gmap string Z;
  ttl_secs : Z;
}.

Definition new_cache (ttl_secs : Z) : SerializedEventCache := mkCache cempty no_counts 0 ∅ ttl_secs.

Definition with_cache (c : C) (s : SerializedEventCache) : SerializedEventCache :=
  mkCache c (counters s) (global_version s) (entity_versions s) (ttl_secs s).
Definition with_counters (k : Counters) (s : SerializedEventCache) : SerializedEventCache :=
  mkCache (cache s) k (global_version s) (entity_versions s) (ttl_secs s).

Definition entity_version (entity_type : string) (s : SerializedEventCache) : Z := default 0 (entity_versions s !! entity_type).

Definition key_of (global : Z) (entity_type : string) (version : Z) (id : string) : string :=
  "v" +:+ show_u global +:+ ":" +:+ entity_type +:+ ":" +:+ "e" +:+ show_u version +:+ ":" +:+ id.

Definition versioned_key (entity_type id : string) (s : SerializedEventCache) : string :=
  key_of (global_version s) entity_type (entity_version entity_type s) id.

(** The segment of a key between its first two colons. *)
Definition entity_type_of (key : string) : string :=
  match nth_error (split_on ":" key) 1 with Some seg => if is_empty seg then "unknown" else seg | None => "unknown" end.

Definition str_len (s : string) : Z := Z.of_nat (String.length s).

Definition add64 (x y : Z) : Z := wrap_u 64 (x + y).

Definition count_hit (len : Z) (k : Counters) : Counters :=
  mkCounters (total_serializations k) (add64 (cache_hits k) 1) (cache_misses k) (total_serialization_time_us k) (invalidations k)
    (prewarmed_entries k) (add64 (bytes_served_from_cache k) len) (bytes_serialized k).
Definition count_miss (duration len : Z) (k : Counters) : Counters :=
  mkCounters (add64 (total_serializations k) 1) (cache_hits k) (add64 (cache_misses k) 1) (add64 (total_serialization_time_us k) duration)
    (invalidations k) (prewarmed_entries k) (bytes_served_from_cache k) (add64 (bytes_serialized k) len).
Definition count_warm (duration len : Z) (k : Counters) : Counters :=
  mkCounters (add64 (total_serializations k) 1) (cache_hits k) (cache_misses k) (add64 (total_serialization_time_us k) duration)
    (invalidations k) (prewarmed_entries k) (bytes_served_from_cache k) (add64 (bytes_serialized k) len).
Definition count_prewarmed (n : Z) (k : Counters) : Counters :=
  mkCounters (total_serializations k) (cache_hits k) (cache_misses k) (total_serialization_time_us k) (invalidations k)
    (add64 (prewarmed_entries k) n) (bytes_served_from_cache k) (bytes_serialized k).
Definition count_invalidation (k : Counters) : Counters :=
  mkCounters (total_serializations k) (cache_hits k) (cache_misses k) (total_serialization_time_us k) (add64 (invalidations k) 1)
    (prewarmed_entries k) (bytes_served_from_cache k) (bytes_serialized k).

(** [duration]: what the serialization took, in microseconds. *)
Definition get_or_serialize_with_type (now duration : Z) (key : string) (value : Value) (fallback : Value → result string string)
    (s : SerializedEventCache) : result string string * SerializedEventCache :=
  let '(found, c) := cget now key (cache s) in
  let s := with_cache c s in
  match found with
  | Some cached => (Ok cached, with_counters (count_hit (str_len cached) (counters s)) s)
  | None =>
      match fallback value with
      | Err e => (Err e, s)
      | Ok serialized =>
          (Ok serialized, with_counters (count_miss duration (str_len serialized) (counters s))
                            (with_cache (cinsert now (ttl_secs s) key serialized (cache s)) s))
      end
  end.

(** The key as it is given. *)
Definition get_or_serialize := get_or_serialize_with_type.

Definition get_or_serialize_entity (now duration : Z) (entity_type id : string) (value : Value) (fallback : Value → result string string)
    (s : SerializedEventCache) : result string string * SerializedEventCache :=
  get_or_serialize_with_type now duration (versioned_key entity_type id s) value fallback s.

Definition peek (now : Z) (entity_type id : string) (s : SerializedEventCache) : option string * SerializedEventCache :=
  let '(found, c) := cget now (versioned_key entity_type id s) (cache s) in (found, with_cache c s).

(** serde_json's [to_vec]. *)
Variable to_vec : Value → result string string.

Fixpoint prewarm_entries (now duration : Z) (entity_type : string) (entries : list (string * Value)) (inserted : Z)
    (s : SerializedEventCache) : Z * SerializedEventCache :=
  match entries with
  | [] => (inserted, s)
  | (id, value) :: rest =>
      let key := versioned_key entity_type id s in
      let '(found, c) := cget now key (cache s) in
      let s := with_cache c s in
      match found with
      | Some _ => prewarm_entries now duration entity_type rest inserted s
      | None =>
          match to_vec value with
          | Err _ => prewarm_entries now duration entity_type rest inserted s
          | Ok serialized =>
              prewarm_entries now duration entity_type rest (inserted + 1)
                (with_counters (count_warm duration (str_len serialized) (counters s)) (with_cache (cinsert now (ttl_secs s) key serialized (cache s)) s))
          end
      end
  end.

Definition prewarm (now duration : Z) (entity_type : string) (entries : list (string * Value)) (s : SerializedEventCache) : Z * SerializedEventCache :=
  let '(n, s) := prewarm_entries now duration entity_type entries 0 s in (n, with_counters (count_prewarmed n (counters s)) s).

Definition invalidate (entity_type id : string) (s : SerializedEventCache) : SerializedEventCache :=
  with_counters (count_invalidation (counters s)) (with_cache (cinvalidate (versioned_key entity_type id s) (cache s)) s).

Definition invalidate_entity_type (entity_type : string) (s : SerializedEventCache) : Z * SerializedEventCache :=
  let version := match entity_versions s !! entity_type with Some v => v + 1 | None => 1 end in
  (version, mkCache (cache s) (count_invalidation (counters s)) (global_version s) (<[entity_type := version]> (entity_versions s)) (ttl_secs s)).

Definition invalidate_all (now : Z) (s : SerializedEventCache) : Z * SerializedEventCache :=
  let version := add64 (global_version s) 1 in
  (global_version s + 1,
   mkCache (run_pending_tasks now (cinvalidate_all (cache s))) (count_invalidation (counters s)) version (entity_versions s) (ttl_secs s)).

Definition clear (now : Z) (s : SerializedEventCache) : SerializedEventCache :=
  with_counters no_counts (with_cache (run_pending_tasks now (cinvalidate_all (cache s))) s).

(** ** Its users *)

Definition event_cache_key (contract_id event_type : option string) (page limit : Z) : string :=
  "events:" +:+ default "*" contract_id +:+ ":" +:+ default "*" event_type +:+ ":" +:+ show_i page +:+ ":" +:+ show_i limit.

Definition event_entity_type (contract_id : option string) : string := "event:" +:+ default "*" contract_id.

Definition get_or_serialize_events (now duration : Z) (contract_id event_type : option string) (page limit : Z) (value : Value)
    (s : SerializedEventCache) : result string string * SerializedEventCache :=
  get_or_serialize_entity now duration (event_entity_type contract_id) (event_cache_key contract_id event_type page limit) value to_vec s.

Definition cache_or_serialize_event_list (now duration : Z) (events : list Value) (next_cursor : option string) (limit : Z)
    (contract_id event_type : option string) (page : Z) (s : SerializedEventCache) : result string string * SerializedEventCache :=
  let response := Object [("data", Array events); ("limit", Number (if (limit <? 0)%Z then NegInt limit else PosInt limit));
                          ("next_cursor", match next_cursor with Some c => VString c | None => Null end)]%string in
  let key := "events:resp:" +:+ default "*" contract_id +:+ ":" +:+ default "*" event_type +:+ ":" +:+ show_i page +:+ ":" +:+ show_i limit in
  get_or_serialize_entity now duration ("event_response:" +:+ default "*" contract_id) key response to_vec s.

Definition is_query_cacheable (has_cursor : bool) (contract_ids_count : nat) (has_search has_anonymized_filter has_geospatial_filter has_exclude_filter : bool) : bool :=
  has_cursor && Nat.eqb contract_ids_count 0 && negb has_search && negb has_anonymized_filter && negb has_geospatial_filter && negb has_exclude_filter.

Definition estimate_page_number (cursor : option string) (limit : Z) : Z := match cursor with None => 1 | Some _ => 2 end.

(** The task of routes.rs that follows the channel of new events. *)
Inductive Recv : Type := Received (contract_id : string) | Lagged (n : Z) | Closed.

Fixpoint invalidation_task {K V} `{!Moka K V} (received : list Recv) (counts : K) (s : SerializedEventCache) : K * SerializedEventCache :=
  match received with
  | Received c :: rest => invalidation_task rest (cinvalidate c counts) (invalidate_entity_type ("event:" +:+ c) s).2
  | _ => (counts, s)
  end.
End Serialized.

(** ** Query results (query_cache.rs) *)

Definition MIN_TTL_SECS : Z := 300.
Definition MAX_TTL_SECS : Z := 3600.
Definition clamp_ttl (secs : Z) : Z := Z.max MIN_TTL_SECS (Z.min MAX_TTL_SECS secs).

Definition query_type_label (key : string) : string := default key (head (split_on ":" key)).

Inductive InvalidationTrigger : Type := EventIngestion | TenantProvisioning | ConfigUpdate | Manual.

(** [CacheInvalidator]: a set of keys. *)
Definition register_pattern (p : string) (s : gset string) : gset string := {[p]} ∪ s.
Definition invalidate_pattern (p : string) (s : gset string) : list string := filter (λ x, starts_with p x = true) (elements s).
Definition invalidate_by_trigger (trigger : InvalidationTrigger) (affected : list string) (s : gset string) : gset string :=
  foldl (λ s k, s ∖ {[k]}) s affected.

Section EventCounts.
Context {C : Type} `{!Moka C Value}.

(** A row of the view [mv_contract_event_counts]. *)
Record CountRow : Type := mkCountRow {
  contract_id : string;
  event_type : string;
  event_day : Z;
  event_count : Z;
  unique_tx_count : Z;
  last_event_at : Z;
}.

Variable pg : PgEnv.
(** chrono's formats, and the time to live of the cache in the unit of the clock. *)
Variables (format_day to_rfc3339 : Z → string) (ttl : Z).

Local Abbreviation M := (Pg.M (list CountRow) Empty_set AppError).

Definition count_json (n : Z) : Value := Number (if n <? 0 then NegInt n else PosInt n).

Definition counts_of (c : string) (rows : list CountRow) : list CountRow :=
  take 90 (sort_by (flip_cmp (cmp_on event_day Z.compare)) (List.filter (λ r, String.eqb (contract_id r) c) rows)).

Definition count_entry (r : CountRow) : Value :=
  Object [("event_count", count_json (event_count r)); ("event_day", VString (format_day (event_day r)));
          ("event_type", VString (event_type r)); ("last_event_at", VString (to_rfc3339 (last_event_at r)));
          ("unique_tx_count", count_json (unique_tx_count r))]%string.

Definition get_contract_event_counts (c : string) (cache : C) : M (Value * C) :=
  of_result (ApiParams.validate_contract_id c) ;;
  let key := "contract_event_counts:" +:+ c in
  now ← clock pg;
  let '(found, cache) := cget now key cache in
  match found with
  | Some v => mret (v, cache)
  | None =>
      rows ← query pg (λ _, counts_of c);
      now ← clock pg;
      let v := Object [("cached_at", VString (to_rfc3339 now)); ("contract_id", VString c); ("counts", Array (map count_entry rows))]%string in
      mret (v, cinsert now ttl key v cache)
  end.
End EventCounts.

(** ** Query plans (query_plan_cache.rs) *)

Definition DEFAULT_PLAN_CACHE_SIZE : Z := 1000.
Definition DEFAULT_PLAN_CACHE_TTL_SECS : Z := 3600.
Definition FREQ_MEDIUM : Z := 10.
Definition FREQ_HIGH : Z := 100.

Definition WARM_QUERIES : list string :=
  ["SELECT id, contract_id, event_type, tx_hash, ledger, timestamp, event_data, created_at FROM events ORDER BY ledger DESC LIMIT $1 OFFSET $2";
   "SELECT id, contract_id, event_type, tx_hash, ledger, timestamp, event_data, created_at FROM events WHERE contract_id = $1 ORDER BY ledger DESC LIMIT $2 OFFSET $3";
   "SELECT id, contract_id, event_type, tx_hash, ledger, timestamp, event_data, created_at FROM events WHERE tx_hash = $1 ORDER BY ledger DESC";
   "SELECT id, contract_id, event_type, tx_hash, ledger, timestamp, event_data, created_at FROM events WHERE ledger >= $1 AND ledger <= $2 ORDER BY ledger DESC LIMIT $3 OFFSET $4";
   "SELECT COUNT(*) FROM events"]%string.

Record QueryPlan : Type := mkPlan {
  p_query : string;
  plan_hash : string;
  estimated_cost : f64;
  estimated_rows : f64;
  actual_rows : option f64;
  planning_time_ms : f64;
  execution_time_ms : option f64;
}.

Definition safe_ratio (hits misses : Z) : f64 :=
  if hits + misses =? 0 then F64.of_Z 0 else F64.div (F64.of_Z hits) (F64.of_Z (hits + misses)).

Section Plans.
Context {C : Type} `{!Moka C QueryPlan}.

Record QueryPlanCache : Type := mkPlans {
  plans : C;
  base_ttl_secs : Z;
  frequency_map : gmap string Z;
  hit_count : Z;
  miss_count : Z;
  schema_version : Z;
  last_schema_change : option Z;
}.

Definition new_plans (ttl_secs : Z) : QueryPlanCache := mkPlans cempty ttl_secs ∅ 0 0 0 None.

Definition bump (q : string) (m : gmap string Z) : gmap string Z := <[q := match m !! q with Some n => n + 1 | None => 1 end]> m.

Definition get_plan (now : Z) (q : string) (s : QueryPlanCache) : option QueryPlan * QueryPlanCache :=
  let '(found, c) := cget now q (plans s) in
  let hit := match found with Some _ => 1 | None => 0 end in
  (found, mkPlans c (base_ttl_secs s) (bump q (frequency_map s)) (add64 (hit_count s) hit) (add64 (miss_count s) (1 - hit))
            (schema_version s) (last_schema_change s)).

Definition adaptive_ttl_secs (q : string) (s : QueryPlanCache) : Z :=
  let freq := default 0 (frequency_map s !! q) in
  if FREQ_HIGH <=? freq then base_ttl_secs s * 4 else if FREQ_MEDIUM <=? freq then base_ttl_secs s * 2 else base_ttl_secs s.

Definition with_plans (c : C) (s : QueryPlanCache) : QueryPlanCache :=
  mkPlans c (base_ttl_secs s) (frequency_map s) (hit_count s) (miss_count s) (schema_version s) (last_schema_change s).

Definition insert_plan (now : Z) (q : string) (p : QueryPlan) (s : QueryPlanCache) : QueryPlanCache :=
  with_plans (cinsert now (adaptive_ttl_secs q s) q p (plans s)) s.

(** serde_json's parser and the first eight hexadecimal digits of SHA-256. *)
Variables (parse_json : string → result Value string) (query_hash : string → string).

Definition value_index (v : Value) (i : nat) : option Value := match v with Array l => nth_error l i | _ => None end.

Definition or_else {A} (o p : option A) : option A := match o with Some x => Some x | None => p end.

Definition parse_explain_output (json_str q : string) : result QueryPlan string :=
  match parse_json json_str with
  | Err e => Err ("Failed to parse EXPLAIN JSON: " +:+ e)
  | Ok value =>
      match value_index value 0 ≫= λ p, value_get p "Plan" with
      | None => Err "Missing Plan in EXPLAIN output"%string
      | Some plan =>
          Ok (mkPlan q (query_hash q) (default (F64.of_Z 0) (value_get plan "Total Cost" ≫= as_f64))
                (default (F64.of_Z 0) (or_else (value_get plan "Plan Rows") (value_get plan "Estimated Rows") ≫= as_f64)) None
                (default (F64.of_Z 0) (value_index value 0 ≫= λ p, value_get p "Planning Time" ≫= as_f64)) None)
      end
  end.

(** [EXPLAIN] of a query, and what the two catalogue queries answer. *)
Variable explain : string → result string string.

Definition analyze_query (now : Z) (q : string) (s : QueryPlanCache) : result QueryPlan string * QueryPlanCache :=
  let '(found, s) := get_plan now q s in
  match found with
  | Some p => (Ok p, s)
  | None =>
      match explain ("EXPLAIN (FORMAT JSON, ANALYZE OFF) " +:+ q) with
      | Err e => (Err e, s)
      | Ok text => match parse_explain_output text q with Err e => (Err e, s) | Ok p => (Ok p, insert_plan now q p s) end
      end
  end.

Fixpoint warm (now : Z) (qs : list string) (warmed : nat) (s : QueryPlanCache) : nat * QueryPlanCache :=
  match qs with
  | [] => (warmed, s)
  | q :: rest => let '(r, s) := analyze_query now q s in warm now rest (if is_ok r then S warmed else warmed) s
  end.

Definition warm_cache (now : Z) (s : QueryPlanCache) : nat * QueryPlanCache := warm now WARM_QUERIES 0 s.

Definition detect_schema_changes (now : Z) (current : result Z string) (s : QueryPlanCache) : result bool string * QueryPlanCache :=
  match current with
  | Err e => (Err e, s)
  | Ok current =>
      if wrap_i 64 (schema_version s) <? current
      then (Ok true, mkPlans (cinvalidate_all (plans s)) (base_ttl_secs s) (frequency_map s) (hit_count s) (miss_count s) (wrap_u 64 current) (Some now))
      else (Ok false, s)
  end.

Definition detect_structural_changes (changes : result (option Z) string) (s : QueryPlanCache) : result Z string * QueryPlanCache :=
  match changes with
  | Err e => (Err e, s)
  | Ok o => let n := default 0 o in (Ok (wrap_u 64 n), if 0 <? n then with_plans (cinvalidate_all (plans s)) s else s)
  end.

(** The future that [invalidate] returns is dropped: nothing is invalidated. *)
Definition invalidate_plans (pattern : string) (s : QueryPlanCache) : nat * QueryPlanCache :=
  (length (filter (λ q, contains pattern q = true) (map fst (map_to_list (frequency_map s)))), s).

Definition invalidate_table (table : string) (s : QueryPlanCache) : nat * QueryPlanCache := invalidate_plans ("FROM " +:+ table) s.

Definition clear_plans (s : QueryPlanCache) : QueryPlanCache := with_plans (cinvalidate_all (plans s)) s.

Definition reset_schema_version (s : QueryPlanCache) : QueryPlanCache :=
  mkPlans (plans s) (base_ttl_secs s) (frequency_map s) (hit_count s) (miss_count s) 0 (last_schema_change s).
End Plans.

(** ** A cache: the most recently used entries, up to [cap] *)

Definition Lru (V : Type) : Type := list (string * V * Z).

Definition without {V} (k : string) (l : Lru V) : Lru V := List.filter (λ x, negb (String.eqb x.1.1 k)) l.

Definition lru_moka (cap : nat) (V : Type) : Moka (Lru V) V := {|
  cempty := [];
  cget now k l :=
    match List.find (λ x, String.eqb x.1.1 k) l with
    | Some (_, v, e) => if now <? e then (Some v, (k, v, e) :: without k l) else (None, without k l)
    | None => (None, l)
    end;
  cinsert now ttl k v l := take cap ((k, v, now + ttl) :: without k l);
  cinvalidate := without;
  cinvalidate_all _ := [];
  run_pending_tasks now l := List.filter (λ x, now <? x.2) l;
  entry_count l := Z.of_nat (length l);
|}.

#[export] Instance lru_laws cap V : MokaLaws (lru_moka cap V) (λ l k v e, (k, v, e) ∈ l).
Proof.
  assert (∀ k (l : Lru V) x, x ∈ without k l → x.1.1 ≠ k ∧ x ∈ l) as Hw.
  { intros k l x [H1 H2%negb_true_iff%String.eqb_neq]%list_elem_of_In%filter_In. split; [done|by apply list_elem_of_In]. }
  assert (∀ k (l : Lru V) x, List.find (λ x, String.eqb x.1.1 k) l = Some x → x ∈ l ∧ x.1.1 = k) as Hf.
  { intros k l x [H1 H2%String.eqb_eq]%find_some. split; [by apply list_elem_of_In|done]. }
  split; cbn.
  - intros k v e H. by apply elem_of_nil in H.
  - intros now k l v. destruct (List.find _ l) as [[[k' w] e]|] eqn:E; [|done]. destruct (Z.ltb_spec now e); [|done].
    intros [= ->]. apply Hf in E as [H1 H2]. cbn in H2. subst k'. by exists e.
  - intros now k l k' v e. destruct (List.find _ l) as [[[k'' w] e']|] eqn:E; [|done]. apply Hf in E as [H1 H2]. cbn in H2. subst k''.
    destruct (now <? e'); cbn; [|by intros [_ H]%Hw]. by intros [[= -> -> ->]|[_ H]%Hw]%elem_of_cons.
  - intros now ttl k v l k' v' e H. eapply elem_of_sublist in H; [|apply sublist_take].
    apply elem_of_cons in H as [[= -> -> ->]|[H1 H2]%Hw]; [by left|by right].
  - intros k l k' v e [H1 H2]%Hw. done.
  - intros _ k v e H. by apply elem_of_nil in H.
  - intros now l k v e [H _]%list_elem_of_In%filter_In. by apply list_elem_of_In.
Qed.

(** ** Keys *)

Fixpoint colons (s : string) : nat := match s with EmptyString => O | String a r => ((if Ascii.eqb a ":" then 1 else 0) + colons r)%nat end.

Lemma colon_app s t r r' :
  colons s = colons t → s +:+ String ":" r = t +:+ String ":" r' → s = t ∧ r = r'.
Proof.
  revert t. induction s as [|a s IH]; intros [|b t]; cbn; intros Hc.
  - by intros [= ->].
  - intros [= <- _]. done.
  - intros [= -> _]. done.
  - intros [= <- E]. destruct (IH t ltac:(lia) E) as [-> ->]. done.
Qed.

Lemma show_u_no_colons n : colons (show_u n) = O.
Proof.
  assert (∀ s, string_forallb (λ a, negb (Ascii.eqb a ":")) s = true → colons s = O) as H.
  { induction s as [|a s IH]; [done|]. cbn. intros [Ha Hs]%andb_prop. rewrite IH by done. by destruct (Ascii.eqb a ":"). }
  apply H, dec_fixed_forall. intros d Hd. apply negb_true_iff, Ascii.eqb_neq.
  intros E. pose proof (digit_char_code d Hd) as Hc. rewrite E in Hc. change (58 = 48 + d) in Hc. lia.
Qed.

(** Keys tell apart what they are made of, for types with as many colons. *)
Lemma key_of_inj g t v i g' t' v' i' :
  in_u 64 g → in_u 64 g' → in_u 64 v → in_u 64 v' → colons t = colons t' →
  key_of g t v i = key_of g' t' v' i' → g = g' ∧ t = t' ∧ v = v' ∧ i = i'.
Proof.
  intros Hg Hg' Hv Hv' Ht E. unfold key_of in E. injection E as E.
  apply colon_app in E as [Eg E]; [|by rewrite !show_u_no_colons]. apply show_u_inj in Eg; [|done..].
  apply colon_app in E as [-> E]; [|done]. injection E as E.
  apply colon_app in E as [Ev ->]; [|by rewrite !show_u_no_colons]. apply show_u_inj in Ev; [|done..]. done.
Qed.

(** Types that differ in their colons may share a key. *)
Lemma keys_collide : key_of 0 "a" 0 "e0:x" = key_of 0 "a:e0" 0 "x".
Proof. reflexivity. Qed.

(** ** What the cache of payloads promises *)

(** The operations, with the time and what a serialization takes. *)
Inductive Op : Type :=
| GetEntity (now duration : Z) (entity_type id : string) (value : Value) (fallback : Value → result string string)
| Peek (now : Z) (entity_type id : string)
| Prewarm (now duration : Z) (entity_type : string) (entries : list (string * Value))
| InvalidateEntity (entity_type id : string)
| InvalidateType (entity_type : string)
| InvalidateAll (now : Z)
| Clear (now : Z).

Inductive Answer : Type := Payload (r : result string string) | Peeked (o : option string) | Count (n : Z) | Done.

Definition op_type (o : Op) : option string :=
  match o with
  | GetEntity _ _ t _ _ _ | Peek _ t _ | Prewarm _ _ t _ | InvalidateEntity t _ | InvalidateType t => Some t
  | InvalidateAll _ | Clear _ => None
  end.

(** For each entity what was serialized last, since it was invalidated, and
    until when it may be served. *)
Abbreviation Spec := (gmap (string * string) (string * Z)).

Section Refinement.
Context {C : Type} `{!Moka C string} {holds : C → string → string → Z → Prop} `{!MokaLaws _ holds}.
Variable to_vec : Value → result string string.

Definition exec (o : Op) (s : SerializedEventCache (C := C)) : Answer * SerializedEventCache :=
  match o with
  | GetEntity now d t i v f => let '(r, s) := get_or_serialize_entity now d t i v f s in (Payload r, s)
  | Peek now t i => let '(r, s) := peek now t i s in (Peeked r, s)
  | Prewarm now d t l => let '(n, s) := prewarm to_vec now d t l s in (Count n, s)
  | InvalidateEntity t i => (Done, invalidate t i s)
  | InvalidateType t => let '(n, s) := invalidate_entity_type t s in (Done, s)
  | InvalidateAll now => let '(n, s) := invalidate_all now s in (Done, s)
  | Clear now => (Done, clear now s)
  end.

Fixpoint exec_all (ops : list Op) (s : SerializedEventCache (C := C)) : list Answer * SerializedEventCache :=
  match ops with
  | [] => ([], s)
  | o :: rest => let '(a, s) := exec o s in let '(l, s) := exec_all rest s in (a :: l, s)
  end.

(** A payload is either served, as it was serialized and within its time, or
    serialized again. *)
Inductive obtains (ttl now : Z) (t i : string) (f : result string string) (S : Spec) : result string string → Spec → Prop :=
| served b e : S !! (t, i) = Some (b, e) → now < e → obtains ttl now t i f S (Ok b) S
| serialized b : f = Ok b → obtains ttl now t i f S (Ok b) (<[(t, i) := (b, now + ttl)]> S)
| refused e : f = Err e → obtains ttl now t i f S (Err e) S.

(** The entries of a prewarming, of which [n] are serialized. *)
Inductive warms (ttl now : Z) (t : string) : list (string * Value) → Spec → Z → Spec → Prop :=
| warms_nil S : warms ttl now t [] S 0 S
| warms_present i v l S n S' b e : S !! (t, i) = Some (b, e) → now < e → warms ttl now t l S n S' → warms ttl now t ((i, v) :: l) S n S'
| warms_failed i v l S n S' e : to_vec v = Err e → warms ttl now t l S n S' → warms ttl now t ((i, v) :: l) S n S'
| warms_inserted i v l S n S' b : to_vec v = Ok b → warms ttl now t l (<[(t, i) := (b, now + ttl)]> S) n S' →
    warms ttl now t ((i, v) :: l) S (n + 1) S'.

Definition drop_type (t : string) (S : Spec) : Spec := filter (λ x, x.1.1 ≠ t) S.

Inductive promises (ttl : Z) : Op → Spec → Answer → Spec → Prop :=
| promises_get now d t i v f S r S' : obtains ttl now t i (f v) S r S' → promises ttl (GetEntity now d t i v f) S (Payload r) S'
| promises_peek now t i S b e : S !! (t, i) = Some (b, e) → now < e → promises ttl (Peek now t i) S (Peeked (Some b)) S
| promises_nothing now t i S : promises ttl (Peek now t i) S (Peeked None) S
| promises_warm now d t l S n S' : warms ttl now t l S n S' → promises ttl (Prewarm now d t l) S (Count n) S'
| promises_invalidated t i S : promises ttl (InvalidateEntity t i) S Done (delete (t, i) S)
| promises_dropped t S : promises ttl (InvalidateType t) S Done (drop_type t S)
| promises_all now S : promises ttl (InvalidateAll now) S Done ∅
| promises_clear now S : promises ttl (Clear now) S Done ∅.

Inductive promises_run (ttl : Z) : list Op → Spec → list Answer → Prop :=
| run_nil S : promises_run ttl [] S []
| run_cons o ops S a S' l : promises ttl o S a S' → promises_run ttl ops S' l → promises_run ttl (o :: ops) S (a :: l).

(** ** The refinement *)

Variables (ttl : Z) (k : nat).

(** After [n] operations: an entry under the key of the current versions is
    the one of the specification; the others have older versions. *)
Record refines (n : Z) (s : SerializedEventCache (C := C)) (S : Spec) : Prop := mkRefines {
  ref_ttl : ttl_secs s = ttl;
  ref_bound : n < 2 ^ 64;
  ref_global : 0 ≤ global_version s ≤ n;
  ref_versions t : 0 ≤ entity_version t s ≤ n;
  ref_entries key b e : holds (cache s) key b e → ∃ g t v i,
    key = key_of g t v i ∧ colons t = k ∧ 0 ≤ g ≤ global_version s ∧ 0 ≤ v ≤ entity_version t s ∧
    (g = global_version s → v = entity_version t s → S !! (t, i) = Some (b, e));
}.

(** Entries that may be there are those of the specification. *)
Lemma current_entry n s S t i b e :
  refines n s S → colons t = k → holds (cache s) (versioned_key t i s) b e → S !! (t, i) = Some (b, e).
Proof.
  intros [_ Hn Hg Hv He] Ht H. destruct (He _ _ _ H) as (g & t' & v & i' & E & Ht' & Hg' & Hv' & Hs).
  unfold versioned_key in E. pose proof (Hv t). pose proof (Hv t').
  assert (global_version s = g ∧ t = t' ∧ entity_version t s = v ∧ i = i') as (<- & <- & <- & <-); [|by apply Hs].
  apply key_of_inj; [unfold in_u; lia..|congruence|done].
Qed.

(** Fewer entries. *)
Lemma refines_sub n s S c :
  refines n s S → (∀ key b e, holds c key b e → holds (cache s) key b e) → refines n (with_cache c s) S.
Proof. intros [H1 H2 H3 H4 H5] Hc. split; [done..|]. intros key b e H. by apply H5, Hc. Qed.

Lemma refines_counters n s S x : refines n s S → refines n (with_counters x s) S.
Proof. intros [H1 H2 H3 H4 H5]. by split. Qed.

Lemma refines_insert n s S now t i b :
  refines n s S → colons t = k →
  refines n (with_cache (cinsert now (ttl_secs s) (versioned_key t i s) b (cache s)) s) (<[(t, i) := (b, now + ttl)]> S).
Proof.
  intros [H1 H2 H3 H4 H5] Ht. split; [done..|]. intros key b' e' H. cbn in H. apply insert_holds in H as [(-> & -> & ->)|[Hne H]].
  - exists (global_version s), t, (entity_version t s), i. pose proof (H4 t) as Hv. split_and!; [done|done|cbn; lia|done|cbn; lia|done|].
    intros _ _. rewrite lookup_insert_eq. by rewrite H1.
  - destruct (H5 _ _ _ H) as (g & t' & v & i' & -> & Ht' & Hg & Hv & Hs). exists g, t', v, i'. split_and!; [done|done|apply Hg|apply Hg|apply Hv|apply Hv|].
    cbn. intros Eg Ev. rewrite lookup_insert_ne; [by apply Hs|]. intros [= -> ->]. apply Hne. unfold versioned_key.
    change (entity_version t' _) with (entity_version t' s) in Ev. by rewrite Eg, Ev.
Qed.

Lemma refines_forget n s S c S' :
  refines n s S → (∀ t i, colons t = k → (∃ b e, holds c (versioned_key t i s) b e) → S' !! (t, i) = S !! (t, i)) →
  (∀ key b e, holds c key b e → holds (cache s) key b e) → refines n (with_cache c s) S'.
Proof.
  intros [H1 H2 H3 H4 H5] HS Hc. split; [done..|]. intros key b e H. destruct (H5 _ _ _ (Hc _ _ _ H)) as (g & t & v & i & -> & Ht & Hg & Hv & Hs).
  exists g, t, v, i. split_and!; [done|done|apply Hg|apply Hg|apply Hv|apply Hv|]. cbn. intros Eg Ev. rewrite HS; [by apply Hs|done|].
  exists b, e. change (entity_version t _) with (entity_version t s) in Ev. unfold versioned_key. by rewrite <- Eg, <- Ev.
Qed.

Lemma get_refines n s S now t i :
  refines n s S → refines n (with_cache (cget now (versioned_key t i s) (cache s)).2 s) S ∧
  (colons t = k → ∀ b, (cget now (versioned_key t i s) (cache s)).1 = Some b → ∃ e, S !! (t, i) = Some (b, e) ∧ now < e).
Proof.
  intros H. split; [apply (refines_sub n s S); [done|]; intros key b e; apply get_holds|].
  intros Ht b Hb. apply get_hit in Hb as (e & Hb & Hlt). exists e. split; [|done]. by apply (current_entry n s).
Qed.

Lemma get_or_serialize_refines n s S now d t i v f :
  refines n s S → colons t = k →
  ∃ S', obtains ttl now t i (f v) S (get_or_serialize_entity now d t i v f s).1 S' ∧ refines n (get_or_serialize_entity now d t i v f s).2 S'.
Proof.
  intros H Ht. destruct (get_refines n s S now t i H) as [H1 H2]. specialize (H2 Ht). unfold get_or_serialize_entity, get_or_serialize_with_type.
  destruct (cget now (versioned_key t i s) (cache s)) as [[b|] c]; cbn in H1, H2.
  - destruct (H2 b eq_refl) as (e & He & Hlt). exists S. split; [by eapply served|]. by apply refines_counters.
  - destruct (f v) as [b|e]; cbn; [|exists S; split; [by constructor|done]]. eexists. split; [by apply serialized|].
    apply refines_counters. exact (refines_insert n (with_cache c s) S now t i b H1 Ht).
Qed.

Lemma prewarm_refines now d t l : ∀ n s S m, refines n s S → colons t = k →
  ∃ S' j, warms ttl now t l S j S' ∧ (prewarm_entries to_vec now d t l m s).1 = m + j ∧ refines n (prewarm_entries to_vec now d t l m s).2 S'.
Proof.
  induction l as [|[i v] l IH]; intros n s S m H Ht; [exists S, 0; split_and!; [constructor|cbn; lia|done]|].
  cbn [prewarm_entries]. destruct (get_refines n s S now t i H) as [H1 H2]. specialize (H2 Ht).
  destruct (cget now (versioned_key t i s) (cache s)) as [[b|] c]; cbn [fst snd] in H1, H2.
  - destruct (H2 b eq_refl) as (e & He & Hlt). destruct (IH n _ S m H1 Ht) as (S' & j & Hw & Ej & Hr). exists S', j. split_and!; [by eapply warms_present|done|done].
  - destruct (to_vec v) as [b|e] eqn:Ev.
    + destruct (IH n (with_counters (count_warm d (str_len b) (counters (with_cache c s))) (with_cache (cinsert now (ttl_secs (with_cache c s)) (versioned_key t i s) b (cache (with_cache c s))) (with_cache c s)))
        (<[(t, i) := (b, now + ttl)]> S) (m + 1)) as (S' & j & Hw & Ej & Hr); [|done|].
      { apply refines_counters. exact (refines_insert n (with_cache c s) S now t i b H1 Ht). }
      exists S', (j + 1). split_and!; [by eapply warms_inserted|rewrite Ej; lia|done].
    + destruct (IH n _ S m H1 Ht) as (S' & j & Hw & Ej & Hr). exists S', j. split_and!; [by eapply warms_failed|done|done].
Qed.

Lemma refines_later n m s S : refines n s S → n ≤ m < 2 ^ 64 → refines m s S.
Proof. intros [H1 H2 H3 H4 H5] Hm. split; [done|lia|lia|intros t; pose proof (H4 t); lia|done]. Qed.

Lemma invalidate_type_refines n s S t : refines n s S → n + 1 < 2 ^ 64 → refines (n + 1) (invalidate_entity_type t s).2 (drop_type t S).
Proof.
  intros [H1 H2 H3 H4 H5] Hn. set (s' := (invalidate_entity_type t s).2).
  assert (∀ t', entity_version t' s' = if decide (t' = t) then entity_version t s + 1 else entity_version t' s) as Hev.
  { intros t'. unfold s', invalidate_entity_type, entity_version. cbn. destruct (decide (t' = t)) as [-> |Hne]; [rewrite lookup_insert_eq|by rewrite lookup_insert_ne].
    cbn. by destruct (entity_versions s !! t). }
  split; [done|lia|cbn; lia|intros t'; rewrite Hev; pose proof (H4 t'); pose proof (H4 t); destruct (decide _); lia|].
  intros key b e H. destruct (H5 _ _ _ H) as (g & t' & v & i & -> & Ht' & Hg & Hv & Hs). exists g, t', v, i. rewrite Hev.
  split_and!; [done|done|apply Hg|apply Hg|apply Hv|destruct (decide (t' = t)) as [-> |]; lia|].
  destruct (decide (t' = t)) as [-> |Hne]; [lia|]. intros Eg Ev. unfold drop_type. apply map_lookup_filter_Some. split; [by apply Hs|done].
Qed.

Lemma nothing_refines n s : ttl_secs s = ttl → n < 2 ^ 64 → 0 ≤ global_version s ≤ n → (∀ t, 0 ≤ entity_version t s ≤ n) →
  (∀ key b e, ¬ holds (cache s) key b e) → refines n s ∅.
Proof. intros H1 H2 H3 H4 H5. split; [done..|]. intros key b e H. by apply H5 in H. Qed.

Lemma exec_refines n o s S :
  refines n s S → n + 1 < 2 ^ 64 → (∀ t, op_type o = Some t → colons t = k) →
  ∃ S', promises ttl o S (exec o s).1 S' ∧ refines (n + 1) (exec o s).2 S'.
Proof.
  intros H Hn Hk. destruct o as [now d t i v f|now t i|now d t l|t i|t|now|now]; try specialize (Hk t eq_refl); cbn.
  - destruct (get_or_serialize_refines n s S now d t i v f H Hk) as (S' & Ho & Hr).
    destruct (get_or_serialize_entity _ _ _ _ _ _ _). exists S'. split; [by constructor|]. apply (refines_later n); [done|lia].
  - destruct (get_refines n s S now t i H) as [H1 H2]. specialize (H2 Hk). unfold peek.
    destruct (cget _ _ _) as [[b|] c]; exists S; (split; [|apply (refines_later n); [done|lia]]); [|constructor].
    destruct (H2 b eq_refl) as (e & He & Hlt). by eapply promises_peek.
  - destruct (prewarm_refines now d t l n s S 0 H Hk) as (S' & j & Hw & Ej & Hr). unfold prewarm.
    destruct (prewarm_entries _ _ _ _ _ _ _) as [m s']. cbn in Ej. subst m. exists S'. split; [by constructor|].
    apply (refines_later n); [|lia]. by apply refines_counters.
  - exists (delete (t, i) S). split; [constructor|]. apply (refines_later n); [|lia]. apply refines_counters. apply (refines_forget n s S); [done| |].
    + intros t' i' _ (b & e & Hh). apply invalidate_holds in Hh as [Hne _]. rewrite lookup_delete_ne; [done|]. intros [= -> ->]. by apply Hne.
    + intros key b e Hh. by apply invalidate_holds in Hh as [_ Hh].
  - exists (drop_type t S). split; [constructor|]. by apply invalidate_type_refines.
  - exists ∅. split; [constructor|]. destruct H as [H1 H2 H3 H4 H5].
    apply nothing_refines; [done|lia| |intros t; change (entity_version t _) with (entity_version t s); pose proof (H4 t); lia|].
    + cbn. unfold add64, wrap_u. rewrite Z.mod_small by lia. lia.
    + intros key b e Hh. cbn in Hh. apply pending_holds in Hh. by apply invalidate_all_holds in Hh.
  - exists ∅. split; [constructor|]. destruct H as [H1 H2 H3 H4 H5].
    apply nothing_refines; [done|lia|cbn; lia|intros t; change (entity_version t _) with (entity_version t s); pose proof (H4 t); lia|].
    intros key b e Hh. cbn in Hh. apply pending_holds in Hh. by apply invalidate_all_holds in Hh.
Qed.

Lemma exec_all_refines ops : ∀ n s S,
  refines n s S → n + Z.of_nat (length ops) < 2 ^ 64 → Forall (λ o, ∀ t, op_type o = Some t → colons t = k) ops →
  promises_run ttl ops S (exec_all ops s).1.
Proof.
  induction ops as [|o ops IH]; intros n s S H Hn Hk; [constructor|]. inversion Hk; subst. cbn in Hn.
  destruct (exec_refines n o s S H) as (S' & Hp & Hr); [lia|done|]. cbn. destruct (exec o s) as [a s1]. cbn in Hp, Hr.
  pose proof (IH (n + 1) s1 S' Hr ltac:(lia) ltac:(done)) as Hrun. destruct (exec_all ops s1) as [l s2]. by eapply run_cons.
Qed.
End Refinement.

(** A cache of payloads over any cache of the kind of moka's, whatever is
    evicted and when: what it answers for an entity was serialized for this
    entity, after its last invalidation of any kind, was not replaced since and
    is within its time; otherwise it serializes. The names of the types have
    equally many colons, as those in use have. *)
Theorem cache_refines_payloads {C : Type} `{!Moka C string} {holds : C → string → string → Z → Prop} `{!MokaLaws _ holds}
    (to_vec : Value → result string string) (ttl : Z) (k : nat) (ops : list Op) :
  Z.of_nat (length ops) < 2 ^ 64 → Forall (λ o, ∀ t, op_type o = Some t → colons t = k) ops →
  promises_run to_vec ttl ops ∅ (exec_all to_vec ops (new_cache ttl)).1.
Proof.
  intros Hn Hk. apply (exec_all_refines (holds := holds) to_vec ttl k) with 0; [|lia|done].
  split; [done|lia|cbn; lia|intros t; change (entity_version t _) with 0; lia|]. intros key b e H. by apply empty_holds in H.
Qed.

#[local] Instance demo_moka : Moka (Lru string) string := lru_moka 10 string.
#[local] Instance demo_laws : MokaLaws demo_moka (λ l k v e, (k, v, e) ∈ l) := lru_laws 10 string.

(** Two serializations, a hit, an invalidation of the type: served once. *)
Definition demo_to_vec (v : Value) : result string string := match v with VString s => Ok s | _ => Err "unsupported"%string end.

Definition demo_ops : list Op :=
  [GetEntity 0 5 "event:C1" "a" (VString "old") demo_to_vec; GetEntity 1 5 "event:C1" "a" (VString "new") demo_to_vec;
   InvalidateType "event:C1"; GetEntity 2 5 "event:C1" "a" (VString "new") demo_to_vec; Peek 9 "event:C1" "a"]%string.

Lemma cache_refines_payloads_witness :
  (exec_all demo_to_vec demo_ops (new_cache 5)).1
    = [Payload (Ok "old"); Payload (Ok "old"); Done; Payload (Ok "new"); Peeked None]%string ∧
  promises_run demo_to_vec 5 demo_ops ∅ (exec_all demo_to_vec demo_ops (new_cache 5)).1.
Proof.
  split; [by vm_compute|]. apply (cache_refines_payloads demo_to_vec 5 1); [done|].
  repeat constructor; intros t [= <-]; reflexivity.
Defined.

(** ** What its users make of it *)

(** Every page after the first has one key: of two requests that differ in
    their cursors only, the second is answered with the page of the first. *)
Lemma pages_share_key :
  let to_vec v := match v with Object [(_, Array [VString x]); _; _] => Ok x | _ => Err "unsupported"%string end in
  let page cursor := estimate_page_number (Some cursor) 20 in
  let '(_, s) := cache_or_serialize_event_list to_vec 0 1 [VString "events 21-40"] (Some "c40") 20 None None (page "c20") (new_cache 5) in
  (cache_or_serialize_event_list to_vec 1 1 [VString "events 41-60"] (Some "c60") 20 None None (page "c40") s).1 = Ok "events 21-40"%string.
Proof. reflexivity. Qed.

(** The pages are of type event_response, the task invalidates event. *)
Lemma pages_not_invalidated :
  let to_vec v := match v with Object [(_, Array [VString x]); _; _] => Ok x | _ => Err "unsupported"%string end in
  let '(_, s) := cache_or_serialize_event_list to_vec 0 1 [VString "old"] None 20 (Some "C1") None 1 (new_cache 5) in
  let '(_, s) := invalidation_task [Received "C1"] (cempty : Lru string) s in
  (cache_or_serialize_event_list to_vec 1 1 [VString "new"] None 20 (Some "C1") None 1 s).1 = Ok "old"%string.
Proof. reflexivity. Qed.

(** A task that lags behind the channel once invalidates nothing any more. *)
Lemma lagging_stops {C K V} `{!Moka C string} `{!Moka K V} l n rest (counts : K) (s : SerializedEventCache (C := C)) :
  invalidation_task (l ++ Lagged n :: rest) counts s = invalidation_task l counts s.
Proof. revert counts s. induction l as [|[c|m|] l IH]; intros counts s; [done|apply IH|done..]. Qed.

(** ** Query results *)

Lemma clamp_ttl_bounds secs : MIN_TTL_SECS ≤ clamp_ttl secs ≤ MAX_TTL_SECS ∧ (MIN_TTL_SECS ≤ secs ≤ MAX_TTL_SECS → clamp_ttl secs = secs).
Proof. unfold clamp_ttl, MIN_TTL_SECS, MAX_TTL_SECS. lia. Qed.

Section EventCountsFacts.
Context {C : Type} `{!Moka C Value} {holds : C → string → Value → Z → Prop} `{!MokaLaws _ holds}.
Context (pg : PgEnv) (format_day to_rfc3339 : Z → string) (ttl : Z).

Definition counts_body (t : Z) (c : string) (rows : list CountRow) : Value :=
  Object [("cached_at", VString (to_rfc3339 t)); ("contract_id", VString c); ("counts", Array (map (count_entry format_day to_rfc3339) (counts_of c rows)))]%string.

(** What the cache may answer was made from the rows of some time. *)
Definition fresh_counts (past : Z → list CountRow → Prop) (cache : C) : Prop :=
  ∀ c v e, holds cache ("contract_event_counts:" +:+ c) v e → ∃ t rows, v = counts_body t c rows ∧ e = t + ttl ∧ past t rows.

(** The answer was made now, or less than [ttl] before, for this contract. *)
Theorem event_counts_fresh past c cache s v cache' s' :
  (∀ n, past (now pg n) (db s)) → fresh_counts past cache →
  get_contract_event_counts pg format_day to_rfc3339 ttl c cache s = (Ok (v, cache'), s') →
  fresh_counts past cache' ∧ ∃ t rows, v = counts_body t c rows ∧ past t rows ∧ (now pg (ops s) < t + ttl ∨ rows = db s ∧ t = now pg (S (S (ops s)))).
Proof.
  intros Hp Hf. unfold get_contract_event_counts, of_result, clock, query, stmt, mbind, M_bind. destruct (ApiParams.validate_contract_id c); [|done]. cbn [db ops trace].
  pose proof (get_hit (now pg (ops s)) ("contract_event_counts:" +:+ c) cache) as Hhit.
  pose proof (get_holds (now pg (ops s)) ("contract_event_counts:" +:+ c) cache) as Hsub.
  destruct (cget _ _ cache) as [[w|] cache1]; cbn [fst snd] in *.
  - intros [= <- <- <-]. split; [intros c' v' e' H; by apply Hf, Hsub|]. destruct (Hhit w eq_refl) as (e & He & Hlt).
    destruct (Hf c w e He) as (t & rows & -> & -> & Hpast). exists t, rows. auto.
  - cbn [db ops trace]. destruct (db_fault pg _); [done|]. cbn [db ops trace]. intros [= <- <- <-]. split.
    + intros c' v' e' [(E & -> & ->)|[_ H]]%insert_holds; [|by apply Hf, Hsub].
      assert (c' = c) as -> by (revert E; unfold String.append; intros [= ->]; done). eexists _, (db s). split_and!; [done|done|apply Hp].
    + eexists _, (db s). split_and!; [done|apply Hp|by right].
Qed.
End EventCountsFacts.

(** ** Query plans *)

Lemma adaptive_ttl_bounds {C} (s : QueryPlanCache (C := C)) q :
  0 ≤ base_ttl_secs s → base_ttl_secs s ≤ adaptive_ttl_secs q s ≤ 4 * base_ttl_secs s.
Proof. intros H. unfold adaptive_ttl_secs. destruct (FREQ_HIGH <=? _); [lia|]. destruct (FREQ_MEDIUM <=? _); lia. Qed.

(** The plans of a table that was said to be invalidated are served on. *)
Lemma invalidated_plans_served :
  let plan := mkPlan "SELECT 1 FROM events" "h" (F64.of_Z 0) (F64.of_Z 0) None (F64.of_Z 0) None in
  let moka := lru_moka 10 QueryPlan in
  let s := insert_plan (Moka0 := moka) 0 "SELECT 1 FROM events" plan (get_plan (Moka0 := moka) 0 "SELECT 1 FROM events" (new_plans (Moka0 := moka) 3600)).2 in
  let '(n, s) := invalidate_table "events" s in
  n = 1%nat ∧ (get_plan (Moka0 := moka) 1 "SELECT 1 FROM events" s).1 = Some plan.
Proof. by vm_compute. Qed.
End Caches.
