(* ===== verification/Retention.v ===== *)
(** Retention: what leaves the table of events, and when.  The pruning task
    (pruner.rs and the SQL function it calls), the archiver (archiver.rs) and
    the tiers of retention_tiers.rs.

    Times are microseconds. *)

From S2P Require Import Prelude F64 Text Model Pg.

Module Retention.

Definition second_us : Z := 1000000.
Definition day_us : Z := 86400 * second_us.

(** An event's row; the other columns are its line in an archive. *)
Record Row : Type := mkRow {
  id : Z;
  contract_id : string;
  event_type : string;
  tx_hash : string;
  ledger : Z;
  timestamp : Z;
  event_data : Value;
  created_at : Z;
}.

(** ** The archiver *)

Section Archiver.
Variable pg : PgEnv.
(** gzip over the lines of serde_json and the Parquet writer; SHA-256 in
    hexadecimal; the path of a day, as chrono formats it. *)
Variables (encode_ndjson_gz write_events_parquet : list Row → result string string) (sha256 : string → string) (day_path : Z → string).
(** S3: whether the upload of a step fails, and the entity tag of an object. *)
Variables (s3_fault : nat → option string) (e_tag : string → string).
(** The rows that other processes insert while the upload of a step runs. *)
Variable arrivals : nat → list Row.
(** The columns that the query of a day selects; the code's are [archive_columns]. *)
Variable columns : list string.

Record Store : Type := mkStore { events : list Row; bucket : gmap string string }.

Local Abbreviation M := (Pg.M Store Empty_set string).

Definition date_of (t : Z) : Z := t / day_us.
Definition day_start (date : Z) : Z := date * day_us.
Definition day_end (date : Z) : Z := date * day_us + (23 * 3600 + 59 * 60 + 59) * second_us.

(** [timestamp BETWEEN $1 AND $2]. *)
Definition within (date : Z) (r : Row) : bool := (day_start date <=? timestamp r) && (timestamp r <=? day_end date).

Definition row_cmp : Row → Row → comparison := λ x y, match ledger x ?= ledger y with Eq => id x ?= id y | c => c end.

Definition rows_within (date : Z) (d : Store) : list Row := sort_by row_cmp (List.filter (within date) (events d)).

Definition object_key (prefix : string) (date : Z) (parquet : bool) : string :=
  prefix +:+ "/" +:+ day_path date +:+ (if parquet then "/events.parquet" else "/events.ndjson.gz").

Definition encode (parquet : bool) (rows : list Row) : result string string :=
  if parquet then match write_events_parquet rows with Ok b => Ok b | Err e => Err ("Parquet serialization failed: " +:+ e)%string end
  else encode_ndjson_gz rows.

Definition put_object (key bytes : string) : M string := λ s,
  let d := mkStore (events (db s) ++ arrivals (ops s)) (bucket (db s)) in
  match s3_fault (ops s) with
  | Some e => (Err e, mkSt d (S (ops s)) (trace s))
  | None => (Ok (e_tag bytes), mkSt (mkStore (events d) (<[key := bytes]> (bucket d))) (S (ops s)) (trace s))
  end.

Definition delete_within (date : Z) (d : Store) : Store := mkStore (List.filter (λ r, negb (within date r)) (events d)) (bucket d).

Definition mismatch : string := "Archive integrity check failed: ETag mismatch".

Definition is_quote (a : ascii) : bool := Ascii.eqb a "034"%char.

(** [trim_matches] of quotes. *)
Fixpoint trim_quotes_start (s : string) : string :=
  match s with String a r => if is_quote a then trim_quotes_start r else s | EmptyString => s end.
Fixpoint trim_quotes_end (s : string) : string :=
  match s with
  | EmptyString => EmptyString
  | String a r => match trim_quotes_end r with EmptyString => if is_quote a then EmptyString else String a EmptyString | t => String a t end
  end.
Definition trim_quotes (s : string) : string := trim_quotes_end (trim_quotes_start s).

(** What the derived [FromRow] of an event cannot default. *)
Definition required_columns : list string :=
  ["id"; "contract_id"; "event_type"; "tx_hash"; "ledger"; "timestamp"; "event_data"; "event_data_normalized"; "created_at"]%string.

Definition decode_rows (rows : list Row) : result (list Row) string :=
  match rows, List.find (λ c, negb (existsb (String.eqb c) columns)) required_columns with
  | _ :: _, Some c => Err ("no column found for name: " +:+ c)
  | _, _ => Ok rows
  end.

Definition fetch_day (date : Z) : M (list Row) :=
  stmt pg (λ _ d, match decode_rows (rows_within date d) with Ok rows => Ok (rows, d) | Err e => Err e end).

(** One day: encoded, uploaded, verified, and then deleted. *)
Definition archive_date (prefix : string) (parquet : bool) (date : Z) : M () :=
  rows ← fetch_day date;
  match rows with
  | [] => mret ()
  | _ =>
      bytes ← of_result (encode parquet rows);
      etag ← put_object (object_key prefix date parquet) bytes;
      if negb (String.eqb (trim_quotes etag) (sha256 bytes)) then throw mismatch else
      execute pg (λ _, delete_within date)
  end.

Fixpoint archive_dates (prefix : string) (parquet : bool) (dates : list Z) : M () :=
  match dates with
  | [] => mret ()
  | date :: rest => attempt (archive_date prefix parquet date : M ()) ;; archive_dates prefix parquet rest
  end.

(** [SELECT DISTINCT DATE(timestamp) .. ORDER BY 1]. *)
Definition old_dates (cutoff : Z) (d : Store) : list Z :=
  remove_dups (sort_by Z.compare (map (λ r, date_of (timestamp r)) (List.filter (λ r, timestamp r <? cutoff) (events d)))).

Definition archive_once (prefix : string) (parquet : bool) (after_days : Z) : M () :=
  t ← clock pg;
  dates ← query pg (λ _, old_dates (t - after_days * day_us));
  archive_dates prefix parquet dates.

(** ** What the archive keeps *)

(** The row is in an object of the bucket. *)
Definition archived (parquet : bool) (d : Store) (r : Row) : Prop :=
  ∃ key bytes rows, bucket d !! key = Some bytes ∧ encode parquet rows = Ok bytes ∧ r ∈ rows.

(** Nothing would be lost if the object of the day were replaced: no row of the
    day is to be archived, or the object's rows are rows of the day that are in
    the table still. *)
Definition replaceable (prefix : string) (parquet : bool) (d : Store) (date : Z) : Prop :=
  rows_within date d = [] ∨
  ∀ bytes rows r, bucket d !! object_key prefix date parquet = Some bytes → encode parquet rows = Ok bytes → r ∈ rows →
    r ∈ events d ∧ date_of (timestamp r) = date.

Definition sound (prefix : string) (parquet : bool) (d : Store) : Prop := ∀ date, replaceable prefix parquet d date.

Definition safe_row (parquet : bool) (d : Store) (r : Row) : Prop := r ∈ events d ∨ archived parquet d r.

Lemma in_rows_within date d r : r ∈ rows_within date d ↔ r ∈ events d ∧ within date r = true.
Proof. unfold rows_within. rewrite sort_by_permutation. rewrite list_elem_of_In, filter_In, <- list_elem_of_In. done. Qed.

Lemma decode_rows_ok l l' : decode_rows l = Ok l' → l' = l.
Proof. unfold decode_rows. destruct l; [|destruct (List.find _ _)]; congruence. Qed.

Lemma fetch_day_preserves (R : relation (Store * list Empty_set)) `{!PreOrder R} date : preserves R (fetch_day date).
Proof.
  apply preserves_stmt; [done|]. intros _ d x d' tr. destruct (decode_rows _); [|done]. intros [= _ <-]. reflexivity.
Qed.

Lemma in_delete_within date d r : r ∈ events (delete_within date d) ↔ r ∈ events d ∧ within date r = false.
Proof. unfold delete_within. cbn. rewrite list_elem_of_In, filter_In, <- list_elem_of_In, negb_true_iff. done. Qed.

Section Kept.
Context (prefix : string) (parquet : bool).
(** Different days have different paths; nobody inserts meanwhile. *)
Context (paths : ∀ a b, day_path a = day_path b → a = b) (quiet : ∀ n, arrivals n = []).
(** An archive reads back as what was written. *)
Context (lossless : ∀ l l' b, encode parquet l = Ok b → encode parquet l' = Ok b → l = l').

Lemma day_key_inj a b : object_key prefix a parquet = object_key prefix b parquet → a = b.
Proof.
  unfold object_key. intros E. apply paths. set (x := if parquet then _ else _) in E. revert E. generalize prefix, (day_path a), (day_path b). clear.
  assert (∀ (s a b : string), s +:+ a = s +:+ b → a = b) as Hp by (induction s as [|c s IH]; cbn; [done|]; intros u w [= E]; by apply IH).
  assert (∀ (t a b : string), String.length a = String.length b → a +:+ t = b +:+ t → a = b) as Hs.
  { intros t a. induction a as [|c a IH]; intros [|e b]; cbn; try done. intros [= Hl] [= -> E]. f_equal. by apply IH. }
  intros p u w E. do 2 apply Hp in E. apply (Hs x); [|done]. apply (f_equal String.length) in E. rewrite !string_length_app in E. lia.
Qed.

Lemma within_date date r : within date r = true → date_of (timestamp r) = date.
Proof.
  unfold within, day_start, day_end, date_of, day_us, second_us. intros [H1%Z.leb_le H2%Z.leb_le]%andb_prop.
  symmetry. apply (Z.div_unique _ _ _ (timestamp r - date * (86400 * 1000000))); lia.
Qed.

Definition keeps (d d' : Store) : Prop := sound prefix parquet d → sound prefix parquet d' ∧ ∀ r, safe_row parquet d r → safe_row parquet d' r.

#[local] Instance keeps_preorder : PreOrder keeps.
Proof. split; [by intros d|]. intros a b c H1 H2 H. destruct (H1 H) as [Hb Hr]. destruct (H2 Hb) as [Hc Hs]. auto. Qed.

(** The upload of the rows of a day. *)
Lemma upload_keeps date bytes d :
  rows_within date d ≠ [] → encode parquet (rows_within date d) = Ok bytes →
  keeps d (mkStore (events d) (<[object_key prefix date parquet := bytes]> (bucket d))).
Proof.
  intros Hne He Hs. split.
  - intros date'. destruct (decide (date' = date)) as [-> |Hd].
    + right. cbn. intros b' rows r Hb Hrows Hr. rewrite lookup_insert_eq in Hb. injection Hb as <-.
      rewrite (lossless _ _ _ Hrows He) in Hr. apply in_rows_within in Hr as [H1 H2]. split; [done|]. by apply within_date.
    + destruct (Hs date') as [H|H]; [by left|right]. cbn. intros b' rows r Hb. rewrite lookup_insert_ne in Hb; [by apply H|].
      intros E. apply Hd. symmetry. by apply day_key_inj.
  - intros r [H|(k & b & rows & Hk & Hrows & Hr)]; [by left|]. destruct (decide (k = object_key prefix date parquet)) as [-> |Hk'].
    + left. destruct (Hs date) as [H|H]; [done|]. cbn. by apply (H b rows).
    + right. exists k, b, rows. split_and!; [cbn; by rewrite lookup_insert_ne|done|done].
Qed.

(** The deletion of the rows of a day whose object has them. *)
Lemma delete_keeps date bytes d :
  bucket d !! object_key prefix date parquet = Some bytes → encode parquet (rows_within date d) = Ok bytes → keeps d (delete_within date d).
Proof.
  intros Hb He Hs. split.
  - intros date'. destruct (decide (date' = date)) as [-> |Hd].
    + left. destruct (rows_within date (delete_within date d)) as [|r l] eqn:E; [done|]. exfalso.
      assert (r ∈ rows_within date (delete_within date d)) as Hr by (rewrite E; left). apply in_rows_within in Hr as [Hr Hw].
      apply in_delete_within in Hr as [_ Hr]. congruence.
    + destruct (Hs date') as [H|H].
      * left. destruct (rows_within date' (delete_within date d)) as [|r l] eqn:E; [done|]. exfalso.
        assert (r ∈ rows_within date' (delete_within date d)) as Hr by (rewrite E; left). apply in_rows_within in Hr as [Hr Hw].
        apply in_delete_within in Hr as [Hr _]. assert (r ∈ rows_within date' d) as Hx by (by apply in_rows_within). rewrite H in Hx. by apply elem_of_nil in Hx.
      * right. intros b' rows r Hb' Hrows Hr. destruct (H b' rows r Hb' Hrows Hr) as [H1 H2]. split; [|done]. apply in_delete_within.
        split; [done|]. destruct (within date r) eqn:Hw; [|done]. apply within_date in Hw. congruence.
  - intros r [H|(k & b & rows & Hk & Hrows & Hr)]; [|right; by exists k, b, rows].
    destruct (within date r) eqn:Hw; [right|left; by apply in_delete_within]. exists (object_key prefix date parquet), bytes, (rows_within date d).
    split_and!; [done|done|by apply in_rows_within].
Qed.

Lemma archive_date_keeps date s : keeps (db s) (db (archive_date prefix parquet date s).2).
Proof.
  unfold archive_date, fetch_day, query, stmt, mbind, M_bind. destruct (db_fault pg (ops s)); [reflexivity|]. cbv beta iota. cbn [db ops trace].
  destruct (decode_rows (rows_within date (db s))) as [rows|e] eqn:Ed; [|reflexivity]. apply decode_rows_ok in Ed as ->. cbv beta iota. cbn [db ops trace].
  destruct (rows_within date (db s)) as [|r0 rows0] eqn:Er; [reflexivity|]. rewrite <- Er. unfold of_result.
  destruct (encode parquet (rows_within date (db s))) as [bytes|e] eqn:Ee; [|reflexivity]. unfold put_object. cbn [db ops trace].
  rewrite quiet, app_nil_r. destruct (s3_fault _); [by destruct (db s)|]. cbn [db ops trace events bucket].
  assert (keeps (db s) (mkStore (events (db s)) (<[object_key prefix date parquet := bytes]> (bucket (db s))))) as Hu
    by (apply upload_keeps; [by rewrite Er|done]).
  destruct (negb _); [done|]. unfold execute, stmt. cbn [db ops trace]. destruct (db_fault pg _); [done|].
  etrans; [exact Hu|]. apply (delete_keeps date bytes); [apply lookup_insert_eq|done].
Qed.

Lemma archive_dates_keeps dates : ∀ s, keeps (db s) (db (archive_dates prefix parquet dates s).2).
Proof.
  induction dates as [|date dates IH]; intros s; [reflexivity|]. cbn [archive_dates]. unfold mbind, M_bind, attempt.
  pose proof (archive_date_keeps date s) as H. destruct (archive_date prefix parquet date s) as [r s1]. etrans; [exact H|apply IH].
Qed.

(** A pass of the archiver, whatever fails, loses nothing, as long as nobody
    inserts during it: each event is in the table or in an object, and the
    next pass finds the objects as it may find them. *)
Theorem archive_once_keeps after_days s :
  sound prefix parquet (db s) →
  let d := db (archive_once prefix parquet after_days s).2 in
  sound prefix parquet d ∧ ∀ r, safe_row parquet (db s) r → safe_row parquet d r.
Proof.
  intros Hs. cbv zeta. enough (keeps (db s) (db (archive_once prefix parquet after_days s).2)) as H by (by apply H).
  unfold archive_once, clock, query, stmt, mbind, M_bind. cbn [db ops trace]. destruct (db_fault pg _); [reflexivity|]. refine (archive_dates_keeps _ (mkSt (db s) _ _)).
Qed.
End Kept.

(** With entity tags that are not the SHA-256 of the object, as those of S3,
    which are MD5 digests, nothing is ever deleted. *)
Definition extends (v v' : Store * list Empty_set) : Prop := ∀ r, r ∈ events v.1 → r ∈ events v'.1.

#[local] Instance extends_preorder : PreOrder extends.
Proof. split; [by intros v r|]. intros a b c H1 H2 r H. auto. Qed.

Lemma archive_date_other_tags prefix parquet date :
  (∀ b, trim_quotes (e_tag b) ≠ sha256 b) → preserves extends (archive_date prefix parquet date).
Proof.
  intros Htag. unfold archive_date. apply preserves_bind; [apply _|apply fetch_day_preserves, _|]. intros [|r rows]; [apply preserves_ret, _|].
  apply preserves_bind; [apply _|apply preserves_of_result, _|]. intros bytes s. unfold mbind, M_bind, put_object.
  destruct (s3_fault (ops s)); [intros x Hx; cbn; apply elem_of_app; by left|].
  destruct (String.eqb_spec (trim_quotes (e_tag bytes)) (sha256 bytes)) as [E|_]; [by apply Htag in E|].
  intros x Hx. cbn. apply elem_of_app. by left.
Qed.

Theorem other_tags_never_deleted prefix parquet after_days :
  (∀ b, trim_quotes (e_tag b) ≠ sha256 b) → preserves extends (archive_once prefix parquet after_days).
Proof.
  intros Htag. unfold archive_once. apply preserves_bind; [apply _|apply preserves_clock, _|]. intros t.
  apply preserves_bind; [apply _|apply preserves_query, _|]. intros dates. induction dates as [|date dates IH]; [apply preserves_ret, _|].
  cbn [archive_dates]. apply preserves_bind; [apply _|by apply preserves_attempt, archive_date_other_tags|]. by intros _.
Qed.

(** While a column is missing that every event must have, nothing is archived
    nor deleted. *)
Lemma missing_column_archives_nothing prefix parquet after_days s :
  List.find (λ c, negb (existsb (String.eqb c) columns)) required_columns ≠ None → db (archive_once prefix parquet after_days s).2 = db s.
Proof.
  intros Hc. set (R := λ v v' : Store * list Empty_set, v'.1 = v.1).
  assert (PreOrder R) as HR by (split; [by intros v|intros a b c H1 H2; unfold R in *; congruence]).
  enough (preserves R (archive_once prefix parquet after_days)) as H by (apply (H s)).
  unfold archive_once. apply preserves_bind; [done|apply preserves_clock, HR|]. intros t.
  apply preserves_bind; [done|apply preserves_query, HR|]. intros dates. induction dates as [|date dates IH]; [apply preserves_ret, HR|].
  cbn [archive_dates]. apply preserves_bind; [done|apply preserves_attempt|by intros _].
  intros s'. unfold archive_date, fetch_day, stmt, mbind, M_bind. destruct (db_fault pg (ops s')); [done|].
  unfold decode_rows. destruct (rows_within date (db s')); [done|]. by destruct (List.find _ _).
Qed.

(** What happens in the last second of a day is not in the day's range. *)
Definition last_second (r : Row) : Prop := day_end (date_of (timestamp r)) < timestamp r.

Lemma last_second_outside date r : last_second r → within date r = false.
Proof.
  intros H. destruct (within date r) eqn:E; [|done]. assert (date_of (timestamp r) = date) as Hd by by apply within_date.
  unfold last_second in H. rewrite Hd in H. unfold within in E. apply andb_prop in E as [_ E%Z.leb_le]. lia.
Qed.

Lemma last_second_stays prefix parquet after_days r s :
  last_second r → r ∈ events (db s) → r ∈ events (db (archive_once prefix parquet after_days s).2).
Proof.
  intros Hl. set (R := λ v v' : Store * list Empty_set, r ∈ events v.1 → r ∈ events v'.1).
  assert (PreOrder R) as HR by (split; [intros v H; exact H|intros a b c H1 H2 H; apply H2, H1, H]).
  enough (preserves R (archive_once prefix parquet after_days)) as H by (apply (H s)).
  unfold archive_once. apply preserves_bind; [done|apply preserves_clock, HR|]. intros t.
  apply preserves_bind; [done|apply preserves_query, HR|]. intros dates. induction dates as [|date dates IH]; [apply preserves_ret, HR|].
  cbn [archive_dates]. apply preserves_bind; [done|apply preserves_attempt|by intros _].
  unfold archive_date. apply preserves_bind; [done|by apply fetch_day_preserves|]. intros [|r0 rows]; [apply preserves_ret, HR|].
  apply preserves_bind; [done|apply preserves_of_result, HR|]. intros bytes. apply preserves_bind; [done| |].
  - intros s' H. unfold put_object. destruct (s3_fault (ops s')); cbn; apply elem_of_app; by left.
  - intros etag. destruct (negb _); [apply preserves_throw, HR|]. apply preserves_execute; [done|]. intros _ d tr H.
    apply in_delete_within. split; [exact H|]. by apply last_second_outside.
Qed.
End Archiver.

(** The columns of the code's query. *)
Definition archive_columns : list string :=
  ["id"; "contract_id"; "event_type"; "tx_hash"; "ledger"; "timestamp"; "event_data"; "created_at"; "total_count"]%string.

(** So the code archives nothing. *)
Theorem archiver_idle pg encode_ndjson_gz write_parquet sha256 day_path s3_fault e_tag arrivals prefix parquet after_days s :
  db (archive_once pg encode_ndjson_gz write_parquet sha256 day_path s3_fault e_tag arrivals archive_columns prefix parquet after_days s).2 = db s.
Proof. by apply missing_column_archives_nothing. Qed.

(** ** What would be lost if the column were there *)

Section ArchiveDemo.
Local Open Scope string_scope.

Definition demo_row (h : string) (t : Z) : Row := mkRow 1 "C1" "contract" h 7 t Null t.

Definition demo_encode (rows : list Row) : result string string := Ok (join "" (map (λ r, tx_hash r +:+ ";") rows)).

(** A pass at noon of day 40 over what is ten days old, with [arrivals] during uploads. *)
Definition demo_pass (arrivals : nat → list Row) (d : Store) : Store :=
  db (archive_once (mkPgEnv (λ _, (40 * day_us + 43200 * second_us)%Z) (λ _, None)) demo_encode demo_encode (λ b, b) show_u (λ _, None) (λ b, b) arrivals ("event_data_normalized" :: archive_columns) "events" false 10
        (mkSt d 0 [])).2.

(** An event that is backfilled into an archived day replaces its archive. *)
Lemma backfill_overwrites_archive :
  let d := demo_pass (λ _, []) (mkStore [demo_row "a" 5] ∅) in
  let d' := demo_pass (λ _, []) (mkStore (events d ++ [demo_row "b" 6]) (bucket d)) in
  events d' = [] ∧ map_to_list (bucket d') = [("events/0/events.ndjson.gz", "b;")].
Proof. by vm_compute. Qed.

(** An event that arrives during the upload is deleted with the others. *)
Lemma arrival_deleted_unarchived :
  let d := demo_pass (λ n, if Nat.eqb n 3 then [demo_row "b" 6] else []) (mkStore [demo_row "a" 5] ∅) in
  events d = [] ∧ map_to_list (bucket d) = [("events/0/events.ndjson.gz", "a;")].
Proof. by vm_compute. Qed.

(** The day of the cutoff goes as a whole, with what is not ten days old yet;
    and the last fraction of a second of a day never goes. *)
Lemma cutoff_day_whole :
  let young := demo_row "young" (30 * day_us + 72000 * second_us) in
  let last := demo_row "last" (29 * day_us + 86399 * second_us + 500000) in
  events (demo_pass (λ _, []) (mkStore [demo_row "old" (30 * day_us); young; last] ∅)) = [last].
Proof. by vm_compute. Qed.
End ArchiveDemo.

(** ** The pruning task *)

Record Partition : Type := mkPartition { p_name : string; p_rows : list Row }.

(** The partitions of events, and the names of the other tables. *)
Record Tables : Type := mkTables { partitions : list Partition; other_tables : list string }.

Definition all_rows (d : Tables) : list Row := concat (map p_rows (partitions d)).

(** [RIGHT(name, 7)]. *)
Definition right7 (s : string) : string := String.substring (String.length s - 7) 7 s.

(** [LIKE 'events_%'], whose underscore is any character. *)
Definition like_events (name : string) : bool := starts_with "events" name && (6 <? String.length name)%nat.

Section Pruner.
Variable pg : PgEnv.
(** PostgreSQL's [to_date(_, 'YYYY_MM_DD')], in days. *)
Variable to_date : string → result Z string.

Local Abbreviation M := (Pg.M Tables Empty_set string).

Definition partition_date (name : string) : result Z string := to_date (right7 name +:+ "_01").

Fixpoint dates_of (names : list string) : result (list (string * Z)) string :=
  match names with
  | [] => Ok []
  | n :: rest => let? d := partition_date n in let? l := dates_of rest in Ok ((n, d) :: l)
  end.

Definition candidates (d : Tables) : list string :=
  sort_by (flip_cmp String.compare) (List.filter (λ n, like_events n && negb (String.eqb n "events")) (map p_name (partitions d) ++ other_tables d)).

Definition is_old (today retain_months : Z) (x : string * Z) : bool := x.2 <? today - retain_months * 30.

Definition reason (retain_months : Z) (dropped : bool) : string :=
  if dropped then "Dropped (older than " +:+ show_i retain_months +:+ " months)"
  else "Retained (within " +:+ show_i retain_months +:+ " month retention window)".

Definition drop_tables (names : list string) (d : Tables) : Tables :=
  let keep n := negb (existsb (String.eqb n) names) in
  mkTables (List.filter (λ p, keep (p_name p)) (partitions d)) (List.filter keep (other_tables d)).

(** The SQL function, not as a dry run: a name without a date aborts it. *)
Definition drop_old_partitions (today retain_months : Z) (d : Tables) : result (list (string * bool * string) * Tables) string :=
  let? dated := dates_of (candidates d) in
  Ok (map (λ x, (x.1, is_old today retain_months x, reason retain_months (is_old today retain_months x))) dated,
      drop_tables (map fst (List.filter (is_old today retain_months) dated)) d).

Definition retention_months (retention_days : Z) : Z := wrap_i 32 (Z.max 1 (retention_days / 30)).

Definition prune_old_partitions (retention_days : Z) : M (list (string * bool * string)) :=
  stmt pg (λ t d, drop_old_partitions (t / day_us) (retention_months retention_days) d).

Definition delete_older (cutoff : Z) (d : Tables) : nat * Tables :=
  (length (List.filter (λ r, created_at r <? cutoff) (all_rows d)),
   mkTables (map (λ p, mkPartition (p_name p) (List.filter (λ r, negb (created_at r <? cutoff)) (p_rows p))) (partitions d)) (other_tables d)).

Definition prune_old_events (retention_days : Z) : M () :=
  t ← clock pg;
  n ← execute_count pg (λ _, delete_older (t - retention_days * day_us));
  if (0 <? n)%nat then execute pg (λ _ d, d) else mret ().

(** A tick of the task; [RETENTION_DAYS=0] starts none. *)
Definition pruning_tick (retention_days : Z) : M () :=
  attempt (prune_old_events retention_days : M ()) ;;
  attempt (prune_old_partitions retention_days : M (list (string * bool * string))) ;;
  mret ().

Definition pruning_enabled (retention_days : Z) : bool := negb (retention_days =? 0).
End Pruner.

(** ** Tiers (retention_tiers.rs); the counters stay below their width *)

Inductive StorageTier : Type := Hot | Warm | Cold.
Inductive CompressionAlgorithm : Type := NoCompression | Gzip | Zstd.

Record RetentionPolicy : Type := mkPolicy {
  name : string;
  hot_to_warm_after_secs : Z;
  warm_to_cold_after_secs : Z;
  delete_after_secs : option Z;
  warm_compression : CompressionAlgorithm;
  cold_compression : CompressionAlgorithm;
}.

Definition standard (name : string) : RetentionPolicy :=
  mkPolicy name (7 * 24 * 3600) (30 * 24 * 3600) (Some (365 * 24 * 3600)) Gzip Zstd.

Inductive RetentionAction : Type := Retain | MoveTier (to : StorageTier) (compression : CompressionAlgorithm) | Delete.

Definition move (p : RetentionPolicy) (tier : StorageTier) (age_secs : Z) : RetentionAction :=
  match tier with
  | Hot => if hot_to_warm_after_secs p <=? age_secs then MoveTier Warm (warm_compression p) else Retain
  | Warm => if warm_to_cold_after_secs p <=? age_secs then MoveTier Cold (cold_compression p) else Retain
  | Cold => Retain
  end.

Definition evaluate (p : RetentionPolicy) (tier : StorageTier) (age_secs : Z) : RetentionAction :=
  match delete_after_secs p with
  | Some d => if d <=? age_secs then Delete else move p tier age_secs
  | None => move p tier age_secs
  end.

(** The decimal ratios are those of the binary64 literals. *)
Definition estimated_compression_ratio (c : CompressionAlgorithm) : f64 :=
  match c with
  | NoCompression => F64.of_Z 1
  | Gzip => F64.div (F64.of_Z 35) (F64.of_Z 100)
  | Zstd => F64.div (F64.of_Z 1) (F64.of_Z 4)
  end.

Record RetentionCandidate : Type := mkCandidate { r_id : string; tier : StorageTier; created_at_unix : Z; size_bytes : Z }.

Record RetentionEvent : Type := mkEvent { candidate_id : string; action : RetentionAction; bytes_before : Z; bytes_after : Z }.

Record RetentionMetrics : Type := mkMetrics {
  evaluated : Z;
  moved_to_warm : Z;
  moved_to_cold : Z;
  deleted : Z;
  bytes_before_total : Z;
  bytes_after_total : Z;
}.

Definition no_metrics : RetentionMetrics := mkMetrics 0 0 0 0 0 0.

Definition bytes_saved (m : RetentionMetrics) : Z := Z.max 0 (bytes_before_total m - bytes_after_total m).

Definition compression_ratio (m : RetentionMetrics) : f64 :=
  if bytes_before_total m =? 0 then F64.of_Z 1 else F64.div (F64.of_Z (bytes_after_total m)) (F64.of_Z (bytes_before_total m)).

Definition size_after (a : RetentionAction) (size : Z) : Z :=
  match a with
  | Retain => size
  | Delete => 0
  | MoveTier _ c => F64.to_u 64 (F64.mul (F64.of_Z size) (estimated_compression_ratio c))
  end.

Definition event_of (p : RetentionPolicy) (now : Z) (c : RetentionCandidate) : RetentionEvent :=
  let a := evaluate p (tier c) (Z.max 0 (now - created_at_unix c)) in
  mkEvent (r_id c) a (size_bytes c) (size_after a (size_bytes c)).

Definition count_event (m : RetentionMetrics) (e : RetentionEvent) : RetentionMetrics :=
  mkMetrics (evaluated m + 1)
    (match action e with MoveTier Warm _ => moved_to_warm m + 1 | _ => moved_to_warm m end)
    (match action e with MoveTier Cold _ => moved_to_cold m + 1 | _ => moved_to_cold m end)
    (match action e with Delete => deleted m + 1 | _ => deleted m end)
    (bytes_before_total m + bytes_before e) (bytes_after_total m + bytes_after e).

Fixpoint enforce_at (p : RetentionPolicy) (candidates : list RetentionCandidate) (now : Z) (m : RetentionMetrics) : list RetentionEvent * RetentionMetrics :=
  match candidates with
  | [] => ([], m)
  | c :: rest => let e := event_of p now c in let '(l, m) := enforce_at p rest now (count_event m e) in (e :: l, m)
  end.

(** ** What pruning deletes *)

Section PrunerFacts.
Context (pg : PgEnv) (to_date : string → result Z string).

Local Abbreviation partition_date := (partition_date to_date).
Local Abbreviation dates_of := (dates_of to_date).
Local Abbreviation drop_old_partitions := (drop_old_partitions to_date).

Lemma in_all_rows r d : r ∈ all_rows d ↔ ∃ p, p ∈ partitions d ∧ r ∈ p_rows p.
Proof.
  unfold all_rows. rewrite list_elem_of_In, in_concat. split.
  - intros (l & Hl & Hr). apply in_map_iff in Hl as (p & <- & Hp). exists p. by rewrite !list_elem_of_In.
  - intros (p & Hp & Hr). exists (p_rows p). rewrite <- !list_elem_of_In. split; [by apply list_elem_of_fmap_2|done].
Qed.

(** The rows that [prune_old_events] leaves, when it does not fail. *)
Lemma delete_older_rows cutoff d r : r ∈ all_rows (delete_older cutoff d).2 ↔ r ∈ all_rows d ∧ cutoff ≤ created_at r.
Proof.
  rewrite !in_all_rows. cbn. split.
  - intros (p & Hp & Hr). apply list_elem_of_fmap in Hp as (q & -> & Hq). cbn in Hr.
    apply list_elem_of_In, filter_In in Hr as [Hr H%negb_true_iff%Z.ltb_ge]. split; [exists q; split; [done|by apply list_elem_of_In]|done].
  - intros [(p & Hp & Hr) H]. eexists. split; [by apply (list_elem_of_fmap_2 _ _ p)|]. cbn. apply list_elem_of_In, filter_In.
    split; [by apply list_elem_of_In|]. by apply negb_true_iff, Z.ltb_ge.
Qed.

Lemma dates_of_ok names l : dates_of names = Ok l → map fst l = names ∧ ∀ n d, (n, d) ∈ l → partition_date n = Ok d.
Proof.
  revert l. induction names as [|n names IH]; intros l; cbn; [intros [= <-]; split; [done|by intros n d ?%elem_of_nil]|].
  destruct (partition_date n) as [d|e] eqn:Ed; [|done]. cbn. destruct (dates_of names) as [l'|e]; [|done]. cbn. intros [= <-].
  destruct (IH l' eq_refl) as [H1 H2]. split; [cbn; by rewrite H1|]. intros m d' [[= -> ->]|H]%elem_of_cons; [done|by apply H2].
Qed.

Lemma in_candidates d n : n ∈ candidates d ↔ (n ∈ map p_name (partitions d) ∨ n ∈ other_tables d) ∧ like_events n = true ∧ n ≠ "events"%string.
Proof.
  unfold candidates. rewrite sort_by_permutation, list_elem_of_In, filter_In, <- list_elem_of_In, elem_of_app, andb_true_iff, negb_true_iff, String.eqb_neq.
  naive_solver.
Qed.

(** One table without a date in its name, and nothing is dropped. *)
Lemma undated_table_blocks today months d n e :
  n ∈ candidates d → partition_date n = Err e → ∃ e', drop_old_partitions today months d = Err e'.
Proof.
  intros Hn He. unfold Retention.drop_old_partitions. destruct (dates_of (candidates d)) as [l|e'] eqn:E; [|by exists e'].
  exfalso. apply dates_of_ok in E as [E1 E2]. rewrite <- E1 in Hn. apply list_elem_of_fmap in Hn as ([m k] & -> & Hm).
  specialize (E2 m k Hm). cbn in He. congruence.
Qed.

(** The rows that remain when partitions are dropped: those whose partition
    begins within the window, whatever the rows' own times are. *)
Theorem dropped_partitions_rows today months d l d' r :
  drop_old_partitions today months d = Ok (l, d') →
  Forall (λ p, like_events (p_name p) = true ∧ p_name p ≠ "events"%string) (partitions d) →
  r ∈ all_rows d' ↔ ∃ p k, p ∈ partitions d ∧ r ∈ p_rows p ∧ partition_date (p_name p) = Ok k ∧ today - months * 30 ≤ k.
Proof.
  intros H Hp. unfold Retention.drop_old_partitions in H. destruct (dates_of (candidates d)) as [dated|e] eqn:E; [|done]. cbn in H.
  injection H as _ <-. apply dates_of_ok in E as [E1 E2]. rewrite in_all_rows. rewrite Forall_forall in Hp.
  assert (∀ p, p ∈ partitions d → ∃ k, (p_name p, k) ∈ dated ∧ partition_date (p_name p) = Ok k) as Hdate.
  { intros p Hin. assert (p_name p ∈ candidates d) as Hc by (apply in_candidates; split; [left; by apply list_elem_of_fmap_2|by apply Hp]).
    rewrite <- E1 in Hc. apply list_elem_of_fmap in Hc as ([n k] & Hn & Hk). cbn in Hn. subst n. exists k. split; [done|by apply E2]. }
  assert (∀ p k, p ∈ partitions d → partition_date (p_name p) = Ok k →
    existsb (String.eqb (p_name p)) (map fst (List.filter (is_old today months) dated)) = true ↔ k < today - months * 30) as Hold.
  { intros p k Hin Hk. rewrite existsb_exists. split.
    - intros (n & Hn & Heq%String.eqb_eq). subst n. apply in_map_iff in Hn as ([n k'] & Hn & Hx). cbn in Hn. subst n. apply filter_In in Hx as [Hx Ho].
      apply list_elem_of_In, E2 in Hx. assert (k' = k) as -> by congruence. unfold is_old in Ho. by apply Z.ltb_lt in Ho.
    - intros Hlt. exists (p_name p). split; [|apply String.eqb_refl]. apply in_map_iff. exists (p_name p, k). split; [done|]. apply filter_In.
      destruct (Hdate p Hin) as (k' & Hx & Hk'). assert (k' = k) as -> by congruence. split; [by apply list_elem_of_In|]. by apply Z.ltb_lt. }
  cbn. split.
  - intros (p & Hin & Hr). apply list_elem_of_In, filter_In in Hin as [Hin Hneg%negb_true_iff]. apply list_elem_of_In in Hin.
    destruct (Hdate p Hin) as (k & _ & Hk). exists p, k. split_and!; [done..|]. pose proof (Hold p k Hin Hk) as Hk'.
    destruct (Z.le_gt_cases (today - months * 30) k); [done|]. rewrite (proj2 Hk') in Hneg by lia. done.
  - intros (p & k & Hin & Hr & Hk & Hle). exists p. split; [|done]. apply list_elem_of_In, filter_In. split; [by apply list_elem_of_In|].
    apply negb_true_iff. destruct (existsb _ _) eqn:Ee; [|done]. apply (Hold p k Hin Hk) in Ee. lia.
Qed.

(** So a row may go up to a month before its time, and not earlier. *)
Lemma dropped_row_age today months k t :
  k < today - months * 30 → k * day_us ≤ t < (k + 31) * day_us → t / day_us < today - months * 30 + 30.
Proof. unfold day_us, second_us. intros H1 H2. apply Z.div_lt_upper_bound; lia. Qed.

Lemma retention_months_window days : 30 ≤ days < 30 * 2 ^ 31 → retention_months days * 30 ≤ days < retention_months days * 30 + 30.
Proof.
  intros H. unfold retention_months, wrap_i. assert (1 ≤ days / 30 < 2 ^ 31) by (split; [apply Z.div_le_lower_bound|apply Z.div_lt_upper_bound]; lia).
  rewrite Z.max_r by lia. change (2 ^ (32 - 1)) with (2 ^ 31). rewrite Z.mod_small by lia. pose proof (Z.div_mod days 30 ltac:(lia)). pose proof (Z.mod_pos_bound days 30). lia.
Qed.
End PrunerFacts.

(** On 1 August 2026 (day 20666) with a retention of 90 days: the partition of
    May is dropped, with an event of 31 May, 62 days old. *)
Definition demo_to_date (s : string) : result Z string :=
  if String.eqb s "2026_05_01" then Ok 20574 else if String.eqb s "2026_06_01" then Ok 20605 else Err "invalid value".

Definition may_event : Row := mkRow 1 "C1" "contract" "t" 7 (20604 * day_us) Null (20604 * day_us).

Lemma window_cut_short :
  let d := mkTables [mkPartition "events_2026_05" [may_event]; mkPartition "events_2026_06" []] [] in
  let s := (pruning_tick (mkPgEnv (λ _, 20666 * day_us) (λ _, None)) demo_to_date 90 (mkSt d 0 [])).2 in
  all_rows (db s) = [] ∧ 20666 * day_us - 90 * day_us < timestamp may_event.
Proof. by vm_compute. Qed.

(** With the table that the migration leaves behind, the function fails. *)
Lemma legacy_table_blocks :
  let d := mkTables [mkPartition "events_2026_05" [may_event]] ["events_legacy"%string] in
  drop_old_partitions demo_to_date 20666 3 d = Err "invalid value"%string.
Proof. reflexivity. Qed.

(** ** What the tiers do *)

(** Age decides monotonically: what is moved or deleted is not retained later,
    and what is deleted stays so. *)
Definition rank (a : RetentionAction) : nat := match a with Retain => 0 | MoveTier _ _ => 1 | Delete => 2 end.

Lemma evaluate_monotone p t age age' : age ≤ age' → (rank (evaluate p t age) ≤ rank (evaluate p t age'))%nat.
Proof.
  intros H. unfold evaluate, move. destruct (delete_after_secs p) as [d|]; [destruct (Z.leb_spec d age), (Z.leb_spec d age'); cbn; try lia|];
    destruct t; cbn; repeat (match goal with |- context [?x <=? ?y] => destruct (Z.leb_spec x y) end; cbn); lia.
Qed.

(** Data only moves down, one tier at a time. *)
Lemma evaluate_one_down p t age to c : evaluate p t age = MoveTier to c → (t = Hot ∧ to = Warm) ∨ (t = Warm ∧ to = Cold).
Proof.
  unfold evaluate, move. destruct (delete_after_secs p) as [d|]; [destruct (d <=? age); [done|]|];
    destruct t; try done; destruct (_ <=? age); try done; intros [= <- <-]; auto.
Qed.

(** The metrics are the sums over the events. *)
Lemma enforce_counts p cs now : ∀ m,
  let '(l, m') := enforce_at p cs now m in
  map candidate_id l = map r_id cs ∧ evaluated m' = evaluated m + Z.of_nat (length cs) ∧
  bytes_before_total m' = bytes_before_total m + fold_right Z.add 0 (map size_bytes cs) ∧
  bytes_after_total m' = bytes_after_total m + fold_right Z.add 0 (map bytes_after l) ∧
  moved_to_warm m' + moved_to_cold m' + deleted m'
    = moved_to_warm m + moved_to_cold m + deleted m + Z.of_nat (length (List.filter (λ e, negb (Nat.eqb (rank (action e)) 0)) l)).
Proof.
  induction cs as [|c cs IH]; intros m; [cbn; split_and!; (done || lia)|]. cbn [enforce_at]. specialize (IH (count_event m (event_of p now c))).
  destruct (enforce_at p cs now _) as [l m']. destruct IH as (H1 & H2 & H3 & H4 & H5). cbn [map fold_right length List.filter].
  split_and!; [by rewrite H1|rewrite H2; cbn [evaluated count_event]; lia|rewrite H3; cbn; lia|rewrite H4; cbn; lia|].
  rewrite H5. unfold event_of, count_event. cbn [action moved_to_warm moved_to_cold deleted].
  destruct (evaluate p (tier c) _) as [|to co|] eqn:Ee; cbn; [lia| |lia]. apply evaluate_one_down in Ee as [[_ ->]|[_ ->]]; cbn; lia.
Qed.
End Retention.
