(* ===== verification/Partitions.v ===== *)
(** The partitions of the table of events by month and by ledger
    (partition_manager.rs): their names and bounds, their creation ahead of
    time, what is listed, archived and forecast.

    Bounds are days since 1970 (or ledgers); times are microseconds.  The sums
    stay below their width; the session's time zone is UTC. *)

From S2P Require Import Prelude F64 Text Model Toid Pg.

Module Partitions.

Definition day_us : Z := 86400000000.

(** ** The calendar *)

(** The day on which a month begins, in the proleptic Gregorian calendar. *)
Definition first_of_month (year month : Z) : Z :=
  let y := if 2 <? month then year else year - 1 in
  365 * y + y / 4 - y / 100 + y / 400 + (153 * ((month + 9) mod 12) + 2) / 5 - 719468.

Definition next_month (ym : Z * Z) : Z * Z := if ym.2 =? 12 then (ym.1 + 1, 1) else (ym.1, ym.2 + 1).

(** [Utc.with_ymd_and_hms(year, month, 1, 0, 0, 0).single()] *)
Definition month_start (year month : Z) : option Z :=
  if (-262143 <=? year) && (year <=? 262142) && (1 <=? month) && (month <=? 12) then Some (first_of_month year month) else None.

(** ** Names *)

Definition partition_name (year month : Z) : string := "events_" +:+ show_u_pad 4 year +:+ "_" +:+ show_u_pad 2 month.

Definition strip_archive (name : string) : string := default name (strip_prefix "archive_" name).

Definition parse_partition_dates (name : string) : option (Z * Z) :=
  suffix ← strip_prefix "events_" (strip_archive name);
  parts ← split_once "_" suffix;
  year ← parse_i 32 parts.1;
  month ← parse_u 32 parts.2;
  if (month <? 1) || (12 <? month) then None else
  start ← month_start year month;
  let '(end_year, end_month) := next_month (year, month) in
  stop ← month_start end_year end_month;
  Some (start, stop).

Definition ledger_partition_name (start_ledger end_ledger : Z) : string :=
  "events_ledger_" +:+ show_u_pad 10 start_ledger +:+ "_" +:+ show_u_pad 10 end_ledger.

Definition parse_ledger_partition_range (name : string) : option (Z * Z) :=
  suffix ← strip_prefix "events_ledger_" (strip_archive name);
  parts ← split_once "_" suffix;
  start ← parse_i 64 parts.1;
  stop ← parse_i 64 parts.2;
  Some (start, stop).

(** ** The catalogue *)

(** What the table is partitioned by. *)
Inductive PartitionKey : Type := ByTimestamp | ByLedger.

#[export] Instance PartitionKey_eq : EqDecision PartitionKey.
Proof. solve_decision. Defined.

(** A child of the table: its bounds, live tuples and size; and the table's
    statistics of autovacuum. *)
Record Child : Type := mkChild { c_name : string; c_from : Z; c_to : Z; n_live_tup : Z; total_size : Z }.

Record Catalog : Type := mkCatalog {
  key : PartitionKey;
  children : list Child;
  last_autovacuum : list (string * option Z);
  max_ledger : Z;
}.

Record PartitionInfo : Type := mkInfo {
  table_name : string;
  start_date : Z;
  end_date : Z;
  row_count : Z;
  size_bytes : Z;
  is_hot : bool;
  is_archived : bool;
  last_accessed : option Z;
}.

Section Manager.
Variable pg : PgEnv.
(** chrono's year and month of a time. *)
Variable year_month : Z → Z * Z.

Local Abbreviation M := (Pg.M Catalog Empty_set string).

Definition by_name : list Child → list Child := sort_by (cmp_on c_name String.compare).

Definition access_of (l : list (string * option Z)) (n : string) : option Z :=
  match last (filter (λ x, x.1 = n) l) with Some (_, t) => t | None => None end.

(** [LIKE 'events_%']. *)
Definition like_events (n : string) : bool := starts_with "events" n && (6 <? String.length n)%nat.

Definition info_of (now : Z) (access : list (string * option Z)) (c : Child) : option PartitionInfo :=
  '(start, stop) ← parse_partition_dates (c_name c);
  let last := access_of access (c_name c) in
  Some (mkInfo (c_name c) start stop (n_live_tup c) (total_size c)
          (match last with Some t => now - 30 * day_us <? t | None => false end) (starts_with "archive_" (c_name c)) last).

Definition list_partitions : M (list PartitionInfo) :=
  rows ← query pg (λ _ d, by_name (children d));
  access ← attempt (query pg (λ _ d, List.filter (λ x, like_events x.1) (last_autovacuum d)) : M (list (string * option Z)));
  t ← clock pg;
  mret (omap (info_of t (match access with Ok l => l | Err _ => [] end)) rows).

Definition overlaps (from to : Z) (c : Child) : bool := (c_from c <? to) && (from <? c_to c).

(** [CREATE TABLE IF NOT EXISTS .. PARTITION OF], with bounds of the kind [k]:
    others than the key's cannot be cast to its type. *)
Definition create_table (k : PartitionKey) (name : string) (from to : Z) : M () :=
  stmt pg (λ _ d,
    if existsb (λ c, String.eqb (c_name c) name) (children d) then Ok ((), d) else
    if negb (bool_decide (k = key d)) then Err "specified value cannot be cast to the type of the partition key"%string else
    if to <=? from then Err ("empty range bound specified for partition " +:+ name)%string else
    match List.find (overlaps from to) (children d) with
    | Some c => Err ("partition " +:+ name +:+ " would overlap partition " +:+ c_name c)%string
    | None => Ok ((), mkCatalog (key d) (children d ++ [mkChild name from to 0 0]) (last_autovacuum d) (max_ledger d))
    end).

Definition create_index : M () := execute pg (λ _ d, d).

(** A month that chrono does not know begins now. *)
Definition create_partition (year month : Z) : M string :=
  t ← clock pg;
  let today := t / day_us in
  let '(end_year, end_month) := next_month (year, month) in
  let name := partition_name year month in
  create_table ByTimestamp name (default today (month_start year month)) (default today (month_start end_year end_month)) ;;
  create_index ;; create_index ;; create_index ;;
  mret name.

Fixpoint create_months (n : nat) (ym : Z * Z) (created : list string) : M (list string) :=
  match n with
  | O => mret created
  | S n =>
      r ← attempt (create_partition ym.1 ym.2 : M string);
      create_months n (next_month ym) (match r with Ok name => created ++ [name] | Err _ => created end)
  end.

Definition create_future_partitions (months_ahead : nat) : M (list string) :=
  t ← clock pg; create_months (S months_ahead) (year_month t) [].

Record PartitionPruningReport : Type := mkReport {
  total_partitions : nat;
  pruned_partitions : nat;
  accessed_partitions : nat;
  pruning_effectiveness : f64;
  accessed_partition_names : list string;
}.

(** Times of a query against bounds in days. *)
Definition accessed (from_ts to_ts : Z) (p : PartitionInfo) : bool := (start_date p * day_us <? to_ts) && (from_ts <? end_date p * day_us).

Definition analyze_partition_pruning (from_ts to_ts : Z) : M PartitionPruningReport :=
  partitions ← list_partitions;
  let names := map table_name (List.filter (accessed from_ts to_ts) partitions) in
  let pruned := (length partitions - length names)%nat in
  mret (mkReport (length partitions) pruned (length names)
          (if (0 <? length partitions)%nat then F64.div (F64.of_Z (Z.of_nat pruned)) (F64.of_Z (Z.of_nat (length partitions))) else F64.of_Z 1) names).

Definition identify_cold_partitions (inactive_months : Z) : M (list PartitionInfo) :=
  t ← clock pg;
  partitions ← list_partitions;
  mret (List.filter (λ p, match last_accessed p with Some a => a <? t - inactive_months * 30 * day_us | None => true end && negb (is_archived p)) partitions).

Record PartitionArchivalConfig : Type := mkArchival { archive_table_prefix : string; dry_run : bool }.

Definition rename_table (old new : string) : M () :=
  stmt pg (λ _ d,
    if negb (existsb (λ c, String.eqb (c_name c) old) (children d)) then Err ("relation " +:+ old +:+ " does not exist")%string else
    if existsb (λ c, String.eqb (c_name c) new) (children d) then Err ("relation " +:+ new +:+ " already exists")%string else
    Ok ((), mkCatalog (key d) (map (λ c, if String.eqb (c_name c) old then mkChild new (c_from c) (c_to c) (n_live_tup c) (total_size c) else c) (children d))
              (last_autovacuum d) (max_ledger d))).

Definition arrow : string := " → ".

Definition archive_partition (name : string) (config : PartitionArchivalConfig) : M string :=
  let archive_name := archive_table_prefix config +:+ name in
  if dry_run config then mret ("DRY RUN: " +:+ name +:+ arrow +:+ archive_name) else
  rename_table name archive_name ;; mret ("Archived " +:+ name +:+ arrow +:+ archive_name).

Definition calculate_partition_skew : M (list (string * Z * f64)) :=
  partitions ← list_partitions;
  match partitions with
  | [] => mret []
  | _ =>
      let mean := F64.div (F64.of_Z (fold_right Z.add 0 (map row_count partitions))) (F64.of_Z (Z.of_nat (length partitions))) in
      mret (map (λ p, (table_name p, row_count p, if F64.gtb mean (F64.of_Z 0) then F64.div (F64.of_Z (row_count p)) mean else F64.of_Z 0)) partitions)
  end.

(** ** By ledger *)

Record LedgerPartitionConfig : Type := mkLedgerConfig {
  ledger_range_per_partition : Z;
  auto_create_partitions : bool;
  max_partitions_before_archival : Z;
}.

Definition default_ledger_config : LedgerPartitionConfig := mkLedgerConfig 1000000 true 12.

Record LedgerPartitionInfo : Type := mkLedgerInfo {
  partition_name_ : string;
  start_ledger : Z;
  end_ledger : Z;
  l_row_count : Z;
  l_size_bytes : Z;
  l_archived : bool;
}.

Definition create_ledger_partition (start stop : Z) : M string :=
  let name := ledger_partition_name start stop in
  create_table ByLedger name start stop ;; create_index ;; create_index ;; mret name.

(** [LIKE 'events_ledger_%']. *)
Definition like_ledger (n : string) : bool :=
  starts_with "events" n && String.eqb (String.substring 7 6 n) "ledger" && (14 <=? String.length n)%nat.

Definition ledger_info (c : Child) : option LedgerPartitionInfo :=
  '(start, stop) ← parse_ledger_partition_range (c_name c);
  Some (mkLedgerInfo (c_name c) start stop (n_live_tup c) (total_size c) (starts_with "archive_" (c_name c))).

Definition list_ledger_partitions : M (list LedgerPartitionInfo) :=
  rows ← query pg (λ _ d, by_name (List.filter (λ c, like_ledger (c_name c)) (children d)));
  mret (omap ledger_info rows).

Fixpoint create_ledgers (n : nat) (range start : Z) (created : list string) : M (list string) :=
  match n with
  | O => mret created
  | S n =>
      r ← attempt (create_ledger_partition start (start + range) : M string);
      create_ledgers n range (start + range) (match r with Ok name => created ++ [name] | Err _ => created end)
  end.

Definition create_future_ledger_partitions (config : LedgerPartitionConfig) (num : nat) : M (list string) :=
  latest ← query pg (λ _, max_ledger);
  create_ledgers num (ledger_range_per_partition config) latest [].

Fixpoint archive_ledgers (l : list LedgerPartitionInfo) : M () :=
  match l with
  | [] => mret ()
  | p :: rest => attempt (rename_table (partition_name_ p) ("archive_" +:+ partition_name_ p) : M ()) ;; archive_ledgers rest
  end.

Definition rotate_ledger_partitions (config : LedgerPartitionConfig) : M () :=
  partitions ← list_ledger_partitions;
  let active := List.filter (λ p, negb (l_archived p)) partitions in
  let n := Z.of_nat (length active) in
  (if max_partitions_before_archival config <? n
   then archive_ledgers (take (Z.to_nat (n - max_partitions_before_archival config)) (sort_by (cmp_on start_ledger Z.compare) active))
   else mret ()) ;;
  if auto_create_partitions config then create_future_ledger_partitions config 3 ;; mret () else mret ().

Record LedgerPartitionStats : Type := mkStats { l_total : nat; active_partitions : nat; archived_partitions : nat; total_rows : Z; total_size_bytes : Z }.

Definition get_ledger_partition_stats : M LedgerPartitionStats :=
  partitions ← list_ledger_partitions;
  mret (mkStats (length partitions) (length (List.filter (λ p, negb (l_archived p)) partitions)) (length (List.filter l_archived partitions))
          (fold_right Z.add 0 (map l_row_count partitions)) (fold_right Z.add 0 (map l_size_bytes partitions))).

(** ** Forecast *)

Record CapacityForecast : Type := mkForecast {
  current_size_bytes : Z;
  growth_rate_bytes_per_day : f64;
  days_until_threshold : option Z;
  threshold_bytes : Z;
  forecast_partitions : list (string * Z);
}.

Definition THRESHOLD : Z := 1024 * 1024 * 1024 * 1024.

(** [x as i64]. *)
Definition to_i64 (x : f64) : Z :=
  match x with
  | S754_finite true m e => - Z.min (2 ^ 63) (F64.to_u 64 (S754_finite false m e))
  | S754_infinity true => - 2 ^ 63
  | _ => Z.min (i_max 64) (F64.to_u 64 x)
  end.

Fixpoint upcoming (n : nat) (ym : Z * Z) (size : Z) : list (string * Z) :=
  match n with O => [] | S n => (partition_name ym.1 ym.2, size) :: upcoming n (next_month ym) size end.

Definition forecast_capacity (days_ahead : Z) : M CapacityForecast :=
  partitions ← list_partitions;
  t ← clock pg;
  let total := fold_right Z.add 0 (map size_bytes partitions) in
  let recent := take 3 (sort_by (flip_cmp (cmp_on start_date Z.compare)) partitions) in
  let avg := match recent with
             | [] => F64.of_Z 0
             | _ => F64.div (fold_left F64.add (map (λ p, F64.of_Z (size_bytes p)) recent) (F64.of_Z 0)) (F64.of_Z (Z.of_nat (length recent)))
             end in
  let growth := F64.div avg (F64.of_Z 30) in
  let days := if F64.gtb growth (F64.of_Z 0) then Some (F64.to_u 32 (F64.div (F64.of_Z (THRESHOLD - total)) growth)) else None in
  mret (mkForecast total growth days THRESHOLD (upcoming (Z.to_nat (days_ahead / 30 + 1)) (year_month t) (to_i64 avg))).
End Manager.

(** ** Months *)

Definition is_month (ym : Z * Z) : Prop := 1 ≤ ym.2 ≤ 12.

Lemma next_is_month ym : is_month ym → is_month (next_month ym).
Proof. unfold is_month, next_month. destruct ym as [y m]. cbn. destruct (Z.eqb_spec m 12); cbn; lia. Qed.

(** Months one after the other, by their number. *)
Definition month_at (i : Z) : Z * Z := (i / 12, i mod 12 + 1).
Definition index_of (ym : Z * Z) : Z := 12 * ym.1 + (ym.2 - 1).

Lemma month_at_index ym : is_month ym → month_at (index_of ym) = ym.
Proof.
  unfold is_month, month_at, index_of. destruct ym as [y m]. cbn. intros H. f_equal.
  - symmetry. apply (Z.div_unique _ _ _ (m - 1)); lia.
  - enough ((12 * y + (m - 1)) mod 12 = m - 1) by lia. symmetry. apply (Z.mod_unique _ _ y); lia.
Qed.

Lemma index_next ym : index_of (next_month ym) = index_of ym + 1.
Proof. unfold index_of, next_month. destruct ym as [y m]. cbn. destruct (Z.eqb_spec m 12); cbn; lia. Qed.

Ltac compute_closed t := let v := eval vm_compute in t in change t with v.

Lemma first_of_month_next ym : is_month ym → first_of_month ym.1 ym.2 < first_of_month (next_month ym).1 (next_month ym).2.
Proof.
  unfold is_month, next_month. destruct ym as [y m]. cbn [fst snd]. intros H.
  assert (m = 1 ∨ m = 2 ∨ m = 3 ∨ m = 4 ∨ m = 5 ∨ m = 6 ∨ m = 7 ∨ m = 8 ∨ m = 9 ∨ m = 10 ∨ m = 11 ∨ m = 12) as Hm by lia.
  unfold first_of_month. repeat (destruct Hm as [-> |Hm]); try subst m; cbn [Z.eqb Pos.eqb fst snd];
    repeat match goal with
           | |- context [(153 * (?a mod 12) + 2) / 5] => compute_closed ((153 * (a mod 12) + 2) / 5)
           | |- context [2 <? ?a] => compute_closed (2 <? a)
           end;
    cbv iota; replace (y + 1 - 1) with y by lia; Z.to_euclidean_division_equations; lia.
Qed.

Definition start_of (i : Z) : Z := first_of_month (month_at i).1 (month_at i).2.

Lemma start_of_next i : start_of i < start_of (i + 1).
Proof.
  assert (is_month (month_at i)) as H by (unfold is_month, month_at; cbn; pose proof (Z.mod_pos_bound i 12); lia).
  assert (month_at (i + 1) = next_month (month_at i)) as E.
  { rewrite <- (month_at_index (next_month (month_at i))) by by apply next_is_month. rewrite index_next. f_equal.
    unfold index_of, month_at. cbn. pose proof (Z.div_mod i 12 ltac:(lia)). lia. }
  unfold start_of. rewrite E. by apply first_of_month_next.
Qed.

Lemma start_of_mono i j : i < j → start_of (i + 1) ≤ start_of j.
Proof.
  intros H. replace j with (i + 1 + Z.of_nat (Z.to_nat (j - i - 1))) by lia. generalize (Z.to_nat (j - i - 1)). intros n. clear H.
  induction n as [|n IH]; [replace (i + 1 + Z.of_nat 0) with (i + 1) by lia; lia|].
  pose proof (start_of_next (i + 1 + Z.of_nat n)). replace (i + 1 + Z.of_nat (S n)) with (i + 1 + Z.of_nat n + 1) by lia. lia.
Qed.

(** Different months have no day in common. *)
Lemma months_disjoint i j : i ≠ j → start_of (i + 1) ≤ start_of j ∨ start_of (j + 1) ≤ start_of i.
Proof. intros H. destruct (Z.lt_total i j) as [Hl|[E|Hl]]; [left|done|right]; by apply start_of_mono. Qed.

(** ** Names and back *)

Definition printable_month (ym : Z * Z) : Prop := 0 ≤ ym.1 < 9999 ∧ is_month ym.

Lemma strip_own_name ym : strip_archive (partition_name ym.1 ym.2) = partition_name ym.1 ym.2.
Proof. reflexivity. Qed.

Lemma show_u_pad_no_underscore k n : string_forallb (λ a, negb (Ascii.eqb a "_")) (show_u_pad k n) = true.
Proof.
  apply dec_fixed_forall. intros d Hd. apply negb_true_iff, Ascii.eqb_neq.
  intros E. pose proof (digit_char_code d Hd) as Hc. rewrite E in Hc. change (95 = 48 + d) in Hc. lia.
Qed.

(** A partition's name tells its month, also when it has been archived. *)
Lemma partition_name_bounds ym :
  printable_month ym →
  let bounds := Some (start_of (index_of ym), start_of (index_of ym + 1)) in
  parse_partition_dates (partition_name ym.1 ym.2) = bounds ∧ parse_partition_dates ("archive_" +:+ partition_name ym.1 ym.2) = bounds.
Proof.
  intros [Hy Hm]. destruct ym as [y m]. unfold is_month in Hm. cbn [fst snd] in *. cbv zeta.
  assert (strip_archive ("archive_" +:+ partition_name y m) = partition_name y m) as Ha by (unfold strip_archive; by rewrite strip_prefix_app).
  assert (∀ name, strip_archive name = partition_name y m →
    parse_partition_dates name = Some (start_of (index_of (y, m)), start_of (index_of (y, m) + 1))) as H; [|by split; apply H].
  intros name En. unfold parse_partition_dates. rewrite En. unfold partition_name at 1. rewrite strip_prefix_app. cbn [mbind option_bind].
  rewrite (split_once_app "_" (show_u_pad 4 y) (show_u_pad 2 m) (show_u_pad_no_underscore 4 y) :
    split_once "_" (show_u_pad 4 y +:+ "_" +:+ show_u_pad 2 m) = Some (show_u_pad 4 y, show_u_pad 2 m)). cbn [mbind option_bind fst snd].
  rewrite Toid.parse_show_i_pad by lia. cbn [mbind option_bind]. rewrite Toid.parse_show_u_pad by (unfold in_u; lia). cbn [mbind option_bind].
  destruct (Z.ltb_spec m 1); [lia|]. destruct (Z.ltb_spec 12 m); [lia|]. cbn [orb].
  assert (∀ a b, -1 ≤ a ≤ 9999 → 1 ≤ b ≤ 12 → month_start a b = Some (first_of_month a b)) as Hs.
  { intros a b Ha' Hb. unfold month_start. destruct (Z.leb_spec (-262143) a), (Z.leb_spec a 262142), (Z.leb_spec 1 b), (Z.leb_spec b 12); (done || lia). }
  rewrite Hs by lia. cbn [mbind option_bind]. rewrite <- index_next. unfold start_of.
  rewrite !month_at_index by (unfold is_month; cbn; lia || (apply next_is_month; unfold is_month; cbn; lia)).
  destruct (next_month (y, m)) as [y' m'] eqn:En'. unfold next_month in En'. cbn [fst snd] in En'.
  assert (-1 ≤ y' ≤ 9999 ∧ 1 ≤ m' ≤ 12) as [Hy' Hm'] by (destruct (Z.eqb_spec m 12); injection En' as <- <-; lia).
  rewrite Hs by done. done.
Qed.
(** ** Months ahead of time *)

Definition name_of (i : Z) : string := partition_name (month_at i).1 (month_at i).2.

Definition printable (i : Z) : Prop := 0 ≤ i < 12 * 9999.

Lemma month_at_is_month i : is_month (month_at i).
Proof. unfold is_month, month_at. cbn. pose proof (Z.mod_pos_bound i 12). lia. Qed.

Lemma index_month_at i : index_of (month_at i) = i.
Proof. unfold index_of, month_at. cbn. pose proof (Z.div_mod i 12 ltac:(lia)). lia. Qed.

Lemma next_month_at i : next_month (month_at i) = month_at (i + 1).
Proof.
  rewrite <- (month_at_index (next_month (month_at i))) by apply next_is_month, month_at_is_month. by rewrite index_next, index_month_at.
Qed.

Lemma printable_at i : printable i → printable_month (month_at i).
Proof.
  unfold printable. intros H. split; [|apply month_at_is_month]. cbn. split; [apply Z.div_pos|apply Z.div_lt_upper_bound]; lia.
Qed.

Lemma month_start_at i : printable i ∨ printable (i - 1) → month_start (month_at i).1 (month_at i).2 = Some (start_of i).
Proof.
  intros H. assert (0 ≤ (month_at i).1 ≤ 9999) as Hy.
  { unfold printable in H. cbn. split; [apply Z.div_pos|apply Z.lt_succ_r, Z.div_lt_upper_bound]; lia. }
  pose proof (month_at_is_month i) as Hm. unfold is_month in Hm. unfold month_start, start_of. destruct (month_at i) as [y m]. cbn [fst snd] in *.
  destruct (Z.leb_spec (-262143) y), (Z.leb_spec y 262142), (Z.leb_spec 1 m), (Z.leb_spec m 12); (done || lia).
Qed.

Lemma parse_name_of i : printable i → parse_partition_dates (name_of i) = Some (start_of i, start_of (i + 1)).
Proof.
  intros H. destruct (partition_name_bounds (month_at i) (printable_at i H)) as [E _]. by rewrite index_month_at in E.
Qed.

Lemma name_of_inj i j : printable i → printable j → name_of i = name_of j → i = j.
Proof.
  intros Hi Hj E. pose proof (parse_name_of i Hi) as Ei. rewrite E, (parse_name_of j Hj) in Ei. injection Ei as H1 _.
  destruct (Z.lt_total i j) as [H|[H|H]]; [|done|].
  - pose proof (start_of_mono i j H). pose proof (start_of_next i). lia.
  - pose proof (start_of_mono j i H). pose proof (start_of_next j). lia.
Qed.

(** A table by months: each child has the name and the bounds of its month. *)
Definition monthly (d : Catalog) : Prop :=
  key d = ByTimestamp ∧ ∀ c, c ∈ children d → ∃ i, printable i ∧ c_name c = name_of i ∧ c_from c = start_of i ∧ c_to c = start_of (i + 1).

Definition has_month (d : Catalog) (i : Z) : Prop := ∃ c, c ∈ children d ∧ c_name c = name_of i ∧ c_from c = start_of i ∧ c_to c = start_of (i + 1).

Definition grows (d d' : Catalog) : Prop := ∀ c, c ∈ children d → c ∈ children d'.

Section Ahead.
Context (pg : PgEnv) (Hh : healthy pg).

(** Creating the partition of a month, there or not. *)
Lemma create_table_month i (s : @St Catalog Empty_set) :
  printable i → monthly (db s) →
  ∃ d, create_table pg ByTimestamp (name_of i) (start_of i) (start_of (i + 1)) s = (Ok (), mkSt d (S (ops s)) (trace s))
    ∧ monthly d ∧ has_month d i ∧ grows (db s) d.
Proof.
  intros Hi [Hk Hm]. unfold create_table, stmt. rewrite Hh. destruct (existsb _ _) eqn:Ex.
  - exists (db s). split_and!; [done|done| |by intros c]. apply existsb_exists in Ex as (c & Hc%list_elem_of_In & En%String.eqb_eq).
    destruct (Hm c Hc) as (j & Hj & En' & Ef & Et). rewrite En in En'. apply name_of_inj in En'; [|done..]. subst j. by exists c.
  - rewrite Hk, bool_decide_eq_true_2 by done. cbn [negb]. pose proof (start_of_next i) as Hn. destruct (Z.leb_spec (start_of (i + 1)) (start_of i)); [lia|].
    destruct (List.find _ _) as [c|] eqn:Ef.
    + exfalso. apply find_some in Ef as [Hc%list_elem_of_In Ho]. destruct (Hm c Hc) as (j & Hj & En & Ef & Et).
      unfold overlaps in Ho. rewrite Ef, Et in Ho. apply andb_prop in Ho as [H1%Z.ltb_lt H2%Z.ltb_lt].
      assert (j = i) as -> by (destruct (decide (j = i)) as [|Hne]; [done|]; destruct (months_disjoint j i Hne); lia).
      rewrite <- not_true_iff_false in Ex. apply Ex, existsb_exists. exists c. split; [by apply list_elem_of_In|]. by apply String.eqb_eq.
    + eexists. split; [done|]. split_and!.
      * split; [done|]. cbn. intros c [Hc| ->%list_elem_of_singleton]%elem_of_app; [by apply Hm|]. by exists i.
      * exists (mkChild (name_of i) (start_of i) (start_of (i + 1)) 0 0). split; [|done]. cbn. apply elem_of_app. right. by left.
      * intros c Hc. cbn. apply elem_of_app. by left.
Qed.

Lemma create_partition_month i (s : @St Catalog Empty_set) :
  printable i → monthly (db s) →
  ∃ s', create_partition pg (month_at i).1 (month_at i).2 s = (Ok (name_of i), s') ∧ monthly (db s') ∧ has_month (db s') i ∧ grows (db s) (db s').
Proof.
  intros Hi Hm. unfold create_partition. rewrite (bind_ok (clock pg) _ s _ _ eq_refl).
  assert (next_month ((month_at i).1, (month_at i).2) = month_at (i + 1)) as En by (rewrite <- surjective_pairing; apply next_month_at).
  rewrite En. destruct (month_at (i + 1)) as [y' m'] eqn:Em. rewrite month_start_at by by left.
  pose proof (month_start_at (i + 1)) as Hs. rewrite Em in Hs. cbn [fst snd] in Hs. rewrite Hs by (right; by replace (i + 1 - 1) with i by lia).
  cbn [default]. unfold id. change (partition_name (month_at i).1 (month_at i).2) with (name_of i). destruct (create_table_month i (mkSt (db s) (S (ops s)) (trace s)) Hi Hm) as (d & Hd & H1 & H2 & H3).
  rewrite (bind_ok _ _ _ _ _ Hd). unfold create_index. rewrite (bind_ok _ _ _ _ _ (execute_healthy pg _ _ Hh)), (bind_ok _ _ _ _ _ (execute_healthy pg _ _ Hh)),
    (bind_ok _ _ _ _ _ (execute_healthy pg _ _ Hh)). eexists. by split_and!.
Qed.

Lemma create_months_ok n : ∀ i created (s : @St Catalog Empty_set),
  0 ≤ i → i + Z.of_nat n ≤ 12 * 9999 → monthly (db s) →
  ∃ s', create_months pg n (month_at i) created s = (Ok (created ++ map (λ k, name_of (i + Z.of_nat k)) (seq 0 n)), s')
    ∧ monthly (db s') ∧ grows (db s) (db s') ∧ ∀ k, (k < n)%nat → has_month (db s') (i + Z.of_nat k).
Proof.
  induction n as [|n IH]; intros i created s H0 Hn Hm.
  - exists s. split_and!; [cbn; by rewrite app_nil_r|done|by intros c|lia].
  - destruct (create_partition_month i s ltac:(unfold printable; lia) Hm) as (s1 & E1 & Hm1 & Hi & Hg1). cbn [create_months].
    rewrite (bind_ok _ _ _ _ _ (attempt_ok _ _ _ _ E1)), next_month_at.
    destruct (IH (i + 1) (created ++ [name_of i]) s1 ltac:(lia) ltac:(lia) Hm1) as (s2 & E2 & Hm2 & Hg2 & Hall). exists s2. split_and!.
    + rewrite E2. do 2 f_equal. cbn [seq map]. rewrite <- app_assoc. cbn [app]. do 2 f_equal; [f_equal; lia|].
      rewrite <- seq_shift, map_map. apply map_ext. intros k. f_equal. lia.
    + done.
    + intros c Hc. by apply Hg2, Hg1.
    + intros [|k] Hk.
      * replace (i + Z.of_nat 0) with i by lia. destruct Hi as (c & Hc & H). exists c. split; [by apply Hg2|done].
      * replace (i + Z.of_nat (S k)) with (i + 1 + Z.of_nat k) by lia. apply Hall. lia.
Qed.

(** Whatever happens in the months to come has its partition: on a table by
    months, the task leaves one for this month and each of the months ahead. *)
Theorem months_ahead_covered year_month months_ahead (s : @St Catalog Empty_set) i :
  year_month (now pg (ops s)) = month_at i → 0 ≤ i → i + Z.of_nat months_ahead < 12 * 9999 → monthly (db s) →
  ∃ names s', create_future_partitions pg year_month months_ahead s = (Ok names, s') ∧ monthly (db s') ∧ grows (db s) (db s') ∧
    ∀ day, start_of i ≤ day < start_of (i + Z.of_nat (S months_ahead)) → ∃ c, c ∈ children (db s') ∧ c_from c ≤ day < c_to c.
Proof.
  intros Ey H0 Hn Hm. unfold create_future_partitions. rewrite (bind_ok (clock pg) _ s _ _ eq_refl), Ey.
  destruct (create_months_ok (S months_ahead) i [] (mkSt (db s) (S (ops s)) (trace s)) H0 ltac:(lia) Hm) as (s' & E & H1 & H2 & H3).
  eexists _, s'. split_and!; [exact E|done|done|]. intros day Hday.
  assert (∃ k, (k < S months_ahead)%nat ∧ start_of (i + Z.of_nat k) ≤ day < start_of (i + Z.of_nat k + 1)) as (k & Hk & Hd).
  { revert Hday. generalize (S months_ahead). clear. intros n. induction n as [|n IH]; [replace (i + Z.of_nat 0) with i by lia; lia|].
    intros H. destruct (Z.lt_ge_cases day (start_of (i + Z.of_nat n))) as [Hl|Hg].
    - destruct IH as (k & Hk & Hd); [lia|]. exists k. split; [lia|done].
    - exists n. replace (i + Z.of_nat n + 1) with (i + Z.of_nat (S n)) by lia. split; [lia|lia]. }
  destruct (H3 k Hk) as (c & Hc & _ & Ef & Et). exists c. by rewrite Ef, Et.
Qed.
End Ahead.

(** Over the turn of the year, twice. *)
Lemma months_ahead_demo :
  let env := mkPgEnv (λ _, 20800 * day_us) (λ _, None) in
  let run := create_future_partitions env (λ _, (2026, 12)) 2 in
  let s := run (mkSt (mkCatalog ByTimestamp [] [] 0) 0 []) in
  s.1 = Ok ["events_2026_12"; "events_2027_01"; "events_2027_02"]%string ∧
  map c_from (children (db s.2)) = [20788; 20819; 20850] ∧ (run s.2).1 = s.1 ∧ children (db (run s.2).2) = children (db s.2).
Proof. by vm_compute. Qed.

(** ** What pruning tells *)

(** A partition counts as accessed when it can have a row of the query. *)
Lemma accessed_overlap from_ts to_ts p :
  start_date p < end_date p → from_ts < to_ts →
  accessed from_ts to_ts p = true ↔ ∃ t, from_ts ≤ t < to_ts ∧ start_date p * day_us ≤ t < end_date p * day_us.
Proof.
  unfold accessed, day_us. intros H1 H2. rewrite andb_true_iff, !Z.ltb_lt. split; [|intros (t & H3 & H4); lia].
  intros [H3 H4]. exists (Z.max from_ts (start_date p * 86400000000)). lia.
Qed.

(** ** By ledger *)

(** The partitions by ledger cannot be created in the table as it is. *)
Lemma no_ledger_partitions pg start stop (s : @St Catalog Empty_set) :
  key (db s) = ByTimestamp → (∀ c, c ∈ children (db s) → c_name c ≠ ledger_partition_name start stop) →
  ∃ e, (create_ledger_partition pg start stop s).1 = Err e.
Proof.
  intros Hk Hn. unfold create_ledger_partition, create_table, stmt, mbind, M_bind. destruct (db_fault pg (ops s)) as [e|]; [by exists e|].
  destruct (existsb _ _) eqn:Ex; [|rewrite Hk, bool_decide_eq_false_2 by done; by eexists].
  exfalso. apply existsb_exists in Ex as (c & Hc%list_elem_of_In & En%String.eqb_eq). by apply (Hn c Hc).
Qed.

(** None of those that are listed is archived: their names do not begin so. *)
Lemma like_ledger_not_archived n : like_ledger n = true → starts_with "archive_" n = false.
Proof.
  intros H. apply not_true_iff_false. intros Ha. apply andb_prop in H as [[He _]%andb_prop _]. revert He Ha.
  unfold starts_with. rewrite !String.prefix_correct. destruct n as [|a n]; [done|]. cbn. congruence.
Qed.

Theorem archived_never_counted pg (s : @St Catalog Empty_set) stats :
  (get_ledger_partition_stats pg s).1 = Ok stats → archived_partitions stats = 0%nat ∧ active_partitions stats = l_total stats.
Proof.
  unfold get_ledger_partition_stats, list_ledger_partitions, query, stmt, mbind, M_bind. destruct (db_fault pg (ops s)); [done|].
  intros [= <-]. cbn. set (rows := by_name _).
  assert (∀ p, p ∈ omap ledger_info rows → l_archived p = false) as H.
  { intros p (c & Hc & Hp)%list_elem_of_omap. unfold rows, by_name in Hc. rewrite sort_by_permutation in Hc.
    apply list_elem_of_In, filter_In in Hc as [_ Hl%like_ledger_not_archived]. unfold ledger_info in Hp.
    destruct (parse_ledger_partition_range _) as [[a b]|]; [|done]. cbn in Hp. by injection Hp as <-. }
  revert H. generalize (omap ledger_info rows). clear. intros l H. induction l as [|p l IH]; [done|]. cbn.
  rewrite H by left. cbn. destruct IH as [-> ->]; [|done]. intros q Hq. apply H. by right.
Qed.

End Partitions.
